(* ===== verification/_CoqProject ===== *)
-Q . S2P
Prelude.v
Float64.v
Domain.v
Text.v
Scene.v
Frequency.v
Thermal.v
Load.v
ConfigTypes.v
Validate.v
ValidatePolicy.v
ValidateFacts.v
Energy.v
Governor.v
GovernorFacts.v
GovernorTotal.v
Rules.v
RulesFacts.v
Engine.v
EngineFacts.v
Strings.v
ActuatorTypes.v
Scalars.v
Targets.v
Journal.v
JournalFacts.v
Ports.v
FrequencyOps.v
ScalarOps.v
TaskOps.v
UnitOps.v
Recovery.v
Ownership.v
FrequencySafety.v
RestoreSafety.v
ScalarSafety.v
OtherSafety.v
ActuatorSafety.v
SimMachine.v
ActuatorTheorems.v
FrequencyWrites.v
TaskFacts.v
KeyedFacts.v
DaemonTypes.v
Touch.v
Evdev.v
LinuxScheduler.v
Systemd.v
Procfs.v
Sysfs.v
StateStore.v
TouchFacts.v
DecisionTrace.v
Reconcile.v
ReconcileFacts.v
SchedulerFacts.v
DaemonConfig.v
RuntimeTypes.v
Discovery.v
RuntimeEval.v
RuntimeObservers.v
RuntimeInteraction.v
Observers.v
InputFacts.v
InputTheorems.v
Service.v
Startup.v
RuntimeControl.v
Client.v
CommandLine.v
ConfigWatch.v
Controllers.v
RuntimeBarriers.v
RuntimeLoop.v
Published.v
RuntimeProtocol.v
ProtocolFacts.v
RuntimeRefines.v
MachineFacts.v
RuntimeTheorems.v
