(* ===== verification/Prelude.v ===== *)
(** * uperf-linux-rev in Rocq

    uperf-linux-rev is a performance daemon for Linux, a Rust workspace under
    [src/crates]. It samples load, temperature, input and processes, evaluates
    a policy, and moves CPU frequency limits, scalar sysfs attributes, task
    scheduling state and systemd unit properties accordingly; a recovery
    journal lets it, or the next instance after a crash, put everything back.
    This library models the program from the kernel interfaces up to the
    command line: the decision side ([uperf-core]), the mutation side
    ([uperf-actuator]), the adapters ([uperf-linux]), the daemon
    ([uperf-daemon]), the client library ([uperf-api]) and the tool
    ([uperfctl]).

    * How the parts interact

    Validated documents (config.rs) are resolved against discovered hardware
    (discovery.rs, the daemon's config.rs) and build a policy engine
    (policy.rs). The state owner (runtime.rs) consumes commands from the
    control service (service.rs, authorised by auth.rs), input events, samples
    and ticks. Each evaluation turns its snapshot into a desired plan: the
    application rules choose a profile, the hints a scene, both the effective
    parameters; the thermal guard gives caps; the governor (energy.rs) chooses
    limits from loads, the energy model and the energy bucket; every pair is
    constrained to the hardware, administrator and thermal caps; the scheduler
    rules choose task plans. The plan goes as jobs to the frequency and the
    scheduler worker, which run the reconciler (reconcile.rs) on the actuator
    under a safety fence and a mutation gate. The actuator claims a resource in
    the durable journal before it touches it, writes, reads back, and rolls
    back on failure. For sleep and stop the owner quiesces the workers and
    restores everything. At startup (main.rs) a journal that was left behind is
    recovered before any configuration is read; afterwards inotify
    (config_watch.rs) triggers reloads.

    * The files, in dependency order

    Shared: [Prelude] (machine integers, results, ordered maps, lists),
    [Float64] (IEEE binary64 on [SpecFloat], signs and magnitudes), [Text]
    (UTF-8, messages as their pieces, path components), [Strings] (decimal
    numbers, trimming, splitting, UTF-8 decoding).

    Decision side (uperf-core).
    - [Domain] (domain.rs); [Scene], [Frequency], [Thermal], [Load] (the parts
      of policy.rs with a state of their own).
    - [ConfigTypes], [Validate], [ValidatePolicy] (config.rs: the documents,
      the validators as functions to the issues they push, materialisation);
      [ValidateFacts] (what a document without issues guarantees).
    - [Energy], [Governor] (energy.rs: model expansion, [transition_governor]
      phase by phase); [GovernorFacts], [GovernorTotal].
    - [Rules], [Engine] (matchers and rules, [evaluate_base] and
      [evaluate_stateful] of policy.rs); [RulesFacts], [EngineFacts].

    Mutation side (uperf-actuator/src/lib.rs).
    - [ActuatorTypes], [Scalars], [Targets]: values, scalar domains, targets,
      manifests, the registry. [Journal], [JournalFacts]: entries, masks, the
      validator and its declarative specification.
    - [Ports]: the traits of uperf-platform as a class over a world [W]; the
      state [St W] is the world, the runtime state behind the mutex and a log
      of port calls; [M W] is the state and error monad, with [Panic] apart
      from [Err].
    - [FrequencyOps], [ScalarOps], [TaskOps], [UnitOps], [Recovery]: every
      transaction and accessor, statement by statement;
      [Recovery.reachable] is the actuator as a step relation.
    - [Ownership] (weakest preconditions, quiet routines, durable journals, the
      invariant), [FrequencySafety], [RestoreSafety], [ScalarSafety],
      [OtherSafety], [ActuatorSafety] (each transaction keeps it),
      [KeyedFacts] (the journal is filed by identity), [TaskFacts],
      [FrequencyWrites], [ActuatorTheorems]; [SimMachine] is an executable
      machine and codec.
    - [StateStore]: [FileStateStore] over a class of file system calls, with
      what a crash may leave as laws of those calls.

    Adapters (uperf-linux).
    - [Touch], [Evdev] (input.rs) with [TouchFacts]; [LinuxScheduler]
      (scheduler.rs); [Systemd] (systemd.rs: codecs, the property transaction,
      the owner thread and its queue); [Procfs] (procfs.rs); [Sysfs]
      (sysfs.rs); [Discovery] (discovery.rs, environment.rs).

    The daemon (uperf-daemon).
    - [DaemonTypes], [DecisionTrace] (decision_trace.rs), [DaemonConfig]
      (config.rs), [Reconcile] (reconcile.rs) with [ReconcileFacts] and
      [SchedulerFacts].
    - runtime.rs: [RuntimeTypes] (the fields of [RuntimeActor], grouped),
      [RuntimeEval], [RuntimeObservers], [RuntimeInteraction],
      [RuntimeControl], [RuntimeBarriers], [RuntimeLoop] (the handlers, and the
      machine of the owner and its workers), [Published] (the snapshot and what
      is announced after a turn). [RuntimeProtocol] is the abstract
      worker protocol; [ProtocolFacts] proves its invariant, [RuntimeRefines]
      that every handler is a sequence of its moves, [MachineFacts] that every
      run of the machine is a run of the protocol; [SimDaemon],
      [RuntimeTheorems].
    - [Observers] (observers.rs: the input thread, sleep and session) with
      [InputFacts] and [InputTheorems]; [Service] (auth.rs, service.rs: every
      mutating method, running workloads, the signal pump); [Startup] (main.rs:
      options, identity of boot and device, the recovery registry and
      allowlist, recovery before configuration); [ConfigWatch]
      (config_watch.rs); [Controllers] (conflicts.rs).

    Clients. [Client] (contract.rs, client.rs, error.rs of uperf-api, and the
    capabilities the daemon's config.rs advertises); [CommandLine] (args.rs and
    main.rs of uperfctl).

    * What the theorems show

    - Ownership. Whatever the ports answer and wherever the process dies, every
      attribute write is covered by every journal that could be durable then
      ([ActuatorTheorems.actuator_writes_covered]), and so is every write of
      the whole daemon ([RuntimeTheorems.daemon_writes_are_covered]); failed
      batches leave the ownership records or enter the degraded mode; stored
      journals decode, the validator accepts exactly the valid ones; the file
      is replaced atomically ([StateStore.journal_file_atomic]); recovery
      covers exactly the journal ([Startup.recovery_covers_journal]) and never
      applies a foreign one ([Startup.foreign_journal_not_applied]).
    - The state owner. The daemon refines the worker protocol
      ([RuntimeTheorems.daemon_refines_protocol]), hence a restoration excludes
      every mutation, a daemon that is asleep owns nothing, results are
      awaited, a latch is final, and the fence follows the thermal state. The
      reconciler is a client of the actuator
      ([ReconcileFacts.reconciler_refines_actuator]) and leaves the fence
      holding ([SchedulerFacts.fence_holds_after_reconcile]).
    - Frequencies. A desired plan stays under every cap
      ([EngineFacts.desired_plan_under_caps]), the governor is total
      ([GovernorTotal.governor_total]), constraining returns the best supported
      pair ([Frequency.constrain_best_supported]), models are well formed
      ([Energy.from_config_wf]), the thermal guard converges
      ([Thermal.thermal_converges]).
    - Scheduling. Real-time plans keep off the housekeeping CPUs from the
      configuration to the request ([SchedulerFacts.resolved_tasks_isolated]);
      decisions are confined to the user's workload; a unit is claimed on
      evidence only; writes of tasks and units are transactions
      ([LinuxScheduler.scheduling_transaction],
      [Systemd.unit_write_transaction]), the owner of the bus serialises its
      clients ([Systemd.owner_serialises]); an identity belongs to one process
      ([Procfs.identity_of_one_process]); an undisturbed task gets its state
      back ([TaskFacts.undisturbed_restore_exact]).
    - Inputs. Touch events are histories of contacts and no contact sticks
      ([InputTheorems]); discovery ends and registers usable targets
      ([Discovery.discovery_registry]); adapters stay below their root and in
      their allowlist ([Sysfs.sysfs_confined]); no configuration change is lost
      ([ConfigWatch.config_changes_reload]); competing controllers are reported
      exactly ([Controllers.controllers_reported]).
    - Clients. Commands are authorised ([Startup.commands_authorised]); the
      published snapshot shows the present state and no change of it is silent
      ([Published.published_state_coherent]); clients are informed
      ([Service.client_informed]); trace pages refine the history
      ([DecisionTrace.trace_refines_history]); a command line means what it
      parses to and decimals are exact ([CommandLine]); an override that the
      published capabilities allow is installed
      ([Published.advertised_override_installed]).

    * Integers, floats, bounds and fuel

    Integers are [Z] with saturation, wrap-around (release profile) and checked
    operations written out at their width. Floats are [spec_float] at precision
    53 and exponent 1024, computed, never axiomatised. Loops whose
    end depends on the world have fuel. [settle_loop] polls every 2 ms until
    50 ms have passed, so 26 rounds ([settle_fuel]) reach the deadline of any
    clock that advances by what is slept
    ([FrequencyWrites.wait_for_limits_total]); out of fuel is a [Panic]. A
    scheduler tool is polled every 5 ms until its second has passed, 201 polls
    ([LinuxScheduler]). The search for a free devfreq identifier tries more
    candidates than identifiers are taken, and [Discovery.discovery_registry]
    proves that it finds one. Reading an identity restarts at most once
    ([IDENTITY_FUEL]). Decoding UTF-8 has one round per byte. The waits of the
    input thread ([wait_loop], [send_input_with_backpressure],
    [wait_for_input_change]) last until something happens outside: they run for
    any number of rounds, the theorems hold for each, and a wait that is not over
    returns no answer. The scan of the units recurses on the depth the code
    allows.
    A job of a worker is one step of the machine: the mutation gate serialises
    the halves that mutate and what precedes the gate only observes. A panic
    while a lock is held poisons it ([mc_poisoned]), and nothing is claimed
    afterwards.

    * Parameters

    Code that is not in the repository is an argument, mostly a class over an
    arbitrary world: the kernel and systemd behind [Ports] (only [clock_laws]
    is ever assumed), [Evdev], [SchedulerKernel], [SystemdBus], [ProcKernel],
    [SysfsKernel], [DiscoveryKernel], [StoreKernel], [Inotify],
    [ControllerFs]; the message bus, logind and PolicyKit behind [ServiceBus],
    [PumpBus] and [DaemonBus]; JSON and CRC-32 behind [JournalCodec] and
    [scalar_json]; SHA-256; regular expressions behind [RegexEngine];
    [f64::exp] and [f64::hypot]. Internal seams are classes too:
    [SchedulingApi], [Environment], [IdentityReader], [Ingress],
    [StartupEnv]. The witnesses instantiate them with concrete functions.

    * What is not modelled

    JSON and D-Bus encoding, rendering of messages (their arguments are kept),
    logging; the task orchestration of [run] in main.rs (spawning, supervision
    and joining of threads and tasks) and the D-Bus streams of the observers,
    which are plumbing of tokio and zbus; the read-only methods that clone the
    published snapshot; the printing of the tool and its check of a
    configuration directory; the graphical interface, the probe and the test
    kit. *)

From stdpp Require Export prelude gmap strings sorting.
From Stdlib Require Export ZArith Lia.

#[global] Open Scope Z_scope.

(** ** Machine integers

    Unsigned and signed machine integers are [Z]; the operations the code uses
    are written out at their width. *)

Definition u64_max : Z := 18446744073709551615.
Definition u32_max : Z := 4294967295.

Definition is_u64 (z : Z) : Prop := 0 <= z <= u64_max.
Definition is_u32 (z : Z) : Prop := 0 <= z <= u32_max.
Definition is_i64 (z : Z) : Prop := -9223372036854775808 <= z <= 9223372036854775807.

(** [u64::saturating_add], [saturating_sub], [saturating_mul]. *)
Definition sat_add (a b : Z) : Z := Z.min (a + b) u64_max.
Definition sat_sub (a b : Z) : Z := Z.max (a - b) 0.
Definition sat_mul (a b : Z) : Z := Z.min (a * b) u64_max.

(** [u64] wrap-around (release profile) and [u64::checked_mul]. *)
Definition wrap_u64 (z : Z) : Z := z mod 18446744073709551616.
Definition checked_mul (a b : Z) : option Z :=
  if decide (a * b <= u64_max) then Some (a * b) else None.

(** Release-profile [i64] arithmetic. *)
Definition wrap_i64 (z : Z) : Z :=
  (z + 9223372036854775808) mod 18446744073709551616 - 9223372036854775808.

Lemma wrap_i64_exact z : is_i64 z -> wrap_i64 z = z.
Proof. unfold is_i64, wrap_i64. intros Hz. rewrite Z.mod_small; lia. Qed.

Definition abs_diff (a b : Z) : Z := Z.abs (a - b).

(** [u64::is_multiple_of]: a zero divisor divides only zero. *)
Definition is_multiple_of (a q : Z) : bool :=
  if q =? 0 then a =? 0 else a mod q =? 0.

#[global] Instance is_u64_dec z : Decision (is_u64 z).
Proof. unfold is_u64. apply _. Defined.

Ltac unfold_int :=
  unfold is_u64, is_u32, is_i64, sat_add, sat_sub, sat_mul, abs_diff,
    u64_max, u32_max in *.

Lemma sat_add_u64 a b : is_u64 a -> is_u64 b -> is_u64 (sat_add a b).
Proof. unfold_int. lia. Qed.

Lemma sat_sub_u64 a b : is_u64 a -> is_u64 b -> is_u64 (sat_sub a b).
Proof. unfold_int. lia. Qed.

Lemma sat_mul_u64 a b : is_u64 a -> is_u64 b -> is_u64 (sat_mul a b).
Proof. unfold_int. nia. Qed.

Lemma sat_sub_spec a b : b <= a -> sat_sub a b = a - b.
Proof. unfold_int. lia. Qed.

(** ** Results

    A Rust function returns [Ok], returns [Err], or panics (a failed
    assertion, an index out of range). *)

Inductive res (A E : Type) : Type :=
| Ok (a : A)
| Err (e : E)
| Panic.
Arguments Ok {A E} a.
Arguments Err {A E} e.
Arguments Panic {A E}.

Definition res_bind {A B E} (r : res A E) (k : A -> res B E) : res B E :=
  match r with
  | Ok a => k a
  | Err e => Err e
  | Panic => Panic
  end.

Definition map_err {A E F} (f : E -> F) (r : res A E) : res A F :=
  match r with
  | Ok a => Ok a
  | Err e => Err (f e)
  | Panic => Panic
  end.

Definition ok_or {A E} (o : option A) (e : E) : res A E :=
  match o with Some a => Ok a | None => Err e end.

(** [if b { return Err(e) }] and [assert!(b)]. *)
Definition reject_if {E} (b : bool) (e : E) : res unit E :=
  if b then Err e else Ok tt.
Definition assert_that {E} (b : bool) : res unit E :=
  if b then Ok tt else Panic.

Definition is_ok {A E} (r : res A E) : bool :=
  match r with Ok _ => true | _ => false end.

Declare Scope res_scope.
Delimit Scope res_scope with res.
Notation "'let?' x ':=' c 'in' k" := (res_bind c (fun x => k))
  (at level 10, x pattern, c at level 100, k at level 200,
   format "'let?'  x  ':='  c  'in' '//' k") : res_scope.
Notation "'do?' c 'in' k" := (res_bind c (fun _ => k))
  (at level 10, c at level 100, k at level 200,
   format "'do?'  c  'in' '//' k") : res_scope.
#[global] Open Scope res_scope.

Lemma res_bind_Ok {A B E} (r : res A E) (k : A -> res B E) b :
  res_bind r k = Ok b <-> exists a, r = Ok a /\ k a = Ok b.
Proof.
  destruct r; simpl; split; try done; eauto; by intros (? & [= <-] & ?).
Qed.

Lemma res_bind_Err {A B E} (r : res A E) (k : A -> res B E) e :
  res_bind r k = Err e <-> r = Err e \/ exists a, r = Ok a /\ k a = Err e.
Proof.
  destruct r; simpl; split; try done; eauto.
  - by intros [?|(? & [= <-] & ?)].
  - intros [= ->]. by left.
  - by intros [[= ->]|(? & ? & ?)].
  - by intros [?|(? & ? & ?)].
Qed.

Lemma res_bind_no_panic {A B E} (r : res A E) (k : A -> res B E) :
  r <> Panic -> (forall a, r = Ok a -> k a <> Panic) -> res_bind r k <> Panic.
Proof. destruct r; simpl; auto. Qed.


Lemma reject_if_Ok {E} (b : bool) (e : E) u : reject_if b e = Ok u <-> b = false.
Proof. by destruct b, u. Qed.

Lemma reject_if_Err {E} (b : bool) (e e' : E) :
  reject_if b e = Err e' <-> b = true /\ e = e'.
Proof. destruct b; simpl; split; try done; try (by intros [= ->]); by intros [? ->]. Qed.

Lemma ok_or_Ok {A E} (o : option A) (e : E) a : ok_or o e = Ok a <-> o = Some a.
Proof. destruct o; simpl; split; congruence. Qed.

(** [iter().map(f).collect::<Result<Vec<_>, _>>()]: the first error stops. *)
Fixpoint res_mapM {A B E} (f : A -> res B E) (l : list A) : res (list B) E :=
  match l with
  | [] => Ok []
  | x :: l => let? y := f x in let? ys := res_mapM f l in Ok (y :: ys)
  end.

(** A [for] loop whose body may return early with an error. *)
Fixpoint res_foldM {A S E} (f : S -> A -> res S E) (s : S) (l : list A) : res S E :=
  match l with
  | [] => Ok s
  | x :: l => let? s' := f s x in res_foldM f s' l
  end.

Lemma res_mapM_Ok {A B E} (f : A -> res B E) l k :
  res_mapM f l = Ok k <-> Forall2 (fun x y => f x = Ok y) l k.
Proof.
  revert k. induction l as [|x l IH]; intros k; simpl.
  - split; [intros [= <-]; constructor | inversion 1; done].
  - rewrite res_bind_Ok. split.
    + intros (y & Hy & (ys & Hys%IH & [= <-])%res_bind_Ok). by constructor.
    + inversion 1 as [|? y ? ys Hy Hys]; simplify_eq. exists y. split; [done|].
      apply res_bind_Ok. exists ys. split; [by apply IH | done].
Qed.

Lemma res_mapM_no_panic {A B E} (f : A -> res B E) l :
  (forall x, x ∈ l -> f x <> Panic) -> res_mapM f l <> Panic.
Proof.
  induction l as [|x l IH]; intros Hf; [done|]. simpl.
  apply res_bind_no_panic; [apply Hf; set_solver|]. intros y _.
  apply res_bind_no_panic; [apply IH; set_solver | done].
Qed.

(** Rule induction for loops: an invariant of every completed iteration holds
    at the end. *)
Lemma res_foldM_inv {A S E} (f : S -> A -> res S E) (P : S -> Prop) l s s' :
  P s ->
  (forall s x s', x ∈ l -> P s -> f s x = Ok s' -> P s') ->
  res_foldM f s l = Ok s' -> P s'.
Proof.
  revert s. induction l as [|x l IH]; intros s Hs Hf; simpl.
  - by intros [= <-].
  - intros (s1 & H1 & H2)%res_bind_Ok. apply (IH s1); [| |done].
    + by apply (Hf s x); [set_solver|..].
    + intros s2 y s3 ?. apply (Hf s2 y s3). set_solver.
Qed.

Lemma res_foldM_no_panic {A S E} (f : S -> A -> res S E) (P : S -> Prop) l s :
  P s ->
  (forall s x, x ∈ l -> P s -> f s x <> Panic) ->
  (forall s x s', x ∈ l -> P s -> f s x = Ok s' -> P s') ->
  res_foldM f s l <> Panic.
Proof.
  revert s. induction l as [|x l IH]; intros s Hs Hf Hp; simpl; [done|].
  apply res_bind_no_panic; [by apply Hf; [set_solver|]|].
  intros s1 H1. apply IH.
  - by apply (Hp s x); [set_solver|..].
  - intros s2 y Hy. apply (Hf s2 y). set_solver.
  - intros s2 y s3 Hy. apply (Hp s2 y s3). set_solver.
Qed.

(** ** Options *)

Definition is_some_and {A} (o : option A) (p : A -> bool) : bool :=
  match o with Some a => p a | None => false end.
Definition is_none_or {A} (o : option A) (p : A -> bool) : bool :=
  match o with Some a => p a | None => true end.
Definition unwrap_or {A} (o : option A) (d : A) : A :=
  match o with Some a => a | None => d end.
Definition or_else {A} (o : option A) (d : option A) : option A :=
  match o with Some a => Some a | None => d end.
Definition map_or {A B} (o : option A) (d : B) (f : A -> B) : B :=
  match o with Some a => f a | None => d end.

(** ** Ordered maps and sets

    A [BTreeMap] is a [gmap]; where the code iterates over it, the entries
    are listed in key order. *)

Class KeyOrd (K : Type) `{Countable K} := {
  key_le : relation K;
  #[global] key_le_dec :: RelDecision key_le;
  key_le_po : PartialOrder key_le;
  key_le_total : Total key_le;
}.

#[global] Instance string_key_ord : KeyOrd string :=
  {| key_le := String.le; key_le_po := _; key_le_total := _ |}.
#[global] Instance Z_key_ord : KeyOrd Z :=
  {| key_le := Z.le; key_le_po := _; key_le_total := _ |}.

Section ordered_maps.
Context {K V : Type} `{KeyOrd K}.

Definition entry_le (a b : K * V) : Prop := key_le a.1 b.1.

#[global] Instance entry_le_dec a b : Decision (entry_le a b).
Proof. unfold entry_le. apply _. Defined.

(** [map.iter()]: the entries in ascending key order. *)
Definition entries (m : gmap K V) : list (K * V) :=
  merge_sort entry_le (map_to_list m).
Definition values (m : gmap K V) : list V := (entries m).*2.
Definition keys (m : gmap K V) : list K := (entries m).*1.

Lemma entries_perm m : entries m ≡ₚ map_to_list m.
Proof. apply merge_sort_Permutation. Qed.

Lemma elem_of_entries m k v : (k, v) ∈ entries m <-> m !! k = Some v.
Proof. by rewrite entries_perm, elem_of_map_to_list. Qed.

Lemma elem_of_values m v : v ∈ values m <-> exists k, m !! k = Some v.
Proof.
  unfold values. rewrite list_elem_of_fmap. split.
  - intros ([k w] & -> & Hin%elem_of_entries). by exists k.
  - intros [k Hk]. exists (k, v). by rewrite elem_of_entries.
Qed.

Lemma NoDup_keys m : NoDup (keys m).
Proof. unfold keys. rewrite entries_perm. apply NoDup_fst_map_to_list. Qed.

Lemma entries_sorted m : StronglySorted entry_le (entries m).
Proof.
  pose proof key_le_po. apply StronglySorted_merge_sort.
  - intros a b c. unfold entry_le. apply transitivity.
  - intros a b. unfold entry_le. apply key_le_total.
Qed.

Lemma entries_empty : entries ∅ = [].
Proof. unfold entries. by rewrite map_to_list_empty. Qed.
End ordered_maps.

(** ** Lists *)

(** [iter().max_by_key(f)] keeps the last of equal maxima,
    [iter().min_by_key(f)] the first of equal minima. *)
Section best_by_key.
Context {A : Type} (f : A -> Z).

Definition max_by_key (l : list A) : option A :=
  foldl (fun best x =>
    match best with
    | None => Some x
    | Some y => if f y <=? f x then Some x else Some y
    end) None l.

Definition min_by_key (l : list A) : option A :=
  foldl (fun best x =>
    match best with
    | None => Some x
    | Some y => if f x <? f y then Some x else Some y
    end) None l.

Lemma max_by_key_spec l :
  match max_by_key l with
  | None => l = []
  | Some m => m ∈ l /\ forall x, x ∈ l -> f x <= f m
  end.
Proof.
  unfold max_by_key. induction l as [|x l IH] using rev_ind; [done|].
  rewrite foldl_app. simpl. destruct (foldl _ None l) as [m|] eqn:Hm.
  - destruct IH as [Hin Hle]. destruct (Z.leb_spec (f m) (f x)).
    + split; [set_solver|]. intros y [Hy%Hle| ->%list_elem_of_singleton]%elem_of_app; lia.
    + split; [set_solver|]. intros y [Hy%Hle| ->%list_elem_of_singleton]%elem_of_app; lia.
  - subst l. split; [set_solver|]. intros y Hy. set_solver by lia.
Qed.

Lemma min_by_key_spec l :
  match min_by_key l with
  | None => l = []
  | Some m => m ∈ l /\ forall x, x ∈ l -> f m <= f x
  end.
Proof.
  unfold min_by_key. induction l as [|x l IH] using rev_ind; [done|].
  rewrite foldl_app. simpl. destruct (foldl _ None l) as [m|] eqn:Hm.
  - destruct IH as [Hin Hle]. destruct (Z.ltb_spec (f x) (f m)).
    + split; [set_solver|]. intros y [Hy%Hle| ->%list_elem_of_singleton]%elem_of_app; lia.
    + split; [set_solver|]. intros y [Hy%Hle| ->%list_elem_of_singleton]%elem_of_app; lia.
  - subst l. split; [set_solver|]. intros y Hy. set_solver by lia.
Qed.

Lemma max_by_key_Some l m :
  max_by_key l = Some m -> m ∈ l /\ forall x, x ∈ l -> f x <= f m.
Proof. intros Hm. pose proof (max_by_key_spec l) as Hs. by rewrite Hm in Hs. Qed.

Lemma max_by_key_None l : max_by_key l = None <-> l = [].
Proof.
  split; [|by intros ->]. intros Hm.
  pose proof (max_by_key_spec l) as Hs. by rewrite Hm in Hs.
Qed.

Lemma min_by_key_Some l m :
  min_by_key l = Some m -> m ∈ l /\ forall x, x ∈ l -> f m <= f x.
Proof. intros Hm. pose proof (min_by_key_spec l) as Hs. by rewrite Hm in Hs. Qed.

Lemma min_by_key_None l : min_by_key l = None <-> l = [].
Proof.
  split; [|by intros ->]. intros Hm.
  pose proof (min_by_key_spec l) as Hs. by rewrite Hm in Hs.
Qed.
End best_by_key.

(** [iter().min()] and [iter().max()] over integers. *)
Notation list_min := (min_by_key (fun z : Z => z)).
Notation list_max := (max_by_key (fun z : Z => z)).

Lemma elem_of_filter_bool {A} (p : A -> bool) l x :
  x ∈ List.filter p l <-> x ∈ l /\ p x = true.
Proof. by rewrite !list_elem_of_In, filter_In. Qed.

Lemma NoDup_fmap_filter {A B} (f : A -> B) (p : A -> bool) l :
  NoDup (f <$> l) -> NoDup (f <$> List.filter p l).
Proof.
  intros Hnd. eapply sublist_NoDup; [exact Hnd|]. apply fmap_sublist.
  clear. induction l as [|x l IH]; simpl; [constructor|]. destruct (p x); by constructor.
Qed.

(** [Vec::dedup]: drop consecutive repetitions. *)
Fixpoint dedup (l : list Z) : list Z :=
  match l with
  | [] => []
  | x :: l' =>
      match l' with
      | y :: _ => if x =? y then dedup l' else x :: dedup l'
      | [] => [x]
      end
  end.

(** [sort_unstable(); dedup();] *)
Definition sort_dedup (l : list Z) : list Z := dedup (merge_sort Z.le l).

Lemma elem_of_dedup l x : x ∈ dedup l <-> x ∈ l.
Proof.
  induction l as [|y [|z l] IH]; [done|done|].
  change (dedup (y :: z :: l)) with
    (if y =? z then dedup (z :: l) else y :: dedup (z :: l)).
  destruct (Z.eqb_spec y z) as [->|Hne]; rewrite ?elem_of_cons, IH; set_solver.
Qed.

Lemma elem_of_sort_dedup l x : x ∈ sort_dedup l <-> x ∈ l.
Proof. unfold sort_dedup. by rewrite elem_of_dedup, merge_sort_Permutation. Qed.

Lemma dedup_sorted l : StronglySorted Z.le l -> StronglySorted Z.lt (dedup l).
Proof.
  induction l as [|y [|z l] IH]; intros Hs; [constructor|by repeat constructor|].
  change (dedup (y :: z :: l)) with
    (if y =? z then dedup (z :: l) else y :: dedup (z :: l)).
  apply StronglySorted_inv in Hs as [Hs Hy].
  destruct (Z.eqb_spec y z) as [->|Hne]; [by apply IH|].
  constructor; [by apply IH|]. apply Forall_forall. intros x Hx. rewrite elem_of_dedup in Hx.
  apply StronglySorted_inv in Hs as [_ Hz].
  rewrite Forall_cons in Hy. destruct Hy as [Hyz _].
  apply elem_of_cons in Hx as [->|Hx]; [lia|].
  rewrite Forall_forall in Hz. specialize (Hz x Hx). lia.
Qed.

Lemma sort_dedup_sorted l : StronglySorted Z.lt (sort_dedup l).
Proof. apply dedup_sorted, StronglySorted_merge_sort; apply _. Qed.

Lemma sort_dedup_nil l : sort_dedup l = [] <-> l = [].
Proof.
  split; [|by intros ->]. intros Hs. destruct l as [|x l]; [done|].
  assert (Hx : x ∈ sort_dedup (x :: l)) by (apply elem_of_sort_dedup; set_solver).
  rewrite Hs in Hx. set_solver.
Qed.
