(* ===== verification/Float64.v ===== *)
(** * IEEE-754 binary64 arithmetic

    The [f64] of the code is the [spec_float] of the standard library at
    precision 53 and maximal exponent 1024: round-to-nearest-even arithmetic
    with signed zeros, infinities and one NaN, which evaluates. Comparison is
    related to a lexicographic order on integers, so that order facts about
    floats are proved by [lia]. *)

From Stdlib Require Import SpecFloat.
From S2P Require Import Prelude.

Definition f64 : Type := spec_float.

Definition f64_add : f64 -> f64 -> f64 := SFadd 53 1024.
Definition f64_sub : f64 -> f64 -> f64 := SFsub 53 1024.
Definition f64_mul : f64 -> f64 -> f64 := SFmul 53 1024.
Definition f64_div : f64 -> f64 -> f64 := SFdiv 53 1024.
Definition f64_neg : f64 -> f64 := SFopp.

(** [z as f64] for an integer, rounded to nearest even. *)
Definition f64_of_Z (z : Z) : f64 := binary_normalize 53 1024 z 0 false.

(** The literal [n/d]; [n] and [d] are exact, so this is the literal's
    correctly rounded value. *)
Definition f64_lit (n d : Z) : f64 := f64_div (f64_of_Z n) (f64_of_Z d).

Definition f64_zero : f64 := S754_zero false.
Definition f64_neg_zero : f64 := S754_zero true.
Definition f64_one : f64 := f64_of_Z 1.
Definition f64_infinity : f64 := S754_infinity false.
(** [f64::EPSILON] is 2^-52. *)
Definition f64_epsilon : f64 := f64_lit 1 4503599627370496.

Definition f64_is_nan (x : f64) : bool :=
  match x with S754_nan => true | _ => false end.
Definition f64_is_finite (x : f64) : bool :=
  match x with S754_zero _ | S754_finite _ _ _ => true | _ => false end.

Definition f64_lt (x y : f64) : bool := SFltb x y.
Definition f64_le (x y : f64) : bool := SFleb x y.
Notation f64_gt x y := (f64_lt y x).
Notation f64_ge x y := (f64_le y x).

(** [f64::max] and [f64::min] ignore a NaN operand. *)
Definition f64_max (x y : f64) : f64 :=
  if f64_is_nan x then y else if f64_is_nan y then x
  else if f64_lt x y then y else x.
Definition f64_min (x y : f64) : f64 :=
  if f64_is_nan x then y else if f64_is_nan y then x
  else if f64_lt y x then y else x.

(** [f64::clamp] without its assertion [min <= max], which [clamp_ok] states. *)
Definition f64_clamp (x lo hi : f64) : f64 :=
  let x := if f64_lt x lo then lo else x in
  if f64_gt x hi then hi else x.
Definition clamp_ok (lo hi : f64) : Prop := f64_le lo hi = true.

(** [a.mul_add(b, c)]: the exact [a * b + c], rounded once. *)
Definition f64_mul_add (a b c : f64) : f64 :=
  match a, b with
  | S754_finite sa ma ea, S754_finite sb mb eb =>
      let sp := xorb sa sb in
      let mp := (ma * mb)%positive in
      let ep := ea + eb in
      match c with
      | S754_finite sc mc ec =>
          let ez := Z.min ep ec in
          binary_normalize 53 1024
            (cond_Zopp sp (Zpos (fst (shl_align mp ep ez))) +
             cond_Zopp sc (Zpos (fst (shl_align mc ec ez)))) ez false
      | S754_zero _ => f64_mul a b
      | _ => c
      end
  | _, _ => f64_add (f64_mul a b) c
  end.

(** [powi]: repeated squaring. *)
Fixpoint f64_pow_pos (x : f64) (n : positive) : f64 :=
  match n with
  | xH => x
  | xO n => f64_pow_pos (f64_mul x x) n
  | xI n => f64_mul x (f64_pow_pos (f64_mul x x) n)
  end.

(** [iter().sum()] folds from negative zero. *)
Definition f64_sum (l : list f64) : f64 := foldl f64_add f64_neg_zero l.

(** [Duration::from_millis(ms).as_secs_f64()]. *)
Definition millis_as_secs (ms : Z) : f64 :=
  f64_add (f64_of_Z (ms / 1000))
    (f64_div (f64_of_Z (ms mod 1000 * 1000000)) (f64_of_Z 1000000000)).

(** ** Order *)

(** The order of non-NaN floats is the lexicographic order of this key. *)
Definition f64_key (x : f64) : Z * Z * Z :=
  match x with
  | S754_zero _ => (0, 0, 0)
  | S754_infinity s => (if s then -2 else 2, 0, 0)
  | S754_nan => (3, 0, 0)
  | S754_finite s m e => if s then (-1, - e, Zneg m) else (1, e, Zpos m)
  end.

Definition lex_lt (a b : Z * Z * Z) : Prop :=
  a.1.1 < b.1.1 \/ (a.1.1 = b.1.1 /\
    (a.1.2 < b.1.2 \/ (a.1.2 = b.1.2 /\ a.2 < b.2))).
Definition lex_le (a b : Z * Z * Z) : Prop := ~ lex_lt b a.

(** [f64::total_cmp]: as [<=], but -0 is below +0 and NaN is above all. The
    model has one NaN, the positive one. *)
Definition total_key (x : f64) : Z * Z * Z :=
  match x with
  | S754_zero true => (0, -1, 0)
  | _ => f64_key x
  end.
Definition f64_total_lt (x y : f64) : Prop := lex_lt (total_key x) (total_key y).
Definition f64_total_eq (x y : f64) : Prop := total_key x = total_key y.

#[global] Instance lex_lt_dec a b : Decision (lex_lt a b).
Proof. unfold lex_lt. apply _. Defined.
#[global] Instance lex_le_dec a b : Decision (lex_le a b).
Proof. unfold lex_le. apply _. Defined.
#[global] Instance f64_total_lt_dec x y : Decision (f64_total_lt x y).
Proof. unfold f64_total_lt. apply _. Defined.

#[global] Instance f64_eq_dec : EqDecision f64.
Proof. solve_decision. Defined.

Ltac unfold_lex := unfold lex_le, lex_lt in *; simpl in *.

Lemma f64_compare_key x y :
  f64_is_nan x = false -> f64_is_nan y = false ->
  match SFcompare x y with
  | Some Lt => lex_lt (f64_key x) (f64_key y)
  | Some Eq => f64_key x = f64_key y
  | Some Gt => lex_lt (f64_key y) (f64_key x)
  | None => False
  end.
Proof.
  destruct x as [sx|sx| |sx mx ex], y as [sy|sy| |sy my ey]; try done; intros _ _;
    try (by destruct sx; try destruct sy; unfold_lex; try lia).
  destruct sx, sy; unfold_lex; try lia; destruct (Z.compare_spec ex ey); try lia;
    subst; fold (Pos.compare mx my); destruct (Pos.compare_spec mx my); subst;
    simpl; try done; lia.
Qed.

Lemma f64_lt_key x y :
  f64_is_nan x = false -> f64_is_nan y = false ->
  f64_lt x y = true <-> lex_lt (f64_key x) (f64_key y).
Proof.
  intros Hx Hy. pose proof (f64_compare_key x y Hx Hy) as Hc.
  unfold f64_lt, SFltb. destruct (SFcompare x y) as [[]|]; try done.
  all: rewrite ?Hc; unfold_lex; split; try done; lia.
Qed.

Lemma f64_le_key x y :
  f64_is_nan x = false -> f64_is_nan y = false ->
  f64_le x y = true <-> lex_le (f64_key x) (f64_key y).
Proof.
  intros Hx Hy. pose proof (f64_compare_key x y Hx Hy) as Hc.
  unfold f64_le, SFleb. destruct (SFcompare x y) as [[]|]; try done.
  all: rewrite ?Hc; unfold_lex; split; try done; lia.
Qed.

Lemma f64_lt_not_nan x y : f64_lt x y = true -> f64_is_nan x = false /\ f64_is_nan y = false.
Proof. by destruct x as [[]|[]| |[]], y as [[]|[]| |[]]. Qed.

Lemma f64_le_not_nan x y : f64_le x y = true -> f64_is_nan x = false /\ f64_is_nan y = false.
Proof. by destruct x as [[]|[]| |[]], y as [[]|[]| |[]]. Qed.

Lemma f64_finite_not_nan x : f64_is_finite x = true -> f64_is_nan x = false.
Proof. by destruct x. Qed.

(** Turns float comparisons on non-NaN operands into integer facts. *)
Ltac f64_order :=
  repeat match goal with
  | H : f64_lt ?x ?y = true |- _ =>
      let H1 := fresh "Hn" in let H2 := fresh "Hn" in
      destruct (f64_lt_not_nan _ _ H) as [H1 H2];
      apply (proj1 (f64_lt_key x y H1 H2)) in H
  | H : f64_le ?x ?y = true |- _ =>
      let H1 := fresh "Hn" in let H2 := fresh "Hn" in
      destruct (f64_le_not_nan _ _ H) as [H1 H2];
      apply (proj1 (f64_le_key x y H1 H2)) in H
  | H : f64_lt ?x ?y = false, Hx : f64_is_nan ?x = false, Hy : f64_is_nan ?y = false |- _ =>
      apply not_true_iff_false in H; rewrite (f64_lt_key x y Hx Hy) in H
  | H : f64_le ?x ?y = false, Hx : f64_is_nan ?x = false, Hy : f64_is_nan ?y = false |- _ =>
      apply not_true_iff_false in H; rewrite (f64_le_key x y Hx Hy) in H
  | Hx : f64_is_nan ?x = false, Hy : f64_is_nan ?y = false |- f64_le ?x ?y = true =>
      apply (proj2 (f64_le_key x y Hx Hy))
  | Hx : f64_is_nan ?x = false, Hy : f64_is_nan ?y = false |- f64_lt ?x ?y = true =>
      apply (proj2 (f64_lt_key x y Hx Hy))
  end; unfold_lex; try lia.

Lemma f64_le_refl x : f64_is_nan x = false -> f64_le x x = true.
Proof. intros Hx. apply f64_le_key; [done..|]. unfold_lex. lia. Qed.

Lemma f64_le_trans x y z : f64_le x y = true -> f64_le y z = true -> f64_le x z = true.
Proof. intros. f64_order. Qed.

Lemma f64_lt_le x y : f64_lt x y = true -> f64_le x y = true.
Proof. intros. f64_order. Qed.

Lemma f64_nlt_le x y :
  f64_is_nan x = false -> f64_is_nan y = false ->
  f64_lt x y = false -> f64_le y x = true.
Proof. intros. f64_order. Qed.

(** A non-NaN value clamped to a proper interval lies in the interval. *)
Lemma f64_clamp_bounds x lo hi :
  f64_is_nan x = false -> clamp_ok lo hi ->
  f64_le lo (f64_clamp x lo hi) = true /\ f64_le (f64_clamp x lo hi) hi = true.
Proof.
  intros Hx Hok. unfold clamp_ok in Hok. destruct (f64_le_not_nan _ _ Hok) as [Hl Hh].
  unfold f64_clamp. destruct (f64_lt x lo) eqn:E1.
  - destruct (f64_lt hi lo) eqn:E2; split; auto using f64_le_refl.
  - destruct (f64_lt hi x) eqn:E2; split; auto using f64_le_refl, f64_nlt_le.
Qed.

Lemma f64_clamp_not_nan x lo hi :
  f64_is_nan x = false -> clamp_ok lo hi -> f64_is_nan (f64_clamp x lo hi) = false.
Proof.
  intros Hx Hok. destruct (f64_clamp_bounds x lo hi Hx Hok) as [H _].
  by apply f64_le_not_nan in H as [_ ?].
Qed.

(** [finite_unit]-style range: a float between 0 and 1. *)
Definition in_unit (x : f64) : Prop :=
  f64_le f64_zero x = true /\ f64_le x f64_one = true.

Lemma in_unit_zero : in_unit f64_zero.
Proof. by split. Qed.
Lemma in_unit_one : in_unit f64_one.
Proof. by split. Qed.

Lemma in_unit_finite x : in_unit x -> f64_is_finite x = true.
Proof. unfold in_unit. destruct x as [[]|[]| |[]]; naive_solver. Qed.

Lemma f64_min_le_l x y : f64_is_nan x = false -> f64_le (f64_min x y) x = true.
Proof.
  intros Hx. unfold f64_min. rewrite Hx. destruct (f64_is_nan y) eqn:Hy.
  - by apply f64_le_refl.
  - destruct (f64_lt y x) eqn:E; [by apply f64_lt_le | by apply f64_le_refl].
Qed.

Lemma f64_min_le_r x y : f64_is_nan y = false -> f64_le (f64_min x y) y = true.
Proof.
  intros Hy. unfold f64_min. destruct (f64_is_nan x) eqn:Hx; [by apply f64_le_refl|].
  rewrite Hy. destruct (f64_lt y x) eqn:E; [by apply f64_le_refl | by apply f64_nlt_le].
Qed.

#[export] Hint Resolve f64_le_refl f64_lt_le f64_nlt_le f64_finite_not_nan
  in_unit_zero in_unit_one : f64.

(** * Signs and magnitudes of float results

    Facts about the rounding of [spec_float] that the models need to know that
    no value is NaN: results keep the sign of the exact value, and operations
    on operands of bounded magnitude are finite. *)

(** A magnitude bound: finite and below 2^k. *)
Definition mag (k : Z) (x : f64) : Prop :=
  match x with
  | S754_zero _ => True
  | S754_finite _ m e => Zpos m < 2 ^ (k - e) /\ e <= k
  | _ => False
  end.

(** Has sign [s]: the sign bit is [s] and the value is not NaN. *)
Definition signed (s : bool) (x : f64) : Prop :=
  match x with
  | S754_zero s' | S754_infinity s' | S754_finite s' _ _ => s' = s
  | S754_nan => False
  end.

Definition nonneg (x : f64) : Prop := f64_le f64_zero x = true.

Lemma signed_not_nan s x : signed s x -> f64_is_nan x = false.
Proof. by destruct x. Qed.

Lemma signed_nonneg x : signed false x -> nonneg x.
Proof. by destruct x as [[]|[]| |[]]. Qed.

Lemma mag_finite k x : mag k x -> f64_is_finite x = true.
Proof. by destruct x. Qed.

Lemma mag_mono k k' x : k <= k' -> mag k x -> mag k' x.
Proof.
  intros Hk. destruct x as [| | |s m e]; simpl; try done. intros [Hm He]. split; [|lia].
  eapply Z.lt_le_trans; [exact Hm|]. apply Z.pow_le_mono_r; lia.
Qed.

(** ** Shifting *)

Lemma iter_pos_nat {A} (f : A -> A) (p : positive) (x : A) :
  SpecFloat.iter_pos f p x = Nat.iter (Pos.to_nat p) f x.
Proof.
  revert x. induction p as [p IH|p IH|]; intros x; cbn [SpecFloat.iter_pos]; [| |done].
  - rewrite !IH, <- Nat.iter_add.
    replace (Pos.to_nat p~1) with (Pos.to_nat p + Pos.to_nat p + 1)%nat by lia.
    by rewrite (Nat.iter_add _ 1).
  - rewrite !IH, <- Nat.iter_add. f_equal. lia.
Qed.

Lemma shr_1_spec r : 0 <= shr_m r -> shr_m (shr_1 r) = shr_m r / 2.
Proof.
  destruct r as [[|[p|p|]|p] r s]; simpl; intros Hm; try done.
  - rewrite (Pos2Z.inj_xI p). apply (Z.div_unique _ _ _ 1); lia.
  - rewrite (Pos2Z.inj_xO p). apply (Z.div_unique _ _ _ 0); lia.
Qed.

Lemma shr_iter_spec n r : 0 <= shr_m r -> shr_m (Nat.iter n shr_1 r) = shr_m r / 2 ^ Z.of_nat n.
Proof.
  intros Hr. induction n as [|n IH]; simpl; [by rewrite Z.div_1_r|].
  rewrite shr_1_spec; rewrite IH; [|by apply Z.div_pos, Z.pow_pos_nonneg; lia].
  rewrite Z.div_div by lia. f_equal.
  rewrite Nat2Z.inj_succ, Z.pow_succ_r by lia. lia.
Qed.

Lemma shr_spec r e n : 0 <= shr_m r ->
  shr_m (shr r e n).1 = shr_m r / 2 ^ Z.max 0 n /\ (shr r e n).2 = e + Z.max 0 n.
Proof.
  intros Hr. unfold shr. destruct n as [|p|p]; simpl; rewrite ?Z.div_1_r; [lia| |lia].
  rewrite iter_pos_nat, shr_iter_spec by done. by rewrite positive_nat_Z.
Qed.

Lemma shr_record_m m l : shr_m (shr_record_of_loc m l) = m.
Proof. by destruct l as [|[]]. Qed.

Lemma round_nearest_bounds m l : 0 <= m -> m <= round_nearest_even m l <= m + 1.
Proof. destruct l as [|[]]; simpl; [lia| |lia|lia]. destruct (Z.even m); lia. Qed.

(** ** Rounding *)

Lemma shr_fexp_sign m e l : 0 <= m -> 0 <= shr_m (shr_fexp 53 1024 m e l).1.
Proof.
  intros Hm. unfold shr_fexp.
  destruct (shr_spec (shr_record_of_loc m l) e
    (fexp 53 1024 (Zdigits2 m + e) - e)) as [-> _]; rewrite shr_record_m; [done|].
  by apply Z.div_pos, Z.pow_pos_nonneg; lia.
Qed.

Lemma round_aux_signed s m e l : 0 <= m -> signed s (binary_round_aux 53 1024 s m e l).
Proof.
  intros Hm. unfold binary_round_aux. pose proof (shr_fexp_sign m e l Hm) as H1.
  destruct (shr_fexp 53 1024 m e l) as [r1 e1]. simpl in H1.
  pose proof (round_nearest_bounds _ (loc_of_shr_record r1) H1) as [H2 _].
  pose proof (shr_fexp_sign (round_nearest_even (shr_m r1) (loc_of_shr_record r1)) e1 loc_Exact)
    as H3.
  destruct (shr_fexp _ _ _ e1 _) as [r2 e2]. simpl in H3.
  destruct (shr_m r2) as [|p|p]; [done| |lia]. by destruct (e2 <=? 1024 - 53).
Qed.

Lemma digits2_pos_lower p : 2 ^ (Zpos (digits2_pos p) - 1) <= Zpos p.
Proof.
  induction p as [p IH|p IH|]; simpl; [| |done].
  all: rewrite Pos2Z.inj_succ; replace (Z.succ (Zpos (digits2_pos p)) - 1)
    with (Z.succ (Zpos (digits2_pos p) - 1)) by lia; rewrite Z.pow_succ_r by lia; lia.
Qed.

Lemma Zdigits2_le m j : 0 <= m < 2 ^ j -> 0 <= j -> Zdigits2 m <= j.
Proof.
  intros Hm Hj. destruct m as [|p|p]; simpl; [done| |lia].
  pose proof (digits2_pos_lower p) as Hd.
  assert (2 ^ (Zpos (digits2_pos p) - 1) < 2 ^ j) as Hlt by lia.
  apply Z.pow_lt_mono_r_iff in Hlt; lia.
Qed.

(** One shift-and-round step keeps the bound and an exponent that is not too
    large. *)
Lemma shr_fexp_mag m e l k :
  0 <= m < 2 ^ (k - e) -> e <= k -> -1000 <= k -> e <= 900 -> k <= 950 ->
  let r := shr_fexp 53 1024 m e l in
  0 <= shr_m r.1 < 2 ^ (k - r.2) /\ r.2 <= k /\ r.2 <= 900.
Proof.
  intros Hm He Hk He9 Hk9. unfold shr_fexp. simpl.
  pose proof (Zdigits2_le m (k - e) Hm ltac:(lia)) as Hd.
  set (n := fexp 53 1024 (Zdigits2 m + e) - e).
  destruct (shr_spec (shr_record_of_loc m l) e n) as [-> ->]; rewrite shr_record_m; [lia|].
  assert (Hn : Z.max 0 n <= k - e) by (subst n; unfold fexp, emin; lia).
  assert (Hn9 : e + Z.max 0 n <= 900) by (subst n; unfold fexp, emin; lia).
  split_and!; [apply Z.div_pos; [lia|apply Z.pow_pos_nonneg; lia] | | lia | done].
  apply Z.div_lt_upper_bound; [apply Z.pow_pos_nonneg; lia|].
  rewrite <- Z.pow_add_r by lia.
  replace (Z.max 0 n + (k - (e + Z.max 0 n))) with (k - e) by lia. lia.
Qed.

Lemma round_aux_mag s m e l k :
  0 <= m < 2 ^ (k - e) -> e <= k -> -1000 <= k -> e <= 900 -> k <= 900 ->
  mag (k + 1) (binary_round_aux 53 1024 s m e l).
Proof.
  intros Hm He Hk He9 Hk9. unfold binary_round_aux.
  destruct (shr_fexp_mag m e l k Hm He Hk He9 ltac:(lia)) as (H1 & H2 & H3).
  destruct (shr_fexp 53 1024 m e l) as [r1 e1]. simpl in *.
  set (q := round_nearest_even (shr_m r1) (loc_of_shr_record r1)).
  assert (Hq : 0 <= q < 2 ^ (k + 1 - e1)).
  { pose proof (round_nearest_bounds _ (loc_of_shr_record r1) (proj1 H1)).
    replace (k + 1 - e1) with (Z.succ (k - e1)) by lia. rewrite Z.pow_succ_r by lia. subst q. lia. }
  destruct (shr_fexp_mag q e1 loc_Exact (k + 1) Hq ltac:(lia) ltac:(lia) ltac:(lia) ltac:(lia))
    as (H4 & H5 & H6).
  destruct (shr_fexp 53 1024 q e1 loc_Exact) as [r2 e2]. simpl in *.
  destruct (shr_m r2) as [|p|p]; [done| |lia].
  destruct (Z.leb_spec e2 (1024 - 53)); [simpl; lia|lia].
Qed.

Lemma shl_align_value m e e' : e' <= e ->
  Zpos (fst (shl_align m e e')) = Zpos m * 2 ^ (e - e') /\ snd (shl_align m e e') = e'.
Proof.
  intros He. unfold shl_align. destruct (e' - e) as [|d|d] eqn:Hd; simpl; [|lia|].
  - replace (e - e') with 0 by lia. lia.
  - split; [|done]. replace (e - e') with (Zpos d) by lia.
    clear Hd. induction d as [|d IH] using Pos.peano_ind; simpl; [lia|].
    rewrite Pos.iter_succ, Pos2Z.inj_succ, Z.pow_succ_r by lia. lia.
Qed.

Lemma binary_round_signed s m e : signed s (binary_round 53 1024 s m e).
Proof.
  unfold binary_round. destruct (shl_align _ _ _) as [mz ez]. apply round_aux_signed. lia.
Qed.

Lemma normalize_not_nan m e : f64_is_nan (binary_normalize 53 1024 m e false) = false.
Proof. by destruct m; simpl; [|eapply signed_not_nan, binary_round_signed..]. Qed.

Lemma normalize_signed m e : 0 <= m -> signed false (binary_normalize 53 1024 m e false).
Proof. destruct m; simpl; intros; [done|apply binary_round_signed|lia]. Qed.

Lemma f64_of_Z_nonneg z : 0 <= z -> nonneg (f64_of_Z z).
Proof. intros. by apply signed_nonneg, normalize_signed. Qed.

(** ** Magnitude of each operation *)

Lemma binary_round_mag s m e k :
  Zpos m < 2 ^ (k - e) -> e <= k -> -1000 <= k <= 900 -> e <= 900 ->
  mag (k + 1) (binary_round 53 1024 s m e).
Proof.
  intros Hm He Hk He9. unfold binary_round.
  set (e' := fexp 53 1024 (Zpos (digits2_pos m) + e)). unfold shl_align.
  destruct (e' - e) as [|d|d] eqn:Hd; [apply round_aux_mag; lia..|].
  pose proof (shl_align_value m e e' ltac:(lia)) as [Hv _]. unfold shl_align in Hv.
  rewrite Hd in Hv. cbn [fst] in Hv. apply round_aux_mag; [|lia..].
  rewrite Hv. split; [apply Z.mul_nonneg_nonneg; [lia|apply Z.pow_nonneg; lia]|].
  replace (k - e') with ((k - e) + (e - e')) by lia. rewrite Z.pow_add_r by lia.
  apply Z.mul_lt_mono_pos_r; [apply Z.pow_pos_nonneg; lia | lia].
Qed.

Lemma normalize_mag m e k sz :
  Z.abs m < 2 ^ (k - e) -> e <= k -> -1000 <= k <= 900 -> e <= 900 ->
  mag (k + 1) (binary_normalize 53 1024 m e sz).
Proof. destruct m; simpl; intros; [done|by apply binary_round_mag..]. Qed.

Lemma f64_of_Z_mag z k : 0 <= k <= 900 -> Z.abs z < 2 ^ k -> mag (k + 1) (f64_of_Z z).
Proof. intros Hk Hz. apply normalize_mag; rewrite ?Z.sub_0_r; lia. Qed.

Lemma f64_of_u64_mag z : is_u64 z -> mag 65 (f64_of_Z z).
Proof. intros Hz. apply (f64_of_Z_mag z 64); unfold_int; lia. Qed.

Lemma mag_mul x y j k :
  mag j x -> mag k y -> 0 <= j <= 300 -> 0 <= k <= 300 -> mag (j + k + 1) (f64_mul x y).
Proof.
  destruct x as [| | |sx mx ex], y as [| | |sy my ey]; try done.
  intros [Hx Hex] [Hy Hey] Hj Hk. unfold f64_mul, SFmul. apply round_aux_mag; [|lia..].
  replace (j + k - (ex + ey)) with ((j - ex) + (k - ey)) by lia.
  rewrite Z.pow_add_r, Pos2Z.inj_mul by lia. split; [lia|].
  apply Z.mul_lt_mono_nonneg; lia.
Qed.

Lemma aligned_mag s m e ez k :
  Zpos m < 2 ^ (k - e) -> ez <= e -> e <= k ->
  Z.abs (cond_Zopp s (Zpos (fst (shl_align m e ez)))) < 2 ^ (k - ez).
Proof.
  intros Hm He Hk. destruct (shl_align_value m e ez He) as [Hv _].
  replace (Z.abs (cond_Zopp s (Zpos (fst (shl_align m e ez)))))
    with (Zpos (fst (shl_align m e ez))) by (destruct s; cbn [cond_Zopp]; lia).
  rewrite Hv. replace (k - ez) with ((k - e) + (e - ez)) by lia. rewrite Z.pow_add_r by lia.
  apply Z.mul_lt_mono_pos_r; [apply Z.pow_pos_nonneg; lia | lia].
Qed.

Lemma abs_add_sub_lt a b P :
  Z.abs a < P -> Z.abs b < P -> Z.abs (a + b) < 2 * P /\ Z.abs (a - b) < 2 * P.
Proof. lia. Qed.

Lemma mag_add x y k : mag k x -> mag k y -> 0 <= k <= 800 -> mag (k + 2) (f64_add x y).
Proof.
  destruct x as [sx| | |sx mx ex], y as [sy| | |sy my ey]; try done; intros Hx Hy Hk.
  - by destruct sx, sy.
  - apply (mag_mono k); [lia | done].
  - apply (mag_mono k); [lia | done].
  - destruct Hx as [Hx Hex], Hy as [Hy Hey]. unfold f64_add, SFadd.
    replace (k + 2) with ((k + 1) + 1) by lia. apply normalize_mag; [|lia..].
    pose proof (aligned_mag sx mx ex (Z.min ex ey) k Hx ltac:(lia) Hex).
    pose proof (aligned_mag sy my ey (Z.min ex ey) k Hy ltac:(lia) Hey).
    replace (k + 1 - Z.min ex ey) with (Z.succ (k - Z.min ex ey)) by lia.
    rewrite Z.pow_succ_r by lia. by apply abs_add_sub_lt.
Qed.

Lemma mag_neg x k : mag k x -> mag k (f64_neg x).
Proof. by destruct x. Qed.

Lemma mag_sub x y k : mag k x -> mag k y -> 0 <= k <= 800 -> mag (k + 2) (f64_sub x y).
Proof.
  destruct x as [sx| | |sx mx ex], y as [sy| | |sy my ey]; try done; intros Hx Hy Hk.
  - by destruct sx, sy.
  - by apply (mag_mono k); [lia | done].
  - apply (mag_mono k); [lia | done].
  - destruct Hx as [Hx Hex], Hy as [Hy Hey]. unfold f64_sub, SFsub.
    replace (k + 2) with ((k + 1) + 1) by lia. apply normalize_mag; [|lia..].
    pose proof (aligned_mag sx mx ex (Z.min ex ey) k Hx ltac:(lia) Hex).
    pose proof (aligned_mag sy my ey (Z.min ex ey) k Hy ltac:(lia) Hey).
    replace (k + 1 - Z.min ex ey) with (Z.succ (k - Z.min ex ey)) by lia.
    rewrite Z.pow_succ_r by lia. by apply abs_add_sub_lt.
Qed.

Lemma add_nonneg x y : nonneg x -> nonneg y -> nonneg (f64_add x y).
Proof.
  destruct x as [sx|sx| |sx mx ex], y as [sy|sy| |sy my ey]; try done;
    try (by destruct sx); try (by destruct sy); try (by destruct sx, sy);
    destruct sx, sy; try done.
  intros _ _. apply signed_nonneg, normalize_signed. simpl. lia.
Qed.

Lemma mul_nonneg x y j k :
  nonneg x -> nonneg y -> mag j x -> mag k y -> nonneg (f64_mul x y).
Proof.
  destruct x as [sx|sx| |sx mx ex], y as [sy|sy| |sy my ey]; try done;
    intros Hx Hy _ _; try (by destruct sx, sy).
  destruct sx, sy; try done. apply signed_nonneg, round_aux_signed. lia.
Qed.

(** ** Integers *)

Lemma shr_fexp_pos m e l : 0 < m -> -1000 <= e ->
  0 < shr_m (shr_fexp 53 1024 m e l).1 /\ e <= (shr_fexp 53 1024 m e l).2.
Proof.
  intros Hm He. unfold shr_fexp. set (n := fexp 53 1024 (Zdigits2 m + e) - e).
  destruct (shr_spec (shr_record_of_loc m l) e n) as [-> ->]; rewrite shr_record_m; [lia|].
  split; [|lia]. apply Z.div_str_pos. split; [apply Z.pow_pos_nonneg; lia|].
  destruct m as [|p|p]; [lia| |lia]. etransitivity; [|apply digits2_pos_lower].
  apply Z.pow_le_mono_r; [lia|]. subst n. unfold fexp, emin. simpl Zdigits2. lia.
Qed.

Lemma round_aux_pos m e l k :
  0 < m < 2 ^ (k - e) -> e <= k -> -1000 <= e <= 900 -> k <= 900 ->
  exists p e', binary_round_aux 53 1024 false m e l = S754_finite false p e' /\ e <= e'.
Proof.
  intros Hm He He9 Hk. pose proof (round_aux_mag false m e l k) as Hmag.
  specialize (Hmag ltac:(lia) He ltac:(lia) ltac:(lia) Hk). unfold binary_round_aux in *.
  destruct (shr_fexp_pos m e l) as [H1 H2]; [lia..|].
  destruct (shr_fexp 53 1024 m e l) as [r1 e1]. simpl in *.
  pose proof (round_nearest_bounds (shr_m r1) (loc_of_shr_record r1) ltac:(lia)) as Hq.
  destruct (shr_fexp_pos (round_nearest_even (shr_m r1) (loc_of_shr_record r1)) e1 loc_Exact)
    as [H3 H4]; [lia..|].
  destruct (shr_fexp _ _ _ e1 _) as [r2 e2]. simpl in *.
  destruct (shr_m r2) as [|p|p]; [lia| |lia].
  destruct (e2 <=? _); [|done]. exists p, e2. split; [done|lia].
Qed.

(** A positive machine integer converts to a positive finite float. *)
Lemma f64_of_Z_pos z : 0 < z <= u64_max ->
  exists p e, f64_of_Z z = S754_finite false p e /\ -64 <= e.
Proof.
  intros Hz. destruct z as [|m|m]; [lia| |lia]. unfold f64_of_Z. simpl. unfold binary_round.
  assert (Hd : Zpos (digits2_pos m) <= 64).
  { apply (Zdigits2_le (Zpos m) 64); [|lia]. unfold_int. lia. }
  set (e0 := fexp 53 1024 (Zpos (digits2_pos m) + 0)).
  assert (He0 : -64 <= e0 <= 64) by (subst e0; unfold fexp, emin; lia).
  unfold u64_max in Hz. unfold shl_align.
  destruct (e0 - 0) as [|d|d] eqn:Hd0.
  1-2: destruct (round_aux_pos (Zpos m) 0 loc_Exact 64) as (p & e & -> & ?);
    [lia..|]; exists p, e; split; [done|lia].
  pose proof (shl_align_value m 0 e0 ltac:(lia)) as [Hv _]. unfold shl_align in Hv.
  rewrite Hd0 in Hv. cbn [fst] in Hv.
  assert (Hlt : Zpos m * 2 ^ (0 - e0) < 2 ^ (64 - e0)).
  { replace (64 - e0) with (64 + (0 - e0)) by lia. rewrite Z.pow_add_r by lia.
    apply Z.mul_lt_mono_pos_r; [apply Z.pow_pos_nonneg; lia | lia]. }
  destruct (round_aux_pos (Zpos (Pos.iter xO m d)) e0 loc_Exact 64) as (p & e & -> & ?); [|lia..|].
  - rewrite Hv. split; [apply Z.mul_pos_pos; [lia|apply Z.pow_pos_nonneg; lia]|done].
  - exists p, e. split; [done|lia].
Qed.

(** ** Division of machine integers *)

Lemma div_core_spec m1 e1 m2 e2 :
  let '(q, e, _) := SFdiv_core_binary 53 1024 (Zpos m1) e1 (Zpos m2) e2 in
  e <= e1 - e2 /\ 0 <= q <= Zpos m1 * 2 ^ (e1 - e2 - e).
Proof.
  unfold SFdiv_core_binary. set (e := Z.min _ (e1 - e2)).
  assert (He : e <= e1 - e2) by (subst e; lia).
  set (m' := match e1 - e2 - e with
             | Zpos _ => Z.shiftl (Zpos m1) (e1 - e2 - e) | Z0 => Zpos m1 | Zneg _ => 0 end).
  assert (Hm' : m' = Zpos m1 * 2 ^ (e1 - e2 - e)).
  { subst m'. rewrite <- Z.shiftl_mul_pow2 by lia.
    by destruct (e1 - e2 - e) eqn:E; [rewrite Z.shiftl_0_r| |lia]. }
  pose proof (Z_div_mod m' (Zpos m2) ltac:(lia)) as Hdm.
  destruct (Z.div_eucl m' (Zpos m2)) as [q r]. destruct Hdm as [Hq Hr].
  rewrite <- Hm'. assert (0 <= m') by (rewrite Hm'; apply Z.mul_nonneg_nonneg; [lia|apply Z.pow_nonneg; lia]).
  split; [done|]. nia.
Qed.

Lemma div_nonneg x y :
  nonneg x -> nonneg y -> f64_is_finite x = true -> f64_is_finite y = true ->
  (forall s, y <> S754_zero s) -> nonneg (f64_div x y).
Proof.
  destruct x as [sx| | |sx mx ex], y as [sy| | |sy my ey]; try done; intros Hx Hy _ _ Hz;
    try (by destruct (Hz sy)); try (by destruct sx); destruct sx, sy; try done. unfold f64_div, SFdiv.
  pose proof (div_core_spec mx ex my ey) as Hd.
  destruct (SFdiv_core_binary _ _ _ _ _ _) as [[q e] l].
  apply signed_nonneg, round_aux_signed. lia.
Qed.

Lemma div_mag x sy my ey k :
  mag k x -> 0 <= k - ey <= 800 -> 0 <= k <= 800 -> mag (k - ey + 1) (f64_div x (S754_finite sy my ey)).
Proof.
  destruct x as [| | |sx mx ex]; try done. intros [Hx Hex] Hk Hk8. unfold f64_div, SFdiv.
  pose proof (div_core_spec mx ex my ey) as Hd.
  destruct (SFdiv_core_binary _ _ _ _ _ _) as [[q e] l]. destruct Hd as [He Hq].
  apply round_aux_mag; [|lia..]. split; [lia|]. eapply Z.le_lt_trans; [apply Hq|].
  replace (k - ey - e) with ((k - ex) + (ex - ey - e)) by lia. rewrite Z.pow_add_r by lia.
  apply Z.mul_lt_mono_pos_r; [apply Z.pow_pos_nonneg; lia | lia].
Qed.
