(* ===== verification/Domain.v ===== *)
(** * Fundamental units, identities and state ([uperf-core/src/domain.rs])

    [Hertz], [MonotonicMillis], [CpuId], [ProcessId] and [UserId] are
    single-field wrappers around machine integers; they are [Z] here, with
    their range stated where it matters. *)

From S2P Require Import Prelude Float64.

Notation Hertz := Z (only parsing).
Notation MilliCelsius := Z (only parsing).
Notation MonotonicMillis := Z (only parsing).
Notation CpuId := Z (only parsing).

(** [MonotonicMillis::saturating_add] and [saturating_duration_since]. *)
Definition saturating_add (now duration_ms : MonotonicMillis) : MonotonicMillis :=
  sat_add now duration_ms.
Definition saturating_duration_since (now earlier : MonotonicMillis) : Z :=
  sat_sub now earlier.

(** ** Bytes *)

Definition byte_of (c : Ascii.ascii) : Z := Z.of_N (Ascii.N_of_ascii c).

Definition is_ascii_digit (c : Ascii.ascii) : bool :=
  (48 <=? byte_of c) && (byte_of c <=? 57).
Definition is_ascii_alphanumeric (c : Ascii.ascii) : bool :=
  is_ascii_digit c
  || ((65 <=? byte_of c) && (byte_of c <=? 90))
  || ((97 <=? byte_of c) && (byte_of c <=? 122)).

(** [matches!(byte, b'.' | b'_' | b'-')] *)
Definition is_target_punct (c : Ascii.ascii) : bool :=
  (byte_of c =? 46) || (byte_of c =? 95) || (byte_of c =? 45).

Definition bytes (s : string) : list Ascii.ascii := String.list_ascii_of_string s.

(** [str::len] *)
Definition str_len (s : string) : Z := Z.of_nat (String.length s).

Lemma length_bytes s : Z.of_nat (length (bytes s)) = str_len s.
Proof. unfold bytes, str_len. induction s as [|c s IH]; simpl; lia. Qed.

(** ** Target identifiers *)

Definition MAX_LEN : Z := 64.

Record InvalidTargetId := { invalid_value : string }.

(** [TargetId::new]; a [TargetId] is the string it wraps. *)
Definition TargetId_new (value : string) : res string InvalidTargetId :=
  let valid :=
    negb (str_len value =? 0)
    && (str_len value <=? MAX_LEN)
    && match bytes value with
       | [] => false
       | first :: rest =>
           is_ascii_alphanumeric first
           && forallb (fun b => is_ascii_alphanumeric b || is_target_punct b) rest
       end in
  if valid then Ok value else Err {| invalid_value := value |}.

(** ** CPU sets *)

Notation CpuSet := (gset CpuId).

Definition CpuSet_from_ids (ids : list CpuId) : CpuSet := list_to_set ids.
Definition CpuSet_is_empty (s : CpuSet) : bool := bool_decide (s = ∅).
Definition CpuSet_intersection (a b : CpuSet) : CpuSet := a ∩ b.
Definition CpuSet_is_disjoint (a b : CpuSet) : bool := bool_decide (a ## b).
Definition CpuSet_is_subset (a b : CpuSet) : bool := bool_decide (a ⊆ b).
(** Iteration is in ascending order, as in the underlying [BTreeSet]. *)
Definition CpuSet_iter (s : CpuSet) : list CpuId := merge_sort Z.le (elements s).

(** ** Processes *)

Record ProcessIdentity := {
  pid : Z;
  start_time_ticks : Z;
  uid : Z;
}.

Record ProcessInfo := {
  identity : ProcessIdentity;
  owner_control_safe : bool;
  comm : string;
  executable : option string;
  desktop_id : option string;
}.

#[global] Instance ProcessIdentity_eq_dec : EqDecision ProcessIdentity.
Proof. solve_decision. Defined.

#[global] Instance ProcessIdentity_countable : Countable ProcessIdentity.
Proof.
  refine (inj_countable' (fun i => (pid i, start_time_ticks i, uid i))
    (fun '(a, b, c) => {| pid := a; start_time_ticks := b; uid := c |}) _).
  by intros [].
Defined.

(** The derived [Ord]: fields in declaration order. *)
Definition process_identity_le (a b : ProcessIdentity) : Prop :=
  lex_le (pid a, start_time_ticks a, uid a) (pid b, start_time_ticks b, uid b).

#[global] Program Instance process_identity_key_ord : KeyOrd ProcessIdentity :=
  {| key_le := process_identity_le |}.
Next Obligation. intros a b. unfold process_identity_le. apply _. Defined.
Next Obligation.
  unfold process_identity_le. repeat split.
  - intros a. unfold_lex. lia.
  - intros a b c. unfold_lex. lia.
  - intros [p s u] [p' s' u']. unfold_lex. intros.
    assert (p = p' /\ s = s' /\ u = u') as (-> & -> & ->) by lia. done.
Qed.
Next Obligation. intros a b. unfold process_identity_le. unfold_lex. lia. Qed.

(** ** Sensors and frequency limits *)

Inductive SensorHealth := Healthy | Stale | Unavailable.
#[global] Instance SensorHealth_eq_dec : EqDecision SensorHealth.
Proof. solve_decision. Defined.

Record ThermalReading := {
  temperature : option MilliCelsius;
  sampled_at : MonotonicMillis;
  health : SensorHealth;
}.

(** Inclusive minimum and maximum frequency. *)
Record FrequencyLimits := { lim_min : Hertz; lim_max : Hertz }.

#[global] Instance FrequencyLimits_eq_dec : EqDecision FrequencyLimits.
Proof. solve_decision. Defined.

Inductive InvalidFrequencyLimits := Reversed (min max : Hertz).

Definition FrequencyLimits_new (min max : Hertz) : res FrequencyLimits InvalidFrequencyLimits :=
  if min <=? max then Ok {| lim_min := min; lim_max := max |} else Err (Reversed min max).

Definition is_valid (l : FrequencyLimits) : bool := lim_min l <=? lim_max l.

Record ObservedFrequency := {
  obs_limits : FrequencyLimits;
  obs_current : option Hertz;
}.

Record ObservedState := {
  timestamp : MonotonicMillis;
  cpu_loads : gmap CpuId f64;
  obs_frequencies : gmap string ObservedFrequency;
  thermal : gmap string ThermalReading;
}.

(** ** Plans *)

Inductive SchedulingClass := Other | Batch | IdleClass | Fifo.
#[global] Instance SchedulingClass_eq_dec : EqDecision SchedulingClass.
Proof. solve_decision. Defined.

Inductive ScalarSettingValue :=
| SettingInteger (z : Z)
| SettingString (s : string)
| SettingCpuList (cpus : CpuSet).
#[global] Instance ScalarSettingValue_eq_dec : EqDecision ScalarSettingValue.
Proof. solve_decision. Defined.

(** Partial scheduling intent: an absent field keeps the task's value. *)
Record TaskPlan := {
  affinity : option CpuSet;
  nice : option Z;
  scheduling_class : option SchedulingClass;
  rt_priority : option Z;
  uclamp_min : option Z;
  uclamp_max : option Z;
}.
#[global] Instance TaskPlan_eq_dec : EqDecision TaskPlan.
Proof. solve_decision. Defined.

(** ** Properties of the identifiers and sets *)

Lemma TargetId_new_inv v v' :
  TargetId_new v = Ok v' ->
  v' = v /\ 1 <= str_len v <= MAX_LEN /\
  exists c rest, bytes v = c :: rest /\ is_ascii_alphanumeric c = true /\
    Forall (fun b => is_ascii_alphanumeric b || is_target_punct b = true) rest.
Proof.
  unfold TargetId_new. destruct (_ && _) eqn:E; [|done]. intros [= <-].
  rewrite !andb_true_iff, negb_true_iff in E. destruct E as [[E0 E1] E2].
  split; [done|]. split; [unfold str_len in *; lia|].
  destruct (bytes v) as [|c rest]; [done|]. apply andb_true_iff in E2 as [Ec Er].
  exists c, rest. split_and!; [done..|]. apply Forall_forall. intros x Hx.
  rewrite forallb_forall in Er. apply Er. by apply list_elem_of_In.
Qed.

Lemma target_byte_not_slash b :
  is_ascii_alphanumeric b || is_target_punct b = true -> byte_of b <> 47.
Proof.
  unfold is_ascii_alphanumeric, is_target_punct, is_ascii_digit. intros H Hb.
  by rewrite Hb in H.
Qed.

Lemma CpuSet_iter_elem s c : c ∈ CpuSet_iter s <-> c ∈ s.
Proof. unfold CpuSet_iter. by rewrite merge_sort_Permutation, elem_of_elements. Qed.

Lemma CpuSet_iter_NoDup s : NoDup (CpuSet_iter s).
Proof. unfold CpuSet_iter. rewrite merge_sort_Permutation. apply NoDup_elements. Qed.

Lemma CpuSet_iter_sorted s : StronglySorted Z.le (CpuSet_iter s).
Proof. apply StronglySorted_merge_sort; apply _. Qed.

Lemma NoDup_sorted_lt (l : list Z) :
  NoDup l -> StronglySorted Z.le l -> StronglySorted Z.lt l.
Proof.
  induction l as [|x l IH]; intros Hnd Hs; [constructor|].
  apply NoDup_cons in Hnd as [Hx Hnd]. apply StronglySorted_inv in Hs as [Hs Hle].
  constructor; [by apply IH|]. apply Forall_forall. intros y Hy.
  rewrite Forall_forall in Hle. specialize (Hle y Hy).
  assert (x <> y) by (by intros ->). lia.
Qed.

Lemma CpuSet_iter_strict s : StronglySorted Z.lt (CpuSet_iter s).
Proof. apply NoDup_sorted_lt; [apply CpuSet_iter_NoDup | apply CpuSet_iter_sorted]. Qed.

Lemma CpuSet_from_iter s : CpuSet_from_ids (CpuSet_iter s) = s.
Proof.
  apply set_eq. intros c. unfold CpuSet_from_ids.
  by rewrite elem_of_list_to_set, CpuSet_iter_elem.
Qed.

