(* ===== verification/Text.v ===== *)
(** * Text: UTF-8 strings, formatted messages and paths

    What the code uses of [str], [char], [format!] and [std::path]. A Rust
    string is its UTF-8 bytes, here a [string]. A formatted text is kept as the
    list of its pieces (the arguments of [format!]), which is what decides
    whether two messages or paths are the same. *)

From S2P Require Import Prelude Float64 Domain.

(** ** Characters *)

(** The scalar values of a UTF-8 string, each with the bytes it takes. *)
Fixpoint utf8_chars (l : list Z) : list (Z * Z) :=
  match l with
  | [] => []
  | a :: l1 =>
      if a <? 128 then (a, 1) :: utf8_chars l1
      else
        match l1 with
        | [] => [(a, 1)]
        | b :: l2 =>
            if a <? 224 then (a mod 32 * 64 + b mod 64, 2) :: utf8_chars l2
            else
              match l2 with
              | [] => [(a, 2)]
              | c :: l3 =>
                  if a <? 240 then (a mod 16 * 4096 + b mod 64 * 64 + c mod 64, 3) :: utf8_chars l3
                  else
                    match l3 with
                    | [] => [(a, 3)]
                    | d :: l4 =>
                        (a mod 8 * 262144 + b mod 64 * 4096 + c mod 64 * 64 + d mod 64, 4)
                          :: utf8_chars l4
                    end
              end
        end
  end.

Definition chars (s : string) : list (Z * Z) := utf8_chars (byte_of <$> bytes s).

(** [char::is_control] and [char::is_whitespace] (the White_Space property). *)
Definition is_control (c : Z) : bool := (c <? 32) || ((127 <=? c) && (c <? 160)).

Definition is_whitespace (c : Z) : bool :=
  ((9 <=? c) && (c <=? 13)) || (c =? 32) || (c =? 133) || (c =? 160) || (c =? 5760)
  || ((8192 <=? c) && (c <=? 8202)) || (c =? 8232) || (c =? 8233) || (c =? 8239)
  || (c =? 8287) || (c =? 12288).

Fixpoint drop_while {A} (p : A -> bool) (l : list A) : list A :=
  match l with
  | [] => []
  | x :: l' => if p x then drop_while p l' else l
  end.

(** [str::trim], as characters. *)
Definition trim (s : string) : list (Z * Z) :=
  let ws := fun c : Z * Z => is_whitespace c.1 in
  rev (drop_while ws (rev (drop_while ws (chars s)))).

(** [str::len] of a run of characters. *)
Definition chars_len (l : list (Z * Z)) : Z := foldr (fun c n => c.2 + n) 0 l.

Definition any_control (l : list (Z * Z)) : bool := existsb (fun c => is_control c.1) l.

(** [s.trim() == s]: nothing is trimmed at either end. *)
Definition is_trimmed (s : string) : bool :=
  match chars s, rev (chars s) with
  | a :: _, b :: _ => negb (is_whitespace a.1) && negb (is_whitespace b.1)
  | _, _ => true
  end.

(** ** Formatted text *)

Inductive piece :=
| L (s : string)
| I (z : Z)
| F (f : f64)
| Dbg (s : string).

Notation text := (list piece).

#[global] Instance piece_eq_dec : EqDecision piece.
Proof. solve_decision. Defined.

(** One problem of a document: where, and what. *)
Record ValidationIssue := { issue_path : text; issue_message : text }.

(** ** Paths *)

Inductive Component := RootDir | CurDir | ParentDir | Normal (s : string).
#[global] Instance Component_eq_dec : EqDecision Component.
Proof. solve_decision. Defined.

Definition slash : Ascii.ascii := Ascii.ascii_of_nat 47.

(** The pieces between the separators. *)
Fixpoint split_slash (s : string) : list string :=
  match s with
  | EmptyString => [EmptyString]
  | String c s' =>
      if bool_decide (c = slash) then EmptyString :: split_slash s'
      else
        match split_slash s' with
        | [] => [String c EmptyString]
        | w :: ws => String c w :: ws
        end
  end.

Definition starts_with_slash (s : string) : bool :=
  match s with String c _ => bool_decide (c = slash) | EmptyString => false end.

Definition part_component (w : string) : option Component :=
  if bool_decide (w = "") then None
  else if bool_decide (w = ".") then None
  else if bool_decide (w = "..") then Some ParentDir
  else Some (Normal w).

(** [Path::components] on Unix: repeated separators and inner [.] parts are
    dropped; a leading [.] of a relative path is a [CurDir]. *)
Definition components (s : string) : list Component :=
  let parts := split_slash s in
  if starts_with_slash s then RootDir :: omap part_component parts
  else
    match parts with
    | w :: ws => if bool_decide (w = ".") then CurDir :: omap part_component ws
                 else omap part_component parts
    | [] => []
    end.

Definition is_absolute (s : string) : bool := starts_with_slash s.

(** [Path::starts_with]: a prefix of components. *)
Definition path_starts_with (s base : string) : bool :=
  bool_decide (components base `prefix_of` components s).

Example components_example :
  components "/sys/class/./thermal//x/../y/"
  = [RootDir; Normal "sys"; Normal "class"; Normal "thermal"; Normal "x"; ParentDir; Normal "y"].
Proof. reflexivity. Qed.

Lemma chars_ascii s c rest :
  bytes s = c :: rest -> byte_of c < 128 -> exists tl, chars s = (byte_of c, 1) :: tl.
Proof.
  unfold chars. intros -> Hc. simpl. rewrite (proj2 (Z.ltb_lt _ _) Hc). eauto.
Qed.
