(* ===== verification/Scene.v ===== *)
(** * Profiles, scenes and hints ([uperf-core/src/policy.rs])

    The profile tier, the hint set with its expiry and dominance rules, and
    the resolution of the effective profile. *)

From S2P Require Import Prelude Float64 Domain.

Inductive ProfileId := Powersave | Balance | Performance.
Inductive ModeSelection := Auto | Forced (p : ProfileId).
Inductive Scene := SIdle | Touch | Trigger | Gesture | Junk | Boost | Switch | Wake.

#[global] Instance ProfileId_eq_dec : EqDecision ProfileId.
Proof. solve_decision. Defined.
#[global] Instance ProfileId_countable : Countable ProfileId.
Proof.
  refine (inj_countable'
    (fun p => match p with Powersave => 0 | Balance => 1 | Performance => 2 end)
    (fun n => match n with 0 => Powersave | 1 => Balance | _ => Performance end) _).
  by intros [].
Defined.
#[global] Instance ModeSelection_eq_dec : EqDecision ModeSelection.
Proof. solve_decision. Defined.
#[global] Instance Scene_eq_dec : EqDecision Scene.
Proof. solve_decision. Defined.

(** Position in the declaration, the derived [Ord] and the [BTreeMap] order. *)
Definition scene_index (s : Scene) : Z :=
  match s with
  | SIdle => 0 | Touch => 1 | Trigger => 2 | Gesture => 3
  | Junk => 4 | Boost => 5 | Switch => 6 | Wake => 7
  end.

Definition scene_of_index (n : Z) : Scene :=
  match n with
  | 0 => SIdle | 1 => Touch | 2 => Trigger | 3 => Gesture
  | 4 => Junk | 5 => Boost | 6 => Switch | _ => Wake
  end.

#[global] Instance Scene_countable : Countable Scene.
Proof. apply (inj_countable' scene_index scene_of_index). by intros []. Defined.

#[global] Program Instance Scene_key_ord : KeyOrd Scene :=
  {| key_le a b := scene_index a <= scene_index b |}.
Next Obligation. intros a b. simpl. apply _. Defined.
Next Obligation.
  repeat split.
  - intros a. lia.
  - intros a b c. lia.
  - by intros [] [].
Qed.
Next Obligation. intros a b. lia. Qed.

(** [Scene::priority] *)
Definition priority (s : Scene) : Z :=
  match s with
  | SIdle => 0 | Boost => 1 | Touch => 2 | Trigger => 3
  | Gesture => 4 | Junk => 5 | Switch => 6 | Wake => 7
  end.

Lemma priority_inj s s' : priority s = priority s' -> s = s'.
Proof. by destruct s, s'. Qed.

(** Scheduler-side scene vocabulary. *)
Inductive SchedulerScene := SBackground | SForeground | SSIdle | STouch | SBoost.
#[global] Instance SchedulerScene_eq_dec : EqDecision SchedulerScene.
Proof. solve_decision. Defined.
#[global] Instance SchedulerScene_countable : Countable SchedulerScene.
Proof.
  refine (inj_countable'
    (fun s => match s with
       SBackground => 0 | SForeground => 1 | SSIdle => 2 | STouch => 3 | SBoost => 4 end)
    (fun n => match n with
       0 => SBackground | 1 => SForeground | 2 => SSIdle | 3 => STouch | _ => SBoost end) _).
  by intros [].
Defined.

Definition scheduler_scene_index (s : SchedulerScene) : Z :=
  match s with
  | SBackground => 0 | SForeground => 1 | SSIdle => 2 | STouch => 3 | SBoost => 4
  end.

#[global] Program Instance SchedulerScene_key_ord : KeyOrd SchedulerScene :=
  {| key_le a b := scheduler_scene_index a <= scheduler_scene_index b |}.
Next Obligation. intros a b. simpl. apply _. Defined.
Next Obligation.
  repeat split.
  - intros a. lia.
  - intros a b c. lia.
  - by intros [] [].
Qed.
Next Obligation. intros a b. lia. Qed.

(** The [Display] of the three enumerations. *)
Definition profile_name (p : ProfileId) : string :=
  match p with
  | Powersave => "powersave" | Balance => "balance" | Performance => "performance"
  end.

Definition scene_name (s : Scene) : string :=
  match s with
  | SIdle => "idle" | Touch => "touch" | Trigger => "trigger" | Gesture => "gesture"
  | Junk => "junk" | Boost => "boost" | Switch => "switch" | Wake => "wake"
  end.

Definition scheduler_scene_name (s : SchedulerScene) : string :=
  match s with
  | SBackground => "background" | SForeground => "foreground" | SSIdle => "idle"
  | STouch => "touch" | SBoost => "boost"
  end.

Definition scheduler_scene_for (s : Scene) : SchedulerScene :=
  match s with
  | SIdle => SSIdle
  | Touch | Trigger | Gesture | Junk => STouch
  | Boost | Switch | Wake => SBoost
  end.

(** ** Hints *)

Record Hint := {
  scene : Scene;
  activated_at : MonotonicMillis;
  expires_at : option MonotonicMillis;
}.
#[global] Instance Hint_eq_dec : EqDecision Hint.
Proof. solve_decision. Defined.

Definition persistent (s : Scene) (at_ : MonotonicMillis) : Hint :=
  {| scene := s; activated_at := at_; expires_at := None |}.

Definition with_ttl (s : Scene) (at_ : MonotonicMillis) (duration_ms : Z) : Hint :=
  {| scene := s; activated_at := at_; expires_at := Some (saturating_add at_ duration_ms) |}.

Definition is_active_at (h : Hint) (now : MonotonicMillis) : bool :=
  is_none_or (expires_at h) (fun e => now <? e).

(** Active hints keyed by scene. *)
Notation HintSet := (gmap Scene Hint).

Definition activate (hs : HintSet) (h : Hint) : HintSet :=
  if decide (scene h = SIdle) then hs else <[scene h := h]> hs.

Definition deactivate (hs : HintSet) (s : Scene) : option Hint * HintSet :=
  (hs !! s, delete s hs).

(** [HintSet::expire]: whether the set changed, and the retained set. *)
Definition expire (hs : HintSet) (now : MonotonicMillis) : bool * HintSet :=
  let retained := filter (fun kv => is_active_at kv.2 now = true) hs in
  (negb (bool_decide (size retained = size hs)), retained).

Definition contains_active (hs : HintSet) (s : Scene) (now : MonotonicMillis) : bool :=
  is_some_and (hs !! s) (fun h => is_active_at h now).

Definition dominant_at_excluding (hs : HintSet) (now : MonotonicMillis)
    (excluded : gset Scene) : Scene :=
  map_or
    (max_by_key (fun h => priority (scene h))
       (List.filter (fun h => is_active_at h now && negb (bool_decide (scene h ∈ excluded)))
          (values hs)))
    SIdle scene.

Definition dominant_at (hs : HintSet) (now : MonotonicMillis) : Scene :=
  dominant_at_excluding hs now ∅.

Definition resolve_effective_profile (mode : ModeSelection)
    (app_profile : option ProfileId) (default_profile : ProfileId) : ProfileId :=
  match mode with
  | Forced p => p
  | Auto => match app_profile with Some p => p | None => default_profile end
  end.

(** The set's invariant: a hint is stored under its own scene, and the idle
    scene is never stored. *)
Definition hints_wf (hs : HintSet) : Prop :=
  forall s h, hs !! s = Some h -> scene h = s /\ s <> SIdle.

(** ** Lemmas *)

Lemma hints_wf_empty : hints_wf ∅.
Proof. intros s h. by rewrite lookup_empty. Qed.

Lemma hints_wf_activate hs h : hints_wf hs -> hints_wf (activate hs h).
Proof.
  intros Hwf s h' Hl. unfold activate in Hl. case_decide as Hi; [by apply Hwf|].
  destruct (decide (scene h = s)) as [<-|Hne]; simplify_map_eq; [done | by apply Hwf].
Qed.

Lemma hints_wf_deactivate hs s : hints_wf hs -> hints_wf (deactivate hs s).2.
Proof.
  intros Hwf s' h Hl. simpl in Hl. apply lookup_delete_Some in Hl as [_ Hl]. by apply Hwf.
Qed.

Lemma expire_lookup hs now s h :
  (expire hs now).2 !! s = Some h <-> hs !! s = Some h /\ is_active_at h now = true.
Proof. simpl. by rewrite map_lookup_filter_Some. Qed.

Lemma hints_wf_expire hs now : hints_wf hs -> hints_wf (expire hs now).2.
Proof. intros Hwf s h [Hl _]%expire_lookup. by apply Hwf. Qed.

#[export] Hint Resolve hints_wf_empty hints_wf_activate hints_wf_deactivate
  hints_wf_expire : hints.

Lemma contains_active_true hs s now :
  contains_active hs s now = true <->
  exists h, hs !! s = Some h /\ is_active_at h now = true.
Proof. unfold contains_active. destruct (hs !! s); simpl; naive_solver. Qed.

Lemma candidate_spec (hs : HintSet) now (excluded : gset Scene) h :
  h ∈ List.filter (fun h => is_active_at h now && negb (bool_decide (scene h ∈ excluded)))
        (values hs) <->
  (exists s, hs !! s = Some h) /\ is_active_at h now = true /\ scene h ∉ excluded.
Proof.
  rewrite elem_of_filter_bool, elem_of_values, andb_true_iff, negb_true_iff.
  by rewrite bool_decide_eq_false.
Qed.

(** The dominant scene, in terms of the active scenes. *)
Lemma dominant_spec hs now excluded :
  hints_wf hs ->
  let d := dominant_at_excluding hs now excluded in
  (forall s, contains_active hs s now = true -> s ∉ excluded -> priority s <= priority d) /\
  (d = SIdle \/ (contains_active hs d now = true /\ d ∉ excluded)).
Proof.
  intros Hwf d. subst d. unfold dominant_at_excluding.
  destruct (max_by_key _ _) as [m|] eqn:Hm; simpl.
  - apply max_by_key_Some in Hm as [Hin Hmax].
    apply candidate_spec in Hin as ([s Hs] & Hact & Hex).
    destruct (Hwf s m Hs) as [<- _]. split.
    + intros s' (h & Hl & Ha)%contains_active_true Hex'. destruct (Hwf s' h Hl) as [<- _].
      apply Hmax, candidate_spec. eauto.
    + right. split; [|done]. apply contains_active_true. eauto.
  - apply max_by_key_None in Hm. split; [|by left].
    intros s (h & Hl & Ha)%contains_active_true Hex. destruct (Hwf s h Hl) as [<- _].
    assert (Hin : h ∈ (@nil Hint)) by (rewrite <- Hm; apply candidate_spec; eauto).
    set_solver.
Qed.

(** ** The hint set over time *)

Inductive HintOp :=
| OpActivate (h : Hint)
| OpDeactivate (s : Scene)
| OpExpire (now : MonotonicMillis).

Definition apply_op (hs : HintSet) (op : HintOp) : HintSet :=
  match op with
  | OpActivate h => activate hs h
  | OpDeactivate s => (deactivate hs s).2
  | OpExpire now => (expire hs now).2
  end.

Inductive hints_reachable : HintSet -> Prop :=
| reach_empty : hints_reachable ∅
| reach_op hs op : hints_reachable hs -> hints_reachable (apply_op hs op).

Lemma reachable_wf hs : hints_reachable hs -> hints_wf hs.
Proof. induction 1 as [|hs [] _ IH]; cbn [apply_op]; auto with hints. Qed.

(** in every reachable hint set the dominant scene is the one of highest
    priority among the active scenes that are not excluded, and idle exactly
    when there is none. *)
Theorem dominant_scene_correct hs now excluded :
  hints_reachable hs ->
  let d := dominant_at_excluding hs now excluded in
  (forall s, contains_active hs s now = true -> s ∉ excluded -> priority s <= priority d) /\
  (d <> SIdle -> contains_active hs d now = true /\ d ∉ excluded) /\
  (d = SIdle <-> forall s, contains_active hs s now = true -> s ∈ excluded).
Proof.
  intros Hwf%reachable_wf. destruct (dominant_spec hs now excluded Hwf) as [H1 H2].
  simpl. set (d := dominant_at_excluding hs now excluded) in *. split_and!; [done| |split].
  - intros Hd. by destruct H2.
  - intros -> s Hs. destruct (decide (s ∈ excluded)) as [|Hn]; [done|].
    pose proof (H1 s Hs Hn) as Hp. simpl in Hp.
    assert (s = SIdle) as -> by (by destruct s).
    apply contains_active_true in Hs as (h & Hh & _). by destruct (Hwf _ _ Hh).
  - intros Hall. destruct H2 as [?|[Hc Hn]]; [done|]. by apply Hall in Hc.
Qed.

Lemma dominant_scene_correct_witness :
  dominant_at_excluding
    (apply_op (apply_op ∅ (OpActivate (with_ttl Boost 0 500))) (OpActivate (with_ttl Touch 0 100)))
    200 {[ Boost ]} = SIdle.
Proof.
  set (hs := apply_op _ _).
  assert (Hr : hints_reachable hs) by repeat constructor.
  destruct (dominant_scene_correct hs 200 {[ Boost ]} Hr) as (_ & _ & Hidle).
  apply Hidle. intros s. destruct s; vm_compute; done.
Defined.

(** a hint activated with a time to live is active exactly until it
    expires: activating it makes its scene active now, expiry at or after the
    deadline removes it, and expiry before the deadline keeps it. *)
Theorem ttl_respected hs s t ttl now :
  s <> SIdle -> is_u64 t -> is_u64 ttl -> is_u64 now ->
  let hs' := activate hs (with_ttl s t ttl) in
  contains_active hs' s now = (now <? Z.min (t + ttl) u64_max) /\
  (expire hs' now).2 !! s
    = (if now <? Z.min (t + ttl) u64_max then Some (with_ttl s t ttl) else None) /\
  (forall s', s' <> s -> (expire hs' now).2 !! s' = (expire hs now).2 !! s').
Proof.
  intros Hs Ht Httl Hnow. simpl. unfold activate. simpl. rewrite decide_False by done.
  unfold contains_active. rewrite lookup_insert, decide_True by done. split_and!; [done| |].
  - rewrite map_lookup_filter, lookup_insert, decide_True by done. simpl.
    unfold is_active_at, with_ttl, saturating_add, sat_add. simpl.
    by destruct (now <? Z.min (t + ttl) u64_max).
  - intros s' Hne. by rewrite !map_lookup_filter, lookup_insert_ne by done.
Qed.

Lemma ttl_respected_witness :
  contains_active (activate ∅ (with_ttl Touch 1000 250)) Touch 1249 = (1249 <? 1250).
Proof. refine (proj1 (ttl_respected ∅ Touch 1000 250 1249 _ _ _ _)); done. Defined.
