(* ===== verification/Frequency.v ===== *)
(** * Frequency limits under safety caps ([uperf-core/src/policy.rs])

    [FrequencyPolicy::validate] and [constrain_frequency_limits]: a requested
    pair is clamped to the hardware window and the administrator and thermal
    caps, then snapped to the supported operating points (OPPs) or quantised
    to the kernel unit. *)

From S2P Require Import Prelude Float64 Domain Text Scene.

Record FrequencyPolicy := {
  hardware_limits : FrequencyLimits;
  floor : Hertz;
  reference : Hertz;
  efficient_cap : Hertz;
  hertz_per_unit : Z;
  available_frequencies : list Hertz;
}.

(** [PolicyError] and the energy module's [GovernorError], which contains it.
    Where the code stores a rendered message the model keeps what it renders. *)
Inductive PolicyError :=
| InvalidHardwareLimits (l : FrequencyLimits)
| InvalidFrequencyModel
| OppOutsideHardwareLimits
| InvalidFrequencyQuantum
| NoOppAtOrBelowCap (cap : Hertz)
| ReversedRequest (l : FrequencyLimits)
| InvalidLoadInput (field : string)
| MissingProfile (profile : ProfileId)
| MissingThermalCap (target : string)
| MissingTaskProfile (id : string)
| InvalidMatcherRegex (detail : string)
| InvalidConfiguration (errors : list ValidationIssue)
| EnergyGovernor (e : GovernorError)
| MissingPowerBudget (profile : ProfileId)
with GovernorError :=
| MissingEnergyModel (target : string)
| NoOppBelowSafetyCap (target : string)
| InvalidFrequencyPolicy (target : string) (source : PolicyError).

Definition validate (p : FrequencyPolicy) : res unit PolicyError :=
  let hw := hardware_limits p in
  do? reject_if (negb (is_valid hw)) (InvalidHardwareLimits hw) in
  do? reject_if
    (negb ((lim_min hw <=? floor p) && (floor p <=? reference p)
           && (reference p <=? lim_max hw) && (floor p <=? efficient_cap p)
           && (efficient_cap p <=? lim_max hw)))
    InvalidFrequencyModel in
  do? reject_if
    ((hertz_per_unit p =? 0)
     || existsb (fun f => negb (is_multiple_of f (hertz_per_unit p)))
          ([lim_min hw; lim_max hw; floor p; reference p; efficient_cap p]
           ++ available_frequencies p))
    InvalidFrequencyQuantum in
  do? reject_if
    (existsb (fun f => (f <? lim_min hw) || (lim_max hw <? f)) (available_frequencies p))
    OppOutsideHardwareLimits in
  Ok tt.

(** [Ord::clamp], which asserts its interval. *)
Definition clamp (x lo hi : Z) : res Z PolicyError :=
  do? assert_that (lo <=? hi) in Ok (Z.min (Z.max x lo) hi).

Definition quantize_down (value quantum : Z) : Z := value / quantum * quantum.

Definition quantize_up (value quantum : Z) : Z :=
  let quotient := value / quantum in
  let rounded := sat_add quotient (if is_multiple_of value quantum then 0 else 1) in
  sat_mul rounded quantum.

Definition snap_up (opps : list Hertz) (requested : Hertz) : option Hertz :=
  list_min (List.filter (fun f => requested <=? f) opps).

Definition snap_down (opps : list Hertz) (requested : Hertz) : option Hertz :=
  list_max (List.filter (fun f => f <=? requested) opps).

(** [[Some(max), a, b].into_iter().flatten().min()] *)
Definition lowest_cap (max : Hertz) (caps : list (option Hertz)) : Hertz :=
  unwrap_or (list_min (omap (fun c => c) (Some max :: caps))) max.

Definition constrain_frequency_limits (requested hardware : FrequencyLimits)
    (administrator_cap thermal_cap : option Hertz)
    (available : list Hertz) (hertz_per_unit : Z) : res FrequencyLimits PolicyError :=
  do? reject_if (negb (is_valid hardware)) (InvalidHardwareLimits hardware) in
  do? reject_if (negb (is_valid requested)) (ReversedRequest requested) in
  do? reject_if
    ((hertz_per_unit =? 0)
     || negb (is_multiple_of (lim_min hardware) hertz_per_unit)
     || negb (is_multiple_of (lim_max hardware) hertz_per_unit))
    InvalidFrequencyQuantum in
  let? hard_cap :=
    clamp (lowest_cap (lim_max hardware) [administrator_cap; thermal_cap])
      (lim_min hardware) (lim_max hardware) in
  let opps := sort_dedup
    (List.filter (fun f => (lim_min hardware <=? f) && (f <=? lim_max hardware)) available) in
  let? unsnapped_max := clamp (lim_max requested) (lim_min hardware) hard_cap in
  let? max :=
    match opps with
    | [] => Ok (Z.max (quantize_down unsnapped_max hertz_per_unit) (lim_min hardware))
    | _ => ok_or (snap_down opps unsnapped_max) (NoOppAtOrBelowCap unsnapped_max)
    end in
  let? unsnapped_min := clamp (lim_min requested) (lim_min hardware) max in
  let min :=
    match opps with
    | [] => Z.min (quantize_up unsnapped_min hertz_per_unit) max
    | _ =>
        match snap_up opps unsnapped_min with
        | Some f => if f <=? max then f else max
        | None => max
        end
    end in
  Ok {| lim_min := min; lim_max := max |}.

(** ** Lemmas *)

Lemma clamp_Ok x lo hi y : clamp x lo hi = Ok y <-> lo <= hi /\ y = Z.min (Z.max x lo) hi.
Proof.
  unfold clamp, assert_that. destruct (Z.leb_spec lo hi); simpl;
    (split; [intros [=]; lia || by subst | intros [? ->]; done || lia]).
Qed.

Lemma clamp_value x lo hi : lo <= hi -> clamp x lo hi = Ok (Z.min (Z.max x lo) hi).
Proof. intros. by apply clamp_Ok. Qed.

Lemma snap_down_Some opps r f :
  snap_down opps r = Some f -> f ∈ opps /\ f <= r /\ forall g, g ∈ opps -> g <= r -> g <= f.
Proof.
  intros [Hin Hmax]%max_by_key_Some. apply elem_of_filter_bool in Hin as [Hin Hle].
  split_and!; [done|lia|]. intros g Hg Hgr. apply Hmax, elem_of_filter_bool. lia || (split; [done|lia]).
Qed.

Lemma snap_up_Some opps r f :
  snap_up opps r = Some f -> f ∈ opps /\ r <= f /\ forall g, g ∈ opps -> r <= g -> f <= g.
Proof.
  intros [Hin Hmin]%min_by_key_Some. apply elem_of_filter_bool in Hin as [Hin Hle].
  split_and!; [done|lia|]. intros g Hg Hgr. apply Hmin, elem_of_filter_bool. split; [done|lia].
Qed.

Lemma snap_down_None opps r : snap_down opps r = None <-> forall g, g ∈ opps -> r < g.
Proof.
  unfold snap_down. rewrite max_by_key_None. split.
  - intros Hnil g Hg. destruct (Z.leb_spec g r) as [Hle|]; [|done].
    assert (g ∈ List.filter (fun f => f <=? r) opps) as Hin
      by (apply elem_of_filter_bool; split; [done|lia]).
    rewrite Hnil in Hin. set_solver.
  - intros Hall. destruct (List.filter _ opps) as [|g l] eqn:E; [done|].
    assert (g ∈ List.filter (fun f => f <=? r) opps) as Hin by (rewrite E; set_solver).
    apply elem_of_filter_bool in Hin as [Hin Hle]. specialize (Hall g Hin). lia.
Qed.

Lemma lowest_cap_le max caps : lowest_cap max caps <= max.
Proof.
  unfold lowest_cap. destruct (list_min _) as [m|] eqn:Hm; simpl; [|lia].
  apply min_by_key_Some in Hm as [_ Hle]. apply Hle. simpl. set_solver.
Qed.

Lemma lowest_cap_le_cap max caps c : Some c ∈ caps -> lowest_cap max caps <= c.
Proof.
  intros Hc. unfold lowest_cap. destruct (list_min _) as [m|] eqn:Hm; simpl.
  - apply min_by_key_Some in Hm as [_ Hle]. apply Hle. apply list_elem_of_omap.
    exists (Some c). set_solver.
  - apply min_by_key_None in Hm. done.
Qed.

(** The lowest cap is one of the caps. *)
Lemma lowest_cap_elem max caps :
  lowest_cap max caps = max \/ Some (lowest_cap max caps) ∈ caps.
Proof.
  unfold lowest_cap. destruct (list_min _) as [m|] eqn:Hm; simpl; [|by left].
  apply min_by_key_Some in Hm as [Hin _]. apply list_elem_of_omap in Hin as (o & Ho & ->).
  apply elem_of_cons in Ho as [[= ->]|?]; [by left | by right].
Qed.

Lemma quantize_down_spec v q :
  0 < q -> 0 <= v ->
  quantize_down v q <= v < quantize_down v q + q /\ (q | quantize_down v q).
Proof.
  intros Hq Hv. unfold quantize_down. pose proof (Z.div_mod v q). pose proof (Z.mod_pos_bound v q).
  split; [nia | by apply Z.divide_factor_r].
Qed.

Lemma is_multiple_of_divide a q : q <> 0 -> is_multiple_of a q = true <-> (q | a).
Proof.
  intros Hq. unfold is_multiple_of. destruct (Z.eqb_spec q 0); [done|].
  rewrite Z.eqb_eq. by rewrite Z.mod_divide.
Qed.

(** Without saturation, [quantize_up] is the least multiple not below. *)
Lemma quantize_up_spec v q m :
  0 < q -> 0 <= v <= m -> (q | m) -> is_u64 m ->
  v <= quantize_up v q <= m /\ (q | quantize_up v q).
Proof.
  intros Hq Hv [k Hk] Hm. unfold quantize_up.
  pose proof (Z.div_mod v q ltac:(lia)) as Hdm. pose proof (Z.mod_pos_bound v q Hq) as Hb.
  assert (Hquot : 0 <= v / q <= k) by (split; [apply Z.div_pos; lia|apply Z.div_le_upper_bound; nia]).
  unfold is_u64, u64_max in Hm. assert (Hk0 : 0 <= k <= k * q) by nia.
  destruct (is_multiple_of v q) eqn:E.
  - apply is_multiple_of_divide in E as [j ->]; [|lia]. rewrite Z.div_mul in * by lia.
    unfold sat_mul, sat_add, u64_max. rewrite (Z.min_l (j + 0)) by lia.
    rewrite Z.min_l by nia. split; [nia|]. exists j. lia.
  - assert (Hne : v mod q <> 0).
    { intros H0. apply not_true_iff_false in E. apply E, is_multiple_of_divide; [lia|].
      by apply Z.mod_divide; [lia|]. }
    assert (Hlt : v / q < k) by nia.
    unfold sat_mul, sat_add, u64_max. rewrite (Z.min_l (v / q + 1)) by lia.
    rewrite Z.min_l by nia. split; [nia|]. exists (v / q + 1). lia.
Qed.

(** ** The constrained pair *)

Section constrain.
Context (requested hardware : FrequencyLimits)
  (administrator_cap thermal_cap : option Hertz) (available : list Hertz) (q : Z).

Notation constrained :=
  (constrain_frequency_limits requested hardware administrator_cap thermal_cap available q).

(** The operating points inside the hardware window. *)
Definition usable_opps : list Hertz := sort_dedup
  (List.filter (fun f => (lim_min hardware <=? f) && (f <=? lim_max hardware)) available).

(** The lowest of the hardware maximum and the two caps, never below the
    hardware minimum. *)
Definition safety_ceiling : Hertz :=
  Z.max (lim_min hardware)
    (Z.min (lim_max hardware)
       (Z.min (default (lim_max hardware) administrator_cap)
              (default (lim_max hardware) thermal_cap))).

(** The highest frequency the request and the caps allow. *)
Definition allowed_max : Hertz :=
  Z.min (Z.max (lim_max requested) (lim_min hardware)) safety_ceiling.

(** What the code checks before it computes anything. *)
Definition well_posed : Prop :=
  lim_min hardware <= lim_max hardware /\ lim_min requested <= lim_max requested /\
  q <> 0 /\ (q | lim_min hardware) /\ (q | lim_max hardware).

Lemma lowest_cap_two :
  lowest_cap (lim_max hardware) [administrator_cap; thermal_cap] =
  Z.min (lim_max hardware)
    (Z.min (default (lim_max hardware) administrator_cap)
           (default (lim_max hardware) thermal_cap)).
Proof.
  pose proof (lowest_cap_le (lim_max hardware) [administrator_cap; thermal_cap]) as H0.
  pose proof (lowest_cap_elem (lim_max hardware) [administrator_cap; thermal_cap]) as He.
  pose proof (lowest_cap_le_cap (lim_max hardware) [administrator_cap; thermal_cap]) as Hc.
  set (m := lowest_cap _ _) in *. rewrite !elem_of_cons, elem_of_nil in He.
  destruct administrator_cap as [a|], thermal_cap as [t|]; simpl;
    try pose proof (Hc a ltac:(set_solver)); try pose proof (Hc t ltac:(set_solver));
    naive_solver lia.
Qed.

Lemma elem_of_usable f :
  f ∈ usable_opps <-> f ∈ available /\ lim_min hardware <= f <= lim_max hardware.
Proof.
  unfold usable_opps. rewrite elem_of_sort_dedup, elem_of_filter_bool, andb_true_iff.
  by rewrite !Z.leb_le.
Qed.

(** The computation after the checks, as equations. *)
Lemma constrain_unfold :
  well_posed ->
  constrained =
  (let? max :=
     match usable_opps with
     | [] => Ok (Z.max (quantize_down allowed_max q) (lim_min hardware))
     | _ => ok_or (snap_down usable_opps allowed_max) (NoOppAtOrBelowCap allowed_max)
     end in
   let umin := Z.min (Z.max (lim_min requested) (lim_min hardware)) max in
   Ok {| lim_min :=
           match usable_opps with
           | [] => Z.min (quantize_up umin q) max
           | _ => match snap_up usable_opps umin with
                  | Some f => if f <=? max then f else max
                  | None => max
                  end
           end;
         lim_max := max |}).
Proof.
  intros (Hhw & Hreq & Hq & Hd1 & Hd2). unfold constrain_frequency_limits, is_valid.
  rewrite (proj2 (Z.leb_le _ _) Hhw), (proj2 (Z.leb_le _ _) Hreq).
  rewrite (proj2 (Z.eqb_neq _ _) Hq).
  rewrite (proj2 (is_multiple_of_divide _ _ Hq) Hd1),
    (proj2 (is_multiple_of_divide _ _ Hq) Hd2). simpl.
  rewrite lowest_cap_two, clamp_value by lia. simpl.
  replace (Z.min (Z.max (Z.min (lim_max hardware) _) (lim_min hardware)) (lim_max hardware))
    with safety_ceiling by (unfold safety_ceiling; lia).
  rewrite clamp_value by (unfold safety_ceiling; lia). simpl.
  fold usable_opps allowed_max. destruct usable_opps as [|o os] eqn:Ho; simpl.
  - rewrite clamp_value by lia. done.
  - destruct (snap_down (o :: os) allowed_max) as [m|] eqn:Hm; simpl; [|done].
    apply snap_down_Some in Hm as (Hin & _ & _). rewrite <- Ho in Hin.
    apply elem_of_usable in Hin as [_ Hb]. rewrite clamp_value by lia. done.
Qed.

Lemma constrain_checked l : constrained = Ok l -> well_posed.
Proof.
  unfold constrain_frequency_limits, is_valid.
  intros ([] & E1%reject_if_Ok & ([] & E2%reject_if_Ok & ([] & E3%reject_if_Ok & _)%res_bind_Ok)%res_bind_Ok)%res_bind_Ok.
  rewrite !orb_false_iff, !negb_false_iff in *.
  destruct E3 as [[Hq H1] H2]. apply Z.eqb_neq in Hq.
  rewrite is_multiple_of_divide in H1, H2 by done. unfold well_posed. lia || (split_and!; [lia|lia|done..]).
Qed.

(** Machine ranges of the inputs. *)
Hypothesis Hq0 : 0 <= q.
Hypothesis Hmin : is_u64 (lim_min hardware).
Hypothesis Hmax : is_u64 (lim_max hardware).

Lemma quantize_down_floor v m :
  0 < q -> (q | m) -> 0 <= m <= v -> m <= quantize_down v q.
Proof.
  intros Hq [k ->] Hv. unfold quantize_down. pose proof (Z.div_le_lower_bound v q k). nia.
Qed.

Lemma constrain_max l :
  constrained = Ok l ->
  lim_min hardware <= lim_max l <= safety_ceiling /\
  match usable_opps with
  | [] => lim_max l = quantize_down allowed_max q
  | _ => snap_down usable_opps allowed_max = Some (lim_max l)
  end.
Proof using Hmin Hq0.
  intros Hok. pose proof (constrain_checked _ Hok) as Hw. rewrite (constrain_unfold Hw) in Hok.
  destruct Hw as (Hhw & Hreq & Hq & Hd1 & Hd2). unfold is_u64 in Hmin.
  assert (Ham : lim_min hardware <= allowed_max <= safety_ceiling)
    by (unfold allowed_max, safety_ceiling; lia).
  destruct usable_opps as [|o os] eqn:Ho; simpl in Hok.
  - injection Hok as <-. simpl.
    pose proof (quantize_down_floor allowed_max (lim_min hardware) ltac:(lia) Hd1 ltac:(lia)).
    pose proof (quantize_down_spec allowed_max q ltac:(lia) ltac:(lia)). lia.
  - apply res_bind_Ok in Hok as (m & Hm%ok_or_Ok & [= <-]). simpl.
    apply snap_down_Some in Hm as Hs. destruct Hs as (Hin & Hle & _).
    rewrite <- Ho in Hin. apply elem_of_usable in Hin. split; [lia|done].
Qed.

(** The multiple of the kernel unit, or the operating point, at the top. *)
Lemma constrain_max_supported l :
  constrained = Ok l ->
  match usable_opps with
  | [] => (q | lim_max l)
  | _ => lim_max l ∈ available
  end.
Proof using Hmin Hq0.
  intros Hok. pose proof (constrain_checked _ Hok) as (_ & _ & Hq & _).
  destruct (constrain_max l Hok) as [_ Hm].
  destruct usable_opps as [|o os] eqn:Ho.
  - rewrite Hm. apply Z.divide_factor_r.
  - apply snap_down_Some in Hm as (Hin & _). rewrite <- Ho in Hin.
    by apply elem_of_usable in Hin as [? _].
Qed.

Lemma constrain_min l :
  constrained = Ok l ->
  let umin := Z.min (Z.max (lim_min requested) (lim_min hardware)) (lim_max l) in
  lim_min hardware <= lim_min l <= lim_max l /\
  match usable_opps with
  | [] => lim_min l = quantize_up umin q /\ umin <= lim_min l /\ (q | lim_min l)
  | _ => snap_up usable_opps umin = Some (lim_min l)
  end.
Proof using Hmax Hmin Hq0.
  intros Hok umin. pose proof (constrain_checked _ Hok) as Hw.
  destruct (constrain_max l Hok) as [Hb Hm]. pose proof (constrain_max_supported l Hok) as Hsup.
  rewrite (constrain_unfold Hw) in Hok. destruct Hw as (Hhw & Hreq & Hq & Hd1 & Hd2).
  unfold is_u64, safety_ceiling in *.
  destruct usable_opps as [|o os] eqn:Ho; simpl in Hok.
  - injection Hok as <-. simpl in *.
    set (mx := Z.max (quantize_down allowed_max q) (lim_min hardware)) in *.
    destruct (quantize_up_spec umin q mx) as [Hr Hdiv];
      [lia | subst umin; simpl in *; lia | done | unfold is_u64; lia |].
    subst umin. simpl in *. fold mx in Hr, Hdiv |- *. split; [lia|].
    rewrite Z.min_l by lia. split_and!; [done|lia|done].
  - apply res_bind_Ok in Hok as (m & Hm'%ok_or_Ok & [= <-]). simpl in *.
    apply snap_down_Some in Hm' as (Hin & _ & _).
    assert (Hex : is_Some (snap_up (o :: os) umin)).
    { destruct (snap_up (o :: os) umin) eqn:E; [done|]. apply min_by_key_None in E.
      assert (m ∈ List.filter (fun f => umin <=? f) (o :: os)) as Hin'.
      { apply elem_of_filter_bool. split; [done|]. subst umin. simpl. lia. }
      rewrite E in Hin'. set_solver. }
    destruct Hex as [f Hf]. subst umin; simpl in *. rewrite Hf.
    apply snap_up_Some in Hf as (Hfin & Hle & Hleast).
    assert (f <= m) by (apply Hleast; [done|lia]).
    rewrite (proj2 (Z.leb_le f m)) by done. split; [|done].
    rewrite <- Ho in Hfin. apply elem_of_usable in Hfin. lia.
Qed.
End constrain.

Lemma safety_ceiling_le_cap hw a t c :
  a = Some c \/ t = Some c -> safety_ceiling hw a t <= Z.max c (lim_min hw).
Proof. unfold safety_ceiling. intros [-> | ->]; simpl; lia. Qed.

Lemma safety_ceiling_le_max hw a t :
  lim_min hw <= lim_max hw -> safety_ceiling hw a t <= lim_max hw.
Proof. unfold safety_ceiling. lia. Qed.

(** ** Properties *)

Section properties.
Context (requested hardware : FrequencyLimits)
  (administrator_cap thermal_cap : option Hertz) (available : list Hertz) (q : Z).
Hypothesis Hq0 : 0 <= q.
Hypothesis Hmin : is_u64 (lim_min hardware).
Hypothesis Hmax : is_u64 (lim_max hardware).

Lemma constrain_bounds l :
  constrain_frequency_limits requested hardware administrator_cap thermal_cap available q = Ok l ->
  lim_min hardware <= lim_min l /\ lim_min l <= lim_max l /\ lim_max l <= lim_max hardware /\
  forall cap, administrator_cap = Some cap \/ thermal_cap = Some cap ->
    lim_max l <= Z.max cap (lim_min hardware).
Proof using Hmax Hmin Hq0.
  intros Hok. pose proof (constrain_checked _ _ _ _ _ _ _ Hok) as (Hhw & _).
  destruct (constrain_max _ _ _ _ _ _ Hq0 Hmin _ Hok) as [Hb _].
  destruct (constrain_min _ _ _ _ _ _ Hq0 Hmin Hmax _ Hok) as [Hb' _].
  pose proof (safety_ceiling_le_max hardware administrator_cap thermal_cap Hhw).
  split_and!; [lia..|]. intros cap Hc. pose proof (safety_ceiling_le_cap hardware _ _ _ Hc). lia.
Qed.

(** a constrained pair is never inverted, never leaves the hardware
    window, and never exceeds the administrator or thermal cap (a cap below
    the hardware minimum holds the target at that minimum). *)
Theorem constrain_within_caps l :
  constrain_frequency_limits requested hardware administrator_cap thermal_cap available q = Ok l ->
  lim_min hardware <= lim_min l /\ lim_min l <= lim_max l /\ lim_max l <= lim_max hardware /\
  forall cap, administrator_cap = Some cap \/ thermal_cap = Some cap ->
    lim_max l <= Z.max cap (lim_min hardware).
Proof using Hmax Hmin Hq0. apply constrain_bounds. Qed.


(** constraining is total on well-posed input: it never panics, and it
    fails only when operating points are known and all of them lie above
    what the request and the caps allow. *)
Theorem constrain_outcome :
  well_posed requested hardware q ->
  let opps := usable_opps hardware available in
  let allowed := allowed_max requested hardware administrator_cap thermal_cap in
  let r := constrain_frequency_limits requested hardware administrator_cap thermal_cap available q in
  (opps <> [] /\ (forall f, f ∈ opps -> allowed < f) /\ r = Err (NoOppAtOrBelowCap allowed)) \/
  ((opps = [] \/ exists f, f ∈ opps /\ f <= allowed) /\ exists l, r = Ok l).
Proof using.
  intros Hw opps allowed r. subst r. rewrite (constrain_unfold _ _ _ _ _ _ Hw).
  fold opps allowed. destruct opps as [|o os] eqn:Ho.
  - right. simpl. eauto.
  - destruct (snap_down (o :: os) allowed) as [m|] eqn:Hm.
    + right. split; [|simpl; eauto]. right. apply snap_down_Some in Hm as (Hin & Hle & _). eauto.
    + left. split_and!; [done| |done]. by apply snap_down_None.
Qed.
End properties.

Example constrain_example :
  constrain_frequency_limits {| lim_min := 500; lim_max := 2900 |}
    {| lim_min := 300; lim_max := 3000 |} None (Some 1900) [300; 900; 1800; 2400; 3000] 100
  = Ok {| lim_min := 900; lim_max := 1800 |}.
Proof. reflexivity. Qed.

Lemma constrain_within_caps_witness :
  exists l,
    constrain_frequency_limits {| lim_min := 500; lim_max := 2900 |}
      {| lim_min := 300; lim_max := 3000 |} None (Some 1900) [300; 900; 1800; 2400; 3000] 100
    = Ok l /\ lim_max l <= Z.max 1900 300.
Proof.
  exists {| lim_min := 900; lim_max := 1800 |}. split; [reflexivity|].
  refine (proj2 (proj2 (proj2 (constrain_within_caps
    {| lim_min := 500; lim_max := 2900 |} {| lim_min := 300; lim_max := 3000 |}
    None (Some 1900) [300; 900; 1800; 2400; 3000] 100 _ _ _ _ _))) 1900 _).
  - lia.
  - vm_compute. split; discriminate.
  - vm_compute. split; discriminate.
  - reflexivity.
  - by right.
Defined.


(** Every operating point above the cap: the error case of the theorem. *)
Lemma constrain_outcome_witness :
  constrain_frequency_limits {| lim_min := 500; lim_max := 800 |}
    {| lim_min := 300; lim_max := 3000 |} None None [900; 1800] 100 = Err (NoOppAtOrBelowCap 800).
Proof.
  destruct (constrain_outcome {| lim_min := 500; lim_max := 800 |}
    {| lim_min := 300; lim_max := 3000 |} None None [900; 1800] 100)
    as [(_ & _ & H)|[_ [l H]]].
  - split_and!; [simpl; lia|simpl; lia|lia|by exists 3|by exists 30].
  - exact H.
  - vm_compute in H. discriminate.
Defined.
