(* ===== verification/Thermal.v ===== *)
(** * Thermal guard ([uperf-core/src/policy.rs])

    The per-zone state machine: immediate entry into [Critical] and
    [Degraded], debounced moves between the other states, and hysteresis on
    recovery. Temperatures are [i64] millidegrees; the subtraction in
    [candidate_state] is exact here, and [no_overflow] bounds it. *)

From S2P Require Import Prelude Float64 Domain.

Inductive ThermalState := Normal | Warning | Throttled | Critical | Degraded.
#[global] Instance ThermalState_eq_dec : EqDecision ThermalState.
Proof. solve_decision. Defined.

(** The derived [Ord], also the ranking of [worst_thermal_state]. *)
Definition thermal_rank (s : ThermalState) : Z :=
  match s with Normal => 0 | Warning => 1 | Throttled => 2 | Critical => 3 | Degraded => 4 end.

Record ThermalThresholds := {
  warning : MilliCelsius;
  throttled : MilliCelsius;
  critical : MilliCelsius;
  hysteresis : MilliCelsius;
  dwell_ms : Z;
  stale_after_ms : Z;
}.

Record ThermalGuard := {
  thresholds : ThermalThresholds;
  state : ThermalState;
  pending : option (ThermalState * MonotonicMillis);
}.

Definition ThermalGuard_new (t : ThermalThresholds) : ThermalGuard :=
  {| thresholds := t; state := Normal; pending := None |}.

Definition classify_temperature (t : MilliCelsius) (th : ThermalThresholds) : ThermalState :=
  if critical th <=? t then Critical
  else if throttled th <=? t then Throttled
  else if warning th <=? t then Warning
  else Normal.

Definition candidate_state (g : ThermalGuard) (t : MilliCelsius) : ThermalState :=
  let th := thresholds g in
  let raw := classify_temperature t th in
  if (thermal_rank (state g) <=? thermal_rank raw) || bool_decide (state g = Degraded) then raw
  else
    let recover threshold := if t <? threshold - hysteresis th then raw else state g in
    match state g with
    | Critical => recover (critical th)
    | Throttled => recover (throttled th)
    | Warning => recover (warning th)
    | Normal | Degraded => raw
    end.

(** A reading the guard trusts at [now]. *)
Definition usable (th : ThermalThresholds) (now : MonotonicMillis) (r : ThermalReading)
  : option MilliCelsius :=
  let from_future := now <? sampled_at r in
  let stale := stale_after_ms th <? saturating_duration_since now (sampled_at r) in
  if negb (bool_decide (health r = Healthy)) || from_future || stale then None
  else temperature r.

Definition set_state (g : ThermalGuard) (s : ThermalState)
    (p : option (ThermalState * MonotonicMillis)) : ThermalGuard :=
  {| thresholds := thresholds g; state := s; pending := p |}.

(** [ThermalGuard::update]; the returned state is the new [state]. *)
Definition update (g : ThermalGuard) (now : MonotonicMillis) (r : ThermalReading) : ThermalGuard :=
  match usable (thresholds g) now r with
  | None => set_state g Degraded None
  | Some t =>
      let candidate := candidate_state g t in
      if decide (candidate = Critical) then set_state g candidate None
      else if decide (candidate = state g) then set_state g (state g) None
      else
        let other :=
          if dwell_ms (thresholds g) =? 0 then set_state g candidate None
          else set_state g (state g) (Some (candidate, now)) in
        match pending g with
        | Some (p, since) =>
            if decide (p = candidate) then
              if dwell_ms (thresholds g) <=? saturating_duration_since now since
              then set_state g candidate None
              else g
            else other
        | None => other
        end
  end.

Definition worst_thermal_state (states : list ThermalState) : ThermalState :=
  unwrap_or (max_by_key thermal_rank states) Degraded.

(** A sequence of samples. *)
Definition run_samples (g : ThermalGuard) (samples : list (MonotonicMillis * ThermalReading)) : ThermalGuard :=
  foldl (fun g s => update g s.1 s.2) g samples.

(** ** Lemmas *)

Definition thresholds_ordered (th : ThermalThresholds) : Prop :=
  warning th < throttled th < critical th /\ 0 <= hysteresis th.

Lemma update_thresholds g now r : thresholds (update g now r) = thresholds g.
Proof. unfold update. repeat case_match; done. Qed.

Lemma run_thresholds g l : thresholds (run_samples g l) = thresholds g.
Proof.
  revert g. induction l as [|s l IH]; intros g; [done|]. simpl. rewrite IH. apply update_thresholds.
Qed.

Lemma run_snoc g l s : run_samples g (l ++ [s]) = update (run_samples g l) s.1 s.2.
Proof. unfold run_samples. by rewrite foldl_app. Qed.

Lemma classify_not_degraded t th : classify_temperature t th <> Degraded.
Proof. unfold classify_temperature. by repeat case_match. Qed.

Lemma candidate_not_degraded g t : candidate_state g t <> Degraded.
Proof.
  unfold candidate_state. pose proof (classify_not_degraded t (thresholds g)).
  destruct (_ || _) eqn:E; [done|]. destruct (state g); try done; by case_match.
Qed.

(** At or above the critical threshold the candidate is [Critical] whatever
    the current state. *)
Lemma candidate_critical g t :
  critical (thresholds g) <= t -> candidate_state g t = Critical.
Proof.
  intros Hc. unfold candidate_state, classify_temperature.
  rewrite (proj2 (Z.leb_le _ _) Hc). by destruct (state g).
Qed.

Lemma candidate_critical_inv g t :
  candidate_state g t = Critical ->
  critical (thresholds g) <= t \/
  (state g = Critical /\ critical (thresholds g) - hysteresis (thresholds g) <= t).
Proof.
  unfold candidate_state, classify_temperature.
  destruct (Z.leb_spec (critical (thresholds g)) t); [by left|].
  destruct (state g) eqn:Hs; simpl; repeat case_match; intros; try done; right;
    (split; [done|]); lia.
Qed.

(** While the guard keeps a pending state it differs from the current one and
    is reached only by debouncing. *)
Definition guard_wf (g : ThermalGuard) : Prop :=
  forall c since, pending g = Some (c, since) -> c <> state g /\ c <> Critical /\ c <> Degraded.

Lemma guard_wf_new th : guard_wf (ThermalGuard_new th).
Proof. by intros c since. Qed.

Lemma guard_wf_update g now r : guard_wf g -> guard_wf (update g now r).
Proof.
  intros Hwf. unfold update. destruct (usable _ _ _) as [t|]; [|by intros c since].
  pose proof (candidate_not_degraded g t) as Hd.
  case_decide; [by intros c s|]. case_decide; [by intros c s|].
  assert (Hother : guard_wf (if dwell_ms (thresholds g) =? 0
    then set_state g (candidate_state g t) None
    else set_state g (state g) (Some (candidate_state g t, now)))).
  { case_match; [by intros c' since'|]. intros c' since' [= <- <-]. by split_and!. }
  destruct (pending g) as [[p since]|]; [|done].
  case_decide; [|done]. by destruct (_ <=? _); [intros c' since'|].
Qed.

Lemma guard_wf_run g l : guard_wf g -> guard_wf (run_samples g l).
Proof.
  revert g. induction l as [|s l IH]; intros g Hg; [done|]. simpl. by apply IH, guard_wf_update.
Qed.

(** How the state can change in one update. *)
Lemma update_state_cases g now r :
  (usable (thresholds g) now r = None /\ state (update g now r) = Degraded) \/
  exists t, usable (thresholds g) now r = Some t /\
    let c := candidate_state g t in
    state (update g now r) = state g \/
    (state (update g now r) = c /\
      (c = Critical \/ dwell_ms (thresholds g) = 0 \/
       exists since, pending g = Some (c, since) /\
         dwell_ms (thresholds g) <= saturating_duration_since now since)).
Proof.
  unfold update. destruct (usable _ _ _) as [t|] eqn:Hu; [right | by left].
  exists t. split; [done|]. simpl.
  case_decide as Hc; [right; split; [done | by left]|].
  case_decide as Hs; [by left|].
  destruct (pending g) as [[p since]|] eqn:Hp.
  - case_decide as Hpc.
    + destruct (Z.leb_spec (dwell_ms (thresholds g)) (saturating_duration_since now since)).
      * right. split; [done|]. right. right. exists since. by subst p.
      * by left.
    + destruct (Z.eqb_spec (dwell_ms (thresholds g)) 0); [right; split; auto | by left].
  - destruct (Z.eqb_spec (dwell_ms (thresholds g)) 0); [right; split; auto | by left].
Qed.

(** Where a pending state comes from. *)
Lemma update_pending g now r c since :
  pending (update g now r) = Some (c, since) ->
  state (update g now r) = state g /\
  exists t, usable (thresholds g) now r = Some t /\ candidate_state g t = c /\
    (since = now \/ pending g = Some (c, since)).
Proof.
  unfold update. destruct (usable _ _ _) as [t|] eqn:Hu; [|done].
  case_decide as Hc; [done|]. case_decide as Hs; [done|].
  destruct (pending g) as [[p s0]|] eqn:Hp.
  - case_decide as Hpc; subst.
    + case_match; [done|]. rewrite Hp. intros [= <- <-]. eauto 6.
    + case_match; [done|]. simpl. intros [= <- <-]. eauto 6.
  - case_match; [done|]. simpl. intros [= <- <-]. eauto 6.
Qed.

(** The candidate depends only on the thresholds and the current state. *)
Definition at_state (th : ThermalThresholds) (s : ThermalState) : ThermalGuard :=
  {| thresholds := th; state := s; pending := None |}.

Lemma candidate_at_state g t :
  candidate_state g t = candidate_state (at_state (thresholds g) (state g)) t.
Proof. done. Qed.

(** A candidate other than the current state is the raw classification, and
    proposes itself once entered. *)
Lemma candidate_raw g t :
  candidate_state g t <> state g -> candidate_state g t = classify_temperature t (thresholds g).
Proof.
  unfold candidate_state. destruct (_ || _); [done|].
  destruct (state g); repeat case_match; done.
Qed.

Lemma candidate_stable g t :
  candidate_state g t <> state g ->
  candidate_state (at_state (thresholds g) (candidate_state g t)) t = candidate_state g t.
Proof.
  intros Hne. rewrite (candidate_raw g t Hne). unfold candidate_state at 1. simpl.
  by rewrite Z.leb_refl.
Qed.

(** Recovery requires the temperature to be below the threshold of the state
    being left by more than the hysteresis. *)
Lemma candidate_recovery g t :
  thermal_rank (candidate_state g t) < thermal_rank (state g) -> state g <> Degraded ->
  t < match state g with
      | Critical => critical (thresholds g)
      | Throttled => throttled (thresholds g)
      | _ => warning (thresholds g)
      end - hysteresis (thresholds g).
Proof.
  unfold candidate_state. intros Hlt Hd.
  destruct (Z.leb_spec (thermal_rank (state g)) (thermal_rank (classify_temperature t (thresholds g))));
    simpl in Hlt; [lia|].
  rewrite bool_decide_false in Hlt by done.
  destruct (state g); simpl in *; try done.
  - by destruct (classify_temperature t (thresholds g)).
  - destruct (Z.ltb_spec t (warning (thresholds g) - hysteresis (thresholds g))); simpl in *; lia.
  - destruct (Z.ltb_spec t (throttled (thresholds g) - hysteresis (thresholds g))); simpl in *; lia.
  - destruct (Z.ltb_spec t (critical (thresholds g) - hysteresis (thresholds g))); simpl in *; lia.
Qed.

(** A sample that, in state [s], argues for the candidate [c]. *)
Definition proposes (th : ThermalThresholds) (s c : ThermalState)
    (sample : MonotonicMillis * ThermalReading) : Prop :=
  exists t, usable th sample.1 sample.2 = Some t /\ candidate_state (at_state th s) t = c.

(** A pending candidate has been proposed by every sample since it appeared. *)
Lemma pending_history th l c since :
  pending (run_samples (ThermalGuard_new th) l) = Some (c, since) ->
  exists l1 r0 l2, l = l1 ++ (since, r0) :: l2 /\
    Forall (proposes th (state (run_samples (ThermalGuard_new th) l)) c) ((since, r0) :: l2).
Proof.
  revert c since. induction l as [|[now r] l IH] using rev_ind; intros c since; [done|].
  rewrite run_snoc. simpl. intros Hp. apply update_pending in Hp as (Hs & t & Hu & Hc & Hor).
  rewrite Hs. rewrite candidate_at_state, run_thresholds in Hc. rewrite run_thresholds in Hu.
  assert (Hlast : proposes th (state (run_samples (ThermalGuard_new th) l)) c (now, r)) by by exists t.
  destruct Hor as [->|Hpend].
  - exists l, r, []. split; [done|]. by constructor.
  - apply IH in Hpend as (l1 & r0 & l2 & -> & Hall). exists l1, r0, (l2 ++ [(now, r)]).
    split; [by rewrite <- app_assoc|]. rewrite app_comm_cons, Forall_app. by split; [|constructor].
Qed.

(** ** Properties *)

(** the guard fails safe. Whatever its state, one reading that is
    unhealthy, missing, stale or from the future puts it in [Degraded], and
    one trusted reading at or above the critical threshold puts it in
    [Critical], with no debouncing and nothing left pending. *)
Theorem thermal_failsafe g now r :
  (usable (thresholds g) now r = None ->
     state (update g now r) = Degraded /\ pending (update g now r) = None) /\
  (forall t, usable (thresholds g) now r = Some t -> critical (thresholds g) <= t ->
     state (update g now r) = Critical /\ pending (update g now r) = None).
Proof.
  unfold update. split.
  - intros Hu. by rewrite Hu.
  - intros t Hu Hc. rewrite Hu, (candidate_critical g t Hc). by rewrite decide_True.
Qed.

Definition example_thresholds : ThermalThresholds :=
  {| warning := 70000; throttled := 80000; critical := 95000; hysteresis := 3000;
     dwell_ms := 1000; stale_after_ms := 2000 |}.
Definition reading (t at_ : Z) : ThermalReading :=
  {| temperature := Some t; sampled_at := at_; health := Healthy |}.

Lemma thermal_failsafe_witness :
  state (update (ThermalGuard_new example_thresholds) 10 (reading 96000 10)) = Critical /\
  state (update (ThermalGuard_new example_thresholds) 5000 (reading 20000 10)) = Degraded.
Proof.
  split.
  - refine (proj1 (proj2 (thermal_failsafe (ThermalGuard_new example_thresholds) 10
      (reading 96000 10)) 96000 _ _)); [reflexivity | simpl; lia].
  - refine (proj1 (proj1 (thermal_failsafe (ThermalGuard_new example_thresholds) 5000
      (reading 20000 10)) _)). reflexivity.
Defined.

(** every other state change is debounced. From a fresh guard, whenever a
    sample moves the state to one that is neither [Critical] nor [Degraded],
    all samples of the preceding [dwell_ms] (at least) were trusted and
    proposed exactly that state. *)
Theorem thermal_debounced th l now r :
  let before := run_samples (ThermalGuard_new th) l in
  let after := run_samples (ThermalGuard_new th) (l ++ [(now, r)]) in
  dwell_ms th <> 0 ->
  state after <> state before -> state after <> Critical -> state after <> Degraded ->
  exists l1 since r0 l2,
    l = l1 ++ (since, r0) :: l2 /\
    dwell_ms th <= saturating_duration_since now since /\
    Forall (proposes th (state before) (state after)) ((since, r0) :: l2 ++ [(now, r)]).
Proof.
  intros before after Hdw Hne Hnc Hnd. subst after. rewrite run_snoc in *. fold before in Hne, Hnc, Hnd |- *.
  simpl in *. assert (Hth : thresholds before = th) by apply run_thresholds.
  destruct (update_state_cases before now r) as [[_ Hd]|(t & Hu & Hcase)]; [done|].
  rewrite Hth in *. destruct Hcase as [Hsame|[Hs [Hc|[Hz|(since & Hp & Hel)]]]]; try congruence.
  rewrite Hs. pose proof (pending_history th l _ _ Hp) as (l1 & r0 & l2 & Hl & Hall).
  exists l1, since, r0, l2. split_and!; [done|done|].
  rewrite app_comm_cons, Forall_app. split; [done|]. constructor; [|done]. exists t.
  split; [done|]. by rewrite (candidate_at_state before), Hth.
Qed.

Lemma thermal_debounced_witness :
  exists l1 since r0 l2,
    [(0, reading 75000 0); (500, reading 76000 500)] = l1 ++ (since, r0) :: l2 /\
    1000 <= saturating_duration_since 1000 since /\
    Forall (proposes example_thresholds Normal Warning) ((since, r0) :: l2 ++ [(1000, reading 75500 1000)]).
Proof.
  refine (thermal_debounced example_thresholds
    [(0, reading 75000 0); (500, reading 76000 500)] 1000 (reading 75500 1000) _ _ _ _);
    vm_compute; discriminate.
Defined.

(** C39: the guard converges. Two trusted readings of the same temperature at
    least [dwell_ms] apart put the guard in the state that temperature calls
    for, from any earlier state. *)
Theorem thermal_converges g n0 r0 n1 r1 t :
  usable (thresholds g) n0 r0 = Some t -> usable (thresholds g) n1 r1 = Some t ->
  0 <= dwell_ms (thresholds g) -> n0 + dwell_ms (thresholds g) <= n1 ->
  (forall c since, pending g = Some (c, since) -> since <= n0) ->
  state (update (update g n0 r0) n1 r1) = candidate_state g t.
Proof.
  intros Hu0 Hu1 Hd Hn Hpend. set (c := candidate_state g t).
  assert (Hel : forall since, since <= n0 ->
    dwell_ms (thresholds g) <= saturating_duration_since n1 since)
    by (intros; unfold saturating_duration_since, sat_sub; lia).
  (* after the first sample: in [c] with nothing to add, or [c] is pending *)
  assert (Hfirst : let g1 := update g n0 r0 in thresholds g1 = thresholds g /\
    (state g1 = c \/ (state g1 = state g /\ c <> state g /\ c <> Critical /\
       exists since, since <= n0 /\ pending g1 = Some (c, since)))).
  { simpl. split; [apply update_thresholds|]. unfold update. rewrite Hu0. fold c.
    case_decide as Hc; [by left|]. case_decide as Hs; [by left|].
    destruct (pending g) as [[p since]|] eqn:Hp.
    - specialize (Hpend p since eq_refl). case_decide as Hpc; [subst p|];
        destruct (_ : bool); simpl; auto 10; right; split_and!; try done; eexists; (split; [|done]); lia.
    - destruct (_ : bool); simpl; auto. right. split_and!; try done. eexists. split; [|done]. lia. }
  simpl in Hfirst. destruct Hfirst as [Hth Hcase].
  assert (Hself : candidate_state (at_state (thresholds g) c) t = c).
  { destruct (decide (c = state g)) as [Heq|Hne].
    - rewrite Heq. unfold c in Heq. by rewrite <- candidate_at_state.
    - by apply candidate_stable. }
  unfold update at 1. rewrite Hth, Hu1, candidate_at_state, Hth.
  destruct Hcase as [Hs|(Hs & Hne & Hnc & since & Hle & Hp)]; rewrite Hs.
  - rewrite Hself. case_decide; [done|]. by rewrite decide_True.
  - rewrite <- candidate_at_state. fold c. rewrite decide_False by done. rewrite decide_False by done.
    rewrite Hp, decide_True by done. by rewrite (proj2 (Z.leb_le _ _) (Hel since Hle)).
Qed.

Lemma thermal_converges_witness :
  state (update (update (ThermalGuard_new example_thresholds) 0 (reading 85000 0))
    1000 (reading 85000 1000)) = Throttled.
Proof.
  change Throttled with (candidate_state (ThermalGuard_new example_thresholds) 85000).
  apply thermal_converges; try reflexivity; simpl; lia || (vm_compute; discriminate) || done.
Defined.

(** recovery has hysteresis. A sample lowers the state (other than from
    [Degraded]) only when its temperature is below the threshold of the state
    being left by more than the configured hysteresis. *)
Theorem thermal_recovery_hysteresis g now r :
  thermal_rank (state (update g now r)) < thermal_rank (state g) -> state g <> Degraded ->
  exists t, usable (thresholds g) now r = Some t /\
    t < match state g with
        | Critical => critical (thresholds g)
        | Throttled => throttled (thresholds g)
        | _ => warning (thresholds g)
        end - hysteresis (thresholds g).
Proof.
  intros Hlt Hd. destruct (update_state_cases g now r) as [[_ Hs]|(t & Hu & [Hs|[Hs _]])];
    rewrite Hs in Hlt.
  - destruct (state g); simpl in Hlt; lia || done.
  - lia.
  - exists t. split; [done|]. by apply candidate_recovery.
Qed.

Lemma thermal_recovery_hysteresis_witness :
  exists t, usable example_thresholds 1000 (reading 60000 1000) = Some t /\ t < 95000 - 3000.
Proof.
  refine (thermal_recovery_hysteresis
    {| thresholds := example_thresholds; state := Critical; pending := Some (Normal, 0) |}
    1000 (reading 60000 1000) _ _); [vm_compute; done | done].
Defined.

Lemma worst_thermal_state_spec states :
  (states = [] -> worst_thermal_state states = Degraded) /\
  (states <> [] -> worst_thermal_state states ∈ states /\
     forall s, s ∈ states -> thermal_rank s <= thermal_rank (worst_thermal_state states)).
Proof.
  unfold worst_thermal_state. destruct (max_by_key thermal_rank states) as [m|] eqn:Hm; simpl.
  - apply max_by_key_Some in Hm as [Hin Hmax]. split; [|done]. intros ->. set_solver.
  - apply max_by_key_None in Hm. by split.
Qed.

(** Validated thresholds keep the code's [i64] subtractions in range. *)
Lemma no_overflow th :
  0 <= warning th <= 250000 -> 0 <= throttled th <= 250000 -> 0 <= critical th <= 250000 ->
  0 <= hysteresis th < critical th - warning th ->
  is_i64 (warning th - hysteresis th) /\ is_i64 (throttled th - hysteresis th) /\
  is_i64 (critical th - hysteresis th).
Proof. unfold is_i64. lia. Qed.
