(* ===== verification/Load.v ===== *)
(** * Load averaging and heavy-load detection ([uperf-core/src/policy.rs])

    [time_weighted_ema] and [HeavyLoadDetector::update]. The exponential is
    the platform's [f64::exp], whose precision Rust leaves unspecified: it is
    a parameter of every definition that calls it. *)

From S2P Require Import Prelude Float64 Domain Scene Frequency.

Record LoadConfig := {
  load_enabled : bool;
  sample_interval_ms : Z;
  ema_time_constant_ms : Z;
  heavy_enter : f64;
  heavy_exit : f64;
  heavy_dwell_ms : Z;
}.

Definition LoadConfig_default : LoadConfig :=
  {| load_enabled := true; sample_interval_ms := 250; ema_time_constant_ms := 500;
     heavy_enter := f64_lit 60 100; heavy_exit := f64_lit 20 100; heavy_dwell_ms := 1000 |}.

Definition validate_non_negative_finite (field : string) (v : f64) : res unit PolicyError :=
  if f64_is_finite v && f64_ge v f64_zero then Ok tt else Err (InvalidLoadInput field).

Inductive HeavyLoadState := HIdle | Heavy.
#[global] Instance HeavyLoadState_eq_dec : EqDecision HeavyLoadState.
Proof. solve_decision. Defined.

Record HeavyLoadDetector := {
  ema : option f64;
  hstate : HeavyLoadState;
  below_exit_since : option MonotonicMillis;
}.

Definition HeavyLoadDetector_default : HeavyLoadDetector :=
  {| ema := None; hstate := HIdle; below_exit_since := None |}.

Section load.
Context (exp : f64 -> f64).

Definition time_weighted_ema (previous sample : f64) (elapsed_ms time_constant_ms : Z)
  : res f64 PolicyError :=
  do? validate_non_negative_finite "previous" previous in
  do? validate_non_negative_finite "sample" sample in
  do? reject_if (time_constant_ms =? 0) (InvalidLoadInput "time_constant_ms") in
  let elapsed := millis_as_secs elapsed_ms in
  let time_constant := millis_as_secs time_constant_ms in
  let alpha := f64_sub f64_one (exp (f64_div (f64_neg elapsed) time_constant)) in
  Ok (f64_add previous (f64_mul alpha (f64_sub sample previous))).

(** The new detector; its [hstate] is the state the method returns. Nothing is
    stored before the last fallible call, so an error leaves the detector. *)
Definition HeavyLoadDetector_update (d : HeavyLoadDetector) (sample : f64) (elapsed_ms : Z)
    (now : MonotonicMillis) (config : LoadConfig) : res HeavyLoadDetector PolicyError :=
  let enter := heavy_enter config in
  let exit := heavy_exit config in
  do? validate_non_negative_finite "sample" sample in
  do? validate_non_negative_finite "enter" enter in
  do? validate_non_negative_finite "exit" exit in
  let? e :=
    match ema d with
    | None => Ok sample
    | Some previous => time_weighted_ema previous sample elapsed_ms (ema_time_constant_ms config)
    end in
  Ok
    match hstate d with
    | HIdle =>
        if f64_ge e enter
        then {| ema := Some e; hstate := Heavy; below_exit_since := None |}
        else {| ema := Some e; hstate := HIdle; below_exit_since := below_exit_since d |}
    | Heavy =>
        if f64_le e exit then
          let below_since := unwrap_or (below_exit_since d) now in
          if heavy_dwell_ms config <=? saturating_duration_since now below_since
          then {| ema := Some e; hstate := HIdle; below_exit_since := None |}
          else {| ema := Some e; hstate := Heavy; below_exit_since := Some below_since |}
        else {| ema := Some e; hstate := Heavy; below_exit_since := None |}
    end.

Record LoadSample := { ls_sample : f64; ls_elapsed : Z; ls_now : MonotonicMillis }.

Definition load_run (config : LoadConfig) (d : HeavyLoadDetector) (l : list LoadSample)
  : res HeavyLoadDetector PolicyError :=
  res_foldM (fun d s => HeavyLoadDetector_update d (ls_sample s) (ls_elapsed s) (ls_now s) config) d l.

Lemma validate_non_negative_finite_Ok field v u :
  validate_non_negative_finite field v = Ok u <->
  f64_is_finite v = true /\ f64_le f64_zero v = true.
Proof.
  unfold validate_non_negative_finite. rewrite <- andb_true_iff.
  destruct (_ && _), u; split; done.
Qed.

(** Without a change of state the detector only moves its average and timer. *)
Lemma detector_step d sample elapsed now config d' :
  HeavyLoadDetector_update d sample elapsed now config = Ok d' ->
  exists e, ema d' = Some e /\
    match hstate d, hstate d' with
    | HIdle, Heavy => f64_ge e (heavy_enter config) = true /\ below_exit_since d' = None
    | HIdle, HIdle => f64_ge e (heavy_enter config) = false /\ below_exit_since d' = below_exit_since d
    | Heavy, HIdle =>
        f64_le e (heavy_exit config) = true /\ below_exit_since d' = None /\
        heavy_dwell_ms config
          <= saturating_duration_since now (unwrap_or (below_exit_since d) now)
    | Heavy, Heavy =>
        match below_exit_since d' with
        | None => f64_le e (heavy_exit config) = false
        | Some since => f64_le e (heavy_exit config) = true /\
            since = unwrap_or (below_exit_since d) now /\
            saturating_duration_since now since < heavy_dwell_ms config
        end
    end.
Proof.
  unfold HeavyLoadDetector_update.
  intros (_ & _ & (_ & _ & (_ & _ & (e & _ & [= <-])%res_bind_Ok)%res_bind_Ok)%res_bind_Ok)%res_bind_Ok.
  exists e. destruct (hstate d); simpl.
  - destruct (f64_le (heavy_enter config) e) eqn:E; simpl; done.
  - destruct (f64_le e (heavy_exit config)) eqn:E; simpl; [|done].
    destruct (Z.leb_spec (heavy_dwell_ms config)
      (saturating_duration_since now (unwrap_or (below_exit_since d) now))); simpl; auto.
Qed.

(** The state reached by a run, sample by sample. *)
Lemma load_run_snoc config d l s d' :
  load_run config d (l ++ [s]) = Ok d' <->
  exists d1, load_run config d l = Ok d1 /\
    HeavyLoadDetector_update d1 (ls_sample s) (ls_elapsed s) (ls_now s) config = Ok d'.
Proof.
  unfold load_run. revert d. induction l as [|x l IH]; intros d; simpl.
  - split.
    + intros (d1 & H & [= <-])%res_bind_Ok. eauto.
    + intros (d1 & [= <-] & H). apply res_bind_Ok. eauto.
  - rewrite res_bind_Ok. split.
    + intros (d1 & H1 & (d2 & H2 & H3)%IH). exists d2. split; [|done].
      apply res_bind_Ok. eauto.
    + intros (d2 & (d1 & H1 & H2)%res_bind_Ok & H3). exists d1. split; [done|].
      apply IH. eauto.
Qed.

(** The average after a prefix of the run lies at or below the exit level. *)
Definition below_exit (config : LoadConfig) (d : HeavyLoadDetector) : Prop :=
  exists e, ema d = Some e /\ f64_le e (heavy_exit config) = true.

(** While the timer runs, every average since it started was below the exit
    level, and the detector stayed heavy. *)
Definition timer_history config d0 l since d : Prop :=
  hstate d = Heavy ->
  exists l1 s0 l2, l = l1 ++ s0 :: l2 /\ ls_now s0 = since /\
    forall k, (k <= length l2)%nat ->
      exists dk, load_run config d0 (l1 ++ s0 :: take k l2) = Ok dk /\
        below_exit config dk /\ hstate dk = Heavy.

Lemma timer_start config l d since :
  load_run config HeavyLoadDetector_default l = Ok d ->
  below_exit_since d = Some since ->
  timer_history config HeavyLoadDetector_default l since d.
Proof.
  revert d since. induction l as [|s l IH] using rev_ind; intros d since.
  - intros [= <-]. done.
  - intros (d1 & H1 & H2)%load_run_snoc Hsince Hheavy.
    assert (Hd : below_exit config d) .
    { apply detector_step in H2 as (e & He & Hcase). exists e. split; [done|].
      rewrite Hheavy, Hsince in Hcase. destruct (hstate d1); naive_solver. }
    pose proof (detector_step _ _ _ _ _ _ H2) as (e & He & Hcase).
    rewrite Hheavy, Hsince in Hcase. destruct (hstate d1) eqn:Hh1; [naive_solver|].
    destruct Hcase as (Hle & Heq & Hlt).
    destruct (below_exit_since d1) as [since1|] eqn:Hs1; simpl in Heq; subst since.
    + destruct (IH d1 since1 H1 Hs1 Hh1) as (l1 & s0 & l2 & -> & Hnow & Hall).
      exists l1, s0, (l2 ++ [s]). split_and!; [by rewrite <- app_assoc|done|].
      intros k Hk. rewrite length_app in Hk. simpl in Hk.
      destruct (decide (k <= length l2)%nat) as [Hle'|Hgt].
      * rewrite take_app_le by done. by apply Hall.
      * rewrite take_ge by (rewrite length_app; simpl; lia).
        exists d. split_and!; [|done|done].
        change (s0 :: l2 ++ [s]) with ((s0 :: l2) ++ [s]). rewrite app_assoc.
        apply load_run_snoc. eauto.
    + exists l, s, []. split_and!; [done|done|]. intros k Hk. rewrite take_nil.
      exists d. split_and!; [|done|done]. apply load_run_snoc. eauto.
Qed.

(** leaving [Heavy] is debounced. When a sample moves a detector, started
    fresh, from [Heavy] to [Idle], then either the dwell time is zero or the
    average had stayed at or below [heavy_exit], with the detector heavy, after
    every sample of at least the last [heavy_dwell_ms]. *)
Theorem heavy_exit_debounced config l s d d' :
  load_run config HeavyLoadDetector_default l = Ok d ->
  HeavyLoadDetector_update d (ls_sample s) (ls_elapsed s) (ls_now s) config = Ok d' ->
  hstate d = Heavy -> hstate d' = HIdle ->
  below_exit config d' /\
  (heavy_dwell_ms config <= 0 \/
   exists l1 s0 l2, l = l1 ++ s0 :: l2 /\
     heavy_dwell_ms config <= saturating_duration_since (ls_now s) (ls_now s0) /\
     forall k, (k <= length l2)%nat ->
       exists dk, load_run config HeavyLoadDetector_default (l1 ++ s0 :: take k l2) = Ok dk /\
         below_exit config dk /\ hstate dk = Heavy).
Proof.
  intros Hrun Hup Hh Hi. apply detector_step in Hup as (e & He & Hcase).
  rewrite Hh, Hi in Hcase. destruct Hcase as (Hle & _ & Hdw).
  split; [by exists e|]. destruct (below_exit_since d) as [since|] eqn:Hs; simpl in Hdw.
  - right. destruct (timer_start config l d since Hrun Hs Hh) as (l1 & s0 & l2 & Hl & Hnow & Hall).
    exists l1, s0, l2. by rewrite Hnow.
  - left. unfold saturating_duration_since, sat_sub in Hdw. lia.
Qed.

(** hysteresis. With the exit level below the entry level, an average
    strictly between them changes nothing: an idle detector stays idle, a
    heavy one stays heavy and its exit timer is cleared. *)
Theorem heavy_hysteresis config d sample elapsed now d' e :
  HeavyLoadDetector_update d sample elapsed now config = Ok d' -> ema d' = Some e ->
  f64_lt (heavy_exit config) e = true -> f64_lt e (heavy_enter config) = true ->
  hstate d' = hstate d /\ (hstate d = Heavy -> below_exit_since d' = None).
Proof.
  intros Hup He Hlo Hhi. apply detector_step in Hup as (e' & He' & Hcase).
  rewrite He in He'. injection He' as <-.
  assert (Hnge : f64_le (heavy_enter config) e = false).
  { apply not_true_iff_false. intros Hc. f64_order. }
  assert (Hnle : f64_le e (heavy_exit config) = false).
  { apply not_true_iff_false. intros Hc. f64_order. }
  rewrite Hnge, Hnle in Hcase. destruct (hstate d), (hstate d'); try naive_solver.
  split; [done|]. intros _. destruct (below_exit_since d'); naive_solver.
Qed.

(** Errors: exactly the invalid inputs, in the order they are checked. *)
Lemma detector_update_error d sample elapsed now config err :
  HeavyLoadDetector_update d sample elapsed now config = Err err ->
  exists field, err = InvalidLoadInput field.
Proof.
  unfold HeavyLoadDetector_update, time_weighted_ema, validate_non_negative_finite, reject_if.
  repeat case_match; simpl; naive_solver.
Qed.
End load.

(** A concrete exponential for the witnesses: exact at zero, and otherwise the
    value of a long interval. *)
Definition step_exp (x : f64) : f64 := if f64_le f64_zero x then f64_one else f64_zero.

Definition load_sample (percent now : Z) : LoadSample :=
  {| ls_sample := f64_lit percent 100; ls_elapsed := 1000; ls_now := now |}.

Definition heavy_after : HeavyLoadDetector :=
  match load_run step_exp LoadConfig_default HeavyLoadDetector_default
          [load_sample 90 0; load_sample 10 1000] with
  | Ok d => d
  | _ => HeavyLoadDetector_default
  end.

Definition idle_after : HeavyLoadDetector :=
  match HeavyLoadDetector_update step_exp heavy_after (f64_lit 10 100) 1000 2000 LoadConfig_default with
  | Ok d => d
  | _ => heavy_after
  end.

Lemma heavy_exit_debounced_witness :
  below_exit LoadConfig_default idle_after /\
  (1000 <= 0 \/ exists l1 s0 l2, [load_sample 90 0; load_sample 10 1000] = l1 ++ s0 :: l2 /\
     1000 <= saturating_duration_since 2000 (ls_now s0) /\
     forall k, (k <= length l2)%nat ->
       exists dk, load_run step_exp LoadConfig_default HeavyLoadDetector_default
                    (l1 ++ s0 :: take k l2) = Ok dk /\
         below_exit LoadConfig_default dk /\ hstate dk = Heavy).
Proof.
  refine (heavy_exit_debounced step_exp LoadConfig_default
    [load_sample 90 0; load_sample 10 1000] (load_sample 10 2000) heavy_after idle_after _ _ _ _);
    vm_compute; reflexivity.
Defined.

Lemma heavy_hysteresis_witness :
  exists d', HeavyLoadDetector_update step_exp heavy_after (f64_lit 40 100) 1000 1500
               LoadConfig_default = Ok d' /\ hstate d' = Heavy /\ below_exit_since d' = None.
Proof.
  exists {| ema := Some (f64_lit 40 100); hstate := Heavy; below_exit_since := None |}.
  assert (Heq : HeavyLoadDetector_update step_exp heavy_after (f64_lit 40 100) 1000 1500
    LoadConfig_default = Ok {| ema := Some (f64_lit 40 100); hstate := Heavy;
      below_exit_since := None |}) by (vm_compute; reflexivity).
  split; [exact Heq|].
  destruct (heavy_hysteresis step_exp LoadConfig_default heavy_after _ _ _ _ (f64_lit 40 100)
    Heq eq_refl) as [H1 H2]; [vm_compute; reflexivity..|].
  split; [rewrite H1; vm_compute; reflexivity | apply H2; vm_compute; reflexivity].
Defined.
