(* ===== verification/ConfigTypes.v ===== *)
(** * Configuration documents ([uperf-core/src/config.rs])

    The version-2 device, policy and application documents as records, one
    per Rust struct with its fields in order. Field names carry a short prefix
    where two structs share one. Maps keyed by identifiers are [gmap]s; lists
    keep the document's order. *)

From S2P Require Import Prelude Float64 Domain Scene Thermal Load.

Definition CONFIG_SCHEMA_VERSION : Z := 2.
Definition MAX_CONFIG_FILE_BYTES : Z := 1024 * 1024.
Definition MAX_CPU_POLICIES : nat := 256.
Definition MAX_DEVFREQ_TARGETS : nat := 256.
Definition MAX_SCALAR_TARGETS : nat := 256.
Definition MAX_THERMAL_ZONES : nat := 256.
Definition MAX_DEVFREQ_COMPATIBLE_STRINGS : nat := 64.
Definition MAX_PROFILE_CONFIGS : nat := 8.
Definition MAX_TASK_PROFILES : nat := 256.
Definition MAX_PROCESS_RULES : nat := 1024.
Definition MAX_THREAD_RULES_PER_PROCESS : nat := 256.
Definition MAX_TOTAL_THREAD_RULES : nat := 4096.
Definition MAX_CGROUP_CLASSES : nat := 256.
Definition MAX_APP_RULES : nat := 4096.
Definition MAX_FOCUS_PROTECTED : nat := 256.
Definition MAX_FIFO_PRIORITY : Z := 50.

(** ** Device document *)

Record DeviceMatch := { dm_compatible : option string; dm_product_name : option string }.

Record MeasuredOppConfig := {
  mo_frequency_hz : Hertz;
  mo_relative_capacity : Z;
  mo_power_mw_per_core : Z;
}.

Inductive CpuEnergyModelConfig :=
| ReferenceCurveV1 (relative_performance typical_power_mw_per_core : Z)
    (typical_frequency_hz sweet_frequency_hz plain_frequency_hz free_frequency_hz : Hertz)
| MeasuredOppV1 (points : list MeasuredOppConfig).

Inductive ScalarTargetDomainConfig :=
| CfgIntegerRange (minimum maximum : Z)
| CfgIntegerEnum (values : list Z)
| CfgStringEnum (values : list string)
| CfgCpuList (allowed_cpus : CpuSet) (allow_empty : bool).

Record ScalarTargetConfig := {
  stc_id : string;
  stc_path : string;
  stc_domain : ScalarTargetDomainConfig;
}.

Record CpuPolicyConfig := {
  cp_id : string;
  cp_related_cpus : CpuSet;
  cp_sysfs_path : option string;
  cp_floor_hz : Hertz;
  cp_reference_hz : Hertz;
  cp_efficient_cap_hz : Hertz;
  cp_admin_cap_hz : option Hertz;
  cp_critical_cap_hz : option Hertz;
  cp_sensor_failure_cap_hz : option Hertz;
  cp_energy_model : option CpuEnergyModelConfig;
}.

Record DevfreqTargetConfig := {
  df_id : string;
  df_device_name : string;
  df_compatible : list string;
  df_sysfs_path : option string;
  df_manual_only : bool;
  df_admin_cap_hz : option Hertz;
  df_critical_cap_hz : option Hertz;
  df_sensor_failure_cap_hz : option Hertz;
}.

Record ThermalZoneConfig := {
  tz_id : string;
  tz_zone_type : string;
  tz_sysfs_path : option string;
  tz_warning : MilliCelsius;
  tz_throttled : MilliCelsius;
  tz_critical : MilliCelsius;
  tz_hysteresis : MilliCelsius;
  tz_dwell_ms : Z;
  tz_stale_after_ms : Z;
}.

(** [impl From<&ThermalZoneConfig> for ThermalThresholds] *)
Definition thresholds_of_zone (z : ThermalZoneConfig) : ThermalThresholds :=
  {| warning := tz_warning z; throttled := tz_throttled z; critical := tz_critical z;
     hysteresis := tz_hysteresis z; dwell_ms := tz_dwell_ms z;
     stale_after_ms := tz_stale_after_ms z |}.

Record DeviceConfig := {
  dev_schema_version : Z;
  dev_device_id : string;
  dev_device_match : option DeviceMatch;
  dev_cpu_groups : gmap string CpuSet;
  dev_cpu_policies : list CpuPolicyConfig;
  dev_devfreq_targets : list DevfreqTargetConfig;
  dev_scalar_targets : list ScalarTargetConfig;
  dev_thermal_zones : list ThermalZoneConfig;
}.

(** ** Policy document *)

Record PowerBudgetConfig := {
  slow_limit_power_mw : Z;
  fast_limit_power_mw : Z;
  fast_limit_capacity_mj : Z;
  fast_limit_recover_scale : f64;
}.

Record PowerBudgetPatch := {
  pp_slow_limit_power_mw : option Z;
  pp_fast_limit_power_mw : option Z;
  pp_fast_limit_capacity_mj : option Z;
  pp_fast_limit_recover_scale : option f64;
}.

Record ScenePatch := {
  sp_margin : option f64;
  sp_burst : option f64;
  sp_limit_efficiency : option bool;
  sp_power_budget : option PowerBudgetPatch;
  sp_scalar_values : gmap string ScalarSettingValue;
}.

Record ProfileConfig := {
  pc_id : ProfileId;
  pc_margin : f64;
  pc_burst : f64;
  pc_limit_efficiency : bool;
  pc_power_budget : option PowerBudgetConfig;
  pc_scalar_values : gmap string ScalarSettingValue;
  pc_scenes : gmap Scene ScenePatch;
}.

Record GovernorConfig := {
  active_sample_ms : Z;
  idle_sample_ms : Z;
  active_load_threshold : f64;
  idle_load_threshold : f64;
  predict_threshold : f64;
  ramp_latency_ms : Z;
  min_opp_residency_ms : Z;
}.

Definition GovernorConfig_default : GovernorConfig :=
  {| active_sample_ms := 20; idle_sample_ms := 80;
     active_load_threshold := f64_lit 30 100; idle_load_threshold := f64_lit 15 100;
     predict_threshold := f64_lit 15 100; ramp_latency_ms := 100; min_opp_residency_ms := 10 |}.

Record ThermalPolicyConfig := { tp_sample_interval_ms : Z }.

Record InputConfig := {
  in_enabled : bool;
  in_trigger_duration_ms : Z;
  in_gesture_duration_ms : Z;
  in_switch_duration_ms : Z;
  in_wake_duration_ms : Z;
  in_swipe_distance : f64;
  in_edge_width : f64;
}.

Record WorkloadMatcher := {
  wm_executable : option string;
  wm_desktop_id : option string;
  wm_comm_regex : option string;
}.

Record TaskProfileConfig := {
  tpc_id : string;
  tpc_affinity_group : option string;
  tpc_plan : TaskPlan;
  tpc_scenes : gmap SchedulerScene TaskPlan;
}.

Inductive ThreadSelector := SelLeader | SelCommRegex (pattern : string).

Record ThreadRuleConfig := { tr_selector : ThreadSelector; tr_task_profile : string }.

Record ProcessRuleConfig := {
  pr_name : string;
  pr_matcher : WorkloadMatcher;
  pr_task_profile : option string;
  pr_cgroup_class : option string;
  pr_threads : list ThreadRuleConfig;
}.

Record CgroupClassConfig := {
  cg_id : string;
  cg_allowed_cpu_group : option string;
  cg_allowed_cpus : CpuSet;
  cg_cpu_weight : Z;
}.

Record FocusConfig := {
  fc_enabled : bool;
  fc_task_profile : option string;
  fc_lease_ttl_ms : Z;
  fc_debounce_ms : Z;
  fc_protected : list WorkloadMatcher;
}.

Definition FocusConfig_default : FocusConfig :=
  {| fc_enabled := false; fc_task_profile := None; fc_lease_ttl_ms := 15000;
     fc_debounce_ms := 150; fc_protected := [] |}.

Record RealtimeSchedulerConfig := {
  rt_enabled : bool;
  rt_max_priority : Z;
  rt_housekeeping_cpus : CpuSet;
}.

Definition RealtimeSchedulerConfig_default : RealtimeSchedulerConfig :=
  {| rt_enabled := false; rt_max_priority := 20; rt_housekeeping_cpus := ∅ |}.

Record SessionProfileConfig := {
  display_blanked_profile : option ProfileId;
  locked_profile : option ProfileId;
}.

Record SchedulerConfig := {
  sc_enabled : bool;
  sc_task_profiles : list TaskProfileConfig;
  sc_process_rules : list ProcessRuleConfig;
  sc_cgroup_classes : list CgroupClassConfig;
  sc_focus : FocusConfig;
  sc_realtime : RealtimeSchedulerConfig;
}.

Record PolicyConfig := {
  pol_schema_version : Z;
  pol_default_profile : ProfileId;
  pol_profiles : list ProfileConfig;
  pol_load : LoadConfig;
  pol_governor : GovernorConfig;
  pol_thermal : ThermalPolicyConfig;
  pol_input : InputConfig;
  pol_scheduler : SchedulerConfig;
  pol_session : option SessionProfileConfig;
}.

(** [PolicyConfig::profile] *)
Definition profile (c : PolicyConfig) (id : ProfileId) : option ProfileConfig :=
  List.find (fun p => bool_decide (pc_id p = id)) (pol_profiles c).

(** ** Application document *)

Record AppRule := {
  ar_id : string;
  ar_enabled : bool;
  ar_priority : Z;
  ar_matcher : WorkloadMatcher;
  ar_profile : ProfileId;
}.

Record AppsConfig := { apps_schema_version : Z; apps_rules : list AppRule }.

Record ConfigBundle := { bundle_device : DeviceConfig; bundle_policy : PolicyConfig }.

(** ** Operations shared by validation and evaluation *)

Definition merge_task_plan (base patch : TaskPlan) : TaskPlan :=
  {| affinity := or_else (affinity patch) (affinity base);
     nice := or_else (nice patch) (nice base);
     scheduling_class := or_else (scheduling_class patch) (scheduling_class base);
     rt_priority := or_else (rt_priority patch) (rt_priority base);
     uclamp_min := or_else (uclamp_min patch) (uclamp_min base);
     uclamp_max := or_else (uclamp_max patch) (uclamp_max base) |}.

Definition resolve_power_budget (base : option PowerBudgetConfig) (patch : PowerBudgetPatch)
  : option PowerBudgetConfig :=
  s ← or_else (pp_slow_limit_power_mw patch) (slow_limit_power_mw <$> base);
  f ← or_else (pp_fast_limit_power_mw patch) (fast_limit_power_mw <$> base);
  c ← or_else (pp_fast_limit_capacity_mj patch) (fast_limit_capacity_mj <$> base);
  r ← or_else (pp_fast_limit_recover_scale patch) (fast_limit_recover_scale <$> base);
  Some {| slow_limit_power_mw := s; fast_limit_power_mw := f;
          fast_limit_capacity_mj := c; fast_limit_recover_scale := r |}.
