(* ===== verification/Validate.v ===== *)
(** * Semantic validation of the device and policy documents
    ([uperf-core/src/config.rs])

    Each validator of the code pushes onto a vector of issues; here it returns
    the issues it pushes, in the same order, and the callers append. Loops that
    also grow a set of seen identifiers thread that set. The regular-expression
    engine is a parameter. *)

From Stdlib Require Import SpecFloat.
From S2P Require Import Prelude Float64 Domain Text Scene Thermal Load ConfigTypes.

(** ** The regular-expression engine

    [Regex::new] either compiles a pattern or reports an error; a compiled
    pattern decides whether it matches a string. *)
Class RegexEngine := {
  Regex : Type;
  regex_new : string -> res Regex string;
  regex_is_match : Regex -> string -> bool;
}.

(** ** Issues *)

Definition ValidationErrors : Type := list ValidationIssue.

Definition issue_if (b : bool) (path message : text) : list ValidationIssue :=
  if b then [{| issue_path := path; issue_message := message |}] else [].

Definition finish_validation (issues : list ValidationIssue) : res unit ValidationErrors :=
  match issues with [] => Ok tt | _ => Err issues end.

Definition dot (path : text) (field : string) : text := path ++ [L "."; L field].
Definition at_index (path : text) (i : nat) : text := path ++ [L "["; I (Z.of_nat i); L "]"].

(** A [for (index, item) in items.iter().enumerate()] loop that pushes issues
    and threads a state. *)
Fixpoint for_each {T A} (f : T -> nat -> A -> T * list ValidationIssue) (s : T) (i : nat)
    (l : list A) : T * list ValidationIssue :=
  match l with
  | [] => (s, [])
  | x :: l =>
      let '(s1, is1) := f s i x in
      let '(s2, is2) := for_each f s1 (S i) l in
      (s2, is1 ++ is2)
  end.

(** The stateless loop. *)
Definition each {A} (f : nat -> A -> list ValidationIssue) (l : list A) : list ValidationIssue :=
  mjoin (imap f l).

(** ** Scalar checks *)

Definition in_range (lo hi v : Z) : bool := (lo <=? v) && (v <=? hi).

Definition validate_schema_version (version : Z) : list ValidationIssue :=
  issue_if (negb (version =? CONFIG_SCHEMA_VERSION)) [L "schema_version"]
    [L "expected "; I CONFIG_SCHEMA_VERSION; L ", got "; I version].

Definition validate_name (path : text) (value : string) : list ValidationIssue :=
  let trimmed := trim value in
  match trimmed with
  | [] => issue_if true path [L "must not be empty"]
  | _ =>
      if 128 <? chars_len trimmed then issue_if true path [L "must not exceed 128 bytes"]
      else issue_if (any_control trimmed) path [L "must not contain control characters"]
  end.

Definition validate_collection_len (path : text) (actual maximum : nat) : list ValidationIssue :=
  issue_if (bool_decide (maximum < actual)%nat) path
    [L "must not contain more than "; I (Z.of_nat maximum); L " entries (got ";
     I (Z.of_nat actual); L ")"].

Definition forbidden_component (c : Component) : bool :=
  match c with ParentDir | CurDir => true | _ => false end.

Definition validate_sysfs_directory (path : text) (value : string) : list ValidationIssue :=
  let has_forbidden_component := existsb forbidden_component (components value) in
  let under_allowed_root :=
    path_starts_with value "/sys/devices" || path_starts_with value "/sys/class" in
  issue_if (negb (is_absolute value) || has_forbidden_component || negb under_allowed_root) path
    [L "must be an absolute normalized directory below /sys/devices or /sys/class"].

Definition validate_ratio (path : text) (value minimum maximum : f64) : list ValidationIssue :=
  issue_if (negb (f64_is_finite value) || negb (f64_le minimum value && f64_le value maximum)) path
    [L "must be finite and in "; F minimum; L "..="; F maximum].

Definition MAX_DURATION_MS : Z := 24 * 60 * 60 * 1000.

Definition validate_positive_duration (path : text) (value : Z) : list ValidationIssue :=
  issue_if ((value =? 0) || (MAX_DURATION_MS <? value)) path
    [L "must be in 1..="; I MAX_DURATION_MS; L " milliseconds"].

(** ** Device document *)

Definition validate_reference_curve (rp tp typical sweet plain free : Z) (base : text)
  : list ValidationIssue :=
  mjoin ((fun fv : string * Z =>
            issue_if (fv.2 =? 0) (dot base fv.1) [L "must be greater than zero"]) <$>
         [("relative_performance", rp); ("typical_power_mw_per_core", tp);
          ("typical_frequency_hz", typical); ("sweet_frequency_hz", sweet);
          ("plain_frequency_hz", plain); ("free_frequency_hz", free)])
  ++ issue_if (negb ((free <=? plain) && (plain <=? sweet) && (sweet <=? typical))) base
       [L "frequencies must satisfy free <= plain <= sweet <= typical"].

(** [sort_unstable_by_key] with equal frequencies in some order; the issues
    do not depend on which when the table is valid. *)
Definition mo_le (a b : MeasuredOppConfig) : Prop := mo_frequency_hz a <= mo_frequency_hz b.
#[global] Instance mo_le_dec a b : Decision (mo_le a b).
Proof. unfold mo_le. apply _. Defined.

Definition validate_measured_point (base : text) (previous : option MeasuredOppConfig) (index : nat)
    (point : MeasuredOppConfig) : option MeasuredOppConfig * list ValidationIssue :=
  let here := at_index (dot base "points") index in
  (Some point,
   issue_if (mo_frequency_hz point =? 0) (dot here "frequency_hz") [L "must be greater than zero"]
   ++ issue_if (mo_relative_capacity point =? 0) (dot here "relative_capacity")
        [L "must be greater than zero"]
   ++ issue_if (mo_power_mw_per_core point =? 0) (dot here "power_mw_per_core")
        [L "must be greater than zero"]
   ++ match previous with
      | None => []
      | Some p =>
          issue_if (mo_frequency_hz p =? mo_frequency_hz point) (dot base "points")
            [L "contains duplicate frequencies"]
          ++ issue_if (mo_relative_capacity point <? mo_relative_capacity p) (dot base "points")
               [L "relative capacity must be nondecreasing with frequency"]
          ++ issue_if (mo_power_mw_per_core point <? mo_power_mw_per_core p) (dot base "points")
               [L "power must be nondecreasing with frequency"]
      end).

Definition validate_energy_model (model : CpuEnergyModelConfig) (base : text)
  : list ValidationIssue :=
  match model with
  | ReferenceCurveV1 rp tp typical sweet plain free =>
      validate_reference_curve rp tp typical sweet plain free base
  | MeasuredOppV1 points =>
      if in_range 2 256 (Z.of_nat (length points)) then
        (for_each (validate_measured_point base) None 0 (merge_sort mo_le points)).2
      else issue_if true (dot base "points") [L "must contain 2..=256 measured OPPs"]
  end.

Definition validate_cap (base : text) (floor_hz : Hertz) (fc : string * option Hertz)
  : list ValidationIssue :=
  match fc.2 with
  | None => []
  | Some value =>
      issue_if (value =? 0) (dot base fc.1) [L "must be greater than zero"]
      ++ issue_if (value <? floor_hz) (dot base fc.1) [L "must not be lower than floor_hz"]
  end.

Definition validate_cap_order (base : text) (sensor_failure critical : option Hertz)
  : list ValidationIssue :=
  match sensor_failure, critical with
  | Some s, Some c =>
      issue_if (c <? s) (dot base "sensor_failure_cap_hz") [L "must not exceed critical_cap_hz"]
  | _, _ => []
  end.

Definition validate_frequency_model (p : CpuPolicyConfig) (base : text) : list ValidationIssue :=
  issue_if (cp_floor_hz p =? 0) (dot base "floor_hz") [L "must be greater than zero"]
  ++ issue_if ((cp_reference_hz p <? cp_floor_hz p) || (cp_efficient_cap_hz p <? cp_floor_hz p)) base
       [L "reference_hz and efficient_cap_hz must not be lower than floor_hz"]
  ++ mjoin (validate_cap base (cp_floor_hz p) <$>
       [("admin_cap_hz", cp_admin_cap_hz p); ("critical_cap_hz", cp_critical_cap_hz p);
        ("sensor_failure_cap_hz", cp_sensor_failure_cap_hz p)])
  ++ validate_cap_order base (cp_sensor_failure_cap_hz p) (cp_critical_cap_hz p)
  ++ match cp_energy_model p with
     | Some model => validate_energy_model model (dot base "energy_model")
     | None => []
     end.

(** [chars().any(is_control || '\n' | '\r' | '\0')]; the named characters are
    control characters. *)
Definition bad_enum_string (value : string) : bool :=
  bool_decide (value = "") || (4096 <? str_len value) || any_control (chars value).

(** [iter().collect::<BTreeSet<_>>().len() != values.len()] *)
Definition has_duplicates {A} `{Countable A} (values : list A) : bool :=
  negb (bool_decide (size (list_to_set values : gset A) = length values)).

Definition validate_scalar_domain (base : text) (domain : ScalarTargetDomainConfig)
    (configured_cpus : CpuSet) : list ValidationIssue :=
  match domain with
  | CfgIntegerRange minimum maximum =>
      issue_if (maximum <? minimum) (dot base "domain")
        [L "integer range minimum must not exceed maximum"]
  | CfgIntegerEnum values =>
      issue_if (bool_decide (values = [])) (dot base "domain.values") [L "must not be empty"]
      ++ issue_if (has_duplicates values) (dot base "domain.values")
           [L "must not contain duplicates"]
  | CfgStringEnum values =>
      issue_if (bool_decide (values = [])) (dot base "domain.values") [L "must not be empty"]
      ++ issue_if (has_duplicates values) (dot base "domain.values")
           [L "must not contain duplicates"]
      ++ each (fun index value =>
           issue_if (bad_enum_string value) (at_index (dot base "domain.values") index)
             [L "must be 1..=4096 bytes and contain no control characters"]) values
  | CfgCpuList allowed_cpus _ =>
      issue_if (CpuSet_is_empty allowed_cpus) (dot base "domain.allowed_cpus")
        [L "must not be empty"]
      ++ issue_if (negb (CpuSet_is_subset allowed_cpus configured_cpus))
           (dot base "domain.allowed_cpus")
           [L "references a CPU outside the device CPU policies"]
  end.

(** The CPU policy loop threads the target identifiers and the CPUs used. *)
Definition validate_cpu_policy (s : gset string * CpuSet) (index : nat) (p : CpuPolicyConfig)
  : (gset string * CpuSet) * list ValidationIssue :=
  let '(target_ids, used_cpus) := s in
  let base := at_index [L "cpu_policies"] index in
  (({[cp_id p]} ∪ target_ids, used_cpus ∪ cp_related_cpus p),
   issue_if (bool_decide (cp_id p ∈ target_ids)) (dot base "id") [L "duplicate frequency target id"]
   ++ issue_if (CpuSet_is_empty (cp_related_cpus p)) (dot base "related_cpus")
        [L "must contain at least one CPU"]
   ++ issue_if (negb (CpuSet_is_disjoint used_cpus (cp_related_cpus p))) (dot base "related_cpus")
        [L "overlaps a previous CPU policy"]
   ++ match cp_sysfs_path p with
      | Some path => validate_sysfs_directory (dot base "sysfs_path") path
      | None => []
      end
   ++ validate_frequency_model p base).

Definition validate_cpu_group (used_cpus : CpuSet) (kv : string * CpuSet) : list ValidationIssue :=
  let path := [L "cpu_groups."; L kv.1] in
  validate_name path kv.1
  ++ issue_if (CpuSet_is_empty kv.2) path [L "must contain at least one CPU"]
  ++ issue_if (negb (CpuSet_is_subset kv.2 used_cpus)) path
       [L "references a CPU outside the device CPU policies"].

Definition validate_devfreq (target_ids : gset string) (index : nat) (t : DevfreqTargetConfig)
  : gset string * list ValidationIssue :=
  let base := at_index [L "devfreq_targets"] index in
  ({[df_id t]} ∪ target_ids,
   issue_if (bool_decide (df_id t ∈ target_ids)) (dot base "id") [L "duplicate frequency target id"]
   ++ validate_name (dot base "device_name") (df_device_name t)
   ++ validate_collection_len (dot base "compatible") (length (df_compatible t))
        MAX_DEVFREQ_COMPATIBLE_STRINGS
   ++ each (fun i compatible => validate_name (at_index (dot base "compatible") i) compatible)
        (take MAX_DEVFREQ_COMPATIBLE_STRINGS (df_compatible t))
   ++ match df_sysfs_path t with
      | Some path => validate_sysfs_directory (dot base "sysfs_path") path
      | None => []
      end
   ++ mjoin ((fun fc : string * option Hertz =>
                issue_if (is_some_and fc.2 (fun v => v =? 0)) (dot base fc.1)
                  [L "must be greater than zero"]) <$>
        [("admin_cap_hz", df_admin_cap_hz t); ("critical_cap_hz", df_critical_cap_hz t);
         ("sensor_failure_cap_hz", df_sensor_failure_cap_hz t)])
   ++ validate_cap_order base (df_sensor_failure_cap_hz t) (df_critical_cap_hz t)
   ++ issue_if (negb (df_manual_only t)) (dot base "manual_only")
        [L "v2 supports devfreq targets in manual-only mode"]).

Definition validate_scalar_target (used_cpus : CpuSet) (target_ids : gset string) (index : nat)
    (t : ScalarTargetConfig) : gset string * list ValidationIssue :=
  let base := at_index [L "scalar_targets"] index in
  ({[stc_id t]} ∪ target_ids,
   issue_if (bool_decide (stc_id t ∈ target_ids)) (dot base "id") [L "duplicate mutation target id"]
   ++ validate_sysfs_directory (dot base "path") (stc_path t)
   ++ validate_scalar_domain base (stc_domain t) used_cpus).

(** The [i64] difference wraps in the release profile; on thresholds that pass
    the range check it is exact. *)
Definition validate_thermal_zone (zone_ids : gset string) (index : nat) (zone : ThermalZoneConfig)
  : gset string * list ValidationIssue :=
  let base := at_index [L "thermal_zones"] index in
  ({[tz_id zone]} ∪ zone_ids,
   validate_name (dot base "id") (tz_id zone)
   ++ validate_name (dot base "zone_type") (tz_zone_type zone)
   ++ issue_if (bool_decide (tz_id zone ∈ zone_ids)) (dot base "id") [L "duplicate thermal zone id"]
   ++ match tz_sysfs_path zone with
      | Some path => validate_sysfs_directory (dot base "sysfs_path") path
      | None => []
      end
   ++ issue_if (negb ((tz_warning zone <? tz_throttled zone) && (tz_throttled zone <? tz_critical zone)))
        base [L "temperature thresholds must satisfy warning < throttled < critical"]
   ++ mjoin ((fun fv : string * Z =>
                issue_if (negb (in_range 0 250000 fv.2)) (dot base fv.1)
                  [L "hot threshold must be in 0..=250000 millidegrees Celsius"]) <$>
        [("warning", tz_warning zone); ("throttled", tz_throttled zone);
         ("critical", tz_critical zone)])
   ++ issue_if (tz_hysteresis zone <? 0) (dot base "hysteresis") [L "must not be negative"]
   ++ issue_if (wrap_i64 (tz_critical zone - tz_warning zone) <=? tz_hysteresis zone) (dot base "hysteresis")
        [L "must be smaller than critical - warning"]
   ++ validate_positive_duration (dot base "dwell_ms") (tz_dwell_ms zone)
   ++ validate_positive_duration (dot base "stale_after_ms") (tz_stale_after_ms zone)).

Definition device_match_empty (m : DeviceMatch) : bool :=
  bool_decide (dm_compatible m = None) && bool_decide (dm_product_name m = None).

Definition DeviceConfig_issues (d : DeviceConfig) : list ValidationIssue :=
  let head :=
    validate_schema_version (dev_schema_version d)
    ++ validate_name [L "device_id"] (dev_device_id d)
    ++ validate_collection_len [L "cpu_policies"] (length (dev_cpu_policies d)) MAX_CPU_POLICIES
    ++ validate_collection_len [L "devfreq_targets"] (length (dev_devfreq_targets d))
         MAX_DEVFREQ_TARGETS
    ++ validate_collection_len [L "scalar_targets"] (length (dev_scalar_targets d))
         MAX_SCALAR_TARGETS
    ++ validate_collection_len [L "thermal_zones"] (length (dev_thermal_zones d))
         MAX_THERMAL_ZONES
    ++ issue_if (is_some_and (dev_device_match d) device_match_empty) [L "device_match"]
         [L "at least one stable device matcher is required"]
    ++ issue_if (bool_decide (length (dev_cpu_policies d) = 0)%nat) [L "cpu_policies"]
         [L "at least one CPU policy selector is required"] in
  let '((target_ids, used_cpus), policies) :=
    for_each validate_cpu_policy (∅, ∅) 0 (take MAX_CPU_POLICIES (dev_cpu_policies d)) in
  let groups := mjoin (validate_cpu_group used_cpus <$> entries (dev_cpu_groups d)) in
  let '(target_ids, devfreqs) :=
    for_each validate_devfreq target_ids 0 (take MAX_DEVFREQ_TARGETS (dev_devfreq_targets d)) in
  let '(_, scalars) :=
    for_each (validate_scalar_target used_cpus) target_ids 0
      (take MAX_SCALAR_TARGETS (dev_scalar_targets d)) in
  let '(_, zones) :=
    for_each validate_thermal_zone ∅ 0 (take MAX_THERMAL_ZONES (dev_thermal_zones d)) in
  head ++ policies ++ groups ++ devfreqs ++ scalars ++ zones.

(** [impl Validate for DeviceConfig] *)
Definition DeviceConfig_validate (d : DeviceConfig) : res unit ValidationErrors :=
  finish_validation (DeviceConfig_issues d).
