(* ===== verification/ValidatePolicy.v ===== *)
(** * Semantic validation of the policy and application documents, and
    cross-document references ([uperf-core/src/config.rs]) *)

From Stdlib Require Import SpecFloat.
From S2P Require Import Prelude Float64 Domain Text Scene Thermal Load ConfigTypes Validate.

Section policy.
Context `{RegexEngine}.

(** ** Matchers *)

Definition validate_regex (path : text) (value : string) : list ValidationIssue :=
  if bool_decide (value = "") then issue_if true path [L "must not be empty"]
  else if 1024 <? str_len value then issue_if true path [L "must not exceed 1024 bytes"]
  else
    match regex_new value with
    | Err error => issue_if true path [L "invalid regex: "; L error]
    | _ => []
    end.

Definition validate_matcher (path : text) (m : WorkloadMatcher) : list ValidationIssue :=
  issue_if (bool_decide (wm_executable m = None) && bool_decide (wm_desktop_id m = None)
            && bool_decide (wm_comm_regex m = None)) path
    [L "at least one matcher field is required"]
  ++ mjoin ((fun fv : string * option string =>
               issue_if (is_some_and fv.2 (fun v => bool_decide (trim v = []))) (dot path fv.1)
                 [L "must not be empty"]) <$>
       [("executable", wm_executable m); ("desktop_id", wm_desktop_id m)])
  ++ issue_if (bool_decide (is_Some (wm_desktop_id m))) (dot path "desktop_id")
       [L "desktop_id matching is reserved for a future trusted desktop adapter and is unsupported in schema v2"]
  ++ match wm_comm_regex m with
     | Some regex => validate_regex (dot path "comm_regex") regex
     | None => []
     end.

(** ** Task plans *)

Definition validate_task_plan (path : text) (plan : TaskPlan) : list ValidationIssue :=
  issue_if (is_some_and (affinity plan) CpuSet_is_empty) (dot path "affinity")
    [L "must not be empty"]
  ++ issue_if (is_some_and (nice plan) (fun n => negb (in_range (-20) 19 n))) (dot path "nice")
       [L "must be in -20..=19"]
  ++ issue_if (is_some_and (rt_priority plan) (fun p => negb (in_range 1 MAX_FIFO_PRIORITY p)))
       (dot path "rt_priority") [L "must be in 1..="; I MAX_FIFO_PRIORITY]
  ++ issue_if (is_some_and (uclamp_min plan) (fun v => 1024 <? v)) (dot path "uclamp_min")
       [L "must not exceed 1024"]
  ++ issue_if (is_some_and (uclamp_max plan) (fun v => 1024 <? v)) (dot path "uclamp_max")
       [L "must not exceed 1024"]
  ++ match uclamp_min plan, uclamp_max plan with
     | Some minimum, Some maximum =>
         issue_if (maximum <? minimum) path
           [L "uclamp_min must not exceed uclamp_max when both are set"]
     | _, _ => []
     end.

Definition validate_effective_task_plan (path : text) (plan : TaskPlan) (has_affinity_group : bool)
    (realtime : RealtimeSchedulerConfig) : list ValidationIssue :=
  validate_task_plan path plan
  ++ match scheduling_class plan, rt_priority plan with
     | Some Fifo, priority =>
         issue_if (negb (rt_enabled realtime)) (dot path "scheduling_class")
           [L "fifo requires scheduler.realtime.enabled"]
         ++ match priority with
            | Some p =>
                issue_if (rt_max_priority realtime <? p) (dot path "rt_priority")
                  [L "must not exceed scheduler.realtime.max_priority (";
                   I (rt_max_priority realtime); L ")"]
            | None => issue_if true (dot path "rt_priority") [L "is required for fifo"]
            end
         ++ issue_if (bool_decide (affinity plan = None) && negb has_affinity_group)
              (dot path "affinity")
              [L "fifo requires an explicit affinity or affinity_group"]
         ++ issue_if (is_some_and (affinity plan)
                        (fun a => negb (CpuSet_is_disjoint a (rt_housekeeping_cpus realtime))))
              (dot path "affinity")
              [L "fifo affinity must exclude every housekeeping CPU"]
     | _, Some _ =>
         issue_if true (dot path "rt_priority") [L "is valid only when scheduling_class is fifo"]
     | _, None => []
     end.

(** ** Scheduler section *)

Definition validate_task_scene (base : text) (realtime : RealtimeSchedulerConfig)
    (profile : TaskProfileConfig) (kv : SchedulerScene * TaskPlan) : list ValidationIssue :=
  let path := dot (dot base "scenes") (scheduler_scene_name kv.1) in
  validate_task_plan path kv.2
  ++ validate_effective_task_plan path (merge_task_plan (tpc_plan profile) kv.2)
       (bool_decide (is_Some (tpc_affinity_group profile))) realtime.

Definition validate_task_profile (realtime : RealtimeSchedulerConfig) (seen : gset string)
    (index : nat) (profile : TaskProfileConfig) : gset string * list ValidationIssue :=
  let base := at_index [L "scheduler.task_profiles"] index in
  ({[tpc_id profile]} ∪ seen,
   validate_name (dot base "id") (tpc_id profile)
   ++ issue_if (bool_decide (tpc_id profile ∈ seen)) (dot base "id") [L "duplicate task profile id"]
   ++ match tpc_affinity_group profile with
      | Some group =>
          validate_name (dot base "affinity_group") group
          ++ issue_if (bool_decide (is_Some (affinity (tpc_plan profile)))) base
               [L "affinity_group and plan.affinity are mutually exclusive"]
      | None => []
      end
   ++ validate_effective_task_plan (dot base "plan") (tpc_plan profile)
        (bool_decide (is_Some (tpc_affinity_group profile))) realtime
   ++ mjoin (validate_task_scene base realtime profile <$> entries (tpc_scenes profile))).

Definition validate_cgroup_class (seen : gset string) (index : nat) (class : CgroupClassConfig)
  : gset string * list ValidationIssue :=
  let base := at_index [L "scheduler.cgroup_classes"] index in
  let group := cg_allowed_cpu_group class in
  let empty := CpuSet_is_empty (cg_allowed_cpus class) in
  ({[cg_id class]} ∪ seen,
   validate_name (dot base "id") (cg_id class)
   ++ issue_if (bool_decide (cg_id class ∈ seen)) (dot base "id") [L "duplicate cgroup class id"]
   ++ match group with
      | Some g => validate_name (dot base "allowed_cpu_group") g
      | None => []
      end
   ++ issue_if (bool_decide (is_Some group) && negb empty) base
        [L "allowed_cpu_group and allowed_cpus are mutually exclusive"]
   ++ issue_if (bool_decide (group = None) && empty) (dot base "allowed_cpus")
        [L "must contain at least one CPU when allowed_cpu_group is unset"]
   ++ issue_if (negb (in_range 1 10000 (cg_cpu_weight class))) (dot base "cpu_weight")
        [L "must be in 1..=10000"]).

Definition validate_focus (focus : FocusConfig) (task_profiles : gset string)
  : list ValidationIssue :=
  validate_collection_len [L "scheduler.focus.protected"] (length (fc_protected focus))
    MAX_FOCUS_PROTECTED
  ++ match fc_task_profile focus with
     | Some profile =>
         issue_if (negb (bool_decide (profile ∈ task_profiles))) [L "scheduler.focus.task_profile"]
           [L "references an unknown task profile"]
     | None =>
         issue_if (fc_enabled focus) [L "scheduler.focus.task_profile"]
           [L "is required when focus is enabled"]
     end
  ++ issue_if (negb (in_range 15000 600000 (fc_lease_ttl_ms focus)))
       [L "scheduler.focus.lease_ttl_ms"] [L "must be in 15000..=600000"]
  ++ issue_if (2000 <? fc_debounce_ms focus) [L "scheduler.focus.debounce_ms"]
       [L "must not exceed 2000"]
  ++ issue_if (fc_lease_ttl_ms focus <=? fc_debounce_ms focus) [L "scheduler.focus.debounce_ms"]
       [L "must be shorter than lease_ttl_ms"]
  ++ each (fun index => validate_matcher (at_index [L "scheduler.focus.protected"] index))
       (take MAX_FOCUS_PROTECTED (fc_protected focus)).

Definition validate_thread_rule (task_profiles : gset string) (base : text) (index : nat)
    (thread : ThreadRuleConfig) : list ValidationIssue :=
  let thread_base := at_index (dot base "threads") index in
  match tr_selector thread with
  | SelCommRegex pattern => validate_regex (dot (dot thread_base "selector") "pattern") pattern
  | SelLeader => []
  end
  ++ issue_if (negb (bool_decide (tr_task_profile thread ∈ task_profiles)))
       (dot thread_base "task_profile") [L "references an unknown task profile"].

(** The state is the number of thread rules validated so far. *)
Definition validate_process_rule (task_profiles cgroups : gset string) (validated : nat)
    (index : nat) (rule : ProcessRuleConfig) : nat * list ValidationIssue :=
  let base := at_index [L "scheduler.process_rules"] index in
  let thread_limit := Nat.min MAX_THREAD_RULES_PER_PROCESS (MAX_TOTAL_THREAD_RULES - validated) in
  ((validated + Nat.min (length (pr_threads rule)) thread_limit)%nat,
   validate_name (dot base "name") (pr_name rule)
   ++ validate_matcher (dot base "matcher") (pr_matcher rule)
   ++ issue_if (is_some_and (pr_task_profile rule) (fun p => negb (bool_decide (p ∈ task_profiles))))
        (dot base "task_profile") [L "references an unknown task profile"]
   ++ issue_if (is_some_and (pr_cgroup_class rule) (fun c => negb (bool_decide (c ∈ cgroups))))
        (dot base "cgroup_class") [L "references an unknown cgroup class"]
   ++ validate_collection_len (dot base "threads") (length (pr_threads rule))
        MAX_THREAD_RULES_PER_PROCESS
   ++ each (validate_thread_rule task_profiles base) (take thread_limit (pr_threads rule))).

Definition validate_process_rules (rules : list ProcessRuleConfig)
    (task_profiles cgroups : gset string) : list ValidationIssue :=
  let taken := take MAX_PROCESS_RULES rules in
  let total_thread_rules :=
    foldl (fun total rule => (total + length (pr_threads rule))%nat) 0%nat taken in
  validate_collection_len [L "scheduler.process_rules[].threads"] total_thread_rules
    MAX_TOTAL_THREAD_RULES
  ++ (for_each (validate_process_rule task_profiles cgroups) 0%nat 0 taken).2.

Definition validate_scheduler (config : SchedulerConfig) : list ValidationIssue :=
  let realtime := sc_realtime config in
  let head :=
    issue_if (rt_enabled realtime && negb (sc_enabled config)) [L "scheduler.realtime.enabled"]
      [L "requires scheduler.enabled"]
    ++ issue_if (negb (in_range 1 MAX_FIFO_PRIORITY (rt_max_priority realtime)))
         [L "scheduler.realtime.max_priority"] [L "must be in 1..="; I MAX_FIFO_PRIORITY]
    ++ issue_if (rt_enabled realtime && CpuSet_is_empty (rt_housekeeping_cpus realtime))
         [L "scheduler.realtime.housekeeping_cpus"]
         [L "must reserve at least one CPU when realtime is enabled"]
    ++ validate_collection_len [L "scheduler.task_profiles"] (length (sc_task_profiles config))
         MAX_TASK_PROFILES
    ++ validate_collection_len [L "scheduler.process_rules"] (length (sc_process_rules config))
         MAX_PROCESS_RULES
    ++ validate_collection_len [L "scheduler.cgroup_classes"] (length (sc_cgroup_classes config))
         MAX_CGROUP_CLASSES in
  let '(task_profiles, profiles) :=
    for_each (validate_task_profile realtime) ∅ 0 (take MAX_TASK_PROFILES (sc_task_profiles config)) in
  let '(cgroups, classes) :=
    for_each validate_cgroup_class ∅ 0 (take MAX_CGROUP_CLASSES (sc_cgroup_classes config)) in
  head ++ profiles ++ classes ++ validate_focus (sc_focus config) task_profiles
  ++ validate_process_rules (sc_process_rules config) task_profiles cgroups.

(** ** Governor and profiles *)

Definition validate_governor (config : GovernorConfig) : list ValidationIssue :=
  issue_if (negb (in_range 10 40 (active_sample_ms config))) [L "governor.active_sample_ms"]
    [L "must be in 10..=40"]
  ++ issue_if (negb (in_range 10 500 (idle_sample_ms config))) [L "governor.idle_sample_ms"]
       [L "must be in 10..=500"]
  ++ issue_if (idle_sample_ms config <? active_sample_ms config) [L "governor"]
       [L "active_sample_ms must not exceed idle_sample_ms"]
  ++ validate_ratio [L "governor.active_load_threshold"] (active_load_threshold config)
       f64_epsilon f64_one
  ++ validate_ratio [L "governor.idle_load_threshold"] (idle_load_threshold config)
       f64_zero f64_one
  ++ issue_if (f64_ge (idle_load_threshold config) (active_load_threshold config)) [L "governor"]
       [L "idle_load_threshold must be less than active_load_threshold"]
  ++ validate_ratio [L "governor.predict_threshold"] (predict_threshold config) f64_zero f64_one
  ++ issue_if (10000 <? ramp_latency_ms config) [L "governor.ramp_latency_ms"]
       [L "must not exceed 10000"]
  ++ issue_if (1000 <? min_opp_residency_ms config) [L "governor.min_opp_residency_ms"]
       [L "must not exceed 1000"].

Definition validate_power_budget (path : text) (budget : PowerBudgetConfig) : list ValidationIssue :=
  issue_if (slow_limit_power_mw budget =? 0) (dot path "slow_limit_power_mw")
    [L "must be greater than zero"]
  ++ issue_if (fast_limit_power_mw budget <? slow_limit_power_mw budget)
       (dot path "fast_limit_power_mw") [L "must not be lower than slow_limit_power_mw"]
  ++ validate_ratio (dot path "fast_limit_recover_scale") (fast_limit_recover_scale budget)
       (f64_lit 1 10) (f64_of_Z 10).

Definition validate_scene_patch (base : text) (profile : ProfileConfig) (kv : Scene * ScenePatch)
  : list ValidationIssue :=
  let patch := kv.2 in
  let patch_path := dot (dot base "scenes") (scene_name kv.1) in
  match sp_margin patch with
  | Some margin => validate_ratio (dot patch_path "margin") margin f64_zero (f64_of_Z 10)
  | None => []
  end
  ++ match sp_burst patch with
     | Some burst => validate_ratio (dot patch_path "burst") burst f64_zero f64_one
     | None => []
     end
  ++ match sp_power_budget patch with
     | Some power_patch =>
         match resolve_power_budget (pc_power_budget profile) power_patch with
         | Some budget => validate_power_budget (dot patch_path "power_budget") budget
         | None =>
             issue_if true (dot patch_path "power_budget")
               [L "a partial scene power budget requires a profile-level power_budget"]
         end
     | None => []
     end
  ++ validate_collection_len (dot patch_path "scalar_values") (size (sp_scalar_values patch))
       MAX_SCALAR_TARGETS.

Definition validate_profile (seen : gset ProfileId) (index : nat) (profile : ProfileConfig)
  : gset ProfileId * list ValidationIssue :=
  let base := at_index [L "profiles"] index in
  ({[pc_id profile]} ∪ seen,
   issue_if (bool_decide (pc_id profile ∈ seen)) (dot base "id") [L "duplicate profile id"]
   ++ validate_ratio (dot base "margin") (pc_margin profile) f64_zero (f64_of_Z 10)
   ++ validate_ratio (dot base "burst") (pc_burst profile) f64_zero f64_one
   ++ match pc_power_budget profile with
      | Some budget => validate_power_budget (dot base "power_budget") budget
      | None => []
      end
   ++ validate_collection_len (dot base "scalar_values") (size (pc_scalar_values profile))
        MAX_SCALAR_TARGETS
   ++ mjoin (validate_scene_patch base profile <$> entries (pc_scenes profile))).

Definition validate_session (profiles : gset ProfileId) (session : SessionProfileConfig)
  : list ValidationIssue :=
  mjoin ((fun fv : string * option ProfileId =>
            issue_if (is_some_and fv.2 (fun p => negb (bool_decide (p ∈ profiles))))
              [L "session."; L fv.1] [L "does not reference a configured profile"]) <$>
    [("display_blanked_profile", display_blanked_profile session);
     ("locked_profile", locked_profile session)]).

Definition validate_load (load : LoadConfig) : list ValidationIssue :=
  validate_positive_duration [L "load.sample_interval_ms"] (sample_interval_ms load)
  ++ validate_positive_duration [L "load.ema_time_constant_ms"] (ema_time_constant_ms load)
  ++ validate_ratio [L "load.heavy_enter"] (heavy_enter load) f64_zero f64_one
  ++ validate_ratio [L "load.heavy_exit"] (heavy_exit load) f64_zero f64_one
  ++ issue_if (f64_ge (heavy_exit load) (heavy_enter load)) [L "load"]
       [L "heavy_exit must be less than heavy_enter"]
  ++ validate_positive_duration [L "load.heavy_dwell_ms"] (heavy_dwell_ms load).

Definition validate_input (input : InputConfig) : list ValidationIssue :=
  mjoin ((fun pv : string * Z => validate_positive_duration [L pv.1] pv.2) <$>
    [("input.trigger_duration_ms", in_trigger_duration_ms input);
     ("input.gesture_duration_ms", in_gesture_duration_ms input);
     ("input.switch_duration_ms", in_switch_duration_ms input);
     ("input.wake_duration_ms", in_wake_duration_ms input)])
  ++ validate_ratio [L "input.swipe_distance"] (in_swipe_distance input) f64_epsilon f64_one
  ++ validate_ratio [L "input.edge_width"] (in_edge_width input) f64_epsilon (f64_lit 1 2).

Definition PolicyConfig_issues (c : PolicyConfig) : list ValidationIssue :=
  let '(profiles, profile_issues) :=
    for_each validate_profile ∅ 0 (take MAX_PROFILE_CONFIGS (pol_profiles c)) in
  validate_schema_version (pol_schema_version c)
  ++ validate_collection_len [L "profiles"] (length (pol_profiles c)) MAX_PROFILE_CONFIGS
  ++ profile_issues
  ++ issue_if (negb (bool_decide (pol_default_profile c ∈ profiles))) [L "default_profile"]
       [L "does not reference a configured profile"]
  ++ match pol_session c with Some session => validate_session profiles session | None => [] end
  ++ mjoin ((fun required =>
               issue_if (negb (bool_decide (required ∈ profiles))) [L "profiles"]
                 [L "missing required `"; L (profile_name required); L "` profile"]) <$>
       [Powersave; Balance; Performance])
  ++ validate_load (pol_load c)
  ++ validate_governor (pol_governor c)
  ++ validate_positive_duration [L "thermal.sample_interval_ms"] (tp_sample_interval_ms (pol_thermal c))
  ++ validate_input (pol_input c)
  ++ validate_scheduler (pol_scheduler c).

(** [impl Validate for PolicyConfig] *)
Definition PolicyConfig_validate (c : PolicyConfig) : res unit ValidationErrors :=
  finish_validation (PolicyConfig_issues c).

(** ** Application document *)

Definition validate_app_rule (ids : gset string) (index : nat) (rule : AppRule)
  : gset string * list ValidationIssue :=
  let base := at_index [L "rules"] index in
  ({[ar_id rule]} ∪ ids,
   validate_name (dot base "id") (ar_id rule)
   ++ issue_if (bool_decide (ar_id rule ∈ ids)) (dot base "id") [L "duplicate app rule id"]
   ++ validate_matcher (dot base "matcher") (ar_matcher rule)).

(** [impl Validate for AppsConfig] *)
Definition AppsConfig_validate (c : AppsConfig) : res unit ValidationErrors :=
  finish_validation
    (validate_schema_version (apps_schema_version c)
     ++ validate_collection_len [L "rules"] (length (apps_rules c)) MAX_APP_RULES
     ++ (for_each validate_app_rule ∅ 0 (take MAX_APP_RULES (apps_rules c))).2).
End policy.

(** [AppsConfig::ordered_enabled_rules]: higher priority first, then document
    order. *)
Definition rule_before (a b : nat * AppRule) : Prop :=
  ar_priority b.2 < ar_priority a.2 \/ (ar_priority a.2 = ar_priority b.2 /\ (a.1 <= b.1)%nat).
#[global] Instance rule_before_dec a b : Decision (rule_before a b).
Proof. unfold rule_before. apply _. Defined.

Definition ordered_enabled_rules (c : AppsConfig) : list AppRule :=
  (merge_sort rule_before
    (List.filter (fun ir : nat * AppRule => ar_enabled ir.2) (imap pair (apps_rules c)))).*2.

(** ** Cross-document references *)

Definition validate_thermal_references (b : ConfigBundle) : list ValidationIssue :=
  issue_if (bool_decide (dev_thermal_zones (bundle_device b) = [])) [L "device.thermal_zones"]
    [L "at least one trusted thermal zone is required"]
  ++ each (fun index zone =>
       issue_if (tz_stale_after_ms zone <? tp_sample_interval_ms (pol_thermal (bundle_policy b)))
         (dot (at_index [L "device.thermal_zones"] index) "stale_after_ms")
         [L "must not be shorter than the thermal sampling interval"])
       (dev_thermal_zones (bundle_device b)).

Definition validate_energy_references (b : ConfigBundle) : list ValidationIssue :=
  each (fun index p =>
    issue_if (bool_decide (cp_energy_model p = None))
      (dot (at_index [L "device.cpu_policies"] index) "energy_model")
      [L "is required by the energy governor"])
    (dev_cpu_policies (bundle_device b))
  ++ each (fun index p =>
       issue_if (bool_decide (pc_power_budget p = None))
         (dot (at_index [L "policy.profiles"] index) "power_budget")
         [L "is required by the energy governor"])
       (pol_profiles (bundle_policy b)).

Definition scalar_value_matches_domain (value : ScalarSettingValue)
    (domain : ScalarTargetDomainConfig) : bool :=
  match value, domain with
  | SettingInteger v, CfgIntegerRange minimum maximum => (minimum <=? v) && (v <=? maximum)
  | SettingInteger v, CfgIntegerEnum values => bool_decide (v ∈ values)
  | SettingString v, CfgStringEnum values => bool_decide (v ∈ values)
  | SettingCpuList v, CfgCpuList allowed_cpus allow_empty =>
      (allow_empty || negb (CpuSet_is_empty v)) && CpuSet_is_subset v allowed_cpus
  | _, _ => false
  end.

Definition validate_scalar_setting (path : text) (domains : gmap string ScalarTargetDomainConfig)
    (kv : string * ScalarSettingValue) : list ValidationIssue :=
  match domains !! kv.1 with
  | None => issue_if true (dot path kv.1) [L "references an unknown scalar target"]
  | Some domain =>
      issue_if (negb (scalar_value_matches_domain kv.2 domain)) (dot path kv.1)
        [L "value is outside the configured scalar target domain"]
  end.

Definition validate_scalar_settings (path : text) (settings : gmap string ScalarSettingValue)
    (domains : gmap string ScalarTargetDomainConfig) : list ValidationIssue :=
  mjoin (validate_scalar_setting path domains <$> entries settings).

(** [iter().map((id, domain)).collect::<BTreeMap>()]: a later duplicate wins. *)
Definition scalar_domains (d : DeviceConfig) : gmap string ScalarTargetDomainConfig :=
  foldl (fun m t => <[stc_id t := stc_domain t]> m) ∅ (dev_scalar_targets d).

Definition validate_scalar_references (b : ConfigBundle) : list ValidationIssue :=
  let domains := scalar_domains (bundle_device b) in
  each (fun profile_index p =>
    let base := at_index [L "policy.profiles"] profile_index in
    validate_scalar_settings (dot base "scalar_values") (pc_scalar_values p) domains
    ++ mjoin ((fun kv : Scene * ScenePatch =>
         validate_scalar_settings (dot (dot (dot base "scenes") (scene_name kv.1)) "scalar_values")
           (sp_scalar_values kv.2) domains) <$> entries (pc_scenes p)))
    (pol_profiles (bundle_policy b)).

Definition validate_fifo_affinity_reference (path : text) (plan : TaskPlan)
    (group_affinity : option CpuSet) (realtime : RealtimeSchedulerConfig) : list ValidationIssue :=
  if bool_decide (scheduling_class plan = Some Fifo) then
    match group_affinity with
    | None => []
    | Some a =>
        issue_if (negb (CpuSet_is_disjoint a (rt_housekeeping_cpus realtime))) (dot path "affinity")
          [L "fifo affinity must exclude every housekeeping CPU"]
    end
  else [].

Definition outside_cpus (configured : CpuSet) (path : text) (a : option CpuSet)
  : list ValidationIssue :=
  issue_if (is_some_and a (fun a => negb (CpuSet_is_subset a configured))) path
    [L "references a CPU outside the device CPU policies"].

Definition validate_task_profile_reference (device : DeviceConfig) (configured_cpus : CpuSet)
    (realtime : RealtimeSchedulerConfig) (index : nat) (profile : TaskProfileConfig)
  : list ValidationIssue :=
  let base := at_index [L "policy.scheduler.task_profiles"] index in
  let plan := tpc_plan profile in
  let group_affinity := g ← tpc_affinity_group profile; dev_cpu_groups device !! g in
  match tpc_affinity_group profile with
  | Some group =>
      issue_if (bool_decide (dev_cpu_groups device !! group = None)) (dot base "affinity_group")
        [L "references unknown device CPU group "; Dbg group]
  | None => []
  end
  ++ outside_cpus configured_cpus (dot (dot base "plan") "affinity") (affinity plan)
  ++ validate_fifo_affinity_reference (dot base "plan") plan
       (if bool_decide (affinity plan = None) then group_affinity else None) realtime
  ++ mjoin ((fun kv : SchedulerScene * TaskPlan =>
       let path := dot (dot base "scenes") (scheduler_scene_name kv.1) in
       let effective := merge_task_plan plan kv.2 in
       outside_cpus configured_cpus (dot path "affinity") (affinity kv.2)
       ++ validate_fifo_affinity_reference path effective
            (if bool_decide (affinity effective = None) then group_affinity else None) realtime)
     <$> entries (tpc_scenes profile)).

Definition validate_cgroup_reference (device : DeviceConfig) (configured_cpus : CpuSet)
    (index : nat) (class : CgroupClassConfig) : list ValidationIssue :=
  let base := at_index [L "policy.scheduler.cgroup_classes"] index in
  match cg_allowed_cpu_group class with
  | Some group =>
      issue_if (bool_decide (dev_cpu_groups device !! group = None)) (dot base "allowed_cpu_group")
        [L "references unknown device CPU group "; Dbg group]
  | None => []
  end
  ++ outside_cpus configured_cpus (dot base "allowed_cpus") (Some (cg_allowed_cpus class)).

Definition configured_cpus (d : DeviceConfig) : CpuSet :=
  foldl (fun s p => s ∪ cp_related_cpus p) ∅ (dev_cpu_policies d).

Definition validate_scheduler_references (b : ConfigBundle) : list ValidationIssue :=
  let scheduler := pol_scheduler (bundle_policy b) in
  let configured := configured_cpus (bundle_device b) in
  let realtime := sc_realtime scheduler in
  outside_cpus configured [L "policy.scheduler.realtime.housekeeping_cpus"]
    (Some (rt_housekeeping_cpus realtime))
  ++ each (validate_task_profile_reference (bundle_device b) configured realtime)
       (sc_task_profiles scheduler)
  ++ each (validate_cgroup_reference (bundle_device b) configured) (sc_cgroup_classes scheduler).

Definition validate_cross_references (b : ConfigBundle) : res unit ValidationErrors :=
  finish_validation
    (validate_thermal_references b ++ validate_energy_references b
     ++ validate_scalar_references b ++ validate_scheduler_references b).

(** ** Materialised CPU groups *)

Definition materialize_task_profile (device : DeviceConfig) (p : TaskProfileConfig)
  : TaskProfileConfig :=
  match tpc_affinity_group p with
  | None => p
  | Some group =>
      let plan := tpc_plan p in
      {| tpc_id := tpc_id p; tpc_affinity_group := None;
         tpc_plan :=
           {| affinity := dev_cpu_groups device !! group; nice := nice plan;
              scheduling_class := scheduling_class plan; rt_priority := rt_priority plan;
              uclamp_min := uclamp_min plan; uclamp_max := uclamp_max plan |};
         tpc_scenes := tpc_scenes p |}
  end.

Definition materialize_cgroup_class (device : DeviceConfig) (c : CgroupClassConfig)
  : CgroupClassConfig :=
  match cg_allowed_cpu_group c with
  | None => c
  | Some group =>
      {| cg_id := cg_id c; cg_allowed_cpu_group := None;
         cg_allowed_cpus := unwrap_or (dev_cpu_groups device !! group) ∅;
         cg_cpu_weight := cg_cpu_weight c |}
  end.

Definition with_scheduler (c : PolicyConfig) (s : SchedulerConfig) : PolicyConfig :=
  {| pol_schema_version := pol_schema_version c; pol_default_profile := pol_default_profile c;
     pol_profiles := pol_profiles c; pol_load := pol_load c; pol_governor := pol_governor c;
     pol_thermal := pol_thermal c; pol_input := pol_input c; pol_scheduler := s;
     pol_session := pol_session c |}.

Definition materialize_cpu_groups (b : ConfigBundle) : res PolicyConfig ValidationErrors :=
  do? validate_cross_references b in
  let s := pol_scheduler (bundle_policy b) in
  Ok (with_scheduler (bundle_policy b)
        {| sc_enabled := sc_enabled s;
           sc_task_profiles := materialize_task_profile (bundle_device b) <$> sc_task_profiles s;
           sc_process_rules := sc_process_rules s;
           sc_cgroup_classes := materialize_cgroup_class (bundle_device b) <$> sc_cgroup_classes s;
           sc_focus := sc_focus s; sc_realtime := sc_realtime s |}).

(** [effective_task_plan] of [policy.rs] *)
Definition effective_task_plan (p : TaskProfileConfig) (scene : SchedulerScene) : TaskPlan :=
  map_or (tpc_scenes p !! scene) (tpc_plan p) (merge_task_plan (tpc_plan p)).
