(* ===== verification/ValidateFacts.v ===== *)
(** * What validation guarantees

    A document without issues satisfies what the rest of the program relies
    on: real-time plans stay off the housekeeping CPUs and under the priority
    ceiling, references resolve, scalar values lie in their domains, thermal
    thresholds are ordered. *)

From Stdlib Require Import SpecFloat.
From S2P Require Import Prelude Float64 Domain Text Scene Thermal Load ConfigTypes Validate ValidatePolicy.

(** ** Documents without issues *)

Lemma issue_if_nil b path message : issue_if b path message = [] <-> b = false.
Proof. by destruct b. Qed.

Lemma finish_Ok issues u : finish_validation issues = Ok u <-> issues = [].
Proof. by destruct issues, u. Qed.

Lemma mjoin_nil {A} (ls : list (list A)) l : mjoin ls = [] -> l ∈ ls -> l = [].
Proof.
  induction ls as [|x ls IH]; [set_solver|]. simpl. intros [Hx Hls]%app_eq_nil.
  intros [->|Hl]%elem_of_cons; auto.
Qed.

Lemma mjoin_fmap_nil {A B} (f : A -> list B) l x : mjoin (f <$> l) = [] -> x ∈ l -> f x = [].
Proof. intros H Hx. apply (mjoin_nil _ _ H), list_elem_of_fmap. eauto. Qed.

Lemma each_nil {A} (f : nat -> A -> list ValidationIssue) l x :
  each f l = [] -> x ∈ l -> exists i, l !! i = Some x /\ f i x = [].
Proof.
  unfold each. intros H (i & Hi)%list_elem_of_lookup. exists i. split; [done|].
  apply (mjoin_nil _ _ H). apply list_elem_of_lookup. exists i. by rewrite list_lookup_imap, Hi.
Qed.

(** A loop without issues visits each element in some state of its set. *)
Lemma for_each_nil {T A} (f : T -> nat -> A -> T * list ValidationIssue) s i l x :
  (for_each f s i l).2 = [] -> x ∈ l -> exists s' j, (f s' j x).2 = [].
Proof.
  revert s i. induction l as [|y l IH]; intros s i; simpl; [set_solver|].
  destruct (f s i y) as [s1 is1] eqn:Hf. destruct (for_each f s1 (S i) l) as [s2 is2] eqn:Hl.
  simpl. intros [H1 H2]%app_eq_nil [->|Hx]%elem_of_cons.
  - exists s, i. by rewrite Hf.
  - apply (IH s1 (S i)); [by rewrite Hl | done].
Qed.

(** A loop whose state is the set of keys seen ends with all of them, and
    rejects repetitions. *)
Lemma for_each_seen {K A} `{Countable K} (key : A -> K)
    (f : gset K -> nat -> A -> gset K * list ValidationIssue) s i l :
  (forall s i x, (f s i x).1 = {[key x]} ∪ s) ->
  (for_each f s i l).1 = s ∪ list_to_set (key <$> l).
Proof.
  intros Hf. revert s i. induction l as [|y l IH]; intros s i; simpl; [set_solver|].
  specialize (Hf s i y). destruct (f s i y) as [s1 is1]. simpl in Hf. subst s1.
  specialize (IH ({[key y]} ∪ s) (S i)). destruct (for_each f _ (S i) l) as [s2 is2]. simpl in *.
  rewrite IH. set_solver.
Qed.

Lemma for_each_NoDup {K A} `{Countable K} (key : A -> K)
    (f : gset K -> nat -> A -> gset K * list ValidationIssue) s i l :
  (forall s i x, (f s i x).1 = {[key x]} ∪ s) ->
  (forall s i x, (f s i x).2 = [] -> key x ∉ s) ->
  (for_each f s i l).2 = [] ->
  NoDup (key <$> l) /\ (forall x, x ∈ l -> key x ∉ s).
Proof.
  intros Hf Hd. revert s i. induction l as [|y l IH]; intros s i; simpl.
  - intros _. split; [constructor|set_solver].
  - pose proof (Hf s i y) as H1. pose proof (Hd s i y) as H2.
    destruct (f s i y) as [s1 is1]. simpl in *. subst s1.
    specialize (IH ({[key y]} ∪ s) (S i)). destruct (for_each f _ (S i) l) as [s2 is2]. simpl in *.
    intros [-> ->]%app_eq_nil. specialize (IH eq_refl) as [Hnd Hnot]. specialize (H2 eq_refl).
    split.
    + constructor; [|done]. intros (x & Hx & Hin)%list_elem_of_fmap. specialize (Hnot x Hin).
      set_solver.
    + intros x [->|Hin]%elem_of_cons; [done|]. specialize (Hnot x Hin). set_solver.
Qed.

Lemma collection_len_nil path actual maximum :
  validate_collection_len path actual maximum = [] <-> (actual <= maximum)%nat.
Proof. unfold validate_collection_len. rewrite issue_if_nil, bool_decide_eq_false. lia. Qed.

(** Splits a hypothesis that a concatenation of issues is empty. *)
Ltac split_issues H :=
  lazymatch type of H with
  | _ ++ _ = [] =>
      let H1 := fresh H in
      apply app_eq_nil in H as [H1 H]; try rewrite issue_if_nil in H1; split_issues H
  | _ => try rewrite issue_if_nil in H
  end.

(** ** Task plans *)

(** What a scheduler section promises about every plan it can hand out. *)
Definition plan_safe (s : SchedulerConfig) (plan : TaskPlan) : Prop :=
  (scheduling_class plan = Some Fifo ->
     sc_enabled s = true /\ rt_enabled (sc_realtime s) = true /\
     rt_housekeeping_cpus (sc_realtime s) <> ∅ /\
     (exists p, rt_priority plan = Some p /\
        1 <= p <= rt_max_priority (sc_realtime s) /\
        rt_max_priority (sc_realtime s) <= MAX_FIFO_PRIORITY) /\
     exists a, affinity plan = Some a /\ a ## rt_housekeeping_cpus (sc_realtime s)) /\
  (scheduling_class plan <> Some Fifo -> rt_priority plan = None).

Section policy_facts.
Context `{RegexEngine}.

Lemma in_range_spec lo hi v : in_range lo hi v = true <-> lo <= v <= hi.
Proof. unfold in_range. rewrite andb_true_iff, !Z.leb_le. done. Qed.

#[local] Opaque MAX_TOTAL_THREAD_RULES MAX_THREAD_RULES_PER_PROCESS MAX_PROCESS_RULES.

Definition total_threads (rules : list ProcessRuleConfig) : nat :=
  foldr (fun r t => (length (pr_threads r) + t)%nat) 0%nat rules.

Lemma foldl_threads rules n :
  foldl (fun total r => (total + length (pr_threads r))%nat) n rules = (n + total_threads rules)%nat.
Proof. revert n. induction rules as [|r rules IH]; intros n; simpl; [lia|]. rewrite IH. lia. Qed.

Record scheduler_clean (s : SchedulerConfig) : Prop := {
  cl_enabled : rt_enabled (sc_realtime s) = true -> sc_enabled s = true;
  cl_max : rt_max_priority (sc_realtime s) <= MAX_FIFO_PRIORITY;
  cl_housekeeping : rt_enabled (sc_realtime s) = true -> rt_housekeeping_cpus (sc_realtime s) <> ∅;
  cl_profile : forall p, p ∈ sc_task_profiles s -> exists seen i,
    (validate_task_profile (sc_realtime s) seen i p).2 = [];
  cl_class : forall c, c ∈ sc_cgroup_classes s -> exists seen i,
    (validate_cgroup_class seen i c).2 = [];
  cl_total : (total_threads (sc_process_rules s) <= MAX_TOTAL_THREAD_RULES)%nat;
  cl_rules : (for_each (validate_process_rule (list_to_set (tpc_id <$> sc_task_profiles s))
     (list_to_set (cg_id <$> sc_cgroup_classes s))) 0%nat 0 (sc_process_rules s)).2 = [];
  cl_focus : validate_focus (sc_focus s) (list_to_set (tpc_id <$> sc_task_profiles s)) = [];
}.

Lemma validate_scheduler_clean s : validate_scheduler s = [] -> scheduler_clean s.
Proof.
  unfold validate_scheduler. cbv zeta.
  pose proof (for_each_seen tpc_id (validate_task_profile (sc_realtime s)) ∅ 0
    (take MAX_TASK_PROFILES (sc_task_profiles s)) (fun _ _ _ => eq_refl)) as Hp.
  pose proof (for_each_nil (validate_task_profile (sc_realtime s)) ∅ 0
    (take MAX_TASK_PROFILES (sc_task_profiles s))) as Hpn.
  pose proof (for_each_seen cg_id validate_cgroup_class ∅ 0
    (take MAX_CGROUP_CLASSES (sc_cgroup_classes s)) (fun _ _ _ => eq_refl)) as Hc.
  pose proof (for_each_nil validate_cgroup_class ∅ 0
    (take MAX_CGROUP_CLASSES (sc_cgroup_classes s))) as Hcn.
  destruct (for_each (validate_task_profile _) _ _ _) as [tps profiles].
  destruct (for_each validate_cgroup_class _ _ _) as [cgs classes]. simpl in Hp, Hpn, Hc, Hcn.
  intros Hall. apply app_eq_nil in Hall as [Hhead Hall].
  apply app_eq_nil in Hall as [-> Hall]. apply app_eq_nil in Hall as [-> Hall].
  apply app_eq_nil in Hall as [Hf Hr].
  split_issues Hhead. rewrite collection_len_nil in Hhead3, Hhead4, Hhead.
  unfold validate_process_rules in Hr. rewrite !take_ge in * by done.
  apply app_eq_nil in Hr as [Htot Hr]. rewrite collection_len_nil, foldl_threads in Htot. rewrite union_empty_l_L in Hp, Hc. subst tps cgs.
  rewrite negb_false_iff, in_range_spec in Hhead1.
  constructor; try done.
  - intros He. rewrite He in Hhead0. by destruct (sc_enabled s).
  - lia.
  - intros He Hh. rewrite He in Hhead2. unfold CpuSet_is_empty in Hhead2.
    by rewrite bool_decide_eq_true_2 in Hhead2.
  - intros p. by apply Hpn.
  - intros c. by apply Hcn.
Qed.

Lemma effective_plan_safe s path plan group :
  scheduler_clean s -> validate_effective_task_plan path plan group (sc_realtime s) = [] ->
  (group = false \/ affinity plan <> None -> plan_safe s plan) /\
  (forall a, affinity plan = None ->
     (scheduling_class plan = Some Fifo -> a ## rt_housekeeping_cpus (sc_realtime s)) ->
     plan_safe s {| affinity := Some a; nice := nice plan;
                    scheduling_class := scheduling_class plan; rt_priority := rt_priority plan;
                    uclamp_min := uclamp_min plan; uclamp_max := uclamp_max plan |}).
Proof.
  intros Hs Hv. unfold validate_effective_task_plan in Hv. apply app_eq_nil in Hv as [Hp Hv].
  unfold validate_task_plan in Hp. split_issues Hp.
  destruct (bool_decide_reflect (scheduling_class plan = Some Fifo)) as [Hfifo|Hnot].
  - rewrite Hfifo in Hv. apply app_eq_nil in Hv as [Hen Hv]. apply app_eq_nil in Hv as [Hpr Hv].
    apply app_eq_nil in Hv as [Haf Hdj]. rewrite issue_if_nil in Hen, Haf, Hdj.
    apply negb_false_iff in Hen.
    destruct (rt_priority plan) as [p|] eqn:Hprio; [|done]. rewrite issue_if_nil, Z.ltb_ge in Hpr.
    simpl in Hp2. rewrite negb_false_iff, in_range_spec in Hp2.
    pose proof (cl_enabled _ Hs Hen). pose proof (cl_housekeeping _ Hs Hen).
    pose proof (cl_max _ Hs).
    assert (Hgen : forall a, a ## rt_housekeeping_cpus (sc_realtime s) ->
      plan_safe s {| affinity := Some a; nice := nice plan;
                     scheduling_class := scheduling_class plan; rt_priority := Some p;
                     uclamp_min := uclamp_min plan; uclamp_max := uclamp_max plan |}).
    { intros a Ha. split; simpl; [|congruence]. intros _. split_and!; try done.
      - exists p. split_and!; done || lia.
      - by exists a. }
    split; [|intros a _ Ha; by apply Hgen, Ha].
    intros Hg. destruct (affinity plan) as [a|] eqn:Ha.
    + simpl in Hdj. unfold CpuSet_is_disjoint in Hdj.
      apply negb_false_iff, bool_decide_eq_true in Hdj. specialize (Hgen a Hdj).
      destruct plan. simpl in *. by subst.
    + destruct Hg as [->|Hg]; [|done]. by rewrite bool_decide_eq_true_2 in Haf.
  - assert (Hnone : rt_priority plan = None).
    { destruct (scheduling_class plan) as [[]|], (rt_priority plan); done. }
    split; [intros _|intros a _ _]; split; simpl; done.
Qed.

(** ** From the validated documents *)

Lemma policy_scheduler_clean c u :
  PolicyConfig_validate c = Ok u -> scheduler_clean (pol_scheduler c).
Proof.
  unfold PolicyConfig_validate, PolicyConfig_issues. rewrite finish_Ok.
  destruct (for_each validate_profile _ _ _) as [profiles issues]. intros Hall.
  do 10 apply app_eq_nil in Hall as [_ Hall]. by apply validate_scheduler_clean.
Qed.

Lemma materialize_Ok b c :
  materialize_cpu_groups b = Ok c ->
  validate_thermal_references b = [] /\ validate_energy_references b = [] /\
  validate_scalar_references b = [] /\ validate_scheduler_references b = [] /\
  sc_task_profiles (pol_scheduler c)
    = materialize_task_profile (bundle_device b)
        <$> sc_task_profiles (pol_scheduler (bundle_policy b)) /\
  sc_cgroup_classes (pol_scheduler c)
    = materialize_cgroup_class (bundle_device b)
        <$> sc_cgroup_classes (pol_scheduler (bundle_policy b)) /\
  sc_realtime (pol_scheduler c) = sc_realtime (pol_scheduler (bundle_policy b)) /\
  sc_enabled (pol_scheduler c) = sc_enabled (pol_scheduler (bundle_policy b)) /\
  sc_process_rules (pol_scheduler c) = sc_process_rules (pol_scheduler (bundle_policy b)) /\
  sc_focus (pol_scheduler c) = sc_focus (pol_scheduler (bundle_policy b)) /\
  pol_profiles c = pol_profiles (bundle_policy b).
Proof.
  unfold materialize_cpu_groups, validate_cross_references.
  intros ([] & Hv%finish_Ok & [= <-])%res_bind_Ok.
  apply app_eq_nil in Hv as [H1 Hv]. apply app_eq_nil in Hv as [H2 Hv].
  apply app_eq_nil in Hv as [H3 H4]. by split_and!.
Qed.

Lemma fifo_reference_nil path plan a realtime :
  validate_fifo_affinity_reference path plan (Some a) realtime = [] ->
  scheduling_class plan = Some Fifo -> a ## rt_housekeeping_cpus realtime.
Proof.
  unfold validate_fifo_affinity_reference. intros Hv Hf. rewrite bool_decide_eq_true_2 in Hv by done.
  rewrite issue_if_nil in Hv. unfold CpuSet_is_disjoint in Hv.
  by apply negb_false_iff, bool_decide_eq_true in Hv.
Qed.

Lemma task_profile_safe s device configured seen i j p scene :
  scheduler_clean s ->
  (validate_task_profile (sc_realtime s) seen i p).2 = [] ->
  validate_task_profile_reference device configured (sc_realtime s) j p = [] ->
  plan_safe s (effective_task_plan (materialize_task_profile device p) scene).
Proof.
  intros Hs Hv Hr. unfold validate_task_profile in Hv. simpl in Hv.
  apply app_eq_nil in Hv as [_ Hv]. apply app_eq_nil in Hv as [_ Hv].
  apply app_eq_nil in Hv as [Hg Hv]. apply app_eq_nil in Hv as [Hplan Hscenes].
  unfold validate_task_profile_reference in Hr.
  apply app_eq_nil in Hr as [Hgk Hr]. apply app_eq_nil in Hr as [_ Hr].
  apply app_eq_nil in Hr as [Href Hrefs].
  assert (Hscene : forall patch, tpc_scenes p !! scene = Some patch -> exists path path',
    validate_effective_task_plan path (merge_task_plan (tpc_plan p) patch)
      (bool_decide (is_Some (tpc_affinity_group p))) (sc_realtime s) = [] /\
    validate_fifo_affinity_reference path' (merge_task_plan (tpc_plan p) patch)
      (if bool_decide (affinity (merge_task_plan (tpc_plan p) patch) = None)
       then g ← tpc_affinity_group p; dev_cpu_groups device !! g else None) (sc_realtime s) = []).
  { intros patch Hp. apply elem_of_entries in Hp.
    pose proof (mjoin_fmap_nil _ _ _ Hscenes Hp) as H1.
    pose proof (mjoin_fmap_nil _ _ _ Hrefs Hp) as H2. cbv beta zeta in H2. simpl in H2.
    unfold validate_task_scene in H1. apply app_eq_nil in H1 as [_ H1].
    apply app_eq_nil in H2 as [_ H2]. eauto. }
  clear Hscenes Hrefs. unfold effective_task_plan, materialize_task_profile.
  destruct (tpc_affinity_group p) as [g|].
  - apply app_eq_nil in Hg as [_ Hg]. rewrite issue_if_nil, bool_decide_eq_false in Hg.
    rewrite issue_if_nil, bool_decide_eq_false in Hgk.
    destruct (dev_cpu_groups device !! g) as [a|] eqn:Ha; [|done].
    assert (Hna : affinity (tpc_plan p) = None) by (apply eq_None_not_Some; tauto).
    rewrite bool_decide_eq_true_2 in Href by done. simpl in *. rewrite Ha in *.
    destruct (tpc_scenes p !! scene) as [patch|] eqn:Hp; simpl.
    + destruct (Hscene patch eq_refl) as (path & path' & Hv & Hr).
      destruct (effective_plan_safe _ _ _ _ Hs Hv) as [Hyes Hno]. simpl in *.
      destruct (affinity patch) as [a'|] eqn:Hap.
      * replace (merge_task_plan _ patch) with (merge_task_plan (tpc_plan p) patch).
        { apply Hyes. right. unfold merge_task_plan. simpl. by rewrite ?Hap. }
        unfold merge_task_plan. simpl. by rewrite ?Hap.
      * assert (Hm : affinity (merge_task_plan (tpc_plan p) patch) = None)
          by (unfold merge_task_plan; simpl; by rewrite ?Hap, Hna).
        rewrite bool_decide_eq_true_2 in Hr by done.
        specialize (Hno a Hna (fifo_reference_nil _ _ _ _ Hr)). unfold merge_task_plan in *.
        simpl in *. by rewrite ?Hap.
    + destruct (effective_plan_safe _ _ _ _ Hs Hplan) as [_ Hno].
      apply Hno; [done|]. by apply (fifo_reference_nil _ _ _ _ Href).
  - simpl in *. destruct (tpc_scenes p !! scene) as [patch|] eqn:Hp; simpl.
    + destruct (Hscene patch eq_refl) as (path & path' & Hv & _).
      apply (effective_plan_safe _ _ _ _ Hs Hv). by left.
    + apply (effective_plan_safe _ _ _ _ Hs Hplan). by left.
Qed.

Lemma materialized_plan_safe device policy policy' u :
  PolicyConfig_validate policy = Ok u ->
  materialize_cpu_groups {| bundle_device := device; bundle_policy := policy |} = Ok policy' ->
  forall p scene, p ∈ sc_task_profiles (pol_scheduler policy') ->
    plan_safe (pol_scheduler policy') (effective_task_plan p scene).
Proof.
  intros Hv%policy_scheduler_clean Hm p scene Hp.
  apply materialize_Ok in Hm as (_ & _ & _ & Hr & Htp & _ & Hrt & Hen & _).
  unfold plan_safe. rewrite Hrt, Hen. simpl in *. rewrite Htp in Hp.
  apply list_elem_of_fmap in Hp as (q & -> & Hq).
  destruct (cl_profile _ Hv q Hq) as (seen & i & Hi).
  unfold validate_scheduler_references in Hr. simpl in Hr.
  apply app_eq_nil in Hr as [_ Hr]. apply app_eq_nil in Hr as [Hr _].
  destruct (each_nil _ _ _ Hr Hq) as (j & _ & Hj). by eapply task_profile_safe.
Qed.

(** real-time isolation. For a validated policy whose CPU groups were
    materialised against the device, every plan any task profile can hand out
    in any scene, if it is FIFO, runs only with the scheduler and real-time
    switches on, at a priority between 1 and the configured ceiling (itself at
    most 50), on an explicit CPU set disjoint from a non-empty housekeeping
    set; and no other plan carries a real-time priority. *)
Theorem fifo_isolated device policy policy' u :
  PolicyConfig_validate policy = Ok u ->
  materialize_cpu_groups {| bundle_device := device; bundle_policy := policy |} = Ok policy' ->
  forall p scene, p ∈ sc_task_profiles (pol_scheduler policy') ->
    plan_safe (pol_scheduler policy') (effective_task_plan p scene).
Proof. apply materialized_plan_safe. Qed.

(** ** References *)

(** The profiles, task profiles and classes that rules name all exist. *)
Record references_resolve (c : PolicyConfig) : Prop := {
  rr_required : forall id, exists p, profile c id = Some p /\ p ∈ pol_profiles c /\ pc_id p = id;
  rr_rule : forall r, r ∈ sc_process_rules (pol_scheduler c) ->
    (forall t, pr_task_profile r = Some t -> t ∈ tpc_id <$> sc_task_profiles (pol_scheduler c)) /\
    (forall k, pr_cgroup_class r = Some k -> k ∈ cg_id <$> sc_cgroup_classes (pol_scheduler c)) /\
    (forall tr, tr ∈ pr_threads r ->
       tr_task_profile tr ∈ tpc_id <$> sc_task_profiles (pol_scheduler c));
  rr_focus : forall t, fc_task_profile (sc_focus (pol_scheduler c)) = Some t ->
    t ∈ tpc_id <$> sc_task_profiles (pol_scheduler c);
}.

(** The running count of thread rules never truncates a list that the total
    admits. *)
Lemma thread_rules_visited tps cgs n i rules r :
  (for_each (validate_process_rule tps cgs) n i rules).2 = [] ->
  (n + total_threads rules <= MAX_TOTAL_THREAD_RULES)%nat ->
  r ∈ rules -> exists base, each (validate_thread_rule tps base) (pr_threads r) = [].
Proof.
  revert n i. induction rules as [|x rules IH]; intros n i; [set_solver|].
  cbn [for_each total_threads foldr]. fold (total_threads rules).
  destruct (validate_process_rule tps cgs n i x) as [n1 is1] eqn:Hx.
  destruct (for_each _ n1 (S i) rules) as [n2 is2] eqn:Hrest. cbn [snd].
  intros [-> ->]%app_eq_nil Hlen. unfold validate_process_rule in Hx. cbv zeta in Hx.
  apply pair_equal_spec in Hx as [Hn1 Hx].
  apply app_eq_nil in Hx as [_ Hx]. apply app_eq_nil in Hx as [_ Hx].
  apply app_eq_nil in Hx as [_ Hx]. apply app_eq_nil in Hx as [_ Hx].
  apply app_eq_nil in Hx as [Hmax Hx]. apply collection_len_nil in Hmax.
  intros [->|Hr]%elem_of_cons.
  - rewrite take_ge in Hx by lia. by eexists.
  - apply (IH n1 (S i)); [by rewrite Hrest | lia | done].
Qed.

(** Every member of a clean section refers to existing members. *)
Lemma rules_resolve s r :
  validate_scheduler s = [] -> r ∈ sc_process_rules s ->
  (forall t, pr_task_profile r = Some t -> t ∈ tpc_id <$> sc_task_profiles s) /\
  (forall k, pr_cgroup_class r = Some k -> k ∈ cg_id <$> sc_cgroup_classes s) /\
  (forall tr, tr ∈ pr_threads r -> tr_task_profile tr ∈ tpc_id <$> sc_task_profiles s).
Proof.
  intros Hv Hr. pose proof (validate_scheduler_clean _ Hv) as Hs.
  destruct (for_each_nil _ _ _ _ _ (cl_rules _ Hs) Hr) as (n & i & Hrule).
  unfold validate_process_rule in Hrule. cbn [snd] in Hrule.
  apply app_eq_nil in Hrule as [_ Hrule]. apply app_eq_nil in Hrule as [_ Hrule].
  apply app_eq_nil in Hrule as [Ht Hrule]. apply app_eq_nil in Hrule as [Hk _].
  rewrite issue_if_nil in Ht, Hk. split_and!.
  - intros t Et. rewrite Et in Ht. simpl in Ht.
    apply negb_false_iff, bool_decide_eq_true in Ht. by rewrite elem_of_list_to_set in Ht.
  - intros k Ek. rewrite Ek in Hk. simpl in Hk.
    apply negb_false_iff, bool_decide_eq_true in Hk. by rewrite elem_of_list_to_set in Hk.
  - intros tr Htr. destruct (thread_rules_visited _ _ _ _ _ r (cl_rules _ Hs))
      as [base Hb]; [apply (cl_total _ Hs)|done|].
    destruct (each_nil _ _ _ Hb Htr) as (j & _ & Hj). unfold validate_thread_rule in Hj.
    apply app_eq_nil in Hj as [_ Hj].
    rewrite issue_if_nil, negb_false_iff, bool_decide_eq_true in Hj.
    by rewrite elem_of_list_to_set in Hj.
Qed.

Lemma focus_resolves s t :
  validate_scheduler s = [] -> fc_task_profile (sc_focus s) = Some t ->
  t ∈ tpc_id <$> sc_task_profiles s.
Proof.
  intros Hv Ht. pose proof (cl_focus _ (validate_scheduler_clean _ Hv)) as Hf.
  unfold validate_focus in Hf. apply app_eq_nil in Hf as [_ Hf]. apply app_eq_nil in Hf as [Hf _].
  rewrite Ht, issue_if_nil, negb_false_iff, bool_decide_eq_true in Hf.
  by rewrite elem_of_list_to_set in Hf.
Qed.

Lemma profile_found c id : id ∈ pc_id <$> pol_profiles c ->
  exists p, profile c id = Some p /\ p ∈ pol_profiles c /\ pc_id p = id.
Proof.
  intros (p & -> & Hp)%list_elem_of_fmap. unfold profile.
  destruct (List.find _ _) as [q|] eqn:Hf.
  - apply find_some in Hf as [Hq Hid]. exists q. apply bool_decide_eq_true in Hid.
    rewrite list_elem_of_In. done.
  - apply list_elem_of_In in Hp. pose proof (find_none _ _ Hf p Hp) as Hn. simpl in Hn.
    by rewrite bool_decide_eq_true_2 in Hn.
Qed.

Lemma policy_profiles c u :
  PolicyConfig_validate c = Ok u ->
  validate_scheduler (pol_scheduler c) = [] /\
  (forall id, id ∈ pc_id <$> pol_profiles c) /\
  forall p, p ∈ pol_profiles c -> exists seen i, (validate_profile seen i p).2 = [].
Proof.
  unfold PolicyConfig_validate, PolicyConfig_issues. rewrite finish_Ok.
  pose proof (for_each_seen pc_id validate_profile ∅ 0
    (take MAX_PROFILE_CONFIGS (pol_profiles c)) (fun _ _ _ => eq_refl)) as Hp.
  pose proof (for_each_nil validate_profile ∅ 0 (take MAX_PROFILE_CONFIGS (pol_profiles c))) as Hn.
  destruct (for_each validate_profile _ _ _) as [profiles issues]. simpl in Hp, Hn. intros Hall.
  apply app_eq_nil in Hall as [_ Hall]. apply app_eq_nil in Hall as [Hlen Hall].
  apply collection_len_nil in Hlen. rewrite take_ge in Hp, Hn by done.
  apply app_eq_nil in Hall as [-> Hall].
  apply app_eq_nil in Hall as [_ Hall]. apply app_eq_nil in Hall as [_ Hall].
  apply app_eq_nil in Hall as [Hreq Hall].
  do 4 apply app_eq_nil in Hall as [_ Hall]. split_and!; [done| |intros p; by apply Hn].
  intros id.
  assert (Hid : id ∈ [Powersave; Balance; Performance]) by (destruct id; set_solver).
  pose proof (mjoin_fmap_nil _ _ _ Hreq Hid) as Hi. simpl in Hi.
  rewrite issue_if_nil, negb_false_iff, bool_decide_eq_true in Hi. set_solver.
Qed.

(** a validated policy has every profile, and no rule, thread rule or
    focus default names a task profile or cgroup class that does not exist
    (also for the longest rule lists the size limits admit). *)
Theorem validated_references_resolve c u :
  PolicyConfig_validate c = Ok u -> references_resolve c.
Proof.
  intros Hv. destruct (policy_profiles _ _ Hv) as (Hs & Hids & _). constructor.
  - intros id. by apply profile_found.
  - intros r Hr. by apply rules_resolve.
  - intros t Ht. by apply focus_resolves.
Qed.

(** ** Scalars and budgets *)

(** after the cross-document check, every scalar a profile or a scene
    patch can set names a configured target and lies in that target's
    domain. *)
Theorem scalar_settings_in_domain b :
  validate_scalar_references b = [] ->
  forall p id value, p ∈ pol_profiles (bundle_policy b) ->
    (pc_scalar_values p !! id = Some value \/
     exists scene patch, pc_scenes p !! scene = Some patch /\ sp_scalar_values patch !! id = Some value) ->
    exists domain, scalar_domains (bundle_device b) !! id = Some domain /\
      scalar_value_matches_domain value domain = true.
Proof.
  intros Hv p id value Hp Hset. destruct (each_nil _ _ _ Hv Hp) as (i & _ & Hi). cbv beta zeta in Hi.
  apply app_eq_nil in Hi as [H1 H2].
  assert (Hone : forall path settings, validate_scalar_settings path settings
      (scalar_domains (bundle_device b)) = [] -> settings !! id = Some value ->
    exists domain, scalar_domains (bundle_device b) !! id = Some domain /\
      scalar_value_matches_domain value domain = true).
  { intros path settings Hs Hid. apply elem_of_entries in Hid.
    pose proof (mjoin_fmap_nil _ _ _ Hs Hid) as Hone. unfold validate_scalar_setting in Hone. simpl in Hone.
    destruct (scalar_domains (bundle_device b) !! id) as [d|]; [|done].
    rewrite issue_if_nil, negb_false_iff in Hone. eauto. }
  destruct Hset as [Hset|(scene & patch & Hsc & Hset)]; [by eapply Hone|].
  apply elem_of_entries in Hsc. pose proof (mjoin_fmap_nil _ _ _ H2 Hsc) as Hs.
  exact (Hone _ _ Hs Hset).
Qed.
End policy_facts.

(** * What a validated device document guarantees *)

(** ** Paths *)

(** A path below one of the two admitted roots that never climbs. *)
Definition confined (value : string) : Prop :=
  is_absolute value = true /\
  (exists rest, components value = RootDir :: Text.Normal "sys" :: Text.Normal "devices" :: rest \/
                components value = RootDir :: Text.Normal "sys" :: Text.Normal "class" :: rest) /\
  ParentDir ∉ components value.

Lemma sysfs_directory_confined path value :
  validate_sysfs_directory path value = [] -> confined value.
Proof.
  unfold validate_sysfs_directory. cbv zeta. rewrite issue_if_nil, !orb_false_iff, !negb_false_iff.
  intros [[Habs Hf] Hroot]. unfold confined. split_and!; [done| |].
  - apply orb_true_iff in Hroot as [Hr|Hr]; unfold path_starts_with in Hr;
      apply bool_decide_eq_true in Hr as [rest Hr]; exists rest; rewrite Hr; [by left | by right].
  - intros Hin. apply list_elem_of_In in Hin.
    assert (existsb forbidden_component (components value) = true) as Ht; [|by rewrite Ht in Hf].
    apply existsb_exists. eauto.
Qed.

(** Inner [.] parts and repeated separators pass, as [Path::components] drops
    them. *)
Example inner_dot_accepted : validate_sysfs_directory [] "/sys/class/./thermal//zone0/" = [].
Proof. reflexivity. Qed.

(** ** The issues of a device document, by section *)

Lemma device_sections d u :
  DeviceConfig_validate d = Ok u ->
  dev_cpu_policies d <> [] /\
  (exists ids, (for_each validate_devfreq ids 0 (dev_devfreq_targets d)).2 = []) /\
  (exists ids cpus, (for_each (validate_scalar_target cpus) ids 0 (dev_scalar_targets d)).2 = []) /\
  (for_each validate_cpu_policy (∅, ∅) 0 (dev_cpu_policies d)).2 = [] /\
  (for_each validate_thermal_zone ∅ 0 (dev_thermal_zones d)).2 = [].
Proof.
  unfold DeviceConfig_validate, DeviceConfig_issues. rewrite finish_Ok. cbv zeta.
  destruct (for_each validate_cpu_policy _ _ _) as [[ids cpus] policies] eqn:Hp.
  destruct (for_each validate_devfreq _ _ _) as [ids2 devfreqs] eqn:Hd.
  destruct (for_each (validate_scalar_target _) _ _ _) as [ids3 scalars] eqn:Hs.
  destruct (for_each validate_thermal_zone _ _ _) as [ids4 zones] eqn:Hz.
  intros Hall. apply app_eq_nil in Hall as [Hhead Hall].
  apply app_eq_nil in Hall as [-> Hall]. apply app_eq_nil in Hall as [_ Hall].
  apply app_eq_nil in Hall as [-> Hall]. apply app_eq_nil in Hall as [-> ->].
  apply app_eq_nil in Hhead as [_ Hhead]. apply app_eq_nil in Hhead as [_ Hhead].
  apply app_eq_nil in Hhead as [H1%collection_len_nil Hhead].
  apply app_eq_nil in Hhead as [H4%collection_len_nil Hhead].
  apply app_eq_nil in Hhead as [H2%collection_len_nil Hhead].
  apply app_eq_nil in Hhead as [H3%collection_len_nil Hhead].
  apply app_eq_nil in Hhead as [_ Hhead]. rewrite issue_if_nil, bool_decide_eq_false in Hhead.
  rewrite take_ge in Hp by done. rewrite take_ge in Hz by done.
  rewrite take_ge in Hd by done. rewrite take_ge in Hs by done.
  split_and!; [intros Hn; by rewrite Hn in Hhead | | | by rewrite Hp | by rewrite Hz].
  - exists ids. by rewrite Hd.
  - exists ids2, cpus. by rewrite Hs.
Qed.

(** the thresholds of every thermal zone of a validated device are
    strictly ordered between 0 and 250 degrees, and the hysteresis is smaller
    than their span, so that no subtraction of the thermal guard overflows. *)
Theorem validated_thresholds d u :
  DeviceConfig_validate d = Ok u -> forall z, z ∈ dev_thermal_zones d ->
  let th := thresholds_of_zone z in
  0 <= warning th < throttled th /\ throttled th < critical th <= 250000 /\
  0 <= hysteresis th < critical th - warning th /\
  dwell_ms th <> 0 /\ dwell_ms th <= MAX_DURATION_MS /\
  stale_after_ms th <> 0 /\ stale_after_ms th <= MAX_DURATION_MS /\
  is_i64 (warning th - hysteresis th) /\ is_i64 (throttled th - hysteresis th) /\
  is_i64 (critical th - hysteresis th).
Proof.
  intros (_ & _ & _ & _ & Hz)%device_sections z Hin.
  destruct (for_each_nil _ _ _ _ _ Hz Hin) as (s & i & Hi). unfold validate_thermal_zone in Hi.
  cbv zeta in Hi. cbn [snd] in Hi. do 4 apply app_eq_nil in Hi as [_ Hi].
  apply app_eq_nil in Hi as [Hord Hi]. apply app_eq_nil in Hi as [Hhot Hi].
  apply app_eq_nil in Hi as [Hneg Hi]. apply app_eq_nil in Hi as [Hhys Hi].
  apply app_eq_nil in Hi as [Hdw Hst].
  rewrite issue_if_nil in Hord, Hneg, Hhys. rewrite negb_false_iff, andb_true_iff, !Z.ltb_lt in Hord.
  assert (Hr : forall n v, (n, v) ∈ [("warning", tz_warning z); ("throttled", tz_throttled z);
    ("critical", tz_critical z)] -> 0 <= v <= 250000).
  { intros n v Hnv. pose proof (mjoin_fmap_nil _ _ _ Hhot Hnv) as H. simpl in H.
    by rewrite issue_if_nil, negb_false_iff, in_range_spec in H. }
  pose proof (Hr "warning" (tz_warning z) ltac:(set_solver)).
  pose proof (Hr "critical" (tz_critical z) ltac:(set_solver)).
  rewrite wrap_i64_exact in Hhys by (unfold is_i64; lia).
  unfold validate_positive_duration in Hdw, Hst. rewrite issue_if_nil, orb_false_iff in Hdw, Hst.
  rewrite Z.eqb_neq, Z.ltb_ge in Hdw, Hst. simpl.
  unfold is_i64. split_and!; lia || tauto.
Qed.

(** ** CPU clusters *)

Lemma cpu_policies_disjoint ids cpus i l :
  (for_each validate_cpu_policy (ids, cpus) i l).2 = [] ->
  NoDup (cp_id <$> l) /\
  (forall p, p ∈ l -> cp_id p ∉ ids /\ cp_related_cpus p ## cpus /\ cp_related_cpus p <> ∅) /\
  (forall j k p q, j <> k -> l !! j = Some p -> l !! k = Some q ->
     cp_related_cpus p ## cp_related_cpus q).
Proof.
  revert ids cpus i. induction l as [|x l IH]; intros ids cpus i.
  - intros _. split_and!; [constructor | set_solver | intros j k p q; by rewrite lookup_nil].
  - cbn [for_each]. unfold validate_cpu_policy at 1. cbv zeta. cbn iota beta.
    specialize (IH ({[cp_id x]} ∪ ids) (cpus ∪ cp_related_cpus x) (S i)).
    destruct (for_each validate_cpu_policy _ _ l) as [s2 is2]. cbn [snd] in *.
    intros [Hx ->]%app_eq_nil. specialize (IH eq_refl) as (Hnd & Hall & Hpair).
    apply app_eq_nil in Hx as [Hdup Hx]. apply app_eq_nil in Hx as [Hne Hx].
    apply app_eq_nil in Hx as [Hdj _]. rewrite issue_if_nil in Hdup, Hne, Hdj.
    apply bool_decide_eq_false in Hdup. unfold CpuSet_is_empty in Hne.
    apply bool_decide_eq_false in Hne. unfold CpuSet_is_disjoint in Hdj.
    apply negb_false_iff, bool_decide_eq_true in Hdj. split_and!.
    + constructor; [|done]. intros (p & Hp & Hin)%list_elem_of_fmap.
      destruct (Hall p Hin) as [Hni _]. set_solver.
    + intros p [->|Hin]%elem_of_cons; [split_and!; try done; set_solver|].
      destruct (Hall p Hin) as (H1 & H2 & H3). split_and!; [set_solver..|done].
    + assert (Hlater : forall k q, l !! k = Some q -> cp_related_cpus x ## cp_related_cpus q).
      { intros k q Hq%list_elem_of_lookup_2. destruct (Hall q Hq) as (_ & H2 & _). set_solver. }
      intros [|j] [|k] p q Hne' Hp Hq; simpl in *; simplify_eq; eauto.
      symmetry. eauto.
Qed.

(** the CPU policies of a validated device have distinct identifiers and
    non-empty, pairwise disjoint CPU sets: each CPU is governed by at most one
    cluster. *)
Theorem validated_clusters_disjoint d u :
  DeviceConfig_validate d = Ok u ->
  dev_cpu_policies d <> [] /\ NoDup (cp_id <$> dev_cpu_policies d) /\
  (forall p, p ∈ dev_cpu_policies d -> cp_related_cpus p <> ∅) /\
  (forall j k p q, j <> k -> dev_cpu_policies d !! j = Some p -> dev_cpu_policies d !! k = Some q ->
     cp_related_cpus p ## cp_related_cpus q).
Proof.
  intros (Hne & _ & _ & Hp & _)%device_sections.
  apply cpu_policies_disjoint in Hp as (H1 & H2 & H3). split_and!; try done.
  intros p Hin. by apply H2.
Qed.

(** every path a validated device document can hand to the actuator is
    absolute, lies below /sys/devices or /sys/class, and has no parent
    component. *)
Theorem validated_paths_confined d u :
  DeviceConfig_validate d = Ok u ->
  (forall p path, p ∈ dev_cpu_policies d -> cp_sysfs_path p = Some path -> confined path) /\
  (forall z path, z ∈ dev_thermal_zones d -> tz_sysfs_path z = Some path -> confined path) /\
  (forall t path, t ∈ dev_devfreq_targets d -> df_sysfs_path t = Some path -> confined path) /\
  (forall t, t ∈ dev_scalar_targets d -> confined (stc_path t)).
Proof.
  intros (_ & [ids Hd] & (ids' & cpus' & Hs) & Hp & Hz)%device_sections. split_and!.
  - intros p path Hin Hpath. destruct (for_each_nil _ _ _ _ _ Hp Hin) as ([ids0 cpus] & i & Hi).
    unfold validate_cpu_policy in Hi. cbn [snd] in Hi. do 3 apply app_eq_nil in Hi as [_ Hi].
    apply app_eq_nil in Hi as [Hsys _]. rewrite Hpath in Hsys. by eapply sysfs_directory_confined.
  - intros z path Hin Hpath. destruct (for_each_nil _ _ _ _ _ Hz Hin) as (s & i & Hi).
    unfold validate_thermal_zone in Hi. cbv zeta in Hi. cbn [snd] in Hi.
    do 3 apply app_eq_nil in Hi as [_ Hi]. apply app_eq_nil in Hi as [Hsys _].
    rewrite Hpath in Hsys. by eapply sysfs_directory_confined.
  - intros t path Hin Hpath. destruct (for_each_nil _ _ _ _ _ Hd Hin) as (s & i & Hi).
    unfold validate_devfreq in Hi. cbn [snd] in Hi. do 4 apply app_eq_nil in Hi as [_ Hi].
    apply app_eq_nil in Hi as [Hsys _]. rewrite Hpath in Hsys. by eapply sysfs_directory_confined.
  - intros t Hin. destruct (for_each_nil _ _ _ _ _ Hs Hin) as (s & i & Hi).
    unfold validate_scalar_target in Hi. cbn [snd] in Hi. apply app_eq_nil in Hi as [_ Hi].
    apply app_eq_nil in Hi as [Hsys _]. by eapply sysfs_directory_confined.
Qed.

(** * A concrete configuration

    A device with two clusters and a policy with a real-time task profile, at
    which the properties of validation are instantiated. The regular-expression
    engine is a literal substring search. *)

(** [index] finds the pattern as a substring. *)
#[global] Instance literal_regex : RegexEngine :=
  {| Regex := string;
     regex_new p := if bool_decide (p = "(") then Err "unclosed group" else Ok p;
     regex_is_match p s := match String.index 0 p s with Some _ => true | None => false end |}.

Definition wit_cpu_policy (id : string) (cpus : CpuSet) : CpuPolicyConfig :=
  {| cp_id := id; cp_related_cpus := cpus;
     cp_sysfs_path := Some "/sys/devices/system/cpu/cpufreq/policy0";
     cp_floor_hz := 300; cp_reference_hz := 600; cp_efficient_cap_hz := 900;
     cp_admin_cap_hz := None; cp_critical_cap_hz := Some 600; cp_sensor_failure_cap_hz := Some 500;
     cp_energy_model := Some (ReferenceCurveV1 100 500 900 600 400 300) |}.

Definition wit_zone : ThermalZoneConfig :=
  {| tz_id := "soc"; tz_zone_type := "soc-thermal"; tz_sysfs_path := None;
     tz_warning := 70000; tz_throttled := 80000; tz_critical := 90000; tz_hysteresis := 3000;
     tz_dwell_ms := 2000; tz_stale_after_ms := 5000 |}.

Definition wit_device : DeviceConfig :=
  {| dev_schema_version := 2; dev_device_id := "board"; dev_device_match := None;
     dev_cpu_groups := {[ "rt" := list_to_set [2; 3] ]};
     dev_cpu_policies := [wit_cpu_policy "little" (list_to_set [0; 1]);
                          wit_cpu_policy "big" (list_to_set [2; 3])];
     dev_devfreq_targets := [];
     dev_scalar_targets :=
       [{| stc_id := "boost"; stc_path := "/sys/devices/system/cpu/cpufreq/boost";
           stc_domain := CfgIntegerRange 0 1 |}];
     dev_thermal_zones := [wit_zone] |}.

Definition wit_power : PowerBudgetConfig :=
  {| slow_limit_power_mw := 3000; fast_limit_power_mw := 6000; fast_limit_capacity_mj := 8000;
     fast_limit_recover_scale := f64_one |}.

Definition wit_profile (id : ProfileId) : ProfileConfig :=
  {| pc_id := id; pc_margin := f64_lit 1 4; pc_burst := f64_zero; pc_limit_efficiency := true;
     pc_power_budget := Some wit_power; pc_scalar_values := {[ "boost" := SettingInteger 1 ]};
     pc_scenes := {[ Touch := {| sp_margin := None; sp_burst := Some (f64_lit 1 5);
                                 sp_limit_efficiency := None; sp_power_budget := None;
                                 sp_scalar_values := {[ "boost" := SettingInteger 0 ]} |} ]} |}.

Definition plan_none : TaskPlan :=
  {| affinity := None; nice := None; scheduling_class := None; rt_priority := None;
     uclamp_min := None; uclamp_max := None |}.

Definition wit_audio : TaskProfileConfig :=
  {| tpc_id := "audio"; tpc_affinity_group := Some "rt";
     tpc_plan := {| affinity := None; nice := None; scheduling_class := Some Fifo;
                    rt_priority := Some 10; uclamp_min := None; uclamp_max := None |};
     tpc_scenes := {[ SBoost := {| affinity := Some (list_to_set [3]); nice := None;
                                   scheduling_class := None; rt_priority := Some 15;
                                   uclamp_min := Some 200; uclamp_max := None |} ]} |}.

Definition wit_rule : ProcessRuleConfig :=
  {| pr_name := "pipewire"; pr_matcher := {| wm_executable := Some "/usr/bin/pipewire";
                                             wm_desktop_id := None; wm_comm_regex := None |};
     pr_task_profile := Some "audio"; pr_cgroup_class := None;
     pr_threads := [{| tr_selector := SelCommRegex "data-loop"; tr_task_profile := "audio" |}] |}.

Definition wit_scheduler : SchedulerConfig :=
  {| sc_enabled := true; sc_task_profiles := [wit_audio]; sc_process_rules := [wit_rule];
     sc_cgroup_classes := [];
     sc_focus := {| fc_enabled := true; fc_task_profile := Some "audio"; fc_lease_ttl_ms := 15000;
                    fc_debounce_ms := 150; fc_protected := [] |};
     sc_realtime := {| rt_enabled := true; rt_max_priority := 20;
                       rt_housekeeping_cpus := list_to_set [0] |} |}.

Definition wit_policy_config : PolicyConfig :=
  {| pol_schema_version := 2; pol_default_profile := Balance;
     pol_profiles := [wit_profile Powersave; wit_profile Balance; wit_profile Performance];
     pol_load := {| load_enabled := true; sample_interval_ms := 100; ema_time_constant_ms := 500;
                    heavy_enter := f64_lit 9 10; heavy_exit := f64_lit 6 10; heavy_dwell_ms := 1000 |};
     pol_governor := GovernorConfig_default;
     pol_thermal := {| tp_sample_interval_ms := 1000 |};
     pol_input := {| in_enabled := true; in_trigger_duration_ms := 100; in_gesture_duration_ms := 100;
                     in_switch_duration_ms := 100; in_wake_duration_ms := 100;
                     in_swipe_distance := f64_lit 1 10; in_edge_width := f64_lit 1 10 |};
     pol_scheduler := wit_scheduler; pol_session := None |}.

Definition wit_bundle : ConfigBundle :=
  {| bundle_device := wit_device; bundle_policy := wit_policy_config |}.

Definition wit_materialized : PolicyConfig :=
  match materialize_cpu_groups wit_bundle with Ok c => c | _ => wit_policy_config end.

Lemma wit_policy_valid : PolicyConfig_validate wit_policy_config = Ok tt.
Proof. vm_compute. reflexivity. Qed.
Lemma wit_device_valid : DeviceConfig_validate wit_device = Ok tt.
Proof. vm_compute. reflexivity. Qed.
Lemma wit_bundle_valid : materialize_cpu_groups wit_bundle = Ok wit_materialized.
Proof. vm_compute. reflexivity. Qed.

(** ** Witnesses *)

Lemma fifo_isolated_witness :
  plan_safe (pol_scheduler wit_materialized)
    (effective_task_plan (materialize_task_profile wit_device wit_audio) SBoost).
Proof.
  assert (E : sc_task_profiles (pol_scheduler wit_materialized)
              = [materialize_task_profile wit_device wit_audio]) by (vm_compute; reflexivity).
  assert (Hp : materialize_task_profile wit_device wit_audio
               ∈ sc_task_profiles (pol_scheduler wit_materialized))
    by (rewrite E; apply list_elem_of_singleton; reflexivity).
  exact (fifo_isolated wit_device wit_policy_config wit_materialized tt wit_policy_valid
    wit_bundle_valid _ SBoost Hp).
Defined.

Lemma validated_references_resolve_witness : references_resolve wit_policy_config.
Proof. exact (validated_references_resolve wit_policy_config tt wit_policy_valid). Defined.

Lemma scalar_settings_in_domain_witness :
  exists domain, scalar_domains wit_device !! "boost" = Some domain /\
    scalar_value_matches_domain (SettingInteger 0) domain = true.
Proof.
  assert (E : validate_scalar_references wit_bundle = []) by (vm_compute; reflexivity).
  apply (scalar_settings_in_domain wit_bundle E (wit_profile Balance) "boost" (SettingInteger 0)).
  - apply list_elem_of_In. right. left. reflexivity.
  - right. eexists Touch, _. split; vm_compute; reflexivity.
Defined.

Lemma validated_thresholds_witness :
  0 <= warning (thresholds_of_zone wit_zone) < throttled (thresholds_of_zone wit_zone).
Proof.
  assert (Hin : wit_zone ∈ dev_thermal_zones wit_device)
    by (apply list_elem_of_In; left; reflexivity).
  destruct (validated_thresholds wit_device tt wit_device_valid wit_zone Hin) as [H _]. exact H.
Defined.

Lemma validated_clusters_disjoint_witness :
  NoDup (cp_id <$> dev_cpu_policies wit_device).
Proof.
  destruct (validated_clusters_disjoint wit_device tt wit_device_valid) as (_ & H & _). exact H.
Defined.

Lemma validated_paths_confined_witness : confined "/sys/devices/system/cpu/cpufreq/boost".
Proof.
  destruct (validated_paths_confined wit_device tt wit_device_valid) as (_ & _ & _ & H).
  refine (H {| stc_id := "boost"; stc_path := "/sys/devices/system/cpu/cpufreq/boost";
               stc_domain := CfgIntegerRange 0 1 |} _).
  apply list_elem_of_In. left. reflexivity.
Defined.
