(* ===== verification/Energy.v ===== *)
(** * Energy model ([uperf-core/src/energy.rs], first part)

    Expansion of a configured curve or measured table onto the operating
    points the kernel exposes, and the sparse set of control points used for
    demand and budget control. *)

From Stdlib Require Import SpecFloat.
From S2P Require Import Prelude Float64 Domain Scene Frequency Load ConfigTypes.

Record EnergyOpp := {
  frequency_hz : Hertz;
  performance : f64;
  power_mw_per_core : f64;
}.

Definition cost_mw_per_performance (o : EnergyOpp) : f64 :=
  f64_div (power_mw_per_core o) (performance o).

Record EnergyModel := {
  opps : list EnergyOpp;
  control_opps : list EnergyOpp;
  performance_per_hz : f64;
  free_frequency_hz : Hertz;
  sweet_frequency_hz : Hertz;
  plain_frequency_hz : Hertz;
}.

Inductive EnergyModelError :=
| InsufficientOpps
| InvalidValue (field : string)
| InvalidCurveOrdering
| MissingMeasuredOpp (f : Hertz).

Definition hertz_as_f64 (h : Hertz) : f64 := f64_of_Z h.

(** [iter().rev().find(..)] *)
Definition opp_at_or_below (m : EnergyModel) (cap : Hertz) : option EnergyOpp :=
  List.find (fun o => frequency_hz o <=? cap) (rev (opps m)).

Definition first_opp_meeting_performance (m : EnergyModel) (p : f64) : option EnergyOpp :=
  or_else (List.find (fun o => f64_ge (performance o) p) (control_opps m))
    (last (control_opps m)).

Definition snap_key (requested f : Hertz) : Z :=
  sat_add (sat_mul (abs_diff f requested) 2) (if requested <? f then 1 else 0).

Definition snap_frequency_nearest (l : list Hertz) (requested : Hertz) : Hertz :=
  unwrap_or (min_by_key (snap_key requested) l) requested.

(** The product and sum are [u64]; they wrap in the release profile, and
    [interpolate_exact] says when they do not. *)
Definition interpolate_hertz (lower upper : Hertz) (part total : Z) : Hertz :=
  wrap_u64 (lower + wrap_u64 (sat_sub upper lower * part) / total).

Definition select_control (all : list EnergyOpp) (selected : list EnergyOpp) (target : Hertz)
  : list EnergyOpp :=
  let snapped := snap_frequency_nearest (frequency_hz <$> all) target in
  if is_none_or (last selected) (fun previous => frequency_hz previous <? snapped)
  then
    match List.find (fun o => frequency_hz o =? snapped) all with
    | Some o => selected ++ [o]
    | None => selected
    end
  else selected.

Definition sparse_reference_control_opps (all : list EnergyOpp) (free plain sweet : Hertz)
  : list EnergyOpp :=
  let maximum := map_or (last all) sweet frequency_hz in
  let requested :=
    [free; plain]
    ++ ((fun part => interpolate_hertz plain sweet part 3) <$> [1; 2; 3])
    ++ ((fun part => interpolate_hertz sweet maximum part 4) <$> [1; 2; 3; 4]) in
  foldl (select_control all) [] requested.

Definition reference_power (a1 a2 a3 : f64) (plain sweet f : Hertz) : f64 :=
  let frequency := hertz_as_f64 f in
  if f <=? plain then f64_mul a1 frequency
  else if f <=? sweet then f64_mul a2 (f64_pow_pos frequency 2)
  else f64_mul a3 (f64_pow_pos frequency 3).

Definition expand_reference_curve (relative_performance typical_power : Z)
    (typical sweet plain free : Hertz) (frequencies : list Hertz)
  : res EnergyModel EnergyModelError :=
  do? reject_if (relative_performance =? 0) (InvalidValue "relative_performance") in
  do? reject_if (typical_power =? 0) (InvalidValue "typical_power_mw_per_core") in
  do? reject_if (negb ((free <=? plain) && (plain <=? sweet) && (sweet <=? typical)))
        InvalidCurveOrdering in
  let a3 := f64_div (f64_of_Z typical_power) (f64_pow_pos (hertz_as_f64 typical) 3) in
  let a2 := f64_mul a3 (hertz_as_f64 sweet) in
  let a1 := f64_mul a2 (hertz_as_f64 plain) in
  let performance_scale := f64_div (f64_of_Z relative_performance) (f64_of_Z 100) in
  let free_hz := snap_frequency_nearest frequencies free in
  let plain_hz := snap_frequency_nearest frequencies plain in
  let sweet_hz := snap_frequency_nearest frequencies sweet in
  let expanded :=
    (fun f => {| frequency_hz := f;
                 performance := f64_mul (hertz_as_f64 f) performance_scale;
                 power_mw_per_core := reference_power a1 a2 a3 plain sweet f |}) <$> frequencies in
  Ok {| opps := expanded;
        control_opps := sparse_reference_control_opps expanded free_hz plain_hz sweet_hz;
        performance_per_hz := performance_scale;
        free_frequency_hz := free_hz;
        sweet_frequency_hz := sweet_hz;
        plain_frequency_hz := plain_hz |}.

(** [points.binary_search_by_key]: an entry with that frequency, when there is
    one; validation rejects tables with two. *)
Definition measured_opp (points : list MeasuredOppConfig) (f : Hertz)
  : res EnergyOpp EnergyModelError :=
  let? point :=
    ok_or (List.find (fun p => mo_frequency_hz p =? f) points) (MissingMeasuredOpp f) in
  do? reject_if (mo_relative_capacity point =? 0) (InvalidValue "relative_capacity") in
  do? reject_if (mo_power_mw_per_core point =? 0) (InvalidValue "power_mw_per_core") in
  Ok {| frequency_hz := f;
        performance := f64_of_Z (mo_relative_capacity point);
        power_mw_per_core := f64_of_Z (mo_power_mw_per_core point) |}.

(** [iter().min_by(..partial_cmp(..).unwrap_or(Equal))]: the first minimum. *)
Definition cheapest_opp (l : list EnergyOpp) : option EnergyOpp :=
  foldl (fun best o =>
    match best with
    | None => Some o
    | Some b =>
        match SFcompare (cost_mw_per_performance b) (cost_mw_per_performance o) with
        | Some Gt => Some o
        | _ => Some b
        end
    end) None l.

Definition expand_measured_opps (points : list MeasuredOppConfig) (frequencies : list Hertz)
  : res EnergyModel EnergyModelError :=
  let? expanded := res_mapM (measured_opp points) frequencies in
  let free := map_or (cheapest_opp expanded) 0 frequency_hz in
  Ok {| opps := expanded;
        control_opps := expanded;
        performance_per_hz :=
          map_or (last expanded) f64_zero
            (fun o => f64_div (performance o) (hertz_as_f64 (frequency_hz o)));
        free_frequency_hz := free;
        sweet_frequency_hz := free;
        plain_frequency_hz := free |}.

Definition from_config (config : CpuEnergyModelConfig) (available_opps : list Hertz)
  : res EnergyModel EnergyModelError :=
  let frequencies := sort_dedup available_opps in
  do? reject_if (bool_decide (length frequencies < 2)%nat) InsufficientOpps in
  match config with
  | ReferenceCurveV1 rp tp typical sweet plain free =>
      expand_reference_curve rp tp typical sweet plain free frequencies
  | MeasuredOppV1 points => expand_measured_opps points frequencies
  end.

(** ** Well-formed models *)

Notation freqs l := (frequency_hz <$> (l : list EnergyOpp)).

(** The expanded points ascend, the control points ascend within them, and
    neither list is empty. *)
Record model_wf (m : EnergyModel) : Prop := {
  wf_opps : StronglySorted Z.lt (freqs (opps m));
  wf_nonempty : opps m <> [];
  wf_control : StronglySorted Z.lt (freqs (control_opps m));
  wf_control_sub : forall o, o ∈ control_opps m -> o ∈ opps m;
  wf_control_nonempty : control_opps m <> [];
  wf_free : free_frequency_hz m ∈ freqs (opps m);
  wf_plain : plain_frequency_hz m ∈ freqs (opps m);
  wf_sweet : sweet_frequency_hz m ∈ freqs (opps m);
  wf_free_plain : free_frequency_hz m <= plain_frequency_hz m;
  wf_plain_sweet : plain_frequency_hz m <= sweet_frequency_hz m;
}.

Lemma find_Some_iff {A} (p : A -> bool) l x : List.find p l = Some x -> x ∈ l /\ p x = true.
Proof. intros H%find_some. by rewrite list_elem_of_In. Qed.

Lemma find_None_iff {A} (p : A -> bool) l x : List.find p l = None -> x ∈ l -> p x = false.
Proof. intros H Hx. apply list_elem_of_In in Hx. by eapply find_none. Qed.

Lemma snap_key_exact r f : is_u64 r -> is_u64 f -> abs_diff f r <= 9223372036854775806 ->
  snap_key r f = 2 * Z.abs (f - r) + (if r <? f then 1 else 0).
Proof. unfold snap_key. unfold_int. destruct (Z.ltb_spec r f); lia. Qed.

Lemma snap_nearest_elem l r : l <> [] -> snap_frequency_nearest l r ∈ l.
Proof.
  intros Hl. unfold snap_frequency_nearest.
  destruct (min_by_key (snap_key r) l) as [m|] eqn:Hm; simpl.
  - by apply min_by_key_Some in Hm as [Hin _].
  - by apply min_by_key_None in Hm.
Qed.

Lemma snap_nearest_best l r f :
  f ∈ l -> snap_key r (snap_frequency_nearest l r) <= snap_key r f.
Proof.
  intros Hf. unfold snap_frequency_nearest.
  destruct (min_by_key (snap_key r) l) as [m|] eqn:Hm; simpl.
  - apply min_by_key_Some in Hm as [_ Hmin]. by apply Hmin.
  - apply min_by_key_None in Hm as ->. set_solver.
Qed.

(** Frequencies are far below 2^63; there the snapping key does not saturate. *)
Definition plausible_hz (f : Hertz) : Prop := 0 <= f <= 9223372036854775806.

Lemma snap_key_plausible r f : plausible_hz r -> plausible_hz f ->
  snap_key r f = 2 * Z.abs (f - r) + (if r <? f then 1 else 0).
Proof. unfold plausible_hz. intros. apply snap_key_exact; unfold_int; lia. Qed.

Lemma snap_nearest_mono l r1 r2 :
  l <> [] -> Forall plausible_hz l -> plausible_hz r1 -> plausible_hz r2 -> r1 <= r2 ->
  snap_frequency_nearest l r1 <= snap_frequency_nearest l r2.
Proof.
  intros Hl Hall H1 H2 Hle. rewrite Forall_forall in Hall.
  pose proof (snap_nearest_elem l r1 Hl) as E1. pose proof (snap_nearest_elem l r2 Hl) as E2.
  pose proof (snap_nearest_best l r1 _ E2) as B1. pose proof (snap_nearest_best l r2 _ E1) as B2.
  rewrite !snap_key_plausible in B1, B2 by auto.
  set (a := snap_frequency_nearest l r1) in *. set (b := snap_frequency_nearest l r2) in *.
  destruct (Z.ltb_spec r1 a), (Z.ltb_spec r1 b), (Z.ltb_spec r2 a), (Z.ltb_spec r2 b); lia.
Qed.

(** [interpolate_hertz] is exact when the product fits. *)
Lemma interpolate_exact lower upper part total :
  0 <= lower <= upper -> 0 <= part <= total -> 0 < total -> upper * total <= u64_max ->
  interpolate_hertz lower upper part total = lower + (upper - lower) * part / total /\
  lower <= interpolate_hertz lower upper part total <= upper.
Proof.
  intros Hl Hp Ht Hu. unfold interpolate_hertz, wrap_u64. rewrite sat_sub_spec by lia.
  unfold u64_max in Hu.
  assert (Hd : 0 <= (upper - lower) * part / total <= upper - lower).
  { split; [apply Z.div_pos; nia | apply Z.div_le_upper_bound; nia]. }
  rewrite (Z.mod_small ((upper - lower) * part)) by nia.
  rewrite Z.mod_small by nia. lia.
Qed.

(** *** The control points *)

Lemma select_control_sorted all selected target :
  StronglySorted Z.lt (freqs selected) -> (forall o, o ∈ selected -> o ∈ all) ->
  let s := select_control all selected target in
  StronglySorted Z.lt (freqs s) /\ (forall o, o ∈ s -> o ∈ all) /\
  (selected <> [] -> s <> []) /\ (all <> [] -> s <> []).
Proof.
  intros Hs Hsub. unfold select_control. simpl.
  set (sn := snap_frequency_nearest _ _).
  destruct (List.find (fun o => frequency_hz o =? sn) all) as [o|] eqn:Hf.
  - apply find_Some_iff in Hf as [Hin Ho]. apply Z.eqb_eq in Ho.
    destruct (is_none_or (last selected) _) eqn:Hn; cycle 1.
    { split_and!; try done. intros _ ->. done. }
    split_and!.
    + rewrite fmap_app. simpl. rewrite Ho. apply StronglySorted_app. split_and!.
      * intros f1 f2 H1 ->%list_elem_of_singleton.
        apply list_elem_of_fmap in H1 as (o1 & -> & H1).
        destruct (last selected) as [p|] eqn:Hl; [|by apply last_None in Hl; subst; set_solver].
        simpl in Hn. apply Z.ltb_lt in Hn. apply last_Some in Hl as [l' ->].
        apply elem_of_app in H1 as [H1| ->%list_elem_of_singleton]; [|done].
        rewrite fmap_app in Hs. apply StronglySorted_app in Hs as (Hlt & _ & _).
        specialize (Hlt (frequency_hz o1) (frequency_hz p)). simpl in Hlt.
        assert (frequency_hz o1 < frequency_hz p); [|lia].
        apply Hlt; [apply list_elem_of_fmap; eauto | set_solver].
      * done.
      * repeat constructor.
    + intros o' [H'| ->%list_elem_of_singleton]%elem_of_app; auto.
    + by destruct selected.
    + by destruct selected.
  - destruct (is_none_or _ _) eqn:Hn; split_and!; try done.
    + intros Hall ->. assert (He : sn ∈ freqs all).
      { apply snap_nearest_elem. by destruct all. }
      apply list_elem_of_fmap in He as (o & Heq & Ho).
      pose proof (find_None_iff _ _ o Hf Ho) as Hne. simpl in Hne. lia.
    + intros _ ->. done.
Qed.

Lemma select_controls_spec all targets selected :
  StronglySorted Z.lt (freqs selected) -> (forall o, o ∈ selected -> o ∈ all) ->
  all <> [] -> (targets <> [] \/ selected <> []) ->
  let s := foldl (select_control all) selected targets in
  StronglySorted Z.lt (freqs s) /\ (forall o, o ∈ s -> o ∈ all) /\ s <> [].
Proof.
  revert selected. induction targets as [|t targets IH]; intros selected Hs Hsub Hall Hne; simpl.
  - split_and!; try done. destruct Hne; done.
  - destruct (select_control_sorted all selected t Hs Hsub) as (H1 & H2 & H3 & H4).
    apply IH; auto.
Qed.

Lemma freqs_expanded (f : Hertz -> EnergyOpp) l :
  (forall x, frequency_hz (f x) = x) -> freqs (f <$> l) = l.
Proof.
  intros Hf. rewrite <- list_fmap_compose. rewrite <- (list_fmap_id l) at 2.
  apply list_fmap_ext. intros i x _. apply Hf.
Qed.

Definition curve_plausible (c : CpuEnergyModelConfig) : Prop :=
  match c with
  | ReferenceCurveV1 _ _ _ sweet plain free =>
      plausible_hz sweet /\ plausible_hz plain /\ plausible_hz free
  | MeasuredOppV1 _ => True
  end.

Lemma reference_curve_wf rp tp typical sweet plain free frequencies m :
  StronglySorted Z.lt frequencies -> frequencies <> [] -> Forall plausible_hz frequencies ->
  plausible_hz sweet -> plausible_hz plain -> plausible_hz free ->
  expand_reference_curve rp tp typical sweet plain free frequencies = Ok m ->
  model_wf m /\ freqs (opps m) = frequencies.
Proof.
  intros Hs Hne Hp Hsw Hpl Hfr. unfold expand_reference_curve.
  intros (_ & _ & (_ & _ & (_ & Hord%reject_if_Ok & [= <-])%res_bind_Ok)%res_bind_Ok)%res_bind_Ok.
  rewrite negb_false_iff, !andb_true_iff, !Z.leb_le in Hord. destruct Hord as [[H1 H2] H3].
  match goal with |- context [opps {| opps := ?e |}] => set (expanded := e) end.
  assert (Hfreqs : freqs expanded = frequencies) by by apply freqs_expanded.
  assert (Hene : expanded <> []) by (subst expanded; by destruct frequencies).
  destruct (select_controls_spec expanded
    (let maximum := map_or (last expanded) (snap_frequency_nearest frequencies sweet) frequency_hz in
     [snap_frequency_nearest frequencies free; snap_frequency_nearest frequencies plain]
     ++ ((fun part => interpolate_hertz (snap_frequency_nearest frequencies plain)
            (snap_frequency_nearest frequencies sweet) part 3) <$> [1; 2; 3])
     ++ ((fun part => interpolate_hertz (snap_frequency_nearest frequencies sweet) maximum part 4)
          <$> [1; 2; 3; 4])) [])
    as (Hc1 & Hc2 & Hc3); [constructor | set_solver | done | by left |].
  split; [|done]. constructor; simpl; try done.
  all: rewrite ?Hfreqs; try done; try (by apply snap_nearest_elem).
  all: by apply snap_nearest_mono.
Qed.

Lemma measured_opp_frequency points f o : measured_opp points f = Ok o -> frequency_hz o = f.
Proof.
  unfold measured_opp.
  by intros (p & _ & (_ & _ & (_ & _ & [= <-])%res_bind_Ok)%res_bind_Ok)%res_bind_Ok.
Qed.

Lemma cheapest_opp_elem l : l <> [] -> exists o, cheapest_opp l = Some o /\ o ∈ l.
Proof.
  unfold cheapest_opp. induction l as [|x l IH] using rev_ind; [done|]. intros _.
  rewrite foldl_app. simpl. destruct (decide (l = [])) as [->|Hl].
  - simpl. exists x. set_solver.
  - destruct (IH Hl) as (o & -> & Ho). repeat case_match; eexists; (split; [done|]); set_solver.
Qed.

Lemma measured_wf points frequencies m :
  StronglySorted Z.lt frequencies -> frequencies <> [] ->
  expand_measured_opps points frequencies = Ok m ->
  model_wf m /\ freqs (opps m) = frequencies.
Proof.
  intros Hs Hne. unfold expand_measured_opps.
  intros (expanded & Hexp%res_mapM_Ok & [= <-])%res_bind_Ok.
  assert (Hfreqs : freqs expanded = frequencies).
  { clear Hs Hne. induction Hexp as [|f o fl ol Ho _ IH]; [done|].
    rewrite fmap_cons. f_equal; [by eapply measured_opp_frequency | done]. }
  assert (Hene : expanded <> []) by (intros ->; by apply Hne).
  destruct (cheapest_opp_elem expanded Hene) as (o & Ho & Hin).
  split; [|done]. rewrite Ho. simpl.
  constructor; simpl; rewrite ?Hfreqs; try done.
  all: rewrite <- Hfreqs; apply list_elem_of_fmap; eauto.
Qed.

(** C40: an accepted model covers exactly the exposed operating points, in
    strictly ascending order; its control points are a non-empty ascending
    subset of them; and the free, plain and sweet frequencies are exposed
    points with free <= plain <= sweet. *)
Theorem from_config_wf config available m :
  Forall plausible_hz available -> curve_plausible config ->
  from_config config available = Ok m ->
  model_wf m /\ freqs (opps m) = sort_dedup available.
Proof.
  intros Hav Hcfg. unfold from_config.
  intros (_ & Hlen%reject_if_Ok & Hm)%res_bind_Ok. apply bool_decide_eq_false in Hlen.
  assert (Hne : sort_dedup available <> []) by (intros Hn; rewrite Hn in Hlen; simpl in Hlen; lia).
  assert (Hp : Forall plausible_hz (sort_dedup available)).
  { apply Forall_forall. intros x Hx. rewrite elem_of_sort_dedup in Hx.
    rewrite Forall_forall in Hav. by apply Hav. }
  pose proof (sort_dedup_sorted available) as Hs. destruct config as [rp tp ty sw pl fr|points].
  - destruct Hcfg as (Hsw & Hpl & Hfr).
    exact (reference_curve_wf rp tp ty sw pl fr _ m Hs Hne Hp Hsw Hpl Hfr Hm).
  - exact (measured_wf points _ m Hs Hne Hm).
Qed.

Definition example_curve : CpuEnergyModelConfig :=
  ReferenceCurveV1 150 1200 2400000000 1800000000 1200000000 600000000.
Definition example_available : list Hertz :=
  [1800000000; 600000000; 900000000; 1200000000; 2400000000; 1200000000].

Definition example_model : EnergyModel :=
  match from_config example_curve example_available with
  | Ok m => m
  | _ => {| opps := []; control_opps := []; performance_per_hz := f64_zero;
            free_frequency_hz := 0; sweet_frequency_hz := 0; plain_frequency_hz := 0 |}
  end.

Lemma from_config_wf_witness :
  model_wf example_model /\
  freqs (opps example_model) = [600000000; 900000000; 1200000000; 1800000000; 2400000000].
Proof.
  refine (from_config_wf example_curve example_available example_model _ _ _).
  - unfold example_available, plausible_hz. repeat (constructor; [lia|]). constructor.
  - simpl. unfold plausible_hz. lia.
  - vm_compute. reflexivity.
Defined.

(** When is a configuration refused? *)
Lemma from_config_reference_Ok rp tp typical sweet plain free available :
  (exists m, from_config (ReferenceCurveV1 rp tp typical sweet plain free) available = Ok m) <->
  (2 <= length (sort_dedup available))%nat /\ rp <> 0 /\ tp <> 0 /\
  free <= plain <= sweet /\ sweet <= typical.
Proof.
  unfold from_config, expand_reference_curve. split.
  - intros (m & (_ & Hl%reject_if_Ok & (_ & Hr%reject_if_Ok & (_ & Ht%reject_if_Ok
      & (_ & Ho%reject_if_Ok & _)%res_bind_Ok)%res_bind_Ok)%res_bind_Ok)%res_bind_Ok).
    apply bool_decide_eq_false in Hl. apply Z.eqb_neq in Hr, Ht.
    rewrite negb_false_iff, !andb_true_iff, !Z.leb_le in Ho. split_and!; try done; lia.
  - intros (Hl & Hr & Ht & Ho & Ho'). rewrite bool_decide_eq_false_2 by lia. simpl.
    apply Z.eqb_neq in Hr, Ht. rewrite Hr, Ht. simpl.
    replace ((free <=? plain) && (plain <=? sweet) && (sweet <=? typical)) with true
      by (symmetry; rewrite !andb_true_iff, !Z.leb_le; lia).
    simpl. eauto.
Qed.

(** *** Lookup *)

Lemma find_rev_last {A} (p : A -> bool) l x :
  List.find p (rev l) = Some x ->
  exists l1 l2, l = l1 ++ x :: l2 /\ p x = true /\ Forall (fun y => p y = false) l2.
Proof.
  induction l as [|y l IH] using rev_ind; [done|]. rewrite rev_app_distr. simpl.
  destruct (p y) eqn:Hy.
  - intros [= ->]. exists l, []. split_and!; [done|done|constructor].
  - intros (l1 & l2 & -> & Hx & Hall)%IH. exists l1, (l2 ++ [y]). split_and!; [|done|].
    + by rewrite <- app_assoc.
    + apply Forall_app. by repeat constructor.
Qed.

(** The highest operating point not above the cap. *)
Lemma opp_at_or_below_spec m cap :
  StronglySorted Z.lt (freqs (opps m)) ->
  match opp_at_or_below m cap with
  | Some o => o ∈ opps m /\ frequency_hz o <= cap /\
      forall o', o' ∈ opps m -> frequency_hz o' <= cap -> frequency_hz o' <= frequency_hz o
  | None => forall o, o ∈ opps m -> cap < frequency_hz o
  end.
Proof.
  intros Hs. unfold opp_at_or_below.
  destruct (List.find _ (rev (opps m))) as [o|] eqn:Hf.
  - apply find_rev_last in Hf as (l1 & l2 & Heq & Hle%Z.leb_le & Hall). rewrite Heq.
    split_and!; [set_solver|done|].
    intros o' [Hin|[->|Hin]%elem_of_cons]%elem_of_app Hle'; [|lia|].
    + rewrite Heq, fmap_app in Hs. apply StronglySorted_app in Hs as (Hlt & _ & _).
      specialize (Hlt (frequency_hz o') (frequency_hz o)). simpl in Hlt.
      assert (frequency_hz o' < frequency_hz o); [|lia].
      apply Hlt; [apply list_elem_of_fmap; eauto | set_solver].
    + rewrite Forall_forall in Hall. specialize (Hall o' Hin). simpl in Hall. lia.
  - intros o Ho. pose proof (find_None_iff _ _ o Hf) as Hn. rewrite list_elem_of_In, <- in_rev, <- list_elem_of_In in Hn.
    specialize (Hn Ho). simpl in Hn. lia.
Qed.

Lemma first_opp_control m p o :
  first_opp_meeting_performance m p = Some o -> o ∈ control_opps m.
Proof.
  unfold first_opp_meeting_performance.
  destruct (List.find _ _) as [o'|] eqn:Hf; simpl.
  - intros [= <-]. by apply find_Some_iff in Hf as [? _].
  - intros Hl. apply last_Some in Hl as [l ->]. set_solver.
Qed.

(** A model's control points always answer a demand. *)
Lemma first_opp_exists m p :
  control_opps m <> [] ->
  exists o, first_opp_meeting_performance m p = Some o /\ o ∈ control_opps m.
Proof.
  intros Hne. unfold first_opp_meeting_performance.
  destruct (List.find _ _) as [o|] eqn:Hf; simpl.
  - apply find_Some_iff in Hf as [Hin _]. eauto.
  - destruct (last (control_opps m)) as [o|] eqn:Hl; [|by apply last_None in Hl].
    exists o. split; [done|]. apply last_Some in Hl as [l' ->]. set_solver.
Qed.
