(* ===== verification/Governor.v ===== *)
(** * Energy governor ([uperf-core/src/energy.rs], second part)

    Demand prediction, the adaptive sampler, the PL1/PL2 energy bucket, and
    [transition_governor]: one pure step over all CPU clusters. The step is
    split along the phases of the Rust function, in its order: [prepare],
    [apply_burst], [sync_budget_path], [charge_bucket],
    [adjust_reference_budget_cap], [budget_plan], [advance_ramp],
    [select_plan], [apply_reference_efficiency_limits], [commit]. *)

From Stdlib Require Import SpecFloat.
From S2P Require Import Prelude Float64 Domain Scene Frequency Load ConfigTypes Energy.

Definition finite_unit (v : f64) : f64 :=
  if f64_is_finite v then f64_clamp v f64_zero f64_one else f64_zero.

(** ** Demand *)

Record DemandDiagnostics := {
  dd_raw : f64;
  dd_ema : f64;
  dd_predicted : f64;
  dd_selected : f64;
  dd_prediction_bypassed_ramp : bool;
}.

Record DemandState := { previous_raw : f64; predicted_performance : f64 }.

Definition DemandState_default : DemandState :=
  {| previous_raw := f64_zero; predicted_performance := f64_zero |}.

Definition update_performance (d : DemandState) (raw previous_final_performance maximum_performance : f64)
    (config : GovernorConfig) : DemandState * DemandDiagnostics :=
  let raw := finite_unit raw in
  let maximum :=
    if f64_is_finite maximum_performance then f64_max maximum_performance f64_zero else f64_zero in
  let previous_final :=
    if f64_is_finite previous_final_performance
    then f64_clamp previous_final_performance f64_zero maximum else maximum in
  let performance_load := f64_mul raw previous_final in
  let alpha :=
    if f64_gt performance_load (predicted_performance d) then f64_lit 98 100 else f64_lit 97 100 in
  let predicted :=
    f64_mul_add alpha (predicted_performance d)
      (f64_mul (f64_sub f64_one alpha) performance_load) in
  let delta := f64_sub raw (previous_raw d) in
  let bypassed := f64_gt delta (predict_threshold config) in
  let selected :=
    f64_clamp
      (if bypassed && f64_gt predicted performance_load then predicted else performance_load)
      f64_zero maximum in
  let normalize p :=
    if f64_gt maximum f64_zero then finite_unit (f64_div p maximum) else f64_zero in
  ({| previous_raw := raw; predicted_performance := predicted |},
   {| dd_raw := raw; dd_ema := normalize predicted; dd_predicted := normalize predicted;
      dd_selected := normalize selected; dd_prediction_bypassed_ramp := bypassed |}).

(** [selected_performance.clamp(0.0, maximum_performance)] asserts its bounds. *)
Definition demand_clamp {E} (selected maximum : f64) : res f64 E :=
  do? assert_that (f64_le f64_zero maximum) in Ok (f64_clamp selected f64_zero maximum).

Definition limit_demand (selected maximum headroom growth : f64) : f64 :=
  f64_min (f64_min (f64_add selected (f64_mul (f64_sub maximum selected) headroom))
             (f64_mul selected (f64_max growth (f64_lit 11 10)))) maximum.

Definition reference_normal_demand_performance {E} (selected_performance maximum_performance margin : f64)
  : res f64 E :=
  let? selected := demand_clamp selected_performance maximum_performance in
  let margin := finite_unit margin in
  Ok (limit_demand selected maximum_performance margin (f64_mul (f64_of_Z 8) margin)).

Definition reference_burst_demand_performance {E}
    (selected_performance maximum_performance margin burst : f64) : res f64 E :=
  let? selected := demand_clamp selected_performance maximum_performance in
  let margin := finite_unit margin in
  let burst := finite_unit burst in
  Ok (limit_demand selected maximum_performance (f64_add margin burst)
        (f64_mul (f64_of_Z 8) (f64_add margin (f64_mul (f64_of_Z 4) burst)))).

(** ** Adaptive sampler *)

Inductive SamplingMode := Active | SampleIdle.
#[global] Instance SamplingMode_eq_dec : EqDecision SamplingMode.
Proof. solve_decision. Defined.

(** The sampler's only field is its mode. *)
Definition sampler_interval_ms (mode : SamplingMode) (config : GovernorConfig) : Z :=
  match mode with
  | Active => active_sample_ms config
  | SampleIdle => idle_sample_ms config
  end.

Definition sampler_update (mode : SamplingMode) (maximum_load : f64) (config : GovernorConfig)
  : SamplingMode * Z :=
  let load := finite_unit maximum_load in
  let mode' :=
    match mode with
    | SampleIdle => if f64_gt load (active_load_threshold config) then Active else SampleIdle
    | Active => if f64_lt load (idle_load_threshold config) then SampleIdle else Active
    end in
  (mode', sampler_interval_ms mode' config).

(** ** Energy bucket *)

Record EnergyBucketState := { capacity_mj : f64; remaining_mj : f64 }.

Definition EnergyBucketState_default : EnergyBucketState :=
  {| capacity_mj := f64_zero; remaining_mj := f64_zero |}.

Record EnergyBucketDiagnostics := {
  ebd_remaining_mj : f64;
  ebd_delta_mj : f64;
  ebd_selected_limit_power_mw : f64;
}.

Definition selected_limit (remaining : f64) (budget : PowerBudgetConfig) : f64 :=
  if f64_gt remaining f64_zero then f64_of_Z (fast_limit_power_mw budget)
  else f64_of_Z (slow_limit_power_mw budget).

Definition bucket_update (b : EnergyBucketState) (estimated_power_mw : f64) (actual_dt_ms : Z)
    (budget : PowerBudgetConfig) (integrate : bool) : EnergyBucketState * EnergyBucketDiagnostics :=
  let capacity := f64_of_Z (fast_limit_capacity_mj budget) in
  let remaining0 :=
    if f64_gt capacity (capacity_mj b) then capacity
    else f64_clamp (remaining_mj b) (f64_neg capacity) capacity in
  let delta :=
    if integrate then
      let d := f64_mul (f64_sub estimated_power_mw (f64_of_Z (slow_limit_power_mw budget)))
                 (millis_as_secs actual_dt_ms) in
      if f64_lt d f64_zero then f64_mul d (fast_limit_recover_scale budget) else d
    else f64_zero in
  let remaining :=
    if integrate then f64_clamp (f64_sub remaining0 delta) (f64_neg capacity) capacity
    else remaining0 in
  ({| capacity_mj := capacity; remaining_mj := remaining |},
   {| ebd_remaining_mj := remaining; ebd_delta_mj := delta;
      ebd_selected_limit_power_mw := selected_limit remaining budget |}).

Definition diagnostics_without_update (b : EnergyBucketState) (budget : PowerBudgetConfig)
  : EnergyBucketDiagnostics :=
  {| ebd_remaining_mj := remaining_mj b; ebd_delta_mj := f64_zero;
     ebd_selected_limit_power_mw := selected_limit (remaining_mj b) budget |}.

(** ** Governor state and input *)

Record CpuTargetPolicy := {
  cpus : CpuSet;
  frequency : FrequencyPolicy;
  energy_model : option EnergyModel;
}.

Record BudgetedOpp := { floor_hz : Hertz; cap_hz : Hertz }.

Record TargetGovernorState := {
  demand : DemandState;
  budget_cap_hz : option Hertz;
  last_limits : option FrequencyLimits;
  last_change_at : option MonotonicMillis;
}.

Definition TargetGovernorState_default : TargetGovernorState :=
  {| demand := DemandState_default; budget_cap_hz := None; last_limits := None;
     last_change_at := None |}.

Record PreparedTarget := {
  pt_id : string;
  pt_target : CpuTargetPolicy;
  pt_model : EnergyModel;
  pt_safety_cap : Hertz;
  pt_raw_load : f64;
  pt_active_load_sum : f64;
  pt_demand : DemandDiagnostics;
  pt_maximum_performance : f64;
  pt_effective_demand : f64;
  pt_demanded_performance : f64;
  pt_estimated_power_mw : f64;
}.

Record GovernorState := {
  targets : gmap string TargetGovernorState;
  bucket : EnergyBucketState;
  previous_timestamp : option MonotonicMillis;
  shared_ramp_elapsed_ms : Z;
  budget_cursor : option nat;
  budget_path_len : nat;
}.

Definition GovernorState_default : GovernorState :=
  {| targets := ∅; bucket := EnergyBucketState_default; previous_timestamp := None;
     shared_ramp_elapsed_ms := 0; budget_cursor := None; budget_path_len := 0 |}.

Record GovernorInput := {
  gi_timestamp : MonotonicMillis;
  gi_targets : gmap string CpuTargetPolicy;
  gi_raw_loads : gmap string f64;
  gi_active_load_sums : gmap string f64;
  gi_observed_frequencies : gmap string Hertz;
  gi_administrator_caps : gmap string Hertz;
  gi_thermal_caps : gmap string Hertz;
  gi_config : GovernorConfig;
  gi_power_budget : PowerBudgetConfig;
  gi_margin : f64;
  gi_burst : f64;
  gi_limit_efficiency : bool;
  gi_integrate_elapsed_time : bool;
}.

Record TargetGovernorDiagnostics := {
  td_raw_load : f64;
  td_active_load_sum : f64;
  td_ema_load : f64;
  td_predicted_load : f64;
  td_selected_load : f64;
  td_effective_demand : f64;
  td_prediction_bypassed_ramp : bool;
  td_estimated_power_mw : f64;
  td_requested_floor_hz : Hertz;
  td_selected_floor_hz : Hertz;
  td_selected_cap_hz : Hertz;
}.

Record GovernorDiagnostics := {
  gd_elapsed_ms : Z;
  gd_estimated_package_power_mw : f64;
  gd_bucket_remaining_mj : f64;
  gd_selected_package_budget_mw : f64;
  gd_bypassed_power_budget : bool;
  gd_shared_ramp_progress : f64;
  gd_targets : gmap string TargetGovernorDiagnostics;
}.

Record GovernorTransition := {
  gt_limits : gmap string FrequencyLimits;
  gt_next_state : GovernorState;
  gt_diagnostics : GovernorDiagnostics;
}.

Definition reference_concurrency_scale (core_count : f64) : f64 :=
  if f64_le core_count f64_zero then f64_zero
  else f64_div (f64_add f64_one (f64_mul (f64_lit 8 10) (f64_sub core_count f64_one))) core_count.

Definition reference_nr_cost_penalty (core_count : f64) : f64 :=
  f64_clamp (f64_add f64_one (f64_mul (f64_lit 1 10) (f64_sub core_count f64_one)))
    f64_one (f64_lit 12 10).

(** [targets.entry(id).or_default()] *)
Definition entry_or_default (ts : gmap string TargetGovernorState) (id : string)
  : TargetGovernorState := default TargetGovernorState_default (ts !! id).

Definition core_count_of (t : CpuTargetPolicy) : f64 := f64_of_Z (Z.of_nat (size (cpus t))).

(** ** Phase 1: prepare one target *)

Definition safety_cap_of (input : GovernorInput) (id : string) (target : CpuTargetPolicy) : Hertz :=
  lowest_cap (lim_max (hardware_limits (frequency target)))
    [gi_administrator_caps input !! id; gi_thermal_caps input !! id].

Definition divide_or_zero (n d : f64) : f64 :=
  if f64_gt d f64_zero then f64_div n d else f64_zero.

Definition prepare_target (input : GovernorInput) (id : string) (target : CpuTargetPolicy)
    (ts : TargetGovernorState) : res (TargetGovernorState * PreparedTarget) GovernorError :=
  do? map_err (InvalidFrequencyPolicy id) (validate (frequency target)) in
  let? model := ok_or (energy_model target) (MissingEnergyModel id) in
  let safety_cap := safety_cap_of input id target in
  let? maximum_opp := ok_or (opp_at_or_below model safety_cap) (NoOppBelowSafetyCap id) in
  let maximum := performance maximum_opp in
  let raw_load := finite_unit (default f64_zero (gi_raw_loads input !! id)) in
  let previous_final :=
    f64_min
      (map_or (l ← last_limits ts; opp_at_or_below model (lim_min l)) maximum performance)
      maximum in
  let '(demand', dd) :=
    update_performance (demand ts) raw_load previous_final maximum (gi_config input) in
  let selected := f64_mul maximum (dd_selected dd) in
  let? demanded := reference_normal_demand_performance selected maximum (gi_margin input) in
  let estimate_frequency :=
    unwrap_or (or_else (gi_observed_frequencies input !! id) (lim_min <$> last_limits ts))
      (floor (frequency target)) in
  let core_count := core_count_of target in
  let active_load_sum :=
    match gi_active_load_sums input !! id with
    | Some v =>
        if f64_is_finite v then f64_clamp v f64_zero core_count else f64_mul raw_load core_count
    | None => f64_mul raw_load core_count
    end in
  let estimated :=
    map_or (opp_at_or_below model estimate_frequency) f64_zero
      (fun o => f64_mul (f64_mul (power_mw_per_core o) active_load_sum)
                  (reference_concurrency_scale core_count)) in
  Ok ({| demand := demand'; budget_cap_hz := budget_cap_hz ts;
         last_limits := last_limits ts; last_change_at := last_change_at ts |},
      {| pt_id := id; pt_target := target; pt_model := model; pt_safety_cap := safety_cap;
         pt_raw_load := raw_load; pt_active_load_sum := active_load_sum; pt_demand := dd;
         pt_maximum_performance := maximum;
         pt_effective_demand := divide_or_zero demanded maximum;
         pt_demanded_performance := demanded; pt_estimated_power_mw := estimated |}).

(** The loop over targets in identifier order: target states, prepared
    targets, package power, and whether any prediction bypassed the ramp. *)
Definition prepare_step (input : GovernorInput)
    (acc : gmap string TargetGovernorState * list PreparedTarget * f64 * bool)
    (kv : string * CpuTargetPolicy)
  : res (gmap string TargetGovernorState * list PreparedTarget * f64 * bool) GovernorError :=
  let '(ts, prepared, power, bypass) := acc in
  let '(id, target) := kv in
  let? (t', p) := prepare_target input id target (entry_or_default ts id) in
  Ok (<[id := t']> ts, prepared ++ [p], f64_add power (pt_estimated_power_mw p),
      bypass || dd_prediction_bypassed_ramp (pt_demand p)).

Definition prepare (input : GovernorInput) (ts : gmap string TargetGovernorState)
  : res (gmap string TargetGovernorState * list PreparedTarget * f64 * bool) GovernorError :=
  res_foldM (prepare_step input) (ts, [], f64_zero, false) (entries (gi_targets input)).

(** ** Phase 2: burst

    Clusters ordered by performance per hertz ([total_cmp], then position);
    all but the first take the burst demand. *)

Definition perf_le (key : nat -> f64) (i j : nat) : Prop :=
  f64_total_lt (key i) (key j) \/ (f64_total_eq (key i) (key j) /\ (i <= j)%nat).

#[global] Instance perf_le_dec key i j : Decision (perf_le key i j).
Proof. unfold perf_le, f64_total_eq. apply _. Defined.

Definition performance_order (models : list EnergyModel) : list nat :=
  let key i := map_or (models !! i) f64_zero performance_per_hz in
  merge_sort (perf_le key) (seq 0 (length models)).

Definition set_demanded (p : PreparedTarget) (demanded : f64) : PreparedTarget :=
  {| pt_id := pt_id p; pt_target := pt_target p; pt_model := pt_model p;
     pt_safety_cap := pt_safety_cap p; pt_raw_load := pt_raw_load p;
     pt_active_load_sum := pt_active_load_sum p; pt_demand := pt_demand p;
     pt_maximum_performance := pt_maximum_performance p;
     pt_effective_demand := divide_or_zero demanded (pt_maximum_performance p);
     pt_demanded_performance := demanded; pt_estimated_power_mw := pt_estimated_power_mw p |}.

(** [prepared[index]] panics out of range. *)
Definition burst_at (margin burst : f64) (prepared : list PreparedTarget) (index : nat)
  : res (list PreparedTarget) GovernorError :=
  match prepared !! index with
  | None => Panic
  | Some p =>
      let selected := f64_mul (pt_maximum_performance p) (dd_selected (pt_demand p)) in
      let? demanded :=
        reference_burst_demand_performance selected (pt_maximum_performance p) margin burst in
      Ok (<[index := set_demanded p demanded]> prepared)
  end.

Definition apply_burst (input : GovernorInput) (prepared : list PreparedTarget)
  : res (list PreparedTarget) GovernorError :=
  if f64_gt (gi_burst input) f64_zero
  then res_foldM (burst_at (gi_margin input) (gi_burst input)) prepared
         (drop 1 (performance_order (pt_model <$> prepared)))
  else Ok prepared.

(** ** Phase 3: the global cap path *)

Record BudgetStep := {
  bs_key : f64;
  bs_cluster_index : nat;
  bs_lower_hz : Hertz;
  bs_upper_hz : Hertz;
}.

(** The comparator of [path.sort_by]. *)
Definition step_le (a b : BudgetStep) : Prop :=
  f64_total_lt (bs_key a) (bs_key b) \/
  (f64_total_eq (bs_key a) (bs_key b) /\
   ((bs_cluster_index a < bs_cluster_index b)%nat \/
    (bs_cluster_index a = bs_cluster_index b /\ bs_lower_hz a <= bs_lower_hz b))).

#[global] Instance step_le_dec a b : Decision (step_le a b).
Proof. unfold step_le, f64_total_eq. apply _. Defined.

(** [slice.windows(2)] *)
Definition pairs {A} (l : list A) : list (A * A) := zip l (tail l).

(** [iter().position(p).unwrap_or_else(|| len.saturating_sub(1))] *)
Definition position_or_last {A} (p : A -> bool) (l : list A) : nat :=
  match list_find (fun x => p x = true) l with
  | Some (i, _) => i
  | None => (length l - 1)%nat
  end.

Definition cluster_steps (cluster_index : nat) (p : PreparedTarget) : list BudgetStep :=
  let controls := control_opps (pt_model p) in
  let first :=
    position_or_last (fun o => plain_frequency_hz (pt_model p) <=? frequency_hz o) controls in
  let penalty := reference_nr_cost_penalty (core_count_of (pt_target p)) in
  (fun pair : EnergyOpp * EnergyOpp =>
     {| bs_key := f64_mul (power_mw_per_core pair.1) penalty;
        bs_cluster_index := cluster_index;
        bs_lower_hz := frequency_hz pair.1;
        bs_upper_hz := frequency_hz pair.2 |}) <$> pairs (drop first controls).

Definition reference_budget_path (prepared : list PreparedTarget) : list BudgetStep :=
  merge_sort step_le (mjoin (imap cluster_steps prepared)).

Definition with_cap (ts : TargetGovernorState) (cap : option Hertz) : TargetGovernorState :=
  {| demand := demand ts; budget_cap_hz := cap; last_limits := last_limits ts;
     last_change_at := last_change_at ts |}.

(** [targets.entry(id).or_default().budget_cap_hz = cap] *)
Definition set_budget_cap (ts : gmap string TargetGovernorState) (id : string) (cap : option Hertz)
  : gmap string TargetGovernorState := <[id := with_cap (entry_or_default ts id) cap]> ts.

Definition highest_control (m : EnergyModel) : option Hertz := frequency_hz <$> last (control_opps m).

(** A path of another length restarts the cursor at its end, with every cap
    at the top control point. *)
Definition sync_budget_path (prepared : list PreparedTarget) (path : list BudgetStep)
    (st : GovernorState) : GovernorState :=
  if bool_decide (budget_path_len st = length path) then st
  else
    {| targets :=
         foldl (fun ts p => set_budget_cap ts (pt_id p) (highest_control (pt_model p)))
           (targets st) prepared;
       bucket := bucket st;
       previous_timestamp := previous_timestamp st;
       shared_ramp_elapsed_ms := shared_ramp_elapsed_ms st;
       budget_cursor := if bool_decide (length path = 0)%nat then None else Some (length path - 1)%nat;
       budget_path_len := length path |}.

(** ** Phase 4: the energy bucket, frozen during a burst *)

Definition with_bucket (st : GovernorState) (b : EnergyBucketState) : GovernorState :=
  {| targets := targets st; bucket := b; previous_timestamp := previous_timestamp st;
     shared_ramp_elapsed_ms := shared_ramp_elapsed_ms st; budget_cursor := budget_cursor st;
     budget_path_len := budget_path_len st |}.

Definition charge_bucket (input : GovernorInput) (bypassed_power_budget : bool)
    (package_power : f64) (elapsed_ms : Z) (st : GovernorState)
  : GovernorState * EnergyBucketDiagnostics :=
  if bypassed_power_budget
  then (st, diagnostics_without_update (bucket st) (gi_power_budget input))
  else
    let '(b, d) :=
      bucket_update (bucket st) package_power elapsed_ms (gi_power_budget input)
        (gi_integrate_elapsed_time input) in
    (with_bucket st b, d).

Definition with_cursor (st : GovernorState) (ts : gmap string TargetGovernorState) (cursor : nat)
  : GovernorState :=
  {| targets := ts; bucket := bucket st; previous_timestamp := previous_timestamp st;
     shared_ramp_elapsed_ms := shared_ramp_elapsed_ms st; budget_cursor := Some cursor;
     budget_path_len := budget_path_len st |}.

(** At most one step of the path per call: down above 110% of the budget, up
    below 90%. [prepared[step.cluster_index]] panics out of range. *)
Definition adjust_reference_budget_cap (st : GovernorState) (prepared : list PreparedTarget)
    (path : list BudgetStep) (package_power budget_mw : f64) : res GovernorState GovernorError :=
  match budget_cursor st with
  | None => Ok st
  | Some cursor =>
      match path !! cursor with
      | None => Ok st
      | Some step =>
          match prepared !! bs_cluster_index step with
          | None => Panic
          | Some p =>
              if f64_gt package_power (f64_mul budget_mw (f64_lit 11 10)) then
                Ok (with_cursor st (set_budget_cap (targets st) (pt_id p) (Some (bs_lower_hz step)))
                      (cursor - 1))
              else if f64_lt package_power (f64_mul budget_mw (f64_lit 9 10)) then
                Ok (with_cursor st (set_budget_cap (targets st) (pt_id p) (Some (bs_upper_hz step)))
                      (if bool_decide (cursor + 1 < length path)%nat then cursor + 1 else cursor))
              else Ok st
          end
      end
  end.

(** ** Phase 5: demand under the caps *)

Definition previous_limits (ts : gmap string TargetGovernorState) (id : string)
  : option FrequencyLimits := t ← ts !! id; last_limits t.

Definition budget_plan (bypassed_power_budget : bool) (ts : gmap string TargetGovernorState)
    (p : PreparedTarget) : BudgetedOpp :=
  let demand_floor :=
    map_or (first_opp_meeting_performance (pt_model p) (pt_demanded_performance p))
      (floor (frequency (pt_target p))) frequency_hz in
  let feedback_cap :=
    unwrap_or (t ← ts !! pt_id p; budget_cap_hz t) (pt_safety_cap p) in
  let cap := if bypassed_power_budget then pt_safety_cap p else Z.min feedback_cap (pt_safety_cap p) in
  {| floor_hz := Z.min demand_floor cap; cap_hz := cap |}.

(** ** Phase 6: the shared ramp *)

Definition raises_cost (ts : gmap string TargetGovernorState) (pb : PreparedTarget * BudgetedOpp)
  : bool :=
  let '(p, plan) := pb in
  let previous :=
    map_or (previous_limits ts (pt_id p)) (floor (frequency (pt_target p))) lim_min in
  (sweet_frequency_hz (pt_model p) <? floor_hz plan) && (previous <? floor_hz plan).

Definition advance_ramp (config : GovernorConfig) (bypassed_ramp high_cost_increase : bool)
    (elapsed_ms ramp : Z) : Z :=
  if bypassed_ramp then ramp_latency_ms config
  else if high_cost_increase then Z.min (sat_add ramp elapsed_ms) (ramp_latency_ms config)
  else 0.

Definition ramp_progress (config : GovernorConfig) (ramp : Z) : f64 :=
  f64_clamp
    (if ramp_latency_ms config =? 0 then f64_one
     else f64_div (f64_of_Z ramp) (f64_of_Z (ramp_latency_ms config)))
    f64_zero f64_one.

Fixpoint take_while {A} (p : A -> bool) (l : list A) : list A :=
  match l with
  | [] => []
  | x :: l => if p x then x :: take_while p l else []
  end.

Definition ramp_limited_floor (model : EnergyModel) (requested_floor_hz cap_hz : Hertz)
    (progress : f64) : Hertz :=
  let controls := control_opps model in
  let sweet :=
    or_else (List.find (fun o => frequency_hz o <=? sweet_frequency_hz model) (rev controls))
      (head controls) in
  let maximum :=
    or_else (List.find (fun o => frequency_hz o <=? cap_hz) (rev controls)) (last controls) in
  match sweet, maximum with
  | Some sweet, Some maximum =>
      let power_span := f64_sub (power_mw_per_core maximum) (power_mw_per_core sweet) in
      if f64_le power_span f64_epsilon then Z.min requested_floor_hz cap_hz
      else
        map_or
          (last (List.filter (fun o =>
             (frequency_hz o <=? sweet_frequency_hz model)
             || f64_le (f64_div (f64_sub (power_mw_per_core o) (power_mw_per_core sweet)) power_span)
                  progress)
             (take_while (fun o => frequency_hz o <=? Z.min requested_floor_hz cap_hz) controls)))
          (Z.min (frequency_hz sweet) cap_hz) frequency_hz
  | _, _ => Z.min requested_floor_hz cap_hz
  end.

(** ** Phase 7: ramp and dwell select the floor *)

Definition select_plan (input : GovernorInput) (bypassed_ramp : bool) (progress : f64)
    (ts : gmap string TargetGovernorState) (p : PreparedTarget) (budgeted : BudgetedOpp)
  : BudgetedOpp :=
  let requested := floor_hz budgeted in
  let cap := cap_hz budgeted in
  let selected :=
    if bypassed_ramp || (requested <=? sweet_frequency_hz (pt_model p)) then requested
    else ramp_limited_floor (pt_model p) requested cap progress in
  let previous := previous_limits ts (pt_id p) in
  let safety_reduction := is_some_and previous (fun l => cap <? lim_max l) in
  let dwell_active :=
    is_some_and (t ← ts !! pt_id p; last_change_at t)
      (fun changed_at =>
         saturating_duration_since (gi_timestamp input) changed_at
           <? min_opp_residency_ms (gi_config input)) in
  let upward_change := is_some_and previous (fun l => lim_min l <? selected) in
  let selected :=
    if dwell_active && upward_change && negb safety_reduction && negb bypassed_ramp
    then map_or previous selected (fun l => Z.min (lim_min l) cap)
    else selected in
  {| floor_hz := Z.min selected cap; cap_hz := cap |}.

(** ** Phase 8: cross-cluster efficiency *)

Definition efficiency_cap_for (low high : EnergyModel) (high_floor : Hertz) : option Hertz :=
  high_opp ← or_else (opp_at_or_below high high_floor) (head (opps high));
  let high_cost := cost_mw_per_performance high_opp in
  cap ← or_else
          (List.find (fun o => f64_gt (cost_mw_per_performance o) high_cost) (control_opps low))
          (last (control_opps low));
  Some (Z.max (frequency_hz cap) (plain_frequency_hz low)).

Definition limit_plan (plan : BudgetedOpp) (cap : Hertz) : BudgetedOpp :=
  let cap := Z.min (cap_hz plan) cap in
  {| floor_hz := Z.min (floor_hz plan) cap; cap_hz := cap |}.

(** The slice accesses panic out of range. *)
Definition efficiency_step (models : list EnergyModel) (selected : list BudgetedOpp)
    (pair : nat * nat) : res (list BudgetedOpp) GovernorError :=
  let '(low, high) := pair in
  match models !! high, selected !! high, models !! low, selected !! low with
  | Some high_model, Some high_plan, Some low_model, Some low_plan =>
      Ok (map_or (efficiency_cap_for low_model high_model (floor_hz high_plan)) selected
            (fun cap => <[low := limit_plan low_plan cap]> selected))
  | _, _, _, _ => Panic
  end.

Definition apply_reference_efficiency_limits (models : list EnergyModel) (selected : list BudgetedOpp)
  : res (list BudgetedOpp) GovernorError :=
  res_foldM (efficiency_step models) selected (rev (pairs (performance_order models))).

(** ** Phase 9: commit *)

Definition target_diagnostics (p : PreparedTarget) (plan : BudgetedOpp) (requested : Hertz)
  : TargetGovernorDiagnostics :=
  {| td_raw_load := pt_raw_load p; td_active_load_sum := pt_active_load_sum p;
     td_ema_load := dd_ema (pt_demand p); td_predicted_load := dd_predicted (pt_demand p);
     td_selected_load := dd_selected (pt_demand p);
     td_effective_demand := pt_effective_demand p;
     td_prediction_bypassed_ramp := dd_prediction_bypassed_ramp (pt_demand p);
     td_estimated_power_mw := pt_estimated_power_mw p;
     td_requested_floor_hz := requested;
     td_selected_floor_hz := floor_hz plan;
     td_selected_cap_hz := cap_hz plan |}.

Definition commit_target (now : MonotonicMillis) (t : TargetGovernorState) (selected : FrequencyLimits)
  : TargetGovernorState :=
  {| demand := demand t; budget_cap_hz := budget_cap_hz t;
     last_limits := Some selected;
     last_change_at :=
       if bool_decide (last_limits t = Some selected) then last_change_at t else Some now |}.

Definition commit_step (now : MonotonicMillis)
    (acc : gmap string TargetGovernorState * gmap string FrequencyLimits
           * gmap string TargetGovernorDiagnostics)
    (row : PreparedTarget * BudgetedOpp * BudgetedOpp)
  : gmap string TargetGovernorState * gmap string FrequencyLimits
    * gmap string TargetGovernorDiagnostics :=
  let '(ts, limits, diags) := acc in
  let '(p, plan, requested) := row in
  let selected := {| lim_min := floor_hz plan; lim_max := cap_hz plan |} in
  (<[pt_id p := commit_target now (entry_or_default ts (pt_id p)) selected]> ts,
   <[pt_id p := selected]> limits,
   <[pt_id p := target_diagnostics p plan (floor_hz requested)]> diags).

Definition commit (now : MonotonicMillis) (ts : gmap string TargetGovernorState)
    (prepared : list PreparedTarget) (plans budgeted : list BudgetedOpp)
  : gmap string TargetGovernorState * gmap string FrequencyLimits
    * gmap string TargetGovernorDiagnostics :=
  foldl (commit_step now) (ts, ∅, ∅) (zip (zip prepared plans) budgeted).

(** ** The whole step *)

Definition transition_governor (state : GovernorState) (input : GovernorInput)
  : res GovernorTransition GovernorError :=
  let now := gi_timestamp input in
  let elapsed_ms := map_or (previous_timestamp state) 0 (saturating_duration_since now) in
  let? (ts, prepared, package_power, any_prediction_bypass) := prepare input (targets state) in
  let? prepared := apply_burst input prepared in
  let bypassed_power_budget := f64_gt (gi_burst input) f64_zero in
  let path := reference_budget_path prepared in
  let st :=
    sync_budget_path prepared path
      {| targets := ts; bucket := bucket state; previous_timestamp := Some now;
         shared_ramp_elapsed_ms := shared_ramp_elapsed_ms state;
         budget_cursor := budget_cursor state; budget_path_len := budget_path_len state |} in
  let '(st, bd) := charge_bucket input bypassed_power_budget package_power elapsed_ms st in
  let budget_mw :=
    if bypassed_power_budget then f64_infinity else ebd_selected_limit_power_mw bd in
  let? st :=
    if bypassed_power_budget then Ok st
    else adjust_reference_budget_cap st prepared path package_power budget_mw in
  let budgeted := budget_plan bypassed_power_budget (targets st) <$> prepared in
  let bypassed_ramp := bypassed_power_budget || any_prediction_bypass in
  let high_cost_increase := existsb (raises_cost (targets st)) (zip prepared budgeted) in
  let ramp :=
    advance_ramp (gi_config input) bypassed_ramp high_cost_increase elapsed_ms
      (shared_ramp_elapsed_ms st) in
  let progress := ramp_progress (gi_config input) ramp in
  let plans := zip_with (select_plan input bypassed_ramp progress (targets st)) prepared budgeted in
  let? plans :=
    if gi_limit_efficiency input
    then apply_reference_efficiency_limits (pt_model <$> prepared) plans
    else Ok plans in
  let '(ts, limits, diags) := commit now (targets st) prepared plans budgeted in
  Ok {| gt_limits := limits;
        gt_next_state :=
          {| targets := ts; bucket := bucket st; previous_timestamp := previous_timestamp st;
             shared_ramp_elapsed_ms := ramp; budget_cursor := budget_cursor st;
             budget_path_len := budget_path_len st |};
        gt_diagnostics :=
          {| gd_elapsed_ms := elapsed_ms; gd_estimated_package_power_mw := package_power;
             gd_bucket_remaining_mj := ebd_remaining_mj bd;
             gd_selected_package_budget_mw := budget_mw;
             gd_bypassed_power_budget := bypassed_power_budget;
             gd_shared_ramp_progress := progress;
             gd_targets := diags |} |}.
