(* ===== verification/GovernorFacts.v ===== *)
(** * Safety and behaviour of the energy governor

    Properties of [transition_governor]: every emitted limit lies under every
    safety cap whatever the loads, predictions, budget, ramp or dwell say; a
    burst waives the budget and nothing else; the budget cap walks the global
    path one step at a time; the ramp and the dwell hold what they promise. *)

From Stdlib Require Import SpecFloat.
From S2P Require Import Prelude Float64 Domain Scene Frequency Load ConfigTypes Energy Governor.

(** ** The prepared targets *)

(** A prepared target describes the input target it was made from. *)
Record prepared_ok (input : GovernorInput) (p : PreparedTarget) : Prop := {
  po_target : gi_targets input !! pt_id p = Some (pt_target p);
  po_model : energy_model (pt_target p) = Some (pt_model p);
  po_cap : pt_safety_cap p = safety_cap_of input (pt_id p) (pt_target p);
  po_valid : validate (frequency (pt_target p)) = Ok tt;
  po_opp : exists o, opp_at_or_below (pt_model p) (pt_safety_cap p) = Some o /\
    pt_maximum_performance p = performance o;
  po_demand : in_unit (dd_raw (pt_demand p)) /\ in_unit (dd_ema (pt_demand p)) /\
    in_unit (dd_predicted (pt_demand p)) /\ in_unit (dd_selected (pt_demand p));
}.

Lemma finite_unit_in_unit v : in_unit (finite_unit v).
Proof.
  unfold finite_unit. destruct (f64_is_finite v) eqn:Hv; [|apply in_unit_zero].
  apply f64_clamp_bounds; [by apply f64_finite_not_nan | done].
Qed.

(** The demand diagnostics are fractions whatever the loads are, NaN and
    infinities included. *)
Lemma update_performance_in_unit d raw previous maximum config :
  let dd := (update_performance d raw previous maximum config).2 in
  in_unit (dd_raw dd) /\ in_unit (dd_ema dd) /\ in_unit (dd_predicted dd) /\
  in_unit (dd_selected dd).
Proof.
  unfold update_performance. simpl.
  split_and!; [apply finite_unit_in_unit|..]; destruct (f64_lt f64_zero _);
    apply finite_unit_in_unit || apply in_unit_zero.
Qed.

Lemma prepare_target_Ok input id target ts t' p :
  gi_targets input !! id = Some target ->
  prepare_target input id target ts = Ok (t', p) ->
  prepared_ok input p /\ pt_id p = id /\ last_limits t' = last_limits ts /\
  last_change_at t' = last_change_at ts /\ budget_cap_hz t' = budget_cap_hz ts.
Proof.
  intros Hin. unfold prepare_target.
  intros ([] & Hv & (m & Hm%ok_or_Ok & (o & Ho%ok_or_Ok & H)%res_bind_Ok)%res_bind_Ok)%res_bind_Ok.
  match type of H with context [update_performance ?a ?b ?c ?d ?e] =>
    pose proof (update_performance_in_unit a b c d e) as Hu end.
  destruct (update_performance _ _ _ _ _) as [d dd].
  apply res_bind_Ok in H as (dem & _ & [= <- <-]). simpl in *.
  split_and!; try done. constructor; simpl; eauto.
  by destruct (validate (frequency target)) as [[]| |].
Qed.

(** The loop invariant of [prepare]: [l] is the part already prepared. *)
Definition prepare_inv (input : GovernorInput) (ts0 : gmap string TargetGovernorState)
    (acc : gmap string TargetGovernorState * list PreparedTarget * f64 * bool) : Prop :=
  let '(ts, prepared, _, bypass) := acc in
  bypass = existsb (fun p => dd_prediction_bypassed_ramp (pt_demand p)) prepared /\
  Forall (prepared_ok input) prepared /\
  (forall id, id ∈ (pt_id <$> prepared) -> is_Some (ts !! id)) /\
  (forall id, previous_limits ts id = previous_limits ts0 id) /\
  (forall id, (t ← ts !! id; last_change_at t) = (t ← ts0 !! id; last_change_at t)) /\
  (forall id, (t ← ts !! id; budget_cap_hz t) = (t ← ts0 !! id; budget_cap_hz t)).

Definition budget_cap (ts : gmap string TargetGovernorState) (id : string) : option Hertz :=
  t ← ts !! id; budget_cap_hz t.

(** A field whose default is [None] is read through an insertion that keeps
    it as if nothing was inserted. *)
Lemma field_insert {A} (f : TargetGovernorState -> option A) ts id t' id' :
  f TargetGovernorState_default = None -> f t' = f (entry_or_default ts id) ->
  (t ← <[id := t']> ts !! id'; f t) = (t ← ts !! id'; f t).
Proof.
  intros Hd Ht. destruct (decide (id = id')) as [<-|Hne].
  - rewrite lookup_insert, decide_True by done. simpl. rewrite Ht.
    unfold entry_or_default. by destruct (ts !! id).
  - by rewrite lookup_insert_ne by done.
Qed.

Lemma previous_limits_insert ts id t' id' :
  last_limits t' = last_limits (entry_or_default ts id) ->
  previous_limits (<[id := t']> ts) id' = previous_limits ts id'.
Proof. by apply (field_insert last_limits). Qed.

Lemma budget_cap_insert ts id t' id' :
  budget_cap_hz t' = budget_cap_hz (entry_or_default ts id) ->
  budget_cap (<[id := t']> ts) id' = budget_cap ts id'.
Proof. by apply (field_insert budget_cap_hz). Qed.

Lemma prepare_step_inv input ts0 acc kv acc' :
  kv ∈ entries (gi_targets input) ->
  prepare_inv input ts0 acc -> prepare_step input acc kv = Ok acc' ->
  prepare_inv input ts0 acc'.
Proof.
  destruct acc as [[[ts prepared] power] bypass], kv as [id target].
  intros Hin%elem_of_entries (-> & Hok & Hdom & Hprev & Hchange & Hcap). unfold prepare_step.
  intros ([t' p] & Hp & [= <-])%res_bind_Ok.
  apply prepare_target_Ok in Hp as (Hpo & Hid & Hl & Hc & Hb); [|done].
  unfold prepare_inv. split_and!.
  - rewrite existsb_app. simpl. by rewrite orb_false_r.
  - apply Forall_app. by split; [|constructor].
  - intros id'. rewrite fmap_app, elem_of_app. simpl. rewrite list_elem_of_singleton, Hid.
    destruct (decide (id = id')) as [<-|Hne].
    + intros _. rewrite lookup_insert, decide_True by done. eauto.
    + intros [H|H]; [|congruence]. rewrite lookup_insert_ne by done. by apply Hdom.
  - intros id'. rewrite previous_limits_insert by done. apply Hprev.
  - intros id'. rewrite (field_insert last_change_at) by done. apply Hchange.
  - intros id'. rewrite (field_insert budget_cap_hz) by done. apply Hcap.
Qed.

Lemma prepare_ids input : forall l acc acc',
  res_foldM (prepare_step input) acc l = Ok acc' ->
  pt_id <$> acc'.1.1.2 = (pt_id <$> acc.1.1.2) ++ l.*1.
Proof.
  induction l as [|[id target] l IH]; intros acc acc'; simpl.
  - intros [= <-]. by rewrite app_nil_r.
  - intros (acc1 & H1 & H2)%res_bind_Ok. apply IH in H2. rewrite H2. clear H2 IH.
    destruct acc as [[[ts prepared] power] bypass]. unfold prepare_step in H1.
    apply res_bind_Ok in H1 as ([t' p] & Hp & [= <-]). simpl.
    rewrite fmap_app, <- app_assoc. simpl. do 2 f_equal.
    unfold prepare_target in Hp.
    apply res_bind_Ok in Hp as ([] & _ & (m & _ & (o & _ & H)%res_bind_Ok)%res_bind_Ok).
    destruct (update_performance _ _ _ _ _) as [d dd].
    by apply res_bind_Ok in H as (dem & _ & [= <- <-]).
Qed.

Lemma prepare_spec input ts0 ts prepared power bypass :
  prepare input ts0 = Ok (ts, prepared, power, bypass) ->
  Forall (prepared_ok input) prepared /\
  pt_id <$> prepared = keys (gi_targets input) /\
  (forall id, previous_limits ts id = previous_limits ts0 id) /\
  (forall id, (t ← ts !! id; last_change_at t) = (t ← ts0 !! id; last_change_at t)) /\
  (forall id, budget_cap ts id = budget_cap ts0 id) /\
  bypass = existsb (fun p => dd_prediction_bypassed_ramp (pt_demand p)) prepared.
Proof.
  intros Hp. pose proof (prepare_ids _ _ _ _ Hp) as Hids. simpl in Hids.
  enough (prepare_inv input ts0 (ts, prepared, power, bypass)) as (H0 & H1 & H2 & H3 & H4 & H5)
    by done.
  eapply res_foldM_inv; [| |exact Hp].
  - split_and!; [done | by apply Forall_nil_2 | set_solver | done..].
  - intros. by eapply prepare_step_inv.
Qed.

(** ** Burst *)

(** Two preparations of one target that differ in demand only. *)
Definition same_target (p q : PreparedTarget) : Prop :=
  pt_id p = pt_id q /\ pt_target p = pt_target q /\ pt_model p = pt_model q /\
  pt_safety_cap p = pt_safety_cap q /\ pt_maximum_performance p = pt_maximum_performance q /\
  pt_demand p = pt_demand q.

Lemma same_target_ok input p q : same_target p q -> prepared_ok input p -> prepared_ok input q.
Proof. 
  intros (H1 & H2 & H3 & H4 & H5 & H6) [].
  constructor; rewrite <- ?H1, <- ?H2, <- ?H3, <- ?H4, <- ?H5, <- ?H6; done.
Qed.

Lemma Forall2_insert_right {A B} (R : A -> B -> Prop) l k i x :
  Forall2 R l k -> (forall a b, k !! i = Some b -> l !! i = Some a -> R a b -> R a x) ->
  Forall2 R l (<[i := x]> k).
Proof.
  intros H Hx. apply Forall2_same_length_lookup. split.
  - by rewrite length_insert, (Forall2_length _ _ _ H).
  - intros j a b Ha Hb. destruct (decide (i = j)) as [->|Hne].
    + destruct (Forall2_lookup_l _ _ _ _ _ H Ha) as (b' & Hb' & HR).
      rewrite list_lookup_insert, decide_True in Hb by (split; [done|by eapply lookup_lt_Some]).
      injection Hb as <-. eauto.
    + rewrite list_lookup_insert_ne in Hb by done. by eapply Forall2_lookup_lr.
Qed.

Lemma apply_burst_same input prepared prepared' :
  apply_burst input prepared = Ok prepared' -> Forall2 same_target prepared prepared'.
Proof.
  unfold apply_burst. assert (Forall2 same_target prepared prepared) as Hrefl.
  { apply Forall_Forall2_diag, Forall_forall. by intros. }
  destruct (f64_gt _ _); [|by intros [= <-]].
  apply res_foldM_inv; [done|]. intros s i s' _ Hs. unfold burst_at.
  destruct (s !! i) as [p|] eqn:Hp; [|done].
  intros (d & _ & [= <-])%res_bind_Ok. apply Forall2_insert_right; [done|].
  intros a b Hb Ha HR. assert (b = p) as -> by congruence. by destruct HR as (? & ? & ? & ? & ? & ?).
Qed.

Lemma same_target_ids l k : Forall2 same_target l k -> pt_id <$> l = pt_id <$> k.
Proof. induction 1 as [|p q l k (H & _) ? IH]; [done|]. rewrite !fmap_cons. by f_equal. Qed.

Lemma same_target_models l k : Forall2 same_target l k -> pt_model <$> l = pt_model <$> k.
Proof. induction 1 as [|p q l k (_ & _ & H & _) ? IH]; [done|]. rewrite !fmap_cons. by f_equal. Qed.

Lemma same_target_Forall_ok input l k :
  Forall2 same_target l k -> Forall (prepared_ok input) l -> Forall (prepared_ok input) k.
Proof.
  induction 1; intros Hl; [constructor|]. apply Forall_cons in Hl as [Hx Hl].
  constructor; [by eapply same_target_ok | auto].
Qed.

(** ** Plans stay under the safety cap *)

Definition plan_ok (p : PreparedTarget) (plan : BudgetedOpp) : Prop :=
  floor_hz plan <= cap_hz plan /\ cap_hz plan <= pt_safety_cap p.

Lemma budget_plan_ok b ts p : plan_ok p (budget_plan b ts p).
Proof. unfold plan_ok, budget_plan. simpl. destruct b; lia. Qed.

Lemma select_plan_cap input b progress ts p plan :
  cap_hz (select_plan input b progress ts p plan) = cap_hz plan.
Proof. done. Qed.

Lemma select_plan_ok input b progress ts p plan :
  plan_ok p plan -> plan_ok p (select_plan input b progress ts p plan).
Proof. unfold plan_ok. rewrite select_plan_cap. unfold select_plan. simpl. lia. Qed.

Lemma limit_plan_ok p plan cap : plan_ok p plan -> plan_ok p (limit_plan plan cap).
Proof. unfold plan_ok, limit_plan. simpl. lia. Qed.

(** Whatever survives a lowered cap survives the efficiency rule. *)
Lemma efficiency_limits_rel {A} (R : A -> BudgetedOpp -> Prop) (l : list A) models plans plans' :
  (forall a plan cap, R a plan -> R a (limit_plan plan cap)) ->
  Forall2 R l plans -> apply_reference_efficiency_limits models plans = Ok plans' ->
  Forall2 R l plans'.
Proof.
  intros HR Hp. unfold apply_reference_efficiency_limits.
  apply res_foldM_inv; [done|]. intros s [low high] s' _ Hs. unfold efficiency_step.
  destruct (models !! high), (s !! high), (models !! low), (s !! low) as [plan|] eqn:Hl; try done.
  intros [= <-]. destruct (efficiency_cap_for _ _ _); simpl; [|done].
  apply Forall2_insert_right; [done|]. intros a b' Hb Ha Hab.
  assert (b' = plan) as -> by congruence. by apply HR.
Qed.

Definition lowered (before after : BudgetedOpp) : Prop :=
  floor_hz after <= floor_hz before /\ cap_hz after <= cap_hz before.

(** ** Commit *)

(** What one committed row establishes and later rows keep: limits, next
    state and diagnostics agree, and every limit belongs to a row. *)
Definition committed (now : MonotonicMillis) (rows : list (PreparedTarget * BudgetedOpp * BudgetedOpp))
    (acc : gmap string TargetGovernorState * gmap string FrequencyLimits
           * gmap string TargetGovernorDiagnostics) : Prop :=
  let '(ts, limits, diags) := acc in
  (forall id l, limits !! id = Some l ->
     previous_limits ts id = Some l /\
     exists p plan requested, (p, plan, requested) ∈ rows /\ pt_id p = id /\
       l = {| lim_min := floor_hz plan; lim_max := cap_hz plan |} /\
       diags !! id = Some (target_diagnostics p plan (floor_hz requested))) /\
  (forall p plan requested, (p, plan, requested) ∈ rows -> is_Some (limits !! pt_id p)).

Lemma commit_spec now ts rows :
  committed now rows (foldl (commit_step now) (ts, ∅, ∅) rows).
Proof.
  induction rows as [|[[p plan] requested] rows IH] using rev_ind.
  - split; [by intros id l; rewrite lookup_empty | set_solver].
  - rewrite foldl_app. simpl. destruct (foldl _ _ rows) as [[ts' limits] diags].
    destruct IH as [IH1 IH2]. split.
    + intros id l. unfold previous_limits. destruct (decide (pt_id p = id)) as [<-|Hne].
      * rewrite !lookup_insert, !decide_True by done. intros [= <-]. split; [done|].
        exists p, plan, requested. split_and!; try done. set_solver.
      * rewrite !lookup_insert_ne by done. intros (Hl & p' & plan' & r' & Hin & H)%IH1.
        split; [done|]. exists p', plan', r'. split; [set_solver | done].
    + intros p' plan' r' Hin. destruct (decide (pt_id p = pt_id p')) as [->|Hne].
      * rewrite lookup_insert, decide_True by done. eauto.
      * rewrite lookup_insert_ne by done. apply (IH2 p' plan' r').
        apply elem_of_app in Hin as [Hin|Hin%list_elem_of_singleton]; congruence.
Qed.

Lemma commit_keeps_caps now ts rows id :
  budget_cap (foldl (commit_step now) (ts, ∅, ∅) rows).1.1 id = budget_cap ts id.
Proof.
  induction rows as [|[[p plan] requested] rows IH] using rev_ind; [done|].
  rewrite foldl_app. simpl. destruct (foldl _ _ rows) as [[ts' limits] diags]. simpl in *.
  rewrite <- IH. by apply budget_cap_insert.
Qed.

(** ** The phases of one transition *)

(** The values computed on the way to a successful transition. *)
Record phases (state : GovernorState) (input : GovernorInput) (t : GovernorTransition) := {
  ph_targets : gmap string TargetGovernorState;
  ph_prepared0 : list PreparedTarget;
  ph_prepared : list PreparedTarget;
  ph_power : f64;
  ph_bypass : bool;
  ph_charged : GovernorState;
  ph_state : GovernorState;
  ph_plans : list BudgetedOpp;
}.
Arguments ph_targets {_ _ _} _.
Arguments ph_prepared0 {_ _ _} _.
Arguments ph_prepared {_ _ _} _.
Arguments ph_power {_ _ _} _.
Arguments ph_bypass {_ _ _} _.
Arguments ph_charged {_ _ _} _.
Arguments ph_state {_ _ _} _.
Arguments ph_plans {_ _ _} _.

Definition is_burst (input : GovernorInput) : bool := f64_gt (gi_burst input) f64_zero.

Definition elapsed_of (state : GovernorState) (input : GovernorInput) : Z :=
  map_or (previous_timestamp state) 0 (saturating_duration_since (gi_timestamp input)).

Definition started (state : GovernorState) (input : GovernorInput)
    (ts : gmap string TargetGovernorState) : GovernorState :=
  {| targets := ts; bucket := bucket state; previous_timestamp := Some (gi_timestamp input);
     shared_ramp_elapsed_ms := shared_ramp_elapsed_ms state;
     budget_cursor := budget_cursor state; budget_path_len := budget_path_len state |}.

Section phase_terms.
Context {state : GovernorState} {input : GovernorInput} {t : GovernorTransition}.
Context (ph : phases state input t).

Definition ph_path : list BudgetStep := reference_budget_path (ph_prepared ph).
Definition ph_synced : GovernorState :=
  sync_budget_path (ph_prepared ph) ph_path (started state input (ph_targets ph)).
Definition ph_charge : GovernorState * EnergyBucketDiagnostics :=
  charge_bucket input (is_burst input) (ph_power ph) (elapsed_of state input) ph_synced.
Definition ph_budget_mw : f64 :=
  if is_burst input then f64_infinity else ebd_selected_limit_power_mw ph_charge.2.
Definition ph_budgeted : list BudgetedOpp :=
  budget_plan (is_burst input) (targets (ph_state ph)) <$> ph_prepared ph.
Definition ph_bypassed_ramp : bool := is_burst input || ph_bypass ph.
Definition ph_ramp : Z :=
  advance_ramp (gi_config input) ph_bypassed_ramp
    (existsb (raises_cost (targets (ph_state ph))) (zip (ph_prepared ph) ph_budgeted))
    (elapsed_of state input) (shared_ramp_elapsed_ms (ph_state ph)).
Definition ph_selected : list BudgetedOpp :=
  zip_with (select_plan input ph_bypassed_ramp (ramp_progress (gi_config input) ph_ramp)
              (targets (ph_state ph))) (ph_prepared ph) ph_budgeted.
Definition ph_rows : list (PreparedTarget * BudgetedOpp * BudgetedOpp) :=
  zip (zip (ph_prepared ph) (ph_plans ph)) ph_budgeted.

(** The equations that tie the phases together. *)
Definition phases_ok : Prop :=
  prepare input (targets state) = Ok (ph_targets ph, ph_prepared0 ph, ph_power ph, ph_bypass ph) /\
  apply_burst input (ph_prepared0 ph) = Ok (ph_prepared ph) /\
  ph_charged ph = ph_charge.1 /\
  (if is_burst input then Ok (ph_charged ph)
   else adjust_reference_budget_cap (ph_charged ph) (ph_prepared ph) ph_path
          (ph_power ph) ph_budget_mw) = Ok (ph_state ph) /\
  (if gi_limit_efficiency input
   then apply_reference_efficiency_limits (pt_model <$> ph_prepared ph) ph_selected
   else Ok ph_selected) = Ok (ph_plans ph) /\
  let '(ts, limits, diags) :=
    foldl (commit_step (gi_timestamp input)) (targets (ph_state ph), ∅, ∅) ph_rows in
  t = {| gt_limits := limits;
         gt_next_state :=
           {| targets := ts; bucket := bucket (ph_state ph);
              previous_timestamp := previous_timestamp (ph_state ph);
              shared_ramp_elapsed_ms := ph_ramp; budget_cursor := budget_cursor (ph_state ph);
              budget_path_len := budget_path_len (ph_state ph) |};
         gt_diagnostics :=
           {| gd_elapsed_ms := elapsed_of state input;
              gd_estimated_package_power_mw := ph_power ph;
              gd_bucket_remaining_mj := ebd_remaining_mj ph_charge.2;
              gd_selected_package_budget_mw := ph_budget_mw;
              gd_bypassed_power_budget := is_burst input;
              gd_shared_ramp_progress := ramp_progress (gi_config input) ph_ramp;
              gd_targets := diags |} |}.
End phase_terms.

Lemma transition_phases state input t :
  transition_governor state input = Ok t -> exists ph : phases state input t, phases_ok ph.
Proof.
  unfold transition_governor. intros ([[[ts prepared] power] bypass] & Hp & H)%res_bind_Ok.
  apply res_bind_Ok in H as (burst & Hb & H).
  destruct (charge_bucket _ _ _ _ _) as [charged bd] eqn:Hc.
  apply res_bind_Ok in H as (st & Hst & (plans & Hpl & H)%res_bind_Ok).
  unshelve eexists.
  { exact {| ph_targets := ts; ph_prepared0 := prepared; ph_prepared := burst; ph_power := power;
             ph_bypass := bypass; ph_charged := charged; ph_state := st; ph_plans := plans |}. }
  unfold phases_ok, ph_budget_mw, ph_charge, ph_synced, ph_path, is_burst, elapsed_of, started.
  simpl. unfold saturating_duration_since in *. rewrite Hc. simpl. split_and!; try done.
  unfold commit in H. destruct (foldl _ _ _) as [[ts' limits] diags] eqn:Hf in H.
  unfold ph_rows, ph_budgeted, is_burst. simpl. rewrite Hf. by injection H as <-.
Qed.

(** ** What holds of every phase *)

Section phase_facts.
Context {state : GovernorState} {input : GovernorInput} {t : GovernorTransition}.
Context (ph : phases state input t) (Hph : phases_ok ph).

Lemma ph_prepared_ok : Forall (prepared_ok input) (ph_prepared ph).
Proof using Hph.
  destruct Hph as (Hp & Hb & _). apply prepare_spec in Hp as (Hok & _).
  by eapply same_target_Forall_ok, Hok; eapply apply_burst_same.
Qed.

Lemma ph_ids : pt_id <$> ph_prepared ph = keys (gi_targets input).
Proof using Hph.
  destruct Hph as (Hp & Hb & _). apply prepare_spec in Hp as (_ & <- & _).
  symmetry. by eapply same_target_ids, apply_burst_same.
Qed.

(** The budget phases and what they leave alone. *)
Lemma adjust_keeps st prepared path power budget st' :
  adjust_reference_budget_cap st prepared path power budget = Ok st' ->
  previous_timestamp st' = previous_timestamp st /\ bucket st' = bucket st /\
  shared_ramp_elapsed_ms st' = shared_ramp_elapsed_ms st /\
  budget_path_len st' = budget_path_len st /\
  (forall id, previous_limits (targets st') id = previous_limits (targets st) id) /\
  (forall id, (t ← targets st' !! id; last_change_at t) = (t ← targets st !! id; last_change_at t)).
Proof using.
  unfold adjust_reference_budget_cap.
  destruct (budget_cursor _) as [c|]; [|by intros [= <-]].
  destruct (path !! c); [|by intros [= <-]].
  destruct (prepared !! _); [|done].
  destruct (f64_gt _ _); [|destruct (f64_lt _ _)]; intros [= <-]; try done.
  all: split_and!; try done; intros id; simpl; unfold set_budget_cap.
  all: try by apply previous_limits_insert.
  all: by apply (field_insert last_change_at).
Qed.

Lemma sync_keeps prepared path st :
  let st' := sync_budget_path prepared path st in
  previous_timestamp st' = previous_timestamp st /\ bucket st' = bucket st /\
  shared_ramp_elapsed_ms st' = shared_ramp_elapsed_ms st /\
  budget_path_len st' = length path /\
  (forall id, previous_limits (targets st') id = previous_limits (targets st) id) /\
  (forall id, (t ← targets st' !! id; last_change_at t) = (t ← targets st !! id; last_change_at t)).
Proof using.
  unfold sync_budget_path. destruct (bool_decide_reflect (budget_path_len st = length path)); [done|].
  simpl. split_and!; try done; intros id; generalize (targets st) as ts;
    induction prepared as [|p prepared IH]; intros ts; simpl; try done; rewrite IH; unfold set_budget_cap.
  - by apply previous_limits_insert.
  - by apply (field_insert last_change_at).
Qed.

Lemma charge_keeps b power elapsed st :
  let st' := (charge_bucket input b power elapsed st).1 in
  previous_timestamp st' = previous_timestamp st /\ targets st' = targets st /\
  shared_ramp_elapsed_ms st' = shared_ramp_elapsed_ms st /\
  budget_path_len st' = budget_path_len st /\ budget_cursor st' = budget_cursor st.
Proof using.
  unfold charge_bucket. destruct b; [done|]. by destruct (bucket_update _ _ _ _ _).
Qed.

Lemma ph_kept :
  previous_timestamp (ph_state ph) = Some (gi_timestamp input) /\
  bucket (ph_state ph) = bucket (ph_charged ph) /\
  shared_ramp_elapsed_ms (ph_state ph) = shared_ramp_elapsed_ms state /\
  budget_path_len (ph_state ph) = length (ph_path ph) /\
  (forall id, previous_limits (targets (ph_state ph)) id = previous_limits (targets state) id) /\
  (forall id, (t ← targets (ph_state ph) !! id; last_change_at t)
              = (t ← targets state !! id; last_change_at t)).
Proof using Hph.
  destruct Hph as (Hp & _ & Hc & Hadj & _).
  apply prepare_spec in Hp as (_ & _ & Hprev & Hch & _).
  pose proof (sync_keeps (ph_prepared ph) (ph_path ph) (started state input (ph_targets ph)))
    as (S1 & S2 & S3 & S4 & S5 & S6).
  pose proof (charge_keeps (is_burst input) (ph_power ph) (elapsed_of state input) (ph_synced ph))
    as (C1 & C2 & C3 & C4 & C5).
  fold (ph_charge ph) in C1, C2, C3, C4, C5. rewrite <- Hc in C1, C2, C3, C4, C5.
  fold (ph_synced ph) in S1, S2, S3, S4, S5, S6. rewrite <- C2 in S5, S6. simpl in *.
  destruct (is_burst input).
  - injection Hadj as <-. split_and!; try congruence; intros id; rewrite ?S5, ?S6; auto.
  - apply adjust_keeps in Hadj as (A1 & A2 & A3 & A4 & A5 & A6).
    split_and!; try congruence; intros id; rewrite ?A5, ?A6, ?S5, ?S6; auto.
Qed.

Lemma ph_timestamp : previous_timestamp (ph_state ph) = Some (gi_timestamp input).
Proof using Hph. by destruct ph_kept. Qed.

Lemma ph_budgeted_ok : Forall2 plan_ok (ph_prepared ph) (ph_budgeted ph).
Proof using.
  unfold ph_budgeted. generalize (targets (ph_state ph)) as ts. intros ts.
  induction (ph_prepared ph); constructor; [apply budget_plan_ok | done].
Qed.

Lemma ph_selected_ok : Forall2 plan_ok (ph_prepared ph) (ph_selected ph).
Proof using.
  unfold ph_selected. set (f := select_plan _ _ _ _). induction ph_budgeted_ok; constructor.
  - by apply select_plan_ok.
  - done.
Qed.

Lemma ph_plans_ok : Forall2 plan_ok (ph_prepared ph) (ph_plans ph).
Proof using Hph.
  destruct Hph as (_ & _ & _ & _ & Hpl & _). destruct (gi_limit_efficiency input).
  - eapply efficiency_limits_rel, Hpl; [apply limit_plan_ok | apply ph_selected_ok].
  - injection Hpl as <-. apply ph_selected_ok.
Qed.

Lemma ph_plans_lowered : Forall2 lowered (ph_selected ph) (ph_plans ph).
Proof using Hph.
  destruct Hph as (_ & _ & _ & _ & Hpl & _).
  assert (Hrefl : Forall2 lowered (ph_selected ph) (ph_selected ph)).
  { apply Forall_Forall2_diag, Forall_forall. by intros. }
  destruct (gi_limit_efficiency input); [|by injection Hpl as <-].
  eapply efficiency_limits_rel, Hpl; [|done].
  unfold lowered, limit_plan. intros a plan cap [H1 H2]. simpl. lia.
Qed.

Lemma ph_row p plan requested :
  (p, plan, requested) ∈ ph_rows ph ->
  prepared_ok input p /\ plan_ok p plan /\
  exists i, ph_prepared ph !! i = Some p /\ ph_plans ph !! i = Some plan /\
    ph_budgeted ph !! i = Some requested.
Proof using Hph.
  unfold ph_rows. intros (i & Hi)%list_elem_of_lookup.
  apply lookup_zip_with_Some in Hi as (pp & r & [= <- <-] & Hi & Hr).
  apply lookup_zip_with_Some in Hi as (p' & plan' & [= <- <-] & Hp & Hplan).
  split_and!.
  - eapply Forall_lookup_1, Hp. apply ph_prepared_ok.
  - eapply Forall2_lookup_lr; [apply ph_plans_ok | done..].
  - eauto.
Qed.

Lemma ph_prepared_row i p :
  ph_prepared ph !! i = Some p -> exists plan requested, (p, plan, requested) ∈ ph_rows ph /\
    ph_plans ph !! i = Some plan /\ ph_budgeted ph !! i = Some requested.
Proof using Hph.
  intros Hp. destruct (Forall2_lookup_l _ _ _ _ _ ph_plans_ok Hp) as (plan & Hplan & _).
  destruct (Forall2_lookup_l _ _ _ _ _ ph_budgeted_ok Hp) as (r & Hr & _).
  exists plan, r. split; [|done]. apply list_elem_of_lookup. exists i.
  apply lookup_zip_with_Some. exists (p, plan), r. split_and!; [done| |done].
  apply lookup_zip_with_Some. eauto.
Qed.

(** The parts of the result that the last phase only copies. *)
Lemma ph_next :
  previous_timestamp (gt_next_state t) = previous_timestamp (ph_state ph) /\
  bucket (gt_next_state t) = bucket (ph_state ph) /\
  shared_ramp_elapsed_ms (gt_next_state t) = ph_ramp ph /\
  budget_cursor (gt_next_state t) = budget_cursor (ph_state ph) /\
  budget_path_len (gt_next_state t) = budget_path_len (ph_state ph) /\
  (forall id, budget_cap (targets (gt_next_state t)) id = budget_cap (targets (ph_state ph)) id) /\
  gd_estimated_package_power_mw (gt_diagnostics t) = ph_power ph /\
  gd_selected_package_budget_mw (gt_diagnostics t) = ph_budget_mw ph /\
  gd_bypassed_power_budget (gt_diagnostics t) = is_burst input /\
  gd_shared_ramp_progress (gt_diagnostics t) = ramp_progress (gi_config input) (ph_ramp ph) /\
  gd_bucket_remaining_mj (gt_diagnostics t) = ebd_remaining_mj (ph_charge ph).2.
Proof using Hph.
  destruct Hph as (_ & _ & _ & _ & _ & Ht).
  pose proof (commit_keeps_caps (gi_timestamp input) (targets (ph_state ph)) (ph_rows ph)) as Hc.
  destruct (foldl _ _ _) as [[ts limits] diags].
  pose proof (f_equal gt_next_state Ht) as E1. pose proof (f_equal gt_diagnostics Ht) as E2.
  simpl in *. rewrite E1, E2. by split_and!.
Qed.

Lemma ph_committed :
  committed (gi_timestamp input) (ph_rows ph)
    (targets (gt_next_state t), gt_limits t, gd_targets (gt_diagnostics t)).
Proof using Hph.
  destruct Hph as (_ & _ & _ & _ & _ & Ht).
  pose proof (commit_spec (gi_timestamp input) (targets (ph_state ph)) (ph_rows ph)) as Hc.
  destruct (foldl _ _ _) as [[ts limits] diags].
  pose proof (f_equal gt_limits Ht) as E1. pose proof (f_equal gt_next_state Ht) as E2.
  pose proof (f_equal gt_diagnostics Ht) as E3. simpl in *. by rewrite E1, E2, E3.
Qed.

(** What an emitted limit comes from. *)
Lemma ph_emitted id l :
  gt_limits t !! id = Some l ->
  previous_limits (targets (gt_next_state t)) id = Some l /\
  exists i p plan requested,
    pt_id p = id /\ prepared_ok input p /\ plan_ok p plan /\
    l = {| lim_min := floor_hz plan; lim_max := cap_hz plan |} /\
    gd_targets (gt_diagnostics t) !! id = Some (target_diagnostics p plan (floor_hz requested)) /\
    ph_prepared ph !! i = Some p /\ ph_plans ph !! i = Some plan /\
    ph_budgeted ph !! i = Some requested.
Proof using Hph.
  intros Hl. destruct ph_committed as [Hc _]. destruct (Hc id l Hl) as (Hprev & p & plan & r & Hin & Hid & -> & Hd).
  split; [done|]. destruct (ph_row p plan r Hin) as (Hpo & Hplan & i & H1 & H2 & H3).
  exists i, p, plan, r. by split_and!.
Qed.

Lemma ph_bypass_spec :
  ph_bypass ph = existsb (fun p => dd_prediction_bypassed_ramp (pt_demand p)) (ph_prepared ph).
Proof using Hph.
  destruct Hph as (Hp & Hb & _). apply prepare_spec in Hp as (_ & _ & _ & _ & _ & ->).
  apply apply_burst_same in Hb.
  induction Hb as [|p q l k (_ & _ & _ & _ & _ & Hd) ? IH]; simpl; [done|]. by rewrite Hd, IH.
Qed.

(** Every target is prepared once, and its diagnostics are its row's. *)
Lemma ph_diagnosed i p :
  ph_prepared ph !! i = Some p ->
  exists plan requested, ph_plans ph !! i = Some plan /\ ph_budgeted ph !! i = Some requested /\
    gd_targets (gt_diagnostics t) !! pt_id p = Some (target_diagnostics p plan (floor_hz requested)).
Proof using Hph.
  intros Hp. destruct (ph_prepared_row i p Hp) as (plan0 & r0 & Hin & _).
  destruct ph_committed as [_ Hc]. destruct (Hc p plan0 r0 Hin) as [l Hl].
  destruct (ph_emitted (pt_id p) l Hl) as (_ & j & q & plan & r & Hid & _ & _ & _ & Hd & Hq & Hplan & Hr).
  assert (i = j) as <-.
  { pose proof (NoDup_keys (gi_targets input)) as Hnd. rewrite <- ph_ids in Hnd.
    eapply NoDup_lookup; [exact Hnd|..]; rewrite list_lookup_fmap, ?Hp, ?Hq; simpl; by rewrite ?Hid. }
  assert (q = p) as -> by congruence. eauto.
Qed.

Lemma ph_covers id : is_Some (gi_targets input !! id) <-> is_Some (gt_limits t !! id).
Proof using Hph.
  split.
  - intros [target Htarget].
    assert (Hid : id ∈ pt_id <$> ph_prepared ph).
    { rewrite ph_ids. unfold keys. apply list_elem_of_fmap. exists (id, target).
      split; [done|]. by apply elem_of_entries. }
    apply list_elem_of_fmap in Hid as (p & -> & (i & Hp)%list_elem_of_lookup).
    destruct (ph_prepared_row i p Hp) as (plan & r & Hin & _).
    destruct ph_committed as [_ Hc]. by eapply Hc.
  - intros [l Hl]. destruct (ph_emitted id l Hl) as (_ & _ & p & _ & _ & <- & [Hpo _] & _). eauto.
Qed.
End phase_facts.

Lemma safety_cap_bounds input id target :
  let cap := safety_cap_of input id target in
  cap <= lim_max (hardware_limits (frequency target)) /\
  (forall c, gi_administrator_caps input !! id = Some c -> cap <= c) /\
  (forall c, gi_thermal_caps input !! id = Some c -> cap <= c).
Proof.
  unfold safety_cap_of. split_and!; [apply lowest_cap_le|..]; intros c Hc;
    apply lowest_cap_le_cap; rewrite Hc; set_solver.
Qed.

(** ** Properties *)

Lemma governor_limits_bounds state input t :
  transition_governor state input = Ok t ->
  (forall id, is_Some (gi_targets input !! id) <-> is_Some (gt_limits t !! id)) /\
  forall id l target, gt_limits t !! id = Some l -> gi_targets input !! id = Some target ->
    lim_min l <= lim_max l /\
    lim_max l <= lim_max (hardware_limits (frequency target)) /\
    (forall c, gi_administrator_caps input !! id = Some c -> lim_max l <= c) /\
    (forall c, gi_thermal_caps input !! id = Some c -> lim_max l <= c).
Proof.
  intros (ph & Hph)%transition_phases. split; [intros id; by apply (ph_covers ph)|].
  intros id l target Hl Htarget.
  destruct (ph_emitted ph Hph id l Hl) as (_ & i & p & plan & r & <- & Hpo & Hplan & -> & _).
  assert (pt_target p = target) as Hpt by (destruct Hpo; congruence).
  destruct Hplan as [H1 H2]. rewrite (po_cap _ _ Hpo), Hpt in H2. simpl.
  pose proof (safety_cap_bounds input (pt_id p) target) as (B1 & B2 & B3).
  split_and!; [lia|lia|..]; intros c Hc; [apply B2 in Hc | apply B3 in Hc]; lia.
Qed.

(** every transition emits one ordered pair of limits per target, and no
    load, prediction, burst, budget, ramp or dwell lifts a maximum above the
    hardware, the administrator or the thermal cap. *)
Theorem governor_limits_safe state input t :
  transition_governor state input = Ok t ->
  (forall id, is_Some (gi_targets input !! id) <-> is_Some (gt_limits t !! id)) /\
  forall id l target, gt_limits t !! id = Some l -> gi_targets input !! id = Some target ->
    lim_min l <= lim_max l /\
    lim_max l <= lim_max (hardware_limits (frequency target)) /\
    (forall c, gi_administrator_caps input !! id = Some c -> lim_max l <= c) /\
    (forall c, gi_thermal_caps input !! id = Some c -> lim_max l <= c).
Proof. apply governor_limits_bounds. Qed.

(** the state carried to the next cycle and the diagnostics record
    exactly the limits that were emitted. *)
Theorem governor_records_limits state input t :
  transition_governor state input = Ok t ->
  previous_timestamp (gt_next_state t) = Some (gi_timestamp input) /\
  forall id l, gt_limits t !! id = Some l ->
    previous_limits (targets (gt_next_state t)) id = Some l /\
    exists d, gd_targets (gt_diagnostics t) !! id = Some d /\
      td_selected_floor_hz d = lim_min l /\ td_selected_cap_hz d = lim_max l.
Proof.
  intros (ph & Hph)%transition_phases. split.
  - destruct (ph_next ph Hph) as [-> _]. by apply ph_timestamp.
  - intros id l Hl.
    destruct (ph_emitted ph Hph id l Hl) as (Hprev & i & p & plan & r & <- & _ & _ & -> & Hd & _).
    split; [done|]. by eexists.
Qed.

(** *** Burst *)

Lemma ph_burst_state state input t (ph : phases state input t) :
  phases_ok ph -> is_burst input = true -> ph_state ph = ph_synced ph.
Proof.
  intros (_ & _ & Hc & Hadj & _) Hb. rewrite Hb in Hadj. injection Hadj as <-.
  rewrite Hc. unfold ph_charge. by rewrite Hb.
Qed.

Lemma sync_same_len prepared path st :
  budget_path_len st = length path -> sync_budget_path prepared path st = st.
Proof. intros H. unfold sync_budget_path. by rewrite bool_decide_eq_true_2. Qed.

(** a burst lifts the package budget and completes the ramp; it leaves
    the energy bucket, the cursor of the cap path and every budget cap as they
    were, and without the efficiency rule each target's maximum is exactly its
    safety cap. *)
Theorem burst_waives_only_the_budget state input t :
  transition_governor state input = Ok t -> is_burst input = true ->
  gd_selected_package_budget_mw (gt_diagnostics t) = f64_infinity /\
  bucket (gt_next_state t) = bucket state /\
  shared_ramp_elapsed_ms (gt_next_state t) = ramp_latency_ms (gi_config input) /\
  (budget_path_len (gt_next_state t) = budget_path_len state ->
     budget_cursor (gt_next_state t) = budget_cursor state /\
     forall id, budget_cap (targets (gt_next_state t)) id = budget_cap (targets state) id) /\
  (gi_limit_efficiency input = false ->
     forall id l target, gt_limits t !! id = Some l -> gi_targets input !! id = Some target ->
       lim_max l = safety_cap_of input id target).
Proof.
  intros (ph & Hph)%transition_phases Hb.
  destruct (ph_next ph Hph) as (_ & N2 & N3 & N4 & N5 & N6 & _ & N8 & _).
  destruct (ph_kept ph Hph) as (_ & _ & _ & K4 & _).
  pose proof (ph_burst_state _ _ _ ph Hph Hb) as Hst. split_and!.
  - rewrite N8. unfold ph_budget_mw. by rewrite Hb.
  - rewrite N2, Hst. by destruct (sync_keeps (ph_prepared ph) (ph_path ph)
      (started state input (ph_targets ph))) as (_ & ? & _).
  - rewrite N3. unfold ph_ramp, ph_bypassed_ramp. by rewrite Hb.
  - rewrite N5, N4, K4. intros Hlen. rewrite Hst in *. unfold ph_synced in *.
    rewrite sync_same_len in * by done. split; [done|]. intros id. rewrite N6. simpl.
    destruct Hph as (Hp & _). by apply prepare_spec in Hp as (_ & _ & _ & _ & Hcap & _).
  - intros He id l target Hl Htarget.
    destruct (ph_emitted ph Hph id l Hl) as (_ & i & p & plan & r & <- & Hpo & _ & -> & _ & Hp & Hplan & Hr).
    assert (pt_target p = target) as <- by (destruct Hpo; congruence).
    rewrite <- (po_cap _ _ Hpo). simpl. destruct Hph as (_ & _ & _ & _ & Hpl & _).
    rewrite He in Hpl. injection Hpl as Hpl. rewrite <- Hpl in Hplan.
    apply lookup_zip_with_Some in Hplan as (p' & b & -> & Hp' & Hb').
    assert (p' = p) as -> by congruence. rewrite select_plan_cap.
    unfold ph_budgeted in Hb'. rewrite list_lookup_fmap, Hp in Hb'. injection Hb' as <-.
    unfold budget_plan. by rewrite Hb.
Qed.

(** *** The cap path *)

(** How one cycle may move the cursor. *)
Definition cursor_moved (power budget : f64) (before after : option nat) : Prop :=
  match before, after with
  | None, None => True
  | Some c, Some c' =>
      (c' = c \/ (c' + 1 = c)%nat \/ c' = (c + 1)%nat) /\
      ((c' < c)%nat -> f64_gt power (f64_mul budget (f64_lit 11 10)) = true) /\
      ((c < c')%nat -> f64_lt power (f64_mul budget (f64_lit 9 10)) = true)
  | _, _ => False
  end.

Definition one_cap_changed (before after : gmap string TargetGovernorState) : Prop :=
  exists id0, forall id, id <> id0 -> budget_cap after id = budget_cap before id.

Lemma cursor_moved_refl power budget c : cursor_moved power budget c c.
Proof. destruct c; simpl; [|done]. split; [by left|]. split; lia. Qed.

Lemma set_cap_one ts id cap : one_cap_changed ts (set_budget_cap ts id cap).
Proof.
  exists id. intros id' Hne. unfold budget_cap, set_budget_cap. by rewrite lookup_insert_ne by done.
Qed.

Lemma adjust_one_step st prepared path power budget st' :
  adjust_reference_budget_cap st prepared path power budget = Ok st' ->
  one_cap_changed (targets st) (targets st') /\
  cursor_moved power budget (budget_cursor st) (budget_cursor st').
Proof.
  assert (Hrefl : one_cap_changed (targets st) (targets st)) by by exists "".
  unfold adjust_reference_budget_cap. destruct (budget_cursor st) as [c|] eqn:Hc.
  2: { intros [= <-]. by rewrite Hc. }
  destruct (path !! c) as [step|]; [|intros [= <-]; rewrite Hc; auto using cursor_moved_refl].
  destruct (prepared !! _) as [p|]; [|done].
  destruct (f64_gt _ _) eqn:Hgt; [|destruct (f64_lt power _) eqn:Hlt]; intros [= <-].
  - split; [apply set_cap_one|]. simpl. split_and!; [lia|done|lia].
  - split; [apply set_cap_one|]. simpl. destruct (bool_decide _); split_and!; lia || done.
  - rewrite Hc. auto using cursor_moved_refl.
Qed.

(** while the path keeps its length, one cycle moves the cursor by at
    most one entry, downwards only when the estimate exceeds 110% of the
    budget and upwards only when it is below 90%, and it changes the budget
    cap of at most one target. *)
Theorem budget_cursor_one_step state input t :
  transition_governor state input = Ok t ->
  budget_path_len (gt_next_state t) = budget_path_len state ->
  one_cap_changed (targets state) (targets (gt_next_state t)) /\
  cursor_moved (gd_estimated_package_power_mw (gt_diagnostics t))
    (gd_selected_package_budget_mw (gt_diagnostics t))
    (budget_cursor state) (budget_cursor (gt_next_state t)).
Proof.
  intros (ph & Hph)%transition_phases.
  destruct (ph_next ph Hph) as (_ & _ & _ & -> & -> & N6 & -> & -> & _).
  destruct (ph_kept ph Hph) as (_ & _ & _ & -> & _). intros Hlen.
  pose proof (charge_keeps (input := input) (is_burst input) (ph_power ph)
    (elapsed_of state input) (ph_synced ph)) as (_ & C2 & _ & _ & C5).
  destruct Hph as (Hp & _ & Hc & Hadj & _). fold (ph_charge ph) in C2, C5.
  rewrite <- Hc in C2, C5. unfold ph_synced in C2, C5. rewrite sync_same_len in C2, C5 by done.
  simpl in C2, C5. apply prepare_spec in Hp as (_ & _ & _ & _ & Hcap & _). rewrite <- C5.
  enough (one_cap_changed (targets (ph_charged ph)) (targets (ph_state ph)) /\
    cursor_moved (ph_power ph) (ph_budget_mw ph) (budget_cursor (ph_charged ph))
      (budget_cursor (ph_state ph))) as [[id0 H0] ?].
  { split; [|done]. exists id0. intros id Hne. by rewrite N6, H0, C2. }
  destruct (is_burst input); [|by eapply adjust_one_step].
  injection Hadj as <-. split; [by exists ""|apply cursor_moved_refl].
Qed.

(** *** The ramp *)

Lemma ramp_progress_in_unit config ramp :
  is_u64 ramp -> is_u64 (ramp_latency_ms config) -> in_unit (ramp_progress config ramp).
Proof.
  intros Hr Hl. unfold ramp_progress. apply f64_clamp_bounds; [|done].
  destruct (Z.eqb_spec (ramp_latency_ms config) 0) as [|Hne]; [done|].
  apply (f64_le_not_nan f64_zero), div_nonneg.
  - apply f64_of_Z_nonneg. unfold_int. lia.
  - apply f64_of_Z_nonneg. unfold_int. lia.
  - eapply mag_finite, f64_of_u64_mag, Hr.
  - eapply mag_finite, f64_of_u64_mag, Hl.
  - intros s. destruct (f64_of_Z_pos (ramp_latency_ms config)) as (p & e & -> & _); [|done].
    unfold_int. lia.
Qed.

(** the shared ramp never runs past its latency, its progress is a
    fraction, and a cycle in which no floor climbs above its sweet point (and
    nothing bypasses the ramp) restarts it. *)
Theorem ramp_bounded state input t :
  transition_governor state input = Ok t ->
  is_u64 (ramp_latency_ms (gi_config input)) -> is_u64 (shared_ramp_elapsed_ms state) ->
  is_u64 (gi_timestamp input) ->
  (forall ts, previous_timestamp state = Some ts -> is_u64 ts) ->
  0 <= shared_ramp_elapsed_ms (gt_next_state t) <= ramp_latency_ms (gi_config input) /\
  in_unit (gd_shared_ramp_progress (gt_diagnostics t)) /\
  (is_burst input = false ->
   (forall id d, gd_targets (gt_diagnostics t) !! id = Some d ->
      td_prediction_bypassed_ramp d = false) ->
   shared_ramp_elapsed_ms (gt_next_state t) = 0 \/
   exists id d target m, gd_targets (gt_diagnostics t) !! id = Some d /\
     gi_targets input !! id = Some target /\ energy_model target = Some m /\
     sweet_frequency_hz m < td_requested_floor_hz d).
Proof.
  intros (ph & Hph)%transition_phases Hlat Hel Hnow Hprev.
  destruct (ph_next ph Hph) as (_ & _ & -> & _ & _ & _ & _ & _ & _ & -> & _).
  destruct (ph_kept ph Hph) as (_ & _ & K3 & _).
  assert (Hdt : is_u64 (elapsed_of state input)).
  { unfold elapsed_of, saturating_duration_since. destruct (previous_timestamp state) as [ts|]; simpl;
      [|done]. specialize (Hprev ts eq_refl). unfold_int. lia. }
  assert (Hr : 0 <= ph_ramp ph <= ramp_latency_ms (gi_config input)).
  { unfold ph_ramp, advance_ramp. rewrite K3. unfold_int.
    destruct (ph_bypassed_ramp ph); [lia|]. destruct (existsb (raises_cost _) _); lia. }
  split_and!; [lia|lia| |].
  - apply ramp_progress_in_unit; unfold_int; lia.
  - intros Hb Hbp. unfold ph_ramp, ph_bypassed_ramp. rewrite Hb, (ph_bypass_spec ph Hph). simpl.
    destruct (existsb _ (ph_prepared ph)) eqn:E.
    { apply existsb_exists in E as (p & (i & Hp)%list_elem_of_In%list_elem_of_lookup & Hpb).
      destruct (ph_diagnosed ph Hph i p Hp) as (plan & r & _ & _ & Hd%Hbp). simpl in Hd. congruence. }
    simpl. destruct (existsb (raises_cost _) _) eqn:Er; [right|by left].
    apply existsb_exists in Er as ([p b] & (i & Hpb)%list_elem_of_In%list_elem_of_lookup & Hcost).
    apply lookup_zip_with_Some in Hpb as (p' & b' & [= <- <-] & Hp & Hb').
    destruct (ph_diagnosed ph Hph i p Hp) as (plan & r & _ & Hreq & Hd).
    assert (r = b) as -> by congruence.
    pose proof (Forall_lookup_1 _ _ _ _ (ph_prepared_ok ph Hph) Hp) as [Hpt Hpm _ _ _ _].
    apply andb_true_iff in Hcost as [Hs%Z.ltb_lt _]. by exists (pt_id p), (target_diagnostics p plan (floor_hz b)), (pt_target p), (pt_model p).
Qed.

(** *** Dwell *)

(** The phases that fix the floor of an emitted limit. *)
Lemma ph_floor state input t (ph : phases state input t) id l :
  phases_ok ph -> gt_limits t !! id = Some l ->
  exists i p b sel, ph_prepared ph !! i = Some p /\ pt_id p = id /\
    b = budget_plan (is_burst input) (targets (ph_state ph)) p /\
    sel = select_plan input (ph_bypassed_ramp ph) (ramp_progress (gi_config input) (ph_ramp ph))
            (targets (ph_state ph)) p b /\
    lim_min l <= floor_hz sel /\ lim_max l <= cap_hz sel /\
    gd_targets (gt_diagnostics t) !! id
      = Some (target_diagnostics p {| floor_hz := lim_min l; cap_hz := lim_max l |} (floor_hz b)).
Proof.
  intros Hph Hl.
  destruct (ph_emitted ph Hph id l Hl) as (_ & i & p & plan & r & Hid & _ & _ & -> & Hd & Hp & Hplan & Hr).
  unfold ph_budgeted in Hr. rewrite list_lookup_fmap, Hp in Hr. injection Hr as <-.
  destruct (Forall2_lookup_r _ _ _ _ _ (ph_plans_lowered ph Hph) Hplan) as (sel & Hsel & [H1 H2]).
  apply lookup_zip_with_Some in Hsel as (p' & b & -> & Hp' & Hb).
  unfold ph_budgeted in Hb. rewrite list_lookup_fmap, Hp in Hb. injection Hb as <-.
  assert (p' = p) as -> by congruence.
  eexists i, p, _, _. by split_and!.
Qed.

Lemma select_plan_dwell input progress ts p b prev changed :
  previous_limits ts (pt_id p) = Some prev ->
  (t ← ts !! pt_id p; last_change_at t) = Some changed ->
  saturating_duration_since (gi_timestamp input) changed < min_opp_residency_ms (gi_config input) ->
  lim_max prev <= cap_hz b ->
  floor_hz (select_plan input false progress ts p b) <= lim_min prev.
Proof.
  intros Hprev Hch Hdw Hcap. unfold select_plan. simpl. rewrite Hprev, Hch. simpl.
  rewrite (proj2 (Z.ltb_lt _ _) Hdw), (proj2 (Z.ltb_ge _ _) Hcap). simpl.
  rewrite !andb_true_r. destruct (Z.ltb_spec (lim_min prev)
    (if floor_hz b <=? sweet_frequency_hz (pt_model p) then floor_hz b
     else ramp_limited_floor (pt_model p) (floor_hz b) (cap_hz b) progress)); lia.
Qed.

(** within the minimum residency after a change, and unless a burst or a
    predicted jump bypasses it or the maximum was lowered, a target's floor
    does not rise. *)
Theorem dwell_holds_floor state input t id l prev changed :
  transition_governor state input = Ok t ->
  is_burst input = false ->
  (forall id d, gd_targets (gt_diagnostics t) !! id = Some d ->
     td_prediction_bypassed_ramp d = false) ->
  previous_limits (targets state) id = Some prev ->
  (t ← targets state !! id; last_change_at t) = Some changed ->
  saturating_duration_since (gi_timestamp input) changed < min_opp_residency_ms (gi_config input) ->
  gt_limits t !! id = Some l -> lim_max prev <= lim_max l ->
  lim_min l <= lim_min prev.
Proof.
  intros (ph & Hph)%transition_phases Hb Hbp Hprev Hch Hdw Hl Hmax.
  destruct (ph_floor _ _ _ ph id l Hph Hl) as (i & p & b & sel & Hp & Hid & -> & -> & H1 & H2 & _).
  destruct (ph_kept ph Hph) as (_ & _ & _ & _ & K5 & K6).
  assert (Hby : ph_bypassed_ramp ph = false).
  { unfold ph_bypassed_ramp. rewrite Hb, (ph_bypass_spec ph Hph). simpl.
    apply not_true_iff_false. intros (q & (j & Hq)%list_elem_of_In%list_elem_of_lookup & Hqb)%existsb_exists.
    destruct (ph_diagnosed ph Hph j q Hq) as (? & ? & _ & _ & Hd%Hbp). simpl in Hd. congruence. }
  rewrite Hby in H1, H2. rewrite select_plan_cap in H2. etransitivity; [exact H1|].
  eapply select_plan_dwell; [by rewrite K5, Hid | by rewrite K6, Hid | done | lia].
Qed.

(** The ramp only holds a floor back. *)
Lemma take_while_Forall {A} (f : A -> bool) l x : x ∈ take_while f l -> f x = true.
Proof.
  induction l as [|y l IH]; simpl; [set_solver|]. destruct (f y) eqn:Hy; [|set_solver].
  intros [->|Hx]%elem_of_cons; auto.
Qed.

Lemma ramp_limited_floor_le m requested cap progress :
  model_wf m -> requested <= cap -> sweet_frequency_hz m < requested ->
  (requested = cap \/ requested ∈ freqs (control_opps m)) ->
  ramp_limited_floor m requested cap progress <= requested.
Proof.
  intros Hwf Hle Hsw Hreq. unfold ramp_limited_floor. rewrite Z.min_l by done.
  destruct (or_else _ (head _)) as [sweet|] eqn:Hs; [|done].
  destruct (or_else _ (last _)) as [maximum|]; [|done].
  destruct (f64_le _ _); [done|].
  destruct (last (List.filter _ _)) as [o|] eqn:Ho; simpl.
  - apply last_Some in Ho as [l' Ho].
    assert (Hin : o ∈ List.filter (fun o => (frequency_hz o <=? sweet_frequency_hz m)
      || f64_le (f64_div (f64_sub (power_mw_per_core o) (power_mw_per_core sweet))
                   (f64_sub (power_mw_per_core maximum) (power_mw_per_core sweet))) progress)
      (take_while (fun o => frequency_hz o <=? requested) (control_opps m))) by (rewrite Ho; set_solver).
    apply elem_of_filter_bool in Hin as [Hin%take_while_Forall _]. lia.
  - destruct (List.find _ _) as [o|] eqn:Hf; simpl in Hs.
    + injection Hs as <-. apply find_Some_iff in Hf as [_ Hf]. lia.
    + destruct Hreq as [->|Hr]; [lia|]. pose proof (wf_control _ Hwf) as Hsorted.
      destruct (control_opps m) as [|c cs]; [done|]. injection Hs as <-.
      rewrite fmap_cons in Hsorted, Hr. apply StronglySorted_inv in Hsorted as [_ Hlt].
      rewrite Forall_forall in Hlt. apply elem_of_cons in Hr as [->|Hr%Hlt]; lia.
Qed.

(** reductions are never delayed. Whatever the ramp and the dwell hold
    back, the emitted floor is at most the floor the demand and the caps ask
    for. *)
Theorem floor_at_most_requested state input t :
  transition_governor state input = Ok t ->
  (forall id target m, gi_targets input !! id = Some target -> energy_model target = Some m ->
     model_wf m) ->
  forall id l d, gt_limits t !! id = Some l -> gd_targets (gt_diagnostics t) !! id = Some d ->
    lim_min l <= td_requested_floor_hz d.
Proof.
  intros (ph & Hph)%transition_phases Hwf id l d Hl Hd.
  destruct (ph_floor _ _ _ ph id l Hph Hl) as (i & p & b & sel & Hp & Hid & Hb & -> & H1 & H2 & Hd').
  rewrite Hd' in Hd. injection Hd as <-. simpl. etransitivity; [exact H1|].
  pose proof (Forall_lookup_1 _ _ _ _ (ph_prepared_ok ph Hph) Hp) as [Hpt Hpm _ _ _ _].
  specialize (Hwf _ _ _ Hpt Hpm).
  assert (Hreq : floor_hz b = cap_hz b \/ floor_hz b ∈ freqs (control_opps (pt_model p))).
  { subst b. unfold budget_plan. simpl. destruct (first_opp_exists (pt_model p)
      (pt_demanded_performance p) (wf_control_nonempty _ Hwf)) as (o & -> & Ho). simpl.
    set (cap := if is_burst input then _ else _). destruct (Z.min_dec (frequency_hz o) cap) as [-> | ->];
      [right|by left]. apply list_elem_of_fmap. eauto. }
  pose proof (budget_plan_ok (is_burst input) (targets (ph_state ph)) p) as [Hle _].
  rewrite <- Hb in Hle. unfold select_plan. simpl.
  assert (Hs : (if ph_bypassed_ramp ph || (floor_hz b <=? sweet_frequency_hz (pt_model p))
     then floor_hz b
     else ramp_limited_floor (pt_model p) (floor_hz b) (cap_hz b)
            (ramp_progress (gi_config input) (ph_ramp ph))) <= floor_hz b).
  { destruct (ph_bypassed_ramp ph); [done|]. simpl.
    destruct (Z.leb_spec (floor_hz b) (sweet_frequency_hz (pt_model p))); [done|].
    by apply ramp_limited_floor_le. }
  revert Hs. set (sel := if _ || _ then _ else _). intros Hs.
  destruct (previous_limits _ _) as [prev|]; simpl; [|rewrite andb_false_r; simpl; lia].
  destruct (is_some_and _ _), (Z.ltb_spec (lim_min prev) sel), (cap_hz b <? lim_max prev),
    (ph_bypassed_ramp ph); simpl; lia.
Qed.
