(* ===== verification/GovernorTotal.v ===== *)
(** * Totality, errors and the energy bucket of the governor

    [transition_governor] returns a transition for every well-formed set of
    targets: no assertion of [f64::clamp] and no slice index fails. It reports
    an error exactly for the target conditions its error type names. The
    bucket stays within its capacity. *)

From Stdlib Require Import SpecFloat.
From S2P Require Import Prelude Float64 Domain Scene Frequency Load ConfigTypes Energy Governor GovernorFacts.

#[local] Arguments update_performance : simpl never.
#[local] Arguments prepare_target : simpl never.

(** ** Indices *)

Lemma performance_order_perm models : performance_order models ≡ₚ seq 0 (length models).
Proof. apply merge_sort_Permutation. Qed.

Lemma performance_order_lt models i : i ∈ performance_order models -> (i < length models)%nat.
Proof. rewrite performance_order_perm, list_elem_of_In, in_seq. lia. Qed.

Lemma elem_of_pairs {A} (l : list A) a b : (a, b) ∈ pairs l -> a ∈ l /\ b ∈ l.
Proof.
  unfold pairs. intros (i & Hi)%list_elem_of_lookup.
  apply lookup_zip_with_Some in Hi as (x & y & [= <- <-] & Hx & Hy). split.
  - by eapply list_elem_of_lookup_2.
  - destruct l as [|z l]; [done|]. simpl in Hy. apply elem_of_cons. right.
    by eapply list_elem_of_lookup_2.
Qed.

Lemma path_index prepared step :
  step ∈ reference_budget_path prepared -> (bs_cluster_index step < length prepared)%nat.
Proof.
  unfold reference_budget_path. rewrite merge_sort_Permutation.
  intros (steps & Hin & Hs)%list_elem_of_join.
  apply list_elem_of_lookup in Hs as (i & Hs). rewrite list_lookup_imap in Hs.
  destruct (prepared !! i) as [p|] eqn:Hp; [|done]. injection Hs as <-.
  unfold cluster_steps in Hin. apply list_elem_of_fmap in Hin as (pr & -> & _). simpl.
  by eapply lookup_lt_Some.
Qed.

(** ** No phase fails on prepared targets *)

Lemma demand_clamp_Ok {E} selected maximum :
  nonneg maximum -> @demand_clamp E selected maximum = Ok (f64_clamp selected f64_zero maximum).
Proof. unfold demand_clamp, nonneg. by intros ->. Qed.

Lemma burst_at_Ok margin burst prepared i :
  (i < length prepared)%nat -> Forall (fun p => nonneg (pt_maximum_performance p)) prepared ->
  exists prepared', burst_at margin burst prepared i = Ok prepared' /\
    length prepared' = length prepared /\
    Forall (fun p => nonneg (pt_maximum_performance p)) prepared'.
Proof.
  intros Hi Hnn. unfold burst_at. destruct (lookup_lt_is_Some_2 _ _ Hi) as [p Hp]. rewrite Hp.
  unfold reference_burst_demand_performance.
  pose proof (Forall_lookup_1 _ _ _ _ Hnn Hp) as Hm. simpl in Hm.
  rewrite demand_clamp_Ok by done. simpl. eexists. split_and!; [done|by rewrite length_insert|].
  by apply Forall_insert.
Qed.

Lemma apply_burst_Ok input prepared :
  Forall (fun p => nonneg (pt_maximum_performance p)) prepared ->
  exists prepared', apply_burst input prepared = Ok prepared'.
Proof.
  intros Hnn. unfold apply_burst. destruct (f64_gt _ _); [|eauto].
  assert (Hidx : forall i, i ∈ drop 1 (performance_order (pt_model <$> prepared)) ->
    (i < length prepared)%nat).
  { intros i Hi. assert (Hin : i ∈ performance_order (pt_model <$> prepared)).
    { rewrite <- (take_drop 1 (performance_order _)). set_solver. }
    apply performance_order_lt in Hin. by rewrite length_fmap in Hin. }
  revert Hidx. generalize (drop 1 (performance_order (pt_model <$> prepared))). intros l.
  revert prepared Hnn. induction l as [|i l IH]; intros prepared Hnn Hidx; simpl; [eauto|].
  destruct (burst_at_Ok (gi_margin input) (gi_burst input) prepared i) as (p' & -> & Hlen & Hnn');
    [apply Hidx; set_solver | done |]. simpl.
  apply IH; [done|]. intros j Hj. rewrite Hlen. apply Hidx. set_solver.
Qed.

Lemma adjust_Ok st prepared power budget :
  exists st', adjust_reference_budget_cap st prepared (reference_budget_path prepared) power budget
              = Ok st'.
Proof.
  unfold adjust_reference_budget_cap. destruct (budget_cursor st) as [c|]; [|eauto].
  destruct (reference_budget_path prepared !! c) as [step|] eqn:Hs; [|eauto].
  destruct (lookup_lt_is_Some_2 prepared (bs_cluster_index step)) as [p ->].
  { apply path_index. by eapply list_elem_of_lookup_2. }
  destruct (f64_gt _ _); [eauto|]. destruct (f64_lt _ _); eauto.
Qed.

Lemma efficiency_Ok models plans :
  length models = length plans ->
  exists plans', apply_reference_efficiency_limits models plans = Ok plans'.
Proof.
  unfold apply_reference_efficiency_limits. intros Hlen.
  assert (Hidx : forall pr, pr ∈ rev (pairs (performance_order models)) ->
    (pr.1 < length models)%nat /\ (pr.2 < length models)%nat).
  { intros [a b] Hin. rewrite list_elem_of_In, <- in_rev, <- list_elem_of_In in Hin.
    apply elem_of_pairs in Hin as [Ha Hb]. split; by apply performance_order_lt. }
  revert Hidx. generalize (rev (pairs (performance_order models))). intros l.
  revert plans Hlen. induction l as [|[low high] l IH]; intros plans Hlen Hidx; simpl; [eauto|].
  destruct (Hidx (low, high)) as [Hl Hh]; [set_solver|]. simpl in *.
  destruct (lookup_lt_is_Some_2 models high Hh) as [m1 ->].
  destruct (lookup_lt_is_Some_2 plans high) as [p1 ->]; [lia|].
  destruct (lookup_lt_is_Some_2 models low Hl) as [m2 ->].
  destruct (lookup_lt_is_Some_2 plans low) as [p2 ->]; [lia|]. simpl.
  apply IH; [destruct (efficiency_cap_for _ _ _); simpl; by rewrite ?length_insert|].
  intros pr Hpr. apply Hidx. set_solver.
Qed.

(** ** Well-formed targets *)

(** A target the governor can plan for: its frequency policy is valid, and its
    model has a point of non-negative performance under the safety cap. *)
Definition plannable (input : GovernorInput) (id : string) (target : CpuTargetPolicy) : Prop :=
  validate (frequency target) = Ok tt /\
  exists m o, energy_model target = Some m /\
    opp_at_or_below m (safety_cap_of input id target) = Some o /\ nonneg (performance o).

Lemma prepare_target_total input id target ts :
  plannable input id target ->
  exists t' p, prepare_target input id target ts = Ok (t', p) /\
    nonneg (pt_maximum_performance p).
Proof.
  intros (Hv & m & o & Hm & Ho & Hnn). unfold prepare_target.
  rewrite Hv, Hm. cbn [res_bind map_err ok_or]. rewrite Ho. cbn [res_bind ok_or].
  destruct (update_performance _ _ _ _ _) as [d dd].
  unfold reference_normal_demand_performance. rewrite demand_clamp_Ok by done. simpl.
  eexists _, _. split; [done|]. done.
Qed.

Lemma prepare_total input ts0 :
  (forall id target, gi_targets input !! id = Some target -> plannable input id target) ->
  exists ts prepared power bypass, prepare input ts0 = Ok (ts, prepared, power, bypass) /\
    Forall (fun p => nonneg (pt_maximum_performance p)) prepared.
Proof.
  intros Hall. unfold prepare.
  assert (Hall' : forall kv, kv ∈ entries (gi_targets input) -> plannable input kv.1 kv.2).
  { intros [id target] Hin%elem_of_entries. by apply Hall. }
  revert Hall'. generalize (entries (gi_targets input)). intros l.
  assert (Hnil : Forall (fun p => nonneg (pt_maximum_performance p)) []) by done. revert Hnil.
  generalize (@nil PreparedTarget) as prepared. generalize f64_zero as power. generalize false.
  generalize ts0. induction l as [|[id target] l IH]; intros ts bypass power prepared Hp Hl; simpl.
  - by eexists _, _, _, _.
  - destruct (prepare_target_total input id target (entry_or_default ts id)) as (t' & p & -> & Hnn).
    { apply (Hl (id, target)). set_solver. }
    simpl. apply IH; [|set_solver]. apply Forall_app. by repeat constructor.
Qed.

(** C33: the governor is total on plannable targets. It returns a transition
    for every state, load, frequency, cap, margin, burst and budget, NaN and
    infinite ones included; none of the [f64::clamp] assertions and slice
    accesses on the way fails. *)
Theorem governor_total state input :
  (forall id target, gi_targets input !! id = Some target -> plannable input id target) ->
  exists t, transition_governor state input = Ok t.
Proof.
  intros Hall. unfold transition_governor.
  destruct (prepare_total input (targets state) Hall) as (ts & prepared0 & power & bypass & -> & Hnn).
  simpl. destruct (apply_burst_Ok input prepared0 Hnn) as [prepared ->]. simpl.
  destruct (charge_bucket _ _ _ _ _) as [st1 bd].
  match goal with |- context [adjust_reference_budget_cap ?s ?p ?q ?w ?b] =>
    destruct (adjust_Ok s p w b) as [st' Hst'] end.
  assert (Hif : exists st2, (if f64_gt (gi_burst input) f64_zero then Ok st1
    else adjust_reference_budget_cap st1 prepared (reference_budget_path prepared) power
      (if f64_gt (gi_burst input) f64_zero then f64_infinity else ebd_selected_limit_power_mw bd))
    = Ok st2) by (destruct (f64_lt f64_zero _); eauto).
  destruct Hif as [st2 ->]. simpl.
  match goal with |- context [apply_reference_efficiency_limits ?ms ?ps] =>
    destruct (efficiency_Ok ms ps) as [plans Hpl] end.
  { rewrite length_zip_with, !length_fmap. lia. }
  destruct (gi_limit_efficiency input); [rewrite Hpl|]; simpl;
    destruct (commit _ _ _ _ _) as [[ts' limits] diags]; eauto.
Qed.

(** ** Errors *)

Lemma apply_burst_no_Err input prepared e : apply_burst input prepared <> Err e.
Proof.
  unfold apply_burst. destruct (f64_gt _ _); [|done].
  generalize (drop 1 (performance_order (pt_model <$> prepared))). intros l. revert prepared.
  induction l as [|i l IH]; intros prepared; simpl; [done|].
  intros [H|(p & _ & H)]%res_bind_Err; [|by apply (IH p)].
  unfold burst_at in H. destruct (prepared !! i); [|done].
  unfold reference_burst_demand_performance, demand_clamp in H.
  by destruct (f64_le f64_zero _).
Qed.

Lemma adjust_no_Err st prepared path power budget e :
  adjust_reference_budget_cap st prepared path power budget <> Err e.
Proof.
  unfold adjust_reference_budget_cap. destruct (budget_cursor st); [|done].
  destruct (path !! _); [|done]. destruct (prepared !! _); [|done].
  destruct (f64_gt _ _); [done|]. by destruct (f64_lt _ _).
Qed.

Lemma efficiency_no_Err models plans e : apply_reference_efficiency_limits models plans <> Err e.
Proof.
  unfold apply_reference_efficiency_limits. generalize (rev (pairs (performance_order models))).
  intros l. revert plans. induction l as [|[low high] l IH]; intros plans; simpl; [done|].
  intros [H|(p & _ & H)]%res_bind_Err; [|by apply (IH p)].
  by destruct (models !! high), (plans !! high), (models !! low), (plans !! low).
Qed.

(** The conditions the error type names. *)
Definition blames (input : GovernorInput) (e : GovernorError) : Prop :=
  exists id target, gi_targets input !! id = Some target /\
  ((exists pe, e = InvalidFrequencyPolicy id pe /\ validate (frequency target) = Err pe) \/
   (e = MissingEnergyModel id /\ energy_model target = None) \/
   (e = NoOppBelowSafetyCap id /\ exists m, energy_model target = Some m /\
      opp_at_or_below m (safety_cap_of input id target) = None)).

Lemma prepare_target_Err input id target ts e :
  gi_targets input !! id = Some target ->
  prepare_target input id target ts = Err e -> blames input e.
Proof.
  intros Hin He. exists id, target. split; [done|]. unfold prepare_target in He.
  destruct (validate (frequency target)) as [[]|pe|]; cbn [res_bind map_err] in He; [|injection He as <-; eauto|done].
  destruct (energy_model target) as [m|]; cbn [res_bind ok_or] in He; [|injection He as <-; auto].
  destruct (opp_at_or_below m _) as [o|] eqn:Ho; cbn [res_bind ok_or] in He; [|injection He as <-; eauto 7].
  destruct (update_performance _ _ _ _ _) as [d dd].
  unfold reference_normal_demand_performance, demand_clamp in He.
  by destruct (f64_le f64_zero (performance o)).
Qed.

(** an error of the governor names a target and the condition that holds
    of it: an invalid frequency policy, no energy model, or no point under
    the safety cap. *)
Theorem governor_error_sound state input e :
  transition_governor state input = Err e -> blames input e.
Proof.
  unfold transition_governor. intros [H|([[[ts prepared] power] bypass] & _ & H)]%res_bind_Err.
  - unfold prepare in H.
    assert (Hall : forall kv, kv ∈ entries (gi_targets input) -> gi_targets input !! kv.1 = Some kv.2)
      by (intros [id target] Hin; by apply elem_of_entries).
    revert Hall H. generalize (entries (gi_targets input)). intros l.
    generalize (targets state, @nil PreparedTarget, f64_zero, false). intros acc. revert acc.
    induction l as [|[id target] l IH]; intros acc Hall H; simpl in H; [done|].
    apply res_bind_Err in H as [H|(acc' & _ & H)]; [|apply (IH acc'); set_solver].
    destruct acc as [[[ts prepared] power] bypass]. simpl in H.
    apply res_bind_Err in H as [H|([t' p] & _ & H)]; [|done].
    eapply prepare_target_Err, H. apply (Hall (id, target)). set_solver.
  - apply res_bind_Err in H as [H|(p' & _ & H)]; [by apply apply_burst_no_Err in H|].
    destruct (charge_bucket _ _ _ _ _) as [st1 bd].
    apply res_bind_Err in H as [H|(st2 & _ & H)].
    { destruct (f64_lt f64_zero _) in H; [done|by apply adjust_no_Err in H]. }
    apply res_bind_Err in H as [H|(plans & _ & H)].
    { destruct (gi_limit_efficiency input); [by apply efficiency_no_Err in H|done]. }
    by destruct (commit _ _ _ _ _) as [[? ?] ?].
Qed.

(** ** The energy bucket *)

Lemma neg_le_self c : nonneg c -> clamp_ok (f64_neg c) c.
Proof. by destruct c as [[]|[]| |[]]. Qed.

Lemma bounded_finite c x :
  f64_is_finite c = true -> f64_le (f64_neg c) x = true -> f64_le x c = true ->
  f64_is_finite x = true.
Proof. by destruct c as [[]| | |[]], x as [|[]| |[]]. Qed.

Lemma clamp_inside c x :
  f64_le (f64_neg c) x = true -> f64_le x c = true -> f64_clamp x (f64_neg c) c = x.
Proof.
  intros Hl Hh. unfold f64_clamp. destruct (f64_lt x (f64_neg c)) eqn:E1; [exfalso; f64_order|].
  destruct (f64_lt c x) eqn:E2; [exfalso; f64_order|done].
Qed.

Lemma millis_as_secs_mag ms : is_u64 ms -> mag 91 (millis_as_secs ms).
Proof.
  intros Hms. unfold millis_as_secs. apply (mag_add _ _ 89); [| |lia].
  - apply (mag_mono 65); [lia|]. apply f64_of_u64_mag. unfold_int.
    split; [apply Z.div_pos; lia|]. apply Z.div_le_upper_bound; lia.
  - assert (Hd : exists m, f64_of_Z 1000000000 = S754_finite false m (-23)) by (eexists; reflexivity).
    destruct Hd as [m ->]. replace 89 with (65 - -23 + 1) by lia. apply div_mag; [|lia..].
    apply f64_of_u64_mag. pose proof (Z.mod_pos_bound ms 1000). unfold_int. lia.
Qed.

(** the bucket stays within plus and minus its configured capacity
    whatever power is reported and however long the cycle took, and a
    suspended interval neither charges nor drains it. *)
Theorem bucket_within_capacity b power dt budget integrate :
  f64_is_finite (remaining_mj b) = true -> mag 100 power -> is_u64 dt ->
  is_u32 (slow_limit_power_mw budget) -> is_u32 (fast_limit_capacity_mj budget) ->
  mag 64 (fast_limit_recover_scale budget) ->
  let b' := (bucket_update b power dt budget integrate).1 in
  let capacity := f64_of_Z (fast_limit_capacity_mj budget) in
  capacity_mj b' = capacity /\
  f64_le (f64_neg capacity) (remaining_mj b') = true /\
  f64_le (remaining_mj b') capacity = true /\
  f64_is_finite (remaining_mj b') = true /\
  (integrate = false -> capacity_mj b = capacity ->
   f64_le (f64_neg capacity) (remaining_mj b) = true -> f64_le (remaining_mj b) capacity = true ->
   remaining_mj b' = remaining_mj b).
Proof.
  intros Hrem Hp Hdt Hslow Hcap Hscale. unfold bucket_update. simpl.
  set (capacity := f64_of_Z (fast_limit_capacity_mj budget)).
  assert (Hcnn : nonneg capacity) by (apply f64_of_Z_nonneg; unfold_int; lia).
  assert (Hcf : f64_is_finite capacity = true).
  { eapply mag_finite, f64_of_u64_mag. unfold_int. lia. }
  set (remaining0 := if f64_lt (capacity_mj b) capacity then capacity else _).
  assert (H0 : f64_le (f64_neg capacity) remaining0 = true /\ f64_le remaining0 capacity = true).
  { subst remaining0. destruct (f64_lt _ _).
    - split; [by apply neg_le_self | by apply f64_le_refl, f64_finite_not_nan].
    - apply f64_clamp_bounds; [by apply f64_finite_not_nan | by apply neg_le_self]. }
  split; [done|]. destruct integrate.
  - set (d := f64_mul (f64_sub _ _) _).
    assert (Hd : mag 200 d).
    { subst d. apply (mag_mono (102 + 91 + 1)); [lia|]. apply mag_mul; [| |lia..].
      - apply (mag_sub _ _ 100); [done| |lia]. apply (mag_mono 65); [lia|]. apply f64_of_u64_mag.
        unfold_int. lia.
      - by apply millis_as_secs_mag. }
    set (delta := if f64_lt d f64_zero then _ else d).
    assert (Hdelta : mag 265 delta).
    { subst delta. destruct (f64_lt d f64_zero).
      - by apply (mag_mul _ _ 200 64).
      - by apply (mag_mono 200); [lia|]. }
    assert (Hn : f64_is_nan (f64_sub remaining0 delta) = false).
    { pose proof (bounded_finite _ _ Hcf (proj1 H0) (proj2 H0)) as Hf.
      destruct remaining0 as [[]| | |s m e], delta as [[]| | |s' m' e']; try done.
      all: apply normalize_not_nan. }
    destruct (f64_clamp_bounds _ (f64_neg capacity) capacity Hn (neg_le_self _ Hcnn)) as [L1 L2].
    split_and!; [done..| |done]. by apply (bounded_finite capacity).
  - destruct H0 as [H1 H2]. split_and!; [done | done | by apply (bounded_finite capacity) |].
    intros _ Hc Hl Hh. subst remaining0. rewrite Hc.
    assert (f64_lt capacity capacity = false) as ->.
    { apply not_true_iff_false. intros Hlt. f64_order. }
    by apply clamp_inside.
Qed.

(** * The governor on a concrete package

    Two clusters, two cycles: the inputs at which the properties of the
    governor are instantiated. *)

Definition ghz (tenths : Z) : Hertz := tenths * 100000000.

Definition wit_points (f : list (Z * Z * Z)) : list MeasuredOppConfig :=
  (fun '(h, c, p) => {| mo_frequency_hz := ghz h; mo_relative_capacity := c;
                        mo_power_mw_per_core := p |}) <$> f.

Definition wit_model_of (f : list (Z * Z * Z)) : EnergyModel :=
  match expand_measured_opps (wit_points f) ((fun '(h, _, _) => ghz h) <$> f) with
  | Ok m => m
  | _ => {| opps := []; control_opps := []; performance_per_hz := f64_zero;
            free_frequency_hz := 0; sweet_frequency_hz := 0; plain_frequency_hz := 0 |}
  end.

Definition little : EnergyModel := wit_model_of [(5, 200, 100); (10, 400, 250); (18, 700, 700)].
Definition big : EnergyModel := wit_model_of [(8, 600, 400); (16, 1100, 1000); (24, 1600, 2400)].

Definition wit_policy (lo hi : Z) : FrequencyPolicy :=
  {| hardware_limits := {| lim_min := ghz lo; lim_max := ghz hi |};
     floor := ghz lo; reference := ghz lo; efficient_cap := ghz hi;
     hertz_per_unit := 1000; available_frequencies := [] |}.

Definition wit_targets : gmap string CpuTargetPolicy :=
  {[ "big" := {| cpus := list_to_set [4; 5]; frequency := wit_policy 8 24; energy_model := Some big |};
     "little" := {| cpus := list_to_set [0; 1; 2; 3]; frequency := wit_policy 5 18;
                    energy_model := Some little |} ]}.

Definition wit_budget : PowerBudgetConfig :=
  {| slow_limit_power_mw := 3000; fast_limit_power_mw := 6000; fast_limit_capacity_mj := 8000;
     fast_limit_recover_scale := f64_lit 1 2 |}.

Definition wit_input (now : Z) (load margin : f64) (thermal : gmap string Hertz) (burst : f64)
  : GovernorInput :=
  {| gi_timestamp := now; gi_targets := wit_targets;
     gi_raw_loads := {[ "big" := load; "little" := load ]};
     gi_active_load_sums := ∅; gi_observed_frequencies := ∅; gi_administrator_caps := ∅;
     gi_thermal_caps := thermal; gi_config := GovernorConfig_default;
     gi_power_budget := wit_budget; gi_margin := margin; gi_burst := burst;
     gi_limit_efficiency := false; gi_integrate_elapsed_time := true |}.

Definition wit_run (state : GovernorState) (input : GovernorInput) : GovernorTransition :=
  match transition_governor state input with
  | Ok t => t
  | _ => {| gt_limits := ∅; gt_next_state := GovernorState_default;
            gt_diagnostics :=
              {| gd_elapsed_ms := 0; gd_estimated_package_power_mw := f64_zero;
                 gd_bucket_remaining_mj := f64_zero; gd_selected_package_budget_mw := f64_zero;
                 gd_bypassed_power_budget := false; gd_shared_ramp_progress := f64_zero;
                 gd_targets := ∅ |} |}
  end.

(** A quiet first cycle, then 5 ms later a busier one, then a burst under a
    thermal cap. *)
Definition wit_input1 : GovernorInput := wit_input 1000 (f64_lit 10 100) (f64_lit 25 100) ∅ f64_zero.
Definition wit_t1 : GovernorTransition := wit_run GovernorState_default wit_input1.
Definition wit_input2 : GovernorInput := wit_input 1005 (f64_lit 24 100) f64_one ∅ f64_zero.
Definition wit_t2 : GovernorTransition := wit_run (gt_next_state wit_t1) wit_input2.
Definition wit_input3 : GovernorInput :=
  wit_input 1100 (f64_lit 90 100) (f64_lit 25 100) {[ "big" := ghz 16 ]} (f64_lit 20 100).
Definition wit_t3 : GovernorTransition := wit_run (gt_next_state wit_t2) wit_input3.

(** The runs, evaluated. *)
Lemma wit_run1 : transition_governor GovernorState_default wit_input1 = Ok wit_t1.
Proof. vm_compute. reflexivity. Qed.
Lemma wit_run2 : transition_governor (gt_next_state wit_t1) wit_input2 = Ok wit_t2.
Proof. vm_compute. reflexivity. Qed.
Lemma wit_run3 : transition_governor (gt_next_state wit_t2) wit_input3 = Ok wit_t3.
Proof. vm_compute. reflexivity. Qed.

(** A boolean fact about every value of a map. *)
Definition map_all {A} (f : A -> bool) (m : gmap string A) : bool :=
  forallb (fun kv => f kv.2) (map_to_list m).

Lemma map_all_lookup {A} (f : A -> bool) m id v :
  map_all f m = true -> m !! id = Some v -> f v = true.
Proof.
  unfold map_all. rewrite forallb_forall. intros Hall Hv. apply (Hall (id, v)).
  by apply list_elem_of_In, elem_of_map_to_list.
Qed.

Lemma wit_no_bypass2 id d :
  gd_targets (gt_diagnostics wit_t2) !! id = Some d -> td_prediction_bypassed_ramp d = false.
Proof.
  intros Hd. apply negb_true_iff.
  apply (map_all_lookup (fun d => negb (td_prediction_bypassed_ramp d))
    (gd_targets (gt_diagnostics wit_t2)) id); [|done].
  vm_compute. reflexivity.
Qed.

Lemma sorted_of_bool l :
  forallb (fun ab => ab.1 <? ab.2) (pairs l) = true -> StronglySorted Z.lt l.
Proof.
  intros H. apply Sorted_StronglySorted; [intros x y z; lia|].
  induction l as [|x [|y l] IH]; [constructor|by repeat constructor|].
  simpl in H. apply andb_true_iff in H as [Hxy H]. constructor; [by apply IH|]. constructor. lia.
Qed.

Lemma wit_model_wf f :
  is_ok (expand_measured_opps (wit_points f) ((fun '(h, _, _) => ghz h) <$> f)) = true ->
  f <> [] ->
  forallb (fun ab => ab.1 <? ab.2) (pairs ((fun '(h, _, _) => ghz h) <$> f)) = true ->
  model_wf (wit_model_of f).
Proof.
  unfold wit_model_of. intros Hok Hne Hs.
  destruct (expand_measured_opps _ _) as [m| |] eqn:E; [|done..].
  refine (proj1 (measured_wf _ _ _ (sorted_of_bool _ Hs) _ E)). by destruct f.
Qed.

Lemma wit_target_cases id target :
  wit_targets !! id = Some target ->
  (id = "big" /\ energy_model target = Some big /\ frequency target = wit_policy 8 24) \/
  (id = "little" /\ energy_model target = Some little /\ frequency target = wit_policy 5 18).
Proof.
  unfold wit_targets. rewrite lookup_insert_Some, lookup_singleton_Some.
  intros [[<- <-]|[_ [<- <-]]]; [by left | by right].
Qed.

Lemma wit_models_wf id target m :
  wit_targets !! id = Some target -> energy_model target = Some m -> model_wf m.
Proof.
  intros [(_ & -> & _)|(_ & -> & _)]%wit_target_cases [= <-];
    apply wit_model_wf; done || (vm_compute; reflexivity).
Qed.

(** ** Witnesses *)

Lemma governor_limits_safe_witness :
  exists l, gt_limits wit_t3 !! "big" = Some l /\ lim_min l <= lim_max l /\ lim_max l <= ghz 16.
Proof.
  exists {| lim_min := ghz 16; lim_max := ghz 16 |}.
  destruct (governor_limits_safe _ _ _ wit_run3) as [_ H].
  destruct (H "big" {| lim_min := ghz 16; lim_max := ghz 16 |}
    {| cpus := list_to_set [4; 5]; frequency := wit_policy 8 24; energy_model := Some big |})
    as (H1 & _ & _ & H4); [vm_compute; reflexivity | reflexivity |].
  split_and!; [vm_compute; reflexivity | exact H1 | by apply H4].
Defined.

Lemma governor_records_limits_witness :
  previous_limits (targets (gt_next_state wit_t3)) "big"
  = Some {| lim_min := ghz 16; lim_max := ghz 16 |}.
Proof.
  destruct (governor_records_limits _ _ _ wit_run3) as [_ H].
  assert (E : gt_limits wit_t3 !! "big" = Some {| lim_min := ghz 16; lim_max := ghz 16 |})
    by (vm_compute; reflexivity).
  destruct (H "big" _ E) as [Hl _]. exact Hl.
Defined.

Lemma burst_waives_only_the_budget_witness :
  bucket (gt_next_state wit_t3) = bucket (gt_next_state wit_t2) /\
  budget_cursor (gt_next_state wit_t3) = budget_cursor (gt_next_state wit_t2).
Proof.
  destruct (burst_waives_only_the_budget _ _ _ wit_run3) as (_ & H2 & _ & H4 & _);
    [vm_compute; reflexivity|].
  assert (E : budget_path_len (gt_next_state wit_t3) = budget_path_len (gt_next_state wit_t2))
    by (vm_compute; reflexivity).
  split; [exact H2|]. destruct (H4 E) as [Hc _]. exact Hc.
Defined.

Lemma budget_cursor_one_step_witness :
  cursor_moved (gd_estimated_package_power_mw (gt_diagnostics wit_t2))
    (gd_selected_package_budget_mw (gt_diagnostics wit_t2))
    (budget_cursor (gt_next_state wit_t1)) (budget_cursor (gt_next_state wit_t2)).
Proof.
  assert (E : budget_path_len (gt_next_state wit_t2) = budget_path_len (gt_next_state wit_t1))
    by (vm_compute; reflexivity).
  destruct (budget_cursor_one_step _ _ _ wit_run2 E) as [_ Hc]. exact Hc.
Defined.

Lemma ramp_bounded_witness :
  shared_ramp_elapsed_ms (gt_next_state wit_t2) = 5 /\
  in_unit (gd_shared_ramp_progress (gt_diagnostics wit_t2)).
Proof.
  split; [vm_compute; reflexivity|].
  assert (Hts : forall ts, previous_timestamp (gt_next_state wit_t1) = Some ts -> is_u64 ts).
  { assert (E : previous_timestamp (gt_next_state wit_t1) = Some 1000) by (vm_compute; reflexivity).
    intros ts Hts. rewrite E in Hts. injection Hts as <-. unfold_int. lia. }
  destruct (ramp_bounded _ _ _ wit_run2) as (_ & Hp & _);
    [vm_compute; split; discriminate.. | exact Hts | exact Hp].
Defined.

Lemma dwell_holds_floor_witness :
  exists l, gt_limits wit_t2 !! "big" = Some l /\ lim_min l <= ghz 8.
Proof.
  exists {| lim_min := ghz 8; lim_max := ghz 24 |}. split; [vm_compute; reflexivity|].
  apply (dwell_holds_floor _ _ wit_t2 "big" {| lim_min := ghz 8; lim_max := ghz 24 |}
    {| lim_min := ghz 8; lim_max := ghz 24 |} 1000 wit_run2).
  - vm_compute. reflexivity.
  - exact wit_no_bypass2.
  - vm_compute. reflexivity.
  - vm_compute. reflexivity.
  - vm_compute. reflexivity.
  - vm_compute. reflexivity.
  - vm_compute. discriminate.
Defined.

Lemma floor_at_most_requested_witness :
  exists d, gd_targets (gt_diagnostics wit_t2) !! "big" = Some d /\
    ghz 8 <= td_requested_floor_hz d.
Proof.
  assert (E : gt_limits wit_t2 !! "big" = Some {| lim_min := ghz 8; lim_max := ghz 24 |})
    by (vm_compute; reflexivity).
  assert (Hd : exists d, gd_targets (gt_diagnostics wit_t2) !! "big" = Some d)
    by (eexists; vm_compute; reflexivity).
  destruct Hd as [d Hd]. exists d. split; [exact Hd|].
  exact (floor_at_most_requested _ _ _ wit_run2 wit_models_wf "big" _ d E Hd).
Defined.

Lemma wit_plannable id target :
  gi_targets wit_input3 !! id = Some target -> plannable wit_input3 id target.
Proof.
  intros [(-> & Hm & Hf)|(-> & Hm & Hf)]%wit_target_cases; unfold plannable, safety_cap_of;
    rewrite Hf, Hm; (split; [vm_compute; reflexivity|]); do 2 eexists;
    (split; [reflexivity|]); (split; [vm_compute; reflexivity | vm_compute; reflexivity]).
Qed.

Lemma governor_total_witness : exists t, transition_governor (gt_next_state wit_t2) wit_input3 = Ok t.
Proof. exact (governor_total _ _ wit_plannable). Defined.

(** The same package with the big cluster capped below its lowest point. *)
Definition wit_blocked : GovernorInput :=
  wit_input 1100 f64_one f64_zero {[ "big" := ghz 7 ]} f64_zero.

Lemma governor_error_sound_witness : blames wit_blocked (NoOppBelowSafetyCap "big").
Proof. apply (governor_error_sound GovernorState_default). vm_compute. reflexivity. Defined.

Lemma bucket_within_capacity_witness :
  f64_le (f64_neg (f64_of_Z (fast_limit_capacity_mj wit_budget)))
    (remaining_mj (bucket_update {| capacity_mj := f64_of_Z 8000; remaining_mj := f64_of_Z 10 |}
       (f64_of_Z 9000) 20000 wit_budget true).1) = true.
Proof.
  refine (proj1 (proj2 (bucket_within_capacity _ _ _ _ _ _ _ _ _ _ _))).
  all: try (vm_compute; reflexivity).
  all: vm_compute; split; reflexivity || discriminate.
Defined.
