(* ===== verification/Rules.v ===== *)
(** * Workload rules ([uperf-core/src/policy.rs])

    Compiled matchers, application rules and scheduler rules: which profile a
    process selects, and which tasks of a workload receive which plan. *)

From S2P Require Import Prelude Float64 Domain Text Scene Frequency Thermal Load ConfigTypes Validate ValidatePolicy.

Definition FOCUS_DEFAULT_RULE : string := "focus-default".

Inductive WorkloadSource := Explicit | Focus.
#[global] Instance WorkloadSource_eq_dec : EqDecision WorkloadSource.
Proof. solve_decision. Defined.

Section rules.
Context `{RegexEngine}.

Record CompiledWorkloadMatcher := {
  cm_executable : option string;
  cm_desktop_id : option string;
  cm_comm_regex : option Regex;
}.

(** [CompiledWorkloadMatcher::new] *)
Definition compile_matcher (m : WorkloadMatcher) : res CompiledWorkloadMatcher PolicyError :=
  let? regex :=
    match wm_comm_regex m with
    | None => Ok None
    | Some pattern =>
        let? r := map_err InvalidMatcherRegex (regex_new pattern) in Ok (Some r)
    end in
  Ok {| cm_executable := wm_executable m; cm_desktop_id := wm_desktop_id m;
        cm_comm_regex := regex |}.

Definition is_match (m : CompiledWorkloadMatcher) (process : ProcessInfo) : bool :=
  is_none_or (cm_executable m) (fun e => bool_decide (executable process = Some e))
  && is_none_or (cm_desktop_id m) (fun d => bool_decide (desktop_id process = Some d))
  && is_none_or (cm_comm_regex m) (fun pattern => regex_is_match pattern (comm process)).

Inductive CompiledThreadSelector := Leader | CommRegex (pattern : Regex).

(** [CompiledThreadSelector::is_match] *)
Definition selector_is_match (s : CompiledThreadSelector) (workload thread : ProcessInfo) : bool :=
  match s with
  | Leader => pid (identity thread) =? pid (identity workload)
  | CommRegex pattern => regex_is_match pattern (comm thread)
  end.

Record CompiledSchedulerRule := {
  cr_matcher : CompiledWorkloadMatcher;
  cr_thread_selectors : list CompiledThreadSelector;
}.

Definition compile_selector (t : ThreadRuleConfig) : res CompiledThreadSelector PolicyError :=
  match tr_selector t with
  | SelLeader => Ok Leader
  | SelCommRegex pattern =>
      let? r := map_err InvalidMatcherRegex (regex_new pattern) in Ok (CommRegex r)
  end.

(** [CompiledSchedulerRule::new] *)
Definition compile_rule (r : ProcessRuleConfig) : res CompiledSchedulerRule PolicyError :=
  let? matcher := compile_matcher (pr_matcher r) in
  let? selectors := res_mapM compile_selector (pr_threads r) in
  Ok {| cr_matcher := matcher; cr_thread_selectors := selectors |}.

(** ** Application rules *)

Record CompiledAppRule := { ca_matcher : CompiledWorkloadMatcher; ca_profile : ProfileId }.

Definition compile_app_rule (r : AppRule) : res CompiledAppRule PolicyError :=
  let? matcher := compile_matcher (ar_matcher r) in
  Ok {| ca_matcher := matcher; ca_profile := ar_profile r |}.

(** [AppRuleEngine::new]; the engine is its list of rules. *)
Definition AppRuleEngine_new (config : AppsConfig) : res (list CompiledAppRule) PolicyError :=
  do? map_err InvalidConfiguration (AppsConfig_validate config) in
  res_mapM compile_app_rule (ordered_enabled_rules config).

Definition match_profile (rules : list CompiledAppRule) (process : ProcessInfo) : option ProfileId :=
  ca_profile <$> List.find (fun r => is_match (ca_matcher r) process) rules.

(** ** Scheduler decisions *)

Record SchedulerDecision := {
  sd_tasks : gmap ProcessIdentity TaskPlan;
  sd_cgroup_class : option string;
  sd_matched_rule : option string;
}.

Definition SchedulerDecision_default : SchedulerDecision :=
  {| sd_tasks := ∅; sd_cgroup_class := None; sd_matched_rule := None |}.

Record PolicyEngine := {
  pe_config : PolicyConfig;
  pe_scheduler_rules : list CompiledSchedulerRule;
  pe_focus_protected : list CompiledWorkloadMatcher;
}.

(** [PolicyEngine::new] *)
Definition PolicyEngine_new (config : PolicyConfig) : res PolicyEngine PolicyError :=
  do? map_err InvalidConfiguration (PolicyConfig_validate config) in
  let? rules := res_mapM compile_rule (sc_process_rules (pol_scheduler config)) in
  let? protected := res_mapM compile_matcher (fc_protected (sc_focus (pol_scheduler config))) in
  Ok {| pe_config := config; pe_scheduler_rules := rules; pe_focus_protected := protected |}.

Definition focus_protects (e : PolicyEngine) (process : ProcessInfo) : bool :=
  existsb (fun m => is_match m process) (pe_focus_protected e).

Definition find_task_profile (s : SchedulerConfig) (id : string)
  : res TaskProfileConfig PolicyError :=
  ok_or (List.find (fun p => bool_decide (tpc_id p = id)) (sc_task_profiles s))
    (MissingTaskProfile id).

(** One round of the loop over the threads of a workload. *)
Definition schedule_thread (s : SchedulerConfig) (rule : ProcessRuleConfig)
    (selectors : list CompiledThreadSelector) (workload : ProcessInfo) (scene : SchedulerScene)
    (tasks : gmap ProcessIdentity TaskPlan) (thread : ProcessInfo)
  : res (gmap ProcessIdentity TaskPlan) PolicyError :=
  if negb (uid (identity thread) =? uid (identity workload)) then Ok tasks
  else
    match List.find (fun ts : ThreadRuleConfig * CompiledThreadSelector =>
                       selector_is_match ts.2 workload thread)
            (zip (pr_threads rule) selectors) with
    | None => Ok tasks
    | Some (thread_rule, _) =>
        let? profile := find_task_profile s (tr_task_profile thread_rule) in
        Ok (<[identity thread := effective_task_plan profile scene]> tasks)
    end.

Definition focus_default_decision (e : PolicyEngine) (workload : ProcessInfo)
    (threads : list ProcessInfo) (source : WorkloadSource) (scene : SchedulerScene)
  : res SchedulerDecision PolicyError :=
  let scheduler := pol_scheduler (pe_config e) in
  let focus := sc_focus scheduler in
  if negb (bool_decide (source = Focus)) || negb (fc_enabled focus)
  then Ok SchedulerDecision_default
  else
    match fc_task_profile focus with
    | None => Ok SchedulerDecision_default
    | Some profile_id =>
        let? profile := find_task_profile scheduler profile_id in
        let plan := effective_task_plan profile scene in
        Ok {| sd_tasks :=
                foldl (fun tasks thread =>
                  if negb (uid (identity thread) =? uid (identity workload)) then tasks
                  else <[identity thread := plan]> tasks)
                  {[ identity workload := plan ]} threads;
              sd_cgroup_class := None;
              sd_matched_rule := Some FOCUS_DEFAULT_RULE |}
    end.

Definition evaluate_scheduler (e : PolicyEngine) (workload : ProcessInfo)
    (threads : list ProcessInfo) (source : WorkloadSource) (scene : SchedulerScene)
  : res SchedulerDecision PolicyError :=
  let scheduler := pol_scheduler (pe_config e) in
  if negb (sc_enabled scheduler) then Ok SchedulerDecision_default
  else
    match List.find (fun rc : ProcessRuleConfig * CompiledSchedulerRule =>
                       is_match (cr_matcher rc.2) workload)
            (zip (sc_process_rules scheduler) (pe_scheduler_rules e)) with
    | None => focus_default_decision e workload threads source scene
    | Some (rule, compiled) =>
        let? tasks :=
          match pr_task_profile rule with
          | None => Ok ∅
          | Some profile_id =>
              let? profile := find_task_profile scheduler profile_id in
              Ok {[ identity workload := effective_task_plan profile scene ]}
          end in
        let? tasks :=
          res_foldM
            (schedule_thread scheduler rule (cr_thread_selectors compiled) workload scene) tasks
            (workload :: List.filter
               (fun t => negb (bool_decide (identity t = identity workload))) threads) in
        Ok {| sd_tasks := tasks; sd_cgroup_class := pr_cgroup_class rule;
              sd_matched_rule := Some (pr_name rule) |}
    end.
End rules.
