(* ===== verification/RulesFacts.v ===== *)
(** * What the workload rules decide

    First match by priority for applications; for schedulers, which tasks can
    receive a plan at all, which plans they can be, and that a validated
    configuration never makes the evaluation fail. *)

From S2P Require Import Prelude Float64 Domain Text Scene Frequency Thermal Load ConfigTypes Validate ValidatePolicy ValidateFacts Rules.

Section rules_facts.
Context `{RegexEngine}.

(** ** Application rules *)

(** Whether a document rule matches, without compiling it first. *)
Definition matcher_matches (m : WorkloadMatcher) (process : ProcessInfo) : bool :=
  match compile_matcher m with Ok c => is_match c process | _ => false end.

#[local] Instance rule_before_trans : Transitive rule_before.
Proof. intros [i a] [j b] [k c]. unfold rule_before. simpl. lia. Qed.
#[local] Instance rule_before_total : Total rule_before.
Proof. intros [i a] [j b]. unfold rule_before. simpl. lia. Qed.

Lemma sorted_find {A} (R : relation A) (p : A -> bool) l x y :
  StronglySorted R l -> List.find p l = Some x -> y ∈ l -> p y = true -> y = x \/ R x y.
Proof.
  induction 1 as [|z l Hs IH Hall]; [done|]. simpl. destruct (p z) eqn:Hz.
  - intros [= ->] [->|Hy]%elem_of_cons _; [by left|]. right.
    rewrite Forall_forall in Hall. by apply Hall.
  - intros Hf [->|Hy]%elem_of_cons Hp; [congruence|]. by apply IH.
Qed.

Lemma res_mapM_find {A B E} (f : A -> res B E) (p : B -> bool) (q : A -> bool) l k :
  res_mapM f l = Ok k ->
  (forall a b, f a = Ok b -> p b = q a) ->
  match List.find p k with
  | Some b => exists a, List.find q l = Some a /\ f a = Ok b
  | None => List.find q l = None
  end.
Proof.
  intros Hk%res_mapM_Ok Hpq. induction Hk as [|a b l k Hab _ IH]; simpl; [done|].
  rewrite (Hpq a b Hab). destruct (q a); [eauto|]. destruct (List.find p k); done.
Qed.

(** the profile an application selects is that of the enabled rule that
    matches it and has the highest priority, the earliest in the document
    among equals; and it selects none exactly when no enabled rule matches. *)
Theorem match_profile_first config rules process :
  AppRuleEngine_new config = Ok rules ->
  match match_profile rules process with
  | Some chosen => exists i r,
      apps_rules config !! i = Some r /\ ar_enabled r = true /\ ar_profile r = chosen /\
      matcher_matches (ar_matcher r) process = true /\
      forall j r', apps_rules config !! j = Some r' -> ar_enabled r' = true ->
        matcher_matches (ar_matcher r') process = true ->
        ar_priority r' < ar_priority r \/ (ar_priority r' = ar_priority r /\ (i <= j)%nat)
  | None => forall r, r ∈ apps_rules config -> ar_enabled r = true ->
      matcher_matches (ar_matcher r) process = false
  end.
Proof.
  unfold AppRuleEngine_new. intros (_ & _ & Hr)%res_bind_Ok.
  set (ordered := merge_sort rule_before (List.filter (fun ir : nat * AppRule => ar_enabled ir.2)
    (imap pair (apps_rules config)))).
  assert (Hin : forall i r, (i, r) ∈ ordered <-> apps_rules config !! i = Some r /\ ar_enabled r = true).
  { intros i r. subst ordered. rewrite merge_sort_Permutation, elem_of_filter_bool, elem_of_lookup_imap.
    split; [intros [(k & x & [= <- <-] & Hx) Hen]; done | intros [Hx Hen]; eauto 6]. }
  assert (Hs : StronglySorted rule_before ordered) by (apply StronglySorted_merge_sort; apply _).
  pose proof (res_mapM_find compile_app_rule (fun c => is_match (ca_matcher c) process)
    (fun r => matcher_matches (ar_matcher r) process) _ _ Hr) as Hf.
  specialize (Hf ltac:(intros a b (m & Hm & [= <-])%res_bind_Ok; unfold matcher_matches; by rewrite Hm)).
  unfold match_profile.
  assert (Hfind : List.find (fun r => matcher_matches (ar_matcher r) process) (ordered_enabled_rules config)
    = snd <$> List.find (fun ir : nat * AppRule => matcher_matches (ar_matcher ir.2) process) ordered).
  { unfold ordered_enabled_rules. fold ordered. clear. induction ordered as [|[i r] l IH]; [done|].
    simpl. by destruct (matcher_matches (ar_matcher r) process). }
  rewrite Hfind in Hf. destruct (List.find (fun c => is_match _ _) rules) as [c|]; simpl.
  - destruct Hf as (r & Hr' & (m & Hm & [= <-])%res_bind_Ok).
    destruct (List.find _ ordered) as [[i r0]|] eqn:Hfo; [|done]. injection Hr' as ->.
    pose proof (find_some _ _ Hfo) as [Hmem Hmatch]. apply list_elem_of_In in Hmem.
    apply Hin in Hmem as [Hi Hen]. exists i, r. split_and!; try done.
    intros j r' Hj Hen' Hm'. assert (Hmem' : (j, r') ∈ ordered) by by apply Hin.
    destruct (sorted_find _ _ _ _ _ Hs Hfo Hmem' Hm') as [[= -> ->]|Hb]; [right; lia|].
    unfold rule_before in Hb. simpl in Hb. lia.
  - destruct (List.find _ ordered) as [|] eqn:Hfo; [done|].
    intros r (i & Hi)%list_elem_of_lookup Hen.
    pose proof (find_none _ _ Hfo (i, r)) as Hn. simpl in Hn. apply Hn.
    apply list_elem_of_In. by apply Hin.
Qed.

(** ** Scheduler decisions *)

(** A task that may receive a plan: the workload or a thread of its user. *)
Definition task_allowed (workload : ProcessInfo) (threads : list ProcessInfo)
    (id : ProcessIdentity) : Prop :=
  id = identity workload \/
  exists t, t ∈ threads /\ identity t = id /\ uid id = uid (identity workload).

(** A plan the scheduler section defines for the scene. *)
Definition plan_of (s : SchedulerConfig) (scene : SchedulerScene) (plan : TaskPlan) : Prop :=
  exists p, p ∈ sc_task_profiles s /\ plan = effective_task_plan p scene.

Definition tasks_ok (s : SchedulerConfig) (workload : ProcessInfo) (threads : list ProcessInfo)
    (scene : SchedulerScene) (tasks : gmap ProcessIdentity TaskPlan) : Prop :=
  forall id plan, tasks !! id = Some plan -> task_allowed workload threads id /\ plan_of s scene plan.

Lemma find_task_profile_Ok s id p : find_task_profile s id = Ok p -> p ∈ sc_task_profiles s.
Proof.
  unfold find_task_profile. intros Hf%ok_or_Ok. apply find_some in Hf as [Hin _].
  by apply list_elem_of_In.
Qed.

Lemma find_task_profile_exists s id :
  id ∈ tpc_id <$> sc_task_profiles s -> exists p, find_task_profile s id = Ok p.
Proof.
  intros (p & -> & Hp)%list_elem_of_fmap. unfold find_task_profile.
  destruct (List.find _ _) as [q|] eqn:Hf; simpl; [eauto|].
  apply list_elem_of_In in Hp. pose proof (find_none _ _ Hf p Hp) as Hn. simpl in Hn.
  by rewrite bool_decide_eq_true_2 in Hn.
Qed.

Lemma tasks_ok_insert s workload threads scene tasks id p :
  tasks_ok s workload threads scene tasks -> task_allowed workload threads id ->
  p ∈ sc_task_profiles s ->
  tasks_ok s workload threads scene (<[id := effective_task_plan p scene]> tasks).
Proof.
  intros Hok Hid Hp id' plan. rewrite lookup_insert_Some.
  intros [[<- <-]|[_ Hl]]; [|by apply Hok]. split; [done|]. exists p. done.
Qed.

Lemma tasks_ok_empty s workload threads scene : tasks_ok s workload threads scene ∅.
Proof. intros id plan. by rewrite lookup_empty. Qed.

Lemma schedule_thread_ok s rule selectors workload threads scene tasks thread tasks' :
  thread = workload \/ thread ∈ threads ->
  tasks_ok s workload threads scene tasks ->
  schedule_thread s rule selectors workload scene tasks thread = Ok tasks' ->
  tasks_ok s workload threads scene tasks'.
Proof.
  intros Hin Hok. unfold schedule_thread.
  destruct (negb _) eqn:Hu; [by intros [= <-]|]. apply negb_false_iff, Z.eqb_eq in Hu.
  destruct (List.find _ _) as [[tr sel]|]; [|by intros [= <-]].
  intros (p & Hp%find_task_profile_Ok & [= <-])%res_bind_Ok. apply tasks_ok_insert; [done| |done].
  destruct Hin as [->|Hin]; [by left|]. right. eauto.
Qed.

Lemma focus_default_ok e workload threads source scene d :
  focus_default_decision e workload threads source scene = Ok d ->
  tasks_ok (pol_scheduler (pe_config e)) workload threads scene (sd_tasks d).
Proof.
  unfold focus_default_decision. destruct (_ || _); [intros [= <-]; apply tasks_ok_empty|].
  destruct (fc_task_profile _) as [id|]; [|intros [= <-]; apply tasks_ok_empty].
  intros (p & Hp%find_task_profile_Ok & [= <-])%res_bind_Ok. simpl.
  assert (Hgen : forall l tasks, (forall t, t ∈ l -> t ∈ threads) ->
    tasks_ok (pol_scheduler (pe_config e)) workload threads scene tasks ->
    tasks_ok (pol_scheduler (pe_config e)) workload threads scene
      (foldl (fun tasks thread =>
         if negb (uid (identity thread) =? uid (identity workload)) then tasks
         else <[identity thread := effective_task_plan p scene]> tasks) tasks l)).
  { induction l as [|t l IH]; intros tasks Hsub Hok; simpl; [done|].
    apply IH; [set_solver|]. destruct (negb _) eqn:Hu; [done|].
    apply negb_false_iff, Z.eqb_eq in Hu. apply tasks_ok_insert; [done| |done].
    right. exists t. split_and!; [set_solver|done|done]. }
  apply Hgen; [done|]. apply (tasks_ok_insert _ _ _ _ ∅); [apply tasks_ok_empty|by left|done].
Qed.

Lemma evaluate_scheduler_tasks e workload threads source scene d :
  evaluate_scheduler e workload threads source scene = Ok d ->
  tasks_ok (pol_scheduler (pe_config e)) workload threads scene (sd_tasks d).
Proof.
  unfold evaluate_scheduler. destruct (negb _); [intros [= <-]; apply tasks_ok_empty|].
  destruct (List.find _ _) as [[rule compiled]|]; [|apply focus_default_ok].
  intros (tasks0 & H0 & (tasks & Ht & [= <-])%res_bind_Ok)%res_bind_Ok. simpl.
  eapply res_foldM_inv; [| |exact Ht].
  - destruct (pr_task_profile rule) as [id|]; [|injection H0 as <-; apply tasks_ok_empty].
    apply res_bind_Ok in H0 as (p & Hp%find_task_profile_Ok & [= <-]).
    apply (tasks_ok_insert _ _ _ _ ∅); [apply tasks_ok_empty|by left|done].
  - intros s t s' Hin Hs Hst. eapply schedule_thread_ok, Hst; [|done].
    apply elem_of_cons in Hin as [->|[Hin _]%elem_of_filter_bool]; [by left|by right].
Qed.

(** C38: a scheduler decision plans only the workload itself and threads of
    the same user among those given, and every plan it hands out is the
    effective plan of a configured task profile in the current scene. *)
Theorem scheduler_decision_confined e workload threads source scene d :
  evaluate_scheduler e workload threads source scene = Ok d ->
  tasks_ok (pol_scheduler (pe_config e)) workload threads scene (sd_tasks d).
Proof. apply evaluate_scheduler_tasks. Qed.

(** ** Totality on validated configurations *)

Lemma schedule_thread_total s rule selectors workload scene tasks thread :
  (forall tr, tr ∈ pr_threads rule -> tr_task_profile tr ∈ tpc_id <$> sc_task_profiles s) ->
  exists tasks', schedule_thread s rule selectors workload scene tasks thread = Ok tasks'.
Proof.
  intros Hr. unfold schedule_thread. destruct (negb _); [eauto|].
  destruct (List.find _ _) as [[tr sel]|] eqn:Hf; [|eauto].
  apply find_some in Hf as [Hin _]. apply list_elem_of_In, elem_of_zip_l in Hin as Htr.
  destruct (find_task_profile_exists _ _ (Hr tr Htr)) as [p ->]. simpl. eauto.
Qed.

Lemma foldM_total {A T E} (f : T -> A -> res T E) s l :
  (forall s x, x ∈ l -> exists s', f s x = Ok s') -> exists s', res_foldM f s l = Ok s'.
Proof.
  revert s. induction l as [|x l IH]; intros s Hf; simpl; [eauto|].
  destruct (Hf s x) as [s' ->]; [set_solver|]. simpl. apply IH. intros s1 y Hy. apply Hf. set_solver.
Qed.

Lemma focus_default_total e workload threads source scene :
  validate_scheduler (pol_scheduler (pe_config e)) = [] ->
  exists d, focus_default_decision e workload threads source scene = Ok d.
Proof.
  intros Hv. unfold focus_default_decision. destruct (_ || _); [eauto|].
  destruct (fc_task_profile _) as [id|] eqn:Hid; [|eauto].
  destruct (find_task_profile_exists _ _ (focus_resolves _ _ Hv Hid)) as [p ->]. simpl. eauto.
Qed.

Lemma PolicyEngine_new_Ok c e :
  PolicyEngine_new c = Ok e -> pe_config e = c /\ exists u, PolicyConfig_validate c = Ok u.
Proof.
  unfold PolicyEngine_new.
  intros (u & Hu & (r & _ & (p & _ & [= <-])%res_bind_Ok)%res_bind_Ok)%res_bind_Ok.
  split; [done|]. destruct (PolicyConfig_validate c); [eauto|done..].
Qed.

(** an engine that was built evaluates every workload: no reference of a
    rule, thread rule or focus default is missing at run time. *)
Theorem scheduler_total config e workload threads source scene :
  PolicyEngine_new config = Ok e ->
  exists d, evaluate_scheduler e workload threads source scene = Ok d.
Proof.
  intros (<- & u & Hu)%PolicyEngine_new_Ok.
  destruct (policy_profiles _ _ Hu) as (Hv & _ & _).
  unfold evaluate_scheduler. destruct (negb _); [eauto|].
  destruct (List.find _ _) as [[rule compiled]|] eqn:Hf; [|by apply focus_default_total].
  apply find_some in Hf as [Hin _]. apply list_elem_of_In, elem_of_zip_l in Hin as Hrule.
  destruct (rules_resolve _ _ Hv Hrule) as (Hp & _ & Ht).
  assert (H0 : exists tasks, (match pr_task_profile rule with
    | None => Ok ∅
    | Some id => let? profile := find_task_profile (pol_scheduler (pe_config e)) id in
        Ok {[ identity workload := effective_task_plan profile scene ]} end
    : res (gmap ProcessIdentity TaskPlan) PolicyError) = Ok tasks).
  { destruct (pr_task_profile rule) as [id|]; [|eauto].
    destruct (find_task_profile_exists _ _ (Hp id eq_refl)) as [p ->]. simpl. eauto. }
  destruct H0 as [tasks ->]. cbn [res_bind].
  match goal with |- context [res_foldM ?f ?s ?l] => destruct (foldM_total f s l) as [s' ->] end.
  { intros s x _. by apply schedule_thread_total. }
  simpl. eauto.
Qed.
End rules_facts.
