(* ===== verification/Engine.v ===== *)
(** * Policy evaluation ([uperf-core/src/policy.rs])

    One observation snapshot to one desired plan: profile and scene
    selection, effective parameters, manual targets under their safety caps,
    and the energy governor for the CPU clusters. *)

From Stdlib Require Import SpecFloat.
From S2P Require Import Prelude Float64 Domain Text Scene Frequency Thermal Load ConfigTypes Validate ValidatePolicy Energy Governor Rules.

Record PolicyInput := {
  pi_generation : Z;
  pi_observed : ObservedState;
  pi_mode : ModeSelection;
  pi_app_profile : option ProfileId;
  pi_hints : HintSet;
  pi_cpu_targets : gmap string CpuTargetPolicy;
  pi_manual_target_policies : gmap string FrequencyPolicy;
  pi_manual_overrides : gmap string FrequencyLimits;
  pi_administrator_caps : gmap string Hertz;
  pi_thermal_caps : gmap string Hertz;
  pi_thermal_degraded : bool;
}.

(** [DesiredPlan] of [domain.rs] *)
Record DesiredPlan := {
  dp_generation : Z;
  dp_effective_profile : ProfileId;
  dp_dominant_scene : Scene;
  dp_frequencies : gmap string FrequencyLimits;
  dp_scalars : gmap string ScalarSettingValue;
  dp_tasks : gmap ProcessIdentity TaskPlan;
}.

Record StatefulPolicyEvaluation := {
  se_desired : DesiredPlan;
  se_next_governor_state : GovernorState;
  se_governor_diagnostics : option GovernorDiagnostics;
}.

Record EffectiveParameters := {
  ep_margin : f64;
  ep_burst : f64;
  ep_limit_efficiency : bool;
  ep_power_budget : option PowerBudgetConfig;
  ep_scalar_values : gmap string ScalarSettingValue;
}.

Definition effective_parameters (p : ProfileConfig) (scene : Scene) : EffectiveParameters :=
  let patch := pc_scenes p !! scene in
  {| ep_margin := unwrap_or (v ← patch; sp_margin v) (pc_margin p);
     ep_burst := unwrap_or (v ← patch; sp_burst v) (pc_burst p);
     ep_limit_efficiency := unwrap_or (v ← patch; sp_limit_efficiency v) (pc_limit_efficiency p);
     ep_power_budget :=
       map_or (v ← patch; sp_power_budget v) (pc_power_budget p)
         (resolve_power_budget (pc_power_budget p));
     (* [scalar_values.extend(patch)]: the patch wins. *)
     ep_scalar_values := map_or patch (pc_scalar_values p)
                           (fun v => sp_scalar_values v ∪ pc_scalar_values p) |}.

Definition finite_loads (cpus : CpuSet) (loads : gmap CpuId f64) : list f64 :=
  (fun l => f64_clamp l f64_zero f64_one) <$>
    List.filter f64_is_finite (omap (fun cpu => loads !! cpu) (CpuSet_iter cpus)).

Definition max_cpu_demand (cpus : CpuSet) (loads : gmap CpuId f64) : f64 :=
  foldl f64_max f64_zero (finite_loads cpus loads).

Definition summed_cpu_demand (cpus : CpuSet) (loads : gmap CpuId f64) : f64 :=
  f64_sum (finite_loads cpus loads).

Definition cluster_load_views (input : PolicyInput) : gmap string f64 * gmap string f64 :=
  let loads := cpu_loads (pi_observed input) in
  ((fun t => max_cpu_demand (cpus t) loads) <$> pi_cpu_targets input,
   (fun t => summed_cpu_demand (cpus t) loads) <$> pi_cpu_targets input).

Definition required_thermal_cap (input : PolicyInput) (id : string)
  : res (option Hertz) PolicyError :=
  let cap := pi_thermal_caps input !! id in
  if pi_thermal_degraded input && bool_decide (cap = None)
  then Err (MissingThermalCap id) else Ok cap.

(** One CPU target of [evaluate_base]: a manual override is constrained. *)
Definition base_cpu_target (input : PolicyInput) (frequencies : gmap string FrequencyLimits)
    (kv : string * CpuTargetPolicy) : res (gmap string FrequencyLimits) PolicyError :=
  let '(id, target) := kv in
  let? thermal_cap := required_thermal_cap input id in
  match pi_manual_overrides input !! id with
  | None => Ok frequencies
  | Some manual =>
      let? limits :=
        constrain_frequency_limits manual (hardware_limits (frequency target))
          (pi_administrator_caps input !! id) thermal_cap
          (available_frequencies (frequency target)) (hertz_per_unit (frequency target)) in
      Ok (<[id := limits]> frequencies)
  end.

(** One manual-only target: left alone unless an override or a cap is active. *)
Definition base_manual_target (input : PolicyInput) (frequencies : gmap string FrequencyLimits)
    (kv : string * FrequencyPolicy) : res (gmap string FrequencyLimits) PolicyError :=
  let '(id, target) := kv in
  if bool_decide (is_Some (frequencies !! id)) then Ok frequencies
  else
    let? thermal_cap := required_thermal_cap input id in
    let administrator_cap := pi_administrator_caps input !! id in
    let manual := pi_manual_overrides input !! id in
    if bool_decide (manual = None) && bool_decide (thermal_cap = None)
       && bool_decide (administrator_cap = None)
    then Ok frequencies
    else
      do? validate target in
      let requested :=
        unwrap_or manual
          (map_or (obs_frequencies (pi_observed input) !! id) (hardware_limits target) obs_limits) in
      let? limits :=
        constrain_frequency_limits requested (hardware_limits target) administrator_cap thermal_cap
          (available_frequencies target) (hertz_per_unit target) in
      Ok (<[id := limits]> frequencies).

Definition select_profile (config : PolicyConfig) (input : PolicyInput) : ProfileId :=
  resolve_effective_profile (pi_mode input) (pi_app_profile input) (pol_default_profile config).

Definition select_scene (input : PolicyInput) : Scene :=
  let now := timestamp (pi_observed input) in
  if pi_thermal_degraded input
  then dominant_at_excluding (pi_hints input) now {[ Boost ]}
  else dominant_at (pi_hints input) now.

Definition evaluate_base (config : PolicyConfig) (input : PolicyInput)
  : res DesiredPlan PolicyError :=
  let effective_profile := select_profile config input in
  let? p := ok_or (profile config effective_profile) (MissingProfile effective_profile) in
  let dominant_scene := select_scene input in
  let parameters := effective_parameters p dominant_scene in
  let? frequencies := res_foldM (base_cpu_target input) ∅ (entries (pi_cpu_targets input)) in
  let? frequencies :=
    res_foldM (base_manual_target input) frequencies (entries (pi_manual_target_policies input)) in
  Ok {| dp_generation := pi_generation input; dp_effective_profile := effective_profile;
        dp_dominant_scene := dominant_scene; dp_frequencies := frequencies;
        dp_scalars := ep_scalar_values parameters; dp_tasks := ∅ |}.

(** The governor's limits join the plan where no manual override holds. *)
Definition merge_limits (overrides : gmap string FrequencyLimits)
    (frequencies : gmap string FrequencyLimits) (kv : string * FrequencyLimits)
  : gmap string FrequencyLimits :=
  if bool_decide (is_Some (overrides !! kv.1)) then frequencies
  else <[kv.1 := kv.2]> frequencies.

Definition governor_input (config : PolicyConfig) (input : PolicyInput) (ep : EffectiveParameters)
    (budget : PowerBudgetConfig) (integrate_elapsed_time : bool) : GovernorInput :=
  {| gi_timestamp := timestamp (pi_observed input);
     gi_targets := pi_cpu_targets input;
     gi_raw_loads := (cluster_load_views input).1;
     gi_active_load_sums := (cluster_load_views input).2;
     gi_observed_frequencies := omap obs_current (obs_frequencies (pi_observed input));
     gi_administrator_caps := pi_administrator_caps input;
     gi_thermal_caps := pi_thermal_caps input;
     gi_config := pol_governor config;
     gi_power_budget := budget;
     gi_margin := ep_margin ep;
     gi_burst := ep_burst ep;
     gi_limit_efficiency := ep_limit_efficiency ep;
     gi_integrate_elapsed_time := integrate_elapsed_time |}.

Definition evaluate_stateful (config : PolicyConfig) (input : PolicyInput)
    (governor_state : GovernorState) (integrate_elapsed_time : bool)
  : res StatefulPolicyEvaluation PolicyError :=
  let? desired := evaluate_base config input in
  let effective_profile := dp_effective_profile desired in
  let? p := ok_or (profile config effective_profile) (MissingProfile effective_profile) in
  let parameters := effective_parameters p (dp_dominant_scene desired) in
  let? budget := ok_or (ep_power_budget parameters) (MissingPowerBudget effective_profile) in
  let? transition :=
    map_err EnergyGovernor
      (transition_governor governor_state
         (governor_input config input parameters budget integrate_elapsed_time)) in
  let frequencies :=
    foldl (merge_limits (pi_manual_overrides input)) (dp_frequencies desired)
      (entries (gt_limits transition)) in
  Ok {| se_desired :=
          {| dp_generation := dp_generation desired;
             dp_effective_profile := dp_effective_profile desired;
             dp_dominant_scene := dp_dominant_scene desired;
             dp_frequencies := frequencies; dp_scalars := dp_scalars desired;
             dp_tasks := dp_tasks desired |};
        se_next_governor_state := gt_next_state transition;
        se_governor_diagnostics := Some (gt_diagnostics transition) |}.
