(* ===== verification/EngineFacts.v ===== *)
(** * Safety of a policy evaluation

    Whatever the profile, the scene, the loads, the manual overrides and the
    governor decide, the frequencies of a desired plan lie under the safety
    caps; thermal degradation is never planned around; and the tasks it
    schedules obey the real-time rules. *)

From Stdlib Require Import SpecFloat.
From S2P Require Import Prelude Float64 Domain Text Scene Frequency Thermal Load ConfigTypes Validate ValidatePolicy ValidateFacts Energy Governor GovernorFacts GovernorTotal Rules RulesFacts Engine.

(** ** Frequencies *)

(** The frequency policy of a target, CPU or manual-only. *)
Definition target_policy (input : PolicyInput) (id : string) (p : FrequencyPolicy) : Prop :=
  (exists t, pi_cpu_targets input !! id = Some t /\ frequency t = p) \/
  pi_manual_target_policies input !! id = Some p.

(** A pair within the window of a target and under its caps; a cap below the
    window holds the target at the window's bottom. *)
Definition under_caps (input : PolicyInput) (id : string) (p : FrequencyPolicy)
    (l : FrequencyLimits) : Prop :=
  lim_min l <= lim_max l /\ lim_max l <= lim_max (hardware_limits p) /\
  forall cap, (pi_administrator_caps input !! id = Some cap \/ pi_thermal_caps input !! id = Some cap) ->
    lim_max l <= Z.max cap (lim_min (hardware_limits p)).

Definition frequencies_safe (input : PolicyInput) (m : gmap string FrequencyLimits) : Prop :=
  forall id l, m !! id = Some l -> exists p, target_policy input id p /\ under_caps input id p l.

(** The machine types of the input: windows are [u64], units are not negative. *)
Definition typed_input (input : PolicyInput) : Prop :=
  forall id p, target_policy input id p ->
    is_u64 (lim_min (hardware_limits p)) /\ is_u64 (lim_max (hardware_limits p)) /\
    0 <= hertz_per_unit p.

Lemma required_thermal_cap_Ok input id cap :
  required_thermal_cap input id = Ok cap ->
  cap = pi_thermal_caps input !! id /\ (pi_thermal_degraded input = true -> is_Some cap).
Proof.
  unfold required_thermal_cap. destruct (pi_thermal_degraded input); simpl.
  - destruct (bool_decide_reflect (pi_thermal_caps input !! id = None)) as [|Hn]; [done|].
    intros [= <-]. split; [done|]. intros _. by destruct (pi_thermal_caps input !! id).
  - by intros [= <-].
Qed.

Section base.
Context (input : PolicyInput) (Htyped : typed_input input).

Lemma constrained_under_caps id p requested l :
  target_policy input id p ->
  constrain_frequency_limits requested (hardware_limits p) (pi_administrator_caps input !! id)
    (pi_thermal_caps input !! id) (available_frequencies p) (hertz_per_unit p) = Ok l ->
  under_caps input id p l.
Proof using Htyped.
  intros Hp Hc. destruct (Htyped id p Hp) as (H1 & H2 & H3).
  destruct (constrain_bounds _ _ _ _ _ _ H3 H1 H2 l Hc) as (B1 & B2 & B3 & B4).
  split_and!; done.
Qed.

Lemma frequencies_safe_insert m id p l :
  frequencies_safe input m -> target_policy input id p -> under_caps input id p l ->
  frequencies_safe input (<[id := l]> m).
Proof using.
  intros Hm Hp Hl id' l'. rewrite lookup_insert_Some. intros [[<- <-]|[_ Hl']]; eauto.
Qed.

Lemma base_cpu_safe m kv m' :
  kv ∈ entries (pi_cpu_targets input) -> frequencies_safe input m ->
  base_cpu_target input m kv = Ok m' -> frequencies_safe input m'.
Proof using Htyped.
  destruct kv as [id target]. intros Hin%elem_of_entries Hm. unfold base_cpu_target.
  intros (cap & [-> _]%required_thermal_cap_Ok & H)%res_bind_Ok.
  destruct (pi_manual_overrides input !! id) as [manual|]; [|by injection H as <-].
  apply res_bind_Ok in H as (l & Hl & [= <-]).
  assert (Hp : target_policy input id (frequency target)) by (left; eauto).
  apply (frequencies_safe_insert _ _ (frequency target)); [done..|].
  by eapply constrained_under_caps.
Qed.

Lemma base_manual_safe m kv m' :
  kv ∈ entries (pi_manual_target_policies input) -> frequencies_safe input m ->
  base_manual_target input m kv = Ok m' -> frequencies_safe input m'.
Proof using Htyped.
  destruct kv as [id target]. intros Hin%elem_of_entries Hm. unfold base_manual_target.
  destruct (bool_decide _); [by intros [= <-]|].
  intros (cap & [-> _]%required_thermal_cap_Ok & H)%res_bind_Ok.
  destruct (_ && _ && _); [by injection H as <-|].
  apply res_bind_Ok in H as (_ & _ & (l & Hl & [= <-])%res_bind_Ok).
  assert (Hp : target_policy input id target) by by right.
  apply (frequencies_safe_insert _ _ target); [done..|]. by eapply constrained_under_caps.
Qed.

Lemma evaluate_base_safe config d :
  evaluate_base config input = Ok d -> frequencies_safe input (dp_frequencies d).
Proof using Htyped.
  unfold evaluate_base. intros (p & _ & (m1 & H1 & (m2 & H2 & [= <-])%res_bind_Ok)%res_bind_Ok)%res_bind_Ok.
  simpl. eapply res_foldM_inv; [| |exact H2].
  - eapply res_foldM_inv; [| |exact H1].
    + intros id l. by rewrite lookup_empty.
    + intros. by eapply base_cpu_safe.
  - intros. by eapply base_manual_safe.
Qed.
End base.

Lemma merge_limits_lookup overrides frequencies l id x :
  foldl (merge_limits overrides) frequencies l !! id = Some x ->
  frequencies !! id = Some x \/ (overrides !! id = None /\ (id, x) ∈ l).
Proof.
  induction l as [|[k v] l IH] using rev_ind; [by left|].
  rewrite foldl_app. cbn [foldl]. unfold merge_limits at 1. simpl.
  destruct (bool_decide_reflect (is_Some (overrides !! k))) as [|Hn].
  - intros [?|[? ?]]%IH; [by left|right; set_solver].
  - rewrite lookup_insert_Some. intros [[<- <-]|[_ H]].
    + right. split; [by apply eq_None_not_Some|set_solver].
    + apply IH in H as [?|[? ?]]; [by left|right; set_solver].
Qed.

(** What a successful evaluation went through. *)
Lemma evaluate_stateful_Ok config input st b ev :
  evaluate_stateful config input st b = Ok ev ->
  exists d p budget t,
    evaluate_base config input = Ok d /\ profile config (dp_effective_profile d) = Some p /\
    transition_governor st
      (governor_input config input (effective_parameters p (dp_dominant_scene d)) budget b) = Ok t /\
    dp_frequencies (se_desired ev)
      = foldl (merge_limits (pi_manual_overrides input)) (dp_frequencies d) (entries (gt_limits t)) /\
    dp_dominant_scene (se_desired ev) = dp_dominant_scene d /\
    dp_effective_profile (se_desired ev) = dp_effective_profile d /\
    dp_scalars (se_desired ev) = dp_scalars d /\ se_next_governor_state ev = gt_next_state t.
Proof.
  unfold evaluate_stateful.
  intros (d & Hd & (p & Hp%ok_or_Ok & (budget & _ & (t & Ht & [= <-])%res_bind_Ok)%res_bind_Ok)%res_bind_Ok)%res_bind_Ok.
  exists d, p, budget, t. split_and!; try done.
  by destruct (transition_governor _ _); simpl in Ht; simplify_eq.
Qed.

Lemma plan_frequencies_safe config input st b ev :
  typed_input input -> evaluate_stateful config input st b = Ok ev ->
  frequencies_safe input (dp_frequencies (se_desired ev)).
Proof.
  intros Htyped (d & p & budget & t & Hd & _ & Ht & -> & _)%evaluate_stateful_Ok id l Hl.
  apply merge_limits_lookup in Hl as [Hl|[_ Hl%elem_of_entries]]; [by eapply evaluate_base_safe|].
  destruct (governor_limits_bounds _ _ _ Ht) as [Hdom Hb].
  destruct (proj2 (Hdom id) ltac:(eauto)) as [target Htarget]. simpl in Htarget.
  destruct (Hb id l target Hl Htarget) as (H1 & H2 & H3 & H4).
  exists (frequency target). split; [left; eauto|]. split_and!; [done..|].
  intros cap [Hc|Hc]; [specialize (H3 cap Hc)|specialize (H4 cap Hc)]; lia.
Qed.


(** ** Thermal degradation *)

Lemma base_cpu_caps input : forall l m m',
  res_foldM (base_cpu_target input) m l = Ok m' ->
  pi_thermal_degraded input = true ->
  forall id target, (id, target) ∈ l -> is_Some (pi_thermal_caps input !! id).
Proof.
  induction l as [|[k t] l IH]; intros m m'; simpl; [set_solver|].
  intros (m1 & H1 & H2)%res_bind_Ok Hdeg id target [[= -> ->]|Hin]%elem_of_cons; [|by eapply IH].
  apply res_bind_Ok in H1 as (cap & [-> Hcap]%required_thermal_cap_Ok & _). by apply Hcap.
Qed.

(** while the thermal state is degraded a plan exists only if every CPU
    target has a thermal cap, and the boost scene is never the dominant one. *)
Theorem degraded_requires_caps config input st b ev :
  evaluate_stateful config input st b = Ok ev -> pi_thermal_degraded input = true ->
  hints_reachable (pi_hints input) ->
  (forall id target, pi_cpu_targets input !! id = Some target ->
     is_Some (pi_thermal_caps input !! id)) /\
  dp_dominant_scene (se_desired ev) <> Boost.
Proof.
  intros (d & p & budget & t & Hd & _ & _ & _ & -> & _)%evaluate_stateful_Ok Hdeg Hwf%reachable_wf.
  unfold evaluate_base in Hd.
  apply res_bind_Ok in Hd as (p0 & _ & (m1 & H1 & (m2 & _ & [= <-])%res_bind_Ok)%res_bind_Ok).
  split.
  - intros id target Hin%elem_of_entries. by eapply base_cpu_caps.
  - simpl. unfold select_scene. rewrite Hdeg.
    destruct (dominant_spec _ (timestamp (pi_observed input)) {[ Boost ]} Hwf) as [_ [->|[_ Hn]]]; [done|].
    set_solver.
Qed.

(** ** Tasks *)

(** real-time isolation end to end. Every plan the scheduler hands to a
    task, with an engine built from a validated policy materialised on the
    device, obeys the FIFO rules: switches on, priority under the ceiling,
    CPUs disjoint from the housekeeping set. *)
Theorem scheduled_tasks_isolated `{RegexEngine} device policy policy' u e workload threads source scene d :
  PolicyConfig_validate policy = Ok u ->
  materialize_cpu_groups {| bundle_device := device; bundle_policy := policy |} = Ok policy' ->
  PolicyEngine_new policy' = Ok e ->
  evaluate_scheduler e workload threads source scene = Ok d ->
  forall id plan, sd_tasks d !! id = Some plan -> plan_safe (pol_scheduler policy') plan.
Proof.
  intros Hv Hm (<- & _)%PolicyEngine_new_Ok He id plan Hplan.
  apply evaluate_scheduler_tasks in He. destruct (He id plan Hplan) as [_ (p & Hp & ->)].
  by eapply materialized_plan_safe.
Qed.

(** * Policy evaluation on a concrete system

    The sample configuration and the clusters of
    [GovernorTotal], with a manual override, a thermal cap, hints and a
    workload with threads. *)

(** ** Rules *)

Definition wit_apps : AppsConfig :=
  {| apps_schema_version := 2;
     apps_rules :=
       [{| ar_id := "any"; ar_enabled := true; ar_priority := 0;
           ar_matcher := {| wm_executable := None; wm_desktop_id := None; wm_comm_regex := Some "e" |};
           ar_profile := Balance |};
        {| ar_id := "game"; ar_enabled := true; ar_priority := 10;
           ar_matcher := {| wm_executable := None; wm_desktop_id := None;
                            wm_comm_regex := Some "game" |};
           ar_profile := Performance |}] |}.

Definition wit_process (p : Z) (u : Z) (name : string) (exe : option string) : ProcessInfo :=
  {| identity := {| pid := p; start_time_ticks := 7; uid := u |}; owner_control_safe := true;
     comm := name; executable := exe; desktop_id := None |}.

Definition wit_app_rules : list CompiledAppRule :=
  match AppRuleEngine_new wit_apps with Ok r => r | _ => [] end.

Definition wit_engine : PolicyEngine :=
  match PolicyEngine_new wit_materialized with
  | Ok e => e
  | _ => {| pe_config := wit_materialized; pe_scheduler_rules := []; pe_focus_protected := [] |}
  end.

Lemma wit_apps_ok : AppRuleEngine_new wit_apps = Ok wit_app_rules.
Proof. vm_compute. reflexivity. Qed.
Lemma wit_engine_ok : PolicyEngine_new wit_materialized = Ok wit_engine.
Proof. vm_compute. reflexivity. Qed.

Lemma match_profile_first_witness :
  exists i r, apps_rules wit_apps !! i = Some r /\ ar_profile r = Performance /\
    forall j r', apps_rules wit_apps !! j = Some r' -> ar_enabled r' = true ->
      matcher_matches (ar_matcher r') (wit_process 10 1000 "game.exe" None) = true ->
      ar_priority r' <= ar_priority r.
Proof.
  pose proof (match_profile_first wit_apps wit_app_rules (wit_process 10 1000 "game.exe" None)
    wit_apps_ok) as H.
  assert (E : match_profile wit_app_rules (wit_process 10 1000 "game.exe" None) = Some Performance)
    by (vm_compute; reflexivity).
  rewrite E in H. destruct H as (i & r & Hi & _ & Hp & _ & Hbest). exists i, r.
  split; [exact Hi|split; [exact Hp|]]. intros j r' Hj Hen Hm. specialize (Hbest j r' Hj Hen Hm). lia.
Defined.

Definition wit_workload : ProcessInfo := wit_process 42 1000 "pipewire" (Some "/usr/bin/pipewire").
Definition wit_threads : list ProcessInfo :=
  [wit_process 43 1000 "data-loop.0" None; wit_process 44 1000 "module-rt" None;
   wit_process 45 0 "data-loop.1" None].

Definition wit_decision : SchedulerDecision :=
  match evaluate_scheduler wit_engine wit_workload wit_threads Explicit SBoost with
  | Ok d => d | _ => SchedulerDecision_default end.

Lemma wit_decision_ok :
  evaluate_scheduler wit_engine wit_workload wit_threads Explicit SBoost = Ok wit_decision.
Proof. vm_compute. reflexivity. Qed.

(** The leader and its data loop are planned; the other thread and the thread
    of another user are not. *)
Example wit_decision_tasks :
  (pid ∘ fst) <$> entries (sd_tasks wit_decision) = [42; 43].
Proof. vm_compute. reflexivity. Qed.

Lemma scheduler_decision_confined_witness :
  tasks_ok (pol_scheduler (pe_config wit_engine)) wit_workload wit_threads SBoost
    (sd_tasks wit_decision).
Proof. exact (scheduler_decision_confined _ _ _ _ _ _ wit_decision_ok). Defined.

Lemma scheduler_total_witness :
  exists d, evaluate_scheduler wit_engine wit_workload wit_threads Focus STouch = Ok d.
Proof. exact (scheduler_total _ _ wit_workload wit_threads Focus STouch wit_engine_ok). Defined.

Lemma scheduled_tasks_isolated_witness :
  exists plan, sd_tasks wit_decision !! identity wit_workload = Some plan /\
    scheduling_class plan = Some Fifo /\ plan_safe (pol_scheduler wit_materialized) plan.
Proof.
  assert (E : exists plan, sd_tasks wit_decision !! identity wit_workload = Some plan /\
    scheduling_class plan = Some Fifo) by (eexists; split; vm_compute; reflexivity).
  destruct E as (plan & E & F). exists plan. split; [exact E|split; [exact F|]].
  exact (scheduled_tasks_isolated wit_device wit_policy_config wit_materialized tt wit_engine
    wit_workload wit_threads Explicit SBoost wit_decision wit_policy_valid wit_bundle_valid
    wit_engine_ok wit_decision_ok _ plan E).
Defined.

(** ** Evaluation *)

Definition wit_hints : HintSet :=
  apply_op (apply_op ∅ (OpActivate (with_ttl Boost 900 500))) (OpActivate (with_ttl Touch 950 500)).

Definition wit_gpu : FrequencyPolicy :=
  {| hardware_limits := {| lim_min := 200; lim_max := 800 |}; floor := 200; reference := 200;
     efficient_cap := 800; hertz_per_unit := 1; available_frequencies := [200; 400; 800] |}.

Definition wit_pinput : PolicyInput :=
  {| pi_generation := 1;
     pi_observed := {| timestamp := 1000;
                       cpu_loads := list_to_map [(0, f64_lit 1 2); (4, f64_lit 9 10)];
                       obs_frequencies := ∅; thermal := ∅ |};
     pi_mode := Auto; pi_app_profile := None; pi_hints := wit_hints;
     pi_cpu_targets := wit_targets;
     pi_manual_target_policies := {[ "gpu" := wit_gpu ]};
     pi_manual_overrides := {[ "gpu" := {| lim_min := 400; lim_max := 800 |} ]};
     pi_administrator_caps := {[ "gpu" := 500 ]};
     pi_thermal_caps := {[ "big" := ghz 16; "little" := ghz 18; "gpu" := 700 ]};
     pi_thermal_degraded := true |}.

Definition wit_evaluation : StatefulPolicyEvaluation :=
  match evaluate_stateful wit_materialized wit_pinput GovernorState_default true with
  | Ok ev => ev
  | _ => {| se_desired := {| dp_generation := 0; dp_effective_profile := Balance;
                             dp_dominant_scene := SIdle; dp_frequencies := ∅; dp_scalars := ∅;
                             dp_tasks := ∅ |};
            se_next_governor_state := GovernorState_default; se_governor_diagnostics := None |}
  end.

Lemma wit_evaluation_ok :
  evaluate_stateful wit_materialized wit_pinput GovernorState_default true = Ok wit_evaluation.
Proof. vm_compute. reflexivity. Qed.

Lemma wit_typed : typed_input wit_pinput.
Proof.
  intros id p [(t & Ht & <-)|Hm].
  - apply wit_target_cases in Ht as [(_ & _ & ->)|(_ & _ & ->)]; vm_compute; split_and!; discriminate.
  - simpl in Hm. apply lookup_singleton_Some in Hm as [_ <-]. vm_compute. split_and!; discriminate.
Qed.


Lemma degraded_requires_caps_witness : dp_dominant_scene (se_desired wit_evaluation) <> Boost.
Proof.
  assert (Hr : hints_reachable (pi_hints wit_pinput))
    by (change (hints_reachable wit_hints); repeat constructor).
  exact (proj2 (degraded_requires_caps _ _ _ _ _ wit_evaluation_ok eq_refl Hr)).
Defined.
