(* ===== verification/Strings.v ===== *)
(** * Strings: decimal numbers, trimming and splitting

    The parts of [str] and of the integer [FromStr] and [Display] instances
    that the actuator uses on sysfs attributes, with the round trips of
    printing and parsing. *)

From stdpp Require Import pretty.
From S2P Require Import Prelude Float64 Domain Text.

(** ** Printing and parsing integers *)

(** [to_string] of an integer. *)
Definition to_string (z : Z) : string := pretty z.

Definition digit_of (c : Ascii.ascii) : option Z :=
  if is_ascii_digit c then Some (byte_of c - 48) else None.

Fixpoint digits_value (acc : Z) (l : list Ascii.ascii) : option Z :=
  match l with
  | [] => Some acc
  | c :: l => d ← digit_of c; digits_value (acc * 10 + d) l
  end.

Definition parse_digits (l : list Ascii.ascii) : option Z :=
  match l with [] => None | _ => digits_value 0 l end.

Definition plus_sign : Ascii.ascii := Ascii.ascii_of_nat 43.
Definition minus_sign : Ascii.ascii := Ascii.ascii_of_nat 45.

(** [str::parse] of an unsigned type with the given maximum: an optional
    [+], then at least one digit. *)
Definition parse_unsigned (maximum : Z) (s : string) : option Z :=
  let digits :=
    match bytes s with
    | c :: l => if bool_decide (c = plus_sign) then l else c :: l
    | [] => []
    end in
  v ← parse_digits digits;
  if v <=? maximum then Some v else None.

Definition parse_u64 : string -> option Z := parse_unsigned u64_max.
Definition parse_u32 : string -> option Z := parse_unsigned u32_max.

(** [str::parse::<i64>]. *)
Definition parse_i64 (s : string) : option Z :=
  match bytes s with
  | c :: l =>
      if bool_decide (c = minus_sign) then
        v ← parse_digits l;
        if v <=? 9223372036854775808 then Some (- v) else None
      else
        v ← parse_digits (if bool_decide (c = plus_sign) then l else c :: l);
        if v <=? 9223372036854775807 then Some v else None
  | [] => None
  end.

(** ** Trimming *)

Fixpoint take_while {A} (p : A -> bool) (l : list A) : list A :=
  match l with
  | [] => []
  | x :: l' => if p x then x :: take_while p l' else []
  end.

(** [str::trim], as the slice of the string it returns. *)
Definition trim_str (s : string) : string :=
  let ws := fun c : Z * Z => is_whitespace c.1 in
  String.substring (Z.to_nat (chars_len (take_while ws (chars s))))
    (Z.to_nat (chars_len (trim s))) s.

(** ** Splitting *)

(** [str::split] at an ASCII character. *)
Fixpoint split_on (sep : Ascii.ascii) (s : string) : list string :=
  match s with
  | EmptyString => [EmptyString]
  | String c s' =>
      if bool_decide (c = sep) then EmptyString :: split_on sep s'
      else
        match split_on sep s' with
        | [] => [String c EmptyString]
        | w :: ws => String c w :: ws
        end
  end.

(** [str::split_once] at an ASCII character. *)
Fixpoint split_once (sep : Ascii.ascii) (s : string) : option (string * string) :=
  match s with
  | EmptyString => None
  | String c s' =>
      if bool_decide (c = sep) then Some (EmptyString, s')
      else '(a, b) ← split_once sep s'; Some (String c a, b)
  end.

Definition is_ascii_whitespace (c : Ascii.ascii) : bool :=
  let b := byte_of c in
  (b =? 9) || (b =? 10) || (b =? 12) || (b =? 13) || (b =? 32).

(** [str::split_ascii_whitespace]: the maximal runs of other characters. *)
Fixpoint split_ascii_whitespace (s : string) : list string :=
  match s with
  | EmptyString => []
  | String c s' =>
      if is_ascii_whitespace c then split_ascii_whitespace s'
      else
        match s' with
        | EmptyString => [String c EmptyString]
        | String d _ =>
            if is_ascii_whitespace d then String c EmptyString :: split_ascii_whitespace s'
            else
              match split_ascii_whitespace s' with
              | [] => [String c EmptyString]
              | w :: ws => String c w :: ws
              end
        end
  end.

(** [str::contains] of an ASCII character. *)
Definition contains (c : Ascii.ascii) (s : string) : bool := bool_decide (c ∈ bytes s).

(** [slice.join(sep)] *)
Fixpoint join (sep : string) (l : list string) : string :=
  match l with
  | [] => ""
  | [w] => w
  | w :: ws => w +:+ sep +:+ join sep ws
  end.

(** ** Lemmas *)

Lemma bytes_app a b : bytes (a +:+ b) = bytes a ++ bytes b.
Proof. unfold bytes. induction a as [|c a IH]; simpl; [done|]. by rewrite IH. Qed.

(** A visible ASCII character. *)
Definition graphic (c : Ascii.ascii) : Prop := 33 <= byte_of c < 127.

Lemma chars_len_chars_graphic l :
  Forall graphic l -> utf8_chars (byte_of <$> l) = (fun c => (byte_of c, 1)) <$> l.
Proof.
  unfold graphic. induction 1 as [|c l Hc Hl IH]; [done|]. rewrite !fmap_cons. simpl.
  rewrite (proj2 (Z.ltb_lt _ 128)) by lia. by rewrite IH.
Qed.

Lemma graphic_not_whitespace c : graphic c -> is_whitespace (byte_of c) = false.
Proof. unfold graphic, is_whitespace. intros. lia. Qed.

Lemma take_while_none {A} (p : A -> bool) l :
  Forall (fun x => p x = false) l -> take_while p l = [] /\ drop_while p l = l.
Proof. destruct 1 as [|x l Hx]; simpl; [done|]. by rewrite Hx. Qed.

Lemma substring_all s : String.substring 0 (String.length s) s = s.
Proof. induction s as [|c s IH]; simpl; [done|]. by rewrite IH. Qed.

Lemma substring_app a b : String.substring 0 (String.length a) (a +:+ b) = a.
Proof.
  induction a as [|c a IH]; simpl; [by destruct b|]. change (String.append a b) with (a +:+ b). by rewrite IH.
Qed.

Lemma chars_len_bytes l : chars_len ((fun c => (byte_of c, 1)) <$> l) = Z.of_nat (length l).
Proof.
  induction l as [|c l IH]; [done|]. rewrite fmap_cons.
  change (1 + chars_len ((fun c => (byte_of c, 1)) <$> l) = Z.of_nat (S (length l))). rewrite IH. lia.
Qed.

(** Blanks after visible characters are what is trimmed. *)
Lemma trim_str_blanks s b :
  s <> "" -> Forall graphic (bytes s) ->
  Forall (fun c => byte_of c < 128 /\ is_whitespace (byte_of c) = true) (bytes b) ->
  trim_str (s +:+ b) = s.
Proof.
  intros Hne Hs Hb. unfold trim_str, trim, chars.
  assert (Hc : utf8_chars (byte_of <$> bytes (s +:+ b)) = (fun c => (byte_of c, 1)) <$> bytes s ++ bytes b).
  { assert (Hp : Forall (fun c => byte_of c < 128) (bytes s ++ bytes b)).
    { apply Forall_app. split; [eapply Forall_impl; [exact Hs|unfold graphic; simpl; lia]|].
      eapply Forall_impl; [exact Hb|]. by intros ? []. }
    rewrite bytes_app. induction Hp as [|c l Hc Hp IH]; [done|]. rewrite !fmap_cons. simpl.
    rewrite (proj2 (Z.ltb_lt _ 128)) by done. by rewrite IH. }
  rewrite Hc, fmap_app. set (ws := fun c : Z * Z => is_whitespace c.1).
  assert (Hcs : Forall (fun c => ws c = false) ((fun c => (byte_of c, 1)) <$> bytes s)).
  { apply Forall_fmap. eapply Forall_impl; [exact Hs|]. intros c. apply graphic_not_whitespace. }
  set (bs := (fun c => (byte_of c, 1)) <$> bytes b).
  assert (Hbs : Forall (fun c => ws c = true) (rev bs)).
  { apply Forall_rev. subst bs. apply Forall_fmap. eapply Forall_impl; [exact Hb|]. by intros ? []. }
  assert (Hd : forall k, drop_while ws (rev bs ++ k) = drop_while ws k).
  { intros k. induction Hbs as [|x l Hx Hl IH]; [done|]. simpl. by rewrite Hx. }
  destruct (bytes s) as [|d l] eqn:Es; [destruct Hne; by destruct s|].
  pose proof (Forall_inv Hcs) as Hh. simpl in Hh. rewrite fmap_cons.
  change (((byte_of d, 1) :: ((fun c => (byte_of c, 1)) <$> l)) ++ bs)
    with ((byte_of d, 1) :: (((fun c => (byte_of c, 1)) <$> l) ++ bs)).
  simpl take_while. simpl (drop_while ws (_ :: _)). rewrite Hh.
  change ((byte_of d, 1) :: (((fun c => (byte_of c, 1)) <$> l) ++ bs))
    with (((fun c => (byte_of c, 1)) <$> (d :: l)) ++ bs).
  rewrite rev_app_distr, Hd.
  assert (Hr : Forall (fun c => ws c = false) (rev ((fun c => (byte_of c, 1)) <$> (d :: l))))
    by (by apply Forall_rev).
  destruct (take_while_none ws _ Hr) as [_ ->]. rewrite rev_involutive, chars_len_bytes, <- Es.
  change (chars_len []) with 0. rewrite Nat2Z.id. pose proof (length_bytes s) as Hl. unfold str_len in Hl.
  replace (length (bytes s)) with (String.length s) by lia. apply substring_app.
Qed.

(** Nothing is trimmed from a string of visible characters. *)
Lemma trim_str_graphic s : Forall graphic (bytes s) -> trim_str s = s.
Proof.
  intros Hs. destruct (decide (s = "")) as [->|Hne]; [done|].
  assert (E : s +:+ "" = s) by (clear; induction s as [|c s IH]; [done|]; by rewrite <- IH at 2).
  rewrite <- E at 1. by apply trim_str_blanks; [| |constructor].
Qed.

(** *** Decimal round trip *)

Definition digits (l : list Ascii.ascii) : Prop := Forall (fun c => is_ascii_digit c = true) l.

Lemma digits_value_app a b acc v :
  digits_value acc a = Some v -> digits_value acc (a ++ b) = digits_value v b.
Proof.
  revert acc. induction a as [|c a IH]; intros acc; simpl; [congruence|].
  destruct (digit_of c) as [d|]; simpl; [apply IH|done].
Qed.

Lemma pretty_N_char_digit x :
  (x < 10)%N -> digit_of (pretty_N_char x) = Some (Z.of_N x) /\ is_ascii_digit (pretty_N_char x) = true.
Proof.
  intros Hx.
  assert (x = 0 \/ x = 1 \/ x = 2 \/ x = 3 \/ x = 4 \/ x = 5 \/ x = 6 \/ x = 7 \/ x = 8 \/ x = 9)%N
    as Hc by lia.
  repeat (destruct Hc as [->|Hc]; [done|]). by subst x.
Qed.

Lemma pretty_N_go_digits x s :
  exists ds, bytes (pretty_N_go x s) = ds ++ bytes s /\ digits ds /\ (0 < x -> ds <> [])%N /\
    digits_value 0 ds = Some (Z.of_N x).
Proof.
  revert s. induction (N.lt_wf_0 x) as [x _ IH]. intros s.
  destruct (decide (x = 0)%N) as [->|Hx].
  { exists []. rewrite pretty_N_go_0. split_and!; [done|constructor|lia|done]. }
  rewrite pretty_N_go_step by lia.
  destruct (IH (x `div` 10)%N) with (s := String (pretty_N_char (x `mod` 10)) s)
    as (ds & Hb & Hd & _ & Hv); [apply N.div_lt; lia|].
  destruct (pretty_N_char_digit (x `mod` 10)%N) as [Hc Hc']; [apply N.mod_lt; lia|].
  exists (ds ++ [pretty_N_char (x `mod` 10)]). split_and!.
  - rewrite Hb, <- app_assoc. done.
  - apply Forall_app. split; [done|by repeat constructor].
  - intros _. by destruct ds.
  - rewrite (digits_value_app _ _ _ _ Hv). simpl. rewrite Hc. simpl. f_equal.
    rewrite N2Z.inj_div, N2Z.inj_mod. pose proof (Z.div_mod (Z.of_N x) 10). lia.
Qed.

Lemma to_string_digits z :
  0 <= z -> digits (bytes (to_string z)) /\ parse_digits (bytes (to_string z)) = Some z.
Proof.
  intros Hz. unfold to_string, pretty, pretty_Z. destruct z as [|p|p]; [|simpl|lia].
  - split; [by repeat constructor|done].
  - change (pretty p) with (if decide (N.pos p = 0)%N then "0" else pretty_N_go (N.pos p) "").
    rewrite decide_False by lia.
    destruct (pretty_N_go_digits (Npos p) "") as (ds & -> & Hd & Hne & Hv).
    change (bytes "") with (@nil Ascii.ascii). rewrite app_nil_r. split; [done|].
    unfold parse_digits. destruct ds; [by destruct Hne|done].
Qed.

Lemma to_string_neg z : z < 0 -> to_string z = String minus_sign (to_string (- z)).
Proof. destruct z as [|p|p]; [lia|lia|done]. Qed.

Lemma digit_not_sign c : is_ascii_digit c = true -> c <> plus_sign /\ c <> minus_sign.
Proof. intros Hc. split; intros ->; done. Qed.

Lemma digits_head l c l' : digits l -> l = c :: l' -> c <> plus_sign /\ c <> minus_sign.
Proof. intros Hd ->. apply Forall_cons in Hd as [Hc _]. by apply digit_not_sign. Qed.

Lemma parse_unsigned_to_string maximum z :
  0 <= z <= maximum -> parse_unsigned maximum (to_string z) = Some z.
Proof.
  intros Hz. destruct (to_string_digits z) as [Hd Hv]; [lia|]. unfold parse_unsigned.
  destruct (bytes (to_string z)) as [|c l] eqn:E; [done|].
  destruct (digits_head _ c l Hd eq_refl) as [Hp _]. rewrite bool_decide_eq_false_2 by done.
  rewrite Hv. simpl. by rewrite (proj2 (Z.leb_le _ _)) by lia.
Qed.

Lemma parse_i64_to_string z : is_i64 z -> parse_i64 (to_string z) = Some z.
Proof.
  unfold is_i64, parse_i64. intros Hz. destruct (Z.ltb_spec z 0) as [Hneg|Hpos].
  - rewrite to_string_neg by done. destruct (to_string_digits (- z)) as [_ Hv]; [lia|].
    change (bytes (String minus_sign (to_string (- z))))
      with (minus_sign :: bytes (to_string (- z))).
    cbn beta iota. rewrite (bool_decide_eq_true_2 (minus_sign = minus_sign)) by done.
    rewrite Hv. simpl.
    rewrite (proj2 (Z.leb_le _ _)) by lia. by rewrite Z.opp_involutive.
  - destruct (to_string_digits z Hpos) as [Hd Hv].
    destruct (bytes (to_string z)) as [|c l] eqn:E; [done|].
    destruct (digits_head _ c l Hd eq_refl) as [Hp Hm]. rewrite !bool_decide_eq_false_2 by done.
    rewrite Hv. simpl. by rewrite (proj2 (Z.leb_le _ _)) by lia.
Qed.

Lemma digit_graphic c : is_ascii_digit c = true -> graphic c.
Proof. unfold is_ascii_digit, graphic. lia. Qed.

Lemma digits_graphic l : digits l -> Forall graphic l.
Proof. intros Hl. eapply Forall_impl; [exact Hl|exact digit_graphic]. Qed.

Lemma to_string_graphic z : Forall graphic (bytes (to_string z)).
Proof.
  destruct (Z.ltb_spec z 0) as [Hneg|Hpos].
  - rewrite to_string_neg by done.
    change (bytes (String minus_sign (to_string (- z))))
      with (minus_sign :: bytes (to_string (- z))).
    constructor; [by vm_compute|]. apply digits_graphic, to_string_digits. lia.
  - by apply digits_graphic, to_string_digits.
Qed.

Example parse_examples :
  parse_u64 "18446744073709551616" = None /\ parse_u64 "+7" = Some 7 /\ parse_u64 "" = None /\
  parse_u64 "+" = None /\ parse_i64 "-9223372036854775808" = Some (-9223372036854775808) /\
  trim_str "  a b " = "a b" /\ split_ascii_whitespace " a  b" = ["a"; "b"].
Proof. vm_compute. done. Qed.

(** *** Splitting what was joined *)

Lemma bytes_cons c s : bytes (String c s) = c :: bytes s.
Proof. done. Qed.

Lemma split_on_app sep a b :
  sep ∉ bytes a -> split_on sep (a +:+ String sep b) = a :: split_on sep b.
Proof.
  induction a as [|c a IH]; intros Hn.
  - simpl. by rewrite bool_decide_eq_true_2.
  - rewrite bytes_cons in Hn. simpl. rewrite bool_decide_eq_false_2 by set_solver.
    by rewrite IH by set_solver.
Qed.

Lemma split_on_none sep a : sep ∉ bytes a -> split_on sep a = [a].
Proof.
  induction a as [|c a IH]; intros Hn; [done|]. rewrite bytes_cons in Hn. simpl.
  rewrite bool_decide_eq_false_2 by set_solver. by rewrite IH by set_solver.
Qed.

Lemma split_on_join sep ws :
  ws <> [] -> Forall (fun w => sep ∉ bytes w) ws ->
  split_on sep (join (String sep EmptyString) ws) = ws.
Proof.
  intros Hne Hws. induction Hws as [|w ws Hw Hws IH]; [done|].
  destruct ws as [|w' ws]; [by apply split_on_none|].
  change (join (String sep "") (w :: w' :: ws))
    with (w +:+ String sep (join (String sep "") (w' :: ws))).
  rewrite split_on_app by done. by rewrite IH.
Qed.

Lemma split_once_app sep a b :
  sep ∉ bytes a -> split_once sep (a +:+ String sep b) = Some (a, b).
Proof.
  induction a as [|c a IH]; intros Hn.
  - simpl. by rewrite bool_decide_eq_true_2.
  - rewrite bytes_cons in Hn. simpl. rewrite bool_decide_eq_false_2 by set_solver.
    by rewrite IH by set_solver.
Qed.

Lemma split_once_none sep a : sep ∉ bytes a -> split_once sep a = None.
Proof.
  induction a as [|c a IH]; intros Hn; [done|]. rewrite bytes_cons in Hn. simpl.
  rewrite bool_decide_eq_false_2 by set_solver. by rewrite IH by set_solver.
Qed.

Lemma graphic_not_ascii_whitespace c : graphic c -> is_ascii_whitespace c = false.
Proof. unfold graphic, is_ascii_whitespace. lia. Qed.

Lemma split_ascii_whitespace_graphic s :
  s <> "" -> Forall graphic (bytes s) -> split_ascii_whitespace s = [s].
Proof.
  induction s as [|c s IH]; intros Hne Hg; [done|].
  rewrite bytes_cons, Forall_cons in Hg. destruct Hg as [Hc Hs]. simpl.
  rewrite graphic_not_ascii_whitespace by done.
  destruct s as [|d s]; [done|]. pose proof Hs as Hs'.
  rewrite bytes_cons, Forall_cons in Hs'. destruct Hs' as [Hd _].
  rewrite graphic_not_ascii_whitespace by done. by rewrite IH.
Qed.

Lemma digits_not_elem c l : digits l -> is_ascii_digit c = false -> c ∉ l.
Proof.
  intros Hl Hc Hin. unfold digits in Hl. rewrite Forall_forall in Hl.
  specialize (Hl c Hin). congruence.
Qed.

Lemma to_string_not_empty z : to_string z <> "".
Proof.
  destruct (Z.ltb_spec z 0) as [Hneg|Hpos]; [by rewrite to_string_neg|].
  intros He. destruct (to_string_digits z Hpos) as [_ Hv]. by rewrite He in Hv.
Qed.

(** * Text read from the kernel

    What the Linux adapters use of [str] and of byte slices beyond [Strings.v]:
    prefixes, lines, words, the first and last place of a byte, decoding of
    bytes that may not be UTF-8, and the error a number fails to parse with. *)

Definition of_bytes (l : list Ascii.ascii) : string := String.string_of_list_ascii l.

(** ** Prefixes and places *)

(** [str::starts_with], [str::strip_prefix] *)
Definition starts_with (prefix s : string) : bool := String.prefix prefix s.

Definition strip_prefix (prefix s : string) : option string :=
  if String.prefix prefix s
  then Some (String.substring (String.length prefix) (String.length s - String.length prefix) s)
  else None.

(** [Iterator::position] of a byte, and [rposition]. *)
Fixpoint position (c : Ascii.ascii) (l : list Ascii.ascii) : option nat :=
  match l with
  | [] => None
  | d :: l => if bool_decide (d = c) then Some O else S <$> position c l
  end.

Fixpoint rposition (c : Ascii.ascii) (l : list Ascii.ascii) : option nat :=
  match l with
  | [] => None
  | d :: l =>
      match rposition c l with
      | Some n => Some (S n)
      | None => if bool_decide (d = c) then Some O else None
      end
  end.

(** ** UTF-8 *)

Definition continuation (b : Z) : bool := (128 <=? b) && (b <=? 191).

(** Whether the second byte of a sequence may follow its first. *)
Definition second_byte (a b : Z) : bool :=
  if a =? 224 then (160 <=? b) && (b <=? 191)
  else if a =? 237 then (128 <=? b) && (b <=? 159)
  else if a =? 240 then (144 <=? b) && (b <=? 191)
  else if a =? 244 then (128 <=? b) && (b <=? 143)
  else continuation b.

(** The next character: whether it is valid, and how many bytes it takes or
    invalidates. A missing byte reads as 0. *)
Definition utf8_step (a : Z) (l : list Z) : bool * nat :=
  let b := unwrap_or (l !! 0%nat) 0 in
  let c := unwrap_or (l !! 1%nat) 0 in
  let d := unwrap_or (l !! 2%nat) 0 in
  if a <? 128 then (true, 1%nat)
  else if (194 <=? a) && (a <=? 223) then (if continuation b then (true, 2%nat) else (false, 1%nat))
  else if (224 <=? a) && (a <=? 239) then
    if negb (second_byte a b) then (false, 1%nat)
    else if continuation c then (true, 3%nat) else (false, 2%nat)
  else if (240 <=? a) && (a <=? 244) then
    if negb (second_byte a b) then (false, 1%nat)
    else if negb (continuation c) then (false, 2%nat)
    else if continuation d then (true, 4%nat) else (false, 3%nat)
  else (false, 1%nat).

Definition replacement : list Ascii.ascii :=
  [Ascii.ascii_of_nat 239; Ascii.ascii_of_nat 191; Ascii.ascii_of_nat 189].

(** The text with what is invalid replaced, and whether nothing was. Each
    character takes a byte at least. *)
Fixpoint utf8_decode (fuel : nat) (l : list Ascii.ascii) : bool * list Ascii.ascii :=
  match fuel, l with
  | S fuel, a :: rest =>
      let '(valid, n) := utf8_step (byte_of a) (byte_of <$> rest) in
      let '(valid', out) := utf8_decode fuel (drop n l) in
      (valid && valid', (if valid then take n l else replacement) ++ out)
  | _, _ => (true, [])
  end.

(** [std::str::from_utf8] and [String::from_utf8_lossy] *)
Definition from_utf8 (l : list Ascii.ascii) : option string :=
  if (utf8_decode (length l) l).1 then Some (of_bytes l) else None.

Definition from_utf8_lossy (l : list Ascii.ascii) : string := of_bytes (utf8_decode (length l) l).2.

(** [Display] of [Utf8Error]: where the first invalid sequence is, and how long;
    a sequence that the end of the text cuts short has no length. *)
Fixpoint utf8_error (fuel : nat) (at_ : Z) (l : list Ascii.ascii) : string :=
  match fuel, l with
  | S fuel, a :: rest =>
      let '(valid, n) := utf8_step (byte_of a) (byte_of <$> rest) in
      if valid then utf8_error fuel (at_ + Z.of_nat n) (drop n l)
      else if (194 <=? byte_of a) && (byte_of a <=? 244) && (n =? length l)%nat
      then "incomplete utf-8 byte sequence from index " +:+ to_string at_
      else "invalid utf-8 sequence of " +:+ to_string (Z.of_nat n) +:+ " bytes from index " +:+ to_string at_
  | _, _ => ""
  end.

(** ** Words and lines *)

(** [str::split_whitespace]: the runs of characters that are not white space. *)
Fixpoint words_from (l : list (Z * Z)) (s : list Ascii.ascii) (word : list Ascii.ascii)
  : list (list Ascii.ascii) :=
  match l with
  | [] => match word with [] => [] | _ => [word] end
  | (c, n) :: l =>
      let rest := drop (Z.to_nat n) s in
      if is_whitespace c
      then match word with [] => [] | _ => [word] end ++ words_from l rest []
      else words_from l rest (word ++ take (Z.to_nat n) s)
  end.

Definition split_whitespace (s : string) : list string :=
  of_bytes <$> words_from (chars s) (bytes s) [].

Definition newline : Ascii.ascii := Ascii.ascii_of_nat 10.
Definition carriage_return : Ascii.ascii := Ascii.ascii_of_nat 13.

(** [str::lines]: split at line feeds, without a last empty line, and each
    without one carriage return at its end. *)
Definition chomp (s : string) : string :=
  match rev (bytes s) with
  | c :: l => if bool_decide (c = carriage_return) then of_bytes (rev l) else s
  | [] => s
  end.

Definition lines (s : string) : list string :=
  let pieces := split_on newline s in
  let kept := if bool_decide (last pieces = Some "") then removelast pieces else pieces in
  chomp <$> kept.

(** ** Numbers *)

(** [ParseIntError] of an unsigned type. *)
Fixpoint digits_error (maximum acc : Z) (l : list Ascii.ascii) : string :=
  match l with
  | [] => ""
  | c :: l =>
      match digit_of c with
      | None => "invalid digit found in string"
      | Some d =>
          if maximum <? acc * 10 + d then "number too large to fit in target type"
          else digits_error maximum (acc * 10 + d) l
      end
  end.

Definition parse_error (maximum : Z) (s : string) : string :=
  match bytes s with
  | [] => "cannot parse integer from empty string"
  | [c] => "invalid digit found in string"
  | c :: l => digits_error maximum 0 (if bool_decide (c = plus_sign) then l else c :: l)
  end.

Definition u16_max : Z := 65535.
Definition u8_max : Z := 255.

(** ** Lemmas *)

Lemma bytes_of_bytes l : bytes (of_bytes l) = l.
Proof. apply String.list_ascii_of_string_of_list_ascii. Qed.

Lemma of_bytes_bytes s : of_bytes (bytes s) = s.
Proof. apply String.string_of_list_ascii_of_string. Qed.

Lemma position_app c l k : c ∉ l -> position c (l ++ c :: k) = Some (length l).
Proof.
  induction l as [|d l IH]; intros Hn; simpl; [by rewrite bool_decide_eq_true_2|].
  rewrite bool_decide_eq_false_2 by set_solver. by rewrite IH by set_solver.
Qed.

Lemma rposition_none c l : c ∉ l -> rposition c l = None.
Proof.
  induction l as [|d l IH]; intros Hn; simpl; [done|]. rewrite IH by set_solver.
  by rewrite bool_decide_eq_false_2 by set_solver.
Qed.

Lemma rposition_app c l k : c ∉ k -> rposition c (l ++ c :: k) = Some (length l).
Proof.
  intros Hn. induction l as [|d l IH]; simpl; [|by rewrite IH].
  rewrite rposition_none by done. by rewrite bool_decide_eq_true_2.
Qed.

(** Visible characters and blanks are UTF-8. *)
Definition plain (c : Ascii.ascii) : Prop := byte_of c < 128.

Lemma byte_of_nonneg c : 0 <= byte_of c.
Proof. unfold byte_of. lia. Qed.

Lemma utf8_decode_plain fuel l :
  Forall plain l -> (length l <= fuel)%nat -> utf8_decode fuel l = (true, l).
Proof.
  intros Hl. revert fuel. induction Hl as [|c l Hc Hl IH]; intros [|fuel] Hf; simpl in *; try done; [lia|].
  unfold utf8_step. rewrite (proj2 (Z.ltb_lt _ _) Hc). simpl. rewrite skipn_O.
  by rewrite IH by lia.
Qed.

Lemma from_utf8_plain l : Forall plain l -> from_utf8 l = Some (of_bytes l).
Proof. intros Hl. unfold from_utf8. by rewrite utf8_decode_plain. Qed.

Lemma from_utf8_lossy_plain l : Forall plain l -> from_utf8_lossy l = of_bytes l.
Proof. intros Hl. unfold from_utf8_lossy. by rewrite utf8_decode_plain. Qed.

Lemma chars_plain s : Forall plain (bytes s) -> chars s = (fun c => (byte_of c, 1)) <$> bytes s.
Proof.
  unfold chars. generalize (bytes s) as l. induction 1 as [|c l Hc Hl IH]; [done|].
  rewrite !fmap_cons. simpl. rewrite (proj2 (Z.ltb_lt _ 128)) by done. by rewrite IH.
Qed.

Lemma graphic_plain c : graphic c -> plain c.
Proof. unfold graphic, plain. lia. Qed.

(** *** Words that were joined by blanks *)

Definition space : Ascii.ascii := Ascii.ascii_of_nat 32.

Definition word (w : string) : Prop := w <> "" /\ Forall graphic (bytes w).

Lemma words_from_run l rest acc :
  Forall graphic l ->
  words_from ((fun c => (byte_of c, 1)) <$> l ++ rest) (l ++ rest) acc
  = words_from ((fun c => (byte_of c, 1)) <$> rest) rest (acc ++ l).
Proof.
  intros Hl. revert acc. induction Hl as [|c l Hc Hl IH]; intros acc; simpl; [by rewrite app_nil_r|].
  rewrite graphic_not_whitespace by done. change (Z.to_nat 1) with 1%nat. simpl.
  rewrite skipn_O. rewrite IH. f_equal. by rewrite <- app_assoc.
Qed.

(** A blank that separates words. *)
Definition blank (c : Ascii.ascii) : Prop := plain c /\ is_whitespace (byte_of c) = true.

Lemma words_from_blank c rest acc :
  blank c ->
  words_from ((fun c => (byte_of c, 1)) <$> c :: rest) (c :: rest) acc
  = match acc with [] => [] | _ => [acc] end
    ++ words_from ((fun c => (byte_of c, 1)) <$> rest) rest [].
Proof. intros [_ Hc]. simpl. rewrite Hc. by rewrite skipn_O. Qed.

Lemma word_flush w : word w -> match bytes w with [] => [] | _ => [bytes w] end = [bytes w].
Proof.
  intros [Hw _]. destruct (bytes w) as [|d l] eqn:Hb; [|done].
  destruct Hw. by rewrite <- (of_bytes_bytes w), Hb.
Qed.

Lemma split_whitespace_word w c s :
  word w -> blank c -> Forall plain (bytes s) ->
  split_whitespace (w +:+ String c s) = w :: split_whitespace s.
Proof.
  intros Hword Hc Hs. pose proof Hword as [Hw Hg]. unfold split_whitespace.
  assert (Hp : Forall plain (bytes (w +:+ String c s))).
  { rewrite bytes_app, bytes_cons. apply Forall_app. split.
    - eapply Forall_impl; [exact Hg|]. apply graphic_plain.
    - apply Forall_cons. split; [apply Hc|done]. }
  rewrite (chars_plain _ Hp), (chars_plain _ Hs), bytes_app, bytes_cons.
  rewrite words_from_run by done. rewrite words_from_blank by done.
  rewrite app_nil_l, word_flush by done. rewrite fmap_app. simpl fmap. by rewrite of_bytes_bytes.
Qed.

Lemma split_whitespace_last w : word w -> split_whitespace w = [w].
Proof.
  intros Hword. pose proof Hword as [Hw Hg]. unfold split_whitespace.
  rewrite chars_plain by (eapply Forall_impl; [exact Hg|apply graphic_plain]).
  pose proof (words_from_run (bytes w) [] [] Hg) as Hr. rewrite app_nil_r, app_nil_l in Hr.
  rewrite Hr. simpl words_from. rewrite word_flush by done. simpl fmap. by rewrite of_bytes_bytes.
Qed.

Lemma split_whitespace_blank c s :
  blank c -> Forall plain (bytes s) -> split_whitespace (String c s) = split_whitespace s.
Proof.
  intros Hc Hs. unfold split_whitespace.
  assert (Hp : Forall plain (bytes (String c s))).
  { rewrite bytes_cons. apply Forall_cons. split; [apply Hc|done]. }
  rewrite (chars_plain _ Hp), (chars_plain _ Hs), bytes_cons. by rewrite words_from_blank.
Qed.

(** The fields of a line: words with a blank between them. *)
Definition fields (ws : list string) : string := join " " ws.

Lemma join_plain ws : Forall word ws -> Forall plain (bytes (fields ws)).
Proof.
  induction 1 as [|w ws [_ Hg] Hws IH]; [constructor|].
  assert (Hp : Forall plain (bytes w)) by (eapply Forall_impl; [exact Hg|apply graphic_plain]).
  unfold fields. destruct ws as [|w' ws]; [done|].
  change (Forall plain (bytes (w +:+ " " +:+ fields (w' :: ws)))). rewrite !bytes_app.
  repeat (apply Forall_app; split); [done| |done]. by repeat constructor.
Qed.

Lemma blank_space : blank space.
Proof. split; [unfold plain|]; vm_compute; done. Qed.

Lemma split_whitespace_fields ws : Forall word ws -> split_whitespace (fields ws) = ws.
Proof.
  induction 1 as [|w ws Hw Hws IH]; [done|].
  destruct ws as [|w' ws]; [by apply split_whitespace_last|].
  change (split_whitespace (w +:+ String space (fields (w' :: ws))) = w :: w' :: ws).
  rewrite split_whitespace_word; [by rewrite IH|done|apply blank_space|by apply join_plain].
Qed.

Lemma word_to_string z : word (to_string z).
Proof. split; [apply to_string_not_empty|apply to_string_graphic]. Qed.

(** *** Lines *)

Lemma split_on_lines ls :
  Forall (fun l => newline ∉ bytes l) ls ->
  split_on newline (foldr (fun l s => l +:+ String newline s) "" ls) = ls ++ [""].
Proof.
  induction 1 as [|l ls Hl Hls IH]; [done|]. simpl. rewrite split_on_app by done. by rewrite IH.
Qed.

Definition line (l : string) : Prop := newline ∉ bytes l /\ carriage_return ∉ bytes l.

Lemma chomp_line l : carriage_return ∉ bytes l -> chomp l = l.
Proof.
  intros Hl. unfold chomp. destruct (rev (bytes l)) as [|c k] eqn:Hr; [done|].
  rewrite bool_decide_eq_false_2; [done|]. intros ->. apply Hl.
  apply list_elem_of_In, in_rev. rewrite Hr. by left.
Qed.

Lemma lines_of ls :
  Forall line ls -> lines (foldr (fun l s => l +:+ String newline s) "" ls) = ls.
Proof.
  intros Hls. unfold lines. rewrite split_on_lines by (eapply Forall_impl; [exact Hls|]; by intros ? []).
  rewrite last_snoc, bool_decide_eq_true_2, removelast_last by done.
  induction Hls as [|l ls [_ Hl] Hls IH]; [done|]. rewrite fmap_cons, chomp_line by done. by rewrite IH.
Qed.

(** *** The end of a record *)

Lemma split_whitespace_fields_end ws c :
  Forall word ws -> blank c -> split_whitespace (fields ws +:+ String c "") = ws.
Proof.
  intros Hws Hc. assert (Hp : plain c) by apply Hc. induction Hws as [|w ws Hw Hws IH].
  - change (split_whitespace (String c "") = []). rewrite split_whitespace_blank by (done || constructor). done.
  - destruct ws as [|w' ws].
    + change (split_whitespace (w +:+ String c "") = [w]). rewrite split_whitespace_word by (done || constructor).
      done.
    + assert (E : fields (w :: w' :: ws) +:+ String c "" = w +:+ String space (fields (w' :: ws) +:+ String c "")).
      { rewrite <- (of_bytes_bytes (_ +:+ _)), <- (of_bytes_bytes (w +:+ _)). f_equal.
        change (fields (w :: w' :: ws)) with (w +:+ String space (fields (w' :: ws))).
        rewrite !bytes_app, !bytes_cons, !bytes_app. by rewrite <- app_assoc. }
      rewrite E, split_whitespace_word; [by rewrite IH|done|apply blank_space|].
      rewrite bytes_app. apply Forall_app. split; [by apply join_plain|]. by repeat constructor.
Qed.

(** A blank at the end is trimmed from a word. *)
Lemma trim_str_end w c : word w -> blank c -> trim_str (w +:+ String c "") = w.
Proof. intros [Hne Hg] Hb. apply trim_str_blanks; [done..|]. by repeat constructor; apply Hb. Qed.
