(* ===== verification/ActuatorTypes.v ===== *)
(** * Actuator vocabulary ([uperf-platform/src/lib.rs], [uperf-actuator/src/lib.rs])

    The typed values the actuator moves between the journal and the machine,
    and the errors of its operations. An error keeps the parts of its message
    (the arguments of [format!]) instead of the rendered text. *)

From S2P Require Import Prelude Domain Text.

(** ** Platform errors *)

Inductive PlatformError :=
| Io (operation path source : string)
| InvalidData (path why : string)
| AccessDenied (path why : string)
| Unsupported (capability : string)
| Disappeared (resource : string).

(** ** Scalar values and domains *)

Inductive ScalarValue :=
| Integer (z : Z)
| Str (s : string)
| CpuListValue (cpus : CpuSet).
#[global] Instance ScalarValue_eq_dec : EqDecision ScalarValue.
Proof. solve_decision. Defined.

Inductive ScalarDomain :=
| IntegerRange (minimum maximum : Z)
| IntegerEnum (values : list Z)
| StringEnum (values : list string)
| CpuListDomain (allowed_cpus : CpuSet) (allow_empty : bool).
#[global] Instance ScalarDomain_eq_dec : EqDecision ScalarDomain.
Proof. solve_decision. Defined.

(** ** Tasks and units *)

Record ProcessSchedulingState := {
  st_affinity : CpuSet;
  st_nice : Z;
  st_policy : SchedulingClass;
  st_rt_priority : option Z;
  st_uclamp_min : option Z;
  st_uclamp_max : option Z;
}.
#[global] Instance ProcessSchedulingState_eq_dec : EqDecision ProcessSchedulingState.
Proof. solve_decision. Defined.

Record SystemdUnitProperties := {
  up_cpu_weight : option Z;
  up_allowed_cpus : option CpuSet;
}.
#[global] Instance SystemdUnitProperties_eq_dec : EqDecision SystemdUnitProperties.
Proof. solve_decision. Defined.

Inductive SystemdUnitInstanceKey :=
| InvocationId (bytes : list Z)
| ControlGroup (path : string).
#[global] Instance SystemdUnitInstanceKey_eq_dec : EqDecision SystemdUnitInstanceKey.
Proof. solve_decision. Defined.

Record SystemdUnitInstanceIdentity := {
  ui_unit : string;
  ui_key : SystemdUnitInstanceKey;
}.
#[global] Instance SystemdUnitInstanceIdentity_eq_dec : EqDecision SystemdUnitInstanceIdentity.
Proof. solve_decision. Defined.

(** ** Errors *)

Inductive ActuatorError :=
| InvalidTarget (m : list msg)
| DuplicateTarget (id : string)
| UnknownTarget (id : string)
| OwnershipRequired (id : string)
| DuplicateRequest (m : list msg)
| InvalidLimits (target : string) (minimum maximum : Z)
| InvalidScalarValue (target : string) (value : ScalarValue)
| InvalidReadback (path : string) (value : list msg)
| ScalarOwnershipLost (id : string)
| Platform (e : PlatformError)
| InvalidJournal (m : list msg)
| DegradedError (reason : list msg)
| RecoveryRequired
| Transaction (target : list msg) (reason : list msg)
| Rollback (m : list msg)
| TaskBackendUnavailable
| SystemdBackendUnavailable
| ProcessIdentityChanged (identity : ProcessIdentity)
| UnitInstanceChanged (unit : string)
(** A part of a message: literal text, a number, or a value shown by its
    [Display] or [Debug] instance. *)
with msg :=
| T (s : string)
| Num (z : Z)
| Show_scalar (v : ScalarValue)
| Show_task (s : ProcessSchedulingState)
| Show_unit (u : SystemdUnitProperties)
| Cause (e : ActuatorError).

Notation message := (list msg).

Notation result A := (res A ActuatorError) (only parsing).

(** ** Paths as map keys

    [Path] compares by components. *)
#[global] Instance Component_countable : Countable Component.
Proof.
  refine (inj_countable'
    (fun c => match c with
              | RootDir => inl tt
              | CurDir => inr (inl tt)
              | ParentDir => inr (inr (inl tt))
              | Normal s => inr (inr (inr s))
              end)
    (fun x => match x with
              | inl _ => RootDir
              | inr (inl _) => CurDir
              | inr (inr (inl _)) => ParentDir
              | inr (inr (inr s)) => Normal s
              end) _).
  by intros [].
Defined.

Notation path_key := (list Component).

Definition path_eqb (a b : string) : bool := bool_decide (components a = components b).

(** [validate_sysfs_path] *)
Definition is_parent_dir (c : Component) : bool :=
  match c with ParentDir => true | _ => false end.

Definition validate_sysfs_path (path : string) : result unit :=
  if negb (is_absolute path) || negb (path_starts_with path "/sys")
     || existsb is_parent_dir (components path)
  then Err (InvalidTarget [T "path is not an absolute normalized /sys path: "; T path])
  else Ok tt.
