(* ===== verification/Scalars.v ===== *)
(** * Scalar attributes ([uperf-actuator/src/lib.rs])

    The closed value domains of scalar sysfs attributes, how a value is
    written to and read back from the attribute's text, and the round trip of
    the two on every value a canonical domain admits. *)

From S2P Require Import Prelude Domain Text Strings ActuatorTypes.

Definition MAX_SCALAR_STRING_BYTES : Z := 256.
Definition MAX_SCALAR_CPU_ID : Z := 4095.

(** ** Domains *)

Definition validate_scalar_string (id value : string) : result unit :=
  if bool_decide (value = "") || (MAX_SCALAR_STRING_BYTES <? str_len value)
     || negb (bool_decide (trim_str value = value)) || any_control (chars value)
  then Err (InvalidTarget [T id; T ": invalid scalar string enum value "; T value])
  else Ok tt.

(** [Vec::dedup] on strings. *)
Fixpoint dedup_strings (l : list string) : list string :=
  match l with
  | [] => []
  | x :: l' =>
      match l' with
      | y :: _ => if decide (x = y) then dedup_strings l' else x :: dedup_strings l'
      | [] => [x]
      end
  end.

Definition sort_dedup_strings (l : list string) : list string :=
  dedup_strings (merge_sort String.le l).

(** [ScalarDomain::canonicalize] *)
Definition canonicalize (id : string) (d : ScalarDomain) : result ScalarDomain :=
  match d with
  | IntegerRange minimum maximum =>
      if maximum <? minimum
      then Err (InvalidTarget [T id; T ": scalar integer range is reversed"]) else Ok d
  | IntegerEnum values =>
      match sort_dedup values with
      | [] => Err (InvalidTarget [T id; T ": scalar integer enum is empty"])
      | values => Ok (IntegerEnum values)
      end
  | StringEnum values =>
      match sort_dedup_strings values with
      | [] => Err (InvalidTarget [T id; T ": scalar string enum is empty"])
      | values =>
          do? res_mapM (validate_scalar_string id) values in
          Ok (StringEnum values)
      end
  | CpuListDomain allowed_cpus _ =>
      if CpuSet_is_empty allowed_cpus
      then Err (InvalidTarget [T id; T ": scalar CPU-list domain has no allowed CPUs"])
      else if existsb (fun cpu => MAX_SCALAR_CPU_ID <? cpu) (CpuSet_iter allowed_cpus)
      then Err (InvalidTarget [T id; T ": scalar CPU-list domain exceeds CPU ";
                               Num MAX_SCALAR_CPU_ID])
      else Ok d
  end.

(** [ScalarDomain::validate_value]; [binary_search] on a sorted vector finds
    exactly its members. *)
Definition validate_domain_value (d : ScalarDomain) (id : string) (value : ScalarValue)
  : result unit :=
  let valid :=
    match d, value with
    | IntegerRange minimum maximum, Integer v => (minimum <=? v) && (v <=? maximum)
    | IntegerEnum values, Integer v => bool_decide (v ∈ values)
    | StringEnum values, Str v => bool_decide (v ∈ values)
    | CpuListDomain allowed_cpus allow_empty, CpuListValue v =>
        (allow_empty || negb (CpuSet_is_empty v)) && CpuSet_is_subset v allowed_cpus
    | _, _ => false
    end in
  if valid then Ok tt else Err (InvalidScalarValue id value).

(** ** CPU lists *)

Definition comma : Ascii.ascii := Ascii.ascii_of_nat 44.

(** The maximal runs of consecutive identifiers, [start..=end]: the loop of
    [format_scalar_cpu_list] with the current run carried along. *)
Fixpoint cpu_runs (start last : Z) (ids : list Z) : list (Z * Z) :=
  match ids with
  | [] => [(start, last)]
  | cpu :: ids =>
      if cpu =? Z.min (last + 1) u32_max then cpu_runs start cpu ids
      else (start, last) :: cpu_runs cpu cpu ids
  end.

Definition format_range (r : Z * Z) : string :=
  if r.1 =? r.2 then to_string r.1
  else to_string r.1 +:+ String minus_sign (to_string r.2).

Definition format_scalar_cpu_list (cpus : CpuSet) : string :=
  match CpuSet_iter cpus with
  | [] => ""
  | start :: ids => join "," (format_range <$> cpu_runs start start ids)
  end.

Definition invalid_readback {A} (path value : string) : result A :=
  Err (InvalidReadback path [T value]).

Definition parse_scalar_cpu_id (path original value : string) : result Z :=
  match parse_u32 value with
  | Some cpu => if cpu <=? MAX_SCALAR_CPU_ID then Ok cpu else invalid_readback path original
  | None => invalid_readback path original
  end.

(** One [start-end] or single-CPU token. *)
Definition parse_token (path value token : string) : result CpuSet :=
  let? (start, last) :=
    match split_once minus_sign token with
    | Some (a, b) =>
        if contains minus_sign b then invalid_readback path value
        else
          let? start := parse_scalar_cpu_id path value a in
          let? last := parse_scalar_cpu_id path value b in
          Ok (start, last)
    | None => let? cpu := parse_scalar_cpu_id path value token in Ok (cpu, cpu)
    end in
  if last <? start then invalid_readback path value
  else Ok (list_to_set (seqZ start (last - start + 1))).

Definition parse_part (path value : string) (cpus : CpuSet) (comma_part : string)
  : result CpuSet :=
  if bool_decide (trim_str comma_part = "") then invalid_readback path value
  else
    res_foldM (fun cpus token => let? range := parse_token path value token in Ok (cpus ∪ range))
      cpus (split_ascii_whitespace comma_part).

Definition parse_scalar_cpu_list (path value : string) : result CpuSet :=
  if bool_decide (value = "") then Ok ∅
  else res_foldM (parse_part path value) ∅ (split_on comma value).

(** ** The attribute's text *)

Definition encode_scalar_value (value : ScalarValue) : string :=
  match value with
  | Integer v => to_string v
  | Str v => v
  | CpuListValue cpus => format_scalar_cpu_list cpus
  end.

(** [read_scalar] after the attribute has been read as [raw]. *)
Definition decode_scalar (id path : string) (domain : ScalarDomain) (raw : string)
  : result ScalarValue :=
  let trimmed := trim_str raw in
  let? value :=
    match domain with
    | IntegerRange _ _ | IntegerEnum _ =>
        match parse_i64 trimmed with
        | Some v => Ok (Integer v)
        | None => invalid_readback path raw
        end
    | StringEnum _ => Ok (Str trimmed)
    | CpuListDomain _ _ => let? cpus := parse_scalar_cpu_list path trimmed in Ok (CpuListValue cpus)
    end in
  match validate_domain_value domain id value with
  | Ok _ => Ok value
  | Err _ => invalid_readback path raw
  | Panic => Panic
  end.

Example cpu_list_example :
  format_scalar_cpu_list (CpuSet_from_ids [7; 0; 1; 2; 3; 5]) = "0-3,5,7" /\
  parse_scalar_cpu_list "p" "0-3, 5 7" = Ok (CpuSet_from_ids [7; 0; 1; 2; 3; 5]) /\
  parse_scalar_cpu_list "p" "0-3-4" = invalid_readback "p" "0-3-4".
Proof. vm_compute. done. Qed.

(** ** Round trips *)

Lemma parse_cpu_id path value cpu :
  0 <= cpu <= MAX_SCALAR_CPU_ID -> parse_scalar_cpu_id path value (to_string cpu) = Ok cpu.
Proof.
  unfold MAX_SCALAR_CPU_ID, parse_scalar_cpu_id, parse_u32. intros Hc.
  rewrite parse_unsigned_to_string by (unfold_int; lia).
  by rewrite (proj2 (Z.leb_le _ _)) by (unfold MAX_SCALAR_CPU_ID; lia).
Qed.

Definition range_set (r : Z * Z) : CpuSet := list_to_set (seqZ r.1 (r.2 - r.1 + 1)).
Definition range_ok (r : Z * Z) : Prop := 0 <= r.1 <= r.2 /\ r.2 <= MAX_SCALAR_CPU_ID.

Lemma elem_of_range_set r c : c ∈ range_set r <-> r.1 <= c <= r.2.
Proof. unfold range_set. rewrite elem_of_list_to_set, elem_of_seqZ. lia. Qed.

Lemma parse_format_range path value r :
  range_ok r -> parse_token path value (format_range r) = Ok (range_set r).
Proof.
  destruct r as [a b]. unfold range_ok, parse_token, format_range. simpl. intros [Hab Hb].
  destruct (to_string_digits a) as [Ha _]; [lia|]. destruct (to_string_digits b) as [Hb' _]; [lia|].
  destruct (Z.eqb_spec a b) as [->|Hne].
  - rewrite split_once_none by (by apply digits_not_elem).
    rewrite parse_cpu_id by lia. simpl. by rewrite Z.ltb_irrefl.
  - rewrite split_once_app by (by apply digits_not_elem). unfold contains.
    rewrite bool_decide_eq_false_2 by (by apply digits_not_elem).
    rewrite !parse_cpu_id by lia. simpl. by rewrite (proj2 (Z.ltb_ge _ _)) by lia.
Qed.

Lemma format_range_bytes r :
  0 <= r.1 -> 0 <= r.2 ->
  Forall (fun c => graphic c /\ c <> comma) (bytes (format_range r)) /\ format_range r <> "".
Proof.
  intros H1 H2.
  assert (Hd : forall z, 0 <= z ->
    Forall (fun c => graphic c /\ c <> comma) (bytes (to_string z))).
  { intros z Hz. destruct (to_string_digits z Hz) as [Hd _]. eapply Forall_impl; [exact Hd|].
    intros c Hc. split; [by apply digit_graphic|]. by intros ->. }
  unfold format_range. destruct (r.1 =? r.2).
  - split; [by apply Hd|apply to_string_not_empty].
  - split.
    + rewrite bytes_app, bytes_cons. apply Forall_app. split; [by apply Hd|].
      constructor; [by vm_compute|by apply Hd].
    + pose proof (to_string_not_empty r.1). by destruct (to_string r.1).
Qed.

Lemma parse_part_range path value cpus r :
  range_ok r -> parse_part path value cpus (format_range r) = Ok (cpus ∪ range_set r).
Proof.
  intros Hr. destruct (format_range_bytes r) as [Hb Hne]; [destruct Hr; lia..|].
  assert (Hg : Forall graphic (bytes (format_range r))).
  { eapply Forall_impl; [exact Hb|]. by intros c [? _]. }
  unfold parse_part. rewrite trim_str_graphic by done. rewrite bool_decide_eq_false_2 by done.
  rewrite split_ascii_whitespace_graphic by done. simpl. by rewrite parse_format_range by done.
Qed.

Lemma parse_parts path value cpus rs :
  Forall range_ok rs ->
  res_foldM (parse_part path value) cpus (format_range <$> rs)
  = Ok (cpus ∪ ⋃ (range_set <$> rs)).
Proof.
  intros Hrs. revert cpus. induction Hrs as [|r rs Hr Hrs IH]; intros cpus.
  - simpl. f_equal. set_solver.
  - rewrite fmap_cons. simpl. rewrite parse_part_range by done. simpl. rewrite IH. f_equal.
    set_solver.
Qed.

(** The runs of a strictly ascending list cover exactly its elements. *)
Lemma cpu_runs_spec start last ids :
  0 <= start <= last -> last <= MAX_SCALAR_CPU_ID ->
  StronglySorted Z.lt (last :: ids) -> Forall (fun c => c <= MAX_SCALAR_CPU_ID) ids ->
  Forall range_ok (cpu_runs start last ids) /\
  forall c, (exists r, r ∈ cpu_runs start last ids /\ r.1 <= c <= r.2) <->
    start <= c <= last \/ c ∈ ids.
Proof.
  revert start last. induction ids as [|cpu ids IH]; intros start last Hs Hl Hsort Hb; simpl.
  - split; [by apply Forall_singleton|]. intros c. split.
    + intros (r & ->%list_elem_of_singleton & Hc). by left.
    + intros [Hc|Hc]; [|set_solver]. exists (start, last). split; [set_solver|done].
  - apply StronglySorted_inv in Hsort as [Hsort Hlt].
    rewrite Forall_cons in Hlt. destruct Hlt as [Hlt _].
    rewrite Forall_cons in Hb. destruct Hb as [Hcpu Hb].
    assert (Hmin : Z.min (last + 1) u32_max = last + 1) by (unfold MAX_SCALAR_CPU_ID in *; unfold_int; lia).
    rewrite Hmin. destruct (Z.eqb_spec cpu (last + 1)) as [->|Hne].
    + destruct (IH start (last + 1)) as [H1 H2]; [lia|lia|done|done|]. split; [done|].
      intros c. rewrite H2, elem_of_cons. destruct (decide (c = last + 1)); intuition lia.
    + destruct (IH cpu cpu) as [H1 H2]; [lia|lia|done|done|].
      split; [constructor; [done|done]|].
      intros c. rewrite elem_of_cons. split.
      * intros (r & [->|Hr]%elem_of_cons & Hc); [by left|]. right.
        assert (cpu <= c <= cpu \/ c ∈ ids) as [?|?] by (apply H2; eauto); [left; lia|by right].
      * intros [Hc|Hc]; [exists (start, last); set_solver|].
        destruct (proj2 (H2 c)) as (r & Hr & Hrc); [destruct Hc as [->|Hc]; [left; lia|by right]|].
        exists r. set_solver.
Qed.

Definition cpus_in_range (cpus : CpuSet) : Prop :=
  forall c, c ∈ cpus -> 0 <= c <= MAX_SCALAR_CPU_ID.

Lemma format_parse_cpu_list path cpus :
  cpus_in_range cpus -> parse_scalar_cpu_list path (format_scalar_cpu_list cpus) = Ok cpus.
Proof.
  intros Hr. unfold format_scalar_cpu_list, parse_scalar_cpu_list.
  pose proof (CpuSet_iter_strict cpus) as Hs. pose proof (CpuSet_iter_elem cpus) as He.
  destruct (CpuSet_iter cpus) as [|start ids] eqn:E.
  { simpl. f_equal. apply set_eq. intros c. rewrite <- He. set_solver. }
  destruct (cpu_runs_spec start start ids) as [Hok Hcov]; [| |done| |].
  1,2: specialize (Hr start); rewrite <- He in Hr; specialize (Hr ltac:(set_solver)); lia.
  { apply Forall_forall. intros c Hc. apply Hr. rewrite <- He. set_solver. }
  set (rs := cpu_runs start start ids) in *.
  assert (Hrs : rs <> []).
  { intros Hn. destruct (proj2 (Hcov start)) as (r & Hin & _); [left; lia|].
    rewrite Hn in Hin. set_solver. }
  assert (Hb : forall r, r ∈ rs ->
    Forall (fun c => graphic c /\ c <> comma) (bytes (format_range r)) /\ format_range r <> "").
  { intros r Hin. rewrite Forall_forall in Hok. destruct (Hok r Hin).
    apply format_range_bytes; lia. }
  rewrite bool_decide_eq_false_2.
  2: { destruct rs as [|r rs']; [done|]. destruct (Hb r) as [_ Hne]; [set_solver|].
       rewrite fmap_cons. destruct (format_range <$> rs'); simpl; [done|].
       by destruct (format_range r). }
  change "," with (String comma EmptyString). rewrite split_on_join.
  - rewrite parse_parts by done. f_equal. apply set_eq. intros c.
    rewrite <- He, elem_of_union, elem_of_union_list. split.
    + intros [?|(X & (r & -> & Hin)%list_elem_of_fmap & Hc%elem_of_range_set)]; [set_solver|].
      destruct (proj1 (Hcov c)) as [?|?]; [by exists r|..]; [|set_solver].
      assert (c = start) as -> by lia. set_solver.
    + intros [->|Hc]%elem_of_cons; right.
      * destruct (proj2 (Hcov start)) as (r & Hin & Hr'); [left; lia|].
        exists (range_set r). rewrite elem_of_range_set. split; [|done].
        apply list_elem_of_fmap. eauto.
      * destruct (proj2 (Hcov c)) as (r & Hin & Hr'); [by right|].
        exists (range_set r). rewrite elem_of_range_set. split; [|done].
        apply list_elem_of_fmap. eauto.
  - by destruct rs.
  - apply Forall_fmap, Forall_forall. intros r Hin. simpl. destruct (Hb r Hin) as [Hf _].
    intros Hc. rewrite Forall_forall in Hf. by destruct (Hf _ Hc).
Qed.

Lemma join_graphic sep ws :
  Forall graphic (bytes sep) -> Forall (fun w => Forall graphic (bytes w)) ws ->
  Forall graphic (bytes (join sep ws)).
Proof.
  intros Hsep. induction 1 as [|w ws Hw Hws IH]; [constructor|].
  destruct ws as [|w' ws]; [done|].
  change (join sep (w :: w' :: ws)) with (w +:+ sep +:+ join sep (w' :: ws)).
  by rewrite !bytes_app, !Forall_app.
Qed.

Lemma format_cpu_list_graphic cpus :
  cpus_in_range cpus -> Forall graphic (bytes (format_scalar_cpu_list cpus)).
Proof.
  intros Hr. unfold format_scalar_cpu_list.
  pose proof (CpuSet_iter_strict cpus) as Hs. pose proof (CpuSet_iter_elem cpus) as He.
  destruct (CpuSet_iter cpus) as [|start ids]; [constructor|].
  assert (Hc : forall c, c ∈ start :: ids -> 0 <= c <= MAX_SCALAR_CPU_ID).
  { intros c Hin. apply Hr. by rewrite <- He. }
  destruct (cpu_runs_spec start start ids) as [Hok _];
    [pose proof (Hc start ltac:(set_solver)); lia..|done| |].
  { apply Forall_forall. intros c Hin. apply Hc. set_solver. }
  apply join_graphic; [by repeat constructor|].
  apply Forall_fmap. eapply Forall_impl; [exact Hok|]. intros r [H1 H2]. simpl.
  destruct (format_range_bytes r) as [Hb _]; [lia..|].
  eapply Forall_impl; [exact Hb|]. by intros c [? _].
Qed.

(** *** Canonical domains *)

Lemma merge_sort_sorted {A} (R : relation A) `{!PartialOrder R, !Total R, !RelDecision R} l :
  StronglySorted R l -> merge_sort R l = l.
Proof.
  intros Hl. apply (StronglySorted_unique R); [by apply StronglySorted_merge_sort; apply _|done|].
  apply merge_sort_Permutation.
Qed.

Lemma dedup_id l : StronglySorted Z.lt l -> dedup l = l.
Proof.
  induction l as [|x [|y l] IH]; intros Hs; [done|done|].
  change (dedup (x :: y :: l)) with (if x =? y then dedup (y :: l) else x :: dedup (y :: l)).
  apply StronglySorted_inv in Hs as [Hs Hx]. rewrite Forall_cons in Hx. destruct Hx as [Hx _].
  rewrite (proj2 (Z.eqb_neq _ _)) by lia. by rewrite IH.
Qed.

Lemma sorted_lt_le l : StronglySorted Z.lt l -> StronglySorted Z.le l.
Proof.
  induction 1 as [|x l Hl IH Hx]; [constructor|]. constructor; [done|].
  eapply Forall_impl; [exact Hx|]. simpl. lia.
Qed.

Lemma sort_dedup_idemp l : sort_dedup (sort_dedup l) = sort_dedup l.
Proof.
  unfold sort_dedup at 1. rewrite (merge_sort_sorted Z.le) by (apply sorted_lt_le, sort_dedup_sorted).
  apply dedup_id, sort_dedup_sorted.
Qed.

Lemma elem_of_dedup_strings l x : x ∈ dedup_strings l <-> x ∈ l.
Proof.
  induction l as [|y [|z l] IH]; [done|done|].
  change (dedup_strings (y :: z :: l)) with
    (if decide (y = z) then dedup_strings (z :: l) else y :: dedup_strings (z :: l)).
  destruct (decide (y = z)) as [->|Hne]; rewrite ?elem_of_cons, IH; set_solver.
Qed.

Lemma dedup_strings_sorted l :
  StronglySorted String.le l ->
  StronglySorted (fun a b => String.le a b /\ a <> b) (dedup_strings l).
Proof.
  induction l as [|y [|z l] IH]; intros Hs; [constructor|by repeat constructor|].
  change (dedup_strings (y :: z :: l)) with
    (if decide (y = z) then dedup_strings (z :: l) else y :: dedup_strings (z :: l)).
  apply StronglySorted_inv in Hs as [Hs Hy].
  destruct (decide (y = z)) as [->|Hne]; [by apply IH|].
  constructor; [by apply IH|]. apply Forall_forall. intros x Hx.
  rewrite elem_of_dedup_strings in Hx. rewrite Forall_forall in Hy.
  pose proof (Hy z ltac:(set_solver)) as Hyz. split; [by apply Hy|]. intros ->.
  apply elem_of_cons in Hx as [->|Hx]; [done|].
  apply StronglySorted_inv in Hs as [_ Hz]. rewrite Forall_forall in Hz.
  apply Hne. by apply (anti_symm String.le); [|apply Hz].
Qed.

Lemma dedup_strings_id l :
  StronglySorted (fun a b => String.le a b /\ a <> b) l -> dedup_strings l = l.
Proof.
  induction l as [|x [|y l] IH]; intros Hs; [done|done|].
  change (dedup_strings (x :: y :: l)) with
    (if decide (x = y) then dedup_strings (y :: l) else x :: dedup_strings (y :: l)).
  apply StronglySorted_inv in Hs as [Hs Hx]. rewrite Forall_cons in Hx. destruct Hx as [[_ Hx] _].
  rewrite decide_False by done. by rewrite IH.
Qed.

Lemma sort_dedup_strings_strict l :
  StronglySorted (fun a b => String.le a b /\ a <> b) (sort_dedup_strings l).
Proof. apply dedup_strings_sorted, StronglySorted_merge_sort; apply _. Qed.

Lemma sort_dedup_strings_idemp l :
  sort_dedup_strings (sort_dedup_strings l) = sort_dedup_strings l.
Proof.
  unfold sort_dedup_strings at 1. rewrite (merge_sort_sorted String.le).
  - apply dedup_strings_id, sort_dedup_strings_strict.
  - pose proof (sort_dedup_strings_strict l) as Hs.
    induction Hs as [|x k Hk IH Hx]; [constructor|]. constructor; [done|].
    eapply Forall_impl; [exact Hx|]. by intros ? [? _].
Qed.

Lemma canonicalize_idemp id d d' :
  canonicalize id d = Ok d' -> canonicalize id d' = Ok d'.
Proof.
  destruct d as [lo hi|vs|vs|cpus e]; simpl.
  - destruct (hi <? lo) eqn:E; [done|]. intros [= <-]. simpl. by rewrite E.
  - destruct (sort_dedup vs) as [|v l] eqn:E; [done|]. intros [= <-]. simpl.
    by rewrite <- E, sort_dedup_idemp, E.
  - destruct (sort_dedup_strings vs) as [|v l] eqn:E; [done|].
    intros (u & Hu & [= <-])%res_bind_Ok. simpl canonicalize.
    rewrite <- E, sort_dedup_strings_idemp, E. by rewrite Hu.
  - destruct (CpuSet_is_empty cpus) eqn:E1; [done|]. destruct (existsb _ _) eqn:E2; [done|].
    intros [= <-]. simpl. by rewrite E1, E2.
Qed.

(** The range of the machine type of a value: [i64], and [u32] CPU numbers. *)
Definition value_typed (v : ScalarValue) : Prop :=
  match v with
  | Integer z => is_i64 z
  | Str _ => True
  | CpuListValue cpus => forall c, c ∈ cpus -> 0 <= c
  end.

Lemma validate_value_Ok d id v u :
  validate_domain_value d id v = Ok u ->
  match d, v with
  | IntegerRange lo hi, Integer z => lo <= z <= hi
  | IntegerEnum vs, Integer z => z ∈ vs
  | StringEnum vs, Str s => s ∈ vs
  | CpuListDomain allowed e, CpuListValue c => (c <> ∅ \/ e = true) /\ c ⊆ allowed
  | _, _ => False
  end.
Proof.
  unfold validate_domain_value. destruct d, v; simpl; try done.
  - destruct (_ && _) eqn:E; [|done]. lia.
  - case_bool_decide; done.
  - case_bool_decide; done.
  - unfold CpuSet_is_empty, CpuSet_is_subset.
    destruct (_ && _) eqn:E; [|done]. intros _.
    rewrite andb_true_iff, orb_true_iff, negb_true_iff, bool_decide_eq_false, bool_decide_eq_true in E.
    destruct E as [[->|?] ?]; auto.
Qed.

Lemma encode_decode id path d v :
  canonicalize id d = Ok d -> value_typed v -> validate_domain_value d id v = Ok tt ->
  decode_scalar id path d (encode_scalar_value v) = Ok v.
Proof.
  intros Hc Ht Hv. pose proof (validate_value_Ok _ _ _ _ Hv) as Hd.
  unfold decode_scalar. destruct d as [lo hi|vs|vs|allowed e], v as [z|s|cpus]; try done;
    cbn [encode_scalar_value].
  1,2: rewrite trim_str_graphic by apply to_string_graphic;
       rewrite parse_i64_to_string by done; cbn [res_bind]; by rewrite Hv.
  - cbn [canonicalize] in Hc. destruct (sort_dedup_strings vs) as [|w ws] eqn:E; [done|].
    apply res_bind_Ok in Hc as (ys & Hall%res_mapM_Ok & [= <-]).
    assert (Htrim : trim_str s = s).
    { apply (list_elem_of_lookup_1) in Hd as [i Hi].
      destruct (Forall2_lookup_l _ _ _ _ _ Hall Hi) as (y & _ & Hy).
      unfold validate_scalar_string in Hy. destruct (_ || _) eqn:Eb in Hy; [done|].
      rewrite !orb_false_iff, negb_false_iff, bool_decide_eq_true in Eb. tauto. }
    rewrite Htrim. cbn [res_bind]. by rewrite Hv.
  - assert (Hr : cpus_in_range cpus).
    { intros c Hin. split; [by apply Ht|]. cbn [canonicalize] in Hc.
      destruct (CpuSet_is_empty allowed); [done|]. destruct (existsb _ _) eqn:Ex; [done|].
      destruct (Z.leb_spec c MAX_SCALAR_CPU_ID) as [|Hgt]; [done|]. exfalso.
      apply not_true_iff_false in Ex. apply Ex, existsb_exists. exists c.
      split; [|by apply Z.ltb_lt]. apply list_elem_of_In, CpuSet_iter_elem. set_solver. }
    assert (Htr : trim_str (format_scalar_cpu_list cpus) = format_scalar_cpu_list cpus).
    { apply trim_str_graphic. by apply format_cpu_list_graphic. }
    rewrite Htr, format_parse_cpu_list by done. cbn [res_bind]. by rewrite Hv.
Qed.

(** ** Property *)

(** What the actuator writes to a scalar attribute it reads back as the same
    value: printing and parsing are inverse on every integer, enumeration string
    and CPU list a canonical domain admits. *)
Theorem scalar_text_round_trip id path d v :
  canonicalize id d = Ok d -> value_typed v -> validate_domain_value d id v = Ok tt ->
  decode_scalar id path d (encode_scalar_value v) = Ok v.
Proof. apply encode_decode. Qed.

Definition wit_cpu_domain : ScalarDomain :=
  CpuListDomain (CpuSet_from_ids [0; 1; 2; 3; 4; 5; 6; 7]) false.

Lemma scalar_text_round_trip_witness :
  let v := CpuListValue (CpuSet_from_ids [0; 1; 2; 5]) in
  encode_scalar_value v = "0-2,5" /\
  decode_scalar "cpus" "/sys/x" wit_cpu_domain "0-2,5" = Ok v.
Proof.
  assert (E : encode_scalar_value (CpuListValue (CpuSet_from_ids [0; 1; 2; 5])) = "0-2,5")
    by (vm_compute; reflexivity).
  split; [exact E|]. rewrite <- E. apply scalar_text_round_trip.
  - vm_compute. reflexivity.
  - intros c. unfold CpuSet_from_ids. rewrite elem_of_list_to_set.
    intros Hc. repeat (apply elem_of_cons in Hc as [->|Hc]; [lia|]). set_solver.
  - vm_compute. reflexivity.
Defined.
