(* ===== verification/Targets.v ===== *)
(** * Mutation targets ([uperf-actuator/src/lib.rs])

    The frequency and scalar targets discovered on the device, the manifests
    that let recovery rebuild them from the journal, and the registry: the
    immutable allowlist of everything the actuator may write. *)

From S2P Require Import Prelude Domain Text Strings ActuatorTypes Scalars.

(** ** Frequency targets *)

Record FrequencyTarget := {
  ft_id : string;
  ft_min_path : string;
  ft_max_path : string;
  ft_hardware_min : Hertz;
  ft_hardware_max : Hertz;
  ft_opps : list Hertz;
  ft_hertz_per_unit : Z;
}.

(** [FrequencyTarget::new] *)
Definition FrequencyTarget_new (id min_path max_path : string) (hardware_min hardware_max : Hertz)
    (opps : list Hertz) : result FrequencyTarget :=
  do? validate_sysfs_path min_path in
  do? validate_sysfs_path max_path in
  do? reject_if (path_eqb min_path max_path)
    (InvalidTarget [T id; T ": minimum and maximum attributes must be distinct"]) in
  do? reject_if (hardware_max <? hardware_min) (InvalidLimits id hardware_min hardware_max) in
  let opps := sort_dedup opps in
  do? reject_if (existsb (fun opp => (opp <? hardware_min) || (hardware_max <? opp)) opps)
    (InvalidTarget [T id; T ": OPP lies outside the hardware range"]) in
  Ok {| ft_id := id; ft_min_path := min_path; ft_max_path := max_path;
        ft_hardware_min := hardware_min; ft_hardware_max := hardware_max;
        ft_opps := opps; ft_hertz_per_unit := 1 |}.

Definition with_hertz_per_unit (t : FrequencyTarget) (unit_ : Z) : result FrequencyTarget :=
  do? reject_if (unit_ =? 0) (InvalidTarget [T (ft_id t); T ": hertz_per_unit must be non-zero"]) in
  let all_representable :=
    is_multiple_of (ft_hardware_min t) unit_ && is_multiple_of (ft_hardware_max t) unit_
    && forallb (fun f => is_multiple_of f unit_) (ft_opps t) in
  do? reject_if (negb all_representable)
    (InvalidTarget [T (ft_id t); T ": frequency is not representable in kernel units"]) in
  Ok {| ft_id := ft_id t; ft_min_path := ft_min_path t; ft_max_path := ft_max_path t;
        ft_hardware_min := ft_hardware_min t; ft_hardware_max := ft_hardware_max t;
        ft_opps := ft_opps t; ft_hertz_per_unit := unit_ |}.

Definition hardware_limits (t : FrequencyTarget) : FrequencyLimits :=
  {| lim_min := ft_hardware_min t; lim_max := ft_hardware_max t |}.

Definition validate_limits (t : FrequencyTarget) (l : FrequencyLimits) : result unit :=
  reject_if
    ((lim_min l <? ft_hardware_min t) || (ft_hardware_max t <? lim_max l)
     || (lim_max l <? lim_min l) || (ft_hertz_per_unit t =? 0)
     || negb (is_multiple_of (lim_min l) (ft_hertz_per_unit t))
     || negb (is_multiple_of (lim_max l) (ft_hertz_per_unit t)))
    (InvalidLimits (ft_id t) (lim_min l) (lim_max l)).

Definition snap_limits (t : FrequencyTarget) (requested : FrequencyLimits)
  : result FrequencyLimits :=
  do? validate_limits t requested in
  match ft_opps t with
  | [] => Ok requested
  | opps =>
      let minimum :=
        unwrap_or (List.find (fun opp => lim_min requested <=? opp) opps) (ft_hardware_max t) in
      let maximum :=
        unwrap_or (List.find (fun opp => opp <=? lim_max requested) (rev opps))
          (ft_hardware_min t) in
      map_err (fun _ => InvalidLimits (ft_id t) minimum maximum)
        (FrequencyLimits_new (Z.min minimum maximum) maximum)
  end.

(** ** Manifests of frequency targets *)

Record RecoveryFrequencyTargetManifest := {
  rf_id : string;
  rf_min_path : string;
  rf_max_path : string;
  rf_hardware_min : Hertz;
  rf_hardware_max : Hertz;
  rf_opps : list Hertz;
  rf_hertz_per_unit : Z;
}.
#[global] Instance RecoveryFrequencyTargetManifest_eq_dec :
  EqDecision RecoveryFrequencyTargetManifest.
Proof. solve_decision. Defined.

(** The derived equality compares paths by components. *)
Definition frequency_manifest_eqb (a b : RecoveryFrequencyTargetManifest) : bool :=
  bool_decide (rf_id a = rf_id b) && path_eqb (rf_min_path a) (rf_min_path b)
  && path_eqb (rf_max_path a) (rf_max_path b) && (rf_hardware_min a =? rf_hardware_min b)
  && (rf_hardware_max a =? rf_hardware_max b) && bool_decide (rf_opps a = rf_opps b)
  && (rf_hertz_per_unit a =? rf_hertz_per_unit b).

Definition frequency_manifest (t : FrequencyTarget) : RecoveryFrequencyTargetManifest :=
  {| rf_id := ft_id t; rf_min_path := ft_min_path t; rf_max_path := ft_max_path t;
     rf_hardware_min := ft_hardware_min t; rf_hardware_max := ft_hardware_max t;
     rf_opps := ft_opps t; rf_hertz_per_unit := ft_hertz_per_unit t |}.

Definition to_frequency_target (m : RecoveryFrequencyTargetManifest) : result FrequencyTarget :=
  let? t := FrequencyTarget_new (rf_id m) (rf_min_path m) (rf_max_path m) (rf_hardware_min m)
              (rf_hardware_max m) (rf_opps m) in
  let? t := with_hertz_per_unit t (rf_hertz_per_unit m) in
  do? reject_if (negb (frequency_manifest_eqb (frequency_manifest t) m))
    (InvalidTarget [T (rf_id m); T ": recovery manifest is not canonical"]) in
  Ok t.

(** ** Scalar targets *)

Record ScalarTarget := { sct_id : string; sct_path : string; sct_domain : ScalarDomain }.

Definition scalar_target_eqb (a b : ScalarTarget) : bool :=
  bool_decide (sct_id a = sct_id b) && path_eqb (sct_path a) (sct_path b)
  && bool_decide (sct_domain a = sct_domain b).

(** [ScalarTarget::new] *)
Definition ScalarTarget_new (id path : string) (domain : ScalarDomain) : result ScalarTarget :=
  do? validate_sysfs_path path in
  let? domain := canonicalize id domain in
  Ok {| sct_id := id; sct_path := path; sct_domain := domain |}.

Definition validate_value (t : ScalarTarget) (v : ScalarValue) : result unit :=
  validate_domain_value (sct_domain t) (sct_id t) v.

Record RecoveryScalarTargetManifest := {
  rs_id : string;
  rs_path : string;
  rs_domain : ScalarDomain;
}.
#[global] Instance RecoveryScalarTargetManifest_eq_dec : EqDecision RecoveryScalarTargetManifest.
Proof. solve_decision. Defined.

Definition scalar_manifest_eqb (a b : RecoveryScalarTargetManifest) : bool :=
  bool_decide (rs_id a = rs_id b) && path_eqb (rs_path a) (rs_path b)
  && bool_decide (rs_domain a = rs_domain b).

Definition scalar_manifest (t : ScalarTarget) : RecoveryScalarTargetManifest :=
  {| rs_id := sct_id t; rs_path := sct_path t; rs_domain := sct_domain t |}.

Definition to_scalar_target (m : RecoveryScalarTargetManifest) : result ScalarTarget :=
  let? t := ScalarTarget_new (rs_id m) (rs_path m) (rs_domain m) in
  do? reject_if (negb (scalar_manifest_eqb (scalar_manifest t) m))
    (InvalidTarget [T (rs_id m); T ": scalar recovery manifest is not canonical"]) in
  Ok t.

Inductive RecoveryResourceManifest :=
| FrequencyPair (m : RecoveryFrequencyTargetManifest)
| ScalarResource (m : RecoveryScalarTargetManifest).

(** ** The registry *)

Record TargetRegistry := {
  reg_targets : gmap string FrequencyTarget;
  reg_scalar_targets : gmap string ScalarTarget;
}.

Notation claims := (gmap path_key string).

(** [claimed_paths.insert(path, owner)], an error when the path was taken. *)
Definition claim_path (claimed : claims) (path owner : string) : result claims :=
  match claimed !! components path with
  | Some other => Err (InvalidTarget [T owner; T " and "; T other; T " both claim "; T path])
  | None => Ok (<[components path := owner]> claimed)
  end.

Definition register_frequency (acc : claims * TargetRegistry) (t : FrequencyTarget)
  : result (claims * TargetRegistry) :=
  let '(claimed, registry) := acc in
  do? reject_if (bool_decide (is_Some (reg_targets registry !! ft_id t)))
    (DuplicateTarget (ft_id t)) in
  let? claimed := claim_path claimed (ft_min_path t) (ft_id t) in
  let? claimed := claim_path claimed (ft_max_path t) (ft_id t) in
  Ok (claimed, {| reg_targets := <[ft_id t := t]> (reg_targets registry);
                  reg_scalar_targets := reg_scalar_targets registry |}).

(** [TargetRegistry::new] *)
Definition TargetRegistry_new (targets : list FrequencyTarget) : result TargetRegistry :=
  let? (_, registry) :=
    res_foldM register_frequency (∅, {| reg_targets := ∅; reg_scalar_targets := ∅ |}) targets in
  Ok registry.

(** The paths of the registered frequency targets. *)
Definition frequency_claims (targets : gmap string FrequencyTarget) : claims :=
  foldl (fun c (t : FrequencyTarget) =>
           <[components (ft_max_path t) := ft_id t]> (<[components (ft_min_path t) := ft_id t]> c))
    ∅ (values targets).

Definition register_scalar (acc : claims * TargetRegistry) (t : ScalarTarget)
  : result (claims * TargetRegistry) :=
  let '(claimed, registry) := acc in
  let? canonical := ScalarTarget_new (sct_id t) (sct_path t) (sct_domain t) in
  do? reject_if (negb (scalar_target_eqb canonical t))
    (InvalidTarget [T (sct_id t); T ": scalar target is not canonical"]) in
  do? reject_if
    (bool_decide (is_Some (reg_targets registry !! sct_id t))
     || bool_decide (is_Some (reg_scalar_targets registry !! sct_id t)))
    (DuplicateTarget (sct_id t)) in
  let? claimed := claim_path claimed (sct_path t) (sct_id t) in
  Ok (claimed, {| reg_targets := reg_targets registry;
                  reg_scalar_targets := <[sct_id t := t]> (reg_scalar_targets registry) |}).

Definition with_scalar_targets (registry : TargetRegistry) (targets : list ScalarTarget)
  : result TargetRegistry :=
  let? (_, registry) :=
    res_foldM register_scalar (frequency_claims (reg_targets registry), registry) targets in
  Ok registry.

(** [TargetRegistry::get], [get_scalar] *)
Definition get (r : TargetRegistry) (id : string) : option FrequencyTarget := reg_targets r !! id.
Definition get_scalar (r : TargetRegistry) (id : string) : option ScalarTarget :=
  reg_scalar_targets r !! id.

(** ** Well-formed targets *)

Record frequency_target_wf (t : FrequencyTarget) : Prop := {
  ftw_min_path : validate_sysfs_path (ft_min_path t) = Ok tt;
  ftw_max_path : validate_sysfs_path (ft_max_path t) = Ok tt;
  ftw_distinct : components (ft_min_path t) <> components (ft_max_path t);
  ftw_ordered : ft_hardware_min t <= ft_hardware_max t;
  ftw_sorted : StronglySorted Z.lt (ft_opps t);
  ftw_opps : forall f, f ∈ ft_opps t ->
    ft_hardware_min t <= f <= ft_hardware_max t /\ is_multiple_of f (ft_hertz_per_unit t) = true;
  ftw_unit : ft_hertz_per_unit t <> 0;
  ftw_min_unit : is_multiple_of (ft_hardware_min t) (ft_hertz_per_unit t) = true;
  ftw_max_unit : is_multiple_of (ft_hardware_max t) (ft_hertz_per_unit t) = true;
}.

Record scalar_target_wf (t : ScalarTarget) : Prop := {
  scw_path : validate_sysfs_path (sct_path t) = Ok tt;
  scw_domain : canonicalize (sct_id t) (sct_domain t) = Ok (sct_domain t);
}.

Lemma reject_if_intro {E} (b : bool) (e : E) : b = false -> reject_if b e = Ok tt.
Proof. by intros ->. Qed.

Lemma path_eqb_false a b : path_eqb a b = false <-> components a <> components b.
Proof. unfold path_eqb. by rewrite bool_decide_eq_false. Qed.

Lemma path_eqb_refl a : path_eqb a a = true.
Proof. by apply bool_decide_eq_true. Qed.

Lemma frequency_manifest_eqb_refl m : frequency_manifest_eqb m m = true.
Proof.
  unfold frequency_manifest_eqb. rewrite !path_eqb_refl, !Z.eqb_refl.
  by rewrite !bool_decide_eq_true_2.
Qed.

Lemma scalar_manifest_eqb_refl m : scalar_manifest_eqb m m = true.
Proof. unfold scalar_manifest_eqb. rewrite path_eqb_refl. by rewrite !bool_decide_eq_true_2. Qed.

Lemma FrequencyTarget_new_Ok id mn mx lo hi opps t :
  FrequencyTarget_new id mn mx lo hi opps = Ok t ->
  frequency_target_wf t /\
  t = {| ft_id := id; ft_min_path := mn; ft_max_path := mx; ft_hardware_min := lo;
         ft_hardware_max := hi; ft_opps := sort_dedup opps; ft_hertz_per_unit := 1 |}.
Proof.
  unfold FrequencyTarget_new.
  intros ([] & H1 & ([] & H2 & (? & H3%reject_if_Ok & (? & H4%reject_if_Ok &
    (? & H5%reject_if_Ok & [= <-])%res_bind_Ok)%res_bind_Ok)%res_bind_Ok)%res_bind_Ok)%res_bind_Ok.
  split; [|done]. constructor; simpl; try done.
  - by apply path_eqb_false.
  - lia.
  - apply sort_dedup_sorted.
  - intros f Hf. split; [|unfold is_multiple_of; simpl; apply Z.eqb_eq, Z.mod_1_r].
    apply not_true_iff_false in H5.
    destruct (Z.ltb_spec f lo), (Z.ltb_spec hi f); try lia;
      exfalso; apply H5, existsb_exists; exists f;
      (split; [by apply list_elem_of_In|lia]).
  - unfold is_multiple_of. simpl. apply Z.eqb_eq, Z.mod_1_r.
  - unfold is_multiple_of. simpl. apply Z.eqb_eq, Z.mod_1_r.
Qed.

Lemma with_hertz_per_unit_Ok t u t' :
  frequency_target_wf t -> with_hertz_per_unit t u = Ok t' ->
  frequency_target_wf t' /\ ft_id t' = ft_id t /\ ft_hertz_per_unit t' = u.
Proof.
  intros [W1 W2 W3 W4 W5 W6 W7 W8 W9]. unfold with_hertz_per_unit.
  intros (? & H1%reject_if_Ok & (? & H2%reject_if_Ok & [= <-])%res_bind_Ok)%res_bind_Ok.
  rewrite negb_false_iff, !andb_true_iff in H2. destruct H2 as [[H2 H3] H4].
  split; [|done]. constructor; simpl; try done; [|lia].
  intros f Hf. split; [by apply W6|]. rewrite forallb_forall in H4.
  apply H4. by apply list_elem_of_In.
Qed.

(** *** Manifests *)

Lemma frequency_manifest_rebuilds t :
  frequency_target_wf t -> to_frequency_target (frequency_manifest t) = Ok t.
Proof.
  intros [W1 W2 W3 W4 W5 W6 W7 W8 W9]. destruct t as [id mn mx lo hi opps u]. simpl in *.
  assert (Hopps : sort_dedup opps = opps).
  { unfold sort_dedup. rewrite (merge_sort_sorted Z.le) by (by apply sorted_lt_le).
    by apply dedup_id. }
  unfold to_frequency_target, FrequencyTarget_new. simpl. rewrite W1, W2. simpl.
  rewrite (proj2 (path_eqb_false mn mx)) by done. simpl.
  rewrite (proj2 (Z.ltb_ge _ _)) by done. simpl. rewrite Hopps.
  rewrite (reject_if_intro (existsb _ opps)).
  2: { apply not_true_iff_false. rewrite existsb_exists. intros (f & Hf%list_elem_of_In & Hb).
       destruct (W6 f Hf) as [? _]. lia. }
  simpl. unfold with_hertz_per_unit. simpl. rewrite (proj2 (Z.eqb_neq _ _)) by done. simpl.
  rewrite W8, W9. rewrite (proj2 (forallb_forall _ opps)).
  2: { intros f Hf%list_elem_of_In. by apply W6. }
  simpl. by rewrite frequency_manifest_eqb_refl.
Qed.

Lemma scalar_manifest_rebuilds t :
  scalar_target_wf t -> to_scalar_target (scalar_manifest t) = Ok t.
Proof.
  intros [W1 W2]. destruct t as [id path d]. simpl in *.
  unfold to_scalar_target, ScalarTarget_new. simpl. rewrite W1. simpl. rewrite W2. simpl.
  by rewrite scalar_manifest_eqb_refl.
Qed.

(** *** Limits *)

Lemma validate_limits_Ok t l u :
  validate_limits t l = Ok u <->
  ft_hardware_min t <= lim_min l /\ lim_max l <= ft_hardware_max t /\ lim_min l <= lim_max l /\
  ft_hertz_per_unit t <> 0 /\ is_multiple_of (lim_min l) (ft_hertz_per_unit t) = true /\
  is_multiple_of (lim_max l) (ft_hertz_per_unit t) = true.
Proof.
  unfold validate_limits. rewrite reject_if_Ok, !orb_false_iff, !negb_false_iff.
  rewrite !Z.ltb_ge, Z.eqb_neq. tauto.
Qed.

Lemma hardware_limits_valid t :
  frequency_target_wf t -> validate_limits t (hardware_limits t) = Ok tt.
Proof. intros [? ? ? ? ? ? ? ? ?]. apply validate_limits_Ok. simpl. split_and!; (done || lia). Qed.

Lemma find_or_default {A} (p : A -> bool) l d x :
  unwrap_or (List.find p l) d = x -> (x ∈ l /\ p x = true) \/ (x = d /\ forall y, y ∈ l -> p y = false).
Proof.
  destruct (List.find p l) as [y|] eqn:E; simpl; intros <-.
  - left. apply find_some in E as [Hin Hp]. split; [by apply list_elem_of_In|done].
  - right. split; [done|]. intros y Hy%list_elem_of_In. eapply find_none in E; eauto.
Qed.

Section snap.
Context (t : FrequencyTarget) (Hwf : frequency_target_wf t).

Lemma snap_limits_spec requested l :
  snap_limits t requested = Ok l ->
  validate_limits t l = Ok tt /\ lim_max l <= lim_max requested /\
  (ft_opps t = [] -> l = requested).
Proof using Hwf.
  unfold snap_limits. intros ([] & Hr & Hl)%res_bind_Ok.
  pose proof Hwf as [_ _ _ Hord _ Hopp Hu Hmin Hmax].
  destruct (ft_opps t) as [|o os] eqn:Eo; [by injection Hl as <-|].
  apply validate_limits_Ok in Hr as (R1 & R2 & R3 & R4 & R5 & R6).
  set (mn := unwrap_or (List.find _ (o :: os)) _) in *.
  set (mx := unwrap_or (List.find _ (rev (o :: os))) _) in *.
  assert (Hmx : (mx = ft_hardware_min t \/ mx ∈ o :: os) /\ mx <= lim_max requested).
  { destruct (find_or_default _ _ _ mx eq_refl) as [[Hin Hp]|[-> _]]; [|split; [by left|lia]].
    split; [right|lia]. by rewrite list_elem_of_In, in_rev, <- list_elem_of_In. }
  assert (Hmn : mn = ft_hardware_max t \/ mn ∈ o :: os).
  { destruct (find_or_default _ _ _ mn eq_refl) as [[Hin Hp]|[-> _]]; auto. }
  assert (Hb : forall z, z = ft_hardware_min t \/ z = ft_hardware_max t \/ z ∈ o :: os ->
    ft_hardware_min t <= z <= ft_hardware_max t /\
    is_multiple_of z (ft_hertz_per_unit t) = true).
  { intros z [->|[->|Hz]]; [split; [lia|done]|split; [lia|done]|by apply Hopp]. }
  unfold FrequencyLimits_new in Hl. rewrite (proj2 (Z.leb_le _ _)) in Hl by lia.
  injection Hl as <-. simpl. split; [|split; [apply Hmx|done]].
  destruct (Hb mx ltac:(tauto)) as [Bx Ux]. destruct (Hb mn ltac:(tauto)) as [Bn Un].
  apply validate_limits_Ok. simpl. split_and!; try done; [lia|lia|lia|].
  by destruct (Z.min_spec mn mx) as [[_ ->]|[_ ->]].
Qed.
End snap.
