(* ===== verification/Journal.v ===== *)
(** * The recovery journal ([uperf-actuator/src/lib.rs])

    What the journal records of every owned resource, the ordered write states
    of a frequency transition, and the validation every loaded journal must
    pass. JSON and CRC-32 are third-party code and stay parameters. *)

From S2P Require Import Prelude Domain Text Strings ActuatorTypes Scalars Targets.

Definition JOURNAL_SCHEMA_VERSION : Z := 6.
Definition MAX_JOURNAL_PAYLOAD_BYTES : Z := 1024 * 1024.
Definition MAX_JOURNAL_ENVELOPE_BYTES : Z := 5 * 1024 * 1024.

(** ** Ordered frequency transitions *)

Definition push_unique_pair (pairs : list FrequencyLimits) (pair : FrequencyLimits)
  : list FrequencyLimits :=
  if bool_decide (pair ∈ pairs) then pairs else pairs ++ [pair].

(** The states a transition passes through: whichever attribute keeps the pair
    ordered is written first. *)
Definition ordered_write_states (current desired : FrequencyLimits) : list FrequencyLimits :=
  let set_min (acc : list FrequencyLimits * FrequencyLimits) :=
    let '(states, next) := acc in
    if lim_min desired =? lim_min next then acc
    else
      let next := {| lim_min := lim_min desired; lim_max := lim_max next |} in
      (push_unique_pair states next, next) in
  let set_max (acc : list FrequencyLimits * FrequencyLimits) :=
    let '(states, next) := acc in
    if lim_max desired =? lim_max next then acc
    else
      let next := {| lim_min := lim_min next; lim_max := lim_max desired |} in
      (push_unique_pair states next, next) in
  if lim_max desired <? lim_min current
  then (set_max (set_min ([current], current))).1
  else (set_min (set_max ([current], current))).1.

Definition transaction_legal_pairs (current desired : FrequencyLimits) : list FrequencyLimits :=
  foldl push_unique_pair (ordered_write_states current desired)
    (ordered_write_states desired current).

(** ** Field masks *)

Record TaskFieldMask := {
  tm_affinity : bool;
  tm_nice : bool;
  tm_policy : bool;
  tm_uclamp_min : bool;
  tm_uclamp_max : bool;
}.
#[global] Instance TaskFieldMask_eq_dec : EqDecision TaskFieldMask.
Proof. solve_decision. Defined.

Definition TaskMask_default : TaskFieldMask :=
  {| tm_affinity := false; tm_nice := false; tm_policy := false; tm_uclamp_min := false;
     tm_uclamp_max := false |}.

Definition TaskMask_same_policy_priority (a b : ProcessSchedulingState) : bool :=
  bool_decide (st_policy a = st_policy b) && bool_decide (st_rt_priority a = st_rt_priority b).

Definition TaskMask_changed (before after : ProcessSchedulingState) : TaskFieldMask :=
  {| tm_affinity := bool_decide (st_affinity before <> st_affinity after);
     tm_nice := negb (st_nice before =? st_nice after);
     tm_policy := bool_decide (st_policy before <> st_policy after)
                  || bool_decide (st_rt_priority before <> st_rt_priority after);
     tm_uclamp_min := bool_decide (st_uclamp_min before <> st_uclamp_min after);
     tm_uclamp_max := bool_decide (st_uclamp_max before <> st_uclamp_max after) |}.

Definition TaskMask_union (a b : TaskFieldMask) : TaskFieldMask :=
  {| tm_affinity := tm_affinity a || tm_affinity b; tm_nice := tm_nice a || tm_nice b;
     tm_policy := tm_policy a || tm_policy b; tm_uclamp_min := tm_uclamp_min a || tm_uclamp_min b;
     tm_uclamp_max := tm_uclamp_max a || tm_uclamp_max b |}.

Definition TaskMask_without (a b : TaskFieldMask) : TaskFieldMask :=
  {| tm_affinity := tm_affinity a && negb (tm_affinity b); tm_nice := tm_nice a && negb (tm_nice b);
     tm_policy := tm_policy a && negb (tm_policy b);
     tm_uclamp_min := tm_uclamp_min a && negb (tm_uclamp_min b);
     tm_uclamp_max := tm_uclamp_max a && negb (tm_uclamp_max b) |}.

Definition TaskMask_is_empty (m : TaskFieldMask) : bool := bool_decide (m = TaskMask_default).

Definition TaskMask_intersects (a b : TaskFieldMask) : bool :=
  (tm_affinity a && tm_affinity b) || (tm_nice a && tm_nice b) || (tm_policy a && tm_policy b)
  || (tm_uclamp_min a && tm_uclamp_min b) || (tm_uclamp_max a && tm_uclamp_max b).

Definition TaskMask_fields_matching_either (m : TaskFieldMask) (current first second : ProcessSchedulingState)
  : TaskFieldMask :=
  {| tm_affinity := tm_affinity m
       && (bool_decide (st_affinity current = st_affinity first)
           || bool_decide (st_affinity current = st_affinity second));
     tm_nice := tm_nice m
       && ((st_nice current =? st_nice first) || (st_nice current =? st_nice second));
     tm_policy := tm_policy m
       && (TaskMask_same_policy_priority current first || TaskMask_same_policy_priority current second);
     tm_uclamp_min := tm_uclamp_min m
       && (bool_decide (st_uclamp_min current = st_uclamp_min first)
           || bool_decide (st_uclamp_min current = st_uclamp_min second));
     tm_uclamp_max := tm_uclamp_max m
       && (bool_decide (st_uclamp_max current = st_uclamp_max first)
           || bool_decide (st_uclamp_max current = st_uclamp_max second)) |}.

(** [mask.copy(&mut destination, source)] *)
Definition TaskMask_copy (m : TaskFieldMask) (destination source : ProcessSchedulingState)
  : ProcessSchedulingState :=
  {| st_affinity := if tm_affinity m then st_affinity source else st_affinity destination;
     st_nice := if tm_nice m then st_nice source else st_nice destination;
     st_policy := if tm_policy m then st_policy source else st_policy destination;
     st_rt_priority := if tm_policy m then st_rt_priority source else st_rt_priority destination;
     st_uclamp_min := if tm_uclamp_min m then st_uclamp_min source else st_uclamp_min destination;
     st_uclamp_max := if tm_uclamp_max m then st_uclamp_max source else st_uclamp_max destination |}.

Definition TaskMask_values_equal (m : TaskFieldMask) (left right : ProcessSchedulingState) : bool :=
  (negb (tm_affinity m) || bool_decide (st_affinity left = st_affinity right))
  && (negb (tm_nice m) || (st_nice left =? st_nice right))
  && (negb (tm_policy m) || TaskMask_same_policy_priority left right)
  && (negb (tm_uclamp_min m) || bool_decide (st_uclamp_min left = st_uclamp_min right))
  && (negb (tm_uclamp_max m) || bool_decide (st_uclamp_max left = st_uclamp_max right)).

Record UnitFieldMask := { um_cpu_weight : bool; um_allowed_cpus : bool }.
#[global] Instance UnitFieldMask_eq_dec : EqDecision UnitFieldMask.
Proof. solve_decision. Defined.

Definition UnitMask_default : UnitFieldMask := {| um_cpu_weight := false; um_allowed_cpus := false |}.

Definition UnitMask_changed (before after : SystemdUnitProperties) : UnitFieldMask :=
  {| um_cpu_weight := bool_decide (up_cpu_weight before <> up_cpu_weight after);
     um_allowed_cpus := bool_decide (up_allowed_cpus before <> up_allowed_cpus after) |}.

Definition UnitMask_union (a b : UnitFieldMask) : UnitFieldMask :=
  {| um_cpu_weight := um_cpu_weight a || um_cpu_weight b;
     um_allowed_cpus := um_allowed_cpus a || um_allowed_cpus b |}.

Definition UnitMask_without (a b : UnitFieldMask) : UnitFieldMask :=
  {| um_cpu_weight := um_cpu_weight a && negb (um_cpu_weight b);
     um_allowed_cpus := um_allowed_cpus a && negb (um_allowed_cpus b) |}.

Definition UnitMask_is_empty (m : UnitFieldMask) : bool := bool_decide (m = UnitMask_default).

Definition UnitMask_intersects (a b : UnitFieldMask) : bool :=
  (um_cpu_weight a && um_cpu_weight b) || (um_allowed_cpus a && um_allowed_cpus b).

Definition UnitMask_fields_matching_either (m : UnitFieldMask) (current first second : SystemdUnitProperties)
  : UnitFieldMask :=
  {| um_cpu_weight := um_cpu_weight m
       && (bool_decide (up_cpu_weight current = up_cpu_weight first)
           || bool_decide (up_cpu_weight current = up_cpu_weight second));
     um_allowed_cpus := um_allowed_cpus m
       && (bool_decide (up_allowed_cpus current = up_allowed_cpus first)
           || bool_decide (up_allowed_cpus current = up_allowed_cpus second)) |}.

Definition UnitMask_copy (m : UnitFieldMask) (destination source : SystemdUnitProperties)
  : SystemdUnitProperties :=
  {| up_cpu_weight := if um_cpu_weight m then up_cpu_weight source else up_cpu_weight destination;
     up_allowed_cpus :=
       if um_allowed_cpus m then up_allowed_cpus source else up_allowed_cpus destination |}.

Definition UnitMask_values_equal (m : UnitFieldMask) (left right : SystemdUnitProperties) : bool :=
  (negb (um_cpu_weight m) || bool_decide (up_cpu_weight left = up_cpu_weight right))
  && (negb (um_allowed_cpus m) || bool_decide (up_allowed_cpus left = up_allowed_cpus right)).

(** ** Entries *)

Record JournalEntry := {
  je_target : string;
  je_min_path : string;
  je_max_path : string;
  je_resource_manifest : RecoveryResourceManifest;
  je_original : FrequencyLimits;
  je_desired : FrequencyLimits;
  je_applied : FrequencyLimits;
  je_legal_pairs : list FrequencyLimits;
}.

Record ScalarJournalEntry := {
  se_target : string;
  se_path : string;
  se_manifest : RecoveryResourceManifest;
  se_original : ScalarValue;
  se_desired : ScalarValue;
  se_applied : ScalarValue;
}.

Record TaskJournalEntry := {
  te_identity : ProcessIdentity;
  te_original : ProcessSchedulingState;
  te_desired : ProcessSchedulingState;
  te_applied : ProcessSchedulingState;
  te_owned_fields : TaskFieldMask;
  te_relinquished_fields : TaskFieldMask;
}.

Record UnitJournalEntry := {
  ue_unit : string;
  ue_instance : SystemdUnitInstanceIdentity;
  ue_original : SystemdUnitProperties;
  ue_desired : SystemdUnitProperties;
  ue_applied : SystemdUnitProperties;
  ue_owned_fields : UnitFieldMask;
  ue_relinquished_fields : UnitFieldMask;
}.

Record Journal := {
  j_schema_version : Z;
  j_boot_id : string;
  j_device_fingerprint : string;
  j_generation : Z;
  j_entries : gmap string JournalEntry;
  j_scalars : gmap string ScalarJournalEntry;
  j_tasks : gmap string TaskJournalEntry;
  j_units : gmap string UnitJournalEntry;
}.

Definition journal_is_empty (j : Journal) : bool :=
  bool_decide (j_entries j = ∅) && bool_decide (j_scalars j = ∅)
  && bool_decide (j_tasks j = ∅) && bool_decide (j_units j = ∅).

Definition empty_journal (boot_id device_fingerprint : string) (generation : Z) : Journal :=
  {| j_schema_version := JOURNAL_SCHEMA_VERSION; j_boot_id := boot_id;
     j_device_fingerprint := device_fingerprint; j_generation := generation;
     j_entries := ∅; j_scalars := ∅; j_tasks := ∅; j_units := ∅ |}.

Definition task_journal_key (i : ProcessIdentity) : string :=
  to_string (pid i) +:+ ":" +:+ to_string (start_time_ticks i) +:+ ":" +:+ to_string (uid i).

Definition recovery_frequency_manifest (e : JournalEntry)
  : result RecoveryFrequencyTargetManifest :=
  match je_resource_manifest e with FrequencyPair m => Ok m | ScalarResource _ => Panic end.

Definition recovery_scalar_manifest (e : ScalarJournalEntry)
  : result RecoveryScalarTargetManifest :=
  match se_manifest e with ScalarResource m => Ok m | FrequencyPair _ => Panic end.

(** ** Validation of a loaded journal *)

Notation owners := (gmap path_key message).

Definition invalid_journal {A} (m : message) : result A := Err (InvalidJournal m).

(** [.map_err(|error| InvalidJournal(error.to_string()))] *)
Definition as_journal_error {A} (r : result A) : result A :=
  map_err (fun e => InvalidJournal [Cause e]) r.

(** [claimed_sysfs_paths.insert(path, kind target)] *)
Definition claim_journal_path (kind target : string) (claimed : owners) (path : string)
  : result owners :=
  match claimed !! components path with
  | Some owner =>
      invalid_journal (owner ++ [T " and "; T kind; T target; T " both claim "; T path])
  | None => Ok (<[components path := [T kind; T target]]> claimed)
  end.

Definition check_valid_limits (target : string) (named : string * FrequencyLimits) : result unit :=
  reject_if (negb (is_valid named.2))
    (InvalidJournal [T target; T " "; T named.1; T " limits are reversed"]).

(** One legal pair: inside the target, and not seen before. *)
Definition check_legal_pair (target : FrequencyTarget) (id : string) (unique : list FrequencyLimits)
    (pair : FrequencyLimits) : result (list FrequencyLimits) :=
  do? as_journal_error (validate_limits target pair) in
  do? reject_if (bool_decide (pair ∈ unique))
    (InvalidJournal [T id; T " legal frequency pairs contain a duplicate"]) in
  Ok (unique ++ [pair]).

Definition expected_pairs (e : JournalEntry) : list FrequencyLimits :=
  if bool_decide (je_desired e = je_applied e) then [je_applied e]
  else transaction_legal_pairs (je_applied e) (je_desired e).

Definition validate_frequency_entry (claimed : owners) (kv : string * JournalEntry)
  : result owners :=
  let '(key, e) := kv in
  let id := je_target e in
  do? reject_if (negb (bool_decide (key = id)))
    (InvalidJournal [T "frequency journal key does not match "; T id]) in
  do? as_journal_error (validate_sysfs_path (je_min_path e)) in
  do? as_journal_error (validate_sysfs_path (je_max_path e)) in
  let? claimed := res_foldM (claim_journal_path "frequency " id) claimed
                    [je_min_path e; je_max_path e] in
  do? res_mapM (check_valid_limits id)
    [("original", je_original e); ("desired", je_desired e); ("applied", je_applied e)] in
  let? manifest :=
    match je_resource_manifest e with
    | FrequencyPair m => Ok m
    | ScalarResource _ =>
        invalid_journal [T id; T " frequency entry has a non-frequency manifest"]
    end in
  do? reject_if
    (negb (bool_decide (rf_id manifest = id)) || negb (path_eqb (rf_min_path manifest) (je_min_path e))
     || negb (path_eqb (rf_max_path manifest) (je_max_path e)))
    (InvalidJournal [T id; T " recovery manifest identity does not match its entry"]) in
  let? target := as_journal_error (to_frequency_target manifest) in
  do? res_mapM (fun l => as_journal_error (validate_limits target l))
    [je_original e; je_desired e; je_applied e] in
  do? reject_if (negb (bool_decide (je_original e = hardware_limits target)))
    (InvalidJournal [T id; T " original request is not the full hardware range"]) in
  do? reject_if (bool_decide (je_legal_pairs e = []))
    (InvalidJournal [T id; T " entry has no legal frequency pairs"]) in
  do? res_foldM (check_legal_pair target id) [] (je_legal_pairs e) in
  do? reject_if (negb (bool_decide (je_legal_pairs e = expected_pairs e)))
    (InvalidJournal [T id; T " legal frequency pairs do not match its exact ordered transition"]) in
  Ok claimed.

Definition validate_scalar_entry (entries : gmap string JournalEntry) (claimed : owners)
    (kv : string * ScalarJournalEntry) : result owners :=
  let '(key, e) := kv in
  let id := se_target e in
  do? reject_if (negb (bool_decide (key = id)) || bool_decide (is_Some (entries !! key)))
    (InvalidJournal [T "scalar journal key does not uniquely match "; T id]) in
  do? as_journal_error (validate_sysfs_path (se_path e)) in
  let? claimed := claim_journal_path "scalar " id claimed (se_path e) in
  let? manifest :=
    match se_manifest e with
    | ScalarResource m => Ok m
    | FrequencyPair _ => invalid_journal [T id; T " scalar entry has a non-scalar manifest"]
    end in
  do? reject_if
    (negb (bool_decide (rs_id manifest = id)) || negb (path_eqb (rs_path manifest) (se_path e)))
    (InvalidJournal [T id; T " scalar recovery manifest identity does not match its entry"]) in
  let? target := as_journal_error (to_scalar_target manifest) in
  do? res_mapM (fun v => as_journal_error (validate_value target v))
    [se_original e; se_desired e; se_applied e] in
  Ok claimed.

(** [validate_journal_scheduling_state] *)
Definition validate_journal_scheduling_state (s : ProcessSchedulingState) : res unit message :=
  match st_policy s, st_rt_priority s with
  | Fifo, Some priority =>
      reject_if (negb ((1 <=? priority) && (priority <=? 99)))
        [T "FIFO priority "; Num priority; T " is outside Linux range 1..=99"]
  | Fifo, None => Err [T "FIFO policy is missing its fixed priority"]
  | (Other | Batch | IdleClass), None => Ok tt
  | (Other | Batch | IdleClass), Some priority =>
      Err [T "non-real-time policy carries unexpected priority "; Num priority]
  end.

Definition validate_task_entry (e : TaskJournalEntry) : result unit :=
  let p := pid (te_identity e) in
  do? res_mapM (fun named : string * ProcessSchedulingState =>
        map_err (fun detail => InvalidJournal
                   ([T "task journal "; T named.1; T " state for pid "; Num p; T " is invalid: "]
                    ++ detail))
          (validate_journal_scheduling_state named.2))
    [("original", te_original e); ("desired", te_desired e); ("applied", te_applied e)] in
  reject_if (TaskMask_intersects (te_owned_fields e) (te_relinquished_fields e))
    (InvalidJournal [T "task journal masks overlap for pid "; Num p]).

(** [byte.is_ascii_alphanumeric() || matches!(byte, . _ - @ : \)] *)
Definition is_unit_byte (c : Ascii.ascii) : bool :=
  is_ascii_alphanumeric c || is_target_punct c || (byte_of c =? 64) || (byte_of c =? 58)
  || (byte_of c =? 92).

Definition validate_unit_name (name : string) : result unit :=
  reject_if (bool_decide (name = "") || (255 <? str_len name)
             || negb (forallb is_unit_byte (bytes name)))
    (InvalidTarget [T "invalid systemd unit name "; T name]).

Definition validate_unit_instance_identity (i : SystemdUnitInstanceIdentity) : result unit :=
  do? as_journal_error (validate_unit_name (ui_unit i)) in
  match ui_key i with
  | InvocationId b =>
      reject_if (forallb (fun x => x =? 0) b)
        (InvalidJournal [T (ui_unit i); T " has an all-zero systemd invocation ID"])
  | ControlGroup path =>
      reject_if (bool_decide (path = "") || negb (starts_with_slash path)
                 || existsb is_parent_dir (components path))
        (InvalidJournal [T (ui_unit i); T " has an invalid systemd control group identity"])
  end.

Definition validate_unit_entry (kv : string * UnitJournalEntry) : result unit :=
  let '(key, e) := kv in
  do? reject_if (negb (bool_decide (key = ue_unit e)))
    (InvalidJournal [T "systemd journal key does not match "; T (ue_unit e)]) in
  do? as_journal_error (validate_unit_name (ue_unit e)) in
  do? validate_unit_instance_identity (ue_instance e) in
  do? reject_if (negb (bool_decide (ui_unit (ue_instance e) = ue_unit e)))
    (InvalidJournal [T "systemd instance identity does not match "; T (ue_unit e)]) in
  reject_if (UnitMask_intersects (ue_owned_fields e) (ue_relinquished_fields e))
    (InvalidJournal [T "systemd journal masks overlap for "; T (ue_unit e)]).

Definition validate_decoded_journal (j : Journal) : result unit :=
  do? reject_if (negb (j_schema_version j =? JOURNAL_SCHEMA_VERSION))
    (InvalidJournal [T "unsupported schema version "; Num (j_schema_version j)]) in
  do? reject_if (bool_decide (j_boot_id j = "") || bool_decide (j_device_fingerprint j = ""))
    (InvalidJournal [T "boot ID and device fingerprint must be non-empty"]) in
  let? claimed := res_foldM validate_frequency_entry ∅ (entries (j_entries j)) in
  do? res_foldM (validate_scalar_entry (j_entries j)) claimed (entries (j_scalars j)) in
  do? reject_if
    (existsb (fun kv : string * TaskJournalEntry =>
                negb (bool_decide (kv.1 = task_journal_key (te_identity kv.2))))
       (entries (j_tasks j)))
    (InvalidJournal [T "task journal key does not match its stable identity"]) in
  do? res_mapM validate_task_entry (values (j_tasks j)) in
  do? res_mapM validate_unit_entry (entries (j_units j)) in
  Ok tt.

(** ** The envelope

    [serde_json] and [crc32fast] are parameters: a journal and an envelope have
    a JSON encoding that parses back to them, and a payload has a checksum. *)

Record JournalEnvelope := { payload : list Z; checksum : Z }.

Class JournalCodec := {
  journal_to_vec : Journal -> list Z;
  journal_from_slice : list Z -> option Journal;
  envelope_to_vec : JournalEnvelope -> list Z;
  envelope_from_slice : list Z -> option JournalEnvelope;
  crc32 : list Z -> Z;
  journal_json : forall j, journal_from_slice (journal_to_vec j) = Some j;
  envelope_json : forall e, envelope_from_slice (envelope_to_vec e) = Some e;
}.

Section codec.
Context `{JournalCodec}.

Definition too_long (limit : Z) (l : list Z) : bool := limit <? Z.of_nat (length l).

Definition encode_journal (j : Journal) : result (list Z) :=
  let bytes := journal_to_vec j in
  do? reject_if (too_long MAX_JOURNAL_PAYLOAD_BYTES bytes)
    (InvalidJournal [T "payload exceeds "; Num MAX_JOURNAL_PAYLOAD_BYTES; T " bytes"]) in
  let encoded := envelope_to_vec {| payload := bytes; checksum := crc32 bytes |} in
  do? reject_if (too_long MAX_JOURNAL_ENVELOPE_BYTES encoded)
    (InvalidJournal [T "envelope exceeds "; Num MAX_JOURNAL_ENVELOPE_BYTES; T " bytes"]) in
  Ok encoded.

Definition decode_journal (bytes : list Z) : result Journal :=
  do? reject_if (too_long MAX_JOURNAL_ENVELOPE_BYTES bytes)
    (InvalidJournal [T "envelope exceeds "; Num MAX_JOURNAL_ENVELOPE_BYTES; T " bytes"]) in
  let? envelope := ok_or (envelope_from_slice bytes) (InvalidJournal [T "malformed envelope"]) in
  do? reject_if (too_long MAX_JOURNAL_PAYLOAD_BYTES (payload envelope))
    (InvalidJournal [T "payload exceeds "; Num MAX_JOURNAL_PAYLOAD_BYTES; T " bytes"]) in
  do? reject_if (negb (crc32 (payload envelope) =? checksum envelope))
    (InvalidJournal [T "checksum mismatch"]) in
  let? journal := ok_or (journal_from_slice (payload envelope))
                    (InvalidJournal [T "malformed journal"]) in
  do? validate_decoded_journal journal in
  Ok journal.

(** A journal that was encoded decodes to itself exactly when it is valid. *)
Lemma decode_encode j bytes :
  encode_journal j = Ok bytes ->
  decode_journal bytes = (do? validate_decoded_journal j in Ok j).
Proof.
  unfold encode_journal, decode_journal.
  intros (? & H1%reject_if_Ok & (? & H2%reject_if_Ok & [= <-])%res_bind_Ok)%res_bind_Ok.
  rewrite H2. simpl. rewrite envelope_json. simpl. rewrite H1. simpl.
  rewrite Z.eqb_refl. simpl. by rewrite journal_json.
Qed.
End codec.
