(* ===== verification/JournalFacts.v ===== *)
(** * What a valid journal is

    The ordered write states keep a pair ordered and inside its target; the
    paths a journal claims; and a declarative specification of
    [validate_decoded_journal], which the executable validator is proved to
    implement. *)

From S2P Require Import Prelude Domain Text Strings ActuatorTypes Scalars Targets Journal.

(** ** Ordered write states *)

Lemma push_unique_NoDup l p : NoDup l -> NoDup (push_unique_pair l p).
Proof.
  unfold push_unique_pair. intros Hl. case_bool_decide as Hp; [done|].
  apply NoDup_app. split_and!; [done|set_solver|apply NoDup_singleton].
Qed.

Lemma elem_of_push_unique l p q : q ∈ push_unique_pair l p <-> q ∈ l \/ q = p.
Proof. unfold push_unique_pair. case_bool_decide; set_solver. Qed.

Lemma foldl_push_unique ps l :
  (NoDup l -> NoDup (foldl push_unique_pair l ps)) /\
  forall q, q ∈ foldl push_unique_pair l ps <-> q ∈ l \/ q ∈ ps.
Proof.
  revert l. induction ps as [|p ps IH]; intros l; simpl; [split; [done|set_solver]|].
  destruct (IH (push_unique_pair l p)) as [H1 H2]. split.
  - intros Hl. by apply H1, push_unique_NoDup.
  - intros q. rewrite H2, elem_of_push_unique, elem_of_cons. tauto.
Qed.

(** The pairs a transition can pass through. *)
Lemma elem_of_ordered_write_states c d p :
  p ∈ ordered_write_states c d ->
  p = c \/ p = d \/
  (lim_max d < lim_min c /\ p = {| lim_min := lim_min d; lim_max := lim_max c |}) \/
  (lim_min c <= lim_max d /\ p = {| lim_min := lim_min c; lim_max := lim_max d |}).
Proof.
  destruct c as [cm cx], d as [dm dx]. unfold ordered_write_states. simpl.
  destruct (Z.ltb_spec dx cm);
    repeat (match goal with |- context [?x =? ?y] => destruct (Z.eqb_spec x y) as [->|?] end; simpl);
    rewrite ?elem_of_push_unique, ?list_elem_of_singleton; naive_solver.
Qed.

Lemma ordered_write_states_ends c d :
  c ∈ ordered_write_states c d /\ d ∈ ordered_write_states c d.
Proof.
  destruct c as [cm cx], d as [dm dx]. unfold ordered_write_states. simpl.
  destruct (Z.ltb_spec dx cm);
    repeat (match goal with |- context [?x =? ?y] => destruct (Z.eqb_spec x y) as [->|?] end; simpl);
    rewrite ?elem_of_push_unique, ?list_elem_of_singleton; naive_solver.
Qed.

Lemma ordered_write_states_NoDup c d : NoDup (ordered_write_states c d).
Proof.
  unfold ordered_write_states.
  destruct (_ <? _); repeat (match goal with |- context [?x =? ?y] => destruct (x =? y) end; simpl);
    repeat apply push_unique_NoDup; apply NoDup_singleton.
Qed.

(** Every state of a transition between valid pairs is a valid pair of the
    same target: no write passes through a reversed range. *)
Lemma ordered_write_states_valid t c d p :
  validate_limits t c = Ok tt -> validate_limits t d = Ok tt ->
  p ∈ ordered_write_states c d -> validate_limits t p = Ok tt.
Proof.
  intros (C1 & C2 & C3 & C4 & C5 & C6)%validate_limits_Ok
    (D1 & D2 & D3 & _ & D5 & D6)%validate_limits_Ok Hp%elem_of_ordered_write_states.
  destruct Hp as [->|[->|[[? ->]|[? ->]]]]; apply validate_limits_Ok; simpl; split_and!; (done || lia).
Qed.

Lemma legal_pairs_valid t c d p :
  validate_limits t c = Ok tt -> validate_limits t d = Ok tt ->
  p ∈ transaction_legal_pairs c d -> validate_limits t p = Ok tt.
Proof.
  intros Hc Hd Hp. apply foldl_push_unique in Hp as [Hp|Hp];
    by eapply ordered_write_states_valid; [..|exact Hp].
Qed.

Lemma legal_pairs_NoDup c d : NoDup (transaction_legal_pairs c d).
Proof. apply foldl_push_unique, ordered_write_states_NoDup. Qed.

Lemma legal_pairs_self c : transaction_legal_pairs c c = [c].
Proof.
  destruct c as [cm cx]. unfold transaction_legal_pairs, ordered_write_states. simpl.
  rewrite !Z.eqb_refl. destruct (cx <? cm); simpl; unfold push_unique_pair;
    by rewrite bool_decide_eq_true_2 by set_solver.
Qed.

(** The legal pairs recorded for a transition are the expected ones. *)
Lemma expected_pairs_alt e :
  expected_pairs e = transaction_legal_pairs (je_applied e) (je_desired e).
Proof.
  unfold expected_pairs. case_bool_decide as E; [|done]. by rewrite E, legal_pairs_self.
Qed.

(** ** Claimed paths *)

Notation pair_shape := (path_key * path_key)%type.

Definition entry_shape (e : JournalEntry) : pair_shape :=
  (components (je_min_path e), components (je_max_path e)).
Definition scalar_shape (e : ScalarJournalEntry) : path_key := components (se_path e).

Definition pair_claims (kv : string * pair_shape) : list path_key := [kv.2.1; kv.2.2].
Definition scalar_claims (kv : string * path_key) : list path_key := [kv.2].

(** The paths claimed by frequency pairs and by scalars. *)
Definition shape_claims (fs : gmap string pair_shape) (ss : gmap string path_key) : list path_key :=
  (map_to_list fs ≫= pair_claims) ++ (map_to_list ss ≫= scalar_claims).

Definition journal_claims (j : Journal) : list path_key :=
  shape_claims (entry_shape <$> j_entries j) (scalar_shape <$> j_scalars j).

Lemma elem_of_journal_claims j k :
  k ∈ journal_claims j <->
  (exists id e, j_entries j !! id = Some e /\
     (k = components (je_min_path e) \/ k = components (je_max_path e))) \/
  (exists id e, j_scalars j !! id = Some e /\ k = components (se_path e)).
Proof.
  unfold journal_claims, shape_claims. rewrite elem_of_app, !list_elem_of_bind. f_equiv.
  - split.
    + intros ([id s] & Hk & (e & <- & He)%elem_of_map_to_list%lookup_fmap_Some). exists id, e.
      unfold pair_claims, entry_shape in Hk. set_solver.
    + intros (id & e & He & Hk). exists (id, entry_shape e). split.
      * unfold pair_claims, entry_shape. set_solver.
      * apply elem_of_map_to_list, lookup_fmap_Some. eauto.
  - split.
    + intros ([id s] & Hk & (e & <- & He)%elem_of_map_to_list%lookup_fmap_Some). exists id, e.
      unfold scalar_claims, scalar_shape in Hk. set_solver.
    + intros (id & e & He & ->). exists (id, scalar_shape e). split.
      * unfold scalar_claims. set_solver.
      * apply elem_of_map_to_list, lookup_fmap_Some. eauto.
Qed.

Lemma NoDup_submseteq_r {A} (l k : list A) : l ⊆+ k -> NoDup k -> NoDup l.
Proof. intros (k' & ->)%submseteq_Permutation. by intros [? _]%NoDup_app. Qed.

Lemma shape_claims_subseteq fs ss fs' ss' :
  fs ⊆ fs' -> ss ⊆ ss' -> shape_claims fs ss ⊆+ shape_claims fs' ss'.
Proof.
  intros Hf Hs. unfold shape_claims.
  by apply submseteq_app; apply bind_submseteq, map_to_list_submseteq.
Qed.

(** ** The specification of a valid journal *)

(** The target an entry's manifest rebuilds. *)
Definition entry_target (e : JournalEntry) (t : FrequencyTarget) : Prop :=
  exists m, je_resource_manifest e = FrequencyPair m /\ rf_id m = je_target e /\
    path_eqb (rf_min_path m) (je_min_path e) = true /\
    path_eqb (rf_max_path m) (je_max_path e) = true /\ to_frequency_target m = Ok t.

Record frequency_entry_valid (key : string) (e : JournalEntry) : Prop := {
  fev_key : key = je_target e;
  fev_min_path : validate_sysfs_path (je_min_path e) = Ok tt;
  fev_max_path : validate_sysfs_path (je_max_path e) = Ok tt;
  fev_target : exists t, entry_target e t /\ validate_limits t (je_original e) = Ok tt /\
    validate_limits t (je_desired e) = Ok tt /\ validate_limits t (je_applied e) = Ok tt /\
    je_original e = hardware_limits t;
  fev_pairs : je_legal_pairs e = transaction_legal_pairs (je_applied e) (je_desired e);
}.

Definition scalar_entry_target (e : ScalarJournalEntry) (t : ScalarTarget) : Prop :=
  exists m, se_manifest e = ScalarResource m /\ rs_id m = se_target e /\
    path_eqb (rs_path m) (se_path e) = true /\ to_scalar_target m = Ok t.

Record scalar_entry_valid (entries : gmap string JournalEntry) (key : string)
    (e : ScalarJournalEntry) : Prop := {
  sev_key : key = se_target e;
  sev_fresh : entries !! key = None;
  sev_path : validate_sysfs_path (se_path e) = Ok tt;
  sev_target : exists t, scalar_entry_target e t /\ validate_value t (se_original e) = Ok tt /\
    validate_value t (se_desired e) = Ok tt /\ validate_value t (se_applied e) = Ok tt;
}.

Definition scheduling_valid (s : ProcessSchedulingState) : Prop :=
  match st_policy s, st_rt_priority s with
  | Fifo, Some p => 1 <= p <= 99
  | Fifo, None => False
  | _, o => o = None
  end.

Record task_entry_valid (e : TaskJournalEntry) : Prop := {
  tev_original : scheduling_valid (te_original e);
  tev_desired : scheduling_valid (te_desired e);
  tev_applied : scheduling_valid (te_applied e);
  tev_masks : TaskMask_intersects (te_owned_fields e) (te_relinquished_fields e) = false;
}.

Record unit_entry_valid (key : string) (e : UnitJournalEntry) : Prop := {
  uev_key : key = ue_unit e;
  uev_name : validate_unit_name (ue_unit e) = Ok tt;
  uev_instance : validate_unit_instance_identity (ue_instance e) = Ok tt;
  uev_instance_unit : ui_unit (ue_instance e) = ue_unit e;
  uev_masks : UnitMask_intersects (ue_owned_fields e) (ue_relinquished_fields e) = false;
}.

Record journal_valid (j : Journal) : Prop := {
  jv_schema : j_schema_version j = JOURNAL_SCHEMA_VERSION;
  jv_boot : j_boot_id j <> "";
  jv_fingerprint : j_device_fingerprint j <> "";
  jv_entries : forall id e, j_entries j !! id = Some e -> frequency_entry_valid id e;
  jv_scalars : forall id e, j_scalars j !! id = Some e -> scalar_entry_valid (j_entries j) id e;
  jv_claims : NoDup (journal_claims j);
  jv_tasks : forall key e, j_tasks j !! key = Some e ->
    key = task_journal_key (te_identity e) /\ task_entry_valid e;
  jv_units : forall key e, j_units j !! key = Some e -> unit_entry_valid key e;
}.

(** *** Steps of the validator *)

Lemma as_journal_error_Ok {A} (r : res A ActuatorError) x : as_journal_error r = Ok x <-> r = Ok x.
Proof. unfold as_journal_error. destruct r; simpl; split; congruence. Qed.

Lemma as_journal_error_inv {A} (r : res A ActuatorError) x : as_journal_error r = Ok x -> r = Ok x.
Proof. apply as_journal_error_Ok. Qed.

Lemma unit_Ok (r : res unit ActuatorError) u : r = Ok u <-> r = Ok tt.
Proof. by destruct u. Qed.

Lemma claim_journal_path_Ok kind target claimed path c' :
  claim_journal_path kind target claimed path = Ok c' <->
  components path ∉ dom claimed /\ c' = <[components path := [T kind; T target]]> claimed.
Proof.
  unfold claim_journal_path. rewrite not_elem_of_dom.
  destruct (claimed !! components path); naive_solver.
Qed.

Lemma check_legal_pairs_Ok t id unique ps k :
  res_foldM (check_legal_pair t id) unique ps = Ok k <->
  (forall p, p ∈ ps -> validate_limits t p = Ok tt) /\ (NoDup unique -> NoDup (unique ++ ps)) /\
  (forall p, p ∈ ps -> p ∉ unique) /\ NoDup ps /\ k = unique ++ ps.
Proof.
  revert unique. induction ps as [|p ps IH]; intros unique; simpl.
  - rewrite app_nil_r. split; [intros [= <-]; split_and!; [set_solver|done|set_solver|constructor|done]|].
    by intros (_ & _ & _ & _ & ->).
  - rewrite res_bind_Ok. unfold check_legal_pair at 1.
    assert (Hassoc : unique ++ p :: ps = (unique ++ [p]) ++ ps) by by rewrite <- (assoc_L (++)).
    split.
    + intros (u1 & (v & Hv%as_journal_error_inv & (b & Hb%reject_if_Ok & [= <-])%res_bind_Ok)%res_bind_Ok
        & (H1 & H2 & H3 & H4 & ->)%IH).
      apply bool_decide_eq_false in Hb. destruct v.
      split_and!.
      * intros q [->|Hq]%elem_of_cons; [exact Hv|by apply H1].
      * intros Hu. rewrite Hassoc. apply H2, NoDup_app.
        split_and!; [done|set_solver|apply NoDup_singleton].
      * intros q [->|Hq]%elem_of_cons; [done|]. specialize (H3 q Hq). set_solver.
      * constructor; [|done]. intros Hp. specialize (H3 p Hp). set_solver.
      * by rewrite Hassoc.
    + intros (H1 & H2 & H3 & [H4 H5]%NoDup_cons & ->). exists (unique ++ [p]). split.
      * rewrite (proj2 (as_journal_error_Ok _ tt)) by (apply H1; set_solver). simpl.
        by rewrite bool_decide_eq_false_2 by (apply H3; set_solver).
      * apply IH. split_and!.
        -- intros q Hq. apply H1. set_solver.
        -- intros Hu. rewrite <- Hassoc. apply H2. by apply NoDup_app in Hu as [? _].
        -- intros q Hq. specialize (H3 q). set_solver.
        -- done.
        -- by rewrite Hassoc.
Qed.

(** The claims of one entry are new and distinct. *)
Definition fresh_claims (claimed : owners) (ks : list path_key) : Prop :=
  NoDup ks /\ forall k, k ∈ ks -> k ∉ dom claimed.

Lemma claim_two_Ok kind target claimed p q c' :
  res_foldM (claim_journal_path kind target) claimed [p; q] = Ok c' <->
  fresh_claims claimed [components p; components q] /\
  c' = <[components q := [T kind; T target]]> (<[components p := [T kind; T target]]> claimed).
Proof.
  unfold fresh_claims. cbn [res_foldM]. rewrite res_bind_Ok. split.
  - intros (c1 & [H1 ->]%claim_journal_path_Ok & (c2 & [H2 ->]%claim_journal_path_Ok & [= <-])%res_bind_Ok).
    rewrite dom_insert in H2. split; [|done]. split; [|set_solver].
    apply NoDup_cons. split; [set_solver|apply NoDup_singleton].
  - intros ([[Hnd _]%NoDup_cons Hf] & ->). eexists. split.
    + apply claim_journal_path_Ok. split; [apply Hf; set_solver|done].
    + apply res_bind_Ok. eexists. split; [|done]. apply claim_journal_path_Ok.
      split; [|done]. rewrite dom_insert. specialize (Hf (components q)). set_solver.
Qed.

Lemma expected_pairs_legal t e :
  validate_limits t (je_applied e) = Ok tt -> validate_limits t (je_desired e) = Ok tt ->
  je_legal_pairs e = transaction_legal_pairs (je_applied e) (je_desired e) ->
  je_legal_pairs e <> [] /\ exists k, res_foldM (check_legal_pair t (je_target e)) [] (je_legal_pairs e) = Ok k.
Proof.
  intros Ha Hd ->. split.
  - destruct (ordered_write_states_ends (je_applied e) (je_desired e)) as [Hin _].
    assert (je_applied e ∈ transaction_legal_pairs (je_applied e) (je_desired e)) as Hin'
      by (apply foldl_push_unique; by left).
    intros Hn. rewrite Hn in Hin'. set_solver.
  - eexists. apply check_legal_pairs_Ok. split_and!; [|intros _| | |done].
    + intros p Hp. eapply legal_pairs_valid; [..|exact Hp]; done.
    + apply legal_pairs_NoDup.
    + set_solver.
    + apply legal_pairs_NoDup.
Qed.

Lemma check_valid_limits_three id a b c :
  is_valid a = true -> is_valid b = true -> is_valid c = true ->
  res_mapM (check_valid_limits id) [("original", a); ("desired", b); ("applied", c)]
  = Ok [tt; tt; tt].
Proof. intros H1 H2 H3. simpl. unfold check_valid_limits. simpl. by rewrite H1, H2, H3. Qed.

Lemma validate_limits_is_valid t l : validate_limits t l = Ok tt -> is_valid l = true.
Proof. intros (_ & _ & H & _)%validate_limits_Ok. by apply Z.leb_le. Qed.

Lemma bind_intro {A B E} (r : res A E) (k : A -> res B E) a :
  r = Ok a -> (exists b, k a = Ok b) -> exists b, res_bind r k = Ok b.
Proof. by intros ->. Qed.

Lemma reject_negb_eqb {E} x y (e : E) u : reject_if (negb (x =? y)) e = Ok u <-> x = y.
Proof. rewrite reject_if_Ok, negb_false_iff. apply Z.eqb_eq. Qed.

Lemma reject_negb_decide {E} (P : Prop) `{Decision P} (e : E) u :
  reject_if (negb (bool_decide P)) e = Ok u <-> P.
Proof. rewrite reject_if_Ok, negb_false_iff. apply bool_decide_eq_true. Qed.

Lemma three_limits t a b c ys :
  res_mapM (fun l => as_journal_error (validate_limits t l)) [a; b; c] = Ok ys ->
  validate_limits t a = Ok tt /\ validate_limits t b = Ok tt /\ validate_limits t c = Ok tt.
Proof.
  intros H%res_mapM_Ok. repeat (apply Forall2_cons_inv_l in H as (? & ? & ?%as_journal_error_inv & H & _)).
  rewrite !unit_Ok in *. eauto.
Qed.

Definition claims_of_entry (kv : string * JournalEntry) : list path_key :=
  pair_claims (kv.1, entry_shape kv.2).

(** What the validator accepts of one frequency entry. *)
Lemma validate_frequency_entry_sound claimed kv c' :
  validate_frequency_entry claimed kv = Ok c' ->
  frequency_entry_valid kv.1 kv.2 /\ fresh_claims claimed (claims_of_entry kv) /\
  dom c' = dom claimed ∪ list_to_set (claims_of_entry kv).
Proof.
  destruct kv as [key e]. unfold validate_frequency_entry.
  intros ([] & Hk%reject_negb_decide & ([] & Hmin%as_journal_error_inv &
    ([] & Hmax%as_journal_error_inv & (c1 & [Hf ->]%claim_two_Ok & H)%res_bind_Ok)%res_bind_Ok)
      %res_bind_Ok)%res_bind_Ok.
  apply res_bind_Ok in H as (_ & _ & (m & Hm & H)%res_bind_Ok).
  apply res_bind_Ok in H as ([] & Hid%reject_if_Ok & (t & Ht%as_journal_error_inv & H)%res_bind_Ok).
  apply res_bind_Ok in H as (ys & (H1 & H2 & H3)%three_limits &
    (u & Horig%reject_negb_decide & H)%res_bind_Ok).
  apply res_bind_Ok in H as (_ & _ & (k & _ & (v & Hp%reject_negb_decide & [= <-])%res_bind_Ok)
    %res_bind_Ok).
  rewrite !orb_false_iff, !negb_false_iff, bool_decide_eq_true in Hid.
  destruct Hid as [[Hid Hpm] Hpx]. rewrite expected_pairs_alt in Hp.
  split_and!.
  - constructor; try done. exists t. split_and!; try done.
    destruct (je_resource_manifest e) as [m'|] eqn:Em; [|done]. injection Hm as ->. by exists m.
  - exact Hf.
  - rewrite !dom_insert_L. unfold claims_of_entry, pair_claims, entry_shape. simpl. set_solver.
Qed.

Lemma validate_frequency_entry_complete claimed kv :
  frequency_entry_valid kv.1 kv.2 -> fresh_claims claimed (claims_of_entry kv) ->
  exists c', validate_frequency_entry claimed kv = Ok c'.
Proof.
  destruct kv as [key e]. simpl.
  intros [Hk Hmin Hmax (t & (m & Hm & Hid & Hpm & Hpx & Ht) & H1 & H2 & H3 & Horig) Hp] Hf.
  unfold validate_frequency_entry.
  eapply (bind_intro _ _ tt); [by apply reject_negb_decide|].
  eapply bind_intro; [by rewrite Hmin|]. eapply bind_intro; [by rewrite Hmax|].
  eapply bind_intro; [by apply claim_two_Ok|].
  eapply bind_intro; [by apply check_valid_limits_three; eapply validate_limits_is_valid|].
  eapply bind_intro; [by rewrite Hm|].
  eapply (bind_intro _ _ tt); [by apply reject_if_Ok; rewrite Hpm, Hpx, bool_decide_eq_true_2|].
  eapply bind_intro; [by rewrite Ht|].
  eapply bind_intro; [cbn [res_mapM]; by rewrite H1, H2, H3|].
  eapply (bind_intro _ _ tt); [by apply reject_negb_decide|].
  destruct (expected_pairs_legal t e H3 H2 Hp) as (Hne & k & Hk').
  eapply (bind_intro _ _ tt); [by apply reject_if_Ok, bool_decide_eq_false|].
  eapply bind_intro; [exact Hk'|].
  eapply (bind_intro _ _ tt); [by apply reject_negb_decide; rewrite expected_pairs_alt|]. eauto.
Qed.

Definition claims_of_scalar (kv : string * ScalarJournalEntry) : list path_key :=
  scalar_claims (kv.1, scalar_shape kv.2).

Lemma validate_scalar_entry_sound es claimed kv c' :
  validate_scalar_entry es claimed kv = Ok c' ->
  scalar_entry_valid es kv.1 kv.2 /\ fresh_claims claimed (claims_of_scalar kv) /\
  dom c' = dom claimed ∪ list_to_set (claims_of_scalar kv).
Proof.
  destruct kv as [key e]. unfold validate_scalar_entry.
  intros ([] & Hk%reject_if_Ok & ([] & Hpath%as_journal_error_inv &
    (c1 & [Hf ->]%claim_journal_path_Ok & (m & Hm & H)%res_bind_Ok)%res_bind_Ok)
      %res_bind_Ok)%res_bind_Ok.
  apply res_bind_Ok in H as ([] & Hid%reject_if_Ok & (t & Ht%as_journal_error_inv & H)%res_bind_Ok).
  apply res_bind_Ok in H as (ys & Hv%res_mapM_Ok & [= <-]).
  repeat (apply Forall2_cons_inv_l in Hv as (? & ? & ?%as_journal_error_inv & Hv & _)).
  rewrite !unit_Ok in *.
  rewrite orb_false_iff, negb_false_iff, bool_decide_eq_true, bool_decide_eq_false in Hk.
  rewrite orb_false_iff, !negb_false_iff, bool_decide_eq_true in Hid.
  destruct Hk as [Hk Hn]. destruct Hid as [Hid Hp].
  split_and!.
  - constructor; try done; [by apply eq_None_not_Some|]. exists t. split_and!; try done.
    destruct (se_manifest e) as [|m'] eqn:Em; [done|]. injection Hm as ->. by exists m.
  - split; [apply NoDup_singleton|]. unfold claims_of_scalar, scalar_claims, scalar_shape.
    set_solver.
  - rewrite dom_insert_L. unfold claims_of_scalar, scalar_claims, scalar_shape. simpl. set_solver.
Qed.

Lemma validate_scalar_entry_complete es claimed kv :
  scalar_entry_valid es kv.1 kv.2 -> fresh_claims claimed (claims_of_scalar kv) ->
  exists c', validate_scalar_entry es claimed kv = Ok c'.
Proof.
  destruct kv as [key e]. simpl.
  intros [Hk Hn Hpath (t & (m & Hm & Hid & Hp & Ht) & H1 & H2 & H3)] [_ Hf].
  unfold validate_scalar_entry.
  eapply (bind_intro _ _ tt).
  { apply reject_if_Ok. rewrite bool_decide_eq_true_2 by done.
    by rewrite bool_decide_eq_false_2 by (by apply eq_None_not_Some). }
  eapply bind_intro; [by rewrite Hpath|].
  eapply bind_intro.
  { apply claim_journal_path_Ok. split; [|done]. apply Hf.
    unfold claims_of_scalar, scalar_claims, scalar_shape. set_solver. }
  eapply bind_intro; [by rewrite Hm|].
  eapply (bind_intro _ _ tt); [by apply reject_if_Ok; rewrite Hp, bool_decide_eq_true_2|].
  eapply bind_intro; [by rewrite Ht|].
  eapply bind_intro; [cbn [res_mapM]; by rewrite H1, H2, H3|]. eauto.
Qed.

(** *** Loops that claim paths *)

Lemma fresh_claims_app claimed c1 ks ls :
  dom c1 = dom claimed ∪ list_to_set ks ->
  fresh_claims claimed (ks ++ ls) <-> fresh_claims claimed ks /\ fresh_claims c1 ls.
Proof.
  intros Hd. unfold fresh_claims. rewrite NoDup_app, Hd. split.
  - intros [(H1 & H2 & H3) H4]. split_and!; [done|set_solver|done|].
    intros k Hk. specialize (H4 k). set_solver.
  - intros [[H1 H2] [H3 H4]]. split_and!; [done| |done|].
    + intros k Hk Hl. specialize (H4 k Hl). set_solver.
    + intros k [Hk|Hk]%elem_of_app; [by apply H2|]. specialize (H4 k Hk). set_solver.
Qed.

Section claiming.
Context {A : Type} (f : owners -> A -> res owners ActuatorError).
Context (claims_of : A -> list path_key) (valid : A -> Prop).
Hypothesis sound : forall claimed x c', f claimed x = Ok c' ->
  valid x /\ fresh_claims claimed (claims_of x) /\
  dom c' = dom claimed ∪ list_to_set (claims_of x).
Hypothesis complete : forall claimed x, valid x -> fresh_claims claimed (claims_of x) ->
  exists c', f claimed x = Ok c'.

Lemma fold_claims_sound l claimed c' :
  res_foldM f claimed l = Ok c' ->
  Forall valid l /\ fresh_claims claimed (l ≫= claims_of) /\
  dom c' = dom claimed ∪ list_to_set (l ≫= claims_of).
Proof using sound.
  clear complete. revert claimed. induction l as [|x l IH]; intros claimed.
  - intros [= <-]. split_and!; [constructor|split; [constructor|set_solver]|set_solver].
  - cbn [res_foldM]. intros (c1 & (H1 & H2 & H3)%sound & (H4 & H5 & H6)%IH)%res_bind_Ok.
    rewrite bind_cons. split_and!; [by constructor|by eapply fresh_claims_app|].
    rewrite H6, H3, list_to_set_app_L. set_solver.
Qed.

Lemma fold_claims_complete l claimed :
  Forall valid l -> fresh_claims claimed (l ≫= claims_of) ->
  exists c', res_foldM f claimed l = Ok c'.
Proof using sound complete.
  intros Hl. revert claimed. induction Hl as [|x l Hx Hl IH]; intros claimed Hf; [by eexists|].
  rewrite bind_cons in Hf.
  assert (Hx' : fresh_claims claimed (claims_of x)).
  { destruct Hf as [Hnd Hd]. apply NoDup_app in Hnd as [Hnd _]. split; [done|]. set_solver. }
  destruct (complete claimed x Hx Hx') as [c1 H1]. cbn [res_foldM]. rewrite H1. cbn [res_bind].
  apply IH. apply sound in H1 as (_ & _ & Hd). by apply (fresh_claims_app claimed c1 _ _ Hd).
Qed.
End claiming.

(** *** The claims of the entries in iteration order *)

Lemma entries_claims j :
  journal_claims j ≡ₚ
  (entries (j_entries j) ≫= claims_of_entry) ++ (entries (j_scalars j) ≫= claims_of_scalar).
Proof.
  unfold journal_claims, shape_claims. f_equiv.
  - rewrite map_to_list_fmap, entries_perm.
    induction (map_to_list (j_entries j)) as [|[k e] l IH]; [done|].
    rewrite fmap_cons, !bind_cons, IH. done.
  - rewrite map_to_list_fmap, entries_perm.
    induction (map_to_list (j_scalars j)) as [|[k e] l IH]; [done|].
    rewrite fmap_cons, !bind_cons, IH. done.
Qed.

Lemma Forall_entries {V} (m : gmap string V) (P : string * V -> Prop) :
  Forall P (entries m) <-> forall k v, m !! k = Some v -> P (k, v).
Proof.
  rewrite Forall_forall. split.
  - intros H k v Hk. by apply H, elem_of_entries.
  - intros H [k v] Hk. by apply H, elem_of_entries.
Qed.

Lemma Forall_values {V} (m : gmap string V) (P : V -> Prop) :
  Forall P (values m) <-> forall k v, m !! k = Some v -> P v.
Proof.
  rewrite Forall_forall. split.
  - intros H k v Hk. apply H, elem_of_values. eauto.
  - intros H v [k Hk]%elem_of_values. eauto.
Qed.

(** *** Tasks and units *)

Lemma map_err_inv {A E F} (f : E -> F) (r : res A E) a : map_err f r = Ok a -> r = Ok a.
Proof. by destruct r; simpl; [intros [= ->]|..]. Qed.

Lemma validate_scheduling_Ok s u :
  validate_journal_scheduling_state s = Ok u <-> scheduling_valid s.
Proof.
  unfold validate_journal_scheduling_state, scheduling_valid. destruct u.
  destruct (st_policy s), (st_rt_priority s); try naive_solver.
  rewrite reject_if_Ok, negb_false_iff. lia.
Qed.

Lemma res_mapM_unit {A} (f : A -> result unit) l :
  (exists us, res_mapM f l = Ok us) <-> Forall (fun x => f x = Ok tt) l.
Proof.
  split.
  - intros [us H%res_mapM_Ok]. induction H as [|x [] l us Hx _ IH]; by constructor.
  - intros H. induction H as [|x l Hx _ IH]; [by eexists|]. destruct IH as [us IH]. simpl.
    rewrite Hx, IH. simpl. eauto.
Qed.

Lemma validate_task_entry_Ok e : validate_task_entry e = Ok tt <-> task_entry_valid e.
Proof.
  unfold validate_task_entry. rewrite res_bind_Ok. split.
  - intros (us & H & Hm%reject_if_Ok). apply res_mapM_Ok in H.
    repeat (apply Forall2_cons_inv_l in H as (? & ? & ?%map_err_inv%validate_scheduling_Ok & H & _)).
    by constructor.
  - intros [H1 H2 H3 H4]. apply (validate_scheduling_Ok _ tt) in H1, H2, H3.
    exists [tt; tt; tt]. cbn [res_mapM snd]. rewrite H1, H2, H3. simpl. by rewrite H4.
Qed.

Lemma validate_unit_entry_Ok key e : validate_unit_entry (key, e) = Ok tt <-> unit_entry_valid key e.
Proof.
  unfold validate_unit_entry. split.
  - intros ([] & Hk%reject_negb_decide & ([] & Hn%as_journal_error_inv &
      ([] & Hi & ([] & Hu%reject_negb_decide & Hm%reject_if_Ok)%res_bind_Ok)%res_bind_Ok)
        %res_bind_Ok)%res_bind_Ok.
    by constructor.
  - intros [Hk Hn Hi Hu Hm]. rewrite bool_decide_eq_true_2 by done. simpl.
    rewrite Hn. simpl. rewrite Hi. simpl. rewrite bool_decide_eq_true_2 by done. simpl. by rewrite Hm.
Qed.

(** ** The validator implements the specification *)

Lemma validate_decoded_journal_spec j :
  validate_decoded_journal j = Ok tt <-> journal_valid j.
Proof.
  split.
  - unfold validate_decoded_journal.
    intros ([] & Hs%reject_negb_eqb & ([] & Hid%reject_if_Ok & (c1 & Hf & H)%res_bind_Ok)
      %res_bind_Ok)%res_bind_Ok.
    apply res_bind_Ok in H as (c2 & Hsc & ([] & Hk%reject_if_Ok & (us & Ht & (vs & Hu & _)%res_bind_Ok)
      %res_bind_Ok)%res_bind_Ok).
    rewrite orb_false_iff, !bool_decide_eq_false in Hid. destruct Hid as [Hb Hfp].
    apply (fold_claims_sound _ claims_of_entry (fun kv => frequency_entry_valid kv.1 kv.2)
             validate_frequency_entry_sound) in Hf as (F1 & F2 & F3).
    apply (fold_claims_sound _ claims_of_scalar (fun kv => scalar_entry_valid (j_entries j) kv.1 kv.2)
             (validate_scalar_entry_sound (j_entries j))) in Hsc as (S1 & S2 & S3).
    rewrite Forall_entries in F1. rewrite Forall_entries in S1.
    constructor; try done.
    + rewrite entries_claims.
      apply (fresh_claims_app ∅ c1 _ (entries (j_scalars j) ≫= claims_of_scalar) F3). done.
    + intros key e He. split.
      * apply not_true_iff_false in Hk. rewrite existsb_exists in Hk.
        destruct (decide (key = task_journal_key (te_identity e))) as [|Hne]; [done|].
        destruct Hk. exists (key, e). split; [by apply list_elem_of_In, elem_of_entries|].
        simpl. by rewrite bool_decide_eq_false_2.
      * assert (Hex : exists us, res_mapM validate_task_entry (values (j_tasks j)) = Ok us) by eauto.
        rewrite res_mapM_unit, Forall_values in Hex. eapply validate_task_entry_Ok, Hex, He.
    + intros key e He.
      assert (Hex : exists us, res_mapM validate_unit_entry (entries (j_units j)) = Ok us) by eauto.
      rewrite res_mapM_unit, Forall_entries in Hex. by apply validate_unit_entry_Ok, Hex.
  - intros [Hs Hb Hfp F S Hnd Ht Hu]. unfold validate_decoded_journal.
    rewrite Hs. simpl. rewrite !bool_decide_eq_false_2 by done. simpl.
    rewrite entries_claims in Hnd.
    assert (Hfresh : fresh_claims ∅ ((entries (j_entries j) ≫= claims_of_entry)
                                     ++ (entries (j_scalars j) ≫= claims_of_scalar))).
    { split; [done|]. intros k _. rewrite dom_empty. set_solver. }
    destruct (fold_claims_complete _ claims_of_entry (fun kv => frequency_entry_valid kv.1 kv.2)
      validate_frequency_entry_sound validate_frequency_entry_complete (entries (j_entries j)) ∅)
      as [c1 H1].
    { rewrite Forall_entries. by intros k v Hk; apply F. }
    { destruct Hfresh as [Hn _]. apply NoDup_app in Hn as [Hn _]. split; [done|].
      intros k _. rewrite dom_empty. set_solver. }
    rewrite H1. simpl.
    pose proof (fold_claims_sound _ claims_of_entry (fun kv => frequency_entry_valid kv.1 kv.2)
             validate_frequency_entry_sound _ _ _ H1) as (_ & _ & Hdom).
    destruct (fold_claims_complete _ claims_of_scalar
      (fun kv => scalar_entry_valid (j_entries j) kv.1 kv.2)
      (validate_scalar_entry_sound (j_entries j)) (validate_scalar_entry_complete (j_entries j))
      (entries (j_scalars j)) c1) as [c2 H2].
    { rewrite Forall_entries. by intros k v Hk; apply S. }
    { by apply (fresh_claims_app ∅ c1 _ _ Hdom). }
    rewrite H2. simpl.
    rewrite (reject_if_intro (existsb _ _)).
    2: { apply not_true_iff_false. rewrite existsb_exists.
         intros ([k e] & Hin%list_elem_of_In%elem_of_entries & Hk). simpl in Hk.
         rewrite bool_decide_eq_true_2 in Hk by (by apply Ht). done. }
    simpl.
    destruct (proj2 (res_mapM_unit validate_task_entry (values (j_tasks j)))) as [us ->].
    { rewrite Forall_values. intros k v Hk. by apply validate_task_entry_Ok, (Ht k v Hk). }
    simpl.
    destruct (proj2 (res_mapM_unit validate_unit_entry (entries (j_units j)))) as [vs ->].
    { rewrite Forall_entries. intros k v Hk. by apply validate_unit_entry_Ok, Hu. }
    done.
Qed.
