(* ===== verification/Ports.v ===== *)
(** * The actuator's ports and its monad
    ([uperf-platform/src/lib.rs], [uperf-actuator/src/lib.rs])

    The actuator sees the machine only through the traits of
    [uperf-platform]: sysfs text attributes, the durable state store, procfs,
    process scheduling, systemd and the clock. They are the methods of a class
    over an arbitrary world, so that every theorem holds for every behaviour of
    the kernel, the disk and other processes. A mutation runs in a monad that
    keeps the actuator's runtime state across errors, as [&mut] does, and
    records the port calls it made. *)

From S2P Require Import Prelude Domain Text Strings ActuatorTypes Scalars Targets Journal.

(** ** Ports *)

Notation platform_result A := (sum PlatformError A) (only parsing).

Class Ports (W : Type) := {
  (** [SysfsIo] *)
  read_string : string -> W -> platform_result string * W;
  write_string : string -> string -> W -> platform_result unit * W;
  (** [StateStore] *)
  store_load : W -> platform_result (option (list Z)) * W;
  store_durable : list Z -> W -> platform_result unit * W;
  remove_durable : W -> platform_result unit * W;
  (** [ProcReader::process_identity] *)
  process_identity : Z -> W -> platform_result ProcessInfo * W;
  (** [ProcessController] *)
  read_scheduling : Z -> W -> platform_result ProcessSchedulingState * W;
  write_scheduling :
    Z -> ProcessSchedulingState -> W -> platform_result ProcessSchedulingState * W;
  (** [SystemdClient] *)
  client_unit_for_process : Z -> W -> platform_result (option string) * W;
  client_unit_processes : string -> W -> platform_result (list Z) * W;
  unit_instance_identity : string -> W -> platform_result SystemdUnitInstanceIdentity * W;
  read_unit_properties : string -> W -> platform_result SystemdUnitProperties * W;
  write_unit_properties :
    string -> SystemdUnitProperties -> W -> platform_result SystemdUnitProperties * W;
  (** [Instant::now] in nanoseconds, and [thread::sleep] *)
  instant_now : W -> Z * W;
  thread_sleep : Z -> W -> W;
}.

(** A port call, with its outcome. *)
Inductive Event :=
| EvRead (path : string) (r : platform_result string)
| EvWrite (path value : string) (r : platform_result unit)
| EvStore (j : Journal) (r : platform_result unit)
| EvRemove (r : platform_result unit)
| EvIdentity (p : Z) (r : platform_result ProcessInfo)
| EvReadTask (p : Z) (r : platform_result ProcessSchedulingState)
| EvWriteTask (p : Z) (s : ProcessSchedulingState) (r : platform_result ProcessSchedulingState)
| EvUnitOf (p : Z) (r : platform_result (option string))
| EvUnitProcesses (u : string) (r : platform_result (list Z))
| EvUnitIdentity (u : string) (r : platform_result SystemdUnitInstanceIdentity)
| EvReadUnit (u : string) (r : platform_result SystemdUnitProperties)
| EvWriteUnit (u : string) (s : SystemdUnitProperties) (r : platform_result SystemdUnitProperties).

(** ** Runtime state *)

Inductive ActuatorMode :=
| ReadWrite
| ReadOnlyDegraded (reason : message).

Record RuntimeState := {
  rt_mode : ActuatorMode;
  rt_journal : Journal;
  rt_recovery_required : bool;
}.

(** The immutable part of [FrequencyActuator]; a backend is attached or not. *)
Record Actuator := {
  act_registry : TargetRegistry;
  act_boot_id : string;
  act_device_fingerprint : string;
  act_proc_reader : bool;
  act_process_controller : bool;
  act_systemd : bool;
}.

(** ** The monad *)

Record St (W : Type) := {
  st_rt : RuntimeState;
  st_world : W;
  st_log : list Event;
}.
Arguments st_rt {W}.
Arguments st_world {W}.
Arguments st_log {W}.

Definition M (W A : Type) : Type := St W -> res A ActuatorError * St W.

#[global] Instance M_ret W : MRet (M W) := fun A a s => (Ok a, s).
#[global] Instance M_bind W : MBind (M W) := fun A B k m s =>
  match m s with
  | (Ok a, s) => k a s
  | (Err e, s) => (Err e, s)
  | (Panic, s) => (Panic, s)
  end.

Section primitives.
Context {W : Type} `{!Ports W} `{JournalCodec}.

Definition fail {A} (e : ActuatorError) : M W A := fun s => (Err e, s).
Definition panic {A} : M W A := fun s => (Panic, s).

(** [match operation { Ok(..) => .., Err(..) => .. }] *)
Definition attempt {A} (m : M W A) : M W (res A ActuatorError) := fun s =>
  match m s with
  | (Ok a, s) => (Ok (Ok a), s)
  | (Err e, s) => (Ok (Err e), s)
  | (Panic, s) => (Panic, s)
  end.

(** A pure fallible computation. *)
Definition lift {A} (r : res A ActuatorError) : M W A := fun s => (r, s).

Definition get_rt : M W RuntimeState := fun s => (Ok (st_rt s), s).
Definition put_rt (rt : RuntimeState) : M W unit := fun s =>
  (Ok tt, {| st_rt := rt; st_world := st_world s; st_log := st_log s |}).

Definition with_journal (rt : RuntimeState) (j : Journal) : RuntimeState :=
  {| rt_mode := rt_mode rt; rt_journal := j; rt_recovery_required := rt_recovery_required rt |}.
Definition with_mode (rt : RuntimeState) (m : ActuatorMode) : RuntimeState :=
  {| rt_mode := m; rt_journal := rt_journal rt; rt_recovery_required := rt_recovery_required rt |}.
Definition with_recovery_required (rt : RuntimeState) (b : bool) : RuntimeState :=
  {| rt_mode := rt_mode rt; rt_journal := rt_journal rt; rt_recovery_required := b |}.

Definition get_journal : M W Journal := rt ← get_rt; mret (rt_journal rt).
Definition put_journal (j : Journal) : M W unit := rt ← get_rt; put_rt (with_journal rt j).

(** A port call: it changes the world and is logged. *)
Definition call {A} (op : W -> platform_result A * W) (ev : platform_result A -> Event) : M W A :=
  fun s =>
    let '(r, w) := op (st_world s) in
    (match r with inl e => Err (Platform e) | inr a => Ok a end,
     {| st_rt := st_rt s; st_world := w; st_log := st_log s ++ [ev r] |}).

Definition io_read (path : string) : M W string := call (read_string path) (EvRead path).
Definition io_write (path value : string) : M W unit :=
  call (write_string path value) (EvWrite path value).

(** [persist_journal], [persist_or_remove_journal] *)
Definition persist_journal (j : Journal) : M W unit :=
  bytes ← lift (encode_journal j);
  call (store_durable bytes) (EvStore j).

Definition persist_or_remove_journal (j : Journal) : M W unit :=
  if journal_is_empty j then call remove_durable EvRemove else persist_journal j.

Definition now : M W Z := fun s =>
  let '(t, w) := instant_now (st_world s) in
  (Ok t, {| st_rt := st_rt s; st_world := w; st_log := st_log s |}).
Definition sleep (d : Z) : M W unit := fun s =>
  (Ok tt, {| st_rt := st_rt s; st_world := thread_sleep d (st_world s); st_log := st_log s |}).

(** [degrade_locked] *)
Definition degrade {A} (reason : message) : M W A :=
  rt ← get_rt;
  put_rt (with_mode rt (ReadOnlyDegraded reason));;
  fail (DegradedError reason).

(** [persist_or_remove_locked] *)
Definition persist_or_remove_locked (operation : string) : M W unit :=
  j ← get_journal;
  r ← attempt (persist_or_remove_journal j);
  match r with
  | Err error => degrade [T "cannot persist "; T operation; T ": "; Cause error]
  | _ => mret tt
  end.

(** [ensure_read_write], [ensure_mutation_ready] *)
Definition ensure_read_write : M W unit :=
  rt ← get_rt;
  match rt_mode rt with
  | ReadWrite => mret tt
  | ReadOnlyDegraded reason => fail (DegradedError reason)
  end.

Definition ensure_mutation_ready : M W unit :=
  ensure_read_write;;
  rt ← get_rt;
  if rt_recovery_required rt then fail RecoveryRequired else mret tt.

(** Loops: [for x in l { .. ? }]. *)
Fixpoint for_fold {A S} (f : S -> A -> M W S) (s : S) (l : list A) : M W S :=
  match l with
  | [] => mret s
  | x :: l => s' ← f s x; for_fold f s' l
  end.

Definition for_unit {A} (f : A -> M W unit) (l : list A) : M W unit :=
  for_fold (fun _ x => f x) tt l.
End primitives.
