(* ===== verification/FrequencyOps.v ===== *)
(** * Frequency transactions ([uperf-actuator/src/lib.rs])

    Reading, writing and settling a frequency pair, and the three transactions
    on it: [apply_batch], [apply_owned_batch_fast] and [restore_targets]. *)

From S2P Require Import Prelude Domain Text Strings ActuatorTypes Scalars Targets Journal Ports.

(** ** Attributes *)

Definition parse_hertz (path value : string) (hertz_per_unit : Z) : result Hertz :=
  ok_or (raw ← parse_u64 (trim_str value); checked_mul raw hertz_per_unit)
    (InvalidReadback path [T value]).

Definition encode_frequency (t : FrequencyTarget) (f : Hertz) : result string :=
  if ft_hertz_per_unit t =? 0
  then Err (InvalidTarget [T (ft_id t); T " has an invalid kernel unit"])
  else Ok (to_string (f / ft_hertz_per_unit t)).

Definition FREQUENCY_SETTLE_TIMEOUT : Z := 50 * 1000000.
Definition FREQUENCY_SETTLE_POLL_INTERVAL : Z := 2 * 1000000.

(** Polls of one settling loop: the timeout over the interval, and the first. *)
Definition settle_fuel : nat := 26.

Section io.
Context {W : Type} `{!Ports W}.

Definition read_limits (t : FrequencyTarget) : M W FrequencyLimits :=
  raw_min ← io_read (ft_min_path t);
  minimum ← lift (parse_hertz (ft_min_path t) raw_min (ft_hertz_per_unit t));
  raw_max ← io_read (ft_max_path t);
  maximum ← lift (parse_hertz (ft_max_path t) raw_max (ft_hertz_per_unit t));
  lift (map_err (fun _ => InvalidReadback (ft_min_path t) [Num minimum; T ".."; Num maximum])
          (FrequencyLimits_new minimum maximum)).

Definition write_if (b : bool) (path value : string) : M W unit :=
  if b then io_write path value else mret tt.

Definition write_ordered (t : FrequencyTarget) (current desired : FrequencyLimits) : M W unit :=
  minimum ← lift (encode_frequency t (lim_min desired));
  maximum ← lift (encode_frequency t (lim_max desired));
  let write_min := write_if (negb (lim_min desired =? lim_min current)) (ft_min_path t) minimum in
  let write_max := write_if (negb (lim_max desired =? lim_max current)) (ft_max_path t) maximum in
  if lim_max desired <? lim_min current
  then write_min;; write_max
  else write_max;; write_min.

Definition reset_frequency_request (t : FrequencyTarget) (desired : FrequencyLimits) : M W unit :=
  hardware_minimum ← lift (encode_frequency t (ft_hardware_min t));
  hardware_maximum ← lift (encode_frequency t (ft_hardware_max t));
  io_write (ft_min_path t) hardware_minimum;;
  io_write (ft_max_path t) hardware_maximum;;
  (if lim_max desired =? ft_hardware_max t then mret tt
   else v ← lift (encode_frequency t (lim_max desired)); io_write (ft_max_path t) v);;
  (if lim_min desired =? ft_hardware_min t then mret tt
   else v ← lift (encode_frequency t (lim_min desired)); io_write (ft_min_path t) v).

(** One observation of the settling loop: settled, retry, or an error. *)
Definition observe (t : FrequencyTarget) (requested : FrequencyLimits)
  : M W (FrequencyLimits + message) :=
  r ← attempt (read_limits t);
  match r with
  | Ok actual =>
      if decide (actual = requested) then mret (inl actual)
      else mret (inr [Num (lim_min actual); T ".."; Num (lim_max actual)])
  | Err (InvalidReadback p v) => mret (inr [Cause (InvalidReadback p v)])
  | Err e => fail e
  | Panic => panic
  end.

Fixpoint settle_loop (fuel : nat) (deadline : Z) (t : FrequencyTarget)
    (requested : FrequencyLimits) : M W FrequencyLimits :=
  match fuel with
  | O => panic
  | S fuel =>
      o ← observe t requested;
      match o with
      | inl actual => mret actual
      | inr observation =>
          n ← now;
          if deadline <=? n
          then
            fail (Transaction [T (ft_id t)]
              ([T "readback did not settle at "; Num (lim_min requested); T "..";
                Num (lim_max requested); T " within 50 ms; last observation: "] ++ observation))
          else
            sleep (Z.min FREQUENCY_SETTLE_POLL_INTERVAL (deadline - n));;
            settle_loop fuel deadline t requested
      end
  end.

Definition wait_for_limits (t : FrequencyTarget) (requested : FrequencyLimits)
  : M W FrequencyLimits :=
  start ← now;
  settle_loop settle_fuel (start + FREQUENCY_SETTLE_TIMEOUT) t requested.

Definition apply_requested_limits (t : FrequencyTarget) (current_request desired_request : FrequencyLimits)
  : M W FrequencyLimits :=
  lift (validate_limits t current_request);;
  lift (validate_limits t desired_request);;
  write_ordered t current_request desired_request;;
  wait_for_limits t desired_request.

Definition restore_frequency_request (t : FrequencyTarget) (desired_request : FrequencyLimits)
  : M W FrequencyLimits :=
  lift (validate_limits t desired_request);;
  reset_frequency_request t desired_request;;
  wait_for_limits t desired_request.
End io.

(** ** Prepared mutations *)

Record FrequencyRequest := { fr_target : string; fr_limits : FrequencyLimits }.

Record PreparedFrequencyMutation := {
  pf_target : FrequencyTarget;
  pf_before_effective : FrequencyLimits;
  pf_previous_request : FrequencyLimits;
  pf_desired_request : FrequencyLimits;
  pf_needs_write : bool;
}.

Notation BatchOutcome := (gmap string FrequencyLimits).

Definition with_entries (j : Journal) (es : gmap string JournalEntry) : Journal :=
  {| j_schema_version := j_schema_version j; j_boot_id := j_boot_id j;
     j_device_fingerprint := j_device_fingerprint j; j_generation := j_generation j;
     j_entries := es; j_scalars := j_scalars j; j_tasks := j_tasks j; j_units := j_units j |}.

Definition with_generation (j : Journal) (g : Z) : Journal :=
  {| j_schema_version := j_schema_version j; j_boot_id := j_boot_id j;
     j_device_fingerprint := j_device_fingerprint j; j_generation := g;
     j_entries := j_entries j; j_scalars := j_scalars j; j_tasks := j_tasks j;
     j_units := j_units j |}.

(** [generation.saturating_add(1)] *)
Definition next_generation (j : Journal) : Journal :=
  with_generation j (sat_add (j_generation j) 1).

Definition set_transition (e : JournalEntry) (applied desired : FrequencyLimits)
    (pairs : list FrequencyLimits) : JournalEntry :=
  {| je_target := je_target e; je_min_path := je_min_path e; je_max_path := je_max_path e;
     je_resource_manifest := je_resource_manifest e; je_original := je_original e;
     je_desired := desired; je_applied := applied; je_legal_pairs := pairs |}.

(** A fresh claim of an unowned target. *)
Definition new_entry (m : PreparedFrequencyMutation) : JournalEntry :=
  let t := pf_target m in
  {| je_target := ft_id t; je_min_path := ft_min_path t; je_max_path := ft_max_path t;
     je_resource_manifest := FrequencyPair (frequency_manifest t);
     je_original := hardware_limits t; je_desired := pf_previous_request m;
     je_applied := pf_previous_request m; je_legal_pairs := [pf_previous_request m] |}.

Definition before_effective_outcome (prepared : list PreparedFrequencyMutation) : BatchOutcome :=
  list_to_map (rev ((fun m => (ft_id (pf_target m), pf_before_effective m)) <$> prepared)).

(** The pre-mutation entries of [apply_batch]. *)
Definition claim_entry (es : gmap string JournalEntry) (m : PreparedFrequencyMutation)
  : gmap string JournalEntry :=
  let id := ft_id (pf_target m) in
  let e := default (new_entry m) (es !! id) in
  <[id := set_transition e (pf_previous_request m) (pf_desired_request m)
            (transaction_legal_pairs (pf_previous_request m) (pf_desired_request m))]> es.

Definition claim_entries (j : Journal) (prepared : list PreparedFrequencyMutation) : Journal :=
  let j := next_generation j in
  with_entries j (foldl claim_entry (j_entries j) (List.filter pf_needs_write prepared)).

Section transactions.
Context {W : Type} `{!Ports W} `{JournalCodec}.
Context (a : Actuator).

(** *** [apply_batch] *)

Definition prepare_request (acc : gset string * list PreparedFrequencyMutation)
    (request : FrequencyRequest) : M W (gset string * list PreparedFrequencyMutation) :=
  let '(seen, prepared) := acc in
  (if decide (fr_target request ∈ seen)
   then fail (DuplicateRequest [T (fr_target request)]) else mret tt);;
  t ← lift (ok_or (get (act_registry a) (fr_target request)) (UnknownTarget (fr_target request)));
  desired_request ← lift (snap_limits t (fr_limits request));
  before_effective ← read_limits t;
  j ← get_journal;
  let existing_entry := j_entries j !! ft_id t in
  let full_hardware_request := hardware_limits t in
  let previous_request := from_option je_desired full_hardware_request existing_entry in
  let unclaimed_noop :=
    bool_decide (existing_entry = None) && bool_decide (before_effective = desired_request) in
  (if bool_decide (existing_entry = None) && negb unclaimed_noop
      && bool_decide (before_effective <> full_hardware_request)
   then fail (Transaction [T (ft_id t)]
          [T "cannot safely claim an unowned target while its effective range is ";
           Num (lim_min before_effective); T ".."; Num (lim_max before_effective);
           T " instead of the hardware default "; Num (lim_min full_hardware_request); T "..";
           Num (lim_max full_hardware_request)])
   else mret tt);;
  let needs_write :=
    if bool_decide (existing_entry = None) then negb unclaimed_noop
    else bool_decide (previous_request <> desired_request) in
  mret ({[ fr_target request ]} ∪ seen,
        prepared ++ [{| pf_target := t; pf_before_effective := before_effective;
                        pf_previous_request := previous_request;
                        pf_desired_request := desired_request; pf_needs_write := needs_write |}]).

(** [if let Some(entry) = entries.get_mut(..)]: the settled pair. *)
Definition record_applied (id : string) (actual : FrequencyLimits) : M W unit :=
  j ← get_journal;
  match j_entries j !! id with
  | Some e => put_journal (with_entries j
                (<[id := set_transition e actual (je_desired e) [actual]]> (j_entries j)))
  | None => mret tt
  end.

(** The outcome of the write loop: what was applied, the indexes attempted,
    and the first failure. *)
Record WriteOutcome := {
  wo_applied : BatchOutcome;
  wo_attempted : list nat;
  wo_failure : option (string * ActuatorError);
}.

(** The write loop of a transaction, from each mutation's [from] state. *)
Fixpoint write_batch (from : PreparedFrequencyMutation -> FrequencyLimits)
    (record_ : string -> FrequencyLimits -> M W unit) (index : nat)
    (l : list PreparedFrequencyMutation) (applied : BatchOutcome) (attempted : list nat)
  : M W WriteOutcome :=
  match l with
  | [] => mret {| wo_applied := applied; wo_attempted := attempted; wo_failure := None |}
  | m :: l =>
      let id := ft_id (pf_target m) in
      if negb (pf_needs_write m)
      then write_batch from record_ (S index) l (<[id := pf_before_effective m]> applied) attempted
      else
        let attempted := attempted ++ [index] in
        r ← attempt (apply_requested_limits (pf_target m) (from m) (pf_desired_request m));
        match r with
        | Ok actual =>
            record_ id actual;;
            write_batch from record_ (S index) l (<[id := actual]> applied) attempted
        | Err error =>
            mret {| wo_applied := applied; wo_attempted := attempted;
                    wo_failure := Some (id, error) |}
        | Panic => panic
        end
  end.

(** One step of [rollback_frequency_requests]; failures accumulate. *)
Definition rollback_one (prepared : list PreparedFrequencyMutation) (failures : list message)
    (index : nat) : M W (list message) :=
  match prepared !! index with
  | None => panic
  | Some m =>
      r ← attempt (restore_frequency_request (pf_target m) (pf_previous_request m));
      match r with
      | Err error => mret (failures ++ [[T (ft_id (pf_target m)); T ": "; Cause error]])
      | _ => mret failures
      end
  end.

Definition rollback_result (failures : list message) : M W unit :=
  match failures with
  | [] => mret tt
  | _ => fail (Rollback (mjoin failures))
  end.

Definition rollback_frequency_requests (prepared : list PreparedFrequencyMutation)
    (attempted : list nat) : M W unit :=
  failures ← for_fold (rollback_one prepared) [] (rev attempted);
  rollback_result failures.

(** The failure arm of a durable transaction: roll the machine back, then the
    journal; a failed rollback or journal update degrades the actuator. *)
Definition abort_batch {A} (rollback : M W unit) (journal_before : Journal)
    (what operation failed_target : string) (error : ActuatorError) : M W A :=
  r ← attempt rollback;
  match r with
  | Err rb =>
      degrade [T what; T " failed for "; T failed_target; T ": "; Cause error;
               T "; rollback failed: "; Cause rb]
  | _ =>
      put_journal journal_before;;
      p ← attempt (persist_or_remove_locked operation);
      match p with
      | Err persist_error =>
          degrade [T what; T " failed for "; T failed_target; T ": "; Cause error;
                   T "; rollback succeeded but journal update failed: "; Cause persist_error]
      | _ => fail (Transaction [T failed_target] [Cause error])
      end
  end.

(** The journal could not be stored after the writes. *)
Definition abort_unrecorded {A} (rollback : M W unit) (journal_before : Journal)
    (what operation : string) (error : ActuatorError) : M W A :=
  r ← attempt rollback;
  match r with
  | Err rb => degrade [T what; T " failed: "; Cause error; T "; rollback failed: "; Cause rb]
  | _ =>
      put_journal journal_before;;
      p ← attempt (persist_or_remove_locked operation);
      match p with
      | Err persist_error =>
          degrade [T what; T " failed: "; Cause error;
                   T "; rollback succeeded but journal update failed: "; Cause persist_error]
      | _ => degrade [T what; T " failed; batch rolled back: "; Cause error]
      end
  end.

Definition apply_batch (requests : list FrequencyRequest) : M W BatchOutcome :=
  ensure_mutation_ready;;
  match requests with
  | [] => mret ∅
  | _ =>
      '(_, prepared) ← for_fold prepare_request (∅, []) requests;
      if forallb (fun m => negb (pf_needs_write m)) prepared
      then mret (before_effective_outcome prepared)
      else
        journal_before ← get_journal;
        put_journal (claim_entries journal_before prepared);;
        p ← attempt (j ← get_journal; persist_journal j);
        match p with
        | Err error =>
            put_journal journal_before;;
            degrade [T "cannot persist pre-mutation journal: "; Cause error]
        | _ =>
            o ← write_batch pf_previous_request record_applied 0 prepared ∅ [];
            let rollback := rollback_frequency_requests prepared (wo_attempted o) in
            match wo_failure o with
            | Some (failed_target, error) =>
                abort_batch rollback journal_before "transaction" "frequency rollback"
                  failed_target error
            | None =>
                q ← attempt (j ← get_journal; persist_journal j);
                match q with
                | Err error =>
                    abort_unrecorded rollback journal_before "post-mutation journal"
                      "post-mutation frequency rollback" error
                | _ => mret (wo_applied o)
                end
            end
        end
  end.

(** *** [apply_owned_batch_fast] *)

Definition prepare_owned (acc : gset string * list PreparedFrequencyMutation)
    (request : FrequencyRequest) : M W (gset string * list PreparedFrequencyMutation) :=
  let '(seen, prepared) := acc in
  (if decide (fr_target request ∈ seen)
   then fail (DuplicateRequest [T (fr_target request)]) else mret tt);;
  t ← lift (ok_or (get (act_registry a) (fr_target request)) (UnknownTarget (fr_target request)));
  j ← get_journal;
  existing_entry ← lift (ok_or (j_entries j !! ft_id t) (OwnershipRequired (ft_id t)));
  desired_request ← lift (snap_limits t (fr_limits request));
  before_effective ← read_limits t;
  let previous_request := je_desired existing_entry in
  mret ({[ fr_target request ]} ∪ seen,
        prepared ++ [{| pf_target := t; pf_before_effective := before_effective;
                        pf_previous_request := previous_request;
                        pf_desired_request := desired_request;
                        pf_needs_write :=
                          bool_decide (previous_request <> desired_request)
                          || bool_decide (before_effective <> desired_request) |}]).

(** The entries to put back if the transaction fails. *)
Definition entry_before (m : PreparedFrequencyMutation) : M W (string * JournalEntry) :=
  j ← get_journal;
  e ← lift (ok_or (j_entries j !! ft_id (pf_target m)) (OwnershipRequired (ft_id (pf_target m))));
  mret (ft_id (pf_target m), e).

(** An update of an owned entry in place. *)
Definition update_owned (id : string) (f : JournalEntry -> JournalEntry) : M W unit :=
  j ← get_journal;
  e ← lift (ok_or (j_entries j !! id) (OwnershipRequired id));
  put_journal (with_entries j (<[id := f e]> (j_entries j))).

Definition record_owned (id : string) (actual : FrequencyLimits) : M W unit :=
  update_owned id (fun e => set_transition e actual (je_desired e) [actual]).

Definition fast_transition (m : PreparedFrequencyMutation) : M W unit :=
  update_owned (ft_id (pf_target m)) (fun e =>
    set_transition e (pf_before_effective m) (pf_desired_request m)
      (transaction_legal_pairs (pf_before_effective m) (pf_desired_request m))).

Definition apply_owned_batch_fast (requests : list FrequencyRequest) : M W BatchOutcome :=
  ensure_mutation_ready;;
  match requests with
  | [] => mret ∅
  | _ =>
      '(_, prepared) ← for_fold prepare_owned (∅, []) requests;
      if forallb (fun m => negb (pf_needs_write m)) prepared
      then mret (before_effective_outcome prepared)
      else
        j ← get_journal;
        let generation_before := j_generation j in
        let changed := List.filter pf_needs_write prepared in
        entries_before ← for_fold (fun l m => e ← entry_before m; mret (l ++ [e])) [] changed;
        put_journal (next_generation j);;
        for_unit fast_transition changed;;
        o ← write_batch pf_before_effective record_owned 0 prepared ∅ [];
        match wo_failure o with
        | Some (failed_target, error) =>
            r ← attempt (rollback_frequency_requests prepared (wo_attempted o));
            match r with
            | Err rb =>
                degrade [T "fast transaction failed for "; T failed_target; T ": "; Cause error;
                         T "; rollback failed: "; Cause rb]
            | _ =>
                j ← get_journal;
                let j := with_generation j generation_before in
                put_journal (with_entries j
                  (foldl (fun es (kv : string * JournalEntry) => <[kv.1 := kv.2]> es)
                     (j_entries j) entries_before));;
                fail (Transaction [T failed_target] [Cause error])
            end
        | None => mret (wo_applied o)
        end
  end.

(** *** [restore_targets] *)

(** The transition back to the original request, recorded as intent. *)
Definition restore_intent (what automatic : string) (restoration : list (JournalEntry * FrequencyTarget))
    (e : JournalEntry) : M W (list (JournalEntry * FrequencyTarget)) :=
  match get (act_registry a) (je_target e) with
  | None => degrade [T what; T " target "; T (je_target e); T " is not present"]
  | Some t =>
      if negb (bool_decide (je_original e = hardware_limits t))
      then degrade [T what; T " target "; T (je_target e);
                    T " was claimed from a constrained effective range; automatic ";
                    T automatic; T " could make a transient cap permanent"]
      else
        j ← get_journal;
        (match j_entries j !! je_target e with
         | Some je =>
             put_journal (with_entries j
               (<[je_target e :=
                    set_transition je (je_desired e) (je_original e)
                      (transaction_legal_pairs (je_desired e) (je_original e))]> (j_entries j)))
         | None => mret tt
         end);;
        mret (restoration ++ [(e, t)])
  end.

Definition restore_write (what : string) (et : JournalEntry * FrequencyTarget) : M W unit :=
  r ← attempt (restore_frequency_request et.2 (je_original et.1));
  match r with
  | Err error => degrade [T what; T " failed for "; T (je_target et.1); T ": "; Cause error]
  | _ => mret tt
  end.

Definition restore_targets (ids : list string) : M W unit :=
  ensure_mutation_ready;;
  j ← get_journal;
  let entries := omap (fun id => j_entries j !! id) ids in
  restoration ← for_fold (restore_intent "restore" "restoration") [] entries;
  (if bool_decide (restoration = []) then mret tt
   else
     p ← attempt (j ← get_journal; persist_journal j);
     match p with
     | Err error => degrade [T "cannot persist frequency restore intent: "; Cause error]
     | _ => mret tt
     end);;
  for_unit (restore_write "restore") restoration;;
  j ← get_journal;
  put_journal (next_generation (with_entries j
    (foldl (fun es e => delete (je_target e) es) (j_entries j) entries)));;
  persist_or_remove_locked "frequency restore".
End transactions.
