(* ===== verification/ScalarOps.v ===== *)
(** * Scalar transactions ([uperf-actuator/src/lib.rs])

    Reading and writing one scalar attribute, and the transactions
    [apply_scalars], [restore_scalars] and the scalar part of recovery. *)

From S2P Require Import Prelude Domain Text Strings ActuatorTypes Scalars Targets Journal Ports FrequencyOps.

Section io.
Context {W : Type} `{!Ports W}.

Definition read_scalar (t : ScalarTarget) : M W ScalarValue :=
  raw ← io_read (sct_path t);
  lift (decode_scalar (sct_id t) (sct_path t) (sct_domain t) raw).

Definition write_scalar (t : ScalarTarget) (desired : ScalarValue) : M W ScalarValue :=
  lift (validate_value t desired);;
  io_write (sct_path t) (encode_scalar_value desired);;
  actual ← read_scalar t;
  if decide (actual = desired) then mret actual
  else fail (Transaction [T (sct_id t)]
         [T "scalar readback differs: expected "; Show_scalar desired; T ", got ";
          Show_scalar actual]).
End io.

Record ScalarRequest := { sr_target : string; sr_value : ScalarValue }.

Record PreparedScalarMutation := {
  ps_target : ScalarTarget;
  ps_before : ScalarValue;
  ps_desired : ScalarValue;
  ps_needs_write : bool;
  ps_needs_journal : bool;
}.

Notation ScalarBatchOutcome := (gmap string ScalarValue).

Definition with_scalars (j : Journal) (es : gmap string ScalarJournalEntry) : Journal :=
  {| j_schema_version := j_schema_version j; j_boot_id := j_boot_id j;
     j_device_fingerprint := j_device_fingerprint j; j_generation := j_generation j;
     j_entries := j_entries j; j_scalars := es; j_tasks := j_tasks j; j_units := j_units j |}.

Definition set_scalar_transition (e : ScalarJournalEntry) (applied desired : ScalarValue)
  : ScalarJournalEntry :=
  {| se_target := se_target e; se_path := se_path e; se_manifest := se_manifest e;
     se_original := se_original e; se_desired := desired; se_applied := applied |}.

Definition new_scalar_entry (m : PreparedScalarMutation) : ScalarJournalEntry :=
  let t := ps_target m in
  {| se_target := sct_id t; se_path := sct_path t; se_manifest := ScalarResource (scalar_manifest t);
     se_original := ps_before m; se_desired := ps_before m; se_applied := ps_before m |}.

Definition claim_scalar_entry (es : gmap string ScalarJournalEntry) (m : PreparedScalarMutation)
  : gmap string ScalarJournalEntry :=
  let id := sct_id (ps_target m) in
  let e := default (new_scalar_entry m) (es !! id) in
  <[id := set_scalar_transition e (ps_before m) (ps_desired m)]> es.

Definition claim_scalars (j : Journal) (prepared : list PreparedScalarMutation) : Journal :=
  let j := next_generation j in
  with_scalars j (foldl claim_scalar_entry (j_scalars j) (List.filter ps_needs_journal prepared)).

Definition before_outcome (prepared : list PreparedScalarMutation) : ScalarBatchOutcome :=
  list_to_map (rev ((fun m => (sct_id (ps_target m), ps_before m)) <$> prepared)).

Section transactions.
Context {W : Type} `{!Ports W} `{JournalCodec}.
Context (a : Actuator).

(** *** [apply_scalars] *)

(** The entry's path and manifest are those of the target. *)
Definition same_scalar_identity (e : ScalarJournalEntry) (t : ScalarTarget) : M W bool :=
  if negb (path_eqb (se_path e) (sct_path t)) then mret false
  else m ← lift (recovery_scalar_manifest e); mret (scalar_manifest_eqb m (scalar_manifest t)).

(** The checks of an existing entry: same identity, still owned. *)
Definition check_scalar_owner (t : ScalarTarget) (before : ScalarValue)
    (existing : option ScalarJournalEntry) : M W unit :=
  match existing with
  | None => mret tt
  | Some e =>
      same ← same_scalar_identity e t;
      (if negb same
       then fail (InvalidTarget [T (sct_id t); T " scalar journal identity changed"])
       else mret tt);;
      if bool_decide (before <> se_applied e) && bool_decide (before <> se_desired e)
      then fail (ScalarOwnershipLost (sct_id t)) else mret tt
  end.

Definition prepare_scalar (acc : gset string * list PreparedScalarMutation)
    (request : ScalarRequest) : M W (gset string * list PreparedScalarMutation) :=
  let '(seen, prepared) := acc in
  (if decide (sr_target request ∈ seen)
   then fail (DuplicateRequest [T (sr_target request)]) else mret tt);;
  t ← lift (ok_or (get_scalar (act_registry a) (sr_target request))
              (UnknownTarget (sr_target request)));
  lift (validate_value t (sr_value request));;
  before ← read_scalar t;
  j ← get_journal;
  let existing := j_scalars j !! sct_id t in
  check_scalar_owner t before existing;;
  let needs_write := bool_decide (before <> sr_value request) in
  let needs_journal :=
    match existing with
    | None => needs_write
    | Some e => bool_decide (se_desired e <> sr_value request) || bool_decide (se_applied e <> before)
    end in
  mret ({[ sr_target request ]} ∪ seen,
        prepared ++ [{| ps_target := t; ps_before := before; ps_desired := sr_value request;
                        ps_needs_write := needs_write; ps_needs_journal := needs_journal |}]).

Definition record_scalar (id : string) (actual : ScalarValue) : M W unit :=
  j ← get_journal;
  match j_scalars j !! id with
  | Some e => put_journal (with_scalars j
                (<[id := set_scalar_transition e actual actual]> (j_scalars j)))
  | None => mret tt
  end.

Record ScalarWriteOutcome := {
  so_applied : ScalarBatchOutcome;
  so_attempted : list nat;
  so_failure : option (string * ActuatorError);
}.

Fixpoint write_scalars (index : nat) (l : list PreparedScalarMutation)
    (applied : ScalarBatchOutcome) (attempted : list nat) : M W ScalarWriteOutcome :=
  match l with
  | [] => mret {| so_applied := applied; so_attempted := attempted; so_failure := None |}
  | m :: l =>
      let id := sct_id (ps_target m) in
      if negb (ps_needs_write m)
      then write_scalars (S index) l (<[id := ps_before m]> applied) attempted
      else
        let attempted := attempted ++ [index] in
        r ← attempt (write_scalar (ps_target m) (ps_desired m));
        match r with
        | Ok actual =>
            record_scalar id actual;;
            write_scalars (S index) l (<[id := actual]> applied) attempted
        | Err error =>
            mret {| so_applied := applied; so_attempted := attempted;
                    so_failure := Some (id, error) |}
        | Panic => panic
        end
  end.

(** A value no longer ours, or already back, is left alone. *)
Definition rollback_scalar (prepared : list PreparedScalarMutation) (failures : list message)
    (index : nat) : M W (list message) :=
  match prepared !! index with
  | None => panic
  | Some m =>
      let failed error := failures ++ [[T (sct_id (ps_target m)); T ": "; Cause error]] in
      r ← attempt (read_scalar (ps_target m));
      match r with
      | Err error => mret (failed error)
      | Ok current =>
          if bool_decide (current = ps_before m) || bool_decide (current <> ps_desired m)
          then mret failures
          else
            w ← attempt (write_scalar (ps_target m) (ps_before m));
            match w with
            | Err error => mret (failed error)
            | _ => mret failures
            end
      | Panic => panic
      end
  end.

Definition rollback_scalars (prepared : list PreparedScalarMutation) (attempted : list nat)
  : M W unit :=
  failures ← for_fold (rollback_scalar prepared) [] (rev attempted);
  rollback_result failures.

Definition apply_scalars (requests : list ScalarRequest) : M W ScalarBatchOutcome :=
  ensure_mutation_ready;;
  match requests with
  | [] => mret ∅
  | _ =>
      '(_, prepared) ← for_fold prepare_scalar (∅, []) requests;
      if forallb (fun m => negb (ps_needs_write m) && negb (ps_needs_journal m)) prepared
      then mret (before_outcome prepared)
      else
        journal_before ← get_journal;
        put_journal (claim_scalars journal_before prepared);;
        p ← attempt (j ← get_journal; persist_journal j);
        match p with
        | Err error =>
            put_journal journal_before;;
            degrade [T "cannot persist pre-mutation scalar journal: "; Cause error]
        | _ =>
            o ← write_scalars 0 prepared ∅ [];
            let rollback := rollback_scalars prepared (so_attempted o) in
            match so_failure o with
            | Some (failed_target, error) =>
                abort_batch rollback journal_before "scalar transaction" "scalar rollback"
                  failed_target error
            | None =>
                if existsb ps_needs_write prepared then
                  q ← attempt (j ← get_journal; persist_journal j);
                  match q with
                  | Err error =>
                      abort_unrecorded rollback journal_before "post-mutation scalar journal"
                        "post-mutation scalar rollback" error
                  | _ => mret (so_applied o)
                  end
                else mret (so_applied o)
            end
        end
  end.

(** *** Restoration *)

(** One planned restoration: whether the original must be written. *)
Record ScalarRestoration := {
  sre_entry : ScalarJournalEntry;
  sre_target : ScalarTarget;
  sre_needs_write : bool;
}.

(** A third value means another writer took the attribute over. *)
Definition plan_restoration (e : ScalarJournalEntry) (t : ScalarTarget) (current : ScalarValue)
  : M W ScalarRestoration :=
  let owned := bool_decide (current = se_applied e) || bool_decide (current = se_desired e) in
  let needs_write := owned && bool_decide (current <> se_original e) in
  (if needs_write then
     j ← get_journal;
     match j_scalars j !! se_target e with
     | Some je => put_journal (with_scalars j
                    (<[se_target e := set_scalar_transition je current (se_original e)]>
                       (j_scalars j)))
     | None => mret tt
     end
   else mret tt);;
  mret {| sre_entry := e; sre_target := t; sre_needs_write := needs_write |}.

Definition restore_scalar_intent (restoration : list ScalarRestoration) (e : ScalarJournalEntry)
  : M W (list ScalarRestoration) :=
  match get_scalar (act_registry a) (se_target e) with
  | None => degrade [T "restore scalar target "; T (se_target e); T " is not present"]
  | Some t =>
      same ← same_scalar_identity e t;
      (if negb same
       then degrade [T "restore scalar target identity changed for "; T (se_target e)]
       else mret tt);;
      c ← attempt (read_scalar t);
      match c with
      | Ok current => r ← plan_restoration e t current; mret (restoration ++ [r])
      | Err error => degrade [T "cannot read scalar target "; T (se_target e);
                              T " during restore: "; Cause error]
      | Panic => panic
      end
  end.

Definition restore_scalar_write (r : ScalarRestoration) : M W unit :=
  if sre_needs_write r then
    w ← attempt (write_scalar (sre_target r) (se_original (sre_entry r)));
    match w with
    | Err error => degrade [T "scalar restore failed for "; T (se_target (sre_entry r)); T ": ";
                            Cause error]
    | _ => mret tt
    end
  else mret tt.

Definition restore_scalars (ids : list string) : M W unit :=
  ensure_mutation_ready;;
  j ← get_journal;
  let entries := omap (fun id => j_scalars j !! id) ids in
  restoration ← for_fold restore_scalar_intent [] entries;
  (if existsb sre_needs_write restoration then
     p ← attempt (j ← get_journal; persist_journal j);
     match p with
     | Err error => degrade [T "cannot persist scalar restore intent: "; Cause error]
     | _ => mret tt
     end
   else mret tt);;
  for_unit restore_scalar_write restoration;;
  j ← get_journal;
  put_journal (next_generation (with_scalars j
    (foldl (fun es e => delete (se_target e) es) (j_scalars j) entries)));;
  persist_or_remove_locked "scalar restore".

(** *** [recover_scalars_locked] *)

Definition recover_scalar_intent (restoration : list ScalarRestoration) (e : ScalarJournalEntry)
  : M W (list ScalarRestoration) :=
  t ← lift (ok_or (get_scalar (act_registry a) (se_target e))
              (InvalidJournal [T "scalar journal target "; T (se_target e); T " is not present"]));
  same ← same_scalar_identity e t;
  (if negb same
   then fail (InvalidJournal [T "scalar journal target identity changed for "; T (se_target e)])
   else mret tt);;
  current ← read_scalar t;
  r ← plan_restoration e t current;
  mret (restoration ++ [r]).

Definition recover_scalars_locked : M W unit :=
  j ← get_journal;
  if bool_decide (j_scalars j = ∅) then mret tt
  else
    restoration ← for_fold recover_scalar_intent [] (values (j_scalars j));
    (if existsb sre_needs_write restoration
     then j ← get_journal; persist_journal j else mret tt);;
    for_unit (fun r =>
      if sre_needs_write r
      then write_scalar (sre_target r) (se_original (sre_entry r));; mret tt
      else mret tt) restoration.
End transactions.
