(* ===== verification/TaskOps.v ===== *)
(** * Task transactions ([uperf-actuator/src/lib.rs])

    Scheduling state is owned field by field: a field another writer changed
    is relinquished, and never written or restored again while the entry lives.
    Every access is bracketed by checks of the process identity, because a
    numeric process identifier can be reused. *)

From S2P Require Import Prelude Domain Text Strings ActuatorTypes Scalars Targets Journal Ports FrequencyOps.

Record TaskRequest := { tr_identity : ProcessIdentity; tr_desired : ProcessSchedulingState }.

Record PreparedTaskMutation := {
  pt_before : ProcessSchedulingState;
  pt_desired : ProcessSchedulingState;
  pt_changed_fields : TaskFieldMask;
  pt_rollback_entry : option TaskJournalEntry;
}.

Definition with_tasks (j : Journal) (es : gmap string TaskJournalEntry) : Journal :=
  {| j_schema_version := j_schema_version j; j_boot_id := j_boot_id j;
     j_device_fingerprint := j_device_fingerprint j; j_generation := j_generation j;
     j_entries := j_entries j; j_scalars := j_scalars j; j_tasks := es; j_units := j_units j |}.

(** ** Ownership of fields *)

(** An existing entry met by what is observed now: fields that no longer hold
    the value last applied are lost, and their current value is the original. *)
Definition refresh_entry (e : TaskJournalEntry) (current : ProcessSchedulingState)
  : TaskJournalEntry :=
  let owned := te_owned_fields e in
  let still_owned := TaskMask_fields_matching_either owned current (te_applied e) (te_applied e) in
  let lost := TaskMask_without owned still_owned in
  {| te_identity := te_identity e; te_original := TaskMask_copy lost (te_original e) current;
     te_desired := current; te_applied := current; te_owned_fields := still_owned;
     te_relinquished_fields := TaskMask_union (te_relinquished_fields e) lost |}.

Definition fresh_entry (identity : ProcessIdentity) (current : ProcessSchedulingState)
  : TaskJournalEntry :=
  {| te_identity := identity; te_original := current; te_desired := current;
     te_applied := current; te_owned_fields := TaskMask_default;
     te_relinquished_fields := TaskMask_default |}.

(** The claim for a request: newly changed fields become owned, except those
    already relinquished; the plan changes only owned fields. *)
Definition claim_fields (e : TaskJournalEntry) (current requested_state : ProcessSchedulingState)
  : TaskJournalEntry :=
  let owned := te_owned_fields e in
  let relinquished := te_relinquished_fields e in
  let requested := TaskMask_changed current requested_state in
  let next_owned := TaskMask_union owned (TaskMask_without requested relinquished) in
  let newly_owned := TaskMask_without next_owned owned in
  {| te_identity := te_identity e; te_original := TaskMask_copy newly_owned (te_original e) current;
     te_desired := TaskMask_copy next_owned current requested_state; te_applied := current;
     te_owned_fields := next_owned; te_relinquished_fields := relinquished |}.

(** What a restoration writes: owned fields that still hold a value of ours go
    back to their original, every other field keeps its current value. *)
Definition restored_state (owned : TaskFieldMask)
    (current applied desired original : ProcessSchedulingState) : ProcessSchedulingState :=
  TaskMask_copy (TaskMask_fields_matching_either owned current applied desired) current original.

Notation observations := (gmap ProcessIdentity ProcessSchedulingState).
Notation prepared_tasks := (gmap ProcessIdentity PreparedTaskMutation).

(** One request of the preparation loop of [apply_tasks]. *)
Definition prepare_task (observed : observations)
    (acc : gmap string TaskJournalEntry * prepared_tasks) (request : TaskRequest)
  : res (gmap string TaskJournalEntry * prepared_tasks) ActuatorError :=
  let '(tasks, prepared) := acc in
  match observed !! tr_identity request with
  | None => Panic
  | Some current =>
      let key := task_journal_key (tr_identity request) in
      let existing := (fun e => refresh_entry e current) <$> tasks !! key in
      let entry := default (fresh_entry (tr_identity request) current) existing in
      let claimed := claim_fields entry current (tr_desired request) in
      let tasks := delete key tasks in
      let tasks :=
        if negb (TaskMask_is_empty (te_owned_fields claimed))
           || negb (TaskMask_is_empty (te_relinquished_fields claimed))
        then <[key := claimed]> tasks else tasks in
      let desired := te_desired claimed in
      Ok (tasks,
          <[tr_identity request :=
              {| pt_before := current; pt_desired := desired;
                 pt_changed_fields := TaskMask_changed current desired;
                 pt_rollback_entry := existing |}]> prepared)
  end.

Section io.
Context {W : Type} `{!Ports W}.

Definition get_process_identity (p : Z) : M W ProcessInfo :=
  call (process_identity p) (EvIdentity p).
Definition io_read_scheduling (p : Z) : M W ProcessSchedulingState :=
  call (read_scheduling p) (EvReadTask p).
Definition io_write_scheduling (p : Z) (s : ProcessSchedulingState) : M W ProcessSchedulingState :=
  call (write_scheduling p s) (EvWriteTask p s).

Definition process_identity_is_current (expected : ProcessIdentity) : M W bool :=
  r ← attempt (get_process_identity (pid expected));
  match r with
  | Ok process => mret (bool_decide (identity process = expected))
  | Err (Platform (Disappeared _)) => mret false
  | Err e => fail e
  | Panic => panic
  end.

Definition verify_process_identity (expected : ProcessIdentity) : M W unit :=
  current ← process_identity_is_current expected;
  if (current : bool) then mret tt else fail (ProcessIdentityChanged expected).

(** A rollback failure counts only while the process still exists. *)
Definition record_task_rollback_failure_if_present (failures : list message)
    (identity : ProcessIdentity) (failure : message) : M W (list message) :=
  let p := [T "pid "; Num (pid identity); T ": "] in
  r ← attempt (get_process_identity (pid identity));
  match r with
  | Err (Platform (Disappeared _)) => mret failures
  | Ok _ => mret (failures ++ [p ++ failure])
  | Err e => mret (failures ++ [p ++ failure ++ [T "; identity recheck failed: "; Cause e]])
  | Panic => panic
  end.

Definition rollback_task (attempted : gset ProcessIdentity) (failures : list message)
    (kv : ProcessIdentity * PreparedTaskMutation) : M W (list message) :=
  let '(identity, mutation) := kv in
  if negb (bool_decide (identity ∈ attempted)) then mret failures
  else
    c ← attempt (process_identity_is_current identity);
    match c with
    | Ok false => mret failures
    | Err error => mret (failures ++ [[T "pid "; Num (pid identity); T ": "; Cause error]])
    | Panic => panic
    | Ok true =>
        r ← attempt (io_read_scheduling (pid identity));
        match r with
        | Err error => record_task_rollback_failure_if_present failures identity [Cause error]
        | Panic => panic
        | Ok current =>
            still ← process_identity_is_current identity;
            if negb still then mret failures
            else
              let restorable := TaskMask_fields_matching_either (pt_changed_fields mutation)
                                  current (pt_desired mutation) (pt_before mutation) in
              let rollback := TaskMask_copy restorable current (pt_before mutation) in
              if TaskMask_is_empty restorable || bool_decide (rollback = current)
              then mret failures
              else
                w ← attempt (io_write_scheduling (pid identity) rollback);
                match w with
                | Ok actual =>
                    if TaskMask_values_equal restorable actual (pt_before mutation) then
                      v ← attempt (verify_process_identity identity);
                      match v with
                      | Err error =>
                          record_task_rollback_failure_if_present failures identity
                            [T "identity changed during rollback: "; Cause error]
                      | _ => mret failures
                      end
                    else
                      record_task_rollback_failure_if_present failures identity
                        [T "read back "; Show_task actual]
                | Err error => record_task_rollback_failure_if_present failures identity [Cause error]
                | Panic => panic
                end
        end
    end.

Definition rollback_tasks (prepared : prepared_tasks) (attempted : gset ProcessIdentity)
  : M W unit :=
  failures ← for_fold (rollback_task attempted) [] (rev (entries prepared));
  rollback_result failures.
End io.

Section transactions.
Context {W : Type} `{!Ports W} `{JournalCodec}.
Context (a : Actuator).

Definition require_task_backends : M W unit :=
  if act_proc_reader a && act_process_controller a then mret tt else fail TaskBackendUnavailable.

(** [read_task_state] *)
Definition read_task_state (identity : ProcessIdentity) : M W ProcessSchedulingState :=
  require_task_backends;;
  verify_process_identity identity;;
  scheduling ← io_read_scheduling (pid identity);
  verify_process_identity identity;;
  mret scheduling.

Definition observe_task (acc : gset ProcessIdentity * observations) (request : TaskRequest)
  : M W (gset ProcessIdentity * observations) :=
  let '(seen, observed) := acc in
  let i := tr_identity request in
  (if decide (i ∈ seen)
   then fail (DuplicateRequest [T "pid:"; Num (pid i); T ":"; Num (start_time_ticks i)])
   else mret tt);;
  verify_process_identity i;;
  s ← io_read_scheduling (pid i);
  mret ({[ i ]} ∪ seen, <[i := s]> observed).

Record TaskWriteOutcome := {
  to_applied : gmap ProcessIdentity ProcessSchedulingState;
  to_attempted : gset ProcessIdentity;
  to_failure : option (ProcessIdentity * ActuatorError);
}.

Definition set_task_outcome (e : TaskJournalEntry) (actual : ProcessSchedulingState)
  : TaskJournalEntry :=
  {| te_identity := te_identity e; te_original := te_original e; te_desired := actual;
     te_applied := actual; te_owned_fields := te_owned_fields e;
     te_relinquished_fields := te_relinquished_fields e |}.

Definition record_task (identity : ProcessIdentity) (actual : ProcessSchedulingState) : M W unit :=
  j ← get_journal;
  let key := task_journal_key identity in
  match j_tasks j !! key with
  | Some e => put_journal (with_tasks j (<[key := set_task_outcome e actual]> (j_tasks j)))
  | None => mret tt
  end.

Fixpoint write_tasks (prepared : prepared_tasks) (l : list TaskRequest)
    (applied : gmap ProcessIdentity ProcessSchedulingState) (attempted : gset ProcessIdentity)
  : M W TaskWriteOutcome :=
  match l with
  | [] => mret {| to_applied := applied; to_attempted := attempted; to_failure := None |}
  | request :: l =>
      let i := tr_identity request in
      match prepared !! i with
      | None => panic
      | Some mutation =>
          if TaskMask_is_empty (pt_changed_fields mutation)
          then write_tasks prepared l (<[i := pt_before mutation]> applied) attempted
          else
            let stop attempted error :=
              mret {| to_applied := applied; to_attempted := attempted;
                      to_failure := Some (i, error) |} in
            v ← attempt (verify_process_identity i);
            match v with
            | Err error => stop attempted error
            | _ =>
                let attempted := {[ i ]} ∪ attempted in
                w ← attempt (io_write_scheduling (pid i) (pt_desired mutation));
                match w with
                | Ok actual =>
                    if decide (actual = pt_desired mutation) then
                      v ← attempt (verify_process_identity i);
                      match v with
                      | Err error => stop attempted error
                      | _ =>
                          record_task i actual;;
                          write_tasks prepared l (<[i := actual]> applied) attempted
                      end
                    else
                      stop attempted
                        (Transaction [T "pid "; Num (pid i)]
                           [T "task readback "; Show_task actual; T " differs from requested ";
                            Show_task (pt_desired mutation)])
                | Err error => stop attempted error
                | Panic => panic
                end
            end
      end
  end.

(** The journal entries as they were before the transaction. *)
Definition undo_task (tasks : gmap string TaskJournalEntry)
    (kv : ProcessIdentity * PreparedTaskMutation) : gmap string TaskJournalEntry :=
  let key := task_journal_key kv.1 in
  match pt_rollback_entry kv.2 with
  | Some e => <[key := e]> (delete key tasks)
  | None => delete key tasks
  end.

Definition apply_tasks (requests : list TaskRequest)
  : M W (gmap ProcessIdentity ProcessSchedulingState) :=
  ensure_mutation_ready;;
  match requests with
  | [] => mret ∅
  | _ =>
      require_task_backends;;
      '(_, observed) ← for_fold observe_task (∅, ∅) requests;
      j ← get_journal;
      put_journal (next_generation j);;
      '(tasks, prepared) ← lift (res_foldM (prepare_task observed) (j_tasks j, ∅) requests);
      j ← get_journal;
      put_journal (with_tasks j tasks);;
      p ← attempt (j ← get_journal; persist_or_remove_journal j);
      match p with
      | Err error => degrade [T "cannot persist pre-task journal: "; Cause error]
      | _ =>
          o ← write_tasks prepared requests ∅ ∅;
          match to_failure o with
          | Some (i, error) =>
              r ← attempt (rollback_tasks prepared (to_attempted o));
              match r with
              | Err rb =>
                  degrade [T "task transaction failed for pid "; Num (pid i); T ": "; Cause error;
                           T "; rollback failed: "; Cause rb]
              | _ =>
                  j ← get_journal;
                  put_journal (with_tasks j (foldl undo_task (j_tasks j) (entries prepared)));;
                  q ← attempt (persist_or_remove_locked "task rollback");
                  match q with
                  | Err persist_error =>
                      degrade [T "task transaction rollback succeeded but journal update failed: ";
                               Cause persist_error]
                  | _ => fail (Transaction [T "pid "; Num (pid i)] [Cause error])
                  end
              end
          | None =>
              q ← attempt (j ← get_journal; persist_or_remove_journal j);
              match q with
              | Err error =>
                  r ← attempt (rollback_tasks prepared (to_attempted o));
                  match r with
                  | Err rb => degrade [T "post-task journal failed: "; Cause error;
                                       T "; rollback failed: "; Cause rb]
                  | _ => degrade [T "post-task journal failed; batch rolled back: "; Cause error]
                  end
              | _ => mret (to_applied o)
              end
          end
      end
  end.

(** *** [restore_tasks], [recover_tasks_locked] *)

(** [match operation { Err(error) => return self.degrade_locked(..) }] *)
Definition or_degrade {A} (m : M W A) (reason : message) : M W A :=
  r ← attempt m;
  match r with
  | Ok x => mret x
  | Err error => degrade (reason ++ [Cause error])
  | Panic => panic
  end.

Definition restore_task (e : TaskJournalEntry) : M W unit :=
  let i := te_identity e in
  let p := Num (pid i) in
  current_identity ← or_degrade (process_identity_is_current i)
    [T "cannot verify pid "; p; T " during task restore: "];
  if negb current_identity then mret tt
  else
    current ← or_degrade (io_read_scheduling (pid i))
      [T "cannot read pid "; p; T " during task restore: "];
    let desired := restored_state (te_owned_fields e) current (te_applied e) (te_desired e)
                     (te_original e) in
    let changed := TaskMask_changed current desired in
    if TaskMask_is_empty changed then mret tt
    else
      actual ← or_degrade (io_write_scheduling (pid i) desired)
        [T "cannot restore pid "; p; T " scheduling: "];
      or_degrade (verify_process_identity i)
        [T "pid "; p; T " identity changed during task restore: "];;
      if TaskMask_values_equal changed actual (te_original e) then mret tt
      else degrade [T "task restore readback differs for pid "; p].

Definition restore_tasks (ids : list ProcessIdentity) : M W unit :=
  ensure_mutation_ready;;
  j ← get_journal;
  let es := omap (fun i => j_tasks j !! task_journal_key i) ids in
  if bool_decide (es = []) then mret tt
  else
    (if act_proc_reader a then mret tt else degrade [T "task restore requires a proc reader"]);;
    (if act_process_controller a then mret tt
     else degrade [T "task restore requires a process controller"]);;
    for_unit restore_task es;;
    j ← get_journal;
    put_journal (next_generation (with_tasks j
      (foldl (fun ts e => delete (task_journal_key (te_identity e)) ts) (j_tasks j) es)));;
    persist_or_remove_locked "task restore".

Definition recover_task (e : TaskJournalEntry) : M W unit :=
  let i := te_identity e in
  current_identity ← process_identity_is_current i;
  if negb current_identity then mret tt
  else
    current ← io_read_scheduling (pid i);
    let desired := restored_state (te_owned_fields e) current (te_applied e) (te_desired e)
                     (te_original e) in
    let changed := TaskMask_changed current desired in
    if TaskMask_is_empty changed then mret tt
    else
      actual ← io_write_scheduling (pid i) desired;
      v ← attempt (verify_process_identity i);
      match v with
      | Err error =>
          fail (Rollback [T "pid "; Num (pid i); T " identity changed during task recovery: ";
                          Cause error])
      | _ =>
          if TaskMask_values_equal changed actual (te_original e) then mret tt
          else fail (Rollback [T "pid "; Num (pid i); T " task recovery readback differs"])
      end.

Definition recover_tasks_locked : M W unit :=
  j ← get_journal;
  if bool_decide (j_tasks j = ∅) then mret tt
  else
    require_task_backends;;
    for_unit recover_task (values (j_tasks j)).
End transactions.
