(* ===== verification/UnitOps.v ===== *)
(** * Systemd unit transactions ([uperf-actuator/src/lib.rs])

    The same field-wise ownership as for tasks, on the properties of a unit.
    Unit names are reused across activations, so every access is bracketed by
    checks of the unit's instance identity. *)

From S2P Require Import Prelude Domain Text Strings ActuatorTypes Scalars Targets Journal Ports FrequencyOps TaskOps.

Record UnitRequest := { ur_unit : string; ur_desired : SystemdUnitProperties }.

Record PreparedUnitMutation := {
  pu_instance : SystemdUnitInstanceIdentity;
  pu_before : SystemdUnitProperties;
  pu_desired : SystemdUnitProperties;
  pu_changed_fields : UnitFieldMask;
  pu_rollback_entry : option UnitJournalEntry;
}.

Definition with_units (j : Journal) (es : gmap string UnitJournalEntry) : Journal :=
  {| j_schema_version := j_schema_version j; j_boot_id := j_boot_id j;
     j_device_fingerprint := j_device_fingerprint j; j_generation := j_generation j;
     j_entries := j_entries j; j_scalars := j_scalars j; j_tasks := j_tasks j; j_units := es |}.

Definition refresh_unit (e : UnitJournalEntry) (current : SystemdUnitProperties)
  : UnitJournalEntry :=
  let owned := ue_owned_fields e in
  let still_owned := UnitMask_fields_matching_either owned current (ue_applied e) (ue_applied e) in
  let lost := UnitMask_without owned still_owned in
  {| ue_unit := ue_unit e; ue_instance := ue_instance e;
     ue_original := UnitMask_copy lost (ue_original e) current;
     ue_desired := current; ue_applied := current; ue_owned_fields := still_owned;
     ue_relinquished_fields := UnitMask_union (ue_relinquished_fields e) lost |}.

Definition fresh_unit (unit_name : string) (instance : SystemdUnitInstanceIdentity)
    (current : SystemdUnitProperties) : UnitJournalEntry :=
  {| ue_unit := unit_name; ue_instance := instance; ue_original := current;
     ue_desired := current; ue_applied := current; ue_owned_fields := UnitMask_default;
     ue_relinquished_fields := UnitMask_default |}.

Definition claim_unit (e : UnitJournalEntry) (current requested_state : SystemdUnitProperties)
  : UnitJournalEntry :=
  let owned := ue_owned_fields e in
  let relinquished := ue_relinquished_fields e in
  let requested := UnitMask_changed current requested_state in
  let next_owned := UnitMask_union owned (UnitMask_without requested relinquished) in
  let newly_owned := UnitMask_without next_owned owned in
  {| ue_unit := ue_unit e; ue_instance := ue_instance e;
     ue_original := UnitMask_copy newly_owned (ue_original e) current;
     ue_desired := UnitMask_copy next_owned current requested_state; ue_applied := current;
     ue_owned_fields := next_owned; ue_relinquished_fields := relinquished |}.

Definition restored_unit (owned : UnitFieldMask)
    (current applied desired original : SystemdUnitProperties) : SystemdUnitProperties :=
  UnitMask_copy (UnitMask_fields_matching_either owned current applied desired) current original.

Notation unit_observations := (gmap string (SystemdUnitInstanceIdentity * SystemdUnitProperties)).
Notation prepared_units := (gmap string PreparedUnitMutation).

Definition prepare_unit (observed : unit_observations)
    (acc : gmap string UnitJournalEntry * prepared_units) (request : UnitRequest)
  : res (gmap string UnitJournalEntry * prepared_units) ActuatorError :=
  let '(units, prepared) := acc in
  match observed !! ur_unit request with
  | None => Panic
  | Some (instance, current) =>
      let name := ur_unit request in
      let existing :=
        e ← units !! name;
        if bool_decide (ue_instance e = instance) then Some (refresh_unit e current) else None in
      let entry := default (fresh_unit name instance current) existing in
      let claimed := claim_unit entry current (ur_desired request) in
      let units := delete name units in
      let units :=
        if negb (UnitMask_is_empty (ue_owned_fields claimed))
           || negb (UnitMask_is_empty (ue_relinquished_fields claimed))
        then <[name := claimed]> units else units in
      let desired := ue_desired claimed in
      Ok (units,
          <[name := {| pu_instance := instance; pu_before := current; pu_desired := desired;
                       pu_changed_fields := UnitMask_changed current desired;
                       pu_rollback_entry := existing |}]> prepared)
  end.

Section io.
Context {W : Type} `{!Ports W}.

Definition get_unit_instance_identity (u : string) : M W SystemdUnitInstanceIdentity :=
  call (unit_instance_identity u) (EvUnitIdentity u).
Definition io_read_unit (u : string) : M W SystemdUnitProperties :=
  call (read_unit_properties u) (EvReadUnit u).
Definition io_write_unit (u : string) (p : SystemdUnitProperties) : M W SystemdUnitProperties :=
  call (write_unit_properties u p) (EvWriteUnit u p).

Definition unit_instance_is_current (expected : SystemdUnitInstanceIdentity) : M W bool :=
  r ← attempt (get_unit_instance_identity (ui_unit expected));
  match r with
  | Ok current => mret (bool_decide (current = expected))
  | Err (Platform (Disappeared _)) => mret false
  | Err e => fail e
  | Panic => panic
  end.

Definition verify_unit_instance (expected : SystemdUnitInstanceIdentity) : M W unit :=
  current ← unit_instance_is_current expected;
  if (current : bool) then mret tt else fail (UnitInstanceChanged (ui_unit expected)).

Definition rollback_unit (attempted : gset string) (failures : list message)
    (kv : string * PreparedUnitMutation) : M W (list message) :=
  let '(name, mutation) := kv in
  let failed (m : message) : M W (list message) := mret (failures ++ [T name :: m]) in
  if negb (bool_decide (name ∈ attempted)) then mret failures
  else
    c ← attempt (unit_instance_is_current (pu_instance mutation));
    match c with
    | Ok false => mret failures
    | Err error => failed [T ": "; Cause error]
    | Panic => panic
    | Ok true =>
        r ← attempt (io_read_unit name);
        match r with
        | Err error => failed [T ": "; Cause error]
        | Panic => panic
        | Ok current =>
            let restorable := UnitMask_fields_matching_either (pu_changed_fields mutation)
                                current (pu_desired mutation) (pu_before mutation) in
            let rollback := UnitMask_copy restorable current (pu_before mutation) in
            if UnitMask_is_empty restorable || bool_decide (rollback = current)
            then mret failures
            else
              w ← attempt (io_write_unit name rollback);
              match w with
              | Ok actual =>
                  if UnitMask_values_equal restorable actual (pu_before mutation) then
                    v ← attempt (verify_unit_instance (pu_instance mutation));
                    match v with
                    | Err error => failed [T ": "; Cause error]
                    | _ => mret failures
                    end
                  else failed [T " read back "; Show_unit actual]
              | Err error => failed [T ": "; Cause error]
              | Panic => panic
              end
        end
    end.

Definition rollback_units (prepared : prepared_units) (attempted : gset string) : M W unit :=
  failures ← for_fold (rollback_unit attempted) [] (rev (entries prepared));
  rollback_result failures.
End io.

Section transactions.
Context {W : Type} `{!Ports W} `{JournalCodec}.
Context (a : Actuator).

Definition observe_unit (acc : gset string * unit_observations) (request : UnitRequest)
  : M W (gset string * unit_observations) :=
  let '(seen, observed) := acc in
  let u := ur_unit request in
  lift (validate_unit_name u);;
  (if decide (u ∈ seen) then fail (DuplicateRequest [T u]) else mret tt);;
  instance ← get_unit_instance_identity u;
  properties ← io_read_unit u;
  verify_unit_instance instance;;
  mret ({[ u ]} ∪ seen, <[u := (instance, properties)]> observed).

Record UnitWriteOutcome := {
  uo_applied : gmap string SystemdUnitProperties;
  uo_attempted : gset string;
  uo_failure : option (string * message);
}.

Definition set_unit_outcome (e : UnitJournalEntry) (actual : SystemdUnitProperties)
  : UnitJournalEntry :=
  {| ue_unit := ue_unit e; ue_instance := ue_instance e; ue_original := ue_original e;
     ue_desired := actual; ue_applied := actual; ue_owned_fields := ue_owned_fields e;
     ue_relinquished_fields := ue_relinquished_fields e |}.

Definition record_unit (name : string) (actual : SystemdUnitProperties) : M W unit :=
  j ← get_journal;
  match j_units j !! name with
  | Some e => put_journal (with_units j (<[name := set_unit_outcome e actual]> (j_units j)))
  | None => mret tt
  end.

Fixpoint write_units (prepared : prepared_units) (l : list UnitRequest)
    (applied : gmap string SystemdUnitProperties) (attempted : gset string)
  : M W UnitWriteOutcome :=
  match l with
  | [] => mret {| uo_applied := applied; uo_attempted := attempted; uo_failure := None |}
  | request :: l =>
      let u := ur_unit request in
      match prepared !! u with
      | None => panic
      | Some mutation =>
          if UnitMask_is_empty (pu_changed_fields mutation)
          then write_units prepared l (<[u := pu_before mutation]> applied) attempted
          else
            let stop attempted reason :=
              mret {| uo_applied := applied; uo_attempted := attempted;
                      uo_failure := Some (u, reason) |} in
            v ← attempt (verify_unit_instance (pu_instance mutation));
            match v with
            | Err error => stop attempted [Cause error]
            | _ =>
                let attempted := {[ u ]} ∪ attempted in
                w ← attempt (io_write_unit u (pu_desired mutation));
                match w with
                | Ok actual =>
                    if decide (actual = pu_desired mutation) then
                      v ← attempt (verify_unit_instance (pu_instance mutation));
                      match v with
                      | Err error => stop attempted [Cause error]
                      | _ =>
                          record_unit u actual;;
                          write_units prepared l (<[u := actual]> applied) attempted
                      end
                    else
                      stop attempted
                        [T "readback "; Show_unit actual; T " differs from requested ";
                         Show_unit (pu_desired mutation)]
                | Err error => stop attempted [Cause error]
                | Panic => panic
                end
            end
      end
  end.

Definition undo_unit (units : gmap string UnitJournalEntry) (kv : string * PreparedUnitMutation)
  : gmap string UnitJournalEntry :=
  match pu_rollback_entry kv.2 with
  | Some e => <[kv.1 := e]> (delete kv.1 units)
  | None => delete kv.1 units
  end.

Definition apply_units (requests : list UnitRequest) : M W (gmap string SystemdUnitProperties) :=
  ensure_mutation_ready;;
  match requests with
  | [] => mret ∅
  | _ =>
      (if act_systemd a then mret tt else fail SystemdBackendUnavailable);;
      '(_, observed) ← for_fold observe_unit (∅, ∅) requests;
      j ← get_journal;
      put_journal (next_generation j);;
      '(units, prepared) ← lift (res_foldM (prepare_unit observed) (j_units j, ∅) requests);
      j ← get_journal;
      put_journal (with_units j units);;
      p ← attempt (j ← get_journal; persist_or_remove_journal j);
      match p with
      | Err error => degrade [T "cannot persist pre-systemd journal: "; Cause error]
      | _ =>
          o ← write_units prepared requests ∅ ∅;
          match uo_failure o with
          | Some (u, reason) =>
              r ← attempt (rollback_units prepared (uo_attempted o));
              match r with
              | Err rb =>
                  degrade ([T "systemd transaction failed for "; T u; T ": "] ++ reason
                           ++ [T "; rollback failed: "; Cause rb])
              | _ =>
                  j ← get_journal;
                  put_journal (with_units j (foldl undo_unit (j_units j) (entries prepared)));;
                  q ← attempt (persist_or_remove_locked "systemd rollback");
                  match q with
                  | Err error =>
                      degrade [T "systemd transaction rollback succeeded but journal update failed: ";
                               Cause error]
                  | _ => fail (Transaction [T u] reason)
                  end
              end
          | None =>
              q ← attempt (j ← get_journal; persist_or_remove_journal j);
              match q with
              | Err error =>
                  r ← attempt (rollback_units prepared (uo_attempted o));
                  match r with
                  | Err rb => degrade [T "post-systemd journal failed: "; Cause error;
                                       T "; rollback failed: "; Cause rb]
                  | _ => degrade [T "post-systemd journal failed; batch rolled back: "; Cause error]
                  end
              | _ => mret (uo_applied o)
              end
          end
      end
  end.

Definition restore_unit (e : UnitJournalEntry) : M W unit :=
  let instance := ue_instance e in
  let name := ue_unit e in
  current_instance ← or_degrade (unit_instance_is_current instance)
    [T "cannot verify "; T name; T " instance during systemd restore: "];
  if negb current_instance then mret tt
  else
    current ← or_degrade (io_read_unit name)
      [T "cannot read "; T name; T " during systemd restore: "];
    or_degrade (verify_unit_instance instance)
      [T name; T " instance changed during systemd restore observation: "];;
    let desired := restored_unit (ue_owned_fields e) current (ue_applied e) (ue_desired e)
                     (ue_original e) in
    let changed := UnitMask_changed current desired in
    if UnitMask_is_empty changed then mret tt
    else
      actual ← or_degrade (io_write_unit name desired)
        [T "cannot restore "; T name; T " systemd properties: "];
      or_degrade (verify_unit_instance instance)
        [T name; T " instance changed during systemd restore write: "];;
      if UnitMask_values_equal changed actual (ue_original e) then mret tt
      else degrade [T "systemd restore readback differs for "; T name].

Definition restore_units (names : list string) : M W unit :=
  ensure_mutation_ready;;
  j ← get_journal;
  let es := omap (fun u => j_units j !! u) names in
  if bool_decide (es = []) then mret tt
  else
    (if act_systemd a then mret tt else degrade [T "systemd restore backend is unavailable"]);;
    for_unit restore_unit es;;
    j ← get_journal;
    put_journal (next_generation (with_units j
      (foldl (fun us e => delete (ue_unit e) us) (j_units j) es)));;
    persist_or_remove_locked "systemd restore".

Definition recover_unit (e : UnitJournalEntry) : M W unit :=
  let instance := ue_instance e in
  let name := ue_unit e in
  current_instance ← unit_instance_is_current instance;
  if negb current_instance then mret tt
  else
    current ← io_read_unit name;
    verify_unit_instance instance;;
    let desired := restored_unit (ue_owned_fields e) current (ue_applied e) (ue_desired e)
                     (ue_original e) in
    let changed := UnitMask_changed current desired in
    if UnitMask_is_empty changed then mret tt
    else
      actual ← io_write_unit name desired;
      verify_unit_instance instance;;
      if UnitMask_values_equal changed actual (ue_original e) then mret tt
      else fail (Rollback [T name; T " systemd recovery readback differs"]).

Definition recover_units_locked : M W unit :=
  j ← get_journal;
  if bool_decide (j_units j = ∅) then mret tt
  else
    (if act_systemd a then mret tt else fail SystemdBackendUnavailable);;
    for_unit recover_unit (values (j_units j)).
End transactions.
