(* ===== verification/Recovery.v ===== *)
(** * Observation, startup and recovery ([uperf-actuator/src/lib.rs])

    The accessors of [FrequencyActuator], which read a target, a task or a unit
    by identity and never touch the runtime state, and the summaries that health
    reporting uses; then its construction, [recover_pending] and [restore_all],
    and the actuator as a step relation. *)

From S2P Require Import Prelude Domain Text Strings ActuatorTypes Scalars Targets Journal Ports FrequencyOps ScalarOps TaskOps UnitOps.

Section accessors.
Context {W : Type} `{!Ports W} `{JournalCodec}.
Context (a : Actuator).

Definition has_process_backend : bool := act_proc_reader a && act_process_controller a.
Definition has_systemd_backend : bool := act_systemd a.

(** [FrequencyActuator::mode], [startup_recovery_required] and
    [startup_recovery_failed]. *)
Definition mode : M W ActuatorMode := rt ← get_rt; mret (rt_mode rt).

Definition startup_recovery_required : M W bool := rt ← get_rt; mret (rt_recovery_required rt).

Definition is_degraded (m : ActuatorMode) : bool :=
  match m with ReadOnlyDegraded _ => true | ReadWrite => false end.

Definition startup_recovery_failed : M W bool :=
  rt ← get_rt; mret (rt_recovery_required rt && is_degraded (rt_mode rt)).

Definition has_owned_resources : M W bool :=
  j ← get_journal;
  let tasks_owned := existsb (fun e => negb (TaskMask_is_empty (te_owned_fields e))) (values (j_tasks j)) in
  let units_owned := existsb (fun e => negb (UnitMask_is_empty (ue_owned_fields e))) (values (j_units j)) in
  mret (negb (bool_decide (j_entries j = ∅)) || negb (bool_decide (j_scalars j = ∅))
        || tasks_owned || units_owned).

(** [FrequencyActuator::read_limits] and [read_scalar]. *)
Definition actuator_read_limits (id : string) : M W FrequencyLimits :=
  t ← lift (ok_or (get (act_registry a) id) (UnknownTarget id));
  read_limits t.

Definition actuator_read_scalar (id : string) : M W ScalarValue :=
  t ← lift (ok_or (get_scalar (act_registry a) id) (UnknownTarget id));
  read_scalar t.

Definition unit_for_process (i : ProcessIdentity) : M W (option string) :=
  (if act_proc_reader a then mret tt else fail TaskBackendUnavailable);;
  (if act_systemd a then mret tt else fail SystemdBackendUnavailable);;
  verify_process_identity i;;
  unit ← call (client_unit_for_process (pid i)) (EvUnitOf (pid i));
  verify_process_identity i;;
  mret unit.

Definition unit_processes (u : string) : M W (list Z) :=
  lift (validate_unit_name u);;
  (if act_systemd a then mret tt else fail SystemdBackendUnavailable);;
  call (client_unit_processes u) (EvUnitProcesses u).
End accessors.

(** * Startup, recovery and the actuator as a state machine
    ([uperf-actuator/src/lib.rs])

    [FrequencyActuator::new] loads the journal, [recover_pending] restores what
    an earlier daemon of the same boot left behind, [restore_all] gives
    everything back. Every operation holds the state lock from start to end, so
    concurrent callers are sequences of whole operations. *)

Section recovery.
Context {W : Type} `{!Ports W} `{JournalCodec}.
Context (a : Actuator).

(** [FrequencyActuator::new]: an unreadable or invalid journal starts the
    actuator degraded. *)
Definition FrequencyActuator_new (w : W) : St W :=
  let empty := empty_journal (act_boot_id a) (act_device_fingerprint a) 0 in
  let degraded reason :=
    {| rt_mode := ReadOnlyDegraded reason; rt_journal := empty; rt_recovery_required := true |} in
  let '(loaded, w) := store_load w in
  let rt :=
    match loaded with
    | inr (Some bytes) =>
        match decode_journal bytes with
        | Ok j =>
            if journal_is_empty j then
              {| rt_mode := ReadWrite;
                 rt_journal := empty_journal (act_boot_id a) (act_device_fingerprint a)
                                 (j_generation j);
                 rt_recovery_required := false |}
            else {| rt_mode := ReadWrite; rt_journal := j; rt_recovery_required := true |}
        | Err e => degraded [Cause e]
        | Panic => degraded []
        end
    | inr None => {| rt_mode := ReadWrite; rt_journal := empty; rt_recovery_required := false |}
    | inl e => degraded [Cause (Platform e)]
    end in
  {| st_rt := rt; st_world := w; st_log := [] |}.

(** [mark_startup_recovery_failed] *)
Definition mark_startup_recovery_failed (reason : message) : M W unit :=
  put_rt_degraded ← get_rt;
  put_rt (with_mode (with_recovery_required put_rt_degraded true) (ReadOnlyDegraded reason)).

(** The checks and the recorded intent of one frequency entry. *)
Definition recover_frequency_intent (recovery : list (JournalEntry * FrequencyTarget))
    (e : JournalEntry) : M W (list (JournalEntry * FrequencyTarget)) :=
  match get (act_registry a) (je_target e) with
  | None => degrade [T "journal target "; T (je_target e); T " is not present"]
  | Some t =>
      if negb (path_eqb (ft_min_path t) (je_min_path e))
         || negb (path_eqb (ft_max_path t) (je_max_path e))
      then degrade [T "journal paths changed for "; T (je_target e)]
      else
        m ← lift (recovery_frequency_manifest e);
        if negb (frequency_manifest_eqb (frequency_manifest t) m)
        then degrade [T "journal target identity changed for "; T (je_target e)]
        else restore_intent a "journal" "recovery" recovery e
  end.

Definition recover_frequencies : M W unit :=
  j ← get_journal;
  recovery ← for_fold recover_frequency_intent [] (values (j_entries j));
  (if bool_decide (recovery = []) then mret tt
   else
     p ← attempt (j ← get_journal; persist_journal j);
     match p with
     | Err error => degrade [T "cannot persist frequency recovery intent: "; Cause error]
     | _ => mret tt
     end);;
  for_unit (restore_write "recovery") recovery.

(** [if let Err(error) = self.recover_*(..) { return self.degrade_locked(..) }] *)
Definition degrade_on_error {A} (m : M W A) (what : string) : M W unit :=
  r ← attempt m;
  match r with
  | Err error => degrade [T what; Cause error]
  | _ => mret tt
  end.

Definition recover_pending : M W unit :=
  ensure_read_write;;
  rt ← get_rt;
  let j := rt_journal rt in
  if negb (rt_recovery_required rt) then mret tt
  else if negb (bool_decide (j_boot_id j = act_boot_id a)) then
    degrade_on_error (call remove_durable EvRemove) "cannot discard journal from another boot: ";;
    put_rt (with_recovery_required
      (with_journal rt (empty_journal (act_boot_id a) (act_device_fingerprint a)
                          (sat_add (j_generation j) 1))) false)
  else if negb (bool_decide (j_device_fingerprint j = act_device_fingerprint a)) then
    degrade [T "journal device fingerprint does not match"]
  else if journal_is_empty j then put_rt (with_recovery_required rt false)
  else
    (if negb (bool_decide (j_tasks j = ∅))
        && negb (act_proc_reader a && act_process_controller a)
     then degrade [T "task recovery backends are unavailable"] else mret tt);;
    (if negb (bool_decide (j_units j = ∅)) && negb (act_systemd a)
     then degrade [T "systemd recovery backend is unavailable"] else mret tt);;
    recover_frequencies;;
    degrade_on_error (recover_scalars_locked a) "scalar recovery failed: ";;
    degrade_on_error (recover_tasks_locked a) "task recovery failed: ";;
    degrade_on_error (recover_units_locked a) "systemd unit recovery failed: ";;
    degrade_on_error (call remove_durable EvRemove) "cannot remove completed recovery journal: ";;
    rt ← get_rt;
    let j := rt_journal rt in
    put_rt (with_recovery_required
      (with_journal rt
        {| j_schema_version := j_schema_version j; j_boot_id := j_boot_id j;
           j_device_fingerprint := j_device_fingerprint j;
           j_generation := sat_add (j_generation j) 1;
           j_entries := ∅; j_scalars := ∅; j_tasks := ∅; j_units := ∅ |}) false).

(** [restore_all] takes the lock once per resource kind. *)
Definition restore_all : M W unit :=
  j ← get_journal;
  restore_targets a (keys (j_entries j));;
  j ← get_journal;
  restore_scalars a (keys (j_scalars j));;
  j ← get_journal;
  restore_tasks a (te_identity <$> values (j_tasks j));;
  j ← get_journal;
  restore_units a (keys (j_units j)).

(** ** The state machine *)

Inductive operation :=
| OpApplyBatch (requests : list FrequencyRequest)
| OpApplyFast (requests : list FrequencyRequest)
| OpApplyScalars (requests : list ScalarRequest)
| OpApplyTasks (requests : list TaskRequest)
| OpApplyUnits (requests : list UnitRequest)
| OpRestoreTargets (ids : list string)
| OpRestoreScalars (ids : list string)
| OpRestoreTasks (ids : list ProcessIdentity)
| OpRestoreUnits (names : list string)
| OpRecover
| OpMarkFailed (reason : message).

Definition discard {A} (m : M W A) : M W unit := m;; mret tt.

Definition run_operation (op : operation) : M W unit :=
  match op with
  | OpApplyBatch l => discard (apply_batch a l)
  | OpApplyFast l => discard (apply_owned_batch_fast a l)
  | OpApplyScalars l => discard (apply_scalars a l)
  | OpApplyTasks l => discard (apply_tasks a l)
  | OpApplyUnits l => discard (apply_units a l)
  | OpRestoreTargets l => restore_targets a l
  | OpRestoreScalars l => restore_scalars a l
  | OpRestoreTasks l => restore_tasks a l
  | OpRestoreUnits l => restore_units a l
  | OpRecover => recover_pending
  | OpMarkFailed reason => mark_startup_recovery_failed reason
  end.

(** Observations by identity, which change nothing the actuator owns. *)
Inductive query :=
| QueryLimits (id : string)
| QueryScalar (id : string)
| QueryTask (i : ProcessIdentity)
| QueryUnitOf (i : ProcessIdentity)
| QueryUnitProcesses (u : string).

Definition run_query (q : query) : M W unit :=
  match q with
  | QueryLimits id => discard (actuator_read_limits a id)
  | QueryScalar id => discard (actuator_read_scalar a id)
  | QueryTask i => discard (read_task_state a i)
  | QueryUnitOf i => discard (unit_for_process a i)
  | QueryUnitProcesses u => discard (unit_processes a u)
  end.

(** One whole operation; between operations the world may change at will. A
    panic poisons the state lock, and no operation follows it. *)
Inductive step : St W -> St W -> Prop :=
| step_operation op s r s' : run_operation op s = (r, s') -> r <> Panic -> step s s'
| step_query q s r s' : run_query q s = (r, s') -> r <> Panic -> step s s'
| step_world s w : step s {| st_rt := st_rt s; st_world := w; st_log := st_log s |}.

(** The states of an actuator started in the world [w]. *)
Inductive reachable (w : W) : St W -> Prop :=
| reachable_start : reachable w (FrequencyActuator_new w)
| reachable_step s s' : reachable w s -> step s s' -> reachable w s'.
End recovery.
