(* ===== verification/Ownership.v ===== *)
(** * Reasoning about the actuator's monad

    Weakest preconditions for the monad of [Ports], the quiet routines (they
    write only given paths and touch neither the store nor the runtime state),
    and what the log of port calls says about the durable journal. *)

From S2P Require Import Prelude Domain Text Strings ActuatorTypes Scalars Targets Journal JournalFacts Ports FrequencyOps ScalarOps.

Create HintDb quiet discriminated.

Section logic.
Context {W : Type} `{!Ports W} `{JournalCodec}.

(** ** Weakest preconditions *)

Definition wp {A} (m : M W A) (Q : res A ActuatorError -> St W -> Prop) (s : St W) : Prop :=
  Q (m s).1 (m s).2.

Lemma wp_run {A} (m : M W A) Q s r s' : wp m Q s -> m s = (r, s') -> Q r s'.
Proof. unfold wp. by intros HQ Hm; rewrite Hm in HQ. Qed.

Lemma wp_mono {A} (m : M W A) (Q Q' : res A ActuatorError -> St W -> Prop) s :
  wp m Q s -> (forall r s', Q r s' -> Q' r s') -> wp m Q' s.
Proof. unfold wp. auto. Qed.

Lemma wp_ret {A} (x : A) Q s : Q (Ok x) s -> wp (mret x) Q s.
Proof. done. Qed.
Lemma wp_fail {A} e (Q : res A ActuatorError -> St W -> Prop) s : Q (Err e) s -> wp (fail e) Q s.
Proof. done. Qed.
Lemma wp_panic {A} (Q : res A ActuatorError -> St W -> Prop) s : Q Panic s -> wp panic Q s.
Proof. done. Qed.
Lemma wp_lift {A} r (Q : res A ActuatorError -> St W -> Prop) s : Q r s -> wp (lift r) Q s.
Proof. done. Qed.

Lemma wp_bind {A B} (m : M W A) (k : A -> M W B) Q s :
  wp m (fun r s' => match r with
                    | Ok x => wp (k x) Q s'
                    | Err e => Q (Err e) s'
                    | Panic => Q Panic s'
                    end) s ->
  wp (x ← m; k x) Q s.
Proof. unfold wp, mbind, M_bind. by destruct (m s) as [[x|e|] s']. Qed.

Lemma wp_attempt {A} (m : M W A) (Q : res (res A ActuatorError) ActuatorError -> St W -> Prop) s :
  wp m (fun r s' => match r with
                    | Ok x => Q (Ok (Ok x)) s'
                    | Err e => Q (Ok (Err e)) s'
                    | Panic => Q Panic s'
                    end) s ->
  wp (attempt m) Q s.
Proof. unfold wp, attempt. by destruct (m s) as [[x|e|] s']. Qed.

(** The first three commands of a sequence, as one. *)
Lemma wp_regroup {A B C D} (m1 : M W A) (m2 : A -> M W B) (m3 : A -> B -> M W C)
    (k : C -> M W D) Q s :
  wp (z ← (x ← m1; y ← m2 x; m3 x y); k z) Q s -> wp (x ← m1; y ← m2 x; z ← m3 x y; k z) Q s.
Proof.
  unfold wp, mbind, M_bind. destruct (m1 s) as [[x|e|] s1]; [|done|done].
  by destruct (m2 x s1) as [[y|e|] s2].
Qed.

Definition with_rt (s : St W) (rt : RuntimeState) : St W :=
  {| st_rt := rt; st_world := st_world s; st_log := st_log s |}.

Lemma wp_get_rt (Q : res RuntimeState ActuatorError -> St W -> Prop) s :
  Q (Ok (st_rt s)) s -> wp get_rt Q s.
Proof. done. Qed.
Lemma wp_put_rt rt (Q : res unit ActuatorError -> St W -> Prop) s :
  Q (Ok tt) (with_rt s rt) -> wp (put_rt rt) Q s.
Proof. done. Qed.
Lemma wp_get_journal (Q : res Journal ActuatorError -> St W -> Prop) s :
  Q (Ok (rt_journal (st_rt s))) s -> wp get_journal Q s.
Proof. done. Qed.
Lemma wp_put_journal j (Q : res unit ActuatorError -> St W -> Prop) s :
  Q (Ok tt) (with_rt s (with_journal (st_rt s) j)) -> wp (put_journal j) Q s.
Proof. done. Qed.

Lemma wp_degrade {A} reason (Q : res A ActuatorError -> St W -> Prop) s :
  Q (Err (DegradedError reason)) (with_rt s (with_mode (st_rt s) (ReadOnlyDegraded reason))) ->
  wp (degrade reason) Q s.
Proof. done. Qed.

(** A port call appends its event and leaves the runtime state. *)
Lemma wp_call {A} (op : W -> (PlatformError + A) * W) ev Q s :
  (forall r w, Q (match r with inl e => Err (Platform e) | inr x => Ok x end)
     {| st_rt := st_rt s; st_world := w; st_log := st_log s ++ [ev r] |}) ->
  wp (call op ev) Q s.
Proof. unfold wp, call. intros HQ. destruct (op (st_world s)) as [r w]. apply HQ. Qed.

(** ** Quiet routines *)

(** An event that writes only below the given paths and is no store. *)
Definition quiet_event (P : path_key -> Prop) (ev : Event) : Prop :=
  match ev with
  | EvWrite p _ _ => P (components p)
  | EvStore _ _ | EvRemove _ => False
  | _ => True
  end.

Definition quiet_step (P : path_key -> Prop) (s s' : St W) : Prop :=
  st_rt s' = st_rt s /\ exists evs, st_log s' = st_log s ++ evs /\ Forall (quiet_event P) evs.

(** [m] only makes quiet calls, and what it returns satisfies [R]. *)
Definition quiet {A} (P : path_key -> Prop) (R : A -> Prop) (m : M W A) : Prop :=
  forall s, wp m (fun r s' => quiet_step P s s' /\ forall x, r = Ok x -> R x) s.

Lemma quiet_step_refl P s : quiet_step P s s.
Proof. split; [done|]. exists []. by rewrite app_nil_r. Qed.

Lemma quiet_step_trans P s1 s2 s3 : quiet_step P s1 s2 -> quiet_step P s2 s3 -> quiet_step P s1 s3.
Proof.
  intros [E1 (l1 & L1 & F1)] [E2 (l2 & L2 & F2)]. split; [congruence|].
  exists (l1 ++ l2). rewrite L2, L1, (assoc_L (++)). split; [done|]. by apply Forall_app.
Qed.

Lemma quiet_weaken {A} (P P' : path_key -> Prop) (R R' : A -> Prop) m :
  quiet P R m -> (forall k, P k -> P' k) -> (forall x, R x -> R' x) -> quiet P' R' m.
Proof.
  intros Hm HP HR s. eapply wp_mono; [apply Hm|]. intros r s' ([E (l & L & F)] & Hr).
  split; [|auto]. split; [done|]. exists l. split; [done|].
  eapply Forall_impl; [exact F|]. intros []; simpl; auto.
Qed.

Lemma wp_quiet {A} P R (m : M W A) Q s :
  quiet P R m ->
  (forall r s', quiet_step P s s' -> (forall x, r = Ok x -> R x) -> Q r s') -> wp m Q s.
Proof. intros Hm HQ. eapply wp_mono; [apply Hm|]. intros r s' [??]. auto. Qed.

Lemma quiet_ret {A} P (R : A -> Prop) x : R x -> quiet P R (mret x).
Proof. intros Hx s. split; [apply quiet_step_refl|]. by intros y [= <-]. Qed.
Lemma quiet_fail {A} P (R : A -> Prop) e : quiet P R (fail e).
Proof. intros s. split; [apply quiet_step_refl|done]. Qed.
Lemma quiet_panic {A} P (R : A -> Prop) : quiet P R panic.
Proof. intros s. split; [apply quiet_step_refl|done]. Qed.
Lemma quiet_lift {A} P (R : A -> Prop) r : (forall x, r = Ok x -> R x) -> quiet P R (lift r).
Proof. intros Hr s. split; [apply quiet_step_refl|done]. Qed.

Lemma quiet_bind {A B} P (R : A -> Prop) (R' : B -> Prop) m k :
  quiet P R m -> (forall x, R x -> quiet P R' (k x)) -> quiet P R' (x ← m; k x).
Proof.
  intros Hm Hk s. apply wp_bind. eapply wp_mono; [apply Hm|]. intros [x|e|] s' [Hs Hr].
  - eapply wp_mono; [by apply Hk, Hr|]. intros r s'' [Hs' Hr'].
    split; [by eapply quiet_step_trans|done].
  - done.
  - done.
Qed.

Lemma quiet_attempt {A} P (R : A -> Prop) m :
  quiet P R m -> quiet P (fun r => forall x, r = Ok x -> R x) (attempt m).
Proof.
  intros Hm s. apply wp_attempt. eapply wp_mono; [apply Hm|]. intros [x|e|] s' [Hs Hr];
    (split; [done|]); try done; intros y [= <-]; naive_solver.
Qed.

Lemma quiet_call {A} P (op : W -> (PlatformError + A) * W) ev :
  (forall r, quiet_event P (ev r)) -> quiet P (fun _ => True) (call op ev).
Proof.
  intros He s. apply wp_call. intros r w. split; [|done]. split; [done|].
  exists [ev r]. split; [done|]. by apply Forall_singleton.
Qed.

Lemma quiet_read P path : quiet P (fun _ => True) (io_read path).
Proof. by apply quiet_call. Qed.
Lemma quiet_write (P : path_key -> Prop) path v :
  P (components path) -> quiet P (fun _ => True) (io_write path v).
Proof. intros Hp. by apply quiet_call. Qed.
Lemma quiet_now P : quiet P (fun _ => True) now.
Proof.
  intros s. unfold wp, now. destruct (instant_now (st_world s)). simpl. split; [|done].
  split; [done|]. exists []. by rewrite app_nil_r.
Qed.
Lemma quiet_sleep P d : quiet P (fun _ => True) (sleep d).
Proof. intros s. split; [|done]. split; [done|]. exists []. by rewrite app_nil_r. Qed.
Lemma quiet_get_journal P : quiet P (fun _ => True) get_journal.
Proof. intros s. split; [apply quiet_step_refl|done]. Qed.

Lemma quiet_for_fold {A S} P (I : S -> Prop) (f : S -> A -> M W S) l s0 :
  I s0 -> (forall s x, x ∈ l -> I s -> quiet P I (f s x)) -> quiet P I (for_fold f s0 l).
Proof.
  revert s0. induction l as [|x l IH]; intros s0 H0 Hf; simpl; [by apply quiet_ret|].
  eapply quiet_bind; [apply Hf; [set_solver|done]|]. intros s' Hs'.
  apply IH; [done|]. intros s y Hy. apply Hf. set_solver.
Qed.

Lemma quiet_any {A} P (R : A -> Prop) (m : M W A) : quiet P R m -> quiet P (fun _ => True) m.
Proof. intros Hm. by eapply quiet_weaken. Qed.
End logic.

(** Decompose a routine down to its port calls. *)
Ltac quiet_step_tac :=
  match goal with
  | |- quiet _ _ (mret _) => apply quiet_ret
  | |- quiet _ _ (fail _) => apply quiet_fail
  | |- quiet _ _ panic => apply quiet_panic
  | |- quiet _ _ (lift _) => apply quiet_lift
  | |- quiet _ _ (mbind _ _) => eapply (quiet_bind _ (fun _ => True)); [|intros ? _]
  | |- quiet _ _ (if ?b then _ else _) => destruct b eqn:?
  | |- quiet _ _ (match ?x with _ => _ end) => destruct x eqn:?
  | |- quiet _ _ _ => solve [eauto with quiet | eapply quiet_any; eauto with quiet]
  end.
Ltac quiet_tac := repeat quiet_step_tac; try done.

#[export] Hint Resolve quiet_read quiet_now quiet_sleep quiet_get_journal : quiet.
#[export] Hint Resolve quiet_attempt : quiet.

(** ** The input and output routines are quiet *)

Definition target_paths (t : FrequencyTarget) (k : path_key) : Prop :=
  k = components (ft_min_path t) \/ k = components (ft_max_path t).

Section routines.
Context {W : Type} `{!Ports W} `{JournalCodec}.
Implicit Types P : path_key -> Prop.

Lemma quiet_read_limits P t : quiet P (fun _ => True) (read_limits t).
Proof. unfold read_limits. quiet_tac. Qed.

Lemma quiet_write_min t v : quiet (target_paths t) (fun _ => True) (io_write (ft_min_path t) v).
Proof. apply quiet_write. by left. Qed.
Lemma quiet_write_max t v : quiet (target_paths t) (fun _ => True) (io_write (ft_max_path t) v).
Proof. apply quiet_write. by right. Qed.

Hint Resolve quiet_read_limits quiet_write_min quiet_write_max : quiet.

Lemma quiet_write_ordered t c d : quiet (target_paths t) (fun _ => True) (write_ordered t c d).
Proof. unfold write_ordered, write_if. quiet_tac. Qed.

Lemma quiet_reset t d : quiet (target_paths t) (fun _ => True) (reset_frequency_request t d).
Proof. unfold reset_frequency_request. quiet_tac. Qed.

Lemma quiet_observe P t r :
  quiet P (fun o => forall l, o = inl l -> l = r) (observe t r).
Proof. unfold observe. quiet_tac; congruence. Qed.

Lemma quiet_settle_loop P fuel d t r : quiet P (fun l => l = r) (settle_loop fuel d t r).
Proof.
  induction fuel as [|fuel IH]; simpl; [apply quiet_panic|].
  eapply quiet_bind; [apply quiet_observe|]. intros [l|m] Ho; [apply quiet_ret; auto|].
  quiet_tac.
Qed.

Lemma quiet_wait P t r : quiet P (fun l => l = r) (wait_for_limits t r).
Proof. unfold wait_for_limits. eapply quiet_bind; [apply quiet_now|]. intros; apply quiet_settle_loop. Qed.

Hint Resolve quiet_write_ordered quiet_reset quiet_wait : quiet.

Lemma quiet_apply_requested t c d :
  quiet (target_paths t) (fun l => l = d /\ validate_limits t d = Ok tt)
    (apply_requested_limits t c d).
Proof.
  unfold apply_requested_limits.
  eapply (quiet_bind _ (fun _ => True)); [by apply quiet_lift|]. intros _ _.
  eapply (quiet_bind _ (fun _ => validate_limits t d = Ok tt)).
  { apply quiet_lift. by intros [] ?. }
  intros _ Hd. eapply quiet_bind; [apply quiet_write_ordered|]. intros _ _.
  eapply quiet_weaken; [apply quiet_wait|done|done].
Qed.

Lemma quiet_restore_request t d :
  quiet (target_paths t) (fun _ => True) (restore_frequency_request t d).
Proof.
  unfold restore_frequency_request. quiet_tac.
Qed.

Definition scalar_path (t : ScalarTarget) (k : path_key) : Prop := k = components (sct_path t).

Lemma decode_scalar_valid id path d raw v :
  decode_scalar id path d raw = Ok v -> validate_domain_value d id v = Ok tt.
Proof.
  unfold decode_scalar. intros (w & _ & Hw)%res_bind_Ok.
  destruct (validate_domain_value d id w) as [[]| |] eqn:E; [|done..]. by injection Hw as <-.
Qed.

Lemma quiet_read_scalar P t : quiet P (fun v => validate_value t v = Ok tt) (read_scalar t).
Proof.
  unfold read_scalar. eapply quiet_bind; [apply quiet_read|]. intros raw _.
  apply quiet_lift. intros v Hv. by apply decode_scalar_valid in Hv.
Qed.

Lemma quiet_write_scalar t v :
  quiet (scalar_path t) (fun w => w = v /\ validate_value t v = Ok tt) (write_scalar t v).
Proof.
  unfold write_scalar. eapply (quiet_bind _ (fun _ => validate_value t v = Ok tt)).
  { apply quiet_lift. by intros [] ?. }
  intros _ Hv. eapply quiet_bind; [by apply quiet_write|]. intros _ _.
  eapply quiet_bind; [apply quiet_read_scalar|]. intros w Hw.
  destruct (decide (w = v)) as [->|]; [by apply quiet_ret|apply quiet_fail].
Qed.
End routines.

#[export] Hint Resolve quiet_read_limits quiet_write_ordered quiet_reset quiet_wait : quiet.
#[export] Hint Resolve quiet_apply_requested quiet_restore_request : quiet.
#[export] Hint Resolve quiet_read_scalar quiet_write_scalar : quiet.

(** * The journal covers every write

    What the log of port calls allows the durable journal to be at each
    moment, the invariant that ties it to the runtime state, and the effect of
    persisting on it. *)

(** ** The durable journal *)

(** Every journal the store may hold: a failed operation may or may not have
    taken effect. *)
Definition durable_step (d : list (option Journal)) (ev : Event) : list (option Journal) :=
  match ev with
  | EvStore j (inr _) => [Some j]
  | EvStore j (inl _) => Some j :: d
  | EvRemove (inr _) => [None]
  | EvRemove (inl _) => None :: d
  | _ => d
  end.

Definition durable (d0 : list (option Journal)) (log : list Event) : list (option Journal) :=
  foldl durable_step d0 log.

Definition protects (oj : option Journal) (k : path_key) : Prop :=
  match oj with Some j => k ∈ journal_claims j | None => False end.

(** Whenever an attribute is written, every journal a crash could leave behind
    claims it. *)
Definition covered (d0 : list (option Journal)) (log : list Event) : Prop :=
  forall l1 p v r l2, log = l1 ++ EvWrite p v r :: l2 ->
  forall oj, oj ∈ durable d0 l1 -> protects oj (components p).

(** The task and unit entries of a journal. *)
Definition others_valid (j : Journal) : Prop :=
  (forall key e, j_tasks j !! key = Some e ->
     key = task_journal_key (te_identity e) /\ task_entry_valid e) /\
  (forall key e, j_units j !! key = Some e -> unit_entry_valid key e).

(** Every journal that was stored passes the validation of the next start. *)
Definition stored_valid (log : list Event) : Prop :=
  forall j r, EvStore j r ∈ log -> others_valid j -> journal_valid j.

Section log.
Context (d0 : list (option Journal)).

Definition log_ok (log : list Event) : Prop := covered d0 log /\ stored_valid log.

(** Every possible journal protects all of [K]. *)
Definition guarded (K : list path_key) (log : list Event) : Prop :=
  log_ok log /\ forall oj k, oj ∈ durable d0 log -> k ∈ K -> protects oj k.

Lemma durable_app l1 l2 : durable d0 (l1 ++ l2) = durable (durable d0 l1) l2.
Proof. apply foldl_app. Qed.

Lemma log_ok_nil : log_ok [].
Proof. split; [by intros [] ? ? ? ?|intros j r; set_solver]. Qed.

Lemma covered_snoc log ev :
  covered d0 log ->
  (forall p v r oj, ev = EvWrite p v r -> oj ∈ durable d0 log -> protects oj (components p)) ->
  covered d0 (log ++ [ev]).
Proof.
  intros Hc Hev l1 p v r l2 Heq oj Hoj.
  destruct (decide (l2 = [])) as [->|Hne].
  - apply app_inj_tail in Heq as [-> ->]. by eapply Hev.
  - destruct (exists_last Hne) as (l2' & ev' & ->).
    rewrite app_comm_cons, (assoc_L (++)) in Heq. apply app_inj_tail in Heq as [-> _].
    by eapply Hc.
Qed.

Lemma log_ok_snoc log ev :
  log_ok log ->
  (forall p v r oj, ev = EvWrite p v r -> oj ∈ durable d0 log -> protects oj (components p)) ->
  (forall j r, ev = EvStore j r -> others_valid j -> journal_valid j) ->
  log_ok (log ++ [ev]).
Proof.
  intros [Hc Hs] Hw Hst. split; [by apply covered_snoc|].
  intros j r [Hin|Heq%list_elem_of_singleton]%elem_of_app; [by eapply Hs|by eapply Hst].
Qed.

Lemma durable_quiet log P evs :
  Forall (quiet_event P) evs -> durable d0 (log ++ evs) = durable d0 log.
Proof.
  intros Hq. rewrite durable_app. generalize (durable d0 log) as d.
  induction Hq as [|ev evs Hev _ IH]; intros d; [done|]. simpl.
  replace (durable_step d ev) with d by (by destruct ev). apply IH.
Qed.

Lemma guarded_quiet K (P : path_key -> Prop) log evs :
  guarded K log -> (forall k, P k -> k ∈ K) -> Forall (quiet_event P) evs ->
  guarded K (log ++ evs).
Proof.
  intros [Hok Hg] HP Hq. split.
  2: { intros oj k. rewrite (durable_quiet _ P) by done. apply Hg. }
  induction evs as [|ev evs IH] using rev_ind; [by rewrite app_nil_r|].
  apply Forall_app in Hq as [Hq Hev]. apply Forall_cons in Hev as [Hev _]. rewrite (assoc_L (++)).
  apply log_ok_snoc; [by apply IH| |].
  - intros p v r oj -> Hoj. rewrite (durable_quiet _ P) in Hoj by done.
    apply Hg; [exact Hoj|]. apply HP. exact Hev.
  - intros j r ->. done.
Qed.

Lemma guarded_weaken K K' log : guarded K log -> (forall k, k ∈ K' -> k ∈ K) -> guarded K' log.
Proof. intros [? Hg] Hk. split; [done|]. auto. Qed.
End log.

(** ** Persisting *)

Section persist.
Context {W : Type} `{!Ports W} `{JournalCodec}.
Context (d0 : list (option Journal)).

Lemma encode_no_panic j : encode_journal j <> Panic.
Proof.
  unfold encode_journal. destruct (too_long _ _); [done|]. simpl. by destruct (too_long _ _).
Qed.

(** Storing a valid journal succeeds with that journal, and only it, durable,
    or fails; the runtime state is untouched. *)
Lemma wp_persist j (Q : res unit ActuatorError -> St W -> Prop) s :
  log_ok d0 (st_log s) -> (others_valid j -> journal_valid j) ->
  (forall r s', r <> Panic -> st_rt s' = st_rt s -> log_ok d0 (st_log s') ->
     (r = Ok tt -> guarded d0 (journal_claims j) (st_log s')) ->
     (forall K, guarded d0 K (st_log s) -> (forall k, k ∈ K -> k ∈ journal_claims j) ->
        guarded d0 K (st_log s')) -> Q r s') ->
  wp (persist_journal j) Q s.
Proof.
  intros Hl Hv HQ. unfold persist_journal. apply wp_bind, wp_lift.
  pose proof (encode_no_panic j).
  destruct (encode_journal j) as [bytes|e|]; [|by apply HQ|done].
  apply wp_call. intros r w.
  assert (Hok : log_ok d0 (st_log s ++ [EvStore j r])).
  { apply log_ok_snoc; [done|done|]. by intros ? ? [= -> ->]. }
  assert (Hd : forall oj, oj ∈ durable d0 (st_log s ++ [EvStore j r]) ->
    oj = Some j \/ (r <> inr tt /\ oj ∈ durable d0 (st_log s))).
  { intros oj. unfold durable. rewrite foldl_app. simpl. destruct r as [e|[]]; set_solver. }
  apply HQ; [by destruct r|done|done| |].
  - destruct r as [e|[]]; [done|]. intros _. split; [done|].
    intros oj k Hoj Hk. by destruct (Hd oj Hoj) as [->|[? _]].
  - intros K [_ HK] Hsub. split; [done|]. intros oj k Hoj Hk.
    destruct (Hd oj Hoj) as [->|[_ Hoj']]; [by apply Hsub|by apply HK].
Qed.

Lemma journal_is_empty_claims j : journal_is_empty j = true -> journal_claims j = [].
Proof.
  unfold journal_is_empty. rewrite !andb_true_iff, !bool_decide_eq_true.
  intros [[[He Hs] _] _]. unfold journal_claims, shape_claims. by rewrite He, Hs.
Qed.

Lemma wp_persist_or_remove j (Q : res unit ActuatorError -> St W -> Prop) s :
  log_ok d0 (st_log s) -> (others_valid j -> journal_valid j) ->
  (forall r s', r <> Panic -> st_rt s' = st_rt s -> log_ok d0 (st_log s') ->
     (r = Ok tt -> guarded d0 (journal_claims j) (st_log s')) -> Q r s') ->
  wp (persist_or_remove_journal j) Q s.
Proof.
  intros Hl Hv HQ. unfold persist_or_remove_journal.
  destruct (journal_is_empty j) eqn:E.
  2: { eapply wp_persist; [done|done|]. eauto. }
  apply wp_call. intros r w.
  assert (Hok : log_ok d0 (st_log s ++ [EvRemove r])) by by apply log_ok_snoc.
  apply HQ; [by destruct r|done|done|]. intros _. split; [done|].
  rewrite (journal_is_empty_claims j E). set_solver.
Qed.
End persist.

(** * The ownership invariant

    A registry built by its constructors claims each attribute once. Between
    operations the in-memory journal owns registered targets only, with the
    manifest, original and legal pairs that a later recovery will check. *)

(** ** The registry *)

Definition target_shape (t : FrequencyTarget) : pair_shape :=
  (components (ft_min_path t), components (ft_max_path t)).
Definition scalar_target_shape (t : ScalarTarget) : path_key := components (sct_path t).

Definition registry_claims (r : TargetRegistry) : list path_key :=
  shape_claims (target_shape <$> reg_targets r) (scalar_target_shape <$> reg_scalar_targets r).

Record registry_wf (r : TargetRegistry) : Prop := {
  rw_targets : forall id t, reg_targets r !! id = Some t -> ft_id t = id /\ frequency_target_wf t;
  rw_scalars : forall id t, reg_scalar_targets r !! id = Some t -> sct_id t = id /\ scalar_target_wf t;
  rw_disjoint : forall id, is_Some (reg_scalar_targets r !! id) -> reg_targets r !! id = None;
  rw_claims : NoDup (registry_claims r);
}.

Lemma claim_path_Ok claimed path owner c' :
  claim_path claimed path owner = Ok c' <->
  components path ∉ dom claimed /\ c' = <[components path := owner]> claimed.
Proof.
  unfold claim_path. rewrite not_elem_of_dom. destruct (claimed !! components path); naive_solver.
Qed.

Lemma shape_claims_insert_l id s fs ss :
  fs !! id = None -> shape_claims (<[id := s]> fs) ss ≡ₚ [s.1; s.2] ++ shape_claims fs ss.
Proof.
  intros Hid. unfold shape_claims. by rewrite map_to_list_insert, bind_cons, <- (assoc_L (++)) by done.
Qed.

Lemma shape_claims_insert_r id k fs ss :
  ss !! id = None -> shape_claims fs (<[id := k]> ss) ≡ₚ k :: shape_claims fs ss.
Proof.
  intros Hid. unfold shape_claims. rewrite map_to_list_insert, bind_cons by done.
  unfold scalar_claims at 1. simpl. by rewrite <- Permutation_middle.
Qed.

(** The claims a registry has made so far are the keys of the claim map. *)
Definition registering (acc : claims * TargetRegistry) : Prop :=
  registry_wf acc.2 /\ forall k, k ∈ dom acc.1 <-> k ∈ registry_claims acc.2.

Lemma register_frequency_wf acc t acc' :
  registering acc -> reg_scalar_targets acc.2 = ∅ -> frequency_target_wf t ->
  register_frequency acc t = Ok acc' -> registering acc' /\ reg_scalar_targets acc'.2 = ∅.
Proof.
  destruct acc as [claimed r]. intros [[W1 W2 W3 W4] Hd] Hs Ht. unfold register_frequency.
  intros (u & Hn%reject_if_Ok & (c1 & [H1 ->]%claim_path_Ok & (c2 & [H2 ->]%claim_path_Ok & [= <-])
    %res_bind_Ok)%res_bind_Ok)%res_bind_Ok.
  simpl in *. apply bool_decide_eq_false, eq_None_not_Some in Hn.
  rewrite dom_insert_L, not_elem_of_union, not_elem_of_singleton in H2.
  assert (Hperm : shape_claims (target_shape <$> <[ft_id t := t]> (reg_targets r))
      (scalar_target_shape <$> reg_scalar_targets r)
    ≡ₚ [components (ft_min_path t); components (ft_max_path t)] ++ registry_claims r).
  { rewrite fmap_insert, shape_claims_insert_l; [done|]. by rewrite lookup_fmap, Hn. }
  split; [split|done].
  - constructor; simpl.
    + intros id t' [[<- <-]|[Hne Hl]]%lookup_insert_Some; [done|by apply W1].
    + done.
    + rewrite Hs. intros id. rewrite lookup_empty. by intros [? ?].
    + unfold registry_claims. simpl. rewrite Hperm. apply NoDup_app. split_and!; [| |done].
      * apply NoDup_cons. split; [set_solver|apply NoDup_singleton].
      * intros k Hk Hin. apply Hd in Hin. set_solver.
  - intros k. unfold registry_claims. simpl. rewrite Hperm, !dom_insert_L.
    rewrite elem_of_app, <- Hd. set_solver.
Qed.

Lemma TargetRegistry_new_wf ts r :
  Forall frequency_target_wf ts -> TargetRegistry_new ts = Ok r ->
  registry_wf r /\ reg_scalar_targets r = ∅.
Proof.
  intros Hts. unfold TargetRegistry_new.
  intros ([c r'] & Hfold & [= <-])%res_bind_Ok. rewrite Forall_forall in Hts.
  assert (Hinv : registering (c, r') /\ reg_scalar_targets r' = ∅).
  { refine (res_foldM_inv register_frequency
      (fun acc => registering acc /\ reg_scalar_targets acc.2 = ∅) ts _ _ _ _ Hfold).
    - split; [|done]. split.
      + constructor; simpl; try (intros ? ?; rewrite lookup_empty; done).
        unfold registry_claims, shape_claims. simpl. rewrite !fmap_empty, !map_to_list_empty.
        constructor.
      + intros k. unfold registry_claims, shape_claims. simpl.
        rewrite !fmap_empty, !map_to_list_empty. set_solver.
    - intros acc t acc' Hin [Hr Hs] Hreg. eapply register_frequency_wf; eauto. }
  destruct Hinv as [[? _] ?]. done.
Qed.

Lemma frequency_claims_dom ts k :
  k ∈ dom (frequency_claims ts) <->
  k ∈ (map_to_list (target_shape <$> ts) ≫= pair_claims).
Proof.
  unfold frequency_claims.
  assert (Hgen : forall l (c : claims), k ∈ dom (foldl (fun c (t : FrequencyTarget) =>
      <[components (ft_max_path t) := ft_id t]> (<[components (ft_min_path t) := ft_id t]> c)) c l)
    <-> k ∈ dom c \/ exists t, t ∈ l /\ (k = components (ft_min_path t) \/ k = components (ft_max_path t))).
  { induction l as [|t l IH]; intros c; simpl; [set_solver|].
    rewrite IH, !dom_insert_L. set_solver. }
  rewrite Hgen, dom_empty_L, list_elem_of_bind. split.
  - intros [?|(t & [id Ht]%elem_of_values & Hk)]; [set_solver|].
    exists (id, target_shape t). split; [unfold pair_claims, target_shape; set_solver|].
    apply elem_of_map_to_list, lookup_fmap_Some. eauto.
  - intros ([id s] & Hk & (t & <- & Ht)%elem_of_map_to_list%lookup_fmap_Some). right. exists t.
    split; [apply elem_of_values; eauto|]. unfold pair_claims, target_shape in Hk. set_solver.
Qed.

Lemma register_scalar_wf acc t acc' :
  registering acc -> register_scalar acc t = Ok acc' -> registering acc'.
Proof.
  destruct acc as [claimed r]. intros [[W1 W2 W3 W4] Hd]. unfold register_scalar.
  intros (c & Hc & (u & He%reject_if_Ok & (v & Hn%reject_if_Ok & (c1 & [H1 ->]%claim_path_Ok & [= <-])
    %res_bind_Ok)%res_bind_Ok)%res_bind_Ok)%res_bind_Ok.
  simpl in *. rewrite orb_false_iff, !bool_decide_eq_false, <- !eq_None_not_Some in Hn.
  destruct Hn as [Hn1 Hn2]. rewrite negb_false_iff in He.
  assert (Hwf : scalar_target_wf t).
  { unfold ScalarTarget_new in Hc. apply res_bind_Ok in Hc as ([] & Hp & (d & Hd' & [= <-])%res_bind_Ok).
    unfold scalar_target_eqb in He. rewrite !andb_true_iff, !bool_decide_eq_true in He.
    destruct He as [_ He]. simpl in He. subst d. by constructor. }
  assert (Hperm : shape_claims (target_shape <$> reg_targets r)
      (scalar_target_shape <$> <[sct_id t := t]> (reg_scalar_targets r))
    ≡ₚ components (sct_path t) :: registry_claims r).
  { rewrite fmap_insert, shape_claims_insert_r; [done|]. by rewrite lookup_fmap, Hn2. }
  split.
  - constructor; simpl.
    + done.
    + intros id t' [[<- <-]|[Hne Hl]]%lookup_insert_Some; [done|by apply W2].
    + intros id [t' [[<- _]|[_ Hl]]%lookup_insert_Some]; [done|]. apply W3. eauto.
    + unfold registry_claims. simpl. rewrite Hperm. constructor; [|done]. by rewrite <- Hd.
  - intros k. unfold registry_claims. simpl. rewrite Hperm, dom_insert_L.
    rewrite elem_of_cons, <- Hd. set_solver.
Qed.

(** A registry built by the constructors is well formed. *)
Lemma with_scalar_targets_wf ts ss r r' :
  Forall frequency_target_wf ts -> TargetRegistry_new ts = Ok r ->
  with_scalar_targets r ss = Ok r' -> registry_wf r'.
Proof.
  intros Hts [Hr Hs]%TargetRegistry_new_wf; [|done]. unfold with_scalar_targets.
  intros ([c r''] & Hfold & [= <-])%res_bind_Ok.
  assert (Hinv : registering (c, r'')).
  { refine (res_foldM_inv register_scalar registering ss _ _ _ _ Hfold).
    - split; [done|]. intros k. simpl. rewrite frequency_claims_dom.
      unfold registry_claims, shape_claims. by rewrite Hs, fmap_empty, map_to_list_empty, app_nil_r.
    - intros acc t acc' _. apply register_scalar_wf. }
  apply Hinv.
Qed.

(** ** Owned entries *)

Record entry_of (t : FrequencyTarget) (e : JournalEntry) : Prop := {
  eo_target : je_target e = ft_id t;
  eo_min : je_min_path e = ft_min_path t;
  eo_max : je_max_path e = ft_max_path t;
  eo_manifest : je_resource_manifest e = FrequencyPair (frequency_manifest t);
  eo_original : je_original e = hardware_limits t;
  eo_desired : validate_limits t (je_desired e) = Ok tt;
  eo_applied : validate_limits t (je_applied e) = Ok tt;
  eo_pairs : je_legal_pairs e = transaction_legal_pairs (je_applied e) (je_desired e);
}.

Record scalar_entry_of (t : ScalarTarget) (e : ScalarJournalEntry) : Prop := {
  so_target : se_target e = sct_id t;
  so_path : se_path e = sct_path t;
  so_manifest : se_manifest e = ScalarResource (scalar_manifest t);
  so_original : validate_value t (se_original e) = Ok tt;
  so_desired : validate_value t (se_desired e) = Ok tt;
  so_applied_value : validate_value t (se_applied e) = Ok tt;
}.

Definition entries_owned (r : TargetRegistry) (es : gmap string JournalEntry) : Prop :=
  forall id e, es !! id = Some e -> exists t, reg_targets r !! id = Some t /\ entry_of t e.

Definition scalars_owned (r : TargetRegistry) (es : gmap string ScalarJournalEntry) : Prop :=
  forall id e, es !! id = Some e ->
    exists t, reg_scalar_targets r !! id = Some t /\ scalar_entry_of t e.

(** The header of a journal of this actuator. *)
Record header_ok (a : Actuator) (j : Journal) : Prop := {
  ho_schema : j_schema_version j = JOURNAL_SCHEMA_VERSION;
  ho_boot : j_boot_id j = act_boot_id a;
  ho_fingerprint : j_device_fingerprint j = act_device_fingerprint a;
}.

Record journal_owned (a : Actuator) (j : Journal) : Prop := {
  jo_header : header_ok a j;
  jo_entries : entries_owned (act_registry a) (j_entries j);
  jo_scalars : scalars_owned (act_registry a) (j_scalars j);
}.

(** What the actuator is built from. *)
Record actuator_wf (a : Actuator) : Prop := {
  aw_registry : registry_wf (act_registry a);
  aw_boot : act_boot_id a <> "";
  aw_fingerprint : act_device_fingerprint a <> "";
}.

Lemma entry_of_valid t e :
  frequency_target_wf t -> entry_of t e -> frequency_entry_valid (ft_id t) e.
Proof.
  intros Hwf [E1 E2 E3 E4 E5 E6 E7 E8]. pose proof Hwf as [P1 P2 _ _ _ _ _ _ _].
  constructor; rewrite ?E1, ?E2, ?E3; try done.
  exists t. split_and!; try done.
  - exists (frequency_manifest t). rewrite E1, E2, E3. simpl. split_and!; try done.
    + apply path_eqb_refl.
    + apply path_eqb_refl.
    + by apply frequency_manifest_rebuilds.
  - rewrite E5. by apply hardware_limits_valid.
Qed.

Lemma scalar_entry_of_valid es t e :
  scalar_target_wf t -> scalar_entry_of t e -> es !! sct_id t = None ->
  scalar_entry_valid es (sct_id t) e.
Proof.
  intros Hwf [E1 E2 E3 E4 E5 E6] Hn. pose proof Hwf as [P1 _].
  constructor; rewrite ?E1, ?E2; try done.
  exists t. split_and!; try done. exists (scalar_manifest t). rewrite E1, E2. simpl.
  split_and!; try done; [apply path_eqb_refl|by apply scalar_manifest_rebuilds].
Qed.

Lemma owned_claims r es ss :
  entries_owned r es -> scalars_owned r ss ->
  shape_claims (entry_shape <$> es) (scalar_shape <$> ss) ⊆+ registry_claims r.
Proof.
  intros He Hs. apply shape_claims_subseteq; apply map_subseteq_spec; intros id s
    (e & <- & Hl)%lookup_fmap_Some; apply lookup_fmap_Some.
  - destruct (He id e Hl) as (t & Ht & Heo). exists t. split; [|done].
    destruct Heo as [_ E2 E3 _ _ _ _ _]. unfold target_shape, entry_shape. by rewrite E2, E3.
  - destruct (Hs id e Hl) as (t & Ht & Heo). exists t. split; [|done].
    destruct Heo as [_ E2 _ _ _ _]. unfold scalar_target_shape, scalar_shape. by rewrite E2.
Qed.

(** An owned journal with valid task and unit entries is valid. *)
Lemma owned_valid a j :
  actuator_wf a -> journal_owned a j ->
  (forall key e, j_tasks j !! key = Some e ->
     key = task_journal_key (te_identity e) /\ task_entry_valid e) /\
  (forall key e, j_units j !! key = Some e -> unit_entry_valid key e) ->
  journal_valid j.
Proof.
  intros [[W1 W2 W3 W4] Hb Hf] [[H1 H2 H3] He Hs] [Ht Hu]. constructor; try done.
  - by rewrite H2.
  - by rewrite H3.
  - intros id e Hl. destruct (He id e Hl) as (t & Hin & Heo). destruct (W1 id t Hin) as [<- Hwf].
    by apply entry_of_valid.
  - intros id e Hl. destruct (Hs id e Hl) as (t & Hin & Heo). destruct (W2 id t Hin) as [Hid Hwf].
    rewrite <- Hid. apply scalar_entry_of_valid; [done|done|]. rewrite Hid.
    apply eq_None_not_Some. intros [e' He']. destruct (He id e' He') as (t' & Hin' & _).
    rewrite (W3 id) in Hin' by eauto. done.
  - eapply NoDup_submseteq_r; [by apply owned_claims|done].
Qed.

Lemma entry_claims j id e :
  j_entries j !! id = Some e ->
  components (je_min_path e) ∈ journal_claims j /\ components (je_max_path e) ∈ journal_claims j.
Proof. intros He. split; apply elem_of_journal_claims; left; eauto. Qed.

Lemma scalar_entry_claims j id e :
  j_scalars j !! id = Some e -> components (se_path e) ∈ journal_claims j.
Proof. intros He. apply elem_of_journal_claims. right. eauto. Qed.

(** An updated entry of the same target keeps the claims. *)
Lemma entries_owned_insert r es id t e :
  entries_owned r es -> reg_targets r !! id = Some t -> entry_of t e ->
  entries_owned r (<[id := e]> es).
Proof.
  intros He Ht Heo id' e' [[<- <-]|[_ Hl]]%lookup_insert_Some; [eauto|by apply He].
Qed.

Lemma scalars_owned_insert r es id t e :
  scalars_owned r es -> reg_scalar_targets r !! id = Some t -> scalar_entry_of t e ->
  scalars_owned r (<[id := e]> es).
Proof.
  intros He Ht Heo id' e' [[<- <-]|[_ Hl]]%lookup_insert_Some; [eauto|by apply He].
Qed.
