(* ===== verification/FrequencySafety.v ===== *)
(** * Safety of the frequency transactions

    Each transaction keeps the invariant: whatever the ports answer, every
    write is covered by every journal that could be durable at that moment, and
    a completed operation leaves the journal owning what it must. *)

From S2P Require Import Prelude Domain Text Strings ActuatorTypes Scalars Targets Journal JournalFacts Ports FrequencyOps ScalarOps Ownership.

(** ** The invariant *)

Section invariant.
Context {W : Type} (a : Actuator) (d0 : list (option Journal)).

Definition ready (s : St W) : Prop :=
  rt_mode (st_rt s) = ReadWrite /\ rt_recovery_required (st_rt s) = false.

#[local] Abbreviation journal s := (rt_journal (st_rt s)).

Definition inv (s : St W) : Prop :=
  log_ok d0 (st_log s) /\
  (rt_mode (st_rt s) = ReadWrite ->
     guarded d0 (journal_claims (journal s)) (st_log s) /\
     if rt_recovery_required (st_rt s) then journal_valid (journal s)
     else journal_owned a (journal s)).

(** After an operation: the log is fine, and unless it panicked the invariant
    holds again. *)
Definition post {A} (r : res A ActuatorError) (s : St W) : Prop :=
  log_ok d0 (st_log s) /\ (r <> Panic -> inv s).

Lemma inv_degraded s reason :
  log_ok d0 (st_log s) -> inv (with_rt s (with_mode (st_rt s) (ReadOnlyDegraded reason))).
Proof. intros Hl. by split. Qed.

Lemma inv_log_ok s : inv s -> log_ok d0 (st_log s).
Proof. by intros [? _]. Qed.

Lemma inv_ready s :
  inv s -> ready s ->
  guarded d0 (journal_claims (journal s)) (st_log s) /\ journal_owned a (journal s).
Proof. intros [_ Hi] [Hm Hr]. specialize (Hi Hm). by rewrite Hr in Hi. Qed.

Lemma ready_inv s :
  ready s -> guarded d0 (journal_claims (journal s)) (st_log s) -> journal_owned a (journal s) ->
  inv s.
Proof. intros [Hm Hr] Hg Ho. split; [apply Hg|]. intros _. by rewrite Hr. Qed.

Lemma post_inv {A} (r : res A ActuatorError) s : inv s -> post r s.
Proof. intros Hi. split; [by apply inv_log_ok|done]. Qed.

(** A failed transaction has no effect on the runtime state, or degrades it. *)
Definition atomic {A} (s0 : St W) (r : res A ActuatorError) (s : St W) : Prop :=
  forall e, r = Err e -> st_rt s = st_rt s0 \/ exists reason, rt_mode (st_rt s) = ReadOnlyDegraded reason.

Definition post_from {A} (s0 : St W) (r : res A ActuatorError) (s : St W) : Prop :=
  post r s /\ atomic s0 r s.

Lemma post_same {A} s0 (r : res A ActuatorError) s :
  inv s -> st_rt s = st_rt s0 -> post_from s0 r s.
Proof. intros Hi Hrt. split; [by apply post_inv|]. intros e _. by left. Qed.

Lemma post_degraded {A} s0 (r : res A ActuatorError) s reason :
  log_ok d0 (st_log s) ->
  post_from s0 r (with_rt s (with_mode (st_rt s) (ReadOnlyDegraded reason))).
Proof. intros Hl. split; [by apply post_inv, inv_degraded|]. intros e _. right. by eexists. Qed.

Lemma post_ok {A} s0 (x : A) s : inv s -> post_from s0 (Ok x) s.
Proof. intros Hi. by split; [apply post_inv|]. Qed.

Lemma post_panic {A} s0 s : log_ok d0 (st_log s) -> post_from (A := A) s0 Panic s.
Proof. intros Hl. by split; [split|]. Qed.

Lemma quiet_step_inv P s s' :
  quiet_step P s s' -> (forall k, P k -> False) -> inv s -> inv s'.
Proof.
  intros [Hrt (evs & Hlog & Hq)] HP [Hl Hi].
  assert (Hg : forall K, guarded d0 K (st_log s) -> guarded d0 K (st_log s')).
  { intros K HK. rewrite Hlog. eapply guarded_quiet; [done| |done]. by intros k ?%HP. }
  split.
  - assert (H0 : guarded d0 [] (st_log s)) by (split; [done|set_solver]). by apply Hg in H0 as [? _].
  - rewrite Hrt. intros Hm. destruct (Hi Hm). auto.
Qed.
End invariant.

Abbreviation journal_of s := (rt_journal (st_rt s)).

Section general_rules.
Context {W : Type} `{!Ports W} `{JournalCodec}.
Context (d0 : list (option Journal)).

(** [ensure_mutation_ready]: an actuator that is not ready is left alone. *)
Lemma wp_ensure_ready (Q : res unit ActuatorError -> St W -> Prop) s :
  (ready s -> Q (Ok tt) s) -> (forall e, ~ ready s -> Q (Err e) s) -> wp ensure_mutation_ready Q s.
Proof.
  unfold ready, wp. intros HQ HE. unfold ensure_mutation_ready, ensure_read_write, get_rt.
  unfold mbind, M_bind. simpl. destruct (rt_mode (st_rt s)) eqn:Em; simpl.
  - destruct (rt_recovery_required (st_rt s)) eqn:Er; simpl; [|by apply HQ].
    apply HE. by intros [_ ?].
  - apply HE. by intros [? _].
Qed.

Lemma wp_for_fold {A S} (I : S -> St W -> Prop) (E : St W -> Prop) (f : S -> A -> M W S) l acc s :
  I acc s ->
  (forall acc x s, x ∈ l -> I acc s ->
     wp (f acc x) (fun r s' => match r with Ok acc' => I acc' s' | _ => E s' end) s) ->
  wp (for_fold f acc l) (fun r s' => match r with Ok acc' => I acc' s' | _ => E s' end) s.
Proof.
  revert acc s. induction l as [|x l IH]; intros acc s Hi Hf; simpl; [done|].
  apply wp_bind. eapply wp_mono; [apply Hf; [set_solver|done]|].
  intros [acc'|e|] s' Hs; [|done|done]. apply IH; [done|]. intros. apply Hf; [set_solver|done].
Qed.

(** [persist_or_remove_locked]: success makes the journal durable, failure
    degrades the actuator. *)
Lemma wp_persist_or_remove_locked what (Q : res unit ActuatorError -> St W -> Prop) s :
  log_ok d0 (st_log s) -> (others_valid (journal_of s) -> journal_valid (journal_of s)) ->
  (forall s', st_rt s' = st_rt s -> guarded d0 (journal_claims (journal_of s)) (st_log s') ->
     Q (Ok tt) s') ->
  (forall e s' reason, log_ok d0 (st_log s') ->
     st_rt s' = with_mode (st_rt s) (ReadOnlyDegraded reason) -> Q (Err e) s') ->
  wp (persist_or_remove_locked what) Q s.
Proof.
  intros Hl Hv HOk HErr. unfold persist_or_remove_locked.
  apply wp_bind, wp_get_journal, wp_bind, wp_attempt.
  eapply (wp_persist_or_remove d0); [exact Hl|exact Hv|]. intros [[]|e|] s' Hp Hrt Hl' Hg.
  - apply HOk; [done|auto].
  - apply wp_degrade. eapply HErr; [exact Hl'|]. simpl. by rewrite Hrt.
  - done.
Qed.

Lemma guarded_step P (s s' : St W) K :
  quiet_step P s s' -> guarded d0 K (st_log s) -> (forall k, P k -> k ∈ K) ->
  guarded d0 K (st_log s').
Proof.
  intros [_ (evs & -> & Hq)] Hg HP. by eapply guarded_quiet.
Qed.

End general_rules.

Section rules.
Context {W : Type} `{!Ports W} `{JournalCodec}.
Context (a : Actuator) (Hwf : actuator_wf a) (d0 : list (option Journal)).

Lemma wp_persist_owned j (Q : res unit ActuatorError -> St W -> Prop) s :
  log_ok d0 (st_log s) -> journal_owned a j ->
  (forall r s', r <> Panic -> st_rt s' = st_rt s -> log_ok d0 (st_log s') ->
     (r = Ok tt -> guarded d0 (journal_claims j) (st_log s')) ->
     (forall K, guarded d0 K (st_log s) -> (forall k, k ∈ K -> k ∈ journal_claims j) ->
        guarded d0 K (st_log s')) -> Q r s') ->
  wp (persist_journal j) Q s.
Proof using Hwf.
  intros Hl Ho HQ. eapply (wp_persist d0); [exact Hl| |exact HQ].
  intros Hoth. eapply owned_valid; [exact Hwf|exact Ho|exact Hoth].
Qed.

(** *** Aborting a durable transaction *)

(** Two ready states differ in their journals only. *)
Lemma ready_same (s0 s1 s2 : St W) :
  ready s0 -> ready s1 -> st_rt s2 = with_journal (st_rt s1) (rt_journal (st_rt s0)) ->
  st_rt s2 = st_rt s0.
Proof.
  unfold ready. intros [M0 R0] [M1 R1] ->. unfold with_journal. rewrite M1, R1.
  destruct (st_rt s0). simpl in *. by subst.
Qed.

Lemma wp_abort_batch {A} (rollback : M W unit) P s0 what operation target error s K :
  quiet P (fun _ => True) rollback -> (forall k, P k -> k ∈ K) ->
  guarded d0 K (st_log s) -> ready s -> ready s0 -> journal_owned a (journal_of s0) ->
  wp (abort_batch (A := A) rollback (journal_of s0) what operation target error)
    (post_from a d0 s0) s.
Proof using Hwf.
  intros Hq HP Hg Hr Hr0 Hb. unfold abort_batch. apply wp_bind, wp_attempt.
  eapply wp_quiet; [exact Hq|]. intros r s1 Hs1 _.
  assert (Hg1 : guarded d0 K (st_log s1)) by by eapply guarded_step.
  destruct Hs1 as [Hrt1 _]. destruct r as [[]|e|].
  - apply wp_bind, wp_put_journal, wp_bind, wp_attempt.
    apply (wp_persist_or_remove_locked d0); [apply Hg1| | |].
    + intros Hoth. eapply owned_valid; [exact Hwf|exact Hb|exact Hoth].
    + intros s2 Hrt2 Hg2.
      assert (Hsame : st_rt s2 = st_rt s0).
      { eapply ready_same; [done|exact Hr|]. rewrite Hrt2. simpl. by rewrite Hrt1. }
      apply wp_fail, post_same; [|done]. apply ready_inv; unfold ready; by rewrite Hsame || rewrite Hrt2.
    + intros e s2 reason Hl2 Hrt2. apply wp_degrade, post_degraded. exact Hl2.
  - apply wp_degrade, post_degraded, Hg1.
  - apply post_panic, Hg1.
Qed.

Lemma wp_abort_unrecorded {A} (rollback : M W unit) P s0 before what operation error s K :
  quiet P (fun _ => True) rollback -> (forall k, P k -> k ∈ K) ->
  guarded d0 K (st_log s) -> journal_owned a before ->
  wp (abort_unrecorded (A := A) rollback before what operation error) (post_from a d0 s0) s.
Proof using Hwf.
  intros Hq HP Hg Hb. unfold abort_unrecorded. apply wp_bind, wp_attempt.
  eapply wp_quiet; [exact Hq|]. intros r s1 Hs1 _.
  assert (Hg1 : guarded d0 K (st_log s1)) by by eapply guarded_step.
  destruct r as [[]|e|].
  - apply wp_bind, wp_put_journal, wp_bind, wp_attempt.
    apply (wp_persist_or_remove_locked d0); [apply Hg1| | |].
    + intros Hoth. eapply owned_valid; [exact Hwf|exact Hb|exact Hoth].
    + intros s2 _ Hg2. apply wp_degrade, post_degraded, Hg2.
    + intros e s2 reason Hl2 _. apply wp_degrade, post_degraded. exact Hl2.
  - apply wp_degrade, post_degraded, Hg1.
  - apply post_panic, Hg1.
Qed.
End rules.

(** ** Preparation *)

Definition no_paths : path_key -> Prop := fun _ => False.

Definition mutation_id (m : PreparedFrequencyMutation) : string := ft_id (pf_target m).

(** A prepared mutation: a registered target and representable requests. *)
Record prepared_ok (a : Actuator) (j : Journal) (m : PreparedFrequencyMutation) : Prop := {
  pok_target : reg_targets (act_registry a) !! mutation_id m = Some (pf_target m);
  pok_previous : validate_limits (pf_target m) (pf_previous_request m) = Ok tt;
  pok_desired : validate_limits (pf_target m) (pf_desired_request m) = Ok tt;
  pok_owner : pf_previous_request m =
    from_option je_desired (hardware_limits (pf_target m)) (j_entries j !! mutation_id m);
}.

Section preparing.
Context {W : Type}.

(** The state of the preparation loop started at [s0]. *)
Definition preparing (Q : PreparedFrequencyMutation -> Prop) (s0 : St W)
    (acc : gset string * list PreparedFrequencyMutation) (s : St W) : Prop :=
  quiet_step no_paths s0 s /\ NoDup (mutation_id <$> acc.2) /\
  (forall m, m ∈ acc.2 -> mutation_id m ∈ acc.1 /\ Q m).

Lemma preparing_start Q s : preparing Q s (∅, []) s.
Proof. split_and!; [apply quiet_step_refl|constructor|set_solver]. Qed.

Lemma preparing_snoc Q s0 seen prepared s s' m :
  preparing Q s0 (seen, prepared) s -> quiet_step no_paths s s' ->
  mutation_id m ∉ seen -> Q m ->
  preparing Q s0 ({[ mutation_id m ]} ∪ seen, prepared ++ [m]) s'.
Proof.
  intros (Hs & Hnd & Hall) Hs' Hm Hq. split_and!.
  - by eapply quiet_step_trans.
  - simpl in *. rewrite fmap_app. apply NoDup_app. split_and!; [done| |apply NoDup_singleton].
    intros id (m' & -> & Hin)%list_elem_of_fmap Hx%list_elem_of_singleton.
    destruct (Hall m' Hin) as [Hs1 _]. by rewrite Hx in Hs1.
  - intros m' [Hin| ->%list_elem_of_singleton]%elem_of_app; simpl.
    + destruct (Hall m' Hin). set_solver.
    + set_solver.
Qed.

End preparing.

Section preparation.
Context {W : Type} `{!Ports W} `{JournalCodec}.
Context (a : Actuator) (Hwf : actuator_wf a).

Lemma registered id t :
  get (act_registry a) id = Some t -> ft_id t = id /\ frequency_target_wf t.
Proof using Hwf. apply (rw_targets _ (aw_registry _ Hwf)). Qed.

(** What [prepare_request] adds: whether it needs a write is decided by
    ownership. *)
Record requested_ok (j : Journal) (m : PreparedFrequencyMutation) : Prop := {
  rok_prepared : prepared_ok a j m;
  rok_write : pf_needs_write m = true ->
    match j_entries j !! mutation_id m with
    | Some e => je_desired e <> pf_desired_request m
    | None => pf_before_effective m = hardware_limits (pf_target m)
    end;
  rok_noop : pf_needs_write m = false ->
    match j_entries j !! mutation_id m with
    | Some e => je_desired e = pf_desired_request m
    | None => pf_before_effective m = pf_desired_request m
    end;
}.

Lemma wp_prepare_request s0 acc request s :
  entries_owned (act_registry a) (j_entries (journal_of s0)) ->
  preparing (requested_ok (journal_of s0)) s0 acc s ->
  wp (prepare_request a acc request)
    (fun r s' => match r with
                 | Ok acc' => preparing (requested_ok (journal_of s0)) s0 acc' s'
                 | _ => quiet_step no_paths s0 s'
                 end) s.
Proof using Hwf.
  destruct acc as [seen prepared]. intros Hown Hprep. pose proof Hprep as [Hs0 _].
  unfold prepare_request. apply wp_bind.
  destruct (decide (fr_target request ∈ seen)) as [|Hseen]; [by apply wp_fail|].
  apply wp_ret, wp_bind, wp_lift.
  destruct (get (act_registry a) (fr_target request)) as [t|] eqn:Ht; [|done].
  destruct (registered _ _ Ht) as [Hid Htwf]. simpl.
  apply wp_bind, wp_lift.
  destruct (snap_limits t (fr_limits request)) as [desired|e|] eqn:Hsnap; [|done..].
  destruct (snap_limits_spec t Htwf _ _ Hsnap) as (Hdes & _ & _).
  apply wp_bind. eapply wp_quiet; [apply (quiet_read_limits no_paths)|].
  intros [before|e|] s1 Hs1 _; [|by eapply quiet_step_trans..].
  apply wp_bind, wp_get_journal. pose proof Hs1 as [Hrt1 _]. pose proof Hs0 as [Hrt0 _].
  rewrite Hrt1, Hrt0. set (j := journal_of s0) in *.
  apply wp_bind. destruct (_ && _) eqn:Eclaim; [apply wp_fail; by eapply quiet_step_trans|].
  apply wp_ret, wp_ret. rewrite <- Hid in *. clear Hid.
  match goal with |- preparing _ _ (_, _ ++ [?x]) _ => set (m := x) end.
  change ({[ft_id t]} ∪ seen) with ({[mutation_id m]} ∪ seen).
  apply (preparing_snoc _ s0 seen prepared s s1 m Hprep Hs1 Hseen).
  assert (Hpok : prepared_ok a j m).
  { constructor; [done| |done|done].
    subst m. simpl. destruct (j_entries j !! ft_id t) as [e|] eqn:He; simpl.
    - destruct (Hown _ _ He) as (t' & Ht' & [_ _ _ _ _ Hd _ _]).
      unfold get in Ht. rewrite Ht in Ht'. by injection Ht' as <-.
    - by apply hardware_limits_valid. }
  constructor; [done|..]; subst m; unfold mutation_id; simpl; clear Hpok;
    destruct (j_entries j !! ft_id t) as [e|] eqn:He; simpl in *.
  - by rewrite bool_decide_eq_true.
  - intros Hn. rewrite Hn in Eclaim. simpl in Eclaim.
    rewrite bool_decide_eq_false in Eclaim. by apply dec_stable.
  - rewrite bool_decide_eq_false. apply dec_stable.
  - rewrite negb_false_iff. apply bool_decide_eq_true.
Qed.
End preparation.

(** ** The pre-mutation journal *)

Section claiming.
Context (a : Actuator) (Hwf : actuator_wf a).

Definition pending (es : gmap string JournalEntry) (m : PreparedFrequencyMutation) : Prop :=
  exists e, es !! mutation_id m = Some e /\ je_desired e = pf_desired_request m.

Lemma entry_of_transition t e applied desired pairs :
  entry_of t e -> validate_limits t applied = Ok tt -> validate_limits t desired = Ok tt ->
  pairs = transaction_legal_pairs applied desired ->
  entry_of t (set_transition e applied desired pairs).
Proof. intros [? ? ? ? ? ? ? ?] Ha Hd ->. by constructor. Qed.

Lemma entry_of_new j m :
  prepared_ok a j m -> entry_of (pf_target m) (new_entry m).
Proof. intros [_ Hp _ _]. constructor; try done. simpl. by rewrite legal_pairs_self. Qed.

(** Claiming one target keeps every entry owned, and makes it pending. *)
Lemma claim_entry_owned j es m :
  prepared_ok a j m -> entries_owned (act_registry a) es ->
  entries_owned (act_registry a) (claim_entry es m) /\ pending (claim_entry es m) m /\
  forall id, id <> mutation_id m -> claim_entry es m !! id = es !! id.
Proof.
  intros Hm Hes. pose proof Hm as [Ht Hp Hd _]. unfold claim_entry. fold (mutation_id m).
  assert (Heo : entry_of (pf_target m) (default (new_entry m) (es !! mutation_id m))).
  { destruct (es !! mutation_id m) as [e|] eqn:E; simpl; [|by eapply entry_of_new].
    destruct (Hes _ _ E) as (t & Ht' & Heo). rewrite Ht in Ht'. by injection Ht' as <-. }
  split_and!.
  - eapply entries_owned_insert; [exact Hes|exact Ht|]. by apply entry_of_transition.
  - eexists. split; [by rewrite lookup_insert, decide_True|done].
  - intros id Hne. by rewrite lookup_insert_ne.
Qed.

Lemma claim_entry_dom es m id : is_Some (es !! id) -> is_Some (claim_entry es m !! id).
Proof. unfold claim_entry. intros H. apply lookup_insert_is_Some. destruct (decide (ft_id (pf_target m) = id)); auto. Qed.

Lemma claim_fold_owned j ms es :
  (forall m, m ∈ ms -> prepared_ok a j m) -> NoDup (mutation_id <$> ms) ->
  entries_owned (act_registry a) es ->
  entries_owned (act_registry a) (foldl claim_entry es ms) /\
  (forall m, m ∈ ms -> pending (foldl claim_entry es ms) m) /\
  (forall id, id ∉ mutation_id <$> ms -> foldl claim_entry es ms !! id = es !! id).
Proof.
  revert es. induction ms as [|m ms IH]; intros es Hok Hnd Hes; simpl; [split_and!; set_solver|].
  rewrite fmap_cons, NoDup_cons in Hnd. destruct Hnd as [Hm Hnd].
  destruct (claim_entry_owned j es m) as (H1 & (e & He & Hd) & H3); [apply Hok; set_solver|done|].
  destruct (IH (claim_entry es m)) as (I1 & I2 & I3); [set_solver|done|done|].
  split_and!; [done| |].
  - intros m' [->|Hin]%elem_of_cons; [|by apply I2]. exists e. by rewrite I3.
  - intros id Hid. apply not_elem_of_cons in Hid as [? ?]. by rewrite I3, H3.
Qed.

(** The journal [apply_batch] stores before it writes. *)
Lemma claim_entries_owned j ms :
  journal_owned a j -> (forall m, m ∈ ms -> prepared_ok a j m) -> NoDup (mutation_id <$> ms) ->
  journal_owned a (claim_entries j ms) /\
  forall m, m ∈ ms -> pf_needs_write m = true -> pending (j_entries (claim_entries j ms)) m.
Proof.
  intros [[H1 H2 H3] He Hs] Hok Hnd.
  destruct (claim_fold_owned j (List.filter pf_needs_write ms) (j_entries j)) as (I1 & I2 & _).
  - intros m [Hm _]%elem_of_filter_bool. auto.
  - by apply NoDup_fmap_filter.
  - done.
  - split; [by constructor|]. intros m Hm Hw. apply I2, elem_of_filter_bool. done.
Qed.
End claiming.

(** ** The write loop *)

Definition same_claims (j j' : Journal) : Prop :=
  entry_shape <$> j_entries j = entry_shape <$> j_entries j' /\
  scalar_shape <$> j_scalars j = scalar_shape <$> j_scalars j'.

Lemma same_claims_journal j j' : same_claims j j' -> journal_claims j = journal_claims j'.
Proof. intros [He Hs]. unfold journal_claims. by rewrite He, Hs. Qed.

Lemma same_claims_trans j1 j2 j3 : same_claims j1 j2 -> same_claims j2 j3 -> same_claims j1 j3.
Proof. intros [? ?] [? ?]. split; congruence. Qed.

Lemma fmap_insert_same {A B} (f : A -> B) (m : gmap string A) i x y :
  m !! i = Some x -> f y = f x -> f <$> <[i := y]> m = f <$> m.
Proof.
  intros Hx Hf. rewrite fmap_insert, Hf. apply insert_id. by rewrite lookup_fmap, Hx.
Qed.

(** Updating an entry in place keeps the claims. *)
Lemma same_claims_update j id e e' :
  j_entries j !! id = Some e -> entry_shape e' = entry_shape e ->
  same_claims (with_entries j (<[id := e']> (j_entries j))) j.
Proof. intros He Hs. split; [|done]. by eapply fmap_insert_same. Qed.

Section write_loop.
Context {W : Type} `{!Ports W} `{JournalCodec}.
Context (d0 : list (option Journal)).
Context (from : PreparedFrequencyMutation -> FrequencyLimits).
Context (record_ : string -> FrequencyLimits -> M W unit).
Context (I : list PreparedFrequencyMutation -> St W -> Prop).

(** The indexes of mutations that need a write. *)
Definition attempted_ok (prepared : list PreparedFrequencyMutation) (is_ : list nat) : Prop :=
  Forall (fun i => exists m, prepared !! i = Some m /\ pf_needs_write m = true) is_.

Hypothesis skip : forall m l s, pf_needs_write m = false -> I (m :: l) s -> I l s.
Hypothesis write : forall m l s s', pf_needs_write m = true -> I (m :: l) s ->
  quiet_step (target_paths (pf_target m)) s s' -> I (m :: l) s'.
Hypothesis record_step : forall m l s, pf_needs_write m = true -> I (m :: l) s ->
  validate_limits (pf_target m) (pf_desired_request m) = Ok tt ->
  wp (record_ (mutation_id m) (pf_desired_request m))
    (fun r s' => r = Ok tt /\ I l s') s.
Hypothesis ok : forall l s, I l s -> log_ok d0 (st_log s).

Lemma wp_write_batch prepared l index applied attempted s :
  I l s -> (forall k, l !! k = prepared !! (index + k)%nat) -> attempted_ok prepared attempted ->
  wp (write_batch from record_ index l applied attempted)
    (fun r s' => match r with
                 | Ok o => attempted_ok prepared (wo_attempted o) /\
                     match wo_failure o with
                     | None => I [] s'
                     | Some _ => exists l', I l' s'
                     end
                 | Err _ => False
                 | Panic => log_ok d0 (st_log s')
                 end) s.
Proof using skip write record_step ok.
  revert index applied attempted s.
  induction l as [|m l IH]; intros index applied attempted s Hi Hl Hatt; simpl.
  { by apply wp_ret. }
  assert (Hl' : forall k, l !! k = prepared !! (S index + k)%nat).
  { intros k. specialize (Hl (S k)). by rewrite Nat.add_succ_r in Hl. }
  destruct (pf_needs_write m) eqn:Hw; simpl.
  2: { apply IH; [by eapply skip|done|done]. }
  assert (Hatt' : attempted_ok prepared (attempted ++ [index])).
  { apply Forall_app. split; [done|]. apply Forall_singleton. exists m.
    split; [|done]. rewrite <- (Nat.add_0_r index). by rewrite <- (Hl 0%nat). }
  apply wp_bind, wp_attempt. eapply wp_quiet; [apply quiet_apply_requested|].
  intros r s1 Hs1 Hr. assert (Hi1 : I (m :: l) s1) by by eapply write.
  destruct r as [actual|e|].
  - destruct (Hr actual eq_refl) as [-> Hv]. apply wp_bind.
    eapply wp_mono; [by apply record_step|]. intros r s2 [-> Hi2]. by apply IH.
  - apply wp_ret. split; [done|]. simpl. eauto.
  - by eapply ok.
Qed.
End write_loop.

(** ** [apply_batch] *)

Section apply_batch.
Context {W : Type} `{!Ports W} `{JournalCodec}.
Context (a : Actuator) (d0 : list (option Journal)).

Lemma owned_target_paths j m k :
  entries_owned (act_registry a) (j_entries j) ->
  reg_targets (act_registry a) !! mutation_id m = Some (pf_target m) ->
  is_Some (j_entries j !! mutation_id m) ->
  target_paths (pf_target m) k -> k ∈ journal_claims j.
Proof.
  intros Hown Ht [e He] Hk. destruct (Hown _ _ He) as (t & Ht' & Heo).
  rewrite Ht in Ht'. injection Ht' as <-. destruct Heo as [_ E2 E3 _ _ _ _ _].
  destruct (entry_claims _ _ _ He) as [H1 H2]. rewrite E2 in H1. rewrite E3 in H2.
  by destruct Hk as [->| ->].
Qed.

Definition registered_pending (es : gmap string JournalEntry) (m : PreparedFrequencyMutation)
  : Prop :=
  reg_targets (act_registry a) !! mutation_id m = Some (pf_target m) /\ pending es m.

Definition slow_inv (J : Journal) (l : list PreparedFrequencyMutation) (s : St W) : Prop :=
  guarded d0 (journal_claims J) (st_log s) /\ ready s /\ journal_owned a (journal_of s) /\
  same_claims (journal_of s) J /\
  forall m, m ∈ l -> pf_needs_write m = true -> registered_pending (j_entries (journal_of s)) m.

Lemma slow_paths J l s m k :
  slow_inv J (m :: l) s -> pf_needs_write m = true -> target_paths (pf_target m) k ->
  k ∈ journal_claims J.
Proof.
  intros (_ & _ & Ho & Hs & Hp) Hw Hk. rewrite <- (same_claims_journal _ _ Hs).
  destruct (Hp m ltac:(set_solver) Hw) as (Ht & e & He & _).
  eapply owned_target_paths; [apply Ho|exact Ht|eauto|exact Hk].
Qed.

Lemma slow_write J m l s s' :
  pf_needs_write m = true -> slow_inv J (m :: l) s -> quiet_step (target_paths (pf_target m)) s s' ->
  slow_inv J (m :: l) s'.
Proof.
  intros Hw Hi Hs. pose proof Hi as (Hg & Hr & Ho & Hc & Hp). pose proof Hs as [Hrt _].
  unfold slow_inv, ready. rewrite Hrt. split_and!; try done; [|apply Hr|apply Hr].
  eapply guarded_step; [exact Hs|exact Hg|]. intros k Hk. by eapply slow_paths.
Qed.

Lemma record_applied_ok J m l s :
  pf_needs_write m = true -> slow_inv J (m :: l) s ->
  validate_limits (pf_target m) (pf_desired_request m) = Ok tt ->
  wp (record_applied (mutation_id m) (pf_desired_request m))
    (fun r s' => r = Ok tt /\ slow_inv J l s') s.
Proof.
  intros Hw (Hg & Hr & Ho & Hc & Hp) Hv. unfold record_applied.
  apply wp_bind, wp_get_journal.
  destruct (Hp m ltac:(set_solver) Hw) as (Ht & e & He & Hd). rewrite He.
  apply wp_put_journal. split; [done|].
  assert (Heo : entry_of (pf_target m) e).
  { destruct Ho as [_ Ho _]. destruct (Ho _ _ He) as (t & Ht' & Heo).
    rewrite Ht in Ht'. by injection Ht' as <-. }
  set (e' := set_transition e _ _ _).
  split; [exact Hg|]. split; [exact Hr|]. split_and!.
  - destruct Ho as [[H1 H2 H3] He' Hs]. constructor; [by constructor| |done].
    eapply entries_owned_insert; [exact He'|exact Ht|]. subst e'.
    apply entry_of_transition; [done|done|by rewrite Hd|].
    by rewrite Hd, legal_pairs_self.
  - eapply same_claims_trans; [|exact Hc]. by eapply same_claims_update.
  - intros m' Hm' Hw'. destruct (Hp m' ltac:(set_solver) Hw') as (Ht' & e1 & He1 & Hd1).
    split; [done|]. simpl. destruct (decide (mutation_id m = mutation_id m')) as [Heq|Hne].
    + exists e'. rewrite <- Heq in He1 |- *. rewrite He in He1. injection He1 as <-.
      split; [by rewrite lookup_insert, decide_True|done].
    + exists e1. by rewrite lookup_insert_ne.
Qed.

(** Rolling back writes only what was attempted. *)
Lemma quiet_rollback P prepared is_ :
  (forall i m, i ∈ is_ -> prepared !! i = Some m -> forall k, target_paths (pf_target m) k -> P k) ->
  quiet P (fun _ => True) (rollback_frequency_requests prepared is_).
Proof.
  intros HP. unfold rollback_frequency_requests.
  eapply (quiet_bind _ (fun _ => True)).
  - apply quiet_for_fold; [done|]. intros acc i Hi _. unfold rollback_one.
    rewrite list_elem_of_In, <- in_rev, <- list_elem_of_In in Hi.
    destruct (prepared !! i) as [m|] eqn:Hm; [|apply quiet_panic].
    eapply (quiet_bind _ (fun _ => True)).
    + eapply quiet_any, quiet_attempt, quiet_weaken; [apply quiet_restore_request| |done].
      intros k Hk. by eapply HP.
    + intros [] _; by apply quiet_ret.
  - intros failures _. unfold rollback_result. destruct failures; [by apply quiet_ret|apply quiet_fail].
Qed.

Lemma attempted_paths prepared is_ J l s (Hl : forall m, m ∈ prepared -> m ∈ l) :
  slow_inv J l s -> attempted_ok prepared is_ ->
  forall i m, i ∈ is_ -> prepared !! i = Some m -> forall k, target_paths (pf_target m) k ->
  k ∈ journal_claims J.
Proof.
  intros (_ & _ & Ho & Hs & Hp) Hatt i m Hi Hm k Hk.
  unfold attempted_ok in Hatt. rewrite Forall_forall in Hatt.
  destruct (Hatt i Hi) as (m' & Hm' & Hw). rewrite Hm in Hm'. injection Hm' as <-.
  rewrite <- (same_claims_journal _ _ Hs).
  destruct (Hp m) as (Ht & e & He & _); [by eapply Hl, list_elem_of_lookup_2|done|].
  eapply owned_target_paths; [apply Ho|exact Ht|eauto|exact Hk].
Qed.

Context (Hwf : actuator_wf a).

Lemma wp_apply_batch requests s :
  inv a d0 s -> wp (apply_batch a requests) (post_from a d0 s) s.
Proof using Hwf.
  intros Hinv. unfold apply_batch. apply wp_bind, wp_ensure_ready; [|intros; by apply post_same].
  intros Hready. destruct (inv_ready _ _ _ Hinv Hready) as [Hg Ho].
  destruct requests as [|request requests]; [by apply wp_ret, post_ok|].
  apply wp_bind. eapply wp_mono.
  { apply (wp_for_fold (preparing (requested_ok a (journal_of s)) s)
      (fun s' => quiet_step no_paths s s')); [apply preparing_start|].
    intros acc x s1 _ Hp. apply wp_prepare_request; [done|apply Ho|done]. }
  intros [[seen prepared]|e|] s1 Hp;
    [|by apply post_same; [eapply quiet_step_inv|apply Hp]..].
  destruct Hp as (Hs1 & Hnd & Hall). simpl in *.
  assert (Hinv1 : inv a d0 s1) by by eapply quiet_step_inv.
  destruct (forallb _ prepared) eqn:Enoop; [by apply wp_ret, post_ok|].
  pose proof Hs1 as [Hrt1 _].
  apply wp_bind, wp_get_journal, wp_bind, wp_put_journal.
  rewrite Hrt1. set (before := journal_of s) in *. set (J := claim_entries before prepared).
  assert (HJ : journal_owned a J /\
    forall m, m ∈ prepared -> pf_needs_write m = true -> pending (j_entries J) m).
  { apply claim_entries_owned; [exact Hwf|exact Ho| |exact Hnd].
    intros m Hm. apply Hall in Hm as [_ [? _ _]]. done. }
  destruct HJ as [HJ Hpend].
  apply wp_bind, wp_attempt, wp_bind, wp_get_journal.
  eapply (wp_persist_owned a Hwf d0); [apply inv_log_ok in Hinv1; exact Hinv1|exact HJ|].
  intros r s2 Hnp Hrt2 Hl2 Hg2 _. simpl in Hrt2.
  destruct r as [[]|e|]; [| |done].
  2: { apply wp_bind, wp_put_journal, wp_degrade, post_degraded. exact Hl2. }
  assert (Hslow : slow_inv J prepared s2).
  { unfold slow_inv, ready. rewrite Hrt2. split_and!; simpl.
    - by apply Hg2.
    - apply Hready.
    - apply Hready.
    - exact HJ.
    - done.
    - intros m Hm Hw. split; [|by apply Hpend]. apply Hall in Hm as [_ [[? _ _ _] _ _]]. done. }
  assert (Hatt : forall is_ s', slow_inv J prepared s' -> attempted_ok prepared is_ ->
    quiet (fun k => k ∈ journal_claims J) (fun _ => True) (rollback_frequency_requests prepared is_)).
  { intros is_ s' Hs' His. apply quiet_rollback. by eapply attempted_paths. }
  apply wp_bind. eapply wp_mono.
  { apply (wp_write_batch d0 pf_previous_request record_applied (slow_inv J)) with (prepared := prepared).
    - intros m l s' _ (H1&H2&H3&H4&Hp). split_and!; try done.
      intros m' Hm'. apply Hp. set_solver.
    - intros m l s' s'' Hw Hi Hq. by eapply slow_write.
    - intros m l s' Hw Hi Hv. by eapply record_applied_ok.
    - intros l s' (Hg' & _). apply Hg'.
    - exact Hslow.
    - done.
    - by constructor. }
  intros [o|e|] s3 Ho3; [|by destruct Ho3|by apply post_panic].
  destruct Ho3 as [Hatt3 Hfail]. specialize (Hatt (wo_attempted o) s2 Hslow Hatt3).
  destruct (wo_failure o) as [[failed error]|].
  - destruct Hfail as (l' & Hg3 & Hr3 & _).
    eapply wp_abort_batch with (K := journal_claims J); [exact Hwf|exact Hatt|done|exact Hg3|exact Hr3|done|exact Ho].
  - destruct Hfail as (Hg3 & Hr3 & Ho3 & Hc3 & _).
    apply wp_bind, wp_attempt, wp_bind, wp_get_journal.
    eapply (wp_persist_owned a Hwf d0); [apply Hg3|exact Ho3|].
    intros [[]|e|] s4 Hnp4 Hrt4 Hl4 Hg4 Hk4; [| |done].
    + apply wp_ret, post_ok, ready_inv; rewrite ?Hrt4; [|by apply Hg4|done].
      unfold ready. by rewrite Hrt4.
    + eapply wp_abort_unrecorded with (K := journal_claims J); [exact Hwf|exact Hatt|done| |exact Ho].
      apply Hk4; [exact Hg3|]. intros k Hk. by rewrite (same_claims_journal _ _ Hc3).
Qed.
End apply_batch.
