(* ===== verification/RestoreSafety.v ===== *)
(** * Safety of the fast frequency path

    [apply_owned_batch_fast] writes without touching the durable journal: it
    may only move targets that journal already claims, and a failure puts every
    entry back exactly. *)

From S2P Require Import Prelude Domain Text Strings ActuatorTypes Scalars Targets Journal JournalFacts Ports FrequencyOps ScalarOps TaskOps UnitOps Recovery Ownership FrequencySafety.

(** ** Entries in transition *)

(** The fields of an entry that no transition touches. *)
Record entry_static (t : FrequencyTarget) (e : JournalEntry) : Prop := {
  es_target : je_target e = ft_id t;
  es_min : je_min_path e = ft_min_path t;
  es_max : je_max_path e = ft_max_path t;
  es_manifest : je_resource_manifest e = FrequencyPair (frequency_manifest t);
  es_original : je_original e = hardware_limits t;
}.

Lemma entry_of_static t e : entry_of t e -> entry_static t e.
Proof. intros [? ? ? ? ? _ _ _]. by constructor. Qed.

Lemma entry_settled t e actual :
  entry_static t e -> validate_limits t actual = Ok tt -> je_desired e = actual ->
  entry_of t (set_transition e actual (je_desired e) [actual]).
Proof. intros [? ? ? ? ?] Hv Hd. constructor; simpl; rewrite ?Hd; try done. by rewrite legal_pairs_self. Qed.

Definition fast_entry (m : PreparedFrequencyMutation) (e : JournalEntry) : JournalEntry :=
  set_transition e (pf_before_effective m) (pf_desired_request m)
    (transaction_legal_pairs (pf_before_effective m) (pf_desired_request m)).

Definition fast_entries (es : gmap string JournalEntry) (ms : list PreparedFrequencyMutation)
  : gmap string JournalEntry :=
  foldl (fun es m => alter (fast_entry m) (mutation_id m) es) es ms.

Lemma fast_entries_ne es ms id :
  id ∉ mutation_id <$> ms -> fast_entries es ms !! id = es !! id.
Proof.
  revert es. induction ms as [|m ms IH]; intros es Hid; simpl; [done|].
  apply not_elem_of_cons in Hid as [Hne Hid]. rewrite IH by done. by rewrite lookup_alter_ne.
Qed.

Lemma fast_entries_in es ms m :
  NoDup (mutation_id <$> ms) -> m ∈ ms ->
  fast_entries es ms !! mutation_id m = fast_entry m <$> es !! mutation_id m.
Proof.
  revert es. induction ms as [|m' ms IH]; intros es Hnd Hm; [set_solver|]. simpl.
  apply NoDup_cons in Hnd as [Hx Hnd]. apply elem_of_cons in Hm as [->|Hm].
  - rewrite fast_entries_ne by done. by rewrite lookup_alter, decide_True.
  - rewrite IH by done. rewrite lookup_alter_ne; [done|]. intros Heq. apply Hx. rewrite Heq.
    by apply list_elem_of_fmap_2.
Qed.

Lemma fast_entries_shape es ms : entry_shape <$> fast_entries es ms = entry_shape <$> es.
Proof.
  revert es. induction ms as [|m ms IH]; intros es; simpl; [done|]. rewrite IH.
  apply map_eq. intros id. rewrite !lookup_fmap.
  destruct (decide (mutation_id m = id)) as [<-|Hne].
  - rewrite lookup_alter, decide_True by done. by destruct (es !! mutation_id m).
  - by rewrite lookup_alter_ne.
Qed.

Lemma fast_entries_some es ms id : is_Some (fast_entries es ms !! id) <-> is_Some (es !! id).
Proof.
  assert (Hd : (entry_shape <$> fast_entries es ms) !! id = (entry_shape <$> es) !! id)
    by by rewrite fast_entries_shape.
  rewrite !lookup_fmap in Hd. rewrite <- (fmap_is_Some entry_shape), Hd. apply fmap_is_Some.
Qed.

Lemma alter_insert_lookup (es : gmap string JournalEntry) f id e :
  es !! id = Some e -> <[id := f e]> es = alter f id es.
Proof.
  intros He. apply map_eq. intros id'. destruct (decide (id = id')) as [<-|Hne].
  - by rewrite lookup_insert, lookup_alter, !decide_True, He by done.
  - by rewrite lookup_insert_ne, lookup_alter_ne.
Qed.

(** Putting the saved entries back. *)
Definition put_back (es : gmap string JournalEntry) (saved : list (string * JournalEntry))
  : gmap string JournalEntry :=
  foldl (fun es (kv : string * JournalEntry) => <[kv.1 := kv.2]> es) es saved.

Lemma put_back_exact es0 es saved :
  (forall kv, kv ∈ saved -> es0 !! kv.1 = Some kv.2) ->
  (forall id, id ∉ saved.*1 -> es !! id = es0 !! id) -> put_back es saved = es0.
Proof.
  revert es. induction saved as [|[id e] saved IH]; intros es Hin Hout; simpl.
  - apply map_eq. intros id. apply Hout. set_solver.
  - apply IH; [set_solver|]. intros id' Hid'. destruct (decide (id = id')) as [<-|Hne].
    + rewrite lookup_insert, decide_True by done. symmetry. apply (Hin (id, e)). set_solver.
    + rewrite lookup_insert_ne by done. apply Hout. set_solver.
Qed.

(** ** The transaction *)

Section fast.
Context {W : Type} `{!Ports W} `{JournalCodec}.
Context (a : Actuator) (d0 : list (option Journal)).

Record owned_request_ok (j : Journal) (m : PreparedFrequencyMutation) : Prop := {
  fok_target : reg_targets (act_registry a) !! mutation_id m = Some (pf_target m);
  fok_entry : is_Some (j_entries j !! mutation_id m);
}.

#[local] Abbreviation journal s := (rt_journal (st_rt s)).

(** Updating the entries of prepared targets in place. *)
Lemma wp_update_owned id f e (Q : res unit ActuatorError -> St W -> Prop) s :
  j_entries (journal s) !! id = Some e ->
  Q (Ok tt) (with_rt s (with_journal (st_rt s)
    (with_entries (journal s) (alter f id (j_entries (journal s)))))) ->
  wp (update_owned id f) Q s.
Proof.
  intros He HQ. unfold update_owned. apply wp_bind, wp_get_journal, wp_bind, wp_lift.
  rewrite He. simpl. apply wp_put_journal. by rewrite (alter_insert_lookup _ f _ e).
Qed.

Lemma wp_fast_transitions ms (Q : res unit ActuatorError -> St W -> Prop) s :
  (forall m, m ∈ ms -> is_Some (j_entries (journal s) !! mutation_id m)) ->
  Q (Ok tt) (with_rt s (with_journal (st_rt s)
    (with_entries (journal s) (fast_entries (j_entries (journal s)) ms)))) ->
  wp (for_unit fast_transition ms) Q s.
Proof.
  unfold for_unit. revert s. induction ms as [|m ms IH]; intros s Hm HQ; simpl.
  - apply wp_ret. simpl in HQ. destruct s as [[md j rq] w l]. by destruct j.
  - destruct (Hm m ltac:(set_solver)) as [e He]. apply wp_bind. unfold fast_transition at 1.
    eapply wp_update_owned; [exact He|]. apply IH; [|exact HQ].
    intros m' Hm'. apply (fast_entries_some _ [m]), Hm. set_solver.
Qed.

Definition saved_from (es : gmap string JournalEntry) (ms : list PreparedFrequencyMutation)
    (saved : list (string * JournalEntry)) : Prop :=
  saved.*1 = mutation_id <$> ms /\ forall kv, kv ∈ saved -> es !! kv.1 = Some kv.2.

Lemma wp_entries_before ms acc done_ (Q : res (list (string * JournalEntry)) ActuatorError -> St W -> Prop) s :
  (forall m, m ∈ ms -> is_Some (j_entries (journal s) !! mutation_id m)) ->
  saved_from (j_entries (journal s)) done_ acc ->
  (forall saved, saved_from (j_entries (journal s)) (done_ ++ ms) saved -> Q (Ok saved) s) ->
  wp (for_fold (fun l m => e ← entry_before m; mret (l ++ [e])) acc ms) Q s.
Proof.
  revert acc done_. induction ms as [|m ms IH]; intros acc done_ Hm Hacc HQ; simpl.
  - apply wp_ret, HQ. by rewrite app_nil_r.
  - destruct (Hm m ltac:(set_solver)) as [e He].
    apply wp_bind, wp_bind. unfold entry_before.
    apply wp_bind, wp_get_journal, wp_bind, wp_lift. fold (mutation_id m). rewrite He. simpl.
    apply wp_ret, wp_ret. apply (IH _ (done_ ++ [m])); [set_solver| |].
    + destruct Hacc as [Hk Hv]. split.
      * by rewrite !fmap_app, Hk.
      * intros kv [Hin| ->%list_elem_of_singleton]%elem_of_app; [by apply Hv|done].
    + intros saved Hs. apply HQ. by rewrite <- (assoc_L (++)) in Hs.
Qed.

(** *** The write loop *)

Definition awaiting (es : gmap string JournalEntry) (m : PreparedFrequencyMutation) : Prop :=
  reg_targets (act_registry a) !! mutation_id m = Some (pf_target m) /\
  exists e, es !! mutation_id m = Some e /\ je_desired e = pf_desired_request m /\
    entry_static (pf_target m) e.

(** [changed] are the ids in transition, [l] the mutations still to be made. *)
Record fast_inv (J : Journal) (changed : list string) (l : list PreparedFrequencyMutation)
    (s : St W) : Prop := {
  fi_guarded : guarded d0 (journal_claims J) (st_log s);
  fi_ready : ready s;
  fi_ids : NoDup (mutation_id <$> l);
  fi_journal : journal s = with_entries (next_generation J) (j_entries (journal s));
  fi_outside : forall id, id ∉ changed -> j_entries (journal s) !! id = j_entries J !! id;
  fi_shape : entry_shape <$> j_entries (journal s) = entry_shape <$> j_entries J;
  fi_awaiting : forall m, m ∈ l -> pf_needs_write m = true ->
    mutation_id m ∈ changed /\ awaiting (j_entries (journal s)) m;
  fi_settled : forall id e, j_entries (journal s) !! id = Some e ->
    (forall m, m ∈ l -> pf_needs_write m = true -> mutation_id m <> id) ->
    exists t, reg_targets (act_registry a) !! id = Some t /\ entry_of t e;
}.

Lemma fast_skip J ch m l s :
  pf_needs_write m = false -> fast_inv J ch (m :: l) s -> fast_inv J ch l s.
Proof.
  intros Hw [H1 H2 H3 H4 H5 H6 H7 H8]. apply NoDup_cons in H3 as [_ H3]. constructor; try done.
  - intros m' Hm'. apply H7. set_solver.
  - intros id e He Hl. apply H8; [done|]. intros m' [->|Hm']%elem_of_cons Hw'; [congruence|].
    by apply Hl.
Qed.

Lemma claimed_target_paths J m k :
  entries_owned (act_registry a) (j_entries J) -> owned_request_ok J m ->
  target_paths (pf_target m) k -> k ∈ journal_claims J.
Proof. intros Hown [Ht He] Hk. by eapply (owned_target_paths a). Qed.

Lemma fast_claimed J ch m l s :
  fast_inv J ch (m :: l) s -> pf_needs_write m = true -> owned_request_ok J m.
Proof.
  intros [_ _ _ _ _ H6 H7 _] Hw. destruct (H7 m ltac:(set_solver) Hw) as (_ & Ht & e & He & _).
  split; [done|]. apply (f_equal (fun es => es !! mutation_id m)) in H6.
  rewrite !lookup_fmap, He in H6. apply (fmap_is_Some entry_shape). rewrite <- H6. by eexists.
Qed.

Lemma fast_write J ch m l s s' :
  entries_owned (act_registry a) (j_entries J) -> pf_needs_write m = true ->
  fast_inv J ch (m :: l) s -> quiet_step (target_paths (pf_target m)) s s' ->
  fast_inv J ch (m :: l) s'.
Proof.
  intros Hown Hw Hi Hs. pose proof (fast_claimed _ _ _ _ _ Hi Hw) as Hm.
  destruct Hi as [H1 H2 H3 H4 H5 H6 H7 H8]. pose proof Hs as [Hrt _].
  constructor; unfold ready; rewrite ?Hrt; try done.
  eapply guarded_step; [exact Hs|exact H1|]. intros k Hk. by eapply claimed_target_paths.
Qed.

Lemma fast_record J ch m l s :
  pf_needs_write m = true -> fast_inv J ch (m :: l) s ->
  validate_limits (pf_target m) (pf_desired_request m) = Ok tt ->
  wp (record_owned (mutation_id m) (pf_desired_request m))
    (fun r s' => r = Ok tt /\ fast_inv J ch l s') s.
Proof.
  intros Hw [H1 H2 H3 H4 H5 H6 H7 H8] Hv. apply NoDup_cons in H3 as [Hx H3].
  destruct (H7 m ltac:(set_solver) Hw) as (Hch & Ht & e & He & Hd & Hst).
  unfold record_owned. eapply wp_update_owned; [exact He|]. split; [done|].
  assert (Hne : forall id, mutation_id m <> id ->
    alter (fun e => set_transition e (pf_desired_request m) (je_desired e) [pf_desired_request m])
      (mutation_id m) (j_entries (journal s)) !! id = j_entries (journal s) !! id).
  { intros id Hid. by apply lookup_alter_ne. }
  constructor; simpl; try done.
  - rewrite H4 at 1. done.
  - intros id Hid. rewrite Hne by congruence. by apply H5.
  - rewrite <- H6. rewrite <- (alter_insert_lookup _ _ _ e) by done.
    by eapply fmap_insert_same.
  - intros m' Hm' Hw'. destruct (H7 m' ltac:(set_solver) Hw') as (Hch' & Ht' & e' & He' & Hd').
    split; [done|]. split; [done|]. exists e'. rewrite Hne; [done|]. intros Heq. apply Hx. rewrite Heq.
    by apply list_elem_of_fmap_2.
  - intros id e' He' Hl. destruct (decide (mutation_id m = id)) as [<-|Hid].
    + rewrite lookup_alter, decide_True, He in He' by done. injection He' as <-.
      exists (pf_target m). split; [done|]. rewrite <- Hd. apply entry_settled; [done| |done].
      by rewrite Hd.
    + rewrite Hne in He' by done. apply H8; [done|].
      intros m' [->|Hm']%elem_of_cons Hw'; [done|]. by apply Hl.
Qed.

(** All written: the entries are owned again. *)
Lemma fast_finished J ch s :
  journal_owned a J -> fast_inv J ch [] s -> inv a d0 s.
Proof.
  intros [[O1 O2 O3] Oe Os] [H1 H2 H3 H4 H5 H6 H7 H8]. apply ready_inv; [done| |].
  - erewrite (same_claims_journal _ J); [done|]. split; [done|]. by rewrite H4.
  - rewrite H4. constructor; [by constructor| |done].
    intros id e He. apply H8; [done|]. set_solver.
Qed.

(** Saved entries put back: the journal is exactly what it was. *)
Lemma fast_put_back J ch l s saved :
  fast_inv J ch l s -> saved.*1 = ch -> (forall kv, kv ∈ saved -> j_entries J !! kv.1 = Some kv.2) ->
  with_entries (with_generation (journal s) (j_generation J)) (put_back (j_entries (journal s)) saved)
  = J.
Proof.
  intros [_ _ _ H4 H5 _ _ _] Hk Hv. rewrite (put_back_exact (j_entries J)); [|done|].
  - rewrite H4. by destruct J.
  - intros id. rewrite Hk. apply H5.
Qed.

Context (Hwf : actuator_wf a).

Lemma wp_prepare_owned s0 acc request s :
  preparing (owned_request_ok (journal s0)) s0 acc s ->
  wp (prepare_owned a acc request)
    (fun r s' => match r with
                 | Ok acc' => preparing (owned_request_ok (journal s0)) s0 acc' s'
                 | _ => quiet_step no_paths s0 s'
                 end) s.
Proof using Hwf.
  destruct acc as [seen prepared]. intros Hprep. pose proof Hprep as [Hs0 _].
  unfold prepare_owned. apply wp_bind.
  destruct (decide (fr_target request ∈ seen)) as [|Hseen]; [by apply wp_fail|].
  apply wp_ret, wp_bind, wp_lift.
  destruct (get (act_registry a) (fr_target request)) as [t|] eqn:Ht; [|done].
  destruct (registered a Hwf _ _ Ht) as [Hid _]. simpl.
  apply wp_bind, wp_get_journal, wp_bind, wp_lift.
  pose proof Hs0 as [Hrt0 _]. rewrite Hrt0.
  destruct (j_entries (journal s0) !! ft_id t) as [e|] eqn:He; [|done]. simpl.
  apply wp_bind, wp_lift. destruct (snap_limits t (fr_limits request)) as [desired|err|]; [|done..].
  apply wp_bind. eapply wp_quiet; [apply (quiet_read_limits no_paths)|].
  intros [before|err|] s1 Hs1 _; [|by eapply quiet_step_trans..].
  apply wp_ret. rewrite <- Hid in *. clear Hid.
  match goal with |- preparing _ _ (_, _ ++ [?x]) _ => set (m := x) end.
  change ({[ft_id t]} ∪ seen) with ({[mutation_id m]} ∪ seen).
  apply (preparing_snoc _ s0 seen prepared s s1 m Hprep Hs1 Hseen). by constructor.
Qed.

(** After the intents are recorded, the write loop may start. *)
Lemma fast_start J prepared s :
  journal_owned a J -> guarded d0 (journal_claims J) (st_log s) -> ready s ->
  NoDup (mutation_id <$> prepared) -> (forall m, m ∈ prepared -> owned_request_ok J m) ->
  journal s = with_entries (next_generation J)
                (fast_entries (j_entries J) (List.filter pf_needs_write prepared)) ->
  fast_inv J (mutation_id <$> List.filter pf_needs_write prepared) prepared s.
Proof.
  intros Ho Hg Hr Hnd Hall Hj. pose proof (NoDup_fmap_filter mutation_id pf_needs_write _ Hnd) as Hch.
  constructor; rewrite ?Hj; simpl; try done.
  - intros id. apply fast_entries_ne.
  - apply fast_entries_shape.
  - intros m Hm Hw. destruct (Hall m Hm) as [Ht [e He]]. split.
    { apply list_elem_of_fmap_2. by apply elem_of_filter_bool. }
    split; [done|]. destruct Ho as [_ Ho _]. destruct (Ho _ _ He) as (t & Ht' & Heo).
    rewrite Ht in Ht'. injection Ht' as <-. exists (fast_entry m e). split_and!; [|done|].
    + rewrite fast_entries_in, He; [done|done|]. by apply elem_of_filter_bool.
    + destruct (entry_of_static _ _ Heo). by constructor.
  - intros id e He Hl. rewrite fast_entries_ne in He; [by apply Ho|].
    intros (m & -> & [Hm Hw]%elem_of_filter_bool)%list_elem_of_fmap. by apply (Hl m).
Qed.

Lemma quiet_fast_rollback J prepared is_ :
  entries_owned (act_registry a) (j_entries J) ->
  (forall m, m ∈ prepared -> owned_request_ok J m) ->
  quiet (fun k => k ∈ journal_claims J) (fun _ => True) (rollback_frequency_requests prepared is_).
Proof.
  intros Hown Hall. apply quiet_rollback. intros i m _ Hm k Hk.
  eapply claimed_target_paths; [done| |exact Hk]. by eapply Hall, list_elem_of_lookup_2.
Qed.

Lemma wp_apply_owned_batch_fast requests s :
  inv a d0 s -> wp (apply_owned_batch_fast a requests) (post_from a d0 s) s.
Proof using Hwf.
  intros Hinv. unfold apply_owned_batch_fast. apply wp_bind, wp_ensure_ready; [|intros; by apply post_same].
  intros Hready. destruct (inv_ready _ _ _ Hinv Hready) as [Hg Ho].
  destruct requests as [|request requests]; [by apply wp_ret, post_ok|].
  apply wp_bind. eapply wp_mono.
  { apply (wp_for_fold (preparing (owned_request_ok (journal s)) s)
      (fun s' => quiet_step no_paths s s')); [apply preparing_start|].
    intros acc x s1 _ Hp. by apply wp_prepare_owned. }
  intros [[seen prepared]|e|] s1 Hp;
    [|by apply post_same; [eapply quiet_step_inv|apply Hp]..].
  destruct Hp as (Hs1 & Hnd & Hall). simpl in *.
  assert (Hinv1 : inv a d0 s1) by by eapply quiet_step_inv.
  destruct (forallb _ prepared) eqn:Enoop; [by apply wp_ret, post_ok|].
  pose proof Hs1 as [Hrt1 _]. rewrite <- Hrt1 in Ho, Hall.
  assert (Hready1 : ready s1) by (unfold ready; by rewrite Hrt1).
  destruct (inv_ready _ _ _ Hinv1 Hready1) as [Hg1 _].
  set (J := journal s1) in *. set (changed := List.filter pf_needs_write prepared).
  assert (Howned : forall m, m ∈ prepared -> owned_request_ok J m) by (intros m Hm; by apply Hall).
  assert (Hsome : forall m, m ∈ changed -> is_Some (j_entries J !! mutation_id m)).
  { intros m [Hm _]%elem_of_filter_bool. by apply Howned. }
  apply wp_bind, wp_get_journal, wp_bind.
  apply (wp_entries_before changed [] []); [done|by split; [|set_solver]|].
  intros saved [Hkeys Hsaved]. simpl in Hkeys.
  apply wp_bind, wp_put_journal, wp_bind, wp_fast_transitions; [done|]. simpl.
  match goal with |- wp _ _ ?x => set (s2 := x) end.
  assert (Hfast : fast_inv J (mutation_id <$> changed) prepared s2) by by apply fast_start.
  apply wp_bind. eapply wp_mono.
  { apply (wp_write_batch d0 pf_before_effective record_owned (fast_inv J (mutation_id <$> changed)))
      with (prepared := prepared); [..|exact Hfast|done|by constructor].
    - intros m l s' Hw. by apply fast_skip.
    - intros m l s' s'' Hw. apply fast_write; [by destruct Ho|done].
    - intros m l s' Hw Hi Hv. by apply fast_record.
    - intros l s' Hi. apply Hi. }
  intros [o|e|] s3 Ho3; [|by destruct Ho3|by apply post_panic].
  destruct Ho3 as [_ Hfail]. destruct (wo_failure o) as [[failed error]|].
  2: { apply wp_ret, post_ok. by eapply fast_finished. }
  destruct Hfail as (l' & Hi3). apply wp_bind, wp_attempt.
  eapply wp_quiet; [by apply (quiet_fast_rollback J); [destruct Ho|]|].
  intros r s4 Hs4 _. pose proof Hs4 as [Hrt4 _].
  assert (Hg4 : guarded d0 (journal_claims J) (st_log s4)).
  { eapply guarded_step; [exact Hs4|apply Hi3|done]. }
  destruct r as [[]|e|]; [|apply wp_degrade, post_degraded, Hg4|apply post_panic, Hg4].
  apply wp_bind, wp_get_journal, wp_bind, wp_put_journal, wp_fail. rewrite Hrt4.
  change (foldl _ _ saved) with (put_back (j_entries (journal s3)) saved).
  simpl. erewrite (fast_put_back J); [|exact Hi3|exact Hkeys|exact Hsaved].
  apply post_same.
  - apply ready_inv; [|done|done]. exact (fi_ready _ _ _ _ Hi3).
  - rewrite <- Hrt1. eapply ready_same; [exact Hready1|exact (fi_ready _ _ _ _ Hi3)|done].
Qed.
End fast.

(** * Safety of frequency restoration

    [restore_targets] and the frequency part of [recover_pending]: the intent to
    go back is recorded and stored before anything is written. The two run on
    different journals, an owned one and a loaded one, and share this proof. *)

(** ** Entries under restoration *)

Lemma path_eqb_eq p q : path_eqb p q = true -> components p = components q.
Proof. apply bool_decide_eq_true. Qed.

(** Only the transition of an entry may differ. *)
Record same_static (e e' : JournalEntry) : Prop := {
  ss_target : je_target e = je_target e';
  ss_min : je_min_path e = je_min_path e';
  ss_max : je_max_path e = je_max_path e';
  ss_manifest : je_resource_manifest e = je_resource_manifest e';
  ss_original : je_original e = je_original e';
}.

#[export] Instance same_static_refl : Reflexive same_static.
Proof. by constructor. Qed.

(** The transition that restoration records. *)
Definition back_to_original (je e : JournalEntry) : JournalEntry :=
  set_transition je (je_desired e) (je_original e)
    (transaction_legal_pairs (je_desired e) (je_original e)).

Lemma back_to_original_owned t je e :
  frequency_target_wf t -> entry_of t e -> same_static je e -> entry_of t (back_to_original je e).
Proof.
  intros Hwf [E1 E2 E3 E4 E5 E6 E7 E8] [S1 S2 S3 S4 S5].
  constructor; simpl; try congruence. rewrite E5. by apply hardware_limits_valid.
Qed.

Lemma back_to_original_valid id je e :
  frequency_entry_valid id e -> same_static je e -> frequency_entry_valid id (back_to_original je e).
Proof.
  intros [V1 V2 V3 (t & (m & Hm & M1 & M2 & M3 & Ht) & L1 & L2 & L3 & Ho) V5] [S1 S2 S3 S4 S5].
  constructor; simpl; try congruence. exists t. split_and!; try done; try congruence.
  exists m. simpl. split_and!; congruence.
Qed.

Section kept.
Context {B : Type} (es0 : gmap string B) (EOK : string -> B -> Prop) (same : relation B).

(** The entries of [es0] with some transitions changed, each of them still fine. *)
Record kept (es : gmap string B) : Prop := {
  kp_entry : forall id je, es !! id = Some je -> EOK id je /\
    exists e, es0 !! id = Some e /\ same je e;
  kp_some : forall id, is_Some (es0 !! id) -> is_Some (es !! id);
}.

Lemma kept_start `{!Reflexive same} : (forall id e, es0 !! id = Some e -> EOK id e) -> kept es0.
Proof. intros HJ. constructor; [|done]. intros id je He. split; [auto|]. by exists je. Qed.

Lemma kept_shape {C} (f : B -> C) es :
  (forall je e, same je e -> f je = f e) -> kept es -> f <$> es = f <$> es0.
Proof.
  intros Hf [He Hs]. apply map_eq. intros id. rewrite !lookup_fmap.
  destruct (es !! id) as [je|] eqn:E.
  - destruct (He id je E) as (_ & e & -> & Hst). simpl. by rewrite (Hf _ _ Hst).
  - destruct (es0 !! id) eqn:E'; [|done]. destruct (Hs id) as [? ?]; [eauto|congruence].
Qed.

Lemma kept_none es id : kept es -> es !! id = None <-> es0 !! id = None.
Proof.
  intros [He Hs]. split; intros Hn; apply eq_None_not_Some.
  - intros Hin%Hs. rewrite Hn in Hin. by destruct Hin.
  - intros [je Hje]. destruct (He _ _ Hje) as (_ & e & He' & _). congruence.
Qed.

Lemma kept_insert es id e je :
  kept es -> es0 !! id = Some e -> same je e -> EOK id je -> kept (<[id := je]> es).
Proof.
  intros [He Hs] HJ Hst Hok. constructor.
  - intros id' x [[<- <-]|[Hne Hx]]%lookup_insert_Some; [|by apply He]. eauto.
  - intros id' Hin. apply lookup_insert_is_Some'. right. by apply Hs.
Qed.
End kept.

Lemma entry_shape_same je e : same_static je e -> entry_shape je = entry_shape e.
Proof. intros [_ S2 S3 _ _]. unfold entry_shape. by rewrite S2, S3. Qed.

Abbreviation kept_entries J EOK es := (kept (j_entries J) EOK same_static es).

Lemma kept_claims J EOK es :
  kept_entries J EOK es -> journal_claims (with_entries J es) = journal_claims J.
Proof.
  intros Hk. apply same_claims_journal. split; [|done].
  eapply kept_shape; [apply entry_shape_same|exact Hk].
Qed.

(** Both kinds of journal are good again after such updates. *)
Lemma kept_owned a J es :
  journal_owned a J ->
  kept_entries J (fun id e => exists t, reg_targets (act_registry a) !! id = Some t /\ entry_of t e) es ->
  journal_owned a (with_entries J es).
Proof.
  intros [[H1 H2 H3] _ Hs] Hk. constructor; [by constructor| |done].
  intros id e He. by apply (kp_entry _ _ _ _ Hk).
Qed.

Lemma kept_valid J es :
  journal_valid J -> kept_entries J frequency_entry_valid es -> journal_valid (with_entries J es).
Proof.
  intros [V1 V2 V3 V4 V5 V6 V7 V8] Hk. constructor; try done.
  - intros id e He. by apply (kp_entry _ _ _ _ Hk).
  - intros id e He. destruct (V5 id e He) as [S1 S2 S3 S4]. constructor; try done. simpl.
    by apply (kept_none _ _ _ es id Hk).
  - by rewrite (kept_claims J _ es Hk).
Qed.

(** ** The restoration of one journal *)

Section restoring.
Context {W : Type} `{!Ports W} `{JournalCodec}.
Context (a : Actuator) (Hwf : actuator_wf a) (d0 : list (option Journal)).
Context (J : Journal) (EOK : string -> JournalEntry -> Prop) (recovery : bool).

#[local] Abbreviation journal s := (rt_journal (st_rt s)).

Definition journal_good (j : Journal) : Prop :=
  if recovery then journal_valid j else journal_owned a j.

Lemma good_stored j : journal_good j -> others_valid j -> journal_valid j.
Proof using Hwf. unfold journal_good. destruct recovery; [done|]. intros Ho Hoth. by eapply owned_valid. Qed.

Record restoring (s : St W) : Prop := {
  rs_guarded : guarded d0 (journal_claims J) (st_log s);
  rs_mode : rt_mode (st_rt s) = ReadWrite;
  rs_recovery : rt_recovery_required (st_rt s) = recovery;
  rs_journal : journal s = with_entries J (j_entries (journal s));
  rs_kept : kept_entries J EOK (j_entries (journal s));
}.

Context (Hup : forall id je e, EOK id e -> same_static je e -> EOK id (back_to_original je e)).
Context (Hgood : forall es, kept_entries J EOK es -> journal_good (with_entries J es)).
Context (Hkey : forall id e, j_entries J !! id = Some e -> id = je_target e /\ EOK id e).

Lemma restoring_good s : restoring s -> journal_good (journal s).
Proof using Hgood. intros [_ _ _ -> Hk]. by apply Hgood. Qed.

Lemma restoring_claims s : restoring s -> journal_claims (journal s) = journal_claims J.
Proof. intros [_ _ _ -> Hk]. by eapply kept_claims. Qed.

Lemma restoring_inv s : restoring s -> inv a d0 s.
Proof using Hgood.
  intros Hr. pose proof (restoring_good s Hr) as Hg. pose proof (restoring_claims s Hr) as Hc.
  destruct Hr as [H1 H2 H3 H4 H5]. split; [apply H1|]. intros _. rewrite Hc. split; [done|].
  rewrite H3. exact Hg.
Qed.

Lemma restoring_step P s s' :
  restoring s -> quiet_step P s s' -> (forall k, P k -> k ∈ journal_claims J) -> restoring s'.
Proof.
  intros [H1 H2 H3 H4 H5] Hs HP. pose proof Hs as [Hrt _].
  constructor; rewrite ?Hrt; try done. by eapply guarded_step.
Qed.

Definition planned (l : list (JournalEntry * FrequencyTarget)) : Prop :=
  forall et k, et ∈ l -> target_paths et.2 k -> k ∈ journal_claims J.

Lemma wp_restore_intent what automatic acc e s :
  restoring s -> planned acc -> j_entries J !! je_target e = Some e ->
  (forall t k, get (act_registry a) (je_target e) = Some t -> target_paths t k ->
     k ∈ journal_claims J) ->
  wp (restore_intent a what automatic acc e)
    (fun r s' => match r with Ok acc' => planned acc' /\ restoring s' | _ => inv a d0 s' end) s.
Proof using Hup Hgood Hkey.
  intros Hr Hacc He Ht. unfold restore_intent.
  destruct (get (act_registry a) (je_target e)) as [t|]; [|apply wp_degrade, inv_degraded, Hr].
  destruct (negb _); [apply wp_degrade, inv_degraded, Hr|].
  assert (Hacc' : planned (acc ++ [(e, t)])).
  { intros et k [Hin| ->%list_elem_of_singleton]%elem_of_app Hk; [by eapply Hacc|]. by eapply Ht. }
  apply wp_bind, wp_get_journal, wp_bind.
  destruct (j_entries (journal s) !! je_target e) as [je|] eqn:Hje; [|by apply wp_ret, wp_ret].
  apply wp_put_journal, wp_ret. split; [done|].
  destruct Hr as [H1 H2 H3 H4 H5]. constructor; simpl; try done.
  - rewrite H4 at 1. done.
  - destruct (kp_entry _ _ _ _ H5 _ _ Hje) as (_ & e' & He' & Hst).
    rewrite He in He'. injection He' as <-. eapply kept_insert; [done|exact He| |].
    + by destruct Hst.
    + apply Hup; [by apply Hkey|done].
Qed.

Lemma wp_restore_write what et s :
  restoring s -> (forall k, target_paths et.2 k -> k ∈ journal_claims J) ->
  wp (restore_write what et) (fun r s' => match r with Ok _ => restoring s' | _ => inv a d0 s' end) s.
Proof using Hgood.
  intros Hr HP. unfold restore_write. apply wp_bind, wp_attempt.
  eapply wp_quiet; [apply quiet_restore_request|]. intros r s1 Hs1 _.
  assert (Hr1 : restoring s1) by by eapply restoring_step.
  destruct r as [l|e|]; [done| |by apply restoring_inv]. apply wp_degrade, inv_degraded, Hr1.
Qed.

(** Intents recorded, stored, and written. *)
Lemma wp_restore_all {A} (intent : list (JournalEntry * FrequencyTarget) -> A ->
    M W (list (JournalEntry * FrequencyTarget))) (l : list A) what reason s :
  restoring s ->
  (forall acc x s, x ∈ l -> restoring s -> planned acc ->
     wp (intent acc x) (fun r s' => match r with Ok acc' => planned acc' /\ restoring s'
                                             | _ => inv a d0 s' end) s) ->
  wp (restoration ← for_fold intent [] l;
      (if bool_decide (restoration = []) then mret tt
       else
         p ← attempt (j ← get_journal; persist_journal j);
         match p with
         | Err error => degrade (reason error)
         | _ => mret tt
         end);;
      for_unit (restore_write what) restoration)
    (fun r s' => match r with Ok _ => restoring s' | _ => inv a d0 s' end) s.
Proof using Hgood Hwf Hup Hkey.
  intros Hr Hint. apply wp_bind. eapply wp_mono.
  { apply (wp_for_fold (fun acc s => planned acc /\ restoring s) (inv a d0)).
    - split; [|done]. intros et k Hin. set_solver.
    - intros acc x s' Hx [Hacc Hs']. by apply Hint. }
  intros [restoration|e|] s1 H1; [|done|done]. destruct H1 as [Hp H1].
  assert (Hpersisted : wp (if bool_decide (restoration = []) then mret tt
       else
         p ← attempt (j ← get_journal; persist_journal j);
         match p with
         | Err error => degrade (reason error)
         | _ => mret tt
         end) (fun r s' => match r with Ok _ => restoring s' | _ => inv a d0 s' end) s1).
  { destruct (bool_decide _); [by apply wp_ret|].
    apply wp_bind, wp_attempt, wp_bind, wp_get_journal.
    eapply (wp_persist d0); [apply H1|apply good_stored, restoring_good, H1|].
    intros r s2 Hnp Hrt2 Hl2 Hg2 Hk2. destruct r as [[]|e|]; [|by apply wp_degrade, inv_degraded|done].
    apply wp_ret. destruct H1 as [G1 G2 G3 G4 G5]. constructor; rewrite ?Hrt2; try done.
    apply Hk2; [done|]. intros k. by rewrite G4, (kept_claims J EOK). }
  apply wp_bind. eapply wp_mono; [exact Hpersisted|]. intros [[]|e|] s2 H2; [|done|done].
  apply (wp_for_fold (fun _ => restoring) (inv a d0)); [done|].
  intros [] et s3 Het H3. apply wp_restore_write; [done|]. intros k. by apply Hp.
Qed.
End restoring.

(** ** [restore_targets] *)

Section restore_targets.
Context {W : Type} `{!Ports W} `{JournalCodec}.
Context (a : Actuator) (Hwf : actuator_wf a) (d0 : list (option Journal)).

#[local] Abbreviation journal s := (rt_journal (st_rt s)).

Definition owned_entry (id : string) (e : JournalEntry) : Prop :=
  exists t, reg_targets (act_registry a) !! id = Some t /\ entry_of t e.

Lemma owned_entry_back id je e :
  owned_entry id e -> same_static je e -> owned_entry id (back_to_original je e).
Proof using Hwf.
  intros (t & Ht & He) Hs. exists t. split; [done|]. apply back_to_original_owned; [|done|done].
  by apply (rw_targets _ (aw_registry _ Hwf) id).
Qed.

Lemma owned_entry_key J id e :
  journal_owned a J -> j_entries J !! id = Some e -> id = je_target e /\ owned_entry id e.
Proof using Hwf.
  intros [_ Ho _] He. destruct (Ho _ _ He) as (t & Ht & Heo). split; [|by exists t].
  destruct (rw_targets _ (aw_registry _ Hwf) _ _ Ht) as [<- _]. by destruct Heo.
Qed.

(** Giving entries up keeps the rest owned, and the claims among the old ones. *)
Lemma give_up_owned J es :
  journal_owned a J -> es ⊆ j_entries J -> journal_owned a (with_entries J es).
Proof.
  intros [[H1 H2 H3] Ho Hs] Hsub. constructor; [by constructor| |done].
  intros id e He. apply Ho. by eapply lookup_weaken.
Qed.

Lemma give_up_claims J es k :
  es ⊆ j_entries J -> k ∈ journal_claims (with_entries J es) -> k ∈ journal_claims J.
Proof.
  intros Hsub Hk. apply elem_of_journal_claims in Hk. apply elem_of_journal_claims.
  destruct Hk as [(id & e & He & Hk)|Hk]; [left|by right].
  exists id, e. split; [by eapply lookup_weaken|done].
Qed.

Lemma delete_all_subseteq {V B} (f : B -> string) (es : gmap string V) (l : list B) :
  foldl (fun es e => delete (f e) es) es l ⊆ es.
Proof.
  revert es. induction l as [|x l IH]; intros es; simpl; [done|].
  etrans; [apply IH|]. apply delete_subseteq.
Qed.

Lemma wp_restore_targets ids s : inv a d0 s -> wp (restore_targets a ids) (post a d0) s.
Proof using Hwf.
  intros Hinv. unfold restore_targets.
  apply wp_bind, wp_ensure_ready; [|intros; by apply post_inv].
  intros Hready. destruct (inv_ready _ _ _ Hinv Hready) as [Hg Ho]. destruct Hready as [Hm Hrec].
  apply wp_bind, wp_get_journal. set (J := journal s) in *.
  set (es := omap (fun id => j_entries J !! id) ids).
  assert (Hin : forall e, e ∈ es -> j_entries J !! je_target e = Some e).
  { intros e (id & _ & He)%list_elem_of_omap. destruct (owned_entry_key J id e Ho He) as [<- _]. done. }
  assert (Hstart : restoring d0 J owned_entry false s).
  { constructor; [done|done|done|by destruct (journal s)|].
    apply (kept_start _ _ _). intros id e He. by apply (owned_entry_key J). }
  assert (Hgood : forall es, kept_entries J owned_entry es -> journal_good a false (with_entries J es)).
  { intros es' Hk. by apply kept_owned. }
  apply wp_regroup, wp_bind. eapply wp_mono.
  { apply (wp_restore_all a Hwf d0 J owned_entry false);
      [apply owned_entry_back|exact Hgood|intros id e; by apply owned_entry_key|exact Hstart|].
    intros acc e s1 He H1 Hacc. eapply (wp_restore_intent a d0 J owned_entry false);
      [apply owned_entry_back|exact Hgood|intros id e'; by apply owned_entry_key|done|done|by apply Hin|].
    intros t k Ht Hk. destruct (owned_entry_key J _ _ Ho (Hin e He)) as (_ & t' & Ht' & [_ E2 E3 _ _ _ _ _]).
    unfold get in Ht. rewrite Ht in Ht'. injection Ht' as <-.
    destruct (entry_claims _ _ _ (Hin e He)) as [C1 C2]. rewrite E2 in C1. rewrite E3 in C2.
    by destruct Hk as [->| ->]. }
  intros [[]|e|] s1 H1; [|by apply post_inv|by apply post_inv].
  apply wp_bind, wp_get_journal, wp_bind, wp_put_journal.
  set (final := next_generation _).
  assert (Hfinal : journal_owned a final /\ forall k, k ∈ journal_claims final -> k ∈ journal_claims J).
  { pose proof (restoring_good a d0 J owned_entry false Hgood s1 H1) as Ho1. simpl in Ho1.
    pose proof (restoring_claims d0 J owned_entry false s1 H1) as Hc1.
    pose proof (delete_all_subseteq je_target (j_entries (journal s1)) es) as Hsub.
    split.
    { destruct (give_up_owned _ _ Ho1 Hsub) as [[A1 A2 A3] A4 A5]. by constructor. }
    intros k Hk. rewrite <- Hc1. eapply give_up_claims; [exact Hsub|exact Hk]. }
  destruct Hfinal as [Ho2 Hc2].
  apply (wp_persist_or_remove_locked d0); [apply H1|simpl; intros; by eapply owned_valid| |].
  - intros s2 Hrt2 Hg2. apply post_inv. apply ready_inv; unfold ready; rewrite ?Hrt2; simpl; [|done|done].
    destruct H1. done.
  - intros e s2 reason Hl2 Hrt2. apply post_inv. split; [done|]. rewrite Hrt2. done.
Qed.
End restore_targets.
