(* ===== verification/ScalarSafety.v ===== *)
(** * Safety of the scalar transactions

    [apply_scalars] claims before it writes; [restore_scalars] and the scalar
    part of recovery write only attributes that are still claimed. *)

From S2P Require Import Prelude Domain Text Strings ActuatorTypes Scalars Targets Journal JournalFacts Ports FrequencyOps ScalarOps TaskOps UnitOps Recovery Ownership FrequencySafety RestoreSafety.

(** ** Preparation *)

Definition scalar_id (m : PreparedScalarMutation) : string := sct_id (ps_target m).

Record scalar_request_ok (a : Actuator) (j : Journal) (m : PreparedScalarMutation) : Prop := {
  sok_target : reg_scalar_targets (act_registry a) !! scalar_id m = Some (ps_target m);
  sok_before : validate_value (ps_target m) (ps_before m) = Ok tt;
  sok_desired : validate_value (ps_target m) (ps_desired m) = Ok tt;
  sok_claim : ps_needs_write m = true -> ps_needs_journal m = false ->
    is_Some (j_scalars j !! scalar_id m);
}.

Section preparing.
Context {W : Type}.

Definition preparing_scalars (Q : PreparedScalarMutation -> Prop) (s0 : St W)
    (acc : gset string * list PreparedScalarMutation) (s : St W) : Prop :=
  quiet_step no_paths s0 s /\ (forall m, m ∈ acc.2 -> Q m).

Lemma preparing_scalars_start Q s : preparing_scalars Q s (∅, []) s.
Proof. split; [apply quiet_step_refl|set_solver]. Qed.

Lemma preparing_scalars_snoc Q s0 acc seen s s' m :
  preparing_scalars Q s0 acc s -> quiet_step no_paths s s' -> Q m ->
  preparing_scalars Q s0 (seen, acc.2 ++ [m]) s'.
Proof.
  intros [Hs Hall] Hs' Hm. split; [by eapply quiet_step_trans|].
  intros m' [Hin| ->%list_elem_of_singleton]%elem_of_app; [by apply Hall|done].
Qed.
End preparing.

Section preparation.
Context {W : Type} `{!Ports W} `{JournalCodec}.
Context (a : Actuator) (Hwf : actuator_wf a).

#[local] Abbreviation journal s := (rt_journal (st_rt s)).

Lemma registered_scalar id t :
  get_scalar (act_registry a) id = Some t -> sct_id t = id /\ scalar_target_wf t.
Proof using Hwf. apply (rw_scalars _ (aw_registry _ Hwf)). Qed.

Lemma quiet_same_identity P e t : quiet P (fun _ => True) (same_scalar_identity (W := W) e t).
Proof. unfold same_scalar_identity. quiet_tac. Qed.

Lemma quiet_check_owner P t b o : quiet P (fun _ => True) (check_scalar_owner (W := W) t b o).
Proof.
  unfold check_scalar_owner. destruct o as [e|]; [|by apply quiet_ret].
  eapply quiet_bind; [apply quiet_same_identity|]. intros same _. quiet_tac.
Qed.

Lemma wp_prepare_scalar s0 acc request s :
  preparing_scalars (scalar_request_ok a (journal s0)) s0 acc s ->
  wp (prepare_scalar a acc request)
    (fun r s' => match r with
                 | Ok acc' => preparing_scalars (scalar_request_ok a (journal s0)) s0 acc' s'
                 | _ => quiet_step no_paths s0 s'
                 end) s.
Proof using Hwf.
  destruct acc as [seen prepared]. intros Hprep. pose proof Hprep as [Hs0 _].
  unfold prepare_scalar. apply wp_bind.
  destruct (decide (sr_target request ∈ seen)); [by apply wp_fail|].
  apply wp_ret, wp_bind, wp_lift.
  destruct (get_scalar (act_registry a) (sr_target request)) as [t|] eqn:Ht; [|done].
  destruct (registered_scalar _ _ Ht) as [Hid _]. simpl.
  apply wp_bind, wp_lift.
  destruct (validate_value t (sr_value request)) as [[]|e|] eqn:Hdes; [|done..].
  apply wp_bind. eapply wp_quiet; [apply (quiet_read_scalar no_paths)|].
  intros [before|e|] s1 Hs1 Hb; [|by eapply quiet_step_trans..].
  specialize (Hb before eq_refl). apply wp_bind, wp_get_journal.
  pose proof Hs1 as [Hrt1 _]. pose proof Hs0 as [Hrt0 _]. rewrite Hrt1, Hrt0.
  apply wp_bind. eapply wp_quiet; [apply (quiet_check_owner no_paths)|].
  intros [[]|e|] s2 Hs2 _; [|by do 2 (eapply quiet_step_trans; [eassumption|])..].
  apply wp_ret. apply (preparing_scalars_snoc _ s0 (seen, prepared) _ s s2);
    [done|by eapply quiet_step_trans|].
  constructor; unfold scalar_id; simpl; [|done|done|].
  - by rewrite Hid.
  - destruct (j_scalars (journal s0) !! sct_id t); [eauto|congruence].
Qed.
End preparation.

(** ** The pre-mutation journal *)

Section claiming.
Context (a : Actuator).

Lemma scalar_transition_of t e applied desired :
  scalar_entry_of t e -> validate_value t applied = Ok tt -> validate_value t desired = Ok tt ->
  scalar_entry_of t (set_scalar_transition e applied desired).
Proof. intros [? ? ? ? ? ?] ? ?. by constructor. Qed.

Lemma owned_scalar es id t e :
  scalars_owned (act_registry a) es -> reg_scalar_targets (act_registry a) !! id = Some t ->
  es !! id = Some e -> scalar_entry_of t e.
Proof. intros Hes Ht He. destruct (Hes _ _ He) as (t' & Ht' & Hof). congruence. Qed.

Lemma claim_scalar_owned j es m :
  scalar_request_ok a j m -> scalars_owned (act_registry a) es ->
  scalars_owned (act_registry a) (claim_scalar_entry es m) /\
  (forall id, is_Some (es !! id) \/ id = scalar_id m -> is_Some (claim_scalar_entry es m !! id)).
Proof.
  intros [Ht Hb Hd _] Hes. unfold claim_scalar_entry. fold (scalar_id m). split.
  - eapply scalars_owned_insert; [done|exact Ht|].
    apply scalar_transition_of; [|done|done].
    destruct (es !! scalar_id m) as [e|] eqn:E; simpl; [by eapply owned_scalar|by constructor].
  - intros id Hid. apply lookup_insert_is_Some'. destruct Hid; auto.
Qed.

Lemma claim_scalars_fold j ms es :
  (forall m, m ∈ ms -> scalar_request_ok a j m) -> scalars_owned (act_registry a) es ->
  scalars_owned (act_registry a) (foldl claim_scalar_entry es ms) /\
  (forall id, is_Some (es !! id) \/ id ∈ scalar_id <$> ms ->
     is_Some (foldl claim_scalar_entry es ms !! id)).
Proof.
  revert es. induction ms as [|m ms IH]; intros es Hok Hes; simpl; [split; [done|set_solver]|].
  destruct (claim_scalar_owned j es m) as [H1 H2]; [apply Hok; set_solver|done|].
  destruct (IH (claim_scalar_entry es m)) as [I1 I2]; [set_solver|done|].
  split; [done|]. intros id Hid. apply I2. set_solver.
Qed.

Lemma claim_scalars_owned j ms :
  journal_owned a j -> (forall m, m ∈ ms -> scalar_request_ok a j m) ->
  journal_owned a (claim_scalars j ms) /\
  (forall m, m ∈ ms -> ps_needs_write m = true ->
     is_Some (j_scalars (claim_scalars j ms) !! scalar_id m)).
Proof.
  intros [[H1 H2 H3] He Hs] Hok.
  destruct (claim_scalars_fold j (List.filter ps_needs_journal ms) (j_scalars j)) as [I1 I2].
  - intros m [Hm _]%elem_of_filter_bool. auto.
  - done.
  - split; [by constructor|]. intros m Hm Hw. apply I2.
    destruct (ps_needs_journal m) eqn:Ej.
    + right. apply list_elem_of_fmap_2. by apply elem_of_filter_bool.
    + left. by apply (sok_claim _ _ _ (Hok m Hm)).
Qed.
End claiming.

(** ** [apply_scalars] *)

Section apply_scalars.
Context {W : Type} `{!Ports W} `{JournalCodec}.
Context (a : Actuator) (d0 : list (option Journal)).

#[local] Abbreviation journal s := (rt_journal (st_rt s)).

(** A target that [J] claims. *)
Definition claimed_scalar (J : Journal) (m : PreparedScalarMutation) : Prop :=
  reg_scalar_targets (act_registry a) !! scalar_id m = Some (ps_target m) /\
  is_Some (j_scalars J !! scalar_id m).

Lemma owned_scalar_path J id t e k :
  scalars_owned (act_registry a) (j_scalars J) ->
  reg_scalar_targets (act_registry a) !! id = Some t -> j_scalars J !! id = Some e ->
  scalar_path t k -> k ∈ journal_claims J.
Proof.
  intros Hown Ht He ->. pose proof (owned_scalar a _ _ _ _ Hown Ht He) as [_ E2 _ _ _ _].
  apply elem_of_journal_claims. right. exists id, e. by rewrite E2.
Qed.

Lemma claimed_scalar_path J m k :
  journal_owned a J -> claimed_scalar J m -> scalar_path (ps_target m) k -> k ∈ journal_claims J.
Proof. intros [_ _ Hs] [Ht [e He]]. by eapply owned_scalar_path. Qed.

Record scalar_inv (J : Journal) (s : St W) : Prop := {
  si_guarded : guarded d0 (journal_claims J) (st_log s);
  si_ready : ready s;
  si_owned : journal_owned a (journal s);
  si_same : same_claims (journal s) J;
}.

Lemma scalar_inv_step J P s s' :
  scalar_inv J s -> quiet_step P s s' -> (forall k, P k -> k ∈ journal_claims J) -> scalar_inv J s'.
Proof.
  intros [H1 H2 H3 H4] Hs HP. pose proof Hs as [Hrt _].
  constructor; unfold ready; rewrite ?Hrt; try done. by eapply guarded_step.
Qed.

Lemma wp_record_scalar J m s :
  scalar_inv J s -> claimed_scalar J m -> validate_value (ps_target m) (ps_desired m) = Ok tt ->
  wp (record_scalar (scalar_id m) (ps_desired m)) (fun r s' => r = Ok tt /\ scalar_inv J s') s.
Proof.
  intros [H1 H2 H3 H4] [Ht _] Hv. unfold record_scalar. apply wp_bind, wp_get_journal.
  destruct (j_scalars (journal s) !! scalar_id m) as [e|] eqn:He; [|by apply wp_ret].
  apply wp_put_journal. split; [done|]. constructor; [done|done| |].
  - destruct H3 as [[A1 A2 A3] A4 A5]. constructor; [by constructor|done|].
    eapply scalars_owned_insert; [done|exact Ht|].
    apply scalar_transition_of; [by eapply owned_scalar|done|done].
  - eapply same_claims_trans; [|exact H4]. split; [done|]. simpl. by eapply fmap_insert_same.
Qed.

(** The indexes of mutations whose targets are claimed. *)
Definition attempted_claims (J : Journal) (prepared : list PreparedScalarMutation)
    (is_ : list nat) : Prop :=
  Forall (fun i => exists m, prepared !! i = Some m /\ claimed_scalar J m) is_.

Definition scalar_writable (J : Journal) (m : PreparedScalarMutation) : Prop :=
  ps_needs_write m = true ->
  claimed_scalar J m /\ validate_value (ps_target m) (ps_desired m) = Ok tt.

Lemma wp_write_scalars J prepared l index applied attempted s :
  journal_owned a J -> scalar_inv J s -> (forall m, m ∈ l -> scalar_writable J m) ->
  (forall k, l !! k = prepared !! (index + k)%nat) -> attempted_claims J prepared attempted ->
  wp (write_scalars index l applied attempted)
    (fun r s' => scalar_inv J s' /\ match r with
                 | Ok o => attempted_claims J prepared (so_attempted o)
                 | Err _ => False
                 | Panic => True
                 end) s.
Proof.
  intros HJ. revert index applied attempted s.
  induction l as [|m l IH]; intros index applied attempted s Hi Hc Hl Hatt; simpl; [by apply wp_ret|].
  assert (Hl' : forall k, l !! k = prepared !! (S index + k)%nat).
  { intros k. specialize (Hl (S k)). by rewrite Nat.add_succ_r in Hl. }
  assert (Hc' : forall m, m ∈ l -> scalar_writable J m) by set_solver.
  destruct (ps_needs_write m) eqn:Hw; simpl; [|by apply IH].
  destruct (Hc m ltac:(set_solver) Hw) as [Hm Hv].
  assert (Hatt' : attempted_claims J prepared (attempted ++ [index])).
  { apply Forall_app. split; [done|]. apply Forall_singleton. exists m.
    split; [|done]. rewrite <- (Nat.add_0_r index). by rewrite <- (Hl 0%nat). }
  apply wp_bind, wp_attempt. eapply wp_quiet; [apply quiet_write_scalar|].
  intros r s1 Hs1 Hr.
  assert (Hi1 : scalar_inv J s1).
  { eapply scalar_inv_step; [done|exact Hs1|]. intros k. by apply claimed_scalar_path. }
  destruct r as [v|e|]; [|by apply wp_ret|by split].
  destruct (Hr v eq_refl) as [-> _]. apply wp_bind.
  eapply wp_mono; [by apply (wp_record_scalar J m)|].
  intros r s2 [-> Hi2]. by apply IH.
Qed.

Lemma quiet_rollback_scalars P prepared is_ :
  (forall i m, i ∈ is_ -> prepared !! i = Some m -> forall k, scalar_path (ps_target m) k -> P k) ->
  quiet P (fun _ => True) (rollback_scalars (W := W) prepared is_).
Proof.
  intros HP. unfold rollback_scalars. eapply (quiet_bind _ (fun _ => True)).
  - apply quiet_for_fold; [done|]. intros acc i Hi _. unfold rollback_scalar.
    rewrite list_elem_of_In, <- in_rev, <- list_elem_of_In in Hi.
    destruct (prepared !! i) as [m|] eqn:Hm; [|apply quiet_panic].
    eapply (quiet_bind _ (fun _ => True)).
    { eapply quiet_any, quiet_attempt, quiet_read_scalar. }
    intros [current|e|] _; [|by apply quiet_ret|apply quiet_panic].
    destruct (_ || _); [by apply quiet_ret|].
    eapply (quiet_bind _ (fun _ => True)).
    + eapply quiet_any, quiet_attempt, quiet_weaken; [apply quiet_write_scalar| |done].
      intros k. by eapply HP.
    + intros [] _; by apply quiet_ret.
  - intros failures _. unfold rollback_result. destruct failures; [by apply quiet_ret|apply quiet_fail].
Qed.

Lemma quiet_scalar_rollback J prepared is_ :
  journal_owned a J -> attempted_claims J prepared is_ ->
  quiet (fun k => k ∈ journal_claims J) (fun _ => True) (rollback_scalars (W := W) prepared is_).
Proof.
  intros HJ Hatt. apply quiet_rollback_scalars. intros i m Hi Hm k Hk.
  unfold attempted_claims in Hatt. rewrite Forall_forall in Hatt.
  destruct (Hatt i Hi) as (m' & Hm' & Hcl). rewrite Hm in Hm'. injection Hm' as <-.
  by eapply claimed_scalar_path.
Qed.

Context (Hwf : actuator_wf a).

Lemma wp_apply_scalars requests s : inv a d0 s -> wp (apply_scalars a requests) (post_from a d0 s) s.
Proof using Hwf.
  intros Hinv. unfold apply_scalars. apply wp_bind, wp_ensure_ready; [|intros; by apply post_same].
  intros Hready. destruct (inv_ready _ _ _ Hinv Hready) as [Hg Ho].
  destruct requests as [|request requests]; [by apply wp_ret, post_ok|].
  apply wp_bind. eapply wp_mono.
  { apply (wp_for_fold (preparing_scalars (scalar_request_ok a (journal s)) s)
      (fun s' => quiet_step no_paths s s')); [apply preparing_scalars_start|].
    intros acc x s1 _ Hp. by apply wp_prepare_scalar. }
  intros [[seen prepared]|e|] s1 Hp;
    [|by apply post_same; [eapply quiet_step_inv|apply Hp]..].
  destruct Hp as (Hs1 & Hall). simpl in *.
  assert (Hinv1 : inv a d0 s1) by by eapply quiet_step_inv.
  destruct (forallb _ prepared); [by apply wp_ret, post_ok|].
  pose proof Hs1 as [Hrt1 _]. apply wp_bind, wp_get_journal, wp_bind, wp_put_journal.
  rewrite Hrt1. set (before := journal s) in *. set (J := claim_scalars before prepared).
  destruct (claim_scalars_owned a before prepared Ho Hall) as [HJ Hclaimed]. fold J in HJ, Hclaimed.
  apply wp_bind, wp_attempt, wp_bind, wp_get_journal.
  eapply (wp_persist_owned a Hwf d0); [by apply inv_log_ok in Hinv1|exact HJ|].
  intros r s2 Hnp Hrt2 Hl2 Hg2 _. simpl in Hrt2.
  destruct r as [[]|e|]; [| |done].
  2: { apply wp_bind, wp_put_journal, wp_degrade, post_degraded. exact Hl2. }
  assert (Hi2 : scalar_inv J s2).
  { constructor; unfold ready; rewrite ?Hrt2; [by apply Hg2|done|done|done]. }
  apply wp_bind. eapply wp_mono.
  { apply (wp_write_scalars J prepared prepared 0 ∅ []); [done|done| |done|by constructor].
    intros m Hm Hw. destruct (Hall m Hm) as [Ht _ Hd _]. split; [|done].
    split; [done|]. by apply Hclaimed. }
  intros [o|e|] s3 [Hi3 Ho3]; [|by destruct Ho3|apply post_panic, Hi3].
  pose proof (quiet_scalar_rollback J prepared _ HJ Ho3) as Hroll. pose proof Hi3 as [Hg3 Hr3 Hw3 Hc3].
  assert (Hdone : inv a d0 s3).
  { apply ready_inv; [done| |done]. by rewrite (same_claims_journal _ _ Hc3). }
  destruct (so_failure o) as [[failed error]|].
  - eapply wp_abort_batch with (K := journal_claims J); done.
  - destruct (existsb _ prepared); [|by apply wp_ret, post_ok].
    apply wp_bind, wp_attempt, wp_bind, wp_get_journal.
    eapply (wp_persist_owned a Hwf d0); [apply Hg3|exact Hw3|].
    intros [[]|e|] s4 Hnp4 Hrt4 Hl4 Hg4 Hk4; [| |done].
    + apply wp_ret, post_ok, ready_inv; unfold ready; rewrite ?Hrt4; [done|by apply Hg4|done].
    + eapply wp_abort_unrecorded with (K := journal_claims J); try done.
      apply Hk4; [exact Hg3|]. intros k Hk. by rewrite (same_claims_journal _ _ Hc3).
Qed.
End apply_scalars.

(** * Safety of scalar restoration

    [restore_scalars] and [recover_scalars_locked]: a value still ours goes back
    to its original, a value someone else wrote is left alone, and every write
    is on an attribute the durable journal claims. *)

(** ** Entries under restoration *)

Record same_scalar (e e' : ScalarJournalEntry) : Prop := {
  sc_target : se_target e = se_target e';
  sc_path : se_path e = se_path e';
  sc_manifest : se_manifest e = se_manifest e';
  sc_original : se_original e = se_original e';
}.

#[export] Instance same_scalar_refl : Reflexive same_scalar.
Proof. by constructor. Qed.

Lemma scalar_shape_same je e : same_scalar je e -> scalar_shape je = scalar_shape e.
Proof. intros [_ S2 _ _]. unfold scalar_shape. by rewrite S2. Qed.

Lemma same_scalar_transition je e x y :
  same_scalar je e -> same_scalar (set_scalar_transition je x y) e.
Proof. intros [? ? ? ?]. by constructor. Qed.

Abbreviation kept_scalars J EOK es := (kept (j_scalars J) EOK same_scalar es).

Lemma kept_scalars_claims J EOK es :
  kept_scalars J EOK es -> journal_claims (with_scalars J es) = journal_claims J.
Proof.
  intros Hk. apply same_claims_journal. split; [done|].
  eapply kept_shape; [apply scalar_shape_same|exact Hk].
Qed.

(** The registered target an entry is checked against. *)
Definition identified (e : ScalarJournalEntry) (t : ScalarTarget) : Prop :=
  path_eqb (se_path e) (sct_path t) = true /\
  exists m, se_manifest e = ScalarResource m /\ scalar_manifest_eqb m (scalar_manifest t) = true.

Lemma to_scalar_target_fields m t :
  to_scalar_target m = Ok t -> sct_id t = rs_id m /\ sct_domain t = rs_domain m.
Proof.
  unfold to_scalar_target, ScalarTarget_new.
  intros (u & (v & _ & (d & _ & [= <-])%res_bind_Ok)%res_bind_Ok & (w & He%reject_if_Ok & [= <-])%res_bind_Ok)
    %res_bind_Ok.
  apply negb_false_iff in He. unfold scalar_manifest_eqb in He. simpl in *.
  rewrite !andb_true_iff, !bool_decide_eq_true in He. by destruct He as [_ He].
Qed.

(** A value of the registered domain is one of the journalled domain. *)
Lemma identified_value e t t' v :
  identified e t -> scalar_entry_target e t' -> validate_value t v = Ok tt ->
  validate_value t' v = Ok tt.
Proof.
  intros (_ & m & Hm & Heq) (m' & Hm' & _ & _ & Ht') Hv. rewrite Hm in Hm'. injection Hm' as <-.
  destruct (to_scalar_target_fields _ _ Ht') as [E1 E2].
  unfold scalar_manifest_eqb in Heq. simpl in Heq.
  rewrite !andb_true_iff, !bool_decide_eq_true in Heq. destruct Heq as [[H1 _] H2].
  unfold validate_value in *. by rewrite E1, E2, H1, H2.
Qed.

Lemma restored_scalar_valid es id je e t current :
  scalar_entry_valid es id e -> same_scalar je e -> identified e t ->
  validate_value t current = Ok tt ->
  scalar_entry_valid es id (set_scalar_transition je current (se_original e)).
Proof.
  intros [V1 V2 V3 (t' & Ht & L1 & L2 & L3)] [S1 S2 S3 S4] Hid Hv.
  pose proof (identified_value _ _ _ _ Hid Ht Hv) as Hc. destruct Ht as (m & Hm & M1 & M2 & Ht).
  constructor; simpl; try congruence. exists t'. split_and!; try done; [|by rewrite S4].
  exists m. simpl. split_and!; congruence.
Qed.

Lemma restored_scalar_owned t je e current :
  scalar_entry_of t e -> same_scalar je e -> validate_value t current = Ok tt ->
  scalar_entry_of t (set_scalar_transition je current (se_original e)).
Proof. intros [E1 E2 E3 E4 E5 E6] [S1 S2 S3 S4] Hv. constructor; simpl; congruence. Qed.

(** ** The restoration of one journal *)

Section restoring.
Context {W : Type} `{!Ports W} `{JournalCodec}.
Context (a : Actuator) (Hwf : actuator_wf a) (d0 : list (option Journal)).
Context (J : Journal) (EOK : string -> ScalarJournalEntry -> Prop) (recovery : bool).

#[local] Abbreviation journal s := (rt_journal (st_rt s)).

Record restoring_scalars (s : St W) : Prop := {
  rc_guarded : guarded d0 (journal_claims J) (st_log s);
  rc_mode : rt_mode (st_rt s) = ReadWrite;
  rc_recovery : rt_recovery_required (st_rt s) = recovery;
  rc_journal : journal s = with_scalars J (j_scalars (journal s));
  rc_kept : kept_scalars J EOK (j_scalars (journal s));
}.

Context (Hup : forall id je e t current, EOK id e -> same_scalar je e ->
  get_scalar (act_registry a) id = Some t -> identified e t -> validate_value t current = Ok tt ->
  EOK id (set_scalar_transition je current (se_original e))).
Context (Hgood : forall es, kept_scalars J EOK es -> journal_good a recovery (with_scalars J es)).
Context (Hkey : forall id e, j_scalars J !! id = Some e -> id = se_target e /\ EOK id e).

Lemma restoring_scalars_good s : restoring_scalars s -> journal_good a recovery (journal s).
Proof using Hgood. intros [_ _ _ -> Hk]. by apply Hgood. Qed.

Lemma restoring_scalars_claims s :
  restoring_scalars s -> journal_claims (journal s) = journal_claims J.
Proof. intros [_ _ _ -> Hk]. by eapply kept_scalars_claims. Qed.

Lemma restoring_scalars_inv s : restoring_scalars s -> inv a d0 s.
Proof using Hgood.
  intros Hr. pose proof (restoring_scalars_good s Hr) as Hg.
  pose proof (restoring_scalars_claims s Hr) as Hc.
  destruct Hr as [H1 H2 H3 H4 H5]. split; [apply H1|]. intros _. rewrite Hc. split; [done|].
  rewrite H3. exact Hg.
Qed.

Lemma restoring_scalars_step P s s' :
  restoring_scalars s -> quiet_step P s s' -> (forall k, P k -> k ∈ journal_claims J) ->
  restoring_scalars s'.
Proof.
  intros [H1 H2 H3 H4 H5] Hs HP. pose proof Hs as [Hrt _].
  constructor; rewrite ?Hrt; try done. by eapply guarded_step.
Qed.

(** Planned writes are on attributes [J] claims. *)
Definition planned_scalars (l : list ScalarRestoration) : Prop :=
  forall r k, r ∈ l -> scalar_path (sre_target r) k -> k ∈ journal_claims J.

Lemma wp_same_identity e t (Q : res bool ActuatorError -> St W -> Prop) s :
  Q (Ok false) s -> (identified e t -> Q (Ok true) s) -> Q Panic s ->
  wp (same_scalar_identity e t) Q s.
Proof.
  intros Hf Ht Hp. unfold same_scalar_identity.
  destruct (path_eqb (se_path e) (sct_path t)) eqn:Ep; simpl; [|by apply wp_ret].
  unfold recovery_scalar_manifest. apply wp_bind, wp_lift.
  destruct (se_manifest e) as [m|m] eqn:Em; [done|]. apply wp_ret.
  destruct (scalar_manifest_eqb m (scalar_manifest t)) eqn:E; [|done].
  apply Ht. split; [done|]. by exists m.
Qed.

Lemma identified_claim e t k :
  j_scalars J !! se_target e = Some e -> identified e t -> scalar_path t k -> k ∈ journal_claims J.
Proof.
  intros He [Hp _] ->. apply elem_of_journal_claims. right. exists (se_target e), e.
  split; [done|]. symmetry. by apply path_eqb_eq.
Qed.

Lemma wp_plan_restoration e t current s :
  restoring_scalars s -> j_scalars J !! se_target e = Some e ->
  get_scalar (act_registry a) (se_target e) = Some t -> identified e t ->
  validate_value t current = Ok tt ->
  wp (plan_restoration e t current)
    (fun r s' => restoring_scalars s' /\ exists b,
       r = Ok {| sre_entry := e; sre_target := t; sre_needs_write := b |}) s.
Proof using Hup Hkey.
  intros Hr He Ht Hid Hv. unfold plan_restoration. apply wp_bind.
  set (needs_write := _ && _). destruct needs_write; [|apply wp_ret, wp_ret; eauto].
  apply wp_bind, wp_get_journal.
  destruct (j_scalars (journal s) !! se_target e) as [je|] eqn:Hje; [|apply wp_ret, wp_ret; eauto].
  apply wp_put_journal, wp_ret. split; [|eauto].
  destruct Hr as [H1 H2 H3 H4 H5]. constructor; simpl; try done.
  - rewrite H4 at 1. done.
  - destruct (kp_entry _ _ _ _ H5 _ _ Hje) as (_ & e' & He' & Hst).
    rewrite He in He'. injection He' as <-. eapply kept_insert; [done|exact He| |].
    + by apply same_scalar_transition.
    + destruct (Hkey _ _ He) as [_ Hok]. by eapply Hup.
Qed.

Lemma planned_snoc acc r :
  planned_scalars acc -> (forall k, scalar_path (sre_target r) k -> k ∈ journal_claims J) ->
  planned_scalars (acc ++ [r]).
Proof.
  intros Hacc Hr r' k [Hin| ->%list_elem_of_singleton]%elem_of_app Hk; [by eapply Hacc|by apply Hr].
Qed.

(** The outcome of one intent. *)
Definition intent_post (r : res (list ScalarRestoration) ActuatorError) (s : St W) : Prop :=
  match r with Ok acc' => planned_scalars acc' /\ restoring_scalars s | _ => inv a d0 s end.

(** What both intents do once the identity and the value are known. *)
Lemma wp_plan_snoc acc e t current s :
  restoring_scalars s -> planned_scalars acc -> j_scalars J !! se_target e = Some e ->
  get_scalar (act_registry a) (se_target e) = Some t -> identified e t ->
  validate_value t current = Ok tt ->
  wp (r ← plan_restoration e t current; mret (acc ++ [r])) intent_post s.
Proof using Hup Hkey.
  intros Hr Hacc He Ht Hid Hv. apply wp_bind.
  eapply wp_mono; [by apply wp_plan_restoration|]. intros r s' [Hr' [b ->]].
  apply wp_ret. split; [|done]. apply planned_snoc; [done|]. simpl. intros k.
  by apply (identified_claim e).
Qed.

Lemma wp_restore_scalar_intent acc e s :
  restoring_scalars s -> planned_scalars acc -> j_scalars J !! se_target e = Some e ->
  wp (restore_scalar_intent a acc e) intent_post s.
Proof using Hup Hkey Hgood.
  intros Hr Hacc He. unfold restore_scalar_intent.
  destruct (get_scalar (act_registry a) (se_target e)) as [t|] eqn:Ht;
    [|apply wp_degrade, inv_degraded, Hr].
  apply wp_bind, wp_same_identity; [apply wp_bind, wp_degrade, inv_degraded, Hr|
    |by apply restoring_scalars_inv].
  intros Hid. apply wp_bind, wp_ret, wp_bind, wp_attempt.
  eapply wp_quiet; [apply (quiet_read_scalar no_paths)|]. intros r s1 Hs1 Hv.
  assert (Hr1 : restoring_scalars s1) by by eapply restoring_scalars_step.
  destruct r as [current|err|].
  - apply wp_plan_snoc; try done. by apply Hv.
  - apply wp_degrade, inv_degraded, Hr1.
  - by apply restoring_scalars_inv.
Qed.

Lemma wp_recover_scalar_intent acc e s :
  restoring_scalars s -> planned_scalars acc -> j_scalars J !! se_target e = Some e ->
  wp (recover_scalar_intent a acc e) intent_post s.
Proof using Hup Hkey Hgood.
  intros Hr Hacc He. unfold recover_scalar_intent.
  apply wp_bind, wp_lift.
  destruct (get_scalar (act_registry a) (se_target e)) as [t|] eqn:Ht;
    [|by apply restoring_scalars_inv]. simpl.
  apply wp_bind, wp_same_identity; [by apply wp_bind, wp_fail, restoring_scalars_inv|
    |by apply restoring_scalars_inv].
  intros Hid. apply wp_bind, wp_ret, wp_bind.
  eapply wp_quiet; [apply (quiet_read_scalar no_paths)|]. intros r s1 Hs1 Hv.
  assert (Hr1 : restoring_scalars s1) by by eapply restoring_scalars_step.
  destruct r as [current|err|]; [|by apply restoring_scalars_inv..].
  apply wp_plan_snoc; try done. by apply Hv.
Qed.

(** Storing the intents keeps every claim, whether it succeeds or not. *)
Lemma wp_store_intents (Q : res unit ActuatorError -> St W -> Prop) s :
  restoring_scalars s -> (forall r s', restoring_scalars s' -> Q r s') ->
  wp (j ← get_journal; persist_journal j) Q s.
Proof using Hwf Hgood.
  intros Hr HQ. apply wp_bind, wp_get_journal.
  eapply (wp_persist d0); [apply Hr|apply (good_stored a Hwf recovery), restoring_scalars_good, Hr|].
  intros r s' _ Hrt Hl Hg Hk. apply HQ. pose proof (restoring_scalars_claims s Hr) as Hc.
  destruct Hr as [G1 G2 G3 G4 G5]. constructor; rewrite ?Hrt; try done.
  apply Hk; [done|]. by rewrite Hc.
Qed.

Lemma wp_write_original {A} r (k : res ScalarValue ActuatorError -> M W A)
    (Q : res A ActuatorError -> St W -> Prop) s :
  restoring_scalars s -> (forall p, scalar_path (sre_target r) p -> p ∈ journal_claims J) ->
  (forall w s', restoring_scalars s' -> wp (k w) Q s') ->
  (forall s', restoring_scalars s' -> Q Panic s') ->
  wp (w ← attempt (write_scalar (sre_target r) (se_original (sre_entry r))); k w) Q s.
Proof.
  intros Hr HP Hk Hpanic. apply wp_bind, wp_attempt.
  eapply wp_quiet; [apply quiet_write_scalar|]. intros w s1 Hs1 _.
  assert (Hr1 : restoring_scalars s1) by by eapply restoring_scalars_step.
  destruct w; auto.
Qed.
End restoring.

(** ** [restore_scalars] *)

Section restore_scalars.
Context {W : Type} `{!Ports W} `{JournalCodec}.
Context (a : Actuator) (Hwf : actuator_wf a) (d0 : list (option Journal)).

#[local] Abbreviation journal s := (rt_journal (st_rt s)).

Definition owned_scalar_entry (id : string) (e : ScalarJournalEntry) : Prop :=
  exists t, reg_scalar_targets (act_registry a) !! id = Some t /\ scalar_entry_of t e.

Lemma owned_scalar_entry_back id je e t current :
  owned_scalar_entry id e -> same_scalar je e -> get_scalar (act_registry a) id = Some t ->
  identified e t -> validate_value t current = Ok tt ->
  owned_scalar_entry id (set_scalar_transition je current (se_original e)).
Proof.
  intros (t' & Ht' & He) Hs Ht _ Hv. unfold get_scalar in Ht. rewrite Ht in Ht'.
  injection Ht' as <-. exists t. split; [done|]. by apply restored_scalar_owned.
Qed.

Lemma owned_scalar_entry_key J id e :
  journal_owned a J -> j_scalars J !! id = Some e -> id = se_target e /\ owned_scalar_entry id e.
Proof using Hwf.
  intros [_ _ Ho] He. destruct (Ho _ _ He) as (t & Ht & Heo). split; [|by exists t].
  destruct (rw_scalars _ (aw_registry _ Hwf) _ _ Ht) as [<- _]. by destruct Heo.
Qed.

Lemma kept_scalars_owned J es :
  journal_owned a J -> kept_scalars J owned_scalar_entry es -> journal_owned a (with_scalars J es).
Proof.
  intros [[H1 H2 H3] He _] Hk. constructor; [by constructor|done|].
  intros id e Hl. by apply (kp_entry _ _ _ _ Hk).
Qed.

Lemma give_up_scalars J es :
  journal_owned a J -> es ⊆ j_scalars J ->
  journal_owned a (with_scalars J es) /\
  forall k, k ∈ journal_claims (with_scalars J es) -> k ∈ journal_claims J.
Proof.
  intros [[H1 H2 H3] Ho Hs] Hsub. split.
  - constructor; [by constructor|done|]. intros id e He. apply Hs. by eapply lookup_weaken.
  - intros k Hk. apply elem_of_journal_claims in Hk. apply elem_of_journal_claims.
    destruct Hk as [Hk|(id & e & He & Hk)]; [by left|right].
    exists id, e. split; [by eapply lookup_weaken|done].
Qed.

Lemma wp_restore_scalar_write J r s :
  restoring_scalars d0 J owned_scalar_entry false s -> journal_owned a J ->
  (forall p, scalar_path (sre_target r) p -> p ∈ journal_claims J) ->
  wp (restore_scalar_write r)
    (fun r s' => match r with
                 | Ok _ => restoring_scalars d0 J owned_scalar_entry false s'
                 | _ => inv a d0 s'
                 end) s.
Proof.
  intros Hr Ho HP. unfold restore_scalar_write. destruct (sre_needs_write r); [|by apply wp_ret].
  assert (Hinv : forall s' : St W, restoring_scalars d0 J owned_scalar_entry false s' -> inv a d0 s').
  { intros s'. apply restoring_scalars_inv. intros es. by apply kept_scalars_owned. }
  eapply wp_write_original; [exact Hr|exact HP| |done].
  intros [v|e|] s' Hs'; [by apply wp_ret| |by apply wp_ret].
  apply wp_degrade, inv_degraded, Hs'.
Qed.

Lemma wp_restore_scalars ids s : inv a d0 s -> wp (restore_scalars a ids) (post a d0) s.
Proof using Hwf.
  intros Hinv. unfold restore_scalars.
  apply wp_bind, wp_ensure_ready; [|intros; by apply post_inv].
  intros Hready. destruct (inv_ready _ _ _ Hinv Hready) as [Hg Ho]. destruct Hready as [Hm Hrec].
  apply wp_bind, wp_get_journal. set (J := journal s) in *.
  set (es := omap (fun id => j_scalars J !! id) ids).
  assert (Hin : forall e, e ∈ es -> j_scalars J !! se_target e = Some e).
  { intros e (id & _ & He)%list_elem_of_omap.
    destruct (owned_scalar_entry_key J id e Ho He) as [<- _]. done. }
  assert (Hkey : forall id e, j_scalars J !! id = Some e -> id = se_target e /\ owned_scalar_entry id e).
  { intros id e. by apply owned_scalar_entry_key. }
  assert (Hgood : forall es, kept_scalars J owned_scalar_entry es ->
    journal_good a false (with_scalars J es)) by (intros es'; by apply kept_scalars_owned).
  set (R := restoring_scalars (W := W) d0 J owned_scalar_entry false).
  assert (HR : forall s' : St W, R s' -> inv a d0 s') by (intros s'; by apply restoring_scalars_inv).
  assert (Hstart : R s).
  { constructor; [done|done|done|by destruct (journal s)|].
    apply (kept_start _ _ _). intros id e He. by apply Hkey. }
  apply wp_bind. eapply wp_mono.
  { apply (wp_for_fold (fun acc s => planned_scalars J acc /\ R s) (inv a d0)).
    - split; [|done]. intros r k Hr. set_solver.
    - intros acc e s1 He [Hacc H1].
      apply (wp_restore_scalar_intent a d0 J owned_scalar_entry false); try done;
        [apply owned_scalar_entry_back|by apply Hin]. }
  intros [restoration|e|] s1 H1; [|by apply post_inv..]. destruct H1 as [Hplan H1].
  assert (Hcontinue : forall s', R s' ->
    wp (for_unit restore_scalar_write restoration;;
        j ← get_journal;
        put_journal (next_generation (with_scalars j
          (foldl (fun es e => delete (se_target e) es) (j_scalars j) es)));;
        persist_or_remove_locked "scalar restore") (post a d0) s').
  2: { apply wp_bind. destruct (existsb _ _); [|by apply wp_ret, Hcontinue].
    apply wp_bind, wp_attempt. eapply (wp_store_intents a Hwf d0 J owned_scalar_entry false); [done|done|].
    intros [[]|e|] s2 H2; [by apply wp_ret, Hcontinue| |by apply post_inv, HR].
    apply wp_degrade, post_inv, inv_degraded, H2. }
  clear s1 H1. intros s1 H1. apply wp_bind. eapply wp_mono.
  { apply (wp_for_fold (fun _ => R) (inv a d0)); [done|].
    intros [] r s2 Hr H2. apply wp_restore_scalar_write; [done|done|]. intros p. by apply Hplan. }
  intros [[]|e|] s2 H2; [|by apply post_inv..].
  apply wp_bind, wp_get_journal, wp_bind, wp_put_journal. set (final := next_generation _).
  assert (Hfinal : journal_owned a final /\ forall k, k ∈ journal_claims final -> k ∈ journal_claims J).
  { pose proof (restoring_scalars_good a d0 J owned_scalar_entry false Hgood s2 H2) as Ho2.
    rewrite <- (restoring_scalars_claims d0 J owned_scalar_entry false s2 H2).
    destruct (give_up_scalars _ _ Ho2 (delete_all_subseteq se_target (j_scalars (journal s2)) es))
      as [[[A1 A2 A3] A4 A5] Hc]. split; [by constructor|exact Hc]. }
  destruct Hfinal as [Ho3 Hc3].
  apply (wp_persist_or_remove_locked d0); [apply H2|simpl; intros; by eapply owned_valid| |].
  - intros s3 Hrt3 Hg3. apply post_inv, ready_inv; unfold ready; rewrite ?Hrt3; simpl; [|done|done].
    by destruct H2.
  - intros e s3 reason Hl3 Hrt3. apply post_inv. split; [done|]. by rewrite Hrt3.
Qed.
End restore_scalars.

(** ** [recover_scalars_locked] *)

Section recover_scalars.
Context {W : Type} `{!Ports W} `{JournalCodec}.
Context (a : Actuator) (Hwf : actuator_wf a) (d0 : list (option Journal)).

#[local] Abbreviation journal s := (rt_journal (st_rt s)).

Lemma kept_scalars_valid J es :
  journal_valid J -> kept_scalars J (scalar_entry_valid (j_entries J)) es ->
  journal_valid (with_scalars J es).
Proof.
  intros [V1 V2 V3 V4 V5 V6 V7 V8] Hk. constructor; try done.
  - intros id e He. by apply (kp_entry _ _ _ _ Hk).
  - by rewrite (kept_scalars_claims J _ es Hk).
Qed.

(** Recovery of the scalars: success keeps the journal recoverable. *)
Lemma wp_recover_scalars s :
  let J := journal s in
  guarded d0 (journal_claims J) (st_log s) -> rt_mode (st_rt s) = ReadWrite ->
  rt_recovery_required (st_rt s) = true -> journal_valid J ->
  wp (recover_scalars_locked a)
    (fun r s' => match r with
                 | Ok _ => restoring_scalars d0 J (scalar_entry_valid (j_entries J)) true s'
                 | _ => inv a d0 s'
                 end) s.
Proof using Hwf.
  intros J Hg Hm Hrec Hv. unfold recover_scalars_locked. apply wp_bind, wp_get_journal.
  change (rt_journal (st_rt s)) with J. set (EOK := scalar_entry_valid (j_entries J)).
  assert (Hkey : forall id e, j_scalars J !! id = Some e -> id = se_target e /\ EOK id e).
  { intros id e He. destruct Hv as [_ _ _ _ V5 _ _ _]. pose proof (V5 id e He). by destruct (V5 id e He). }
  assert (Hgood : forall es, kept_scalars J EOK es -> journal_good a true (with_scalars J es)).
  { intros es. by apply kept_scalars_valid. }
  set (R := restoring_scalars (W := W) d0 J EOK true).
  assert (HR : forall s' : St W, R s' -> inv a d0 s') by (intros s'; by apply restoring_scalars_inv).
  assert (Hstart : R s).
  { constructor; [done|done|done|by destruct (journal s)|].
    apply (kept_start _ _ _). intros id e He. by apply Hkey. }
  destruct (bool_decide _); [by apply wp_ret|]. apply wp_bind. eapply wp_mono.
  { apply (wp_for_fold (fun acc s => planned_scalars J acc /\ R s) (inv a d0)).
    - split; [|done]. intros r k Hr. set_solver.
    - intros acc e s1 [id He]%elem_of_values [Hacc H1].
      apply (wp_recover_scalar_intent a d0 J EOK true); try done.
      + intros id' je e' t current Hok Hs _ Hid Hc. by eapply restored_scalar_valid.
      + by destruct (Hkey _ _ He) as [<- _]. }
  intros [restoration|e|] s1 H1; [|done..]. destruct H1 as [Hplan H1].
  apply wp_bind.
  assert (Hw : forall s', R s' ->
    wp (for_unit (fun r =>
      if sre_needs_write r
      then write_scalar (sre_target r) (se_original (sre_entry r));; mret tt
      else mret tt) restoration)
      (fun r s' => match r with Ok _ => R s' | _ => inv a d0 s' end) s').
  { intros s' H'. apply (wp_for_fold (fun _ => R) (inv a d0)); [done|].
    intros [] r s2 Hr H2. destruct (sre_needs_write r); [|by apply wp_ret]. apply wp_bind.
    eapply wp_quiet; [apply quiet_write_scalar|]. intros w s3 Hs3 _.
    assert (H3 : R s3) by (eapply restoring_scalars_step; [done|exact Hs3|intros p; by apply Hplan]).
    destruct w; [done|by apply HR..]. }
  destruct (existsb _ _); [|by apply wp_ret, Hw].
  eapply (wp_store_intents a Hwf d0 J EOK true); [done|done|].
  intros [[]|e|] s2 H2; [by apply Hw|by apply HR..].
Qed.
End recover_scalars.
