(* ===== verification/OtherSafety.v ===== *)
(** * Safety of the task and unit transactions

    They never write an attribute, and they change only the task and unit parts
    of the journal: whatever they store, the claims of the durable journal stay
    the same. *)

From S2P Require Import Prelude Domain Text Strings ActuatorTypes Scalars Targets Journal JournalFacts Ports FrequencyOps ScalarOps TaskOps UnitOps Ownership FrequencySafety.

(** ** Routines that make no claim *)

Section quiet_tasks.
Context {W : Type} `{!Ports W} `{JournalCodec}.
Implicit Types P : path_key -> Prop.

Lemma quiet_identity P p : quiet P (fun _ => True) (get_process_identity (W := W) p).
Proof. by apply quiet_call. Qed.
Lemma quiet_read_task P p : quiet P (fun _ => True) (io_read_scheduling (W := W) p).
Proof. by apply quiet_call. Qed.
Lemma quiet_write_task P p s : quiet P (fun _ => True) (io_write_scheduling (W := W) p s).
Proof. by apply quiet_call. Qed.
Hint Resolve quiet_identity quiet_read_task quiet_write_task : quiet.

Lemma quiet_is_current P i : quiet P (fun _ => True) (process_identity_is_current (W := W) i).
Proof. unfold process_identity_is_current. quiet_tac. Qed.
Hint Resolve quiet_is_current : quiet.
Lemma quiet_verify P i : quiet P (fun _ => True) (verify_process_identity (W := W) i).
Proof. unfold verify_process_identity. quiet_tac. Qed.
Hint Resolve quiet_verify : quiet.

Lemma quiet_record_failure P fs i m :
  quiet P (fun _ => True) (record_task_rollback_failure_if_present (W := W) fs i m).
Proof. unfold record_task_rollback_failure_if_present. quiet_tac. Qed.
Hint Resolve quiet_record_failure : quiet.

Lemma quiet_rollback_task P att fs kv :
  quiet P (fun _ => True) (rollback_task (W := W) att fs kv).
Proof. unfold rollback_task. quiet_tac. Qed.

Lemma quiet_rollback_tasks P prepared att :
  quiet P (fun _ => True) (rollback_tasks (W := W) prepared att).
Proof.
  unfold rollback_tasks, rollback_result. eapply (quiet_bind _ (fun _ => True)).
  - apply quiet_for_fold; [done|]. intros. apply quiet_rollback_task.
  - intros fs _. quiet_tac.
Qed.

Lemma quiet_observe_task P acc r : quiet P (fun _ => True) (observe_task (W := W) acc r).
Proof. unfold observe_task. quiet_tac. Qed.

Lemma quiet_recover_task P e : quiet P (fun _ => True) (recover_task (W := W) e).
Proof. unfold recover_task. quiet_tac. Qed.

Lemma quiet_backends P a : quiet P (fun _ => True) (require_task_backends (W := W) a).
Proof. unfold require_task_backends. quiet_tac. Qed.
Hint Resolve quiet_backends : quiet.

Lemma quiet_recover_tasks P a : quiet P (fun _ => True) (recover_tasks_locked (W := W) a).
Proof.
  unfold recover_tasks_locked, for_unit. quiet_tac.
  apply quiet_for_fold; [done|]. intros. apply quiet_recover_task.
Qed.

(** *** Units *)

Lemma quiet_unit_identity P u : quiet P (fun _ => True) (get_unit_instance_identity (W := W) u).
Proof. by apply quiet_call. Qed.
Lemma quiet_read_unit P u : quiet P (fun _ => True) (io_read_unit (W := W) u).
Proof. by apply quiet_call. Qed.
Lemma quiet_write_unit P u p : quiet P (fun _ => True) (io_write_unit (W := W) u p).
Proof. by apply quiet_call. Qed.
Hint Resolve quiet_unit_identity quiet_read_unit quiet_write_unit : quiet.

Lemma quiet_unit_is_current P i : quiet P (fun _ => True) (unit_instance_is_current (W := W) i).
Proof. unfold unit_instance_is_current. quiet_tac. Qed.
Hint Resolve quiet_unit_is_current : quiet.
Lemma quiet_verify_unit P i : quiet P (fun _ => True) (verify_unit_instance (W := W) i).
Proof. unfold verify_unit_instance. quiet_tac. Qed.
Hint Resolve quiet_verify_unit : quiet.

Lemma quiet_rollback_unit P att fs kv :
  quiet P (fun _ => True) (rollback_unit (W := W) att fs kv).
Proof. unfold rollback_unit. quiet_tac. Qed.

Lemma quiet_rollback_units P prepared att :
  quiet P (fun _ => True) (rollback_units (W := W) prepared att).
Proof.
  unfold rollback_units, rollback_result. eapply (quiet_bind _ (fun _ => True)).
  - apply quiet_for_fold; [done|]. intros. apply quiet_rollback_unit.
  - intros fs _. quiet_tac.
Qed.

Lemma quiet_observe_unit P acc r : quiet P (fun _ => True) (observe_unit (W := W) acc r).
Proof. unfold observe_unit. quiet_tac. Qed.

Lemma quiet_recover_unit P e : quiet P (fun _ => True) (recover_unit (W := W) e).
Proof. unfold recover_unit. quiet_tac. Qed.

Lemma quiet_recover_units P a : quiet P (fun _ => True) (recover_units_locked (W := W) a).
Proof.
  unfold recover_units_locked, for_unit. quiet_tac.
  apply quiet_for_fold; [done|]. intros. apply quiet_recover_unit.
Qed.
End quiet_tasks.

#[export] Hint Resolve quiet_identity quiet_read_task quiet_write_task quiet_is_current : quiet.
#[export] Hint Resolve quiet_verify quiet_record_failure quiet_rollback_tasks quiet_backends : quiet.
#[export] Hint Resolve quiet_unit_identity quiet_read_unit quiet_write_unit : quiet.
#[export] Hint Resolve quiet_unit_is_current quiet_verify_unit quiet_rollback_units : quiet.

(** ** Routines that keep the claims *)

Section keeps.
Context {W : Type} `{!Ports W} `{JournalCodec}.
Context (a : Actuator) (d0 : list (option Journal)).

#[local] Abbreviation journal s := (rt_journal (st_rt s)).

(** The invariant of a ready actuator, degraded or not. *)
Record calm (s : St W) : Prop := {
  cm_log : log_ok d0 (st_log s);
  cm_owned : journal_owned a (journal s);
  cm_ready : rt_mode (st_rt s) = ReadWrite ->
    rt_recovery_required (st_rt s) = false /\ guarded d0 (journal_claims (journal s)) (st_log s);
}.

Lemma calm_inv s : calm s -> inv a d0 s.
Proof.
  intros [H1 H2 H3]. split; [done|]. intros Hm. destruct (H3 Hm) as [-> Hg]. done.
Qed.

Lemma ready_calm s : inv a d0 s -> ready s -> calm s.
Proof.
  intros Hi Hr. pose proof (inv_ready _ _ _ Hi Hr) as [Hg Ho]. destruct Hr.
  constructor; [apply Hg|done|done].
Qed.

Definition keeps {A} (m : M W A) : Prop := forall s, calm s -> wp m (fun _ s' => calm s') s.

Lemma keeps_quiet {A} (R : A -> Prop) m : quiet no_paths R m -> keeps m.
Proof.
  intros Hq s Hc. eapply wp_quiet; [exact Hq|]. intros r s' Hs _. pose proof Hs as [Hrt _].
  destruct Hc as [H1 H2 H3].
  assert (Hg : forall K, guarded d0 K (st_log s) -> guarded d0 K (st_log s'))
    by (intros K HK; by eapply guarded_step).
  constructor; rewrite ?Hrt; [|done|].
  - assert (H0 : guarded d0 [] (st_log s)) by (split; [done|set_solver]). by apply Hg in H0 as [? _].
  - intros Hm. destruct (H3 Hm). auto.
Qed.

Lemma keeps_ret {A} (x : A) : keeps (mret x).
Proof. by apply (keeps_quiet (fun _ => True)), quiet_ret. Qed.
Lemma keeps_fail {A} e : keeps (A := A) (fail e).
Proof. by apply (keeps_quiet (fun _ => True)), quiet_fail. Qed.
Lemma keeps_panic {A} : keeps (A := A) panic.
Proof. by apply (keeps_quiet (fun _ => True)), quiet_panic. Qed.
Lemma keeps_lift {A} (r : res A ActuatorError) : keeps (lift r).
Proof. by apply (keeps_quiet (fun _ => True)), quiet_lift. Qed.
Lemma keeps_get : keeps get_journal.
Proof. by intros s. Qed.

Lemma keeps_degrade {A} reason : keeps (A := A) (degrade reason).
Proof. intros s [H1 H2 H3]. apply wp_degrade. by constructor. Qed.

Lemma keeps_bind {A B} (m : M W A) (k : A -> M W B) :
  keeps m -> (forall x, keeps (k x)) -> keeps (x ← m; k x).
Proof.
  intros Hm Hk s Hs. apply wp_bind. eapply wp_mono; [by apply Hm|].
  intros [x|e|] s' Hs'; [by apply Hk|done|done].
Qed.

Lemma keeps_attempt {A} (m : M W A) : keeps m -> keeps (attempt m).
Proof. intros Hm s Hs. apply wp_attempt. eapply wp_mono; [by apply Hm|]. by intros []. Qed.

Lemma keeps_for_fold {A S} (f : S -> A -> M W S) acc l :
  (forall acc x, keeps (f acc x)) -> keeps (for_fold f acc l).
Proof.
  intros Hf. revert acc. induction l as [|x l IH]; intros acc; simpl; [apply keeps_ret|].
  apply keeps_bind; [apply Hf|apply IH].
Qed.

(** A change of the task and unit parts, and of the generation. *)
Definition other_update (j' j : Journal) : Prop :=
  j_schema_version j' = j_schema_version j /\ j_boot_id j' = j_boot_id j /\
  j_device_fingerprint j' = j_device_fingerprint j /\ j_entries j' = j_entries j /\
  j_scalars j' = j_scalars j.

Lemma calm_put j s :
  calm s -> other_update j (journal s) -> calm (with_rt s (with_journal (st_rt s) j)).
Proof.
  intros [H1 [[A1 A2 A3] A4 A5] H3] (E1 & E2 & E3 & E4 & E5). constructor; simpl; [done| |].
  - constructor; [constructor; congruence|by rewrite E4|by rewrite E5].
  - intros Hm. destruct (H3 Hm) as [Hr Hg]. split; [done|].
    unfold journal_claims. rewrite E4, E5. exact Hg.
Qed.

Lemma keeps_update {B} (f : Journal -> Journal) (k : Journal -> M W B) :
  (forall j, other_update (f j) j) -> (forall j, keeps (k j)) ->
  keeps (j ← get_journal; put_journal (f j);; k j).
Proof.
  intros Hf Hk s Hs. apply wp_bind, wp_get_journal, wp_bind, wp_put_journal, Hk, calm_put; auto.
Qed.

Context (Hwf : actuator_wf a).

Lemma keeps_persist_current : keeps (j ← get_journal; persist_or_remove_journal j).
Proof using Hwf.
  intros s Hs. apply wp_bind, wp_get_journal. pose proof Hs as [H1 H2 H3].
  unfold persist_or_remove_journal. destruct (journal_is_empty (journal s)) eqn:E.
  - apply wp_call. intros r w.
    assert (Hok : log_ok d0 (st_log s ++ [EvRemove r])) by by apply log_ok_snoc.
    constructor; simpl; [done|done|]. intros Hm. destruct (H3 Hm) as [Hr _]. split; [done|].
    split; [done|]. rewrite (journal_is_empty_claims _ E). set_solver.
  - eapply (wp_persist_owned a Hwf d0); [done|done|].
    intros r s' _ Hrt Hl _ Hk. constructor; rewrite ?Hrt; [done|done|].
    intros Hm. destruct (H3 Hm). auto.
Qed.

Lemma keeps_persist_or_remove_locked what : keeps (persist_or_remove_locked what).
Proof using Hwf.
  intros s Hs. pose proof (keeps_attempt _ keeps_persist_current s Hs) as Hk.
  revert Hk. unfold persist_or_remove_locked, wp, mbind, M_bind, get_journal, attempt.
  simpl. destruct (persist_or_remove_journal _ s) as [[[]|e|] s']; simpl; [done| |done].
  intros Hk. by apply (keeps_degrade (A := unit)).
Qed.
End keeps.

(** Decompose a routine that keeps the claims. *)
Ltac keeps_tac :=
  repeat match goal with
  | |- keeps _ _ (mret _) => apply keeps_ret
  | |- keeps _ _ (fail _) => apply keeps_fail
  | |- keeps _ _ panic => apply keeps_panic
  | |- keeps _ _ (lift _) => apply keeps_lift
  | |- keeps _ _ (degrade _) => apply keeps_degrade
  | |- keeps _ _ get_journal => apply keeps_get
  | |- keeps _ _ (attempt _) => apply keeps_attempt
  | |- keeps _ _ (persist_or_remove_locked _) => by apply keeps_persist_or_remove_locked
  | |- keeps _ _ (mbind _ get_journal) =>
      first [by apply keeps_persist_current
            | apply keeps_update; [by intros ?|intros ?]]
  | |- keeps _ _ (mbind _ _) => apply keeps_bind; [|intros ?]
  | |- keeps _ _ (if ?b then _ else _) => destruct b eqn:?
  | |- keeps _ _ (match ?x with _ => _ end) => destruct x eqn:?
  | |- keeps _ _ (for_unit _ _) => unfold for_unit
  | |- keeps _ _ (for_fold _ _ _) => apply keeps_for_fold; intros ? ?
  | |- keeps _ _ _ => by eapply keeps_quiet; eauto with quiet
  end.

(** ** The operations *)

Section operations.
Context {W : Type} `{!Ports W} `{JournalCodec}.
Context (a : Actuator) (d0 : list (option Journal)).

Abbreviation keeps := (keeps (W := W) a d0).

Lemma keeps_record_task i s : keeps (record_task i s).
Proof.
  intros st Hs. unfold record_task. apply wp_bind, wp_get_journal.
  destruct (_ !! _); [|by apply wp_ret]. by apply wp_put_journal, calm_put.
Qed.

Lemma keeps_write_tasks prepared l applied attempted :
  keeps (write_tasks prepared l applied attempted).
Proof.
  revert applied attempted. induction l as [|r l IH]; intros applied attempted; simpl; keeps_tac.
  all: first [apply keeps_record_task | apply IH].
Qed.

Lemma keeps_record_unit u p : keeps (record_unit u p).
Proof.
  intros st Hs. unfold record_unit. apply wp_bind, wp_get_journal.
  destruct (_ !! _); [|by apply wp_ret]. by apply wp_put_journal, calm_put.
Qed.

Lemma keeps_write_units prepared l applied attempted :
  keeps (write_units prepared l applied attempted).
Proof.
  revert applied attempted. induction l as [|r l IH]; intros applied attempted; simpl; keeps_tac.
  all: first [apply keeps_record_unit | apply IH].
Qed.

Lemma keeps_or_degrade {A} (m : M W A) reason : keeps m -> keeps (or_degrade m reason).
Proof. intros Hm. unfold or_degrade. keeps_tac. done. Qed.

Lemma keeps_restore_task e : keeps (restore_task e).
Proof.
  unfold restore_task. keeps_tac; apply keeps_or_degrade; by eapply keeps_quiet; eauto with quiet.
Qed.

Lemma keeps_restore_unit e : keeps (restore_unit e).
Proof.
  unfold restore_unit. keeps_tac; apply keeps_or_degrade; by eapply keeps_quiet; eauto with quiet.
Qed.

Context (Hwf : actuator_wf a).

(** A guarded operation: nothing happens unless the actuator is ready. *)
Lemma wp_ready_keeps {A} (m : M W A) s :
  inv a d0 s -> keeps m -> wp (ensure_mutation_ready;; m) (post a d0) s.
Proof.
  intros Hi Hm. apply wp_bind, wp_ensure_ready; [|intros; by apply post_inv].
  intros Hr. eapply wp_mono; [apply Hm, ready_calm; done|]. intros r s' Hs.
  by apply post_inv, calm_inv.
Qed.

Lemma wp_apply_tasks l s : inv a d0 s -> wp (apply_tasks a l) (post a d0) s.
Proof using Hwf.
  intros Hi. apply wp_ready_keeps; [done|]. keeps_tac;
    first [apply keeps_write_tasks | eapply keeps_quiet, quiet_observe_task].
Qed.

Lemma wp_apply_units l s : inv a d0 s -> wp (apply_units a l) (post a d0) s.
Proof using Hwf.
  intros Hi. apply wp_ready_keeps; [done|]. keeps_tac;
    first [apply keeps_write_units | eapply keeps_quiet, quiet_observe_unit].
Qed.

Lemma wp_restore_tasks l s : inv a d0 s -> wp (restore_tasks a l) (post a d0) s.
Proof using Hwf.
  intros Hi. apply wp_ready_keeps; [done|]. keeps_tac. apply keeps_restore_task.
Qed.

Lemma wp_restore_units l s : inv a d0 s -> wp (restore_units a l) (post a d0) s.
Proof using Hwf.
  intros Hi. apply wp_ready_keeps; [done|]. keeps_tac. apply keeps_restore_unit.
Qed.
End operations.
