(* ===== verification/ActuatorSafety.v ===== *)
(** * Safety of startup and recovery

    [FrequencyActuator::new], [recover_pending] and [restore_all] keep the
    invariant: a loaded journal claims every attribute that recovery writes, and
    it is discarded only once everything it claims has been given back. *)

From S2P Require Import Prelude Domain Text Strings ActuatorTypes Scalars Targets Journal JournalFacts Ports FrequencyOps ScalarOps TaskOps UnitOps Recovery Ownership FrequencySafety RestoreSafety ScalarSafety OtherSafety.

Section recover.
Context {W : Type} `{!Ports W} `{JournalCodec}.
Context (a : Actuator) (d0 : list (option Journal)).

#[local] Abbreviation journal s := (rt_journal (st_rt s)).

(** A loaded journal of this boot and device, still to be recovered. *)
Record recovering (s : St W) : Prop := {
  rv_guarded : guarded d0 (journal_claims (journal s)) (st_log s);
  rv_valid : journal_valid (journal s);
  rv_mode : rt_mode (st_rt s) = ReadWrite;
  rv_required : rt_recovery_required (st_rt s) = true;
  rv_boot : j_boot_id (journal s) = act_boot_id a;
  rv_fingerprint : j_device_fingerprint (journal s) = act_device_fingerprint a;
}.

Lemma recovering_inv s : recovering s -> inv a d0 s.
Proof. intros [H1 H2 H3 H4 _ _]. split; [apply H1|]. intros _. by rewrite H4. Qed.

Lemma recovering_step P s s' :
  recovering s -> quiet_step P s s' -> (forall k, P k -> False) -> recovering s'.
Proof.
  intros [H1 H2 H3 H4 H5 H6] Hs HP. pose proof Hs as [Hrt _].
  constructor; rewrite ?Hrt; try done. eapply guarded_step; [exact Hs|done|]. by intros k ?%HP.
Qed.

Lemma wp_chain_degrade {A B} (m : M W A) what (k : M W B) s :
  wp m (fun r s' => match r with Ok _ => wp k (post a d0) s' | _ => log_ok d0 (st_log s') end) s ->
  wp (degrade_on_error m what;; k) (post a d0) s.
Proof.
  intros Hm. unfold degrade_on_error. apply wp_bind, wp_bind, wp_attempt.
  eapply wp_mono; [exact Hm|]. intros [x|e|] s' Hs'.
  - by apply wp_ret.
  - apply wp_degrade, post_inv, inv_degraded, Hs'.
  - by split.
Qed.

(** A quiet step of recovery. *)
Lemma wp_chain_quiet {A B} (R : A -> Prop) (m : M W A) what (k : M W B) s :
  quiet no_paths R m -> recovering s ->
  (forall s', recovering s' -> wp k (post a d0) s') ->
  wp (degrade_on_error m what;; k) (post a d0) s.
Proof.
  intros Hq Hr Hk. apply wp_chain_degrade. eapply wp_quiet; [exact Hq|]. intros r s' Hs _.
  assert (Hr' : recovering s') by by eapply recovering_step.
  destruct r; [by apply Hk|apply Hr'..].
Qed.

(** Dropping the durable journal, which claims nothing any more. *)
Lemma wp_chain_remove {B} what (k : M W B) s :
  log_ok d0 (st_log s) ->
  (forall s', st_rt s' = st_rt s -> log_ok d0 (st_log s') -> wp k (post a d0) s') ->
  wp (degrade_on_error (call remove_durable EvRemove) what;; k) (post a d0) s.
Proof.
  intros Hl Hk. apply wp_chain_degrade, wp_call. intros r w.
  assert (Hok : log_ok d0 (st_log s ++ [EvRemove r])) by by apply log_ok_snoc.
  destruct r as [e|[]]; [done|]. by apply Hk.
Qed.

Lemma empty_claims j : j_entries j = ∅ -> j_scalars j = ∅ -> journal_claims j = [].
Proof. intros He Hs. unfold journal_claims, shape_claims. by rewrite He, Hs. Qed.

(** A journal without entries is owned. *)
Lemma empty_inv (s : St W) (rt : RuntimeState) :
  log_ok d0 (st_log s) -> header_ok a (rt_journal rt) -> j_entries (rt_journal rt) = ∅ ->
  j_scalars (rt_journal rt) = ∅ -> rt_recovery_required rt = false -> inv a d0 (with_rt s rt).
Proof.
  intros Hl Hh He Hs Hr. split; [done|]. intros _. simpl. rewrite Hr. split.
  - split; [done|]. rewrite empty_claims by done. intros oj k _ Hk. by apply elem_of_nil in Hk.
  - constructor; [done|..]; unfold entries_owned, scalars_owned; rewrite ?He, ?Hs;
      intros id e; by rewrite lookup_empty.
Qed.

Context (Hwf : actuator_wf a).

Lemma wp_recover_frequencies s :
  recovering s ->
  wp (recover_frequencies a)
    (fun r s' => match r with Ok _ => recovering s' | _ => inv a d0 s' end) s.
Proof using Hwf.
  intros [H1 H2 H3 H4 H5 H6]. unfold recover_frequencies. apply wp_bind, wp_get_journal.
  set (J := journal s) in *.
  assert (Hkey : forall id e, j_entries J !! id = Some e -> id = je_target e /\ frequency_entry_valid id e).
  { intros id e He. pose proof (jv_entries _ H2 id e He) as Hv. split; [by destruct Hv|done]. }
  assert (Hgood : forall es, kept_entries J frequency_entry_valid es ->
    journal_good a true (with_entries J es)) by (intros es; by apply kept_valid).
  eapply wp_mono.
  { apply (wp_restore_all a Hwf d0 J frequency_entry_valid true);
      [apply back_to_original_valid|exact Hgood|exact Hkey| |].
    - constructor; [done|done|done|by destruct (journal s)|].
      apply (kept_start _ _ _). intros id e He. by apply Hkey.
    - intros acc e s1 [id He]%elem_of_values Hr1 Hacc.
      destruct (Hkey _ _ He) as [-> _]. unfold recover_frequency_intent.
      destruct (get (act_registry a) (je_target e)) as [t|] eqn:Ht;
        [|apply wp_degrade, inv_degraded, Hr1].
      destruct (path_eqb (ft_min_path t) (je_min_path e)) eqn:P1;
        [|apply wp_degrade, inv_degraded, Hr1].
      destruct (path_eqb (ft_max_path t) (je_max_path e)) eqn:P2;
        [|apply wp_degrade, inv_degraded, Hr1].
      simpl. apply wp_bind, wp_lift. unfold recovery_frequency_manifest.
      destruct (je_resource_manifest e);
        [|by apply (restoring_inv a d0 J frequency_entry_valid true)].
      destruct (negb _); [apply wp_degrade, inv_degraded, Hr1|].
      apply (wp_restore_intent a d0 J frequency_entry_valid true);
        [apply back_to_original_valid|exact Hgood|exact Hkey|done|done|done|].
      intros t' k Ht' Hk. rewrite Ht in Ht'. injection Ht' as <-.
      destruct (entry_claims _ _ _ He) as [C1 C2].
      apply path_eqb_eq in P1, P2. rewrite <- P1 in C1. rewrite <- P2 in C2.
      by destruct Hk as [->| ->]. }
  intros [[]|e|] s1 Hr1; [|done..].
  pose proof (restoring_good a d0 J _ true Hgood s1 Hr1) as Hv1.
  pose proof (restoring_claims d0 J _ true s1 Hr1) as Hc1.
  destruct Hr1 as [G1 G2 G3 G4 G5].
  constructor; try done; [by rewrite Hc1|by rewrite G4..].
Qed.

Lemma wp_recover_pending s : inv a d0 s -> wp (recover_pending a) (post a d0) s.
Proof using Hwf.
  intros Hi. unfold recover_pending. apply wp_bind.
  unfold ensure_read_write. apply wp_bind, wp_get_rt.
  destruct (rt_mode (st_rt s)) eqn:Hm; [|by apply wp_fail, post_inv]. apply wp_ret.
  apply wp_bind, wp_get_rt.
  destruct (rt_recovery_required (st_rt s)) eqn:Hrec; [|by apply wp_ret, post_inv]. simpl.
  pose proof Hi as [Hl Hi']. destruct (Hi' Hm) as [Hg Hv]. rewrite Hrec in Hv. clear Hi'.
  destruct (bool_decide (j_boot_id _ = _)) eqn:Eb; simpl.
  2: { apply wp_chain_remove; [done|]. intros s1 _ Hl1. apply wp_put_rt, post_inv.
       apply empty_inv; [done|by constructor|done|done|done]. }
  destruct (bool_decide (j_device_fingerprint _ = _)) eqn:Ef; simpl;
    [|apply wp_degrade, post_inv, inv_degraded, Hl].
  apply bool_decide_eq_true in Eb, Ef.
  destruct (journal_is_empty (journal s)) eqn:Ee.
  { apply wp_put_rt, post_inv. unfold journal_is_empty in Ee.
    rewrite !andb_true_iff, !bool_decide_eq_true in Ee. destruct Ee as [[[Ee Es] _] _].
    apply empty_inv; [done| |done|done|done]. destruct Hv as [V1 _ _ _ _ _ _ _]. by constructor. }
  assert (Hr : recovering s) by by constructor. clear Hi Hl Hm Hrec Hg Hv Eb Ef Ee.
  apply wp_bind. destruct (_ && _); [apply wp_degrade, post_inv, inv_degraded, Hr|].
  apply wp_ret, wp_bind. destruct (_ && _); [apply wp_degrade, post_inv, inv_degraded, Hr|].
  apply wp_ret, wp_bind. eapply wp_mono; [by apply wp_recover_frequencies|].
  intros [[]|e|] s1 H1; [|by apply post_inv..]. clear Hr s. destruct H1 as [G1 G2 G3 G4 G5 G6].
  apply wp_chain_degrade. eapply wp_mono; [by apply wp_recover_scalars|].
  intros [[]|e|] s2 H2; [|by eapply inv_log_ok..].
  assert (Hr2 : recovering s2).
  { assert (Hgood : forall es, kept_scalars (journal s1) (scalar_entry_valid (j_entries (journal s1))) es ->
      journal_good a true (with_scalars (journal s1) es)) by (intros es; by apply kept_scalars_valid).
    pose proof (restoring_scalars_good a d0 _ _ true Hgood s2 H2) as Hv2.
    pose proof (restoring_scalars_claims d0 _ _ true s2 H2) as Hc2.
    destruct H2 as [K1 K2 K3 K4 K5]. constructor; try done; [by rewrite Hc2|by rewrite K4..]. }
  eapply wp_chain_quiet; [apply quiet_recover_tasks|exact Hr2|]. intros s3 Hr3.
  eapply wp_chain_quiet; [apply quiet_recover_units|exact Hr3|]. intros s4 [K1 K2 K3 K4 K5 K6].
  apply wp_chain_remove; [apply K1|]. intros s5 Hrt5 Hl5.
  apply wp_bind, wp_get_rt, wp_put_rt, post_inv. rewrite Hrt5.
  apply empty_inv; [done| |done|done|done]. constructor; simpl; [apply K2|done|done].
Qed.
End recover.

(** * The actuator never writes what it could not undo

    The end-to-end statements about the actuator: over every sequence of
    operations, whatever the ports answer and wherever the process dies, each
    attribute that was written is claimed by the journal the next start finds,
    and that journal passes its validation. *)

(** ** Startup *)

Section startup.
Context {W : Type} `{!Ports W} `{JournalCodec}.
Context (a : Actuator) (Hwf : actuator_wf a).

(** What the store holds when the actuator starts in [w]; a journal it cannot
    use protects nothing. *)
Definition loaded_journal (w : W) : list (option Journal) :=
  match (store_load w).1 with
  | inr (Some bytes) =>
      match decode_journal bytes with Ok j => [Some j] | _ => [None] end
  | _ => [None]
  end.

Lemma decode_journal_valid bytes j : decode_journal bytes = Ok j -> journal_valid j.
Proof.
  unfold decode_journal.
  intros (u1 & _ & (e & _ & (u2 & _ & (u3 & _ & (j' & _ & H1)%res_bind_Ok)%res_bind_Ok)%res_bind_Ok)
    %res_bind_Ok)%res_bind_Ok.
  apply res_bind_Ok in H1 as ([] & Hv & [= <-]). by apply validate_decoded_journal_spec.
Qed.

Lemma empty_journal_inv d0 g (s : St W) :
  log_ok d0 (st_log s) -> inv a d0 (with_rt s
    {| rt_mode := ReadWrite;
       rt_journal := empty_journal (act_boot_id a) (act_device_fingerprint a) g;
       rt_recovery_required := false |}).
Proof. intros Hl. apply empty_inv; [done|by constructor|done|done|done]. Qed.

(** Startup establishes the invariant. *)
Lemma inv_start w : inv a (loaded_journal w) (FrequencyActuator_new a w).
Proof.
  unfold FrequencyActuator_new, loaded_journal.
  destruct (store_load w) as [[e|[bytes|]] w'] eqn:El; simpl.
  - split; [apply log_ok_nil|done].
  - destruct (decode_journal bytes) as [j|e|] eqn:Ed; [|by split; [apply log_ok_nil|]..].
    destruct (journal_is_empty j).
    + apply (empty_journal_inv [Some j] _ {| st_rt := {| rt_mode := ReadWrite; rt_journal := j;
        rt_recovery_required := false |}; st_world := w'; st_log := [] |}). apply log_ok_nil.
    + split; [apply log_ok_nil|]. intros _. simpl. split; [|by eapply decode_journal_valid].
      split; [apply log_ok_nil|]. by intros oj k ->%list_elem_of_singleton Hk.
  - apply (empty_journal_inv [None] _ {| st_rt := {| rt_mode := ReadWrite;
        rt_journal := empty_journal (act_boot_id a) (act_device_fingerprint a) 0;
        rt_recovery_required := false |}; st_world := w'; st_log := [] |}). apply log_ok_nil.
Qed.

(** ** Every operation *)

Lemma post_discard {A} d0 (m : M W A) s :
  wp m (post a d0) s -> wp (discard m) (post a d0) s.
Proof.
  intros Hm. unfold discard. apply wp_bind. eapply wp_mono; [exact Hm|].
  intros [x|e|] s' [Hl Hs]; (split; [exact Hl|]); [| |done]; intros _; by apply Hs.
Qed.

Lemma wp_run_operation d0 op s :
  inv a d0 s -> wp (run_operation a op) (post a d0) s.
Proof using Hwf.
  intros Hi. destruct op; simpl.
  - apply post_discard. eapply wp_mono; [by apply wp_apply_batch|]. by intros ? ? [? _].
  - apply post_discard. eapply wp_mono; [by apply wp_apply_owned_batch_fast|]. by intros ? ? [? _].
  - apply post_discard. eapply wp_mono; [by apply wp_apply_scalars|]. by intros ? ? [? _].
  - by apply post_discard, wp_apply_tasks.
  - by apply post_discard, wp_apply_units.
  - by apply wp_restore_targets.
  - by apply wp_restore_scalars.
  - by apply wp_restore_tasks.
  - by apply wp_restore_units.
  - by apply wp_recover_pending.
  - unfold mark_startup_recovery_failed. apply wp_bind, wp_get_rt, wp_put_rt, post_inv.
    split; [by apply inv_log_ok in Hi|done].
Qed.

(** *** Queries *)

Lemma quiet_discard {A} P (R : A -> Prop) (m : M W A) :
  quiet P R m -> quiet P (fun _ => True) (discard m).
Proof. intros Hm. unfold discard. eapply quiet_bind; [exact Hm|]. intros x _. by apply quiet_ret. Qed.

Lemma quiet_read_task_state P i : quiet P (fun _ => True) (read_task_state a i).
Proof. unfold read_task_state, require_task_backends. quiet_tac. Qed.
Lemma quiet_unit_for_process P i : quiet P (fun _ => True) (unit_for_process a i).
Proof.
  unfold unit_for_process. destruct (act_proc_reader a), (act_systemd a);
    repeat (quiet_step_tac || apply quiet_call); done.
Qed.
Lemma quiet_unit_processes P u : quiet P (fun _ => True) (unit_processes a u).
Proof.
  unfold unit_processes. destruct (act_systemd a); repeat (quiet_step_tac || apply quiet_call); done.
Qed.
Lemma quiet_actuator_read_limits P id : quiet P (fun _ => True) (actuator_read_limits a id).
Proof.
  unfold actuator_read_limits. eapply quiet_bind; [by apply (quiet_lift _ (fun _ => True))|].
  intros t _. apply quiet_read_limits.
Qed.
Lemma quiet_actuator_read_scalar P id : quiet P (fun _ => True) (actuator_read_scalar a id).
Proof.
  unfold actuator_read_scalar. eapply quiet_bind; [by apply (quiet_lift _ (fun _ => True))|].
  intros t _. eapply quiet_weaken; [apply (quiet_read_scalar no_paths)|done|done].
Qed.

Lemma quiet_query q : quiet no_paths (fun _ => True) (run_query a q).
Proof.
  destruct q as [id|id|i|i|u]; simpl; eapply quiet_discard.
  - apply quiet_actuator_read_limits.
  - apply quiet_actuator_read_scalar.
  - apply quiet_read_task_state.
  - apply quiet_unit_for_process.
  - apply quiet_unit_processes.
Qed.

Lemma query_inv d0 q s r s' : inv a d0 s -> run_query a q s = (r, s') -> inv a d0 s'.
Proof.
  intros Hi Hq. destruct (wp_run _ _ _ _ _ (quiet_query q s) Hq) as [Hs _].
  by eapply quiet_step_inv.
Qed.

Lemma reachable_inv w s : reachable a w s -> inv a (loaded_journal w) s.
Proof using Hwf.
  induction 1 as [|s s' _ IH Hstep]; [|destruct Hstep as [op s r s1 Hop Hr|q s r s1 Hq Hr|s w']].
  - apply inv_start.
  - pose proof (wp_run _ _ _ _ _ (wp_run_operation _ op s IH) Hop) as [_ Hi]. by apply Hi.
  - by eapply query_inv.
  - by destruct IH as [H1 H2]; split.
Qed.

Lemma reachable_log w s op r s' :
  reachable a w s -> run_operation a op s = (r, s') -> log_ok (loaded_journal w) (st_log s').
Proof using Hwf.
  intros Hs Hop. apply reachable_inv in Hs.
  by pose proof (wp_run _ _ _ _ _ (wp_run_operation _ op s Hs) Hop) as [? _].
Qed.
End startup.
