(* ===== verification/SimMachine.v ===== *)
(** * A simulated machine

    A concrete world for the actuator: files in a map, a one-slot store, tasks
    and a clock, with a journal codec built from the countability of the
    journal's types. It shows that the hypotheses of the actuator's theorems can
    hold together. *)

From S2P Require Import Prelude Domain Text Strings ActuatorTypes Scalars Targets Journal Ports FrequencyOps ScalarOps TaskOps UnitOps Recovery Ownership.

(** ** The codec

    A journal is flattened to a list of leaves, each one number. *)

Definition leaf : Type := Z + string.

Class TreeRep (A : Type) := {
  to_tree : A -> gen_tree leaf;
  of_tree : gen_tree leaf -> option A;
  of_to_tree : forall x, of_tree (to_tree x) = Some x;
}.

Section reps.
Context {A B : Type} `{!TreeRep A, !TreeRep B}.

Lemma mapM_trees (l : list A) : mapM of_tree (to_tree <$> l) = Some l.
Proof. apply mapM_fmap_Some, of_to_tree. Qed.

Definition list_to_tree (l : list A) : gen_tree leaf := GenNode 0 (to_tree <$> l).
Definition list_of_tree (t : gen_tree leaf) : option (list A) :=
  match t with GenNode _ l => mapM of_tree l | _ => None end.

#[global] Instance list_tree : TreeRep (list A) := {
  to_tree := list_to_tree; of_tree := list_of_tree; of_to_tree := mapM_trees;
}.

Definition pair_to_tree (p : A * B) : gen_tree leaf := GenNode 0 [to_tree p.1; to_tree p.2].
Definition pair_of_tree (t : gen_tree leaf) : option (A * B) :=
  match t with
  | GenNode _ [x; y] =>
      match of_tree x, of_tree y with Some x, Some y => Some (x, y) | _, _ => None end
  | _ => None
  end.
Lemma pair_trees p : pair_of_tree (pair_to_tree p) = Some p.
Proof. destruct p. simpl. by rewrite !of_to_tree. Qed.
#[global] Instance pair_tree : TreeRep (A * B) := {
  to_tree := pair_to_tree; of_tree := pair_of_tree; of_to_tree := pair_trees;
}.

Definition sum_to_tree (s : A + B) : gen_tree leaf :=
  match s with inl x => GenNode 0 [to_tree x] | inr y => GenNode 1 [to_tree y] end.
Definition sum_of_tree (t : gen_tree leaf) : option (A + B) :=
  match t with
  | GenNode 0 [x] => inl <$> of_tree x
  | GenNode _ [y] => inr <$> of_tree y
  | _ => None
  end.
Lemma sum_trees s : sum_of_tree (sum_to_tree s) = Some s.
Proof. destruct s; simpl; by rewrite of_to_tree. Qed.
#[global] Instance sum_tree : TreeRep (A + B) := {
  to_tree := sum_to_tree; of_tree := sum_of_tree; of_to_tree := sum_trees;
}.
End reps.

(** A type with an injection into a representable one. *)
Lemma via_trees {A B} `{!TreeRep B} (f : A -> B) (g : B -> A) (Hgf : forall x, g (f x) = x) x :
  g <$> of_tree (to_tree (f x)) = Some x.
Proof. rewrite of_to_tree. simpl. by rewrite Hgf. Qed.
Definition tree_via {A B} `{!TreeRep B} (f : A -> B) (g : B -> A) (Hgf : forall x, g (f x) = x)
  : TreeRep A :=
  {| to_tree x := to_tree (f x); of_tree t := g <$> of_tree t; of_to_tree := via_trees f g Hgf |}.

Definition Z_of_tree (t : gen_tree leaf) : option Z :=
  match t with GenLeaf (inl z) => Some z | _ => None end.
#[global] Instance Z_tree : TreeRep Z :=
  {| to_tree z := GenLeaf (inl z); of_tree := Z_of_tree; of_to_tree _ := eq_refl |}.
Definition string_of_tree (t : gen_tree leaf) : option string :=
  match t with GenLeaf (inr s) => Some s | _ => None end.
#[global] Instance string_tree : TreeRep string :=
  {| to_tree s := GenLeaf (inr s); of_tree := string_of_tree; of_to_tree _ := eq_refl |}.

#[global] Instance bool_tree : TreeRep bool.
Proof.
  refine (tree_via (fun b : bool => if b then 1 else 0) (fun z => z =? 1) _); by intros [].
Defined.
#[global] Instance option_tree {A} `{!TreeRep A} : TreeRep (option A).
Proof.
  refine (tree_via (fun o : option A => match o with Some x => [x] | None => [] end)
    (fun l => match l with x :: _ => Some x | [] => None end) _); by intros [].
Defined.
#[global] Instance CpuSet_tree : TreeRep CpuSet.
Proof.
  refine (tree_via (fun c : CpuSet => elements c) list_to_set list_to_set_elements_L).
Defined.
#[global] Instance gmap_tree {V} `{!TreeRep V} : TreeRep (gmap string V).
Proof.
  refine (tree_via (fun m : gmap string V => map_to_list m) list_to_map list_to_map_to_list).
Defined.

#[global] Instance ProcessIdentity_tree : TreeRep ProcessIdentity.
Proof.
  refine (tree_via (fun i => (pid i, start_time_ticks i, uid i))
    (fun '(x1, x2, x3) => {| pid := x1; start_time_ticks := x2; uid := x3 |}) _); by intros [].
Defined.


#[global] Instance FrequencyLimits_tree : TreeRep FrequencyLimits.
Proof.
  refine (tree_via (fun l => (lim_min l, lim_max l))
    (fun p => {| lim_min := p.1; lim_max := p.2 |}) _); by intros [].
Defined.

#[global] Instance ScalarValue_tree : TreeRep ScalarValue.
Proof.
  refine (tree_via
    (fun v => match v with Integer z => inl z | Str s => inr (inl s) | CpuListValue c => inr (inr c) end)
    (fun v => match v with inl z => Integer z | inr (inl s) => Str s | inr (inr c) => CpuListValue c end)
    _); by intros [].
Defined.

#[global] Instance ScalarDomain_tree : TreeRep ScalarDomain.
Proof.
  refine (tree_via
    (fun d => match d with
       | IntegerRange x y => inl (inl (x, y)) | IntegerEnum l => inl (inr l)
       | StringEnum l => inr (inl l) | CpuListDomain c b => inr (inr (c, b)) end)
    (fun d => match d with
       | inl (inl (x, y)) => IntegerRange x y | inl (inr l) => IntegerEnum l
       | inr (inl l) => StringEnum l | inr (inr (c, b)) => CpuListDomain c b end)
    _); by intros [].
Defined.

#[global] Instance SchedulingClass_tree : TreeRep SchedulingClass.
Proof.
  refine (tree_via
    (fun c => match c with Other => (true, true) | Batch => (true, false)
                      | IdleClass => (false, true) | Fifo => (false, false) end)
    (fun c => match c with (true, true) => Other | (true, false) => Batch
                      | (false, true) => IdleClass | (false, false) => Fifo end)
    _); by intros [].
Defined.

#[global] Instance ProcessSchedulingState_tree : TreeRep ProcessSchedulingState.
Proof.
  refine (tree_via
    (fun s => (st_affinity s, st_nice s, st_policy s, st_rt_priority s, st_uclamp_min s, st_uclamp_max s))
    (fun '(x1, x2, x3, x4, x5, x6) =>
       {| st_affinity := x1; st_nice := x2; st_policy := x3; st_rt_priority := x4;
          st_uclamp_min := x5; st_uclamp_max := x6 |}) _); by intros [].
Defined.

#[global] Instance SystemdUnitProperties_tree : TreeRep SystemdUnitProperties.
Proof.
  refine (tree_via (fun u => (up_cpu_weight u, up_allowed_cpus u))
    (fun p => {| up_cpu_weight := p.1; up_allowed_cpus := p.2 |}) _); by intros [].
Defined.

#[global] Instance SystemdUnitInstanceKey_tree : TreeRep SystemdUnitInstanceKey.
Proof.
  refine (tree_via
    (fun k => match k with InvocationId l => inl l | ControlGroup s => inr s end)
    (fun k => match k with inl l => InvocationId l | inr s => ControlGroup s end) _); by intros [].
Defined.

#[global] Instance SystemdUnitInstanceIdentity_tree : TreeRep SystemdUnitInstanceIdentity.
Proof.
  refine (tree_via (fun u => (ui_unit u, ui_key u))
    (fun p => {| ui_unit := p.1; ui_key := p.2 |}) _); by intros [].
Defined.

#[global] Instance TaskFieldMask_tree : TreeRep TaskFieldMask.
Proof.
  refine (tree_via
    (fun m => (tm_affinity m, tm_nice m, tm_policy m, tm_uclamp_min m, tm_uclamp_max m))
    (fun '(x1, x2, x3, x4, x5) =>
       {| tm_affinity := x1; tm_nice := x2; tm_policy := x3; tm_uclamp_min := x4;
          tm_uclamp_max := x5 |}) _); by intros [].
Defined.

#[global] Instance UnitFieldMask_tree : TreeRep UnitFieldMask.
Proof.
  refine (tree_via (fun m => (um_cpu_weight m, um_allowed_cpus m))
    (fun p => {| um_cpu_weight := p.1; um_allowed_cpus := p.2 |}) _); by intros [].
Defined.

#[global] Instance RecoveryFrequencyTargetManifest_tree : TreeRep RecoveryFrequencyTargetManifest.
Proof.
  refine (tree_via
    (fun m => (rf_id m, rf_min_path m, rf_max_path m, rf_hardware_min m, rf_hardware_max m,
               rf_opps m, rf_hertz_per_unit m))
    (fun '(x1, x2, x3, x4, x5, x6, x7) =>
       {| rf_id := x1; rf_min_path := x2; rf_max_path := x3; rf_hardware_min := x4;
          rf_hardware_max := x5; rf_opps := x6; rf_hertz_per_unit := x7 |}) _); by intros [].
Defined.

#[global] Instance RecoveryScalarTargetManifest_tree : TreeRep RecoveryScalarTargetManifest.
Proof.
  refine (tree_via (fun m => (rs_id m, rs_path m, rs_domain m))
    (fun '(x1, x2, x3) => {| rs_id := x1; rs_path := x2; rs_domain := x3 |}) _); by intros [].
Defined.

#[global] Instance RecoveryResourceManifest_tree : TreeRep RecoveryResourceManifest.
Proof.
  refine (tree_via
    (fun m => match m with FrequencyPair f => inl f | ScalarResource s => inr s end)
    (fun m => match m with inl f => FrequencyPair f | inr s => ScalarResource s end) _); by intros [].
Defined.

#[global] Instance JournalEntry_tree : TreeRep JournalEntry.
Proof.
  refine (tree_via
    (fun e => (je_target e, je_min_path e, je_max_path e, je_resource_manifest e, je_original e,
               je_desired e, je_applied e, je_legal_pairs e))
    (fun '(x1, x2, x3, x4, x5, x6, x7, x8) =>
       {| je_target := x1; je_min_path := x2; je_max_path := x3; je_resource_manifest := x4;
          je_original := x5; je_desired := x6; je_applied := x7; je_legal_pairs := x8 |}) _);
    by intros [].
Defined.

#[global] Instance ScalarJournalEntry_tree : TreeRep ScalarJournalEntry.
Proof.
  refine (tree_via
    (fun e => (se_target e, se_path e, se_manifest e, se_original e, se_desired e, se_applied e))
    (fun '(x1, x2, x3, x4, x5, x6) =>
       {| se_target := x1; se_path := x2; se_manifest := x3; se_original := x4; se_desired := x5;
          se_applied := x6 |}) _); by intros [].
Defined.

#[global] Instance TaskJournalEntry_tree : TreeRep TaskJournalEntry.
Proof.
  refine (tree_via
    (fun e => (te_identity e, te_original e, te_desired e, te_applied e, te_owned_fields e,
               te_relinquished_fields e))
    (fun '(x1, x2, x3, x4, x5, x6) =>
       {| te_identity := x1; te_original := x2; te_desired := x3; te_applied := x4;
          te_owned_fields := x5; te_relinquished_fields := x6 |}) _); by intros [].
Defined.

#[global] Instance UnitJournalEntry_tree : TreeRep UnitJournalEntry.
Proof.
  refine (tree_via
    (fun e => (ue_unit e, ue_instance e, ue_original e, ue_desired e, ue_applied e,
               ue_owned_fields e, ue_relinquished_fields e))
    (fun '(x1, x2, x3, x4, x5, x6, x7) =>
       {| ue_unit := x1; ue_instance := x2; ue_original := x3; ue_desired := x4; ue_applied := x5;
          ue_owned_fields := x6; ue_relinquished_fields := x7 |}) _); by intros [].
Defined.

#[global] Instance Journal_tree : TreeRep Journal.
Proof.
  refine (tree_via
    (fun j => (j_schema_version j, j_boot_id j, j_device_fingerprint j, j_generation j,
               j_entries j, j_scalars j, j_tasks j, j_units j))
    (fun '(x1, x2, x3, x4, x5, x6, x7, x8) =>
       {| j_schema_version := x1; j_boot_id := x2; j_device_fingerprint := x3;
          j_generation := x4; j_entries := x5; j_scalars := x6; j_tasks := x7; j_units := x8 |}) _);
    by intros [].
Defined.

Definition to_bytes {A} `{!TreeRep A} (x : A) : list Z :=
  (fun i => Zpos (encode i)) <$> gen_tree_to_list (to_tree x).
Definition of_byte (z : Z) : option (nat * nat + leaf) :=
  match z with Zpos p => decode p | _ => None end.
Definition of_bytes {A} `{!TreeRep A} (l : list Z) : option A :=
  match mapM of_byte l with
  | Some l => match gen_tree_of_list [] l with Some t => of_tree t | None => None end
  | None => None
  end.

Lemma mapM_bytes (l : list (nat * nat + leaf)) :
  mapM of_byte ((fun i => Zpos (encode i)) <$> l) = Some l.
Proof. apply mapM_fmap_Some. intros x. apply countable.decode_encode. Qed.

Lemma of_to_bytes {A} `{!TreeRep A} (x : A) : of_bytes (to_bytes x) = Some x.
Proof.
  unfold of_bytes, to_bytes. rewrite mapM_bytes.
  pose proof (gen_tree_of_to_list [] [] (to_tree x)) as Ht. rewrite app_nil_r in Ht. simpl in Ht.
  rewrite Ht. simpl. apply of_to_tree.
Qed.

Definition envelope_of (p : list Z * Z) : JournalEnvelope :=
  {| payload := p.1; checksum := p.2 |}.
Definition envelope_bytes (e : JournalEnvelope) : list Z := to_bytes (payload e, checksum e).

Lemma envelope_of_bytes e : envelope_of <$> of_bytes (envelope_bytes e) = Some e.
Proof. unfold envelope_bytes. rewrite of_to_bytes. by destruct e. Qed.

#[global] Instance sim_codec : JournalCodec := {
  journal_to_vec := to_bytes;
  journal_from_slice := of_bytes;
  envelope_to_vec := envelope_bytes;
  envelope_from_slice l := envelope_of <$> of_bytes l;
  crc32 l := foldl (fun c b => (c * 31 + b) mod 4294967296) 1 l;
  journal_json := of_to_bytes;
  envelope_json := envelope_of_bytes;
}.

(** ** The world *)

Record SimWorld := {
  sw_files : gmap string string;
  (** Attributes whose writes the kernel accepts and ignores. *)
  sw_stuck : gset string;
  sw_store : option (list Z);
  sw_tasks : gmap Z (ProcessIdentity * ProcessSchedulingState);
  (** One scope: its instance, its properties and the processes in it. *)
  sw_unit : option (SystemdUnitInstanceIdentity * SystemdUnitProperties * list Z);
  sw_clock : Z;
}.

Definition set_files (w : SimWorld) (m : gmap string string) : SimWorld :=
  {| sw_files := m; sw_stuck := sw_stuck w; sw_store := sw_store w; sw_tasks := sw_tasks w; sw_unit := sw_unit w; sw_clock := sw_clock w |}.
Definition set_store (w : SimWorld) (o : option (list Z)) : SimWorld :=
  {| sw_files := sw_files w; sw_stuck := sw_stuck w; sw_store := o; sw_tasks := sw_tasks w; sw_unit := sw_unit w; sw_clock := sw_clock w |}.
Definition set_sim_tasks (w : SimWorld) m : SimWorld :=
  {| sw_files := sw_files w; sw_stuck := sw_stuck w; sw_store := sw_store w; sw_tasks := m; sw_unit := sw_unit w; sw_clock := sw_clock w |}.
Definition set_clock (w : SimWorld) (t : Z) : SimWorld :=
  {| sw_files := sw_files w; sw_stuck := sw_stuck w; sw_store := sw_store w; sw_tasks := sw_tasks w; sw_unit := sw_unit w; sw_clock := t |}.

Definition set_unit (w : SimWorld) u : SimWorld :=
  {| sw_files := sw_files w; sw_stuck := sw_stuck w; sw_store := sw_store w; sw_tasks := sw_tasks w; sw_unit := u; sw_clock := sw_clock w |}.

Definition named_unit (w : SimWorld) (u : string)
  : PlatformError + SystemdUnitInstanceIdentity * SystemdUnitProperties * list Z :=
  match sw_unit w with
  | Some (i, p, l) => if decide (ui_unit i = u) then inr (i, p, l) else inl (Disappeared u)
  | None => inl (Disappeared u)
  end.
Definition sum_map {A B} (f : A -> B) (s : PlatformError + A) : PlatformError + B :=
  match s with inl e => inl e | inr x => inr (f x) end.

Definition sim_process (i : ProcessIdentity) : ProcessInfo :=
  {| identity := i; owner_control_safe := true; comm := "task"; executable := None;
     desktop_id := None |}.

#[global] Instance sim_ports : Ports SimWorld := {
  read_string p w :=
    (match sw_files w !! p with Some v => inr v | None => inl (Disappeared p) end, w);
  write_string p v w :=
    (inr tt, if decide (p ∈ sw_stuck w) then w else set_files w (<[p := v]> (sw_files w)));
  store_load w := (inr (sw_store w), w);
  store_durable b w := (inr tt, set_store w (Some b));
  remove_durable w := (inr tt, set_store w None);
  process_identity p w :=
    (match sw_tasks w !! p with
     | Some (i, _) => inr (sim_process i)
     | None => inl (Disappeared "process")
     end, w);
  read_scheduling p w :=
    (match sw_tasks w !! p with Some (_, s) => inr s | None => inl (Disappeared "process") end, w);
  write_scheduling p s w :=
    match sw_tasks w !! p with
    | Some (i, _) => (inr s, set_sim_tasks w (<[p := (i, s)]> (sw_tasks w)))
    | None => (inl (Disappeared "process"), w)
    end;
  unit_instance_identity u w := (sum_map (fun x => x.1.1) (named_unit w u), w);
  client_unit_for_process p w :=
    (inr (match sw_unit w with
          | Some (i, _, l) => if decide (p ∈ l) then Some (ui_unit i) else None
          | None => None
          end), w);
  client_unit_processes u w := (sum_map snd (named_unit w u), w);
  read_unit_properties u w := (sum_map (fun x => x.1.2) (named_unit w u), w);
  write_unit_properties u p w :=
    match named_unit w u with
    | inl e => (inl e, w)
    | inr (i, _, l) => (inr p, set_unit w (Some (i, p, l)))
    end;
  instant_now w := (sw_clock w, w);
  thread_sleep d w := set_clock w (sw_clock w + d);
}.

(** ** A small device: one frequency pair and one string attribute *)

Definition sim_target : FrequencyTarget :=
  {| ft_id := "cpu0"; ft_min_path := "/sys/devices/cpu0/scaling_min_freq";
     ft_max_path := "/sys/devices/cpu0/scaling_max_freq"; ft_hardware_min := 1000000;
     ft_hardware_max := 4000000; ft_opps := [1000000; 2000000; 3000000; 4000000];
     ft_hertz_per_unit := 1000 |}.

Definition sim_scalar : ScalarTarget :=
  {| sct_id := "governor"; sct_path := "/sys/devices/cpu0/energy_preference";
     sct_domain := StringEnum ["balance"; "power"] |}.

Definition empty_registry : TargetRegistry := {| reg_targets := ∅; reg_scalar_targets := ∅ |}.
Definition built (r : res TargetRegistry ActuatorError) : TargetRegistry :=
  match r with Ok r => r | _ => empty_registry end.
Definition sim_frequencies : TargetRegistry := built (TargetRegistry_new [sim_target]).
Definition sim_registry : TargetRegistry := built (with_scalar_targets sim_frequencies [sim_scalar]).

Definition sim_actuator : Actuator :=
  {| act_registry := sim_registry; act_boot_id := "boot"; act_device_fingerprint := "device";
     act_proc_reader := true; act_process_controller := true; act_systemd := true |}.

Definition sim_task : ProcessIdentity := {| pid := 42; start_time_ticks := 7; uid := 1000 |}.
Definition sim_state (nice : Z) : ProcessSchedulingState :=
  {| st_affinity := {[ 0; 1 ]}; st_nice := nice; st_policy := Other; st_rt_priority := None;
     st_uclamp_min := None; st_uclamp_max := None |}.

Definition sim_scope : SystemdUnitInstanceIdentity :=
  {| ui_unit := "game.scope"; ui_key := ControlGroup "/user.slice/game.scope" |}.
Definition sim_scope_properties : SystemdUnitProperties :=
  {| up_cpu_weight := None; up_allowed_cpus := None |}.

Definition sim_world : SimWorld :=
  {| sw_files := list_to_map
       [("/sys/devices/cpu0/scaling_min_freq", "1000"); ("/sys/devices/cpu0/scaling_max_freq", "4000");
        ("/sys/devices/cpu0/energy_preference", "balance")];
     sw_stuck := ∅; sw_store := None; sw_tasks := {[ 42 := (sim_task, sim_state 0) ]}; sw_unit := Some (sim_scope, sim_scope_properties, [42]); sw_clock := 0 |}.

(** The same machine with a maximum that cannot be lowered. *)
Definition stuck_world : SimWorld :=
  {| sw_files := sw_files sim_world; sw_stuck := {[ "/sys/devices/cpu0/scaling_max_freq" ]};
     sw_store := None; sw_tasks := sw_tasks sim_world; sw_unit := None; sw_clock := 0 |}.

Definition sim_start : St SimWorld := FrequencyActuator_new sim_actuator sim_world.

Definition sim_request : operation :=
  OpApplyBatch [{| fr_target := "cpu0"; fr_limits := {| lim_min := 1500000; lim_max := 3200000 |} |}].

(** ** The device is well formed *)

Lemma sim_target_wf : frequency_target_wf sim_target.
Proof.
  constructor; simpl; try done; try lia.
  - repeat constructor; lia.
  - intros f Hf. repeat (apply elem_of_cons in Hf as [->|Hf]; [by split; [lia|]|]). set_solver.
Qed.

Lemma sim_actuator_wf : actuator_wf sim_actuator.
Proof.
  constructor; [|done|done].
  assert (Hf : TargetRegistry_new [sim_target] = Ok sim_frequencies) by (vm_compute; reflexivity).
  assert (Hs : with_scalar_targets sim_frequencies [sim_scalar] = Ok sim_registry)
    by (vm_compute; reflexivity).
  eapply with_scalar_targets_wf; [|exact Hf|exact Hs].
  constructor; [exact sim_target_wf|constructor].
Qed.
