(* ===== verification/ActuatorTheorems.v ===== *)
(** * What the actuator guarantees

    The theorems about whole operations of the actuator, each with a run of the
    simulated machine. *)

From S2P Require Import Prelude Domain Text Strings ActuatorTypes Scalars Targets Journal JournalFacts Ports FrequencyOps ScalarOps TaskOps UnitOps Recovery Ownership FrequencySafety RestoreSafety ScalarSafety ActuatorSafety SimMachine.

(** ** Write-ahead *)

Lemma durable_step_nonempty d ev : d <> [] -> durable_step d ev <> [].
Proof. by destruct ev as [| |j [e|u]|[e|u]| | | | | | | |]. Qed.

Lemma durable_nonempty d0 log : d0 <> [] -> durable d0 log <> [].
Proof.
  unfold durable. revert d0. induction log as [|ev log IH]; intros d0 Hd; simpl; [done|].
  by apply IH, durable_step_nonempty.
Qed.

Lemma loaded_nonempty {W} `{!Ports W} `{JournalCodec} (w : W) : loaded_journal w <> [].
Proof.
  unfold loaded_journal. destruct (store_load w) as [[e|[bytes|]] w']; simpl; [done| |done].
  by destruct (decode_journal bytes).
Qed.

(** C1: Write-ahead ownership. Whenever any operation of a reachable actuator
    writes an attribute, the store holds a journal that claims that attribute,
    whichever of the failed store operations so far took effect: a crash at
    that moment leaves behind a journal from which the next start restores it.
    The ports may answer anything. *)
Theorem actuator_writes_covered {W} `{!Ports W} `{JournalCodec} (a : Actuator) (w : W)
    (s : St W) (op : operation) r s' l1 path value outcome l2 :
  actuator_wf a -> reachable a w s -> run_operation a op s = (r, s') ->
  st_log s' = l1 ++ EvWrite path value outcome :: l2 ->
  durable (loaded_journal w) l1 <> [] /\
  forall oj, oj ∈ durable (loaded_journal w) l1 ->
    exists j, oj = Some j /\ components path ∈ journal_claims j.
Proof.
  intros Hwf Hs Hop Hlog. destruct (reachable_log a Hwf w s op r s' Hs Hop) as [Hc _].
  split; [apply durable_nonempty, loaded_nonempty|]. intros oj Hoj.
  pose proof (Hc _ _ _ _ _ Hlog oj Hoj) as Hp. destruct oj as [j|]; [by exists j|done].
Qed.

Definition sim_run (op : operation) : res unit ActuatorError * St SimWorld :=
  run_operation sim_actuator op sim_start.

Lemma sim_run_eq op : run_operation sim_actuator op sim_start = ((sim_run op).1, (sim_run op).2).
Proof. unfold sim_run. by destruct (run_operation _ _ _). Qed.

Lemma actuator_writes_covered_witness :
  let log := st_log (sim_run sim_request).2 in
  log = take 3 log ++ EvWrite "/sys/devices/cpu0/scaling_max_freq" "3000" (inr tt) :: drop 4 log /\
  durable (loaded_journal sim_world) (take 3 log) <> [] /\
  forall oj, oj ∈ durable (loaded_journal sim_world) (take 3 log) ->
    exists j, oj = Some j /\ components "/sys/devices/cpu0/scaling_max_freq" ∈ journal_claims j.
Proof.
  intros log.
  assert (Hlog : log = take 3 log ++
    EvWrite "/sys/devices/cpu0/scaling_max_freq" "3000" (inr tt) :: drop 4 log)
    by (vm_compute; reflexivity).
  split; [exact Hlog|].
  exact (actuator_writes_covered sim_actuator sim_world sim_start sim_request _ _ _ _ _ _ _
    sim_actuator_wf (reachable_start _ _) (sim_run_eq _) Hlog).
Defined.

(** ** Stored journals *)

(** C32: Every journal the actuator stores, in any reachable state and also halfway
    through an operation, decodes at the next start to itself, provided its
    task and unit entries carry values the platform accepts. *)
Theorem stored_journals_decode {W} `{!Ports W} `{JournalCodec} (a : Actuator) (w : W)
    (s : St W) (op : operation) r s' j outcome bytes :
  actuator_wf a -> reachable a w s -> run_operation a op s = (r, s') ->
  EvStore j outcome ∈ st_log s' -> others_valid j -> encode_journal j = Ok bytes ->
  decode_journal bytes = Ok j.
Proof.
  intros Hwf Hs Hop Hin Hoth Henc. destruct (reachable_log a Hwf w s op r s' Hs Hop) as [_ Hv].
  rewrite (decode_encode j bytes Henc).
  by rewrite (proj2 (validate_decoded_journal_spec j) (Hv j outcome Hin Hoth)).
Qed.

Definition first_stored (log : list Event) : Journal :=
  default (empty_journal "" "" 0)
    (head (omap (fun ev => match ev with EvStore j _ => Some j | _ => None end) log)).

Definition encoded (j : Journal) : list Z :=
  match encode_journal j with Ok bytes => bytes | _ => [] end.

Lemma stored_journals_decode_witness :
  let j := first_stored (st_log (sim_run sim_request).2) in
  encode_journal j = Ok (encoded j) /\ decode_journal (encoded j) = Ok j.
Proof.
  set (j := first_stored (st_log (sim_run sim_request).2)). intros j'.
  assert (Henc : encode_journal j = Ok (encoded j)) by (vm_compute; reflexivity).
  split; [exact Henc|].
  assert (Hin : EvStore j (inr tt) ∈ st_log (sim_run sim_request).2).
  { apply list_elem_of_lookup. exists 2%nat. vm_compute. reflexivity. }
  assert (Hoth : others_valid j).
  { assert (Ht : j_tasks j = ∅) by (vm_compute; reflexivity).
    assert (Hu : j_units j = ∅) by (vm_compute; reflexivity).
    split; intros key e; [rewrite Ht|rewrite Hu]; by rewrite lookup_empty. }
  exact (stored_journals_decode sim_actuator sim_world sim_start sim_request _ _ j _ _
    sim_actuator_wf (reachable_start _ _) (sim_run_eq _) Hin Hoth Henc).
Defined.

(** ** Errors *)

Definition transactional (op : operation) : Prop :=
  match op with OpApplyBatch _ | OpApplyFast _ | OpApplyScalars _ => True | _ => False end.

Lemma wp_atomic_discard {W A} `{!Ports W} `{JournalCodec} a d0 (m : M W A) s :
  wp m (post_from a d0 s) s -> wp (discard m) (atomic s) s.
Proof.
  intros Hm. unfold discard. apply wp_bind. eapply wp_mono; [exact Hm|].
  intros [x|e|] s' [_ Ha]; [done| |done]. intros e' [= <-]. by apply (Ha e).
Qed.

(** C31: A failed frequency or scalar batch has no effect on the ownership records:
    the mode, the journal with its generation, and the recovery flag are what
    they were, unless the failure could not be undone, and then the actuator
    has entered the degraded mode. *)
Theorem failed_transaction_atomic {W} `{!Ports W} `{JournalCodec} (a : Actuator) (w : W)
    (s : St W) (op : operation) e s' :
  actuator_wf a -> reachable a w s -> transactional op -> run_operation a op s = (Err e, s') ->
  st_rt s' = st_rt s \/ exists reason, rt_mode (st_rt s') = ReadOnlyDegraded reason.
Proof.
  intros Hwf Hs Hop Hrun. pose proof (reachable_inv a Hwf w s Hs) as Hi.
  assert (Ha : wp (run_operation a op) (atomic s) s).
  { destruct op; try done; simpl; apply (wp_atomic_discard a (loaded_journal w)).
    - by apply wp_apply_batch.
    - by apply wp_apply_owned_batch_fast.
    - by apply wp_apply_scalars. }
  exact (wp_run _ _ _ _ _ Ha Hrun e eq_refl).
Qed.

Definition stuck_start : St SimWorld := FrequencyActuator_new sim_actuator stuck_world.
Definition stuck_run : res unit ActuatorError * St SimWorld :=
  run_operation sim_actuator sim_request stuck_start.
Definition error_of {A E} (d : E) (r : res A E) : E := match r with Err e => e | _ => d end.

Lemma failed_transaction_atomic_witness :
  let e := error_of RecoveryRequired stuck_run.1 in
  run_operation sim_actuator sim_request stuck_start = (Err e, stuck_run.2) /\
  (st_rt stuck_run.2 = st_rt stuck_start \/
   exists reason, rt_mode (st_rt stuck_run.2) = ReadOnlyDegraded reason).
Proof.
  set (e := error_of RecoveryRequired stuck_run.1). intros e'.
  assert (Hrun : run_operation sim_actuator sim_request stuck_start = (Err e, stuck_run.2))
    by (vm_compute; reflexivity).
  split; [exact Hrun|].
  exact (failed_transaction_atomic sim_actuator stuck_world stuck_start sim_request _ _
    sim_actuator_wf (reachable_start _ _) Logic.I Hrun).
Defined.

(** A degraded actuator fails closed: every operation returns the reason of
    the degradation, makes no port call and changes nothing. *)
Theorem degraded_fails_closed {W} `{!Ports W} `{JournalCodec} (a : Actuator) (op : operation)
    (s : St W) reason r s' :
  rt_mode (st_rt s) = ReadOnlyDegraded reason -> (forall m, op <> OpMarkFailed m) ->
  run_operation a op s = (r, s') ->
  r = Err (DegradedError reason) /\ s' = s.
Proof.
  intros Hm Hop Hrun. revert Hrun.
  destruct op; simpl; unfold discard, apply_batch, apply_owned_batch_fast, apply_scalars, apply_tasks,
    apply_units, restore_targets, restore_scalars, restore_tasks, restore_units, recover_pending,
    ensure_mutation_ready, ensure_read_write, get_rt, mbind, M_bind; try rewrite Hm; simpl;
    [by intros [= <- <-]..|]. by destruct (Hop reason0).
Qed.

Lemma degraded_fails_closed_witness :
  let s := (run_operation sim_actuator (OpMarkFailed []) sim_start).2 in
  (run_operation sim_actuator sim_request s).1 = Err (DegradedError []) /\
  (run_operation sim_actuator sim_request s).2 = s.
Proof.
  intros s.
  exact (degraded_fails_closed sim_actuator sim_request s [] _ _ eq_refl
    ltac:(intros m; discriminate) (surjective_pairing _)).
Defined.

(** ** The validator of loaded journals *)

(** C34: The validation of a loaded journal accepts exactly the valid journals:
    header, targets that rebuild from their manifests and bound the recorded
    pairs, exact ordered transitions, attributes claimed once, task and unit
    entries with disjoint ownership masks under their own keys. *)
Theorem journal_validator_exact (j : Journal) :
  validate_decoded_journal j = Ok tt <-> journal_valid j.
Proof. apply validate_decoded_journal_spec. Qed.
