(* ===== verification/FrequencyWrites.v ===== *)
(** * What a frequency transition does to the machine

    The states the kernel attributes pass through while a pair is written, and
    the termination of the settling loop. *)

From S2P Require Import Prelude Domain Text Strings ActuatorTypes Scalars Targets Journal JournalFacts Ports FrequencyOps Recovery Ownership FrequencySafety ActuatorSafety SimMachine.

(** ** The attributes as the kernel would report them *)

(** A representable frequency is read back as it was written. *)
Lemma parse_encode_frequency t f path v :
  encode_frequency t f = Ok v -> is_u64 f -> 0 < ft_hertz_per_unit t ->
  is_multiple_of f (ft_hertz_per_unit t) = true ->
  parse_hertz path v (ft_hertz_per_unit t) = Ok f.
Proof.
  unfold encode_frequency, is_multiple_of, is_u64. set (u := ft_hertz_per_unit t).
  intros He Hf Hu Hm. rewrite (proj2 (Z.eqb_neq u 0)) in He, Hm by lia.
  injection He as <-. apply Z.eqb_eq in Hm.
  pose proof (Z.div_exact f u ltac:(lia)) as [_ Hd]. specialize (Hd Hm).
  assert (Hq : 0 <= f / u) by (apply Z.div_pos; lia).
  assert (Hle : f / u <= f) by nia.
  unfold parse_hertz. rewrite trim_str_graphic by apply to_string_graphic.
  unfold parse_u64. rewrite parse_unsigned_to_string by lia. simpl.
  unfold checked_mul. rewrite decide_True by lia. simpl. f_equal. lia.
Qed.

(** The pair after one port call: a successful write of either attribute takes
    effect, nothing else does. *)
Definition observed_write (t : FrequencyTarget) (l : FrequencyLimits) (ev : Event)
  : FrequencyLimits :=
  match ev with
  | EvWrite p v (inr _) =>
      match parse_hertz p v (ft_hertz_per_unit t) with
      | Ok f =>
          if bool_decide (p = ft_min_path t) then {| lim_min := f; lim_max := lim_max l |}
          else if bool_decide (p = ft_max_path t) then {| lim_min := lim_min l; lim_max := f |}
          else l
      | _ => l
      end
  | _ => l
  end.

(** The fields of a target are machine integers. *)
Definition target_u64 (t : FrequencyTarget) : Prop :=
  is_u64 (ft_hardware_min t) /\ is_u64 (ft_hardware_max t) /\ is_u64 (ft_hertz_per_unit t).

Lemma ordered_write_states_mid c d :
  (if lim_max d <? lim_min c then {| lim_min := lim_min d; lim_max := lim_max c |}
   else {| lim_min := lim_min c; lim_max := lim_max d |}) ∈ ordered_write_states c d.
Proof.
  destruct c as [cm cx], d as [dm dx]. unfold ordered_write_states. simpl.
  destruct (Z.ltb_spec dx cm);
    repeat (match goal with |- context [?x =? ?y] => destruct (Z.eqb_spec x y) as [->|?] end; simpl);
    rewrite ?elem_of_push_unique, ?list_elem_of_singleton; naive_solver.
Qed.

Section transition.
Context {W : Type} `{!Ports W} `{JournalCodec}.
Context (t : FrequencyTarget).

Definition with_min (l : FrequencyLimits) (f : Hertz) : FrequencyLimits :=
  {| lim_min := f; lim_max := lim_max l |}.
Definition with_max (l : FrequencyLimits) (f : Hertz) : FrequencyLimits :=
  {| lim_min := lim_min l; lim_max := f |}.

(** From [l], the attributes went through [states] only; after success they
    hold [final]. *)
Definition passes (l : FrequencyLimits) (states : list FrequencyLimits) (final : FrequencyLimits)
    (s : St W) (r : res unit ActuatorError) (s' : St W) : Prop :=
  exists evs, st_log s' = st_log s ++ evs /\
    (forall n, foldl (observed_write t) l (take n evs) ∈ states) /\
    (r = Ok tt -> foldl (observed_write t) l evs = final) /\ r <> Panic.

Lemma passes_seq l l' states final s s1 r s2 :
  passes l states l' s (Ok tt) s1 -> passes l' states final s1 r s2 -> passes l states final s r s2.
Proof.
  intros (e1 & L1 & A1 & F1 & _) (e2 & L2 & A2 & F2 & P2). specialize (F1 eq_refl).
  exists (e1 ++ e2). split_and!; [by rewrite L2, L1, (assoc_L (++))| | |done].
  - intros n. rewrite take_app, foldl_app. destruct (decide (n <= length e1)%nat) as [Hn|Hn].
    + replace (n - length e1)%nat with 0%nat by lia. apply A1.
    + rewrite take_ge, F1 by lia. apply A2.
  - intros Hr. rewrite foldl_app, F1. by apply F2.
Qed.

Lemma passes_stop l states final s e : l ∈ states -> passes l states final s (Err e) s.
Proof.
  intros Hl. exists []. rewrite app_nil_r. split_and!; [done| |done|done].
  intros n. by rewrite take_nil.
Qed.

(** A write that may be skipped. *)
Lemma wp_write_if (b : bool) path v l l' states (s : St W) :
  l ∈ states -> l' ∈ states ->
  (if b then observed_write t l (EvWrite path v (inr tt)) = l' else l' = l) ->
  wp (write_if b path v) (passes l states l' s) s.
Proof.
  intros Hl Hl' Hb. unfold write_if. destruct b.
  - apply wp_call. intros r w. exists [EvWrite path v r]. simpl. split_and!; [done| | |by destruct r].
    + intros [|n]; simpl; [done|]. rewrite take_nil. simpl. destruct r as [e|[]]; [done|].
      unfold observed_write in Hb. by rewrite Hb.
    + destruct r as [e|[]]; [done|]. intros _. exact Hb.
  - apply wp_ret. subst l'. exists []. rewrite app_nil_r. split_and!; [done| |done|done].
    intros n. by rewrite take_nil.
Qed.

Lemma wp_two_writes (b1 : bool) p1 v1 (b2 : bool) p2 v2 l l1 l2 states (s : St W) :
  l ∈ states -> l1 ∈ states -> l2 ∈ states ->
  (if b1 then observed_write t l (EvWrite p1 v1 (inr tt)) = l1 else l1 = l) ->
  (if b2 then observed_write t l1 (EvWrite p2 v2 (inr tt)) = l2 else l2 = l1) ->
  wp (write_if b1 p1 v1;; write_if b2 p2 v2) (passes l states l2 s) s.
Proof.
  intros H0 H1 H2 Hb1 Hb2. apply wp_bind.
  eapply wp_mono; [by apply (wp_write_if b1 p1 v1 l l1 states)|].
  intros [[]|e|] s1 Hp.
  - eapply wp_mono; [by apply (wp_write_if b2 p2 v2 l1 l2 states)|].
    intros r s2 Hp2. by eapply passes_seq.
  - destruct Hp as (evs & L1 & A1 & F1 & P1). by exists evs.
  - by destruct Hp as (_ & _ & _ & _ & Hp).
Qed.

Context (Hwf : frequency_target_wf t) (Hu64 : target_u64 t).

Lemma validated_u64 d :
  validate_limits t d = Ok tt -> is_u64 (lim_min d) /\ is_u64 (lim_max d).
Proof using Hu64.
  intros (D1 & D2 & D3 & _ & _ & _)%validate_limits_Ok. destruct Hu64 as (H1 & H2 & _).
  unfold is_u64 in *. lia.
Qed.

Lemma unit_positive : 0 < ft_hertz_per_unit t.
Proof using Hwf Hu64. pose proof (ftw_unit t Hwf). destruct Hu64 as (_ & _ & H3). unfold is_u64 in *. lia. Qed.

Lemma observed_min l d v :
  validate_limits t d = Ok tt -> encode_frequency t (lim_min d) = Ok v ->
  observed_write t l (EvWrite (ft_min_path t) v (inr tt)) = with_min l (lim_min d).
Proof using Hwf Hu64.
  intros Hd Henc. pose proof (validated_u64 d Hd) as [Hm _]. pose proof unit_positive.
  apply validate_limits_Ok in Hd as (_ & _ & _ & _ & D5 & _). unfold observed_write.
  rewrite (parse_encode_frequency t (lim_min d)) by done.
  by rewrite bool_decide_eq_true_2.
Qed.

Lemma observed_max l d v :
  validate_limits t d = Ok tt -> encode_frequency t (lim_max d) = Ok v ->
  observed_write t l (EvWrite (ft_max_path t) v (inr tt)) = with_max l (lim_max d).
Proof using Hwf Hu64.
  intros Hd Henc. pose proof (validated_u64 d Hd) as [_ Hm]. pose proof unit_positive.
  apply validate_limits_Ok in Hd as (_ & _ & _ & _ & _ & D6). unfold observed_write.
  rewrite (parse_encode_frequency t (lim_max d)) by done.
  rewrite bool_decide_eq_false_2 by (intros Heq; apply (ftw_distinct t Hwf); by rewrite Heq).
  by rewrite bool_decide_eq_true_2.
Qed.

Lemma encode_valid f : exists v, encode_frequency t f = Ok v.
Proof using Hwf.
  unfold encode_frequency. rewrite (proj2 (Z.eqb_neq _ _)) by apply Hwf. eauto.
Qed.

Lemma wp_write_ordered c d (s : St W) :
  validate_limits t d = Ok tt ->
  wp (write_ordered t c d) (passes c (ordered_write_states c d) d s) s.
Proof using Hwf Hu64.
  intros Hd. unfold write_ordered.
  destruct (encode_valid (lim_min d)) as [vmin Emin]. destruct (encode_valid (lim_max d)) as [vmax Emax].
  apply wp_bind, wp_lift. rewrite Emin. apply wp_bind, wp_lift. rewrite Emax.
  destruct (ordered_write_states_ends c d) as [Hc Hd'].
  pose proof (ordered_write_states_mid c d) as Hmid.
  pose proof (fun l => observed_min l d vmin Hd Emin) as Omin.
  pose proof (fun l => observed_max l d vmax Hd Emax) as Omax.
  unfold with_min in Omin. unfold with_max in Omax.
  destruct (lim_max d <? lim_min c).
  - apply (wp_two_writes _ _ _ _ _ _ c {| lim_min := lim_min d; lim_max := lim_max c |} d);
      [done|done|done| |].
    + destruct (Z.eqb_spec (lim_min d) (lim_min c)) as [->|]; cbn [negb]; [by destruct c|apply Omin].
    + destruct (Z.eqb_spec (lim_max d) (lim_max c)) as [<-|]; cbn [negb]; [by destruct d|].
      rewrite Omax. by destruct d.
  - apply (wp_two_writes _ _ _ _ _ _ c {| lim_min := lim_min c; lim_max := lim_max d |} d);
      [done|done|done| |].
    + destruct (Z.eqb_spec (lim_max d) (lim_max c)) as [->|]; cbn [negb]; [by destruct c|apply Omax].
    + destruct (Z.eqb_spec (lim_min d) (lim_min c)) as [<-|]; cbn [negb]; [by destruct d|].
      rewrite Omin. by destruct d.
Qed.
End transition.

(** Every state the attributes pass through while a pair is written, also when
    a write fails halfway, is one of the legal pairs the journal records, and a
    valid, ordered pair of the target. *)
Theorem write_ordered_states {W} `{!Ports W} (t : FrequencyTarget) (c d : FrequencyLimits)
    (s : St W) r s' :
  frequency_target_wf t -> target_u64 t ->
  validate_limits t c = Ok tt -> validate_limits t d = Ok tt ->
  write_ordered t c d s = (r, s') ->
  exists evs, st_log s' = st_log s ++ evs /\
    (forall n, let l := foldl (observed_write t) c (take n evs) in
       l ∈ transaction_legal_pairs c d /\ validate_limits t l = Ok tt) /\
    (r = Ok tt -> foldl (observed_write t) c evs = d).
Proof.
  intros Hwf Hu Hc Hd Hrun.
  destruct (wp_run _ _ _ _ _ (wp_write_ordered t Hwf Hu c d s Hd) Hrun) as (evs & Hl & Hall & Hf & _).
  exists evs. split_and!; [done| |done]. intros n l.
  pose proof (Hall n) as Hn. split; [|eapply ordered_write_states_valid; [exact Hc|exact Hd|exact Hn]].
  apply foldl_push_unique. by left.
Qed.

Definition sim_pair (a b : Z) : FrequencyLimits := {| lim_min := a; lim_max := b |}.

Lemma write_ordered_states_witness :
  let run := write_ordered sim_target (sim_pair 1000000 2000000) (sim_pair 3000000 4000000) sim_start in
  run.1 = Ok tt /\
  exists evs, st_log run.2 = st_log sim_start ++ evs /\
    (forall n, let l := foldl (observed_write sim_target) (sim_pair 1000000 2000000) (take n evs) in
       l ∈ transaction_legal_pairs (sim_pair 1000000 2000000) (sim_pair 3000000 4000000) /\
       validate_limits sim_target l = Ok tt) /\
    (run.1 = Ok tt -> foldl (observed_write sim_target) (sim_pair 1000000 2000000) evs
                      = sim_pair 3000000 4000000).
Proof.
  intros run. split; [reflexivity|].
  exact (write_ordered_states sim_target (sim_pair 1000000 2000000) (sim_pair 3000000 4000000)
    sim_start _ _ sim_target_wf
    ltac:(vm_compute; repeat split; discriminate) eq_refl eq_refl (surjective_pairing _)).
Defined.

(** ** The settling loop terminates *)

(** What the loop relies on: [Instant::now] is monotone, [thread::sleep] lasts
    at least as long as asked, and reading an attribute does not turn the clock
    back. *)
Record clock_laws {W} `{!Ports W} (clock : W -> Z) : Prop := {
  cl_now : forall w, clock w <= (instant_now w).1 /\ (instant_now w).1 <= clock (instant_now w).2;
  cl_sleep : forall w d, 0 <= d -> clock w + d <= clock (thread_sleep d w);
  cl_read : forall p w, clock w <= clock (read_string p w).2;
}.

Section settling.
Context {W : Type} `{!Ports W} (clock : W -> Z) (Hlaws : clock_laws clock).

(** The clock only advances, and there is no panic. *)
Definition advances {A} (m : M W A) : Prop :=
  forall s, (m s).1 <> Panic /\ clock (st_world s) <= clock (st_world (m s).2).

Lemma advances_ret {A} (x : A) : advances (mret x).
Proof. intros s. split; [done|]. simpl. lia. Qed.
Lemma advances_lift {A} (r : res A ActuatorError) : r <> Panic -> advances (lift r).
Proof. intros Hr s. split; [done|]. simpl. lia. Qed.
Lemma advances_read p : advances (io_read p).
Proof using Hlaws.
  intros s. unfold io_read, call. pose proof (cl_read _ Hlaws p (st_world s)) as Hr.
  destruct (read_string p (st_world s)) as [[e|v] w]; by split.
Qed.
Lemma advances_bind {A B} (m : M W A) (k : A -> M W B) :
  advances m -> (forall x, advances (k x)) -> advances (x ← m; k x).
Proof.
  intros Hm Hk s. destruct (Hm s) as [Hp Hc]. unfold mbind, M_bind.
  destruct (m s) as [[x|e|] s1]; simpl in *; [|done..].
  destruct (Hk x s1). split; [done|lia].
Qed.
Lemma advances_attempt {A} (m : M W A) : advances m -> advances (attempt m).
Proof.
  intros Hm s. destruct (Hm s) as [Hp Hc]. unfold attempt. by destruct (m s) as [[x|e|] s1].
Qed.

Lemma parse_hertz_no_panic p v u : parse_hertz p v u <> Panic.
Proof. unfold parse_hertz. by destruct (_ ≫= _). Qed.

Lemma advances_read_limits t : advances (read_limits t).
Proof using Hlaws.
  unfold read_limits. apply advances_bind; [apply advances_read|]. intros raw_min.
  apply advances_bind; [apply advances_lift, parse_hertz_no_panic|]. intros mn.
  apply advances_bind; [apply advances_read|]. intros raw_max.
  apply advances_bind; [apply advances_lift, parse_hertz_no_panic|]. intros mx.
  apply advances_lift. unfold FrequencyLimits_new. by destruct (mn <=? mx).
Qed.

Lemma advances_observe t r : advances (observe t r).
Proof using Hlaws.
  unfold observe. intros s. pose proof (advances_attempt _ (advances_read_limits t) s) as [Hp Hc].
  unfold mbind, M_bind. unfold attempt in *.
  destruct (advances_read_limits t s) as [Hnp _].
  destruct (read_limits t s) as [[l|e|] s1]; simpl in *; [|by destruct e|done].
  by destruct (decide (l = r)).
Qed.

Lemma settle_loop_total fuel deadline t r s :
  (0 < fuel)%nat ->
  deadline - clock (st_world s) <= FREQUENCY_SETTLE_POLL_INTERVAL * (Z.of_nat fuel - 1) ->
  (settle_loop fuel deadline t r s).1 <> Panic.
Proof using Hlaws.
  revert s. induction fuel as [|fuel IH]; intros s Hf Hd; [lia|].
  cbn [settle_loop]. unfold mbind at 1, M_bind at 1.
  destruct (advances_observe t r s) as [Hp Hc].
  destruct (observe t r s) as [[[l|o]|e|] s1]; [done| |done|done]. cbn [fst snd] in *.
  unfold mbind, M_bind, now. pose proof (cl_now _ Hlaws (st_world s1)) as [N1 N2].
  destruct (instant_now (st_world s1)) as [n w]. cbn [fst snd] in *.
  destruct (Z.leb_spec deadline n); [done|]. unfold sleep. cbn [st_world].
  set (d := Z.min _ _). assert (Hd0 : 0 <= d) by (unfold d, FREQUENCY_SETTLE_POLL_INTERVAL; lia).
  pose proof (cl_sleep _ Hlaws w d Hd0) as Hs.
  assert (Hfuel : (0 < fuel)%nat).
  { unfold FREQUENCY_SETTLE_POLL_INTERVAL in Hd. destruct fuel; lia. }
  assert (Hd1 : d = FREQUENCY_SETTLE_POLL_INTERVAL \/ d = deadline - n) by (unfold d; lia).
  clearbody d. apply IH; [done|]. cbn [st_world].
  unfold FREQUENCY_SETTLE_POLL_INTERVAL in *. lia.
Qed.

(** The polls allowed by the model cover the timeout: waiting for a pair ends,
    with the pair or with an error, whatever the attributes hold. *)
Theorem wait_for_limits_total t r s :
  (wait_for_limits t r s).1 <> Panic /\
  forall l, (wait_for_limits t r s).1 = Ok l -> l = r.
Proof using Hlaws.
  split.
  - unfold wait_for_limits, mbind, M_bind, now.
    pose proof (cl_now _ Hlaws (st_world s)) as [N1 N2].
    destruct (instant_now (st_world s)) as [n w]. cbn [fst snd] in *.
    apply settle_loop_total; [unfold settle_fuel; lia|]. cbn [st_world].
    unfold FREQUENCY_SETTLE_TIMEOUT, FREQUENCY_SETTLE_POLL_INTERVAL, settle_fuel. lia.
  - intros l Hl. destruct (quiet_wait no_paths t r s) as [_ Hr]. by apply Hr.
Qed.
End settling.

Lemma sim_clock : clock_laws sw_clock.
Proof. constructor; intros; simpl; [done|lia|done]. Qed.

Lemma wait_for_limits_total_witness :
  (wait_for_limits sim_target (sim_pair 2000000 3000000) sim_start).1 <> Panic /\
  forall l, (wait_for_limits sim_target (sim_pair 2000000 3000000) sim_start).1 = Ok l ->
    l = sim_pair 2000000 3000000.
Proof.
  exact (wait_for_limits_total sw_clock sim_clock sim_target (sim_pair 2000000 3000000) sim_start).
Defined.

(** * What a successful frequency batch reports

    Partial correctness of results, whatever the ports answer: the pairs a
    transaction reports are the snapped requests, read back from the machine. *)

Section yields.
Context {W : Type} `{!Ports W} `{JournalCodec}.

(** A result of [m], from any state, satisfies [R]. *)
Definition yields {A} (m : M W A) (R : A -> Prop) : Prop := forall s x, (m s).1 = Ok x -> R x.

Lemma yields_ret {A} (x : A) (R : A -> Prop) : R x -> yields (mret x) R.
Proof. by intros HR s y [= <-]. Qed.
Lemma yields_fail {A} e (R : A -> Prop) : yields (fail e) R.
Proof. by intros s y. Qed.
Lemma yields_panic {A} (R : A -> Prop) : yields panic R.
Proof. by intros s y. Qed.
Lemma yields_degrade {A} m (R : A -> Prop) : yields (degrade m) R.
Proof. by intros s y. Qed.
Lemma yields_lift {A} r (R : A -> Prop) : (forall x, r = Ok x -> R x) -> yields (lift r) R.
Proof. intros HR s x Hx. by apply HR. Qed.
Lemma yields_any {A} (m : M W A) : yields m (fun _ => True).
Proof. done. Qed.
Lemma yields_weaken {A} (m : M W A) (R R' : A -> Prop) :
  yields m R -> (forall x, R x -> R' x) -> yields m R'.
Proof. intros Hm HR s x Hx. eapply HR, Hm, Hx. Qed.
Lemma yields_quiet {A} P (R : A -> Prop) (m : M W A) : quiet P R m -> yields m R.
Proof. intros Hm s x Hx. destruct (Hm s) as [_ Hr]. by apply Hr. Qed.

Lemma yields_bind {A B} (R : A -> Prop) (m : M W A) (k : A -> M W B) Q :
  yields m R -> (forall x, R x -> yields (k x) Q) -> yields (x ← m; k x) Q.
Proof.
  intros Hm Hk s y Hy. unfold mbind, M_bind in Hy. specialize (Hm s).
  destruct (m s) as [[x|e|] s1]; simpl in *; [|done..]. by eapply (Hk x (Hm x eq_refl) s1).
Qed.

Lemma yields_then {A B} (m : M W A) (k : A -> M W B) Q :
  (forall x, yields (k x) Q) -> yields (x ← m; k x) Q.
Proof. intros Hk. eapply yields_bind; [apply yields_any|]. auto. Qed.

Lemma yields_attempt {A} (m : M W A) (R : A -> Prop) :
  yields m R -> yields (attempt m) (fun r => forall x, r = Ok x -> R x).
Proof.
  intros Hm s r. unfold attempt. specialize (Hm s).
  destruct (m s) as [[x|e|] s1]; simpl in *; intros [= <-]; [|done]. intros y [= <-]. by apply Hm.
Qed.

Lemma yields_for_fold {A S} (I : list A -> S -> Prop) (f : S -> A -> M W S) l acc :
  I [] acc -> (forall pre x acc, I pre acc -> yields (f acc x) (I (pre ++ [x]))) ->
  yields (for_fold f acc l) (I l).
Proof.
  intros H0 Hf. assert (Hgen : forall pre acc, I pre acc -> yields (for_fold f acc l) (I (pre ++ l))).
  { clear H0. induction l as [|x l IH]; intros pre acc' Hi; simpl.
    - apply yields_ret. by rewrite app_nil_r.
    - eapply yields_bind; [by apply Hf|]. intros acc2 H2. apply IH in H2. by rewrite <- (assoc_L (++)) in H2. }
  by apply (Hgen []).
Qed.

(** ** The write loop *)

(** What the loop reports for one mutation. *)
Definition reported (m : PreparedFrequencyMutation) : FrequencyLimits :=
  if pf_needs_write m then pf_desired_request m else pf_before_effective m.

Definition reports (l : list PreparedFrequencyMutation) (applied out : BatchOutcome) : Prop :=
  (forall m, m ∈ l -> out !! mutation_id m = Some (reported m)) /\
  (forall id, id ∉ mutation_id <$> l -> out !! id = applied !! id).

Lemma reports_cons m l applied out :
  NoDup (mutation_id <$> (m :: l)) -> reports l (<[mutation_id m := reported m]> applied) out ->
  reports (m :: l) applied out.
Proof.
  intros [Hm Hnd]%NoDup_cons [H1 H2]. split.
  - intros m' [->|Hin]%elem_of_cons; [|by apply H1]. rewrite H2 by done. apply lookup_insert_eq.
  - intros id Hid. rewrite fmap_cons, not_elem_of_cons in Hid. destruct Hid as [Hne Hid].
    rewrite H2 by done. by apply lookup_insert_ne.
Qed.

Lemma yields_write_batch from record_ index l applied attempted :
  NoDup (mutation_id <$> l) ->
  yields (write_batch from record_ index l applied attempted)
    (fun o => wo_failure o = None -> reports l applied (wo_applied o)).
Proof.
  revert index applied attempted. induction l as [|m l IH]; intros index applied attempted Hnd; simpl.
  { apply yields_ret. intros _. split; [set_solver|done]. }
  pose proof Hnd as [_ Hl]%NoDup_cons.
  destruct (pf_needs_write m) eqn:Hw; simpl.
  - eapply yields_bind; [eapply yields_attempt, yields_quiet, quiet_apply_requested|].
    intros [actual|error|] Hr; [|by apply yields_ret|apply yields_panic].
    destruct (Hr actual eq_refl) as [-> _]. apply yields_then. intros _.
    eapply yields_weaken; [by apply IH|]. intros o Ho Hn. apply reports_cons; [done|].
    unfold reported. rewrite Hw. by apply Ho.
  - eapply yields_weaken; [by apply IH|]. intros o Ho Hn. apply reports_cons; [done|].
    unfold reported. rewrite Hw. by apply Ho.
Qed.

Lemma before_effective_reports l :
  NoDup (mutation_id <$> l) -> (forall m, m ∈ l -> pf_needs_write m = false) ->
  reports l ∅ (before_effective_outcome l).
Proof.
  intros Hnd Hw. unfold before_effective_outcome.
  assert (Hrev : forall X : list (string * FrequencyLimits), (rev X).*1 = rev (X.*1))
    by (intros X; apply map_rev).
  split.
  - intros m Hm. apply elem_of_list_to_map_1.
    + rewrite Hrev, <- list_fmap_compose. by apply NoDup_ListNoDup, NoDup_rev, NoDup_ListNoDup.
    + apply list_elem_of_In, in_rev. rewrite rev_involutive.
      apply list_elem_of_In, list_elem_of_fmap. exists m. split; [|done]. unfold reported.
      by rewrite (Hw m Hm).
  - intros id Hid. rewrite lookup_empty. apply not_elem_of_list_to_map_1.
    rewrite Hrev, <- list_fmap_compose, list_elem_of_In, <- in_rev, <- list_elem_of_In. exact Hid.
Qed.
End yields.

(** ** The two transactions *)

Section reporting.
Context {W : Type} `{!Ports W} `{JournalCodec}.
Context (a : Actuator) (Hwf : actuator_wf a).

(** A mutation prepared for a request. *)
Definition prepared_for (request : FrequencyRequest) (m : PreparedFrequencyMutation) : Prop :=
  reg_targets (act_registry a) !! fr_target request = Some (pf_target m) /\
  mutation_id m = fr_target request /\
  snap_limits (pf_target m) (fr_limits request) = Ok (pf_desired_request m).

Definition preparing_for (settled : PreparedFrequencyMutation -> Prop) (pre : list FrequencyRequest)
    (acc : gset string * list PreparedFrequencyMutation) : Prop :=
  Forall2 (fun r m => prepared_for r m /\ settled m) pre acc.2 /\
  NoDup (mutation_id <$> acc.2) /\ (forall m, m ∈ acc.2 -> mutation_id m ∈ acc.1).

Lemma preparing_for_snoc settled pre seen prepared r m :
  preparing_for settled pre (seen, prepared) -> prepared_for r m -> settled m ->
  fr_target r ∉ seen ->
  preparing_for settled (pre ++ [r]) ({[ fr_target r ]} ∪ seen, prepared ++ [m]).
Proof.
  intros (Hall & Hnd & Hseen) Hm Hs Hr. simpl in *. split_and!.
  - apply Forall2_app; [done|]. by constructor.
  - simpl. rewrite fmap_app. apply NoDup_app. split_and!; [done| |apply NoDup_singleton].
    intros id (m' & -> & Hin)%list_elem_of_fmap Hx%list_elem_of_singleton. apply Hr.
    destruct Hm as (_ & <- & _). rewrite <- Hx. by apply Hseen.
  - simpl. intros m' [Hin| ->%list_elem_of_singleton]%elem_of_app.
    + apply Hseen in Hin. set_solver.
    + destruct Hm as (_ & -> & _). set_solver.
Qed.

Definition settled_owned (m : PreparedFrequencyMutation) : Prop :=
  pf_needs_write m = false -> pf_before_effective m = pf_desired_request m.

Lemma yields_prepare_owned pre r acc :
  preparing_for settled_owned pre acc ->
  yields (prepare_owned a acc r) (preparing_for settled_owned (pre ++ [r])).
Proof using Hwf.
  destruct acc as [seen prepared]. intros Hprep. unfold prepare_owned.
  destruct (decide (fr_target r ∈ seen)) as [|Hseen].
  { eapply (yields_bind (fun _ => False)); [apply yields_fail|done]. }
  apply yields_then. intros _.
  eapply (yields_bind (fun t => reg_targets (act_registry a) !! fr_target r = Some t)).
  { apply yields_lift. intros t Ht. by apply ok_or_Ok in Ht. }
  intros t Ht. apply yields_then. intros j. apply yields_then. intros e.
  eapply (yields_bind (fun d => snap_limits t (fr_limits r) = Ok d)); [by apply yields_lift|].
  intros d Hd. apply yields_then. intros before. apply yields_ret.
  destruct (registered a Hwf _ _ Ht) as [Hid _].
  apply preparing_for_snoc; [done|done| |done]. intros Hw.
  apply orb_false_iff in Hw as [_ Hw]. apply bool_decide_eq_false in Hw. simpl in *.
  by destruct (decide (before = d)).
Qed.

Lemma preparing_for_start settled : preparing_for settled [] (∅, []).
Proof. split_and!; [constructor|constructor|set_solver]. Qed.

(** Every request of a successful fast batch is reported at its snapped pair,
    and nothing else is reported. *)
Definition settles (requests : list FrequencyRequest) (out : BatchOutcome) : Prop :=
  (forall r, r ∈ requests ->
     exists t d, reg_targets (act_registry a) !! fr_target r = Some t /\
       snap_limits t (fr_limits r) = Ok d /\ out !! fr_target r = Some d) /\
  (forall id, id ∉ fr_target <$> requests -> out !! id = None).

Lemma prepared_ids settled requests acc :
  preparing_for settled requests acc -> mutation_id <$> acc.2 = fr_target <$> requests.
Proof.
  intros (Hall & _ & _). induction Hall as [|r m rs ms [(_ & Hid & _) _] _ IH]; [done|].
  by rewrite !fmap_cons, Hid, IH.
Qed.

Lemma settles_reports requests prepared out seen :
  preparing_for settled_owned requests (seen, prepared) -> reports prepared ∅ out ->
  settles requests out.
Proof.
  intros Hprep [Hrep Hother]. pose proof (prepared_ids _ _ _ Hprep) as Hids. simpl in Hids.
  destruct Hprep as (Hall & _ & _). split.
  - intros r Hr. simpl in *. apply list_elem_of_lookup in Hr as [i Hi].
    destruct (Forall2_lookup_l _ _ _ _ _ Hall Hi) as (m & Hm & (Ht & Hid & Hd) & Hs).
    exists (pf_target m), (pf_desired_request m). split_and!; [done..|].
    rewrite <- Hid, Hrep by by eapply list_elem_of_lookup_2. unfold reported.
    destruct (pf_needs_write m) eqn:Hw; [done|]. by rewrite Hs.
  - intros id Hid. rewrite Hother; [apply lookup_empty|]. by rewrite Hids.
Qed.

Lemma yields_apply_fast requests :
  yields (apply_owned_batch_fast a requests) (settles requests).
Proof using Hwf.
  unfold apply_owned_batch_fast. apply yields_then. intros _.
  destruct requests as [|r0 rs]; [apply yields_ret; split; [intros r; set_solver|done]|].
  eapply yields_bind.
  { apply (yields_for_fold (preparing_for settled_owned)); [apply preparing_for_start|].
    intros. by apply yields_prepare_owned. }
  intros [seen prepared] Hprep. pose proof Hprep as (_ & Hnd & _). simpl in Hnd.
  destruct (forallb _ prepared) eqn:Eno.
  { apply yields_ret. eapply settles_reports; [done|]. apply before_effective_reports; [done|].
    intros m Hm%list_elem_of_In. rewrite forallb_forall in Eno. by apply negb_true_iff, Eno. }
  do 4 (apply yields_then; intros ?).
  eapply yields_bind; [by apply yields_write_batch|]. intros o Ho.
  destruct (wo_failure o) as [[failed error]|] eqn:Ef.
  - apply yields_then. intros [[]|rb|].
    + do 2 (apply yields_then; intros ?). apply yields_fail.
    + apply yields_degrade.
    + do 2 (apply yields_then; intros ?). apply yields_fail.
  - apply yields_ret. eapply settles_reports; [done|by apply Ho].
Qed.
End reporting.

(** * A batch of owned targets stays on the fast path

    Frequency operations keep the ownership of the targets they do not restore,
    and the fast path asks for a durable claim only when a target is not owned. *)

Create HintDb safe discriminated.

Definition requires_ownership (e : ActuatorError) : bool :=
  match e with OwnershipRequired _ => true | _ => false end.

Section owns.
Context {W : Type} `{!Ports W} `{JournalCodec}.
Context (D : list string).

Definition owns (s : St W) : Prop := forall id, id ∈ D -> is_Some (j_entries (journal_of s) !! id).

(** [m] keeps the targets [D] owned and, if [b], does not fail for lack of
    ownership. *)
Definition safe (b : bool) {A} (m : M W A) : Prop := forall s, owns s ->
  wp m (fun r s' => match r with
                    | Panic => True
                    | Ok _ => owns s'
                    | Err e => owns s' /\ (b = true -> requires_ownership e = false)
                    end) s.

Lemma safe_ret {A} b (x : A) : safe b (mret x).
Proof. by intros s Hs. Qed.
Lemma safe_panic {A} b : safe b (A := A) panic.
Proof. by intros s Hs. Qed.
Lemma safe_fail {A} b e : (b = true -> requires_ownership e = false) -> safe b (A := A) (fail e).
Proof. by intros He s Hs. Qed.
Lemma safe_lift {A} b (r : res A ActuatorError) :
  (forall e, r = Err e -> b = true -> requires_ownership e = false) -> safe b (lift r).
Proof. intros Hr s Hs. unfold wp, lift. simpl. destruct r; eauto. Qed.
Lemma safe_bind {A B} b (m : M W A) (k : A -> M W B) :
  safe b m -> (forall x, safe b (k x)) -> safe b (x ← m; k x).
Proof.
  intros Hm Hk s Hs. apply wp_bind. eapply wp_mono; [by apply Hm|].
  intros [x|e|] s' H'; [by apply Hk|done|done].
Qed.
Lemma safe_attempt {A} b (m : M W A) : safe false m -> safe b (attempt m).
Proof.
  intros Hm s Hs. apply wp_attempt. eapply wp_mono; [by apply Hm|].
  by intros [x|e|] s' H'; [|destruct H'|].
Qed.
Lemma safe_for_fold {A S} b (f : S -> A -> M W S) l acc :
  (forall acc x, safe b (f acc x)) -> safe b (for_fold f acc l).
Proof.
  intros Hf. revert acc. induction l as [|x l IH]; intros acc; simpl; [apply safe_ret|].
  apply safe_bind; [apply Hf|apply IH].
Qed.

Lemma safe_for_fold_in {A S} b (f : S -> A -> M W S) l acc :
  (forall acc x, x ∈ l -> safe b (f acc x)) -> safe b (for_fold f acc l).
Proof.
  revert acc. induction l as [|x l IH]; intros acc Hf; simpl; [apply safe_ret|].
  apply safe_bind; [apply Hf; set_solver|]. intros acc'. apply IH. intros. apply Hf. set_solver.
Qed.

Lemma owns_rt s s' : st_rt s' = st_rt s -> owns s -> owns s'.
Proof. intros E. unfold owns. by rewrite E. Qed.

Lemma safe_quiet {A} P (R : A -> Prop) m : quiet P R m -> safe false m.
Proof.
  intros Hm s Hs. eapply wp_quiet; [exact Hm|]. intros r s' [E _] _.
  pose proof (owns_rt _ _ E Hs). by destruct r.
Qed.
Lemma safe_call {A} b (op : W -> (PlatformError + A) * W) ev : safe b (call op ev).
Proof. intros s Hs. apply wp_call. by intros [e|x] w. Qed.

Lemma safe_degrade {A} b m : safe b (degrade (A := A) m).
Proof. intros s Hs. by apply wp_degrade. Qed.
Lemma safe_get_journal b : safe b get_journal.
Proof. by intros s Hs. Qed.

(** A journal that still owns [D]. *)
Lemma safe_put_journal b j :
  (forall id, id ∈ D -> is_Some (j_entries j !! id)) -> safe b (put_journal j).
Proof. by intros Hj s Hs; apply wp_put_journal. Qed.

Lemma safe_ready b : safe b ensure_mutation_ready.
Proof.
  intros s Hs. unfold ensure_mutation_ready, ensure_read_write, get_rt, mbind, M_bind, wp. simpl.
  destruct (rt_mode (st_rt s)); simpl; [destruct (rt_recovery_required (st_rt s)); simpl|]; done.
Qed.

(** A command after the journal has been read. *)
Lemma safe_with_journal {A} b (k : Journal -> M W A) :
  (forall j, (forall id, id ∈ D -> is_Some (j_entries j !! id)) -> safe b (k j)) ->
  safe b (j ← get_journal; k j).
Proof. intros Hk s Hs. apply wp_bind, wp_get_journal. by apply Hk. Qed.

Lemma safe_read_limits t : safe true (read_limits t).
Proof.
  unfold read_limits, io_read.
  assert (Hp : forall p v u e, parse_hertz p v u = Err e -> true = true -> requires_ownership e = false).
  { intros p v u e. unfold parse_hertz. destruct (_ ≫= _); [done|]. by intros [= <-]. }
  repeat (apply safe_bind; [first [apply safe_call|apply safe_lift, Hp]|intros ?]).
  apply safe_lift. intros e. destruct (FrequencyLimits_new _ _); try done. by intros [= <-].
Qed.

Lemma safe_update_owned id f : id ∈ D -> safe true (update_owned (W := W) id f).
Proof.
  intros Hid. unfold update_owned. apply safe_with_journal. intros j Hj.
  destruct (Hj id Hid) as [e He]. rewrite He. apply safe_bind; [by apply safe_lift|].
  intros e'. apply safe_put_journal. intros id' Hid'. simpl. apply lookup_insert_is_Some'. auto.
Qed.

Lemma safe_update_any id f : safe false (update_owned (W := W) id f).
Proof.
  unfold update_owned. apply safe_with_journal. intros j Hj. apply safe_bind; [by apply safe_lift|].
  intros e'. apply safe_put_journal. intros id' Hid'. simpl. apply lookup_insert_is_Some'. auto.
Qed.
End owns.

#[export] Hint Resolve safe_ret safe_panic safe_call safe_degrade safe_get_journal safe_ready
  safe_read_limits : safe.

Section fast.
Context {W : Type} `{!Ports W} `{JournalCodec}.
Context (a : Actuator) (Hwf : actuator_wf a) (D : list string).

Lemma safe_write_batch from record_ index l applied attempted :
  (forall id actual, id ∈ mutation_id <$> l -> safe D true (record_ id actual)) ->
  safe (W := W) D true (write_batch from record_ index l applied attempted).
Proof.
  revert index applied attempted. induction l as [|m l IH]; intros index applied attempted Hrec; simpl.
  { apply safe_ret. }
  assert (IH' : forall i ap at_, safe D true (write_batch from record_ i l ap at_)).
  { intros. apply IH. intros. apply Hrec. set_solver. }
  destruct (pf_needs_write m); simpl; [|apply IH'].
  apply safe_bind; [eapply safe_attempt, safe_quiet, quiet_apply_requested|].
  intros [actual|e|]; [|apply safe_ret|apply safe_panic].
  apply safe_bind; [apply Hrec; unfold mutation_id; set_solver|]. intros _. apply IH'.
Qed.

Lemma safe_rollback prepared attempted :
  safe (W := W) D false (rollback_frequency_requests prepared attempted).
Proof.
  unfold rollback_frequency_requests. apply safe_bind.
  - apply safe_for_fold. intros acc i. unfold rollback_one. destruct (prepared !! i); [|apply safe_panic].
    apply safe_bind; [eapply safe_attempt, safe_quiet, quiet_restore_request|].
    intros [x|e|]; apply safe_ret.
  - intros [|f fs]; [apply safe_ret|by apply safe_fail].
Qed.

Lemma safe_bind_yields {A B} b (R : A -> Prop) (m : M W A) (k : A -> M W B) :
  safe D b m -> yields m R -> (forall x, R x -> safe D b (k x)) -> safe D b (x ← m; k x).
Proof.
  intros Hm Hy Hk s Hs. apply wp_bind. specialize (Hm s Hs). specialize (Hy s). unfold wp in *.
  destruct (m s) as [[x|e|] s']; simpl in *; [|done..]. by apply (Hk x (Hy x eq_refl)).
Qed.

Lemma snap_never_requires t l e : snap_limits t l = Err e -> requires_ownership e = false.
Proof.
  unfold snap_limits, validate_limits. destruct (reject_if _ _) eqn:Er; simpl.
  - destruct (ft_opps t); [done|]. destruct (FrequencyLimits_new _ _); try done. by intros [= <-].
  - unfold reject_if in Er. destruct (_ || _) in Er; [|done]. injection Er as <-. by intros [= <-].
  - done.
Qed.

Lemma safe_prepare_owned acc r : fr_target r ∈ D -> safe (W := W) D true (prepare_owned a acc r).
Proof using Hwf.
  intros Hr. destruct acc as [seen prepared]. unfold prepare_owned. apply safe_bind.
  { destruct (decide _); [by apply safe_fail|apply safe_ret]. }
  intros _. eapply (safe_bind_yields _ (fun t => get (act_registry a) (fr_target r) = Some t)).
  { apply safe_lift. intros e He _. destruct (get _ _); [done|]. by injection He as <-. }
  { apply yields_lift. by intros t Ht%ok_or_Ok. }
  intros t Ht. destruct (registered a Hwf _ _ Ht) as [Hid _].
  apply safe_with_journal. intros j Hj. destruct (Hj (ft_id t)) as [e He]; [by rewrite Hid|].
  rewrite He. apply safe_bind; [by apply safe_lift|]. intros e'.
  apply safe_bind; [apply safe_lift; intros ? ? _; by eapply snap_never_requires|].
  intros d. apply safe_bind; [apply safe_read_limits|]. intros before. apply safe_ret.
Qed.

Lemma safe_put_entries b j es :
  (forall id, id ∈ D -> is_Some (es !! id)) -> safe (W := W) D b (put_journal (with_entries j es)).
Proof. intros He. by apply safe_put_journal. Qed.

Lemma safe_entry_before m : mutation_id m ∈ D -> safe (W := W) D true (entry_before m).
Proof.
  intros Hm. unfold entry_before. apply safe_with_journal. intros j Hj.
  destruct (Hj _ Hm) as [e He]. unfold mutation_id in He. rewrite He.
  apply safe_bind; [by apply safe_lift|]. intros e'. apply safe_ret.
Qed.

Lemma put_back_owned (saved : list (string * JournalEntry)) (es : gmap string JournalEntry) :
  (forall id, id ∈ D -> is_Some (es !! id)) ->
  forall id, id ∈ D -> is_Some (foldl (fun es kv => <[kv.1 := kv.2]> es) es saved !! id).
Proof.
  revert es. induction saved as [|[k e] saved IH]; intros es Hes; simpl; [done|].
  apply IH. intros id Hid. apply lookup_insert_is_Some'. auto.
Qed.

(** With every requested target owned, the fast path never asks for a claim. *)
Lemma safe_apply_fast requests :
  (forall r, r ∈ requests -> fr_target r ∈ D) ->
  safe (W := W) D true (apply_owned_batch_fast a requests).
Proof using Hwf.
  intros Hreq. unfold apply_owned_batch_fast. apply safe_bind; [apply safe_ready|]. intros _.
  destruct requests as [|r0 rs]; [apply safe_ret|].
  eapply (safe_bind_yields _ (fun acc => forall m, m ∈ acc.2 -> mutation_id m ∈ D)).
  { apply safe_for_fold_in. intros acc r Hr. apply safe_prepare_owned. by apply Hreq. }
  { eapply yields_weaken; [apply (yields_for_fold (preparing_for a settled_owned));
      [by apply preparing_for_start|intros; by apply (yields_prepare_owned a Hwf)]|].
    intros acc (Hall & _ & _) m Hm. apply list_elem_of_lookup in Hm as [i Hi].
    destruct (Forall2_lookup_r _ _ _ _ _ Hall Hi) as (r & Hr & (_ & -> & _) & _).
    by apply Hreq, list_elem_of_lookup_2 with i. }
  intros [seen prepared] Hprep. simpl in Hprep.
  destruct (forallb _ prepared); [apply safe_ret|].
  apply safe_with_journal. intros j Hj.
  assert (Hch : forall m, m ∈ List.filter pf_needs_write prepared -> mutation_id m ∈ D).
  { intros m [Hm _]%list_elem_of_In%filter_In. by apply Hprep, list_elem_of_In. }
  apply safe_bind.
  { apply safe_for_fold_in. intros acc m Hm. apply safe_bind; [by apply safe_entry_before, Hch|].
    intros e. apply safe_ret. }
  intros before. apply safe_bind; [by apply safe_put_journal|]. intros _.
  apply safe_bind.
  { apply safe_for_fold_in. intros acc m Hm. by apply safe_update_owned, Hch. }
  intros _. apply safe_bind.
  { apply safe_write_batch. intros id actual (m & -> & Hm)%list_elem_of_fmap.
    by apply safe_update_owned, Hprep. }
  intros o. destruct (wo_failure o) as [[failed error]|]; [|apply safe_ret].
  apply safe_bind; [apply safe_attempt, safe_rollback|]. intros r.
  destruct r as [x|rb|]; [| apply safe_degrade |];
    (apply safe_with_journal; intros j' Hj'; apply safe_bind; [|by intros; apply safe_fail];
     apply safe_put_entries; by apply put_back_owned).
Qed.
End fast.

(** ** Restoration *)

Section restoration.
Context {W : Type} `{!Ports W} `{JournalCodec}.
Context (a : Actuator) (Hwf : actuator_wf a) (D : list string).

Lemma safe_persist : safe (W := W) D false (j ← get_journal; persist_journal j).
Proof.
  apply safe_bind; [apply safe_get_journal|]. intros j. unfold persist_journal.
  apply safe_bind; [by apply safe_lift|]. intros bytes. apply safe_call.
Qed.

Lemma safe_restore_intent what automatic acc e :
  safe (W := W) D false (restore_intent a what automatic acc e).
Proof.
  unfold restore_intent. destruct (get _ _); [|apply safe_degrade].
  destruct (negb _); [apply safe_degrade|]. apply safe_with_journal. intros j Hj.
  apply safe_bind; [|intros; apply safe_ret].
  destruct (j_entries j !! je_target e) as [je|]; [|apply safe_ret].
  apply safe_put_entries. intros id Hid. apply lookup_insert_is_Some'. auto.
Qed.

Lemma safe_restore_write what et : safe (W := W) D false (restore_write what et).
Proof.
  unfold restore_write. apply safe_bind; [eapply safe_attempt, safe_quiet, quiet_restore_request|].
  intros [x|e|]; [apply safe_ret|apply safe_degrade|apply safe_ret].
Qed.

Lemma safe_persist_or_remove_locked what : safe (W := W) D false (persist_or_remove_locked what).
Proof.
  unfold persist_or_remove_locked. apply safe_bind; [apply safe_get_journal|]. intros j.
  apply safe_bind.
  - apply safe_attempt. unfold persist_or_remove_journal, persist_journal.
    destruct (journal_is_empty j); [apply safe_call|].
    apply safe_bind; [by apply safe_lift|]. intros bytes. apply safe_call.
  - intros [x|e|]; [apply safe_ret|apply safe_degrade|apply safe_ret].
Qed.

Lemma delete_entries_keep (es : gmap string JournalEntry) (gone : list JournalEntry) :
  (forall id, id ∈ D -> is_Some (es !! id)) -> (forall e, e ∈ gone -> je_target e ∉ D) ->
  forall id, id ∈ D -> is_Some (foldl (fun es e => delete (je_target e) es) es gone !! id).
Proof.
  revert es. induction gone as [|e gone IH]; intros es Hes Hg; simpl; [done|].
  apply IH; [|intros; apply Hg; set_solver]. intros id Hid.
  rewrite lookup_delete_ne; [by apply Hes|]. intros <-. by apply (Hg e); [set_solver|].
Qed.

(** Restoring some targets keeps the others owned. *)
Lemma restore_keeps d0 ids s :
  inv a d0 s -> owns D s -> (forall id, id ∈ ids -> id ∉ D) ->
  wp (restore_targets a ids) (fun r s' => match r with Panic => True | _ => owns D s' end) s.
Proof using Hwf.
  intros Hi Hs Hids. unfold restore_targets. apply wp_bind, wp_ensure_ready; [|done].
  intros Hr. apply wp_bind, wp_get_journal.
  destruct (inv_ready a d0 s Hi Hr) as [_ [_ Ho _]].
  set (gone := omap _ ids). assert (Hg : forall e, e ∈ gone -> je_target e ∉ D).
  { intros e (id & Hid & He)%list_elem_of_omap. destruct (Ho id e He) as (t & Ht & [E1 _ _ _ _ _ _ _]).
    rewrite E1. destruct (registered a Hwf id t Ht) as [-> _]. by apply Hids. }
  assert (Hsafe : safe (W := W) D false (
    restoration ← for_fold (restore_intent a "restore" "restoration") [] gone;
    (if bool_decide (restoration = []) then mret tt
     else p ← attempt (j ← get_journal; persist_journal j);
          match p with
          | Err error => degrade [T "cannot persist frequency restore intent: "; Cause error]
          | _ => mret tt
          end);;
    for_unit (restore_write "restore") restoration;;
    j ← get_journal;
    put_journal (next_generation (with_entries j
      (foldl (fun es e => delete (je_target e) es) (j_entries j) gone)));;
    persist_or_remove_locked "frequency restore")).
  { apply safe_bind; [apply safe_for_fold; intros; apply safe_restore_intent|]. intros restoration.
    apply safe_bind.
    { destruct (bool_decide _); [apply safe_ret|]. apply safe_bind; [apply safe_attempt, safe_persist|].
      intros [x|e|]; [apply safe_ret|apply safe_degrade|apply safe_ret]. }
    intros _. apply safe_bind; [apply safe_for_fold; intros; apply safe_restore_write|]. intros _.
    apply safe_with_journal. intros j Hj. apply safe_bind; [|intros; apply safe_persist_or_remove_locked].
    apply safe_put_journal. simpl. by apply delete_entries_keep. }
  eapply wp_mono; [by apply Hsafe|]. intros [x|e|] s' H'; [done|by destruct H'|done].
Qed.
End restoration.
