(* ===== verification/TaskFacts.v ===== *)
(** * Field-wise ownership of scheduling state

    What the masks of a task entry mean field by field, the lifetime of a
    relinquished field, and that an undisturbed task gets back exactly the
    scheduling state it had. *)

From S2P Require Import Prelude Domain Text Strings ActuatorTypes Scalars Targets Journal JournalFacts Ports FrequencyOps TaskOps.

(** ** Fields *)

Inductive task_field := FAffinity | FNice | FPolicy | FUclampMin | FUclampMax.

Inductive field_value :=
| VCpus (cpus : CpuSet)
| VNumber (z : Z)
| VPolicy (c : SchedulingClass) (priority : option Z)
| VClamp (o : option Z).
#[global] Instance field_value_eq_dec : EqDecision field_value.
Proof. solve_decision. Defined.

(** Policy and real-time priority are one field. *)
Definition field_of (f : task_field) (s : ProcessSchedulingState) : field_value :=
  match f with
  | FAffinity => VCpus (st_affinity s)
  | FNice => VNumber (st_nice s)
  | FPolicy => VPolicy (st_policy s) (st_rt_priority s)
  | FUclampMin => VClamp (st_uclamp_min s)
  | FUclampMax => VClamp (st_uclamp_max s)
  end.

Definition owns (m : TaskFieldMask) (f : task_field) : bool :=
  match f with
  | FAffinity => tm_affinity m
  | FNice => tm_nice m
  | FPolicy => tm_policy m
  | FUclampMin => tm_uclamp_min m
  | FUclampMax => tm_uclamp_max m
  end.

Lemma state_ext a b : (forall f, field_of f a = field_of f b) -> a = b.
Proof.
  intros Hf. pose proof (Hf FAffinity). pose proof (Hf FNice). pose proof (Hf FPolicy).
  pose proof (Hf FUclampMin). pose proof (Hf FUclampMax).
  destruct a, b. simpl in *. congruence.
Qed.

Lemma owns_default f : owns TaskMask_default f = false.
Proof. by destruct f. Qed.
Lemma owns_union a b f : owns (TaskMask_union a b) f = owns a f || owns b f.
Proof. by destruct f. Qed.
Lemma owns_without a b f : owns (TaskMask_without a b) f = owns a f && negb (owns b f).
Proof. by destruct f. Qed.

Lemma field_of_copy m d s f :
  field_of f (TaskMask_copy m d s) = if owns m f then field_of f s else field_of f d.
Proof. destruct f; simpl; by destruct (_ m). Qed.

Lemma bool_decide_ne_negb {A} `{EqDecision A} (x y : A) :
  bool_decide (x <> y) = negb (bool_decide (x = y)).
Proof. apply bool_decide_not. Qed.

Lemma same_policy_field a b :
  TaskMask_same_policy_priority a b = bool_decide (field_of FPolicy a = field_of FPolicy b).
Proof.
  unfold TaskMask_same_policy_priority. simpl.
  repeat case_bool_decide; simpl; congruence || done.
Qed.

Lemma owns_changed a b f :
  owns (TaskMask_changed a b) f = bool_decide (field_of f a <> field_of f b).
Proof.
  destruct f; simpl; try (apply bool_decide_ext; split; congruence).
  - rewrite bool_decide_ne_negb. f_equal. destruct (Z.eqb_spec (st_nice a) (st_nice b));
      case_bool_decide; congruence || done.
  - repeat case_bool_decide; simpl; congruence || done.
Qed.

Lemma owns_matching m c x y f :
  owns (TaskMask_fields_matching_either m c x y) f =
  owns m f && (bool_decide (field_of f c = field_of f x) || bool_decide (field_of f c = field_of f y)).
Proof.
  destruct f; simpl; rewrite ?same_policy_field; simpl; f_equal; try done;
    try (f_equal; apply bool_decide_ext; split; congruence).
  f_equal; (destruct (Z.eqb_spec (st_nice c) (st_nice x)) || idtac);
    (destruct (Z.eqb_spec (st_nice c) (st_nice y)) || idtac); case_bool_decide; congruence || done.
Qed.

Lemma intersects_spec a b :
  TaskMask_intersects a b = false <-> forall f, owns a f && owns b f = false.
Proof.
  unfold TaskMask_intersects. rewrite !orb_false_iff. split.
  - intros [[[[? ?] ?] ?] ?] []; done.
  - intros Hf. split_and!; [apply (Hf FAffinity)|apply (Hf FNice)|apply (Hf FPolicy)
      |apply (Hf FUclampMin)|apply (Hf FUclampMax)].
Qed.

#[export] Hint Rewrite owns_default owns_union owns_without owns_matching owns_changed field_of_copy : fields.

(** ** One transaction on an entry *)

(** The entry after an observation and a request, as [prepare_task] stores it. *)
Definition transact (e : TaskJournalEntry) (cr : ProcessSchedulingState * ProcessSchedulingState)
  : TaskJournalEntry := claim_fields (refresh_entry e cr.1) cr.1 cr.2.

Definition relinquished (e : TaskJournalEntry) (f : task_field) : Prop :=
  owns (te_relinquished_fields e) f = true /\ owns (te_owned_fields e) f = false.

Lemma transact_relinquished e cr f :
  relinquished e f ->
  relinquished (transact e cr) f /\ field_of f (te_desired (transact e cr)) = field_of f cr.1.
Proof.
  intros [Hr Ho]. unfold relinquished, transact, claim_fields, refresh_entry. simpl.
  autorewrite with fields. rewrite Hr, Ho. simpl. by rewrite andb_false_r.
Qed.

Lemma transact_all_relinquished e ops f :
  relinquished e f -> relinquished (foldl transact e ops) f.
Proof.
  revert e. induction ops as [|cr ops IH]; intros e He; [done|]. simpl.
  apply IH. by apply transact_relinquished.
Qed.

(** A field someone else took over, however the process is observed and
    whatever is requested later, is never owned again: no plan changes it from
    what is observed and no restoration touches it. *)
Theorem relinquished_field_untouched e ops current requested f observed :
  relinquished e f ->
  let e' := transact (foldl transact e ops) (current, requested) in
  relinquished e' f /\
  field_of f (te_desired e') = field_of f current /\
  field_of f (restored_state (te_owned_fields e') observed (te_applied e') (te_desired e')
                (te_original e')) = field_of f observed.
Proof.
  intros Hr e'.
  destruct (transact_relinquished (foldl transact e ops) (current, requested) f) as [He' Hd];
    [by apply transact_all_relinquished|]. fold e' in He', Hd. clearbody e'.
  split; [exact He'|]. split; [exact Hd|]. destruct He' as [_ Ho].
  unfold restored_state. by rewrite field_of_copy, owns_matching, Ho.
Qed.

(** A field that does not hold the value last applied is given up. *)
Lemma lost_field_relinquished e current f :
  owns (te_owned_fields e) f = true -> field_of f current <> field_of f (te_applied e) ->
  relinquished (refresh_entry e current) f.
Proof.
  intros Ho Hne. unfold relinquished, refresh_entry. simpl. autorewrite with fields.
  rewrite Ho, bool_decide_eq_false_2 by done. simpl. by rewrite orb_true_r.
Qed.

Definition sim_nice (n : Z) : ProcessSchedulingState :=
  {| st_affinity := {[ 0; 1 ]}; st_nice := n; st_policy := Other; st_rt_priority := None;
     st_uclamp_min := None; st_uclamp_max := None |}.
Definition sim_identity : ProcessIdentity := {| pid := 42; start_time_ticks := 7; uid := 1000 |}.

(** Applied 5, found at 10: the nice value now belongs to someone else. *)
Definition lost_nice : TaskJournalEntry :=
  refresh_entry (transact (fresh_entry sim_identity (sim_nice 0)) (sim_nice 0, sim_nice 5)) (sim_nice 10).

Lemma relinquished_field_untouched_witness :
  relinquished lost_nice FNice /\
  field_of FNice (te_desired (transact (foldl transact lost_nice []) (sim_nice 3, sim_nice 19)))
    = VNumber 3.
Proof.
  assert (Hr : relinquished lost_nice FNice) by (split; vm_compute; reflexivity).
  split; [exact Hr|].
  exact (proj1 (proj2 (relinquished_field_untouched lost_nice [] (sim_nice 3) (sim_nice 19) FNice
    (sim_nice 4) Hr))).
Defined.

(** ** Undisturbed ownership *)

(** Applying a request to an undisturbed process: what is observed is what was
    last applied, and the write took effect. *)
Definition undisturbed (e : TaskJournalEntry) (requested : ProcessSchedulingState)
  : TaskJournalEntry :=
  let e' := transact e (te_applied e, requested) in
  set_task_outcome e' (te_desired e').

(** Every field is either owned, with the value of [s0] saved, or as in [s0]. *)
Definition saves (s0 : ProcessSchedulingState) (e : TaskJournalEntry) : Prop :=
  te_desired e = te_applied e /\
  forall f, owns (te_relinquished_fields e) f = false /\
    if owns (te_owned_fields e) f then field_of f (te_original e) = field_of f s0
    else field_of f (te_applied e) = field_of f s0.

Lemma saves_fresh i s0 : saves s0 (fresh_entry i s0).
Proof. split; [done|]. intros f. simpl. by rewrite owns_default. Qed.

Lemma saves_undisturbed s0 e requested : saves s0 e -> saves s0 (undisturbed e requested).
Proof.
  intros [Hd Hf]. split; [done|]. intros f. destruct (Hf f) as [Hr Ho].
  unfold undisturbed, transact, claim_fields, refresh_entry. simpl. autorewrite with fields.
  rewrite Hr, (bool_decide_eq_true_2 (field_of f (te_applied e) = _)) by done. simpl.
  rewrite !andb_true_r. destruct (owns (te_owned_fields e) f) eqn:Eo; simpl.
  - split; [done|]. by rewrite Ho.
  - split; [done|]. case_bool_decide as Hc; simpl; [done|]. done.
Qed.

