(* ===== verification/KeyedFacts.v ===== *)
(** * The journal is filed by identity

    Every operation keeps each entry of the journal under the key of the
    resource it names, and a restoration takes nothing over: so [restore_all],
    when it succeeds, leaves an empty journal, and it leaves an empty journal
    empty whatever it answers. *)

From S2P Require Import Prelude Domain Text Strings ActuatorTypes Scalars Targets Journal JournalFacts Ports FrequencyOps ScalarOps TaskOps UnitOps Recovery Ownership FrequencySafety OtherSafety ActuatorSafety.

(** ** Maps filed under a key of their values *)

Section filed.
Context {A : Type} (key : A -> string).
Implicit Types m : gmap string A.

Definition filed m : Prop := forall k x, m !! k = Some x -> k = key x.

Lemma filed_empty : filed ∅.
Proof. by intros k x. Qed.
Lemma filed_insert m k x : k = key x -> filed m -> filed (<[k := x]> m).
Proof. intros -> Hm k' y [[<- <-]|[_ Hl]]%lookup_insert_Some; auto. Qed.
Lemma filed_delete m k : filed m -> filed (delete k m).
Proof. intros Hm k' y [_ Hl]%lookup_delete_Some. auto. Qed.
Lemma filed_replace m k x y : m !! k = Some x -> key y = key x -> filed m -> filed (<[k := y]> m).
Proof. intros Hl Hk Hm. apply filed_insert; [|done]. rewrite Hk. auto. Qed.
Lemma filed_foldl {B} (f : gmap string A -> B -> gmap string A) l m :
  (forall m x, filed m -> filed (f m x)) -> filed m -> filed (foldl f m l).
Proof. intros Hf. revert m. induction l; simpl; auto. Qed.

(** Deleting the entries found under some keys removes those keys. *)
Lemma dom_delete_all {B} (f : B -> string) l m :
  dom (foldl (fun m e => delete (f e) m) m l) ⊆ dom m.
Proof.
  revert m. induction l as [|e l IH]; intros m; simpl; [done|].
  etrans; [apply IH|]. rewrite dom_delete. set_solver.
Qed.

Lemma delete_all_gone {B} (f : B -> string) l m k :
  (exists e, e ∈ l /\ f e = k) -> foldl (fun m e => delete (f e) m) m l !! k = None.
Proof.
  intros (e & He & <-). revert m. induction l as [|e' l IH]; intros m; simpl; [by apply elem_of_nil in He|].
  apply elem_of_cons in He as [->|He]; [|by apply IH].
  apply not_elem_of_dom. intros Hin. apply dom_delete_all in Hin. rewrite dom_delete in Hin. set_solver.
Qed.

Lemma found_gone m m' (ids : list string) k :
  filed m -> dom m' ⊆ dom m -> k ∈ ids ->
  foldl (fun es e => delete (key e) es) m' (omap (fun id => m !! id) ids) !! k = None.
Proof.
  intros Hm Hd Hk. destruct (m !! k) as [e|] eqn:He.
  - apply delete_all_gone. exists e. split; [|by symmetry; apply Hm].
    apply list_elem_of_omap. eauto.
  - apply not_elem_of_dom. intros Hin. apply dom_delete_all in Hin. apply Hd in Hin.
    by apply not_elem_of_dom in He.
Qed.

Lemma found_empty m m' (ids : list string) :
  filed m -> dom m' ⊆ dom m -> (forall k, is_Some (m !! k) -> k ∈ ids) ->
  foldl (fun es e => delete (key e) es) m' (omap (fun id => m !! id) ids) = ∅.
Proof.
  intros Hm Hd Hids. apply map_empty. intros k.
  destruct (foldl _ _ _ !! k) as [e|] eqn:He; [|done].
  assert (Hin : k ∈ dom (foldl (fun es e => delete (key e) es) m' (omap (fun id => m !! id) ids))).
  { apply elem_of_dom. eauto. }
  apply dom_delete_all, Hd, elem_of_dom, Hids in Hin. by rewrite found_gone in He.
Qed.
End filed.

Definition task_key (e : TaskJournalEntry) : string := task_journal_key (te_identity e).

Record keyed (j : Journal) : Prop := {
  ke_entries : filed je_target (j_entries j);
  ke_scalars : filed se_target (j_scalars j);
  ke_tasks : filed task_key (j_tasks j);
  ke_units : filed ue_unit (j_units j);
}.

Lemma keyed_empty b f g : keyed (empty_journal b f g).
Proof. split; apply filed_empty. Qed.

Lemma valid_keyed j : journal_valid j -> keyed j.
Proof.
  intros Hv. split; intros k e Hl.
  - by apply (fev_key _ _ (jv_entries _ Hv _ _ Hl)).
  - by apply (sev_key _ _ _ (jv_scalars _ Hv _ _ Hl)).
  - by apply (jv_tasks _ Hv _ _ Hl).
  - by apply (uev_key _ _ (jv_units _ Hv _ _ Hl)).
Qed.

Lemma keyed_with_entries j es : filed je_target es -> keyed j -> keyed (with_entries j es).
Proof. by intros ? [? ? ? ?]; split. Qed.
Lemma keyed_with_scalars j es : filed se_target es -> keyed j -> keyed (with_scalars j es).
Proof. by intros ? [? ? ? ?]; split. Qed.
Lemma keyed_with_tasks j es : filed task_key es -> keyed j -> keyed (with_tasks j es).
Proof. by intros ? [? ? ? ?]; split. Qed.
Lemma keyed_with_units j es : filed ue_unit es -> keyed j -> keyed (with_units j es).
Proof. by intros ? [? ? ? ?]; split. Qed.
Lemma keyed_generation j g : keyed j -> keyed (with_generation j g).
Proof. by intros [? ? ? ?]; split. Qed.

Create HintDb keyed.
#[export] Hint Resolve ke_entries ke_scalars ke_tasks ke_units keyed_empty keyed_with_entries
  keyed_with_scalars keyed_with_tasks keyed_with_units keyed_generation filed_empty filed_insert
  filed_delete : keyed.

(** ** Journals that only lose entries *)

Record below (j0 j : Journal) : Prop := {
  be_keyed : keyed j;
  be_entries : dom (j_entries j) ⊆ dom (j_entries j0);
  be_scalars : dom (j_scalars j) ⊆ dom (j_scalars j0);
  be_tasks : dom (j_tasks j) ⊆ dom (j_tasks j0);
  be_units : dom (j_units j) ⊆ dom (j_units j0);
}.

Lemma below_refl j : keyed j -> below j j.
Proof. by split. Qed.

Lemma below_empty j0 j : journal_is_empty j0 = true -> below j0 j -> journal_is_empty j = true.
Proof.
  unfold journal_is_empty. rewrite !andb_true_iff, !bool_decide_eq_true.
  intros [[[H1 H2] H3] H4] [_ E S T U].
  rewrite H1, dom_empty_L in E. rewrite H2, dom_empty_L in S.
  rewrite H3, dom_empty_L in T. rewrite H4, dom_empty_L in U.
  split_and!; apply dom_empty_iff_L; set_solver.
Qed.

(** ** Routines that keep a property of the journal *)

Section stays.
Context {W : Type} `{!Ports W} `{JournalCodec}.
#[local] Abbreviation journal s := (rt_journal (st_rt s)).

Definition stays {A} (P : Journal -> Prop) (R : A -> Prop) (m : M W A) : Prop :=
  forall s, P (journal s) -> wp m (fun r s' => P (journal s') /\ forall x, r = Ok x -> R x) s.

Lemma stays_quiet {A} P P' (R : A -> Prop) m : quiet P' R m -> stays P R m.
Proof.
  intros Hq s Hs. eapply wp_quiet; [exact Hq|]. intros r s' [Hrt _] Hr. by rewrite Hrt.
Qed.

Lemma stays_weaken {A} P (R R' : A -> Prop) m :
  stays P R m -> (forall x, R x -> R' x) -> stays P R' m.
Proof. intros Hm HR s Hs. eapply wp_mono; [by apply Hm|]. intros r s' [? Hr]. eauto. Qed.

Lemma stays_ret {A} P (R : A -> Prop) x : R x -> stays P R (mret x).
Proof. intros Hx s Hs. split; [done|]. by intros y [= <-]. Qed.
Lemma stays_fail {A} P (R : A -> Prop) e : stays P R (fail e).
Proof. by intros s Hs. Qed.
Lemma stays_panic {A} P (R : A -> Prop) : stays P R panic.
Proof. by intros s Hs. Qed.
Lemma stays_lift {A} P (R : A -> Prop) r : (forall x, r = Ok x -> R x) -> stays P R (lift r).
Proof. by intros Hr s Hs. Qed.
Lemma stays_degrade {A} P (R : A -> Prop) reason : stays P R (degrade reason).
Proof. by intros s Hs. Qed.

Lemma stays_bind {A B} P (R : A -> Prop) (R' : B -> Prop) m k :
  stays P R m -> (forall x, R x -> stays P R' (k x)) -> stays P R' (x ← m; k x).
Proof.
  intros Hm Hk s Hs. apply wp_bind. eapply wp_mono; [by apply Hm|]. intros [x|e|] s' [Hs' Hr].
  - apply Hk; auto.
  - done.
  - done.
Qed.

Lemma stays_attempt {A} P (R : A -> Prop) m :
  stays P R m -> stays P (fun r => forall x, r = Ok x -> R x) (attempt m).
Proof.
  intros Hm s Hs. apply wp_attempt. eapply wp_mono; [by apply Hm|]. intros [x|e|] s' [Hs' Hr];
    (split; [done|]); try done; intros y [= <-]; naive_solver.
Qed.

(** What is read from the journal satisfies the property. *)
Lemma stays_get {A} P (R : A -> Prop) (k : Journal -> M W A) :
  (forall j, P j -> stays P R (k j)) -> stays P R (j ← get_journal; k j).
Proof. intros Hk s Hs. apply wp_bind, wp_get_journal. by apply Hk. Qed.
Lemma stays_get_rt {A} P (R : A -> Prop) (k : RuntimeState -> M W A) :
  (forall rt, P (rt_journal rt) -> stays P R (k rt)) -> stays P R (rt ← get_rt; k rt).
Proof. intros Hk s Hs. apply wp_bind, wp_get_rt. by apply Hk. Qed.
Lemma stays_put (P : Journal -> Prop) (R : unit -> Prop) j :
  P j -> R tt -> stays P R (put_journal j).
Proof. intros Hj Hr s Hs. apply wp_put_journal. split; [done|]. by intros []. Qed.
Lemma stays_put_rt (P : Journal -> Prop) (R : unit -> Prop) rt :
  P (rt_journal rt) -> R tt -> stays P R (put_rt rt).
Proof. intros Hj Hr s Hs. apply wp_put_rt. split; [done|]. by intros []. Qed.

(** A port call, the store included, leaves the journal in memory alone. *)
Lemma stays_call {A} P (op : W -> (PlatformError + A) * W) ev : stays P (fun _ => True) (call op ev).
Proof. intros s Hs. apply wp_call. by intros r w. Qed.

Lemma stays_for_fold {A S} P (I : S -> Prop) (f : S -> A -> M W S) l s0 :
  I s0 -> (forall s x, x ∈ l -> I s -> stays P I (f s x)) -> stays P I (for_fold f s0 l).
Proof.
  revert s0. induction l as [|x l IH]; intros s0 H0 Hf; simpl; [by apply stays_ret|].
  eapply stays_bind; [apply Hf; [by left|done]|]. intros s' Hs'.
  apply IH; [done|]. intros s y Hy. apply Hf. by right.
Qed.

Lemma stays_for_unit {A} P (f : A -> M W unit) l :
  (forall x, x ∈ l -> stays P (fun _ => True) (f x)) -> stays P (fun _ => True) (for_unit f l).
Proof. intros Hf. apply stays_for_fold; [done|]. intros _ x Hx _. by apply Hf. Qed.

Lemma stays_or_degrade {A} P (m : M W A) reason :
  stays P (fun _ => True) m -> stays P (fun _ => True) (or_degrade m reason).
Proof.
  intros Hm. unfold or_degrade. eapply stays_bind; [by apply stays_attempt|]. intros [x|e|] _.
  - by apply stays_ret.
  - apply stays_degrade.
  - apply stays_panic.
Qed.

(** A sequence that must succeed. *)
Lemma wp_stays {A B} P (R : A -> Prop) (m : M W A) (k : A -> M W B) (Q : St W -> Prop) s :
  stays P R m -> P (journal s) ->
  (forall x s', P (journal s') -> R x -> wp (k x) (fun r s'' => forall y, r = Ok y -> Q s'') s') ->
  wp (x ← m; k x) (fun r s' => forall y, r = Ok y -> Q s') s.
Proof.
  intros Hm Hs Hk. apply wp_bind. eapply wp_mono; [by apply Hm|]. intros [x|e|] s' [Hs' Hr]; [|done|done].
  apply Hk; auto.
Qed.
End stays.

Create HintDb stays.
#[export] Hint Resolve stays_call stays_attempt : stays.

Ltac stays_step :=
  match goal with
  | |- stays _ _ (mret _) => apply stays_ret
  | |- stays _ _ (fail _) => apply stays_fail
  | |- stays _ _ panic => apply stays_panic
  | |- stays _ _ (lift _) => apply stays_lift
  | |- stays _ _ (degrade _) => apply stays_degrade
  | |- stays _ _ (put_journal _) => apply stays_put
  | |- stays _ _ (put_rt _) => apply stays_put_rt
  | |- stays _ _ (mbind _ get_journal) => apply stays_get; intros ? ?
  | |- stays _ _ (mbind _ get_rt) => apply stays_get_rt; intros ? ?
  | |- stays _ _ (mbind _ _) => eapply (stays_bind _ (fun _ => True)); [|intros ? _]
  | |- stays _ _ (if ?b then _ else _) => destruct b eqn:?
  | |- stays _ _ (match ?x with _ => _ end) => destruct x eqn:?
  | |- stays _ _ (attempt _) => eapply stays_weaken; [apply (stays_attempt _ (fun _ => True))|done]
  | |- stays _ _ (or_degrade _ _) => apply stays_or_degrade
  | |- stays _ _ (for_unit _ _) => apply stays_for_unit; intros
  | |- stays _ (fun _ => True) (call _ _) => apply stays_call
  | |- stays _ _ _ => solve [eapply stays_weaken; [eauto with stays|done]
                            |apply (stays_quiet _ (fun _ => True)); eauto with quiet
                            |apply (stays_quiet _ (fun _ => True)); eapply quiet_any; eauto with quiet
                            |eapply stays_quiet; eauto with quiet
                            |eapply stays_quiet, quiet_any; eauto with quiet]
  end.
Ltac stays_tac := repeat stays_step; try done.

(** ** The store *)

Section store.
Context {W : Type} `{!Ports W} `{JournalCodec}.
Implicit Types P : Journal -> Prop.

Lemma stays_persist P j : stays P (fun _ => True) (persist_journal (W := W) j).
Proof. unfold persist_journal. stays_tac. Qed.
Lemma stays_persist_or_remove P j : stays P (fun _ => True) (persist_or_remove_journal (W := W) j).
Proof. unfold persist_or_remove_journal. stays_tac; apply stays_persist. Qed.
Hint Resolve stays_persist stays_persist_or_remove : stays.
Lemma stays_persist_locked P o : stays P (fun _ => True) (persist_or_remove_locked (W := W) o).
Proof. unfold persist_or_remove_locked. stays_tac. Qed.
Lemma stays_ready P : stays P (fun _ => True) (ensure_mutation_ready (W := W)).
Proof. unfold ensure_mutation_ready, ensure_read_write. stays_tac. Qed.
End store.
#[export] Hint Resolve stays_persist stays_persist_or_remove stays_persist_locked stays_ready : stays.

(** ** Restoration takes nothing *)

Section restoration.
Context {W : Type} `{!Ports W} `{JournalCodec}.
Context (a : Actuator) (P : Journal -> Prop).
Hypothesis HP : forall j, P j -> keyed j.
Hypothesis Hsub : forall j0 j, P j0 -> below j0 j -> P j.

Lemma keep_entries j es :
  P j -> (keyed j -> filed je_target es) -> dom es ⊆ dom (j_entries j) -> P (with_entries j es).
Proof using HP Hsub.
  intros Hj Hf Hd. pose proof (HP j Hj). apply (Hsub j); [done|]. split; simpl; auto with keyed.
Qed.
Lemma keep_scalars j es :
  P j -> (keyed j -> filed se_target es) -> dom es ⊆ dom (j_scalars j) -> P (with_scalars j es).
Proof using HP Hsub.
  intros Hj Hf Hd. pose proof (HP j Hj). apply (Hsub j); [done|]. split; simpl; auto with keyed.
Qed.
Lemma keep_tasks j es :
  P j -> (keyed j -> filed task_key es) -> dom es ⊆ dom (j_tasks j) -> P (with_tasks j es).
Proof using HP Hsub.
  intros Hj Hf Hd. pose proof (HP j Hj). apply (Hsub j); [done|]. split; simpl; auto with keyed.
Qed.
Lemma keep_units j es :
  P j -> (keyed j -> filed ue_unit es) -> dom es ⊆ dom (j_units j) -> P (with_units j es).
Proof using HP Hsub.
  intros Hj Hf Hd. pose proof (HP j Hj). apply (Hsub j); [done|]. split; simpl; auto with keyed.
Qed.
Lemma keep_generation j g : P j -> P (with_generation j g).
Proof using HP Hsub.
  intros Hj. pose proof (HP j Hj). apply (Hsub j); [done|]. split; simpl; auto with keyed.
Qed.

(** An entry replaced in place. *)
Lemma dom_replace {A} (m : gmap string A) k x y : m !! k = Some x -> dom (<[k := y]> m) ⊆ dom m.
Proof. intros Hl. rewrite dom_insert. apply elem_of_dom_2 in Hl. set_solver. Qed.

Lemma stays_restore_intent what automatic l e :
  stays P (fun _ => True) (restore_intent (W := W) a what automatic l e).
Proof using HP Hsub.
  unfold restore_intent. stays_tac. eapply keep_entries; [done| |by eapply dom_replace].
  intros Hk. eapply filed_replace; eauto with keyed.
Qed.

Lemma stays_restore_write what et : stays P (fun _ => True) (restore_write (W := W) what et).
Proof. unfold restore_write. stays_tac. Qed.
#[local] Hint Resolve stays_restore_write : stays.

Lemma filed_delete_all {A B} (key : A -> string) (f : B -> string) l m :
  filed key m -> filed key (foldl (fun m e => delete (f e) m) m l).
Proof. apply filed_foldl. intros. by apply filed_delete. Qed.

Lemma keep_delete_entries {B} (f : B -> string) j (l : list B) :
  P j -> P (with_entries j (foldl (fun m e => delete (f e) m) (j_entries j) l)).
Proof using HP Hsub.
  intros Hj. apply keep_entries; [done| |apply dom_delete_all]. intros. apply filed_delete_all. auto with keyed.
Qed.
Lemma keep_delete_scalars {B} (f : B -> string) j (l : list B) :
  P j -> P (with_scalars j (foldl (fun m e => delete (f e) m) (j_scalars j) l)).
Proof using HP Hsub.
  intros Hj. apply keep_scalars; [done| |apply dom_delete_all]. intros. apply filed_delete_all. auto with keyed.
Qed.
Lemma keep_delete_tasks {B} (f : B -> string) j (l : list B) :
  P j -> P (with_tasks j (foldl (fun m e => delete (f e) m) (j_tasks j) l)).
Proof using HP Hsub.
  intros Hj. apply keep_tasks; [done| |apply dom_delete_all]. intros. apply filed_delete_all. auto with keyed.
Qed.
Lemma keep_delete_units {B} (f : B -> string) j (l : list B) :
  P j -> P (with_units j (foldl (fun m e => delete (f e) m) (j_units j) l)).
Proof using HP Hsub.
  intros Hj. apply keep_units; [done| |apply dom_delete_all]. intros. apply filed_delete_all. auto with keyed.
Qed.

Lemma stays_restore_intents what automatic es :
  stays P (fun _ => True) (for_fold (restore_intent (W := W) a what automatic) [] es).
Proof using HP Hsub. apply stays_for_fold; [done|]. intros. apply stays_restore_intent. Qed.
#[local] Hint Resolve stays_restore_intents : stays.

Lemma stays_restore_targets ids : stays P (fun _ => True) (restore_targets (W := W) a ids).
Proof using HP Hsub.
  unfold restore_targets, next_generation. stays_tac.
  by apply keep_generation, (keep_delete_entries je_target).
Qed.

Lemma stays_plan_restoration e t c : stays P (fun _ => True) (plan_restoration (W := W) e t c).
Proof using HP Hsub.
  unfold plan_restoration. stays_tac. eapply keep_scalars; [done| |by eapply dom_replace].
  intros Hk. eapply filed_replace; eauto with keyed.
Qed.
#[local] Hint Resolve stays_plan_restoration : stays.

Lemma stays_restore_scalar_intents es :
  stays P (fun _ => True) (for_fold (restore_scalar_intent (W := W) a) [] es).
Proof using HP Hsub.
  apply stays_for_fold; [done|]. intros.
  unfold restore_scalar_intent, same_scalar_identity. stays_tac.
Qed.
#[local] Hint Resolve stays_restore_scalar_intents : stays.

Lemma stays_restore_scalar_write r : stays P (fun _ => True) (restore_scalar_write (W := W) r).
Proof. unfold restore_scalar_write. stays_tac. Qed.
#[local] Hint Resolve stays_restore_scalar_write : stays.

Lemma stays_restore_scalars ids : stays P (fun _ => True) (restore_scalars (W := W) a ids).
Proof using HP Hsub.
  unfold restore_scalars, next_generation. stays_tac.
  by apply keep_generation, (keep_delete_scalars se_target).
Qed.

Lemma stays_restore_task e : stays P (fun _ => True) (restore_task (W := W) e).
Proof. unfold restore_task. stays_tac. Qed.
#[local] Hint Resolve stays_restore_task : stays.

Lemma stays_restore_tasks ids : stays P (fun _ => True) (restore_tasks (W := W) a ids).
Proof using HP Hsub.
  unfold restore_tasks, next_generation. stays_tac.
  by apply keep_generation, (keep_delete_tasks task_key).
Qed.

Lemma stays_restore_unit e : stays P (fun _ => True) (restore_unit (W := W) e).
Proof. unfold restore_unit. stays_tac. Qed.
#[local] Hint Resolve stays_restore_unit : stays.

Lemma stays_restore_units ids : stays P (fun _ => True) (restore_units (W := W) a ids).
Proof using HP Hsub.
  unfold restore_units, next_generation. stays_tac.
  by apply keep_generation, (keep_delete_units ue_unit).
Qed.
End restoration.

(** ** Restoration that succeeds gives back what it was asked for *)

Section given_back.
Context {W : Type} `{!Ports W} `{JournalCodec}.
Context (a : Actuator).
#[local] Abbreviation journal s := (rt_journal (st_rt s)).

Lemma below_keyed j0 j : below j0 j -> keyed j.
Proof. apply be_keyed. Qed.
Lemma below_trans j0 j1 j2 : below j0 j1 -> below j1 j2 -> below j0 j2.
Proof. intros [_ ? ? ? ?] [? ? ? ? ?]. split; [done|by etrans..]. Qed.
#[local] Hint Resolve below_keyed below_trans : core.

(** The tail of every restoration: the entries go, and the journal is stored. *)
Lemma wp_drop (Q : Journal -> Prop) j what (s : St W) :
  Q j ->
  wp (put_journal j;; persist_or_remove_locked what)
    (fun r s' => forall y, r = Ok y -> Q (journal s')) s.
Proof.
  intros Hj. apply wp_bind, wp_put_journal.
  eapply wp_mono; [by apply (stays_persist_locked Q)|]. by intros r s' [? _].
Qed.

#[local] Hint Resolve stays_restore_intents stays_restore_write stays_restore_scalar_intents
  stays_restore_scalar_write stays_restore_task stays_restore_unit : stays.

(** The readiness check, then the journal as it stands. *)
Lemma wp_ready_get {A} (Q : Journal -> Prop) (k : Journal -> M W A) s :
  (forall s', journal s' = journal s ->
     wp (k (journal s)) (fun r s'' => forall y, r = Ok y -> Q (journal s'')) s') ->
  wp (ensure_mutation_ready;; j ← get_journal; k j)
    (fun r s' => forall y, r = Ok y -> Q (journal s')) s.
Proof.
  intros Hk. apply (wp_stays (fun j => j = journal s) (fun _ => True) _ _ (fun s' => Q (journal s')));
    [apply stays_ready|done|].
  intros _ s1 H1 _. apply wp_bind, wp_get_journal. rewrite H1. by apply Hk.
Qed.

(** A step of a restoration that began with the journal [j0]. *)
Lemma wp_below {A B} (Q : Journal -> Prop) j0 (m : M W A) (k : A -> M W B) s :
  stays (below j0) (fun _ => True) m -> below j0 (journal s) ->
  (forall x s', below j0 (journal s') ->
     wp (k x) (fun r s'' => forall y, r = Ok y -> Q (journal s'')) s') ->
  wp (x ← m; k x) (fun r s' => forall y, r = Ok y -> Q (journal s')) s.
Proof.
  intros Hm Hs Hk. by apply (wp_stays (below j0) (fun _ => True) _ _ (fun s' => Q (journal s'))); auto.
Qed.

Lemma wp_get_drop (Q : Journal -> Prop) (f : Journal -> Journal) what (s : St W) :
  Q (f (journal s)) ->
  wp (j ← get_journal; put_journal (f j);; persist_or_remove_locked what)
    (fun r s' => forall y, r = Ok y -> Q (journal s')) s.
Proof. intros HQ. apply wp_bind, wp_get_journal. by apply wp_drop. Qed.

Ltac below_step Q := eapply (wp_below Q); [stays_tac|eassumption|intros].

Lemma restore_targets_empties ids (s : St W) :
  keyed (journal s) -> (forall k, is_Some (j_entries (journal s) !! k) -> k ∈ ids) ->
  wp (restore_targets a ids) (fun r s' => forall y, r = Ok y -> j_entries (journal s') = ∅) s.
Proof.
  intros Hk Hids. unfold restore_targets. apply (wp_ready_get (fun j => j_entries j = ∅)).
  intros s1 H1. cbv beta zeta. pose proof (below_refl _ Hk) as Hb. rewrite <- H1 in Hb at 2.
  set (j0 := rt_journal (st_rt s)) in *. clearbody j0.
  apply (wp_below (fun j => j_entries j = ∅) j0); [by apply stays_restore_intents; eauto|done|intros ? s2 H2].
  do 2 below_step (fun j => j_entries j = ∅).
  apply (wp_get_drop (fun j => j_entries j = ∅)
           (fun j => next_generation (with_entries j (foldl (fun es e => delete (je_target e) es)
              (j_entries j) (omap (fun id => j_entries j0 !! id) ids))))). simpl.
  apply found_empty; [by apply ke_entries|by apply be_entries|done].
Qed.

Lemma restore_scalars_empties ids (s : St W) :
  keyed (journal s) -> (forall k, is_Some (j_scalars (journal s) !! k) -> k ∈ ids) ->
  wp (restore_scalars a ids) (fun r s' => forall y, r = Ok y -> j_scalars (journal s') = ∅) s.
Proof.
  intros Hk Hids. unfold restore_scalars. apply (wp_ready_get (fun j => j_scalars j = ∅)).
  intros s1 H1. cbv beta zeta. pose proof (below_refl _ Hk) as Hb. rewrite <- H1 in Hb at 2.
  set (j0 := rt_journal (st_rt s)) in *. clearbody j0.
  apply (wp_below (fun j => j_scalars j = ∅) j0); [by apply stays_restore_scalar_intents; eauto|done|intros ? s2 H2].
  do 2 below_step (fun j => j_scalars j = ∅).
  apply (wp_get_drop (fun j => j_scalars j = ∅)
           (fun j => next_generation (with_scalars j (foldl (fun es e => delete (se_target e) es)
              (j_scalars j) (omap (fun id => j_scalars j0 !! id) ids))))). simpl.
  apply found_empty; [by apply ke_scalars|by apply be_scalars|done].
Qed.

(** Nothing found under the keys that are all there are. *)
Lemma found_none {A B} (m : gmap string A) (f : B -> string) (ids : list B) :
  (forall k, is_Some (m !! k) -> exists i, i ∈ ids /\ f i = k) ->
  omap (fun i => m !! f i) ids = [] -> m = ∅.
Proof.
  intros Hids Hnil. apply map_empty. intros k. destruct (m !! k) as [e|] eqn:He; [|done].
  destruct (Hids k) as (i & Hi & <-); [eauto|].
  assert (Hin : e ∈ omap (fun i => m !! f i) ids) by (apply list_elem_of_omap; eauto).
  rewrite Hnil in Hin. by apply elem_of_nil in Hin.
Qed.

Lemma found_fmap {A B} (m : gmap string A) (f : B -> string) (ids : list B) :
  omap (fun i => m !! f i) ids = omap (fun k => m !! k) (f <$> ids).
Proof. induction ids; csimpl; [done|]. rewrite IHids. done. Qed.

Lemma restore_tasks_empties ids (s : St W) :
  keyed (journal s) ->
  (forall k, is_Some (j_tasks (journal s) !! k) -> exists i, i ∈ ids /\ task_journal_key i = k) ->
  wp (restore_tasks a ids) (fun r s' => forall y, r = Ok y -> j_tasks (journal s') = ∅) s.
Proof.
  intros Hk Hids. unfold restore_tasks. apply (wp_ready_get (fun j => j_tasks j = ∅)).
  intros s1 H1. cbv beta zeta. pose proof (below_refl _ Hk) as Hb. rewrite <- H1 in Hb at 2.
  case_bool_decide as Hnil.
  { apply wp_ret. intros ? _. rewrite H1. by eapply found_none. }
  set (j0 := rt_journal (st_rt s)) in *. clearbody j0. rewrite found_fmap.
  do 3 below_step (fun j => j_tasks j = ∅).
  apply (wp_get_drop (fun j => j_tasks j = ∅)
           (fun j => next_generation (with_tasks j (foldl (fun ts e => delete (task_key e) ts)
              (j_tasks j) (omap (fun k => j_tasks j0 !! k) (task_journal_key <$> ids)))))). simpl.
  apply found_empty; [by apply ke_tasks|by apply be_tasks|].
  intros k Hin. apply list_elem_of_fmap. destruct (Hids k Hin) as (i & ? & <-). eauto.
Qed.

Lemma restore_units_empties names (s : St W) :
  keyed (journal s) -> (forall k, is_Some (j_units (journal s) !! k) -> k ∈ names) ->
  wp (restore_units a names) (fun r s' => forall y, r = Ok y -> j_units (journal s') = ∅) s.
Proof.
  intros Hk Hids. unfold restore_units. apply (wp_ready_get (fun j => j_units j = ∅)).
  intros s1 H1. cbv beta zeta. pose proof (below_refl _ Hk) as Hb. rewrite <- H1 in Hb at 2.
  case_bool_decide as Hnil.
  { apply wp_ret. intros ? _. rewrite H1. eapply (found_none _ id); [|exact Hnil]. simpl. eauto. }
  set (j0 := rt_journal (st_rt s)) in *. clearbody j0.
  do 2 below_step (fun j => j_units j = ∅).
  apply (wp_get_drop (fun j => j_units j = ∅)
           (fun j => next_generation (with_units j (foldl (fun us e => delete (ue_unit e) us)
              (j_units j) (omap (fun u => j_units j0 !! u) names))))). simpl.
  apply found_empty; [by apply ke_units|by apply be_units|done].
Qed.
End given_back.

(** ** [restore_all] *)

Section restore_all.
Context {W : Type} `{!Ports W} `{JournalCodec}.
Context (a : Actuator).
#[local] Abbreviation journal s := (rt_journal (st_rt s)).
#[local] Hint Resolve below_keyed below_trans : core.

Lemma stays_restore_all j0 : stays (below j0) (fun _ => True) (restore_all (W := W) a).
Proof.
  unfold restore_all.
  stays_tac; [eapply stays_restore_targets|eapply stays_restore_scalars|eapply stays_restore_tasks
             |eapply stays_restore_units]; eauto.
Qed.

Lemma in_keys {A} (m : gmap string A) k : is_Some (m !! k) -> k ∈ keys m.
Proof.
  intros [x Hx]. unfold keys. apply list_elem_of_fmap. exists (k, x). split; [done|].
  by apply elem_of_entries.
Qed.

Lemma in_task_keys m k :
  filed task_key m -> is_Some (m !! k) ->
  exists i, i ∈ te_identity <$> values m /\ task_journal_key i = k.
Proof.
  intros Hm [e He]. exists (te_identity e). split; [|by symmetry; apply Hm].
  apply list_elem_of_fmap. exists e. split; [done|]. apply elem_of_values. eauto.
Qed.

(** One stage of the restoration: the journal loses only entries, and one kind
    of entry is gone if it succeeds. *)
Lemma wp_stage {A B} (Q R : Journal -> Prop) (m : M W A) (k : A -> M W B) (s : St W) :
  keyed (journal s) -> stays (below (journal s)) (fun _ => True) m ->
  wp m (fun r s' => forall y, r = Ok y -> Q (journal s')) s ->
  (forall x s', below (journal s) (journal s') -> Q (journal s') ->
     wp (k x) (fun r s'' => forall y, r = Ok y -> R (journal s'')) s') ->
  wp (x ← m; k x) (fun r s' => forall y, r = Ok y -> R (journal s')) s.
Proof.
  intros Hj Hm HQ Hk. pose proof (Hm s (below_refl _ Hj)) as HP. apply wp_bind.
  unfold wp in HP, HQ |- * at 1. destruct HP as [HP _].
  destruct (m s) as [[x|e|] s']; [|done|done]. apply Hk; [done|]. by apply (HQ x).
Qed.

Lemma wp_bind_ret {A} (m : M W A) Q s : wp (x ← m; mret x) Q s -> wp m Q s.
Proof. unfold wp, mbind, M_bind. by destruct (m s) as [[] ?]. Qed.

Lemma below_gone j0 j :
  below j0 j ->
  (j_entries j0 = ∅ -> j_entries j = ∅) /\ (j_scalars j0 = ∅ -> j_scalars j = ∅)
  /\ (j_tasks j0 = ∅ -> j_tasks j = ∅).
Proof.
  intros [_ E S T _]. split_and!; intros Hnil; apply dom_empty_iff_L;
    [rewrite Hnil in E|rewrite Hnil in S|rewrite Hnil in T]; rewrite dom_empty_L in *; set_solver.
Qed.

#[local] Hint Resolve stays_restore_targets stays_restore_scalars stays_restore_tasks
  stays_restore_units restore_targets_empties restore_scalars_empties restore_tasks_empties
  restore_units_empties in_keys in_task_keys ke_tasks be_keyed : core.

Lemma restore_all_empties (s : St W) :
  keyed (journal s) ->
  wp (restore_all a) (fun r s' => forall y, r = Ok y -> journal_is_empty (journal s') = true) s.
Proof.
  intros Hk. unfold restore_all. apply wp_bind, wp_get_journal.
  apply (wp_stage (fun j => j_entries j = ∅) (fun j => journal_is_empty j = true)); eauto.
  intros _ s1 H1 E1. apply wp_bind, wp_get_journal.
  apply (wp_stage (fun j => j_scalars j = ∅) (fun j => journal_is_empty j = true)); eauto.
  intros _ s2 H2 S2. destruct (below_gone _ _ H2) as (E2 & _). specialize (E2 E1).
  apply wp_bind, wp_get_journal.
  apply (wp_stage (fun j => j_tasks j = ∅) (fun j => journal_is_empty j = true)); eauto 6.
  intros _ s3 H3 T3. destruct (below_gone _ _ H3) as (E3 & S3 & _).
  specialize (E3 E2). specialize (S3 S2). apply wp_bind, wp_get_journal.
  apply wp_bind_ret.
  apply (wp_stage (fun j => j_units j = ∅) (fun j => journal_is_empty j = true)); eauto.
  intros ? s4 H4 U4. destruct (below_gone _ _ H4) as (E4 & S4 & T4).
  apply wp_ret. intros ? _. unfold journal_is_empty.
  by rewrite (E4 E3), (S4 S3), (T4 T3), U4, !bool_decide_eq_true_2.
Qed.
End restore_all.

(** ** Every operation files its entries *)

Section operations.
Context {W : Type} `{!Ports W} `{JournalCodec}.
Context (a : Actuator).
#[local] Abbreviation journal s := (rt_journal (st_rt s)).
#[local] Abbreviation files m := (stays (W := W) keyed (fun _ => True) m).

Lemma keyed_below j0 j : keyed j0 -> below j0 j -> keyed j.
Proof. by intros _ []. Qed.

(** *** Frequency transactions *)

Lemma keyed_claim_entries j ms : keyed j -> keyed (claim_entries j ms).
Proof.
  intros Hj. unfold claim_entries, next_generation. apply keyed_with_entries; [|by apply keyed_generation].
  apply filed_foldl; [|by apply (ke_entries j)].
  intros es m Hes. unfold claim_entry. apply filed_insert; [|done]. simpl.
  destruct (es !! ft_id (pf_target m)) as [e|] eqn:He; simpl; [by apply Hes|done].
Qed.

Lemma keyed_transition j id e x y l :
  keyed j -> j_entries j !! id = Some e ->
  keyed (with_entries j (<[id := set_transition e x y l]> (j_entries j))).
Proof.
  intros Hj He. apply keyed_with_entries; [|done]. by eapply filed_replace; eauto with keyed.
Qed.

Lemma stays_abort_batch {A} rollback j w o t e :
  files rollback -> keyed j -> files (abort_batch (A := A) rollback j w o t e).
Proof. intros. unfold abort_batch. stays_tac. Qed.
Lemma stays_abort_unrecorded {A} rollback j w o e :
  files rollback -> keyed j -> files (abort_unrecorded (A := A) rollback j w o e).
Proof. intros. unfold abort_unrecorded. stays_tac. Qed.
#[local] Hint Resolve stays_abort_batch stays_abort_unrecorded : stays.

Lemma stays_write_batch from record_ i l x y :
  (forall id v, files (record_ id v)) -> files (write_batch from record_ i l x y).
Proof.
  intros Hr. revert i x y. induction l as [|m l IH]; intros; simpl; stays_tac.
Qed.

Lemma stays_rollback_requests prepared l : files (rollback_frequency_requests prepared l).
Proof.
  unfold rollback_frequency_requests, rollback_result. eapply (stays_bind _ (fun _ => True)).
  - apply stays_for_fold; [done|]. intros. unfold rollback_one. stays_tac.
  - intros. stays_tac.
Qed.
#[local] Hint Resolve stays_rollback_requests : stays.

Lemma stays_record_applied id v : files (record_applied id v).
Proof. unfold record_applied. stays_tac. by apply keyed_transition. Qed.

Lemma stays_prepare_requests l : files (for_fold (prepare_request (W := W) a) (∅, []) l).
Proof.
  apply stays_for_fold; [done|]. intros [seen prepared] r _ _. unfold prepare_request. stays_tac.
Qed.
#[local] Hint Resolve stays_prepare_requests stays_record_applied stays_write_batch : stays.

Lemma stays_apply_batch l : files (apply_batch a l).
Proof. unfold apply_batch. stays_tac. by apply keyed_claim_entries. Qed.

(** *** Owned transactions *)

Lemma stays_update_owned id f :
  (forall e, je_target (f e) = je_target e) -> files (update_owned id f).
Proof.
  intros Hf. unfold update_owned. apply stays_get. intros j Hj.
  eapply (stays_bind _ (fun e => j_entries j !! id = Some e)).
  { apply stays_lift. intros e. destruct (j_entries j !! id); simpl; congruence. }
  intros e He. apply stays_put; [|done]. apply keyed_with_entries; [|done].
  eapply filed_replace; eauto with keyed.
Qed.

Lemma stays_record_owned id v : files (record_owned id v).
Proof. by apply stays_update_owned. Qed.
Lemma stays_fast_transition m : files (fast_transition m).
Proof. by apply stays_update_owned. Qed.
#[local] Hint Resolve stays_record_owned stays_fast_transition : stays.

Lemma stays_prepare_owned l : files (for_fold (prepare_owned (W := W) a) (∅, []) l).
Proof.
  apply stays_for_fold; [done|]. intros [seen prepared] r _ _. unfold prepare_owned. stays_tac.
Qed.
#[local] Hint Resolve stays_prepare_owned : stays.

(** The entries saved for the way back are filed too. *)
Definition saved_filed (l : list (string * JournalEntry)) : Prop :=
  Forall (fun kv => kv.1 = je_target kv.2) l.

Lemma stays_entries_before l :
  stays (W := W) keyed saved_filed
    (for_fold (fun l m => e ← entry_before m; mret (l ++ [e])) [] l).
Proof.
  apply stays_for_fold; [constructor|]. intros saved m _ Hs. unfold entry_before.
  eapply (stays_bind _ (fun kv => kv.1 = je_target kv.2)).
  - apply stays_get. intros j Hj.
    eapply (stays_bind _ (fun e => ft_id (pf_target m) = je_target e)).
    + apply stays_lift. intros e. destruct (j_entries j !! _) eqn:He; simpl; intros [= <-].
      by apply (ke_entries j).
    + intros e He. by apply stays_ret.
  - intros kv Hkv. apply stays_ret. apply Forall_app. by split; [|constructor].
Qed.

Lemma keyed_put_back j saved :
  keyed j -> saved_filed saved ->
  keyed (with_entries j (foldl (fun es (kv : string * JournalEntry) => <[kv.1 := kv.2]> es)
                           (j_entries j) saved)).
Proof.
  intros Hj Hs. apply keyed_with_entries; [|done]. pose proof (ke_entries j Hj) as Hf. revert Hf.
  generalize (j_entries j). induction Hs as [|kv l Hkv Hs IH]; intros es Hes; simpl; [done|].
  apply IH. by apply filed_insert.
Qed.

Lemma stays_apply_fast l : files (apply_owned_batch_fast a l).
Proof.
  unfold apply_owned_batch_fast. stays_step; [stays_tac|]. destruct l as [|r l]; [stays_tac|].
  stays_step; [stays_tac|]. do 3 stays_step; [stays_tac|].
  eapply (stays_bind _ saved_filed); [apply stays_entries_before|]. intros saved Hsaved.
  stays_tac; [by apply keyed_generation|..];
    apply (keyed_put_back (with_generation _ _)); by try apply keyed_generation.
Qed.

(** *** Scalar transactions *)

Lemma keyed_claim_scalars j ms : keyed j -> keyed (claim_scalars j ms).
Proof.
  intros Hj. unfold claim_scalars, next_generation. apply keyed_with_scalars; [|by apply keyed_generation].
  apply filed_foldl; [|by apply (ke_scalars j)].
  intros es m Hes. unfold claim_scalar_entry. apply filed_insert; [|done]. simpl.
  destruct (es !! sct_id (ps_target m)) as [e|] eqn:He; simpl; [by apply Hes|done].
Qed.

Lemma stays_prepare_scalars l : files (for_fold (prepare_scalar (W := W) a) (∅, []) l).
Proof.
  apply stays_for_fold; [done|]. intros [seen prepared] r _ _.
  unfold prepare_scalar, check_scalar_owner, same_scalar_identity. stays_tac.
Qed.

Lemma stays_record_scalar id v : files (record_scalar id v).
Proof.
  unfold record_scalar. stays_tac. apply keyed_with_scalars; [|done].
  eapply filed_replace; eauto with keyed.
Qed.

Lemma stays_write_scalars i l x y : files (write_scalars i l x y).
Proof.
  pose proof stays_record_scalar. revert i x y. induction l as [|m l IH]; intros; simpl; stays_tac.
Qed.

Lemma stays_rollback_scalars prepared l : files (rollback_scalars prepared l).
Proof.
  unfold rollback_scalars, rollback_result. eapply (stays_bind _ (fun _ => True)).
  - apply stays_for_fold; [done|]. intros. unfold rollback_scalar. stays_tac.
  - intros. stays_tac.
Qed.
#[local] Hint Resolve stays_prepare_scalars stays_write_scalars stays_rollback_scalars : stays.

Lemma stays_apply_scalars l : files (apply_scalars a l).
Proof. unfold apply_scalars. stays_tac. by apply keyed_claim_scalars. Qed.

(** *** Task transactions *)

Definition prepared_filed (acc : gmap string TaskJournalEntry * prepared_tasks) : Prop :=
  filed task_key acc.1
  /\ forall i m e, acc.2 !! i = Some m -> pt_rollback_entry m = Some e ->
       task_key e = task_journal_key i.

Lemma prepare_task_filed observed acc r acc' :
  prepared_filed acc -> prepare_task observed acc r = Ok acc' -> prepared_filed acc'.
Proof.
  destruct acc as [tasks prepared]. intros [Ht Hp]. simpl in Ht, Hp. unfold prepare_task.
  destruct (observed !! tr_identity r) as [current|]; [|done]. intros [= <-]. simpl.
  assert (Hex : forall e, (fun e => refresh_entry e current) <$> tasks !! task_journal_key (tr_identity r)
                  = Some e -> task_key e = task_journal_key (tr_identity r)).
  { intros e (e0 & He0 & ->)%fmap_Some. symmetry. exact (Ht _ _ He0). }
  revert Hex. generalize ((fun e => refresh_entry e current) <$> tasks !! task_journal_key (tr_identity r)).
  intros existing Hex. split; simpl.
  - destruct (_ || _); [|by apply filed_delete]. apply filed_insert; [|by apply filed_delete].
    destruct existing as [e|]; [|done]. exact (eq_sym (Hex e eq_refl)).
  - intros i m e [[<- <-]|[_ Hl]]%lookup_insert_Some; simpl; [apply Hex|by apply Hp].
Qed.

Lemma stays_prepare_tasks observed tasks l :
  filed task_key tasks ->
  stays (W := W) keyed prepared_filed (lift (res_foldM (prepare_task observed) (tasks, ∅) l)).
Proof.
  intros Ht. apply stays_lift. intros acc. apply res_foldM_inv.
  - split; [done|]. intros i m e Hl. cbv [snd] in Hl. by apply lookup_empty_Some in Hl.
  - intros s r s' _. apply prepare_task_filed.
Qed.

Lemma keyed_undo_tasks j prepared :
  keyed j -> (forall i m e, prepared !! i = Some m -> pt_rollback_entry m = Some e ->
                task_key e = task_journal_key i) ->
  keyed (with_tasks j (foldl undo_task (j_tasks j) (entries prepared))).
Proof.
  intros Hj Hp. apply keyed_with_tasks; [|done].
  assert (Hin : forall kv, kv ∈ entries prepared -> prepared !! kv.1 = Some kv.2).
  { intros [i m] Hm. by apply elem_of_entries. }
  pose proof (ke_tasks j Hj) as Ht. revert Ht Hin. generalize (j_tasks j).
  induction (entries prepared) as [|[i m] l IH]; intros ts Ht Hin; simpl; [done|].
  apply IH; [|intros kv Hkv; apply Hin; by right]. unfold undo_task. simpl.
  destruct (pt_rollback_entry m) as [e|] eqn:He; [|by apply filed_delete].
  apply filed_insert; [|by apply filed_delete]. symmetry. apply (Hp i m); [|done].
  apply (Hin (i, m)). by left.
Qed.

Lemma stays_record_task i v : files (record_task i v).
Proof.
  unfold record_task. stays_tac. apply keyed_with_tasks; [|done].
  eapply filed_replace; eauto with keyed.
Qed.

Lemma stays_write_tasks prepared l x y : files (write_tasks prepared l x y).
Proof.
  pose proof stays_record_task. revert x y. induction l as [|m l IH]; intros; simpl; stays_tac.
Qed.

Lemma stays_observe_tasks l : files (for_fold observe_task (∅, ∅) l).
Proof. apply stays_for_fold; [done|]. intros. apply (stays_quiet _ no_paths), quiet_observe_task. Qed.
#[local] Hint Resolve stays_write_tasks stays_observe_tasks : stays.

Lemma stays_apply_tasks l : files (apply_tasks a l).
Proof.
  unfold apply_tasks. stays_step; [stays_tac|]. destruct l as [|r l]; [stays_tac|].
  stays_step; [stays_tac|]. stays_step; [stays_tac|]. destruct x1 as [seen observed].
  stays_step. stays_step; [stays_tac; by apply keyed_generation|].
  eapply (stays_bind _ prepared_filed); [apply stays_prepare_tasks; by apply ke_tasks|].
  intros [tasks prepared] [Ht Hp]. simpl in Ht, Hp.
  stays_tac; by auto using keyed_undo_tasks, keyed_with_tasks.
Qed.

(** *** Unit transactions *)

Definition units_filed (acc : gmap string UnitJournalEntry * prepared_units) : Prop :=
  filed ue_unit acc.1
  /\ forall u m e, acc.2 !! u = Some m -> pu_rollback_entry m = Some e -> ue_unit e = u.

Lemma prepare_unit_filed observed acc r acc' :
  units_filed acc -> prepare_unit observed acc r = Ok acc' -> units_filed acc'.
Proof.
  destruct acc as [units prepared]. intros [Ht Hp]. simpl in Ht, Hp. unfold prepare_unit.
  destruct (observed !! ur_unit r) as [[instance current]|]; [|done]. intros [= <-]. cbv zeta.
  assert (Hex : forall e, (e ← units !! ur_unit r;
      if bool_decide (ue_instance e = instance) then Some (refresh_unit e current) else None) = Some e ->
      ue_unit e = ur_unit r).
  { intros e (e0 & He0 & Hif)%bind_Some. case_bool_decide; [|done]. injection Hif as <-.
    symmetry. exact (Ht _ _ He0). }
  revert Hex. generalize (e ← units !! ur_unit r;
      if bool_decide (ue_instance e = instance) then Some (refresh_unit e current) else None).
  intros existing Hex. split; simpl.
  - destruct (_ || _); [|by apply filed_delete]. apply filed_insert; [|by apply filed_delete].
    destruct existing as [e|]; [|done]. exact (eq_sym (Hex e eq_refl)).
  - intros u m e [[<- <-]|[_ Hl]]%lookup_insert_Some; simpl; [apply Hex|by apply Hp].
Qed.

Lemma stays_prepare_units observed units l :
  filed ue_unit units ->
  stays (W := W) keyed units_filed (lift (res_foldM (prepare_unit observed) (units, ∅) l)).
Proof.
  intros Ht. apply stays_lift. intros acc. apply res_foldM_inv.
  - split; [done|]. intros u m e Hl. cbv [snd] in Hl. by apply lookup_empty_Some in Hl.
  - intros s r s' _. apply prepare_unit_filed.
Qed.

Lemma keyed_undo_units j prepared :
  keyed j -> (forall u m e, prepared !! u = Some m -> pu_rollback_entry m = Some e -> ue_unit e = u) ->
  keyed (with_units j (foldl undo_unit (j_units j) (entries prepared))).
Proof.
  intros Hj Hp. apply keyed_with_units; [|done].
  assert (Hin : forall kv, kv ∈ entries prepared -> prepared !! kv.1 = Some kv.2).
  { intros [u m] Hm. by apply elem_of_entries. }
  pose proof (ke_units j Hj) as Ht. revert Ht Hin. generalize (j_units j).
  induction (entries prepared) as [|[u m] l IH]; intros us Ht Hin; simpl; [done|].
  apply IH; [|intros kv Hkv; apply Hin; by right]. unfold undo_unit. simpl.
  destruct (pu_rollback_entry m) as [e|] eqn:He; [|by apply filed_delete].
  apply filed_insert; [|by apply filed_delete]. symmetry. apply (Hp u m); [|done].
  apply (Hin (u, m)). by left.
Qed.

Lemma stays_record_unit u v : files (record_unit u v).
Proof.
  unfold record_unit. stays_tac. apply keyed_with_units; [|done].
  eapply filed_replace; eauto with keyed.
Qed.

Lemma stays_write_units prepared l x y : files (write_units prepared l x y).
Proof.
  pose proof stays_record_unit. revert x y. induction l as [|m l IH]; intros; simpl; stays_tac.
Qed.

Lemma stays_observe_units l : files (for_fold observe_unit (∅, ∅) l).
Proof. apply stays_for_fold; [done|]. intros. apply (stays_quiet _ no_paths), quiet_observe_unit. Qed.
#[local] Hint Resolve stays_write_units stays_observe_units : stays.

Lemma stays_apply_units l : files (apply_units a l).
Proof.
  unfold apply_units. stays_step; [stays_tac|]. destruct l as [|r l]; [stays_tac|].
  stays_step; [stays_tac|]. stays_step; [stays_tac|]. destruct x1 as [seen observed].
  stays_step. stays_step; [stays_tac; by apply keyed_generation|].
  eapply (stays_bind _ units_filed); [apply stays_prepare_units; by apply ke_units|].
  intros [units prepared] [Ht Hp]. simpl in Ht, Hp.
  stays_tac; by auto using keyed_undo_units, keyed_with_units.
Qed.

(** *** Recovery *)

Lemma stays_recover_frequencies : files (recover_frequencies a).
Proof.
  pose proof (stays_restore_intent (W := W) a keyed (fun j H => H) keyed_below).
  unfold recover_frequencies. stays_step. eapply (stays_bind _ (fun _ => True)).
  - apply stays_for_fold; [done|]. intros. unfold recover_frequency_intent. stays_tac.
  - intros. stays_tac. apply stays_restore_write.
Qed.

Lemma stays_recover_scalars : files (recover_scalars_locked a).
Proof.
  pose proof (stays_plan_restoration (W := W) keyed (fun j H => H) keyed_below).
  unfold recover_scalars_locked. stays_step. destruct (bool_decide _); [stays_tac|].
  eapply (stays_bind _ (fun _ => True)); [|intros; stays_tac].
  apply stays_for_fold; [done|]. intros. unfold recover_scalar_intent, same_scalar_identity. stays_tac.
Qed.
#[local] Hint Resolve stays_recover_frequencies stays_recover_scalars : stays.

Lemma stays_recover_tasks : files (recover_tasks_locked a).
Proof. apply (stays_quiet _ no_paths), quiet_recover_tasks. Qed.
Lemma stays_recover_units : files (recover_units_locked a).
Proof. apply (stays_quiet _ no_paths), quiet_recover_units. Qed.
#[local] Hint Resolve stays_recover_tasks stays_recover_units : stays.

Lemma stays_degrade_on_error {A} (m : M W A) what : files m -> files (degrade_on_error m what).
Proof. intros. unfold degrade_on_error. stays_tac. Qed.

Lemma stays_recover_pending : files (recover_pending a).
Proof.
  pose proof @stays_degrade_on_error as Hd. unfold recover_pending, ensure_read_write.
  repeat first [apply Hd | stays_step]; done.
Qed.

Lemma stays_operation op : files (run_operation a op).
Proof.
  assert (Hk : forall j, keyed j -> keyed j) by done. pose proof keyed_below.
  destruct op; simpl; unfold discard; try (eapply (stays_bind _ (fun _ => True)); [|intros; by apply stays_ret]).
  - apply stays_apply_batch.
  - apply stays_apply_fast.
  - apply stays_apply_scalars.
  - apply stays_apply_tasks.
  - apply stays_apply_units.
  - by apply stays_restore_targets.
  - by apply stays_restore_scalars.
  - by apply stays_restore_tasks.
  - by apply stays_restore_units.
  - apply stays_recover_pending.
  - unfold mark_startup_recovery_failed. stays_tac.
Qed.

Lemma keyed_start w : keyed (journal (FrequencyActuator_new a w)).
Proof.
  unfold FrequencyActuator_new. destruct (store_load w) as [[e|[bytes|]] w']; simpl;
    try apply keyed_empty.
  destruct (decode_journal bytes) as [j|e|] eqn:Hj; simpl; try apply keyed_empty.
  destruct (journal_is_empty j); simpl; [apply keyed_empty|].
  by apply valid_keyed, (decode_journal_valid bytes).
Qed.

Lemma reachable_keyed w s : reachable a w s -> keyed (journal s).
Proof.
  induction 1 as [|s s' _ IH Hstep]; [apply keyed_start|].
  destruct Hstep as [op s r s1 Hop Hr|q s r s1 Hq Hr|s w'].
  - pose proof (stays_operation op s IH) as Hs. unfold wp in Hs. rewrite Hop in Hs. apply Hs.
  - pose proof (stays_quiet keyed _ _ _ (quiet_query a q) s IH) as Hs.
    unfold wp in Hs. rewrite Hq in Hs. apply Hs.
  - exact IH.
Qed.

(** [restore_all] of a reachable actuator, as a whole operation. *)
Lemma restore_all_gives_back w s r s' :
  reachable a w s -> restore_all a s = (r, s') ->
  (r = Ok tt -> journal_is_empty (journal s') = true)
  /\ (journal_is_empty (journal s) = true -> journal_is_empty (journal s') = true).
Proof.
  intros Hk%reachable_keyed Hr. split.
  - intros ->. pose proof (restore_all_empties a s Hk) as He. unfold wp in He. rewrite Hr in He.
    by apply (He tt).
  - intros Hempty. pose proof (stays_restore_all a (journal s) s (below_refl _ Hk)) as [Hs _].
    rewrite Hr in Hs. by eapply below_empty.
Qed.
End operations.
