(* ===== verification/DaemonTypes.v ===== *)
(** * Vocabulary of the daemon
    ([uperf-core/src/domain.rs], [uperf-api/src/contract.rs], [uperf-platform/src/lib.rs])

    What the daemon has applied so far, the texts of its errors and warnings
    (their parts, not their rendering), the observation ports it uses besides
    the actuator's, and the records it publishes about a decision. *)

From S2P Require Import Prelude Float64 Domain Text Scene Frequency ActuatorTypes.

(** ** Texts *)

Inductive part :=
| PText (s : string)
| PNum (z : Z)
| PNums (l : list Z)
| PActuator (e : ActuatorError)
| PPlatform (e : PlatformError)
| PPolicy (e : PolicyError)
| PMessage (m : message)
| PIds (l : list string)
| PWaiting (z : option Z).

Notation text := (list part).

(** The errors a text may carry are compared by their arguments. *)
#[global] Instance PlatformError_eq_dec : EqDecision PlatformError.
Proof. solve_decision. Defined.

Fixpoint ActuatorError_dec (a b : ActuatorError) {struct a} : {a = b} + {a <> b}
with msg_dec (a b : msg) {struct a} : {a = b} + {a <> b}.
Proof.
  - decide equality; first [exact (List.list_eq_dec msg_dec _ _) | apply decide, _].
  - decide equality; first [exact (ActuatorError_dec _ _) | apply decide, _].
Defined.
#[global] Instance ActuatorError_eq_dec : EqDecision ActuatorError := ActuatorError_dec.
#[global] Instance msg_eq_dec : EqDecision msg := msg_dec.

#[global] Instance ValidationIssue_eq_dec : EqDecision ValidationIssue.
Proof. solve_decision. Defined.

Fixpoint PolicyError_dec (a b : PolicyError) {struct a} : {a = b} + {a <> b}
with GovernorError_dec (a b : GovernorError) {struct a} : {a = b} + {a <> b}.
Proof.
  - decide equality; first [exact (GovernorError_dec _ _) | apply decide, _].
  - decide equality; first [exact (PolicyError_dec _ _) | apply decide, _].
Defined.
#[global] Instance PolicyError_eq_dec : EqDecision PolicyError := PolicyError_dec.
#[global] Instance GovernorError_eq_dec : EqDecision GovernorError := GovernorError_dec.

#[global] Instance part_eq_dec : EqDecision part.
Proof. solve_decision. Defined.

(** ** What has been applied *)

Record AppliedState := {
  ap_generation : Z;
  ap_frequencies : gmap string FrequencyLimits;
  ap_scalars : gmap string ScalarSettingValue;
  ap_tasks : gmap ProcessIdentity TaskPlan;
}.

(** ** Observation ports

    [RuntimePlatform] is [Clock], [ProcReader] and [OnlineCpuSource]; these are
    the methods the reconciler calls. *)
Class Environment (W : Type) := {
  monotonic_millis : W -> Z * W;
  env_list_threads : Z -> W -> (PlatformError + list Z) * W;
  env_process_identity : Z -> W -> (PlatformError + ProcessInfo) * W;
  env_online_cpus : W -> (PlatformError + CpuSet) * W;
}.

(** ** Published records *)

Record GovernorTargetStatus := {
  gt_target_id : string;
  gt_raw_load_basis_points : Z;
  gt_ema_load_basis_points : Z;
  gt_predicted_load_basis_points : Z;
  gt_selected_load_basis_points : Z;
  gt_effective_demand_basis_points : Z;
  gt_prediction_bypassed_ramp : bool;
  gt_estimated_power_mw : Z;
  gt_requested_floor_hz : Z;
  gt_selected_floor_hz : Z;
  gt_selected_cap_hz : Z;
  gt_opp_reason : string;
}.

Record GovernorDiagnosticsStatus := {
  gds_available : bool;
  gds_elapsed_ms : Z;
  gds_estimated_package_power_mw : Z;
  gds_slow_limit_power_mw : Z;
  gds_fast_limit_power_mw : Z;
  gds_effective_budget_mw : Z;
  gds_bucket_remaining_mj : Z;
  gds_bypassed_power_budget : bool;
  gds_shared_ramp_basis_points : Z;
  gds_targets : list GovernorTargetStatus;
}.

Record DecisionFrequency := { df_target_id : string; df_min_hz : Z; df_max_hz : Z }.
Record DecisionScalar := { ds_target_id : string; ds_value_json : string }.

Record DecisionTraceEntry := {
  dt_decision_id : Z;
  dt_reconcile_id : Z;
  dt_monotonic_ms : Z;
  dt_duration_us : Z;
  dt_generation : Z;
  dt_profile : string;
  dt_scene : string;
  dt_frequency_attempted : bool;
  dt_scheduler_attempted : bool;
  dt_desired_frequencies : list DecisionFrequency;
  dt_applied_frequencies : list DecisionFrequency;
  dt_success : bool;
  dt_error : text;
  dt_trigger_source : string;
  dt_trigger_monotonic_ms : Z;
  dt_verified_apply_latency_us : Z;
  dt_governor : GovernorDiagnosticsStatus;
  dt_desired_scalars : list DecisionScalar;
  dt_applied_scalars : list DecisionScalar;
}.

(** ** Input *)

(** [TouchContactId] and [InputEvent] of [uperf-platform] *)
Record TouchContactId := { tc_device : Z; tc_tracking_id : Z }.
#[global] Instance TouchContactId_eq_dec : EqDecision TouchContactId.
Proof. solve_decision. Defined.
#[global] Program Instance TouchContactId_countable : Countable TouchContactId :=
  inj_countable (fun c => (tc_device c, tc_tracking_id c))
    (fun p => Some {| tc_device := p.1; tc_tracking_id := p.2 |}) _.
Next Obligation. by intros []. Qed.

Inductive InputEvent :=
| TouchDown (contact : TouchContactId) (x y : f64)
| TouchUp (contact : TouchContactId) (x y : f64)
| InGesture (contact : TouchContactId) (distance : f64)
| Interaction (device : Z)
| Resync (device : option Z).

(** * CPU time counters ([CpuTimes] of [uperf-platform/src/lib.rs])

    Utilisation between two samples of the scheduler's tick counters. *)

Record CpuTimes := {
  ct_user : Z;
  ct_nice : Z;
  ct_system : Z;
  ct_idle : Z;
  ct_io_wait : Z;
  ct_irq : Z;
  ct_soft_irq : Z;
  ct_steal : Z;
}.

Record CpuTimeSnapshot := {
  observed_at : MonotonicMillis;
  aggregate : CpuTimes;
  snapshot_cpus : gmap CpuId CpuTimes;
}.

(** [u64::checked_sub], [u64::checked_add] *)
Definition checked_sub (a b : Z) : option Z := if a <? b then None else Some (a - b).
Definition checked_add (a b : Z) : option Z := if u64_max <? a + b then None else Some (a + b).

(** The counters in the order of the [deltas] array. *)
Definition counters (t : CpuTimes) : list Z :=
  [ct_user t; ct_nice t; ct_system t; ct_idle t; ct_io_wait t; ct_irq t; ct_soft_irq t; ct_steal t].

Fixpoint checked_sum (acc : Z) (l : list Z) : option Z :=
  match l with
  | [] => Some acc
  | x :: l => acc ← checked_add acc x; checked_sum acc l
  end.

Definition deltas (current previous : CpuTimes) : option (list Z) :=
  mapM (fun p => checked_sub p.1 p.2) (zip (counters current) (counters previous)).

Definition utilization_since (current previous : CpuTimes) : option f64 :=
  d ← deltas current previous;
  total ← checked_sum 0 d;
  idle ← checked_add (nth 3 d 0) (nth 4 d 0);
  if (total =? 0) || (total <? idle) then None
  else Some (f64_div (f64_of_Z (total - idle)) (f64_of_Z total)).
