(* ===== verification/Touch.v ===== *)
(** * Touch and activity of one input device ([uperf-linux/src/input.rs])

    The state machines that turn the raw events of one evdev device into
    interaction events: the type-B multitouch machine, which commits contacts at
    each report, and the coalescing of keys and pointer motion. [f64::hypot] is
    a parameter; an [Instant] and a [Duration] are numbers of nanoseconds. *)

From coqutil Require Import Datatypes.RecordSetters.
From S2P Require Import Prelude Float64 Domain ConfigTypes DaemonTypes.
Export RecordSetters.TriangleBracketNotations.

(** ** Axes and thresholds *)

Record AxisRange := { ar_minimum : Z; ar_maximum : Z }.

Record TouchAxes := { axes_x : AxisRange; axes_y : AxisRange; axes_slots : AxisRange }.

Record GestureConfig := { ge_swipe_distance : f64; ge_edge_width : f64 }.

Inductive TouchConfigurationError :=
| InvalidAxisRange (minimum maximum : Z)
| InvalidSwipeDistance (d : f64)
| InvalidEdgeWidth (w : f64).

Definition AxisRange_new (minimum maximum : Z) : res AxisRange TouchConfigurationError :=
  if maximum <? minimum then Err (InvalidAxisRange minimum maximum)
  else Ok {| ar_minimum := minimum; ar_maximum := maximum |}.

Definition axis_contains (a : AxisRange) (value : Z) : bool :=
  (ar_minimum a <=? value) && (value <=? ar_maximum a).

(** [AxisRange::normalize]; the bounds of [clamp] are ordered. *)
Definition normalize (a : AxisRange) (value : Z) : f64 :=
  if ar_maximum a =? ar_minimum a then f64_zero
  else
    let numerator := f64_sub (f64_of_Z value) (f64_of_Z (ar_minimum a)) in
    let denominator := f64_sub (f64_of_Z (ar_maximum a)) (f64_of_Z (ar_minimum a)) in
    f64_clamp (f64_div numerator denominator) f64_zero f64_one.

Definition GestureConfig_new (swipe_distance edge_width : f64)
  : res GestureConfig TouchConfigurationError :=
  if negb (f64_is_finite swipe_distance && f64_lt f64_zero swipe_distance
           && f64_le swipe_distance f64_one)
  then Err (InvalidSwipeDistance swipe_distance)
  else if negb (f64_is_finite edge_width)
          || negb (f64_le f64_zero edge_width && f64_le edge_width (f64_lit 1 2))
  then Err (InvalidEdgeWidth edge_width)
  else Ok {| ge_swipe_distance := swipe_distance; ge_edge_width := edge_width |}.

Definition from_input_config (config : InputConfig) : res GestureConfig TouchConfigurationError :=
  GestureConfig_new (in_swipe_distance config) (in_edge_width config).

Definition GestureConfig_default : GestureConfig :=
  {| ge_swipe_distance := f64_lit 3 100; ge_edge_width := f64_lit 3 100 |}.

(** ** Raw events *)

Inductive RawTouchEvent :=
| Slot (slot : Z)
| TrackingId (id : Z)
| PositionX (value : Z)
| PositionY (value : Z)
| SyncReport
| SyncDropped.

(** The codes the source names, and the others. *)
Inductive KeyCode :=
| KEY_POWER | KEY_POWER2 | KEY_SLEEP | KEY_WAKEUP | KEY_SUSPEND | KEY_RESTART | KEY_COFFEE
| KEY_DISPLAY_OFF | KEY_SCREENSAVER | KEY_OTHER (code : Z).

Inductive RelativeAxisCode :=
| REL_X | REL_Y | REL_WHEEL | REL_HWHEEL | REL_WHEEL_HI_RES | REL_HWHEEL_HI_RES
| REL_OTHER (code : Z).

Inductive RawInteractionEvent :=
| RiKey (code : KeyCode) (value : Z)
| RiRelative (axis : RelativeAxisCode) (value : Z)
| RiSyncReport
| RiSyncDropped.

Definition is_interaction_key (code : KeyCode) : bool :=
  match code with KEY_OTHER _ => true | _ => false end.

Definition is_interaction_relative_axis (axis : RelativeAxisCode) : bool :=
  match axis with REL_OTHER _ => false | _ => true end.

(** ** Keys and pointer motion *)

Record InteractionStateMachine := {
  im_device_id : Z;
  im_pending : bool;
  im_last_emitted : option Z;
  im_coalesce_interval : Z;
}.

Definition InteractionStateMachine_new (device_id coalesce_interval : Z) : InteractionStateMachine :=
  {| im_device_id := device_id; im_pending := false; im_last_emitted := None;
     im_coalesce_interval := coalesce_interval |}.

(** [Instant::saturating_duration_since] *)
Definition since (now earlier : Z) : Z := Z.max (now - earlier) 0.

Definition interaction_handle (m : InteractionStateMachine) (event : RawInteractionEvent) (now : Z)
  : option InputEvent * InteractionStateMachine :=
  match event with
  | RiKey code value =>
      if (value =? 1) && is_interaction_key code then (None, m <|im_pending := true|>) else (None, m)
  | RiRelative axis value =>
      if negb (value =? 0) && is_interaction_relative_axis axis
      then (None, m <|im_pending := true|>) else (None, m)
  | RiSyncDropped => (None, m <|im_pending := false|>)
  | RiSyncReport =>
      let had_activity := im_pending m in
      let m := m <|im_pending := false|> in
      if negb had_activity
         || is_some_and (im_last_emitted m) (fun last => since now last <? im_coalesce_interval m)
      then (None, m)
      else (Some (Interaction (im_device_id m)), m <|im_last_emitted := Some now|>)
  end.

(** ** Contacts *)

Record Point := { pt_x : f64; pt_y : f64 }.

Record Contact := {
  co_tracking_id : Z;
  co_raw_x : option Z;
  co_raw_y : option Z;
  co_start : option Point;
  co_last : option Point;
  co_maximum_distance : f64;
  co_maximum_edge_inward : f64;
  co_down_emitted : bool;
}.

Definition Contact_new (tracking_id : Z) : Contact :=
  {| co_tracking_id := tracking_id; co_raw_x := None; co_raw_y := None; co_start := None;
     co_last := None; co_maximum_distance := f64_zero; co_maximum_edge_inward := f64_zero;
     co_down_emitted := false |}.

(** How far [current] has moved inwards from the edges [start] lies on. *)
Definition edge_inward_distance (start current : Point) (edge_width : f64) : f64 :=
  if f64_le edge_width f64_zero then f64_zero
  else
    let far := f64_sub f64_one edge_width in
    let m := f64_zero in
    let m := if f64_le (pt_x start) edge_width
             then f64_max m (f64_sub (pt_x current) (pt_x start)) else m in
    let m := if f64_ge (pt_x start) far
             then f64_max m (f64_sub (pt_x start) (pt_x current)) else m in
    let m := if f64_le (pt_y start) edge_width
             then f64_max m (f64_sub (pt_y current) (pt_y start)) else m in
    let m := if f64_ge (pt_y start) far
             then f64_max m (f64_sub (pt_y start) (pt_y current)) else m in
    f64_max m f64_zero.

Definition is_gesture (config : GestureConfig) (c : Contact) : bool :=
  if f64_ge (co_maximum_distance c) (ge_swipe_distance config) then true
  else if f64_le (ge_edge_width config) f64_zero then false
  else
    let edge_threshold := f64_min (ge_swipe_distance config) (ge_edge_width config) in
    f64_ge (co_maximum_edge_inward c) edge_threshold.

(** ** The touch machine *)

Record SlotState := { sl_active : option Contact }.
Definition SlotState_default : SlotState := {| sl_active := None |}.

Record TouchStateMachine := {
  tm_device_id : Z;
  tm_axes : TouchAxes;
  tm_config : GestureConfig;
  tm_current_slot : option Z;
  tm_slots : gmap Z SlotState;
  tm_pending_releases : list Contact;
  tm_desynchronized : bool;
}.

Definition TouchStateMachine_new (device_id : Z) (axes : TouchAxes) (config : GestureConfig)
  : TouchStateMachine :=
  {| tm_device_id := device_id; tm_axes := axes; tm_config := config;
     tm_current_slot := Some (ar_minimum (axes_slots axes)); tm_slots := ∅;
     tm_pending_releases := []; tm_desynchronized := false |}.

(** [TouchStateMachine::active_contacts] *)
Definition active_contacts (m : TouchStateMachine) : nat :=
  length (List.filter (fun s => if sl_active s then true else false) (values (tm_slots m))).

Definition contact_id (device_id : Z) (c : Contact) : TouchContactId :=
  {| tc_device := device_id; tc_tracking_id := co_tracking_id c |}.

(** [u32::try_from] of an [i32] *)
Definition tracking_of (id : Z) : option Z := if id <? 0 then None else Some id.

Section touch.
Context (hypot : f64 -> f64 -> f64).

Definition distance (p q : Point) : f64 :=
  hypot (f64_sub (pt_x p) (pt_x q)) (f64_sub (pt_y p) (pt_y q)).

Definition refresh_point (axes : TouchAxes) (edge_width : f64) (c : Contact) : Contact :=
  match co_raw_x c, co_raw_y c with
  | Some raw_x, Some raw_y =>
      let point := {| pt_x := normalize (axes_x axes) raw_x; pt_y := normalize (axes_y axes) raw_y |} in
      let start := unwrap_or (co_start c) point in
      c <|co_start := Some start|>
        <|co_last := Some point|>
        <|co_maximum_distance ::= (fun d => f64_max d (distance start point))|>
        <|co_maximum_edge_inward ::=
            (fun d => f64_max d (edge_inward_distance start point edge_width))|>
  | _, _ => c
  end.

Definition touch_down (device_id : Z) (c : Contact) (p : Point) : InputEvent :=
  TouchDown (contact_id device_id c) (pt_x p) (pt_y p).

(** What ends a contact. *)
Definition append_finished_contact (device_id : Z) (config : GestureConfig) (c : Contact)
  : list InputEvent :=
  match co_last c with
  | None => []
  | Some point =>
      (if co_down_emitted c then [] else [touch_down device_id c point])
      ++ [TouchUp (contact_id device_id c) (pt_x point) (pt_y point)]
      ++ (if is_gesture config c then [InGesture (contact_id device_id c) (co_maximum_distance c)]
          else [])
  end.

Definition refreshed (m : TouchStateMachine) (c : Contact) : Contact :=
  refresh_point (tm_axes m) (ge_edge_width (tm_config m)) c.

(** The loop of [commit_frame] over the slots. *)
Definition commit_slot (m : TouchStateMachine) (s : SlotState) : list InputEvent * SlotState :=
  match sl_active s with
  | None => ([], s)
  | Some c =>
      let c := refreshed m c in
      match co_last c with
      | Some point =>
          if co_down_emitted c then ([], {| sl_active := Some c |})
          else ([touch_down (tm_device_id m) c point],
                {| sl_active := Some (c <|co_down_emitted := true|>) |})
      | None => ([], {| sl_active := Some c |})
      end
  end.

Definition commit_frame (m : TouchStateMachine) : list InputEvent * TouchStateMachine :=
  let ended :=
    flat_map (fun c => append_finished_contact (tm_device_id m) (tm_config m) (refreshed m c))
      (tm_pending_releases m) in
  let started := flat_map (fun s => (commit_slot m s).1) (values (tm_slots m)) in
  (ended ++ started,
   m <|tm_pending_releases := []|> <|tm_slots ::= (fun slots => (fun s => (commit_slot m s).2) <$> slots)|>).

Definition reset_after_drop (m : TouchStateMachine) : TouchStateMachine :=
  m <|tm_slots := ∅|> <|tm_pending_releases := []|>
    <|tm_current_slot := Some (ar_minimum (axes_slots (tm_axes m)))|>
    <|tm_desynchronized := true|>.

Definition set_slot (slot_id : Z) (s : SlotState) (m : TouchStateMachine) : TouchStateMachine :=
  m <|tm_slots ::= <[slot_id := s]>|>.

Definition push_release (c : Contact) (m : TouchStateMachine) : TouchStateMachine :=
  m <|tm_pending_releases ::= (fun l => l ++ [c])|>.

(** A contact that leaves its slot is released at the next report. *)
Definition handle_tracking_id (tracking_id : Z) (m : TouchStateMachine) : TouchStateMachine :=
  match tm_current_slot m with
  | None => m
  | Some slot_id =>
      let slot := unwrap_or (tm_slots m !! slot_id) SlotState_default in
      if tracking_id =? -1 then
        let m := set_slot slot_id {| sl_active := None |} m in
        match sl_active slot with Some c => push_release c m | None => m end
      else
        match tracking_of tracking_id with
        | None => set_slot slot_id slot m
        | Some tracking_id =>
            if is_some_and (sl_active slot) (fun c => co_tracking_id c =? tracking_id)
            then set_slot slot_id slot m
            else
              let m := set_slot slot_id {| sl_active := Some (Contact_new tracking_id) |} m in
              match sl_active slot with Some c => push_release c m | None => m end
        end
  end.

Definition update_position (x y : option Z) (m : TouchStateMachine) : TouchStateMachine :=
  match tm_current_slot m with
  | None => m
  | Some slot_id =>
      match tm_slots m !! slot_id ≫= sl_active with
      | None => m
      | Some c =>
          let c := match x with Some _ => c <|co_raw_x := x|> | None => c end in
          let c := match y with Some _ => c <|co_raw_y := y|> | None => c end in
          set_slot slot_id {| sl_active := Some (refreshed m c) |} m
      end
  end.

Definition touch_handle (m : TouchStateMachine) (event : RawTouchEvent)
  : list InputEvent * TouchStateMachine :=
  match event with
  | SyncDropped => ([Resync (Some (tm_device_id m))], reset_after_drop m)
  | _ =>
      if tm_desynchronized m then
        ([], match event with SyncReport => m <|tm_desynchronized := false|> | _ => m end)
      else
        match event with
        | Slot slot =>
            ([], m <|tm_current_slot := if axis_contains (axes_slots (tm_axes m)) slot
                                        then Some slot else None|>)
        | TrackingId tracking_id => ([], handle_tracking_id tracking_id m)
        | PositionX value => ([], update_position (Some value) None m)
        | PositionY value => ([], update_position None (Some value) m)
        | SyncReport => commit_frame m
        | SyncDropped => ([], m)
        end
  end.

(** From the snapshot of a device with a single slot. *)
Definition rebuild_single_slot (tracking_id raw_x raw_y : Z) (m : TouchStateMachine)
  : list InputEvent * TouchStateMachine :=
  let first := ar_minimum (axes_slots (tm_axes m)) in
  let m := m <|tm_slots := ∅|> <|tm_pending_releases := []|> <|tm_current_slot := Some first|>
             <|tm_desynchronized := false|> in
  match tracking_of tracking_id with
  | None => ([], m)
  | Some tracking_id =>
      let c := (Contact_new tracking_id) <|co_raw_x := Some raw_x|> <|co_raw_y := Some raw_y|> in
      commit_frame (set_slot first {| sl_active := Some c |} m)
  end.
End touch.
