(* ===== verification/Evdev.v ===== *)
(** * The input source of the daemon ([uperf-linux/src/input.rs])

    [EvdevInputSource] opens the event nodes it finds, reads them without
    blocking, forgets the ones that disappear or fail, and waits for the next
    event. The nodes, the [evdev] crate and the clock are a class; an [Instant]
    past what the clock can represent panics, as [Instant + Duration] does. *)

From coqutil Require Import Datatypes.RecordSetters.
From S2P Require Import Prelude Float64 Domain Text Strings ConfigTypes ActuatorTypes DaemonTypes Touch.

(** ** The kernel's side *)

Inductive IoErrorKind := NotFound | PermissionDenied | WouldBlock | OtherError.
Record IoError := { io_kind : IoErrorKind; io_message : string }.
#[global] Instance IoErrorKind_eq_dec : EqDecision IoErrorKind.
Proof. solve_decision. Defined.

Record EventNodeIdentity := { en_device : Z; en_inode : Z }.
#[global] Instance EventNodeIdentity_eq_dec : EqDecision EventNodeIdentity.
Proof. solve_decision. Defined.

Inductive AbsoluteAxisCode :=
| ABS_MT_SLOT | ABS_MT_TRACKING_ID | ABS_MT_POSITION_X | ABS_MT_POSITION_Y | ABS_OTHER (code : Z).
#[global] Instance AbsoluteAxisCode_eq_dec : EqDecision AbsoluteAxisCode.
Proof. solve_decision. Defined.

Record AbsInfo := { ai_value : Z; ai_minimum : Z; ai_maximum : Z }.

Inductive SynchronizationCode := SYN_REPORT | SYN_DROPPED | SYN_OTHER (code : Z).

Inductive EventSummary :=
| EsAbsoluteAxis (axis : AbsoluteAxisCode) (value : Z)
| EsKey (code : KeyCode) (value : Z)
| EsRelativeAxis (axis : RelativeAxisCode) (value : Z)
| EsSynchronization (code : SynchronizationCode)
| EsOther.

(** A directory entry: its name when it is UTF-8, its path, its metadata. *)
Record DirEntry := {
  de_name : option string;
  de_path : string;
  de_metadata : IoError + EventNodeIdentity;
}.

Class Evdev (W : Type) := {
  RawDevice : Type;
  read_dir : string -> W -> (IoError + list (IoError + DirEntry)) * W;
  (** [OpenOptions::open] and [RawDevice::from_fd] *)
  open_raw : string -> W -> (IoError + RawDevice) * W;
  supported_absolute_axes : RawDevice -> option (list AbsoluteAxisCode);
  supported_keys : RawDevice -> option (list KeyCode);
  supported_relative_axes : RawDevice -> option (list RelativeAxisCode);
  get_absinfo : RawDevice -> W -> (IoError + list (AbsoluteAxisCode * AbsInfo)) * W;
  fetch_events : RawDevice -> W -> (IoError + list EventSummary) * W;
  evdev_now : W -> Z * W;
  evdev_sleep : Z -> W -> W;
  (** the cancellation flag, and the caller's condition *)
  cancelled : W -> bool * W;
  interrupted : W -> bool * W;
}.

(** ** Durations, in nanoseconds *)

Definition DEFAULT_POLL_INTERVAL : Z := 4000000.
Definition DEFAULT_SCAN_INTERVAL : Z := 500000000.
Definition MAX_IDLE_POLL_INTERVAL : Z := 32000000.
Definition MAX_DEVICE_RETRY_INTERVAL : Z := 30000000000.
Definition INTERACTION_COALESCE_INTERVAL : Z := 16000000.

(** [Duration::MAX], [Duration::saturating_mul]; the last [Instant]. *)
Definition DURATION_MAX : Z := 18446744073709551615999999999.
Definition duration_mul (d n : Z) : Z := Z.min (d * n) DURATION_MAX.
Definition INSTANT_MAX : Z := 9223372036854775807999999999.

Definition nonzero_duration (d : Z) : Z := if d =? 0 then 1000000 else d.

(** ** What a device supports *)

Definition ok {A E} (r : res A E) : option A := match r with Ok a => Some a | _ => None end.

(** The ranges of [touch_axes], filled in as the axes are listed. *)
Definition axis_range (acc : option AxisRange * option AxisRange * option AxisRange)
    (entry : AbsoluteAxisCode * AbsInfo) : option AxisRange * option AxisRange * option AxisRange :=
  let '(x, y, slots) := acc in
  let info := entry.2 in
  let range := ok (AxisRange_new (ai_minimum info) (ai_maximum info)) in
  let proper := ai_minimum info <? ai_maximum info in
  match entry.1 with
  | ABS_MT_POSITION_X => if proper then (range, y, slots) else acc
  | ABS_MT_POSITION_Y => if proper then (x, range, slots) else acc
  | ABS_MT_SLOT => (x, y, range)
  | _ => acc
  end.

Definition required_axes : list AbsoluteAxisCode :=
  [ABS_MT_SLOT; ABS_MT_TRACKING_ID; ABS_MT_POSITION_X; ABS_MT_POSITION_Y].

Inductive ObservedDeviceKind := ObservedTouch (axes : TouchAxes) | ObservedInteraction.

Definition observed_device_kind (touch : option TouchAxes) (supports_interaction : bool)
  : option ObservedDeviceKind :=
  match touch with
  | Some axes => Some (ObservedTouch axes)
  | None => if supports_interaction then Some ObservedInteraction else None
  end.

Definition map_touch_event (event : EventSummary) : option RawTouchEvent :=
  match event with
  | EsAbsoluteAxis ABS_MT_SLOT value => Some (Slot value)
  | EsAbsoluteAxis ABS_MT_TRACKING_ID value => Some (TrackingId value)
  | EsAbsoluteAxis ABS_MT_POSITION_X value => Some (PositionX value)
  | EsAbsoluteAxis ABS_MT_POSITION_Y value => Some (PositionY value)
  | EsSynchronization SYN_REPORT => Some SyncReport
  | EsSynchronization SYN_DROPPED => Some SyncDropped
  | _ => None
  end.

Definition map_interaction_event (event : EventSummary) : option RawInteractionEvent :=
  match event with
  | EsKey code value => Some (RiKey code value)
  | EsRelativeAxis axis value => Some (RiRelative axis value)
  | EsSynchronization SYN_REPORT => Some RiSyncReport
  | EsSynchronization SYN_DROPPED => Some RiSyncDropped
  | _ => None
  end.

(** The values of [single_slot_kernel_snapshot]. *)
Definition snapshot_value (acc : option Z * option Z * option Z) (entry : AbsoluteAxisCode * AbsInfo)
  : option Z * option Z * option Z :=
  let '(tracking_id, raw_x, raw_y) := acc in
  let value := Some (ai_value entry.2) in
  match entry.1 with
  | ABS_MT_TRACKING_ID => (value, raw_x, raw_y)
  | ABS_MT_POSITION_X => (tracking_id, value, raw_y)
  | ABS_MT_POSITION_Y => (tracking_id, raw_x, value)
  | _ => acc
  end.

(** [is_event_node]: [event] and decimal digits. *)
Definition is_event_node (name : option string) : bool :=
  is_some_and (name ≫= strip_prefix "event") (fun suffix =>
    negb (bool_decide (suffix = "")) && forallb is_ascii_digit (bytes suffix)).

Inductive InputDeviceMode :=
| ModeTouch (m : TouchStateMachine)
| ModeInteraction (m : InteractionStateMachine).

Record FailedEventNode := { fn_identity : EventNodeIdentity; fn_retry_at : Z; fn_next_delay : Z }.

(** ** The source *)

Section source.
Context {W : Type} `{!Evdev W}.
Context (hypot : f64 -> f64 -> f64).

Record OpenInputDevice := {
  od_device : RawDevice;
  od_device_id : Z;
  od_mode : InputDeviceMode;
}.

Record EvdevInputSource := {
  es_root : string;
  es_config : GestureConfig;
  es_devices : gmap string OpenInputDevice;
  es_device_identities : gmap string EventNodeIdentity;
  es_ignored_nodes : gmap string EventNodeIdentity;
  es_failed_nodes : gmap string FailedEventNode;
  es_pending : list InputEvent;
  es_device_errors : gmap string string;
  es_poll_interval : Z;
  es_scan_interval : Z;
  es_next_scan : Z;
  es_next_device_id : Z;
}.

Definition is_touch (d : OpenInputDevice) : bool :=
  match od_mode d with ModeTouch _ => true | ModeInteraction _ => false end.

(** [&mut self] over the world, with an error of type [E]. *)
Definition SM (E A : Type) : Type := EvdevInputSource * W -> res A E * (EvdevInputSource * W).

#[export] Instance SM_ret {E} : MRet (SM E) := fun _ a s => (Ok a, s).
#[export] Instance SM_bind {E} : MBind (SM E) := fun _ _ k m s =>
  match m s with
  | (Ok a, s') => k a s'
  | (Err e, s') => (Err e, s')
  | (Panic, s') => (Panic, s')
  end.

Definition sm_fail {E A} (e : E) : SM E A := fun s => (Err e, s).
Definition sm_panic {E A} : SM E A := fun s => (Panic, s).
Definition sm_get {E A} (f : EvdevInputSource -> A) : SM E A := fun s => (Ok (f s.1), s).
Definition sm_modify {E} (f : EvdevInputSource -> EvdevInputSource) : SM E unit :=
  fun s => (Ok tt, (f s.1, s.2)).
(** A call of the world, and one that can fail. *)
Definition sm_world {E A} (f : W -> A * W) : SM E A :=
  fun s => let '(a, w) := f s.2 in (Ok a, (s.1, w)).
Definition sm_call {E A} (f : W -> (E + A) * W) : SM E A :=
  fun s => let '(r, w) := f s.2 in (match r with inl e => Err e | inr a => Ok a end, (s.1, w)).
(** The outcome of a fallible computation, kept. *)
Definition sm_attempt {E F A} (m : SM E A) : SM F (E + A) := fun s =>
  match m s with
  | (Ok a, s') => (Ok (inr a), s')
  | (Err e, s') => (Ok (inl e), s')
  | (Panic, s') => (Panic, s')
  end.
Definition sm_when {E} (b : bool) (m : SM E unit) : SM E unit := if b then m else mret tt.
Fixpoint sm_each {E A} (f : A -> SM E unit) (l : list A) : SM E unit :=
  match l with
  | [] => mret tt
  | x :: l => f x;; sm_each f l
  end.

Definition instant_add {E} (t d : Z) : SM E Z :=
  if t + d <=? INSTANT_MAX then mret (t + d) else sm_panic.

(** *** Opening a device *)

Definition touch_axes (device : RawDevice) : SM IoError (option TouchAxes) :=
  match supported_absolute_axes device with
  | None => mret None
  | Some supported =>
      if negb (forallb (fun axis => bool_decide (axis ∈ supported)) required_axes) then mret None
      else
        info ← sm_call (get_absinfo device);
        let '(x, y, slots) := foldl axis_range (None, None, None) info in
        mret (x ← x; y ← y; slots ← slots;
              Some {| axes_x := x; axes_y := y; axes_slots := slots |})
  end.

Definition supports_interaction (device : RawDevice) : bool :=
  is_some_and (supported_keys device) (existsb is_interaction_key)
  || is_some_and (supported_relative_axes device) (existsb is_interaction_relative_axis).

Definition open_input_device (path : string) (device_id : Z) (config : GestureConfig)
  : SM IoError (option OpenInputDevice) :=
  device ← sm_call (open_raw path);
  axes ← touch_axes device;
  match observed_device_kind axes (supports_interaction device) with
  | None => mret None
  | Some kind =>
      let mode :=
        match kind with
        | ObservedTouch axes => ModeTouch (TouchStateMachine_new device_id axes config)
        | ObservedInteraction =>
            ModeInteraction (InteractionStateMachine_new device_id INTERACTION_COALESCE_INTERVAL)
        end in
      mret (Some {| od_device := device; od_device_id := device_id; od_mode := mode |})
  end.

(** *** Reading a device *)

Definition emit {E} (events : list InputEvent) : SM E unit :=
  sm_modify (fun s => s <|es_pending ::= (fun l => l ++ events)|>).

(** The device is read in place: its machine is stored after every event. *)
Definition set_mode {E} (path : string) (d : OpenInputDevice) (mode : InputDeviceMode) : SM E unit :=
  sm_modify (fun s => s <|es_devices ::= <[path := d <|od_mode := mode|>]>|>).

Definition single_slot_kernel_snapshot (device : RawDevice) (axes : TouchAxes)
  : SM IoError (option (Z * Z * Z)) :=
  if negb (ar_minimum (axes_slots axes) =? ar_maximum (axes_slots axes)) then mret None
  else
    info ← sm_call (get_absinfo device);
    match foldl snapshot_value (None, None, None) info with
    | (Some tracking_id, Some raw_x, Some raw_y) => mret (Some (tracking_id, raw_x, raw_y))
    | _ => sm_fail {| io_kind := OtherError;
                      io_message := "single-slot touch device omitted required absolute-axis state" |}
    end.

Definition read_touch_event (path : string) (d : OpenInputDevice) (m : TouchStateMachine)
    (event : RawTouchEvent) : SM IoError unit :=
  let was_desynchronized := tm_desynchronized m in
  let '(events, m) := touch_handle hypot m event in
  set_mode path d (ModeTouch m);;
  emit events;;
  if was_desynchronized
     && match event with SyncReport => true | _ => false end
     && negb (tm_desynchronized m)
  then
    snapshot ← single_slot_kernel_snapshot (od_device d) (tm_axes m);
    match snapshot with
    | Some (tracking_id, raw_x, raw_y) =>
        let '(events, m) := rebuild_single_slot hypot tracking_id raw_x raw_y m in
        set_mode path d (ModeTouch m);;
        emit events
    | None => mret tt
    end
  else mret tt.

Definition read_event (path : string) (event : EventSummary) : SM IoError unit :=
  device ← sm_get (fun s => es_devices s !! path);
  match device with
  | None => sm_panic
  | Some d =>
      match od_mode d with
      | ModeTouch m =>
          match map_touch_event event with
          | None => mret tt
          | Some event => read_touch_event path d m event
          end
      | ModeInteraction m =>
          match map_interaction_event event with
          | None => mret tt
          | Some event =>
              now ← sm_world evdev_now;
              let '(out, m) := interaction_handle m event now in
              set_mode path d (ModeInteraction m);;
              emit (option_list out)
          end
      end
  end.

Definition read_available (path : string) : SM IoError unit :=
  device ← sm_get (fun s => es_devices s !! path);
  match device with
  | None => sm_panic
  | Some d =>
      events ← sm_call (fetch_events (od_device d));
      sm_each (read_event path) events
  end.

(** *** Hotplug *)

(** [PlatformError::io] *)
Definition platform_io (operation path : string) (e : IoError) : PlatformError :=
  Io operation path (io_message e).

Fixpoint collect_event_nodes (root : string) (entries : list (IoError + DirEntry))
    (paths : gmap string EventNodeIdentity) : res (gmap string EventNodeIdentity) PlatformError :=
  match entries with
  | [] => Ok paths
  | inl e :: _ => Err (platform_io "read evdev input directory entry" root e)
  | inr entry :: entries =>
      if is_event_node (de_name entry) then
        match de_metadata entry with
        | inl e => Err (platform_io "stat evdev input node" (de_path entry) e)
        | inr identity => collect_event_nodes root entries (<[de_path entry := identity]> paths)
        end
      else collect_event_nodes root entries paths
  end.

Definition discover_event_nodes (root : string)
  : SM PlatformError (gmap string EventNodeIdentity) :=
  entries ← sm_world (read_dir root);
  match entries with
  | inl e =>
      if decide (io_kind e = NotFound) then mret ∅
      else sm_fail (platform_io "enumerate evdev input directory" root e)
  | inr entries => fun s => (collect_event_nodes root entries ∅, s)
  end.

(** A device leaves: its contacts are discarded downstream. *)
Definition drop_device {E} (path : string) : SM E unit :=
  device ← sm_get (fun s => es_devices s !! path);
  match device with
  | None => mret tt
  | Some d =>
      sm_modify (fun s => s <|es_devices ::= delete path|>);;
      sm_when (is_touch d) (emit [Resync (Some (od_device_id d))])
  end.

Definition forget_node {E} (path : string) : SM E unit :=
  drop_device path;;
  sm_modify (fun s => s <|es_device_identities ::= delete path|> <|es_ignored_nodes ::= delete path|>
                        <|es_failed_nodes ::= delete path|> <|es_device_errors ::= delete path|>).

(** The nodes of the source that are no longer there, in the order of their
    paths. *)
Definition removed_nodes (s : EvdevInputSource) (discovered : gmap string EventNodeIdentity)
  : list string :=
  keys (filter (fun kv => discovered !! kv.1 = None)
          (((fun _ => tt) <$> es_devices s) ∪ ((fun _ => tt) <$> es_ignored_nodes s)
           ∪ ((fun _ => tt) <$> es_failed_nodes s))).

Definition adopt_device (path : string) (identity : EventNodeIdentity)
    (device : option OpenInputDevice) : SM PlatformError unit :=
  match device with
  | Some device =>
      s ← sm_get (fun s => s);
      if u64_max <=? es_next_device_id s
      then sm_fail (InvalidData (es_root s) "input device identity space was exhausted")
      else
        sm_modify (fun s => s <|es_next_device_id ::= (fun n => n + 1)|>
                              <|es_devices ::= <[path := device]>|>
                              <|es_device_identities ::= <[path := identity]>|>
                              <|es_device_errors ::= delete path|>)
  | None =>
      sm_modify (fun s => s <|es_ignored_nodes ::= <[path := identity]>|>
                            <|es_device_errors ::= delete path|>)
  end.

Definition fail_node {E} (path : string) (identity : EventNodeIdentity) (message : string)
    (retry_at retry_delay : Z) : SM E unit :=
  sm_modify (fun s =>
    s <|es_device_errors ::= <[path := message]>|>
      <|es_failed_nodes ::= <[path :=
          {| fn_identity := identity; fn_retry_at := retry_at;
             fn_next_delay := Z.min (duration_mul retry_delay 2) MAX_DEVICE_RETRY_INTERVAL |}]>|>).

Definition same_node (identity : EventNodeIdentity) (f : FailedEventNode) : bool :=
  bool_decide (fn_identity f = identity).

(** A node to open, unless it failed recently. *)
Definition try_node (now : Z) (path : string) (identity : EventNodeIdentity) : SM PlatformError unit :=
  s ← sm_get (fun s => s);
  let previous_failure := es_failed_nodes s !! path in
  sm_modify (fun s => s <|es_failed_nodes ::= delete path|>);;
  if is_some_and previous_failure (fun f => same_node identity f && (now <? fn_retry_at f))
  then
    match previous_failure with
    | Some f => sm_modify (fun s => s <|es_failed_nodes ::= <[path := f]>|>)
    | None => sm_panic
    end
  else
    let retry_delay :=
      map_or (f ← previous_failure; if same_node identity f then Some f else None)
        (es_scan_interval s) fn_next_delay in
    opened ← sm_attempt (open_input_device path (es_next_device_id s) (es_config s));
    match opened with
    | inr device => adopt_device path identity device
    | inl error =>
        retry_at ← instant_add now retry_delay;
        fail_node path identity (io_message error) retry_at retry_delay
    end.

Definition refresh_node (now : Z) (node : string * EventNodeIdentity) : SM PlatformError unit :=
  let '(path, identity) := node in
  s ← sm_get (fun s => s);
  if bool_decide (es_device_identities s !! path = Some identity) then mret tt
  else
    (if bool_decide (is_Some (es_device_identities s !! path))
     then sm_modify (fun s => s <|es_device_identities ::= delete path|>);; drop_device path
     else mret tt);;
    s ← sm_get (fun s => s);
    if bool_decide (es_ignored_nodes s !! path = Some identity) then mret tt
    else
      sm_modify (fun s => s <|es_ignored_nodes ::= delete path|>);;
      try_node now path identity.

Definition refresh_devices : SM PlatformError unit :=
  root ← sm_get es_root;
  discovered ← discover_event_nodes root;
  s ← sm_get (fun s => s);
  sm_each forget_node (removed_nodes s discovered);;
  now ← sm_world evdev_now;
  sm_each (refresh_node now) (entries discovered);;
  next_scan ← instant_add now (es_scan_interval s);
  sm_modify (fun s => s <|es_next_scan := next_scan|>).

(** *** Polling *)

(** One device of [poll_devices]: whether it was lost. *)
Definition poll_device (path : string) : SM PlatformError bool :=
  result ← sm_attempt (read_available path);
  match result with
  | inr _ => sm_modify (fun s => s <|es_device_errors ::= delete path|>);; mret false
  | inl error =>
      if decide (io_kind error = WouldBlock) then mret false
      else
        sm_modify (fun s => s <|es_device_errors ::= <[path := io_message error]>|>);;
        mret true
  end.

Fixpoint poll_paths (paths : list string) : SM PlatformError (list string) :=
  match paths with
  | [] => mret []
  | path :: paths =>
      lost ← poll_device path;
      rest ← poll_paths paths;
      mret (if lost : bool then path :: rest else rest)
  end.

Definition disconnect (path : string) : SM PlatformError unit :=
  drop_device path;;
  s ← sm_get (fun s => s);
  match es_device_identities s !! path with
  | None => mret tt
  | Some identity =>
      sm_modify (fun s => s <|es_device_identities ::= delete path|>);;
      now ← sm_world evdev_now;
      retry_at ← instant_add now (es_scan_interval s);
      sm_modify (fun s =>
        s <|es_failed_nodes ::= <[path :=
              {| fn_identity := identity; fn_retry_at := retry_at;
                 fn_next_delay := Z.min (duration_mul (es_scan_interval s) 2)
                                    MAX_DEVICE_RETRY_INTERVAL |}]>|>)
  end.

Definition poll_devices : SM PlatformError bool :=
  before ← sm_get (fun s => s);
  disconnected ← poll_paths (keys (es_devices before));
  let had_disconnected := negb (bool_decide (disconnected = [])) in
  sm_when had_disconnected
    (sm_each disconnect disconnected;;
     now ← sm_world evdev_now;
     s ← sm_get (fun s => s);
     next_scan ← instant_add now (es_scan_interval s);
     sm_modify (fun s => s <|es_next_scan := next_scan|>));;
  after ← sm_get (fun s => s);
  mret (negb (length (es_pending after) =? length (es_pending before))%nat || had_disconnected).

Definition pop_pending : SM PlatformError (option InputEvent) :=
  pending ← sm_get es_pending;
  match pending with
  | [] => mret None
  | event :: rest => sm_modify (fun s => s <|es_pending := rest|>);; mret (Some event)
  end.

(** *** Waiting for an event *)

(** One pass of the loop: [inl] what it returns, [inr] the next idle interval. *)
Definition wait_pass (idle_poll_interval : Z) : SM PlatformError (option InputEvent + Z) :=
  c ← sm_world cancelled;
  stop ← (if c : bool then mret true else sm_world interrupted);
  if stop : bool then mret (inl None)
  else
    event ← pop_pending;
    match event with
    | Some event => mret (inl (Some event))
    | None =>
        now ← sm_world evdev_now;
        next_scan ← sm_get es_next_scan;
        scanned ← (if next_scan <=? now then refresh_devices;; pop_pending else mret None);
        match scanned with
        | Some event => mret (inl (Some event))
        | None =>
            active ← poll_devices;
            poll_interval ← sm_get es_poll_interval;
            let idle :=
              if active : bool then poll_interval
              else Z.min (duration_mul idle_poll_interval 2) MAX_IDLE_POLL_INTERVAL in
            event ← pop_pending;
            match event with
            | Some event => mret (inl (Some event))
            | None =>
                now ← sm_world evdev_now;
                s ← sm_get (fun s => s);
                let until_scan := since (es_next_scan s) now in
                let sleep_for :=
                  if bool_decide (es_devices s = ∅) then until_scan else Z.min idle until_scan in
                sm_world (fun w => (tt, evdev_sleep sleep_for w));;
                mret (inr idle)
            end
        end
    end.

(** [next_event_until_interrupt], up to [fuel] passes; [inr tt] is no answer
    yet. *)
Fixpoint wait_loop (fuel : nat) (idle_poll_interval : Z)
  : SM PlatformError (option InputEvent + unit) :=
  match fuel with
  | O => mret (inr tt)
  | S fuel =>
      r ← wait_pass idle_poll_interval;
      match r with
      | inl answer => mret (inl answer)
      | inr idle => wait_loop fuel idle
      end
  end.

Definition next_event_until_interrupt (fuel : nat) : SM PlatformError (option InputEvent + unit) :=
  poll_interval ← sm_get es_poll_interval;
  wait_loop fuel poll_interval.

(** *** Construction *)

Definition empty_source (root : string) (config : GestureConfig) (poll scan now : Z)
  : EvdevInputSource :=
  {| es_root := root; es_config := config; es_devices := ∅; es_device_identities := ∅;
     es_ignored_nodes := ∅; es_failed_nodes := ∅; es_pending := []; es_device_errors := ∅;
     es_poll_interval := nonzero_duration poll; es_scan_interval := nonzero_duration scan;
     es_next_scan := now; es_next_device_id := 1 |}.

Definition with_intervals (root : string) (config : GestureConfig) (poll scan : Z) (w : W)
  : res EvdevInputSource PlatformError * W :=
  let '(now, w) := evdev_now w in
  let '(r, (s, w)) := refresh_devices (empty_source root config poll scan now, w) in
  (match r with
   | Ok _ => Ok (s <|es_pending := []|>)
   | Err e => Err e
   | Panic => Panic
   end, w).

Definition open_source (root : string) (config : GestureConfig) : W -> res EvdevInputSource PlatformError * W :=
  with_intervals root config DEFAULT_POLL_INTERVAL DEFAULT_SCAN_INTERVAL.

Definition host_source (config : GestureConfig) : W -> res EvdevInputSource PlatformError * W :=
  open_source "/dev/input" config.
End source.
