(* ===== verification/LinuxScheduler.v ===== *)
(** * Task scheduling on Linux ([uperf-linux/src/scheduler.rs])

    [LinuxProcessController] writes the affinity, the nice value, the class and
    the clamps of a task as one transaction over the [SchedulingApi] trait, and
    [RealSchedulingApi] is that trait over system calls, procfs and the
    util-linux tools. The system calls, the files and the child processes are a
    class. Where a message renders a value with [Debug], the rendering is left
    out. *)

From coqutil Require Import Datatypes.RecordSetters.
From S2P Require Import Prelude Float64 Domain Text Strings ActuatorTypes DaemonTypes Touch Evdev.

Notation sched_result A := (sum PlatformError A) (only parsing).

(** [Display] of [PlatformError] *)
Definition show_error (e : PlatformError) : string :=
  match e with
  | Io operation path source => operation +:+ " failed for " +:+ path +:+ ": " +:+ source
  | InvalidData path message => "invalid data in " +:+ path +:+ ": " +:+ message
  | AccessDenied path reason => "access to " +:+ path +:+ " was denied: " +:+ reason
  | Unsupported capability => "unsupported platform capability: " +:+ capability
  | Disappeared resource => "resource disappeared while being observed: " +:+ resource
  end.

Definition PROC_ROOT : string := "/proc".
Definition ONLINE_CPUS : string := "/sys/devices/system/cpu/online".
Definition UCLAMP_MAX : Z := 1024.
Definition LINUX_RT_PRIORITY_MAX : Z := 99.
Definition TOOL_TIMEOUT : Z := 1000000000.
Definition TOOL_POLL_INTERVAL : Z := 5000000.

Notation "'ok' x ':=' c 'in' k" := (match c with inl e => inl e | inr x => k end)
  (at level 200, x pattern, only parsing).

Definition scheduling_path (proc_root : string) (process : Z) : string :=
  proc_root +:+ "/" +:+ to_string process +:+ "/sched".

Definition scheduler_stat_path (proc_root : string) (process : Z) : string :=
  proc_root +:+ "/" +:+ to_string process +:+ "/stat".

(** [Display] of [TryFromIntError], [Debug] of [SchedulingClass] *)
Definition TRY_FROM_INT : string := "out of range integral type conversion attempted".
Definition class_debug (c : SchedulingClass) : string :=
  match c with Other => "Other" | Batch => "Batch" | IdleClass => "Idle" | Fifo => "Fifo" end.

(** ** Checks *)

Definition raw_process_id (process : Z) : sched_result Z :=
  let path := scheduling_path PROC_ROOT process in
  if 2147483647 <? process
  then inl (InvalidData path ("PID " +:+ to_string process +:+ " is outside Linux pid_t range: " +:+ TRY_FROM_INT))
  else if process <=? 0
  then inl (InvalidData path "PID/TID zero is not accepted because it aliases the caller")
  else inr process.

Definition validate_process_id (process : Z) : sched_result unit :=
  ok _ := raw_process_id process in inr tt.

Definition rustix_pid (process : Z) : sched_result Z :=
  ok raw := raw_process_id process in
  if raw =? 0 then inl (InvalidData (scheduling_path PROC_ROOT process) "invalid zero PID") else inr raw.

Definition validate_policy_priority (path : string) (policy : SchedulingClass) (rt_priority : option Z)
  : sched_result unit :=
  match policy, rt_priority with
  | Fifo, Some priority =>
      if (1 <=? priority) && (priority <=? LINUX_RT_PRIORITY_MAX) then inr tt
      else inl (InvalidData path ("FIFO priority " +:+ to_string priority +:+ " is outside 1..=99"))
  | Fifo, None => inl (InvalidData path "SCHED_FIFO requires an explicit real-time priority")
  | _, Some priority =>
      inl (InvalidData path ("non-real-time policy cannot carry rt_priority " +:+ to_string priority))
  | _, None => inr tt
  end.

Definition validate_uclamp (minimum maximum : option Z) : sched_result unit :=
  let above v := is_some_and v (fun v => UCLAMP_MAX <? v) in
  if above minimum || above maximum
  then inl (InvalidData "/proc/<tid>/sched" "uclamp values must be within 0..=1024")
  else
    match minimum, maximum with
    | Some minimum, Some maximum =>
        if maximum <? minimum
        then inl (InvalidData "/proc/<tid>/sched"
                    ("uclamp minimum " +:+ to_string minimum +:+ " exceeds maximum " +:+ to_string maximum))
        else inr tt
    | _, _ => inr tt
    end.

(** ** Parsing *)

Definition scheduling_class_from_linux (path : string) (raw : Z) : sched_result SchedulingClass :=
  let base := Z.land raw (Z.lxor u32_max 0x40000000) in
  if base =? 0 then inr Other
  else if base =? 1 then inr Fifo
  else if base =? 3 then inr Batch
  else if base =? 5 then inr IdleClass
  else if (base =? 2) || (base =? 6) || (base =? 7)
  then inl (Unsupported "SCHED_RR, deadline, and sched_ext tasks are outside controlled scheduling classes")
  else inl (InvalidData path ("unknown Linux scheduler policy " +:+ to_string base)).

Definition parse_or (path what : string) (maximum : Z) (value : string) : sched_result Z :=
  match parse_unsigned maximum value with
  | Some z => inr z
  | None => inl (InvalidData path (what +:+ parse_error maximum value))
  end.

Definition parse_uclamp_value (path field value : string) : sched_result Z :=
  ok parsed := parse_or path ("invalid " +:+ field +:+ ": ") u16_max value in
  if UCLAMP_MAX <? parsed
  then inl (InvalidData path (field +:+ " " +:+ to_string parsed +:+ " exceeds 1024"))
  else inr parsed.

Record ParsedScheduler := {
  psc_policy : SchedulingClass;
  psc_uclamp_min : option Z;
  psc_uclamp_max : option Z;
}.

Record ParsedSchedulerStat := { pss_policy : SchedulingClass; pss_rt_priority : option Z }.

Definition colon : Ascii.ascii := Ascii.ascii_of_nat 58.

(** What the lines of the file have set so far. *)
Definition SchedulerFields : Type := option SchedulingClass * option Z * option Z.

Definition scheduler_line (path : string) (acc : SchedulerFields) (l : string)
  : sched_result SchedulerFields :=
  let '(policy, uclamp_min, uclamp_max) := acc in
  match split_once colon l with
  | None => inr acc
  | Some (key, value) =>
      let key := trim_str key in
      match split_whitespace value with
      | [] => inl (InvalidData path ("empty `" +:+ key +:+ "` field"))
      | value :: _ =>
          if bool_decide (key = "policy") then
            ok raw := parse_or path "invalid scheduler policy: " u32_max value in
            ok class := scheduling_class_from_linux path raw in
            inr (Some class, uclamp_min, uclamp_max)
          else if bool_decide (key = "uclamp.min") then
            ok v := parse_uclamp_value path "uclamp.min" value in inr (policy, Some v, uclamp_max)
          else if bool_decide (key = "uclamp.max") then
            ok v := parse_uclamp_value path "uclamp.max" value in inr (policy, uclamp_min, Some v)
          else inr acc
      end
  end.

Fixpoint scheduler_lines (path : string) (acc : SchedulerFields) (ls : list string)
  : sched_result SchedulerFields :=
  match ls with
  | [] => inr acc
  | l :: ls => ok acc := scheduler_line path acc l in scheduler_lines path acc ls
  end.

Definition parse_scheduler_file (path contents : string) : sched_result ParsedScheduler :=
  ok (policy, uclamp_min, uclamp_max) := scheduler_lines path (None, None, None) (lines contents) in
  match policy with
  | None => inl (InvalidData path "missing `policy` field")
  | Some policy =>
      ok _ := validate_uclamp uclamp_min uclamp_max in
      inr {| psc_policy := policy; psc_uclamp_min := uclamp_min; psc_uclamp_max := uclamp_max |}
  end.

(** What follows the last [") "] ([str::rfind]). *)
Fixpoint after_last_comm (l : list Ascii.ascii) : option (list Ascii.ascii) :=
  match l with
  | [] => None
  | c :: rest =>
      match after_last_comm rest with
      | Some tail => Some tail
      | None =>
          match rest with
          | d :: tail =>
              if bool_decide (c = Ascii.ascii_of_nat 41 /\ d = space) then Some tail else None
          | [] => None
          end
      end
  end.

Definition parse_scheduler_stat (path contents : string) : sched_result ParsedSchedulerStat :=
  match after_last_comm (bytes contents) with
  | None => inl (InvalidData path "missing closing process name in stat record")
  | Some tail =>
      let fields := split_whitespace (of_bytes tail) in
      match fields !! 37%nat with
      | None => inl (InvalidData path "stat record is missing rt_priority")
      | Some field =>
          ok raw_priority := parse_or path "invalid rt_priority: " u32_max field in
          match fields !! 38%nat with
          | None => inl (InvalidData path "stat record is missing policy")
          | Some field =>
              ok raw_policy := parse_or path "invalid policy: " u32_max field in
              ok policy := scheduling_class_from_linux path raw_policy in
              ok rt_priority :=
                match policy with
                | Fifo =>
                    if raw_priority <=? u8_max then inr (Some raw_priority)
                    else inl (InvalidData path ("FIFO priority " +:+ to_string raw_priority
                                                +:+ " cannot be represented: " +:+ TRY_FROM_INT))
                | _ =>
                    if negb (raw_priority =? 0)
                    then inl (InvalidData path ("non-real-time policy " +:+ class_debug policy
                                +:+ " reported rt_priority " +:+ to_string raw_priority))
                    else inr None
                end in
              ok _ := validate_policy_priority path policy rt_priority in
              inr {| pss_policy := policy; pss_rt_priority := rt_priority |}
          end
      end
  end.

(** ** CPU lists *)

Section cpu_lists.
(** [rustix::thread::CpuSet::MAX_CPU] *)
Context (MAX_CPU : Z).

Definition parse_cpu_id (path value : string) : sched_result Z :=
  parse_or path "invalid CPU ID: " u32_max (trim_str value).

Definition ensure_affinity_cpu (path : string) (cpu : Z) : sched_result unit :=
  if MAX_CPU <=? cpu
  then inl (InvalidData path ("CPU " +:+ to_string cpu +:+ " exceeds the Linux affinity ABI limit "
                              +:+ to_string (MAX_CPU - 1)))
  else inr tt.

Definition hyphen : Ascii.ascii := minus_sign.
Definition comma : Ascii.ascii := Ascii.ascii_of_nat 44.

Definition parse_cpu_item (path : string) (cpus : CpuSet) (item : string) : sched_result CpuSet :=
  let item := trim_str item in
  if bool_decide (item = "") then inl (InvalidData path "empty CPU-list element")
  else
    match split_once hyphen item with
    | Some (first, last) =>
        ok first := parse_cpu_id path first in
        ok last := parse_cpu_id path last in
        if last <? first
        then inl (InvalidData path ("reversed CPU range " +:+ to_string first +:+ "-" +:+ to_string last))
        else
          ok _ := ensure_affinity_cpu path last in
          inr (cpus ∪ list_to_set (seqZ first (last - first + 1)))
    | None =>
        ok cpu := parse_cpu_id path item in
        ok _ := ensure_affinity_cpu path cpu in
        inr (cpus ∪ {[ cpu ]})
    end.

Fixpoint parse_cpu_items (path : string) (cpus : CpuSet) (items : list string) : sched_result CpuSet :=
  match items with
  | [] => inr cpus
  | item :: items => ok cpus := parse_cpu_item path cpus item in parse_cpu_items path cpus items
  end.

Definition parse_cpu_list (path contents : string) : sched_result CpuSet :=
  ok cpus := parse_cpu_items path ∅ (split_on comma (trim_str contents)) in
  if CpuSet_is_empty cpus then inl (InvalidData path "CPU list is empty") else inr cpus.
End cpu_lists.

(** ** The trait, and the transaction over it *)

Inductive AppliedChange := ChAffinity | ChNice | ChPolicy | ChUclamp.
#[global] Instance AppliedChange_eq_dec : EqDecision AppliedChange.
Proof. solve_decision. Defined.

Class SchedulingApi (W : Type) := {
  api_read : Z -> W -> sched_result ProcessSchedulingState * W;
  api_set_affinity : Z -> CpuSet -> W -> sched_result unit * W;
  api_set_nice : Z -> Z -> W -> sched_result unit * W;
  api_set_policy : Z -> SchedulingClass -> option Z -> W -> sched_result unit * W;
  api_set_uclamp : Z -> Z -> Z -> W -> sched_result unit * W;
  (** [fs::read_to_string] of the online CPU list *)
  read_online_text : W -> (IoError + string) * W;
}.

Definition matches_desired (actual desired : ProcessSchedulingState) : bool :=
  bool_decide (st_affinity actual = st_affinity desired)
  && (st_nice actual =? st_nice desired)
  && bool_decide (st_policy actual = st_policy desired)
  && bool_decide (st_rt_priority actual = st_rt_priority desired)
  && is_none_or (st_uclamp_min desired) (fun m => bool_decide (st_uclamp_min actual = Some m))
  && is_none_or (st_uclamp_max desired) (fun m => bool_decide (st_uclamp_max actual = Some m)).

Section controller.
Context {W : Type} `{!SchedulingApi W}.
Context (MAX_CPU : Z) (online_path : string).

Definition read_online_cpus (w : W) : sched_result CpuSet * W :=
  let '(r, w) := read_online_text w in
  (match r with
   | inl e => inl (platform_io "read online CPUs" online_path e)
   | inr contents => parse_cpu_list MAX_CPU online_path contents
   end, w).

(** The ABI limit on every CPU of the request, in ascending order. *)
Definition affinity_limit (affinity : CpuSet) : sched_result unit :=
  match List.find (fun cpu => MAX_CPU <=? cpu) (CpuSet_iter affinity) with
  | Some cpu =>
      inl (InvalidData online_path ("CPU " +:+ to_string cpu +:+ " exceeds the affinity ABI limit "
                                    +:+ to_string (MAX_CPU - 1)))
  | None => inr tt
  end.

Definition is_some {A} (o : option A) : bool := if o then true else false.

Definition validate_desired (desired original : ProcessSchedulingState) (w : W) : sched_result unit * W :=
  if CpuSet_is_empty (st_affinity desired)
  then (inl (InvalidData online_path "CPU affinity must not be empty"), w)
  else
    let '(online, w) := read_online_cpus w in
    (ok online := online in
     if negb (CpuSet_is_subset (st_affinity desired) online)
     then inl (InvalidData online_path "requested affinity contains an offline or nonexistent CPU")
     else
       ok _ := affinity_limit (st_affinity desired) in
       if negb ((-20 <=? st_nice desired) && (st_nice desired <=? 19))
       then inl (InvalidData (scheduling_path PROC_ROOT 0)
                   ("nice value " +:+ to_string (st_nice desired) +:+ " is outside -20..=19"))
       else
         ok _ := validate_policy_priority "/proc/<tid>/sched" (st_policy desired) (st_rt_priority desired) in
         ok _ := validate_uclamp (st_uclamp_min desired) (st_uclamp_max desired) in
         if (is_some (st_uclamp_min desired) || is_some (st_uclamp_max desired))
            && negb (is_some (st_uclamp_min original) && is_some (st_uclamp_max original))
         then inl (Unsupported "kernel does not expose readable per-task uclamp state")
         else inr tt, w).

(** One step of [rollback]: a failure adds its text. *)
Definition undo (name : string) (call : W -> sched_result unit * W) (failures : list string) (w : W)
  : list string * W :=
  let '(r, w) := call w in
  (match r with inl e => failures ++ [name +:+ ": " +:+ show_error e] | inr _ => failures end, w).

Definition rollback (process : Z) (original : ProcessSchedulingState) (applied : list AppliedChange) (w : W)
  : list string * W :=
  let did change := bool_decide (change ∈ applied) in
  let '(failures, w) :=
    match did ChUclamp, st_uclamp_min original, st_uclamp_max original with
    | true, Some minimum, Some maximum => undo "uclamp" (api_set_uclamp process minimum maximum) [] w
    | _, _, _ => ([], w)
    end in
  let '(failures, w) :=
    if did ChPolicy
    then undo "policy" (api_set_policy process (st_policy original) (st_rt_priority original)) failures w
    else (failures, w) in
  let '(failures, w) :=
    if did ChNice then undo "nice" (api_set_nice process (st_nice original)) failures w else (failures, w) in
  if did ChAffinity
  then undo "affinity" (api_set_affinity process (st_affinity original)) failures w
  else (failures, w).

Definition rollback_failed (process : Z) (failure : PlatformError) (failures : list string) : PlatformError :=
  InvalidData (scheduling_path PROC_ROOT process)
    ("scheduling transaction failed (" +:+ show_error failure +:+ "); rollback also failed: "
     +:+ join "; " failures).

Definition fail_with_rollback (process : Z) (original : ProcessSchedulingState)
    (applied : list AppliedChange) (failure : PlatformError) (w : W) : PlatformError * W :=
  let '(failures, w) := rollback process original applied w in
  (match failures with [] => failure | _ => rollback_failed process failure failures end, w).

(** A change of the transaction that fails rolls back what was applied. *)
Definition apply_change (process : Z) (original : ProcessSchedulingState) (needed : bool)
    (change : AppliedChange) (call : W -> sched_result unit * W) (applied : list AppliedChange) (w : W)
  : (PlatformError + list AppliedChange) * W :=
  if negb needed then (inr applied, w)
  else
    let '(r, w) := call w in
    match r with
    | inr _ => (inr (applied ++ [change]), w)
    | inl error =>
        let '(e, w) := fail_with_rollback process original applied error w in (inl e, w)
    end.

(** [inl] stops with a failed result. *)
Definition and_then {A B} (r : (PlatformError + A) * W) (k : A -> W -> sched_result B * W) : sched_result B * W :=
  let '(r, w) := r in
  match r with inl e => (inl e, w) | inr a => k a w end.

Definition read_back (process : Z) (desired original : ProcessSchedulingState)
    (applied : list AppliedChange) (w : W) : sched_result ProcessSchedulingState * W :=
  let '(r, w) := api_read process w in
  match r with
  | inl error => let '(e, w) := fail_with_rollback process original applied error w in (inl e, w)
  | inr readback =>
      if matches_desired readback desired then (inr readback, w)
      else
        let failure := InvalidData (scheduling_path PROC_ROOT process)
                         "scheduler readback differs from request" in
        let '(e, w) := fail_with_rollback process original applied failure w in (inl e, w)
  end.

Definition read_scheduling_linux (process : Z) (w : W) : sched_result ProcessSchedulingState * W :=
  match validate_process_id process with
  | inl e => (inl e, w)
  | inr _ => api_read process w
  end.

Definition write_scheduling_linux (process : Z) (desired : ProcessSchedulingState) (w : W)
  : sched_result ProcessSchedulingState * W :=
  match validate_process_id process with
  | inl e => (inl e, w)
  | inr _ =>
      and_then (api_read process w) (fun original w =>
      and_then (validate_desired desired original w) (fun _ w =>
      and_then (apply_change process original
                  (negb (bool_decide (st_affinity desired = st_affinity original)))
                  ChAffinity (api_set_affinity process (st_affinity desired)) [] w) (fun applied w =>
      and_then (apply_change process original (negb (st_nice desired =? st_nice original))
                  ChNice (api_set_nice process (st_nice desired)) applied w) (fun applied w =>
      and_then (apply_change process original
                  (negb (bool_decide (st_policy desired = st_policy original))
                   || negb (bool_decide (st_rt_priority desired = st_rt_priority original)))
                  ChPolicy (api_set_policy process (st_policy desired) (st_rt_priority desired)) applied w)
        (fun applied w =>
      let minimum := or_else (st_uclamp_min desired) (st_uclamp_min original) in
      let maximum := or_else (st_uclamp_max desired) (st_uclamp_max original) in
      match minimum, maximum with
      | Some low, Some high =>
          and_then (apply_change process original
                      ((is_some (st_uclamp_min desired) || is_some (st_uclamp_max desired))
                       && (negb (bool_decide (minimum = st_uclamp_min original))
                           || negb (bool_decide (maximum = st_uclamp_max original))))
                      ChUclamp (api_set_uclamp process low high) applied w)
            (fun applied w => read_back process desired original applied w)
      | _, _ => read_back process desired original applied w
      end)))))
  end.
End controller.

(** ** The trait over the kernel *)

(** A child process: whether it has exited, and its output. *)
Record ToolOutput := { to_success : bool; to_status : string; to_stderr : list Ascii.ascii }.

Class SchedulerKernel (W : Type) := {
  (** the bits of the affinity mask *)
  sched_getaffinity : Z -> W -> (IoError + (Z -> bool)) * W;
  sched_setaffinity : Z -> CpuSet -> W -> (IoError + unit) * W;
  getpriority_process : Z -> W -> (IoError + Z) * W;
  setpriority_process : Z -> Z -> W -> (IoError + unit) * W;
  read_to_string : string -> W -> (IoError + string) * W;
  Child : Type;
  spawn : string -> list string -> W -> (IoError + Child) * W;
  try_wait : Child -> W -> (IoError + bool) * W;
  wait_with_output : Child -> W -> (IoError + ToolOutput) * W;
  kill_and_wait : Child -> W -> option IoError * W;
  tool_now : W -> Z * W;
  tool_sleep : Z -> W -> W;
}.

Section real.
Context {W : Type} `{!SchedulerKernel W}.
Context (MAX_CPU : Z) (proc_root : string) (chrt uclampset : option string).

Definition map_process_io (operation path : string) (e : IoError) : PlatformError :=
  if decide (io_kind e = NotFound) then Disappeared path else platform_io operation path e.

(** A system call whose failure is mapped. *)
Definition syscall {A} (operation path : string) (r : (IoError + A) * W) : sched_result A * W :=
  (match r.1 with inl e => inl (map_process_io operation path e) | inr a => inr a end, r.2).

Definition rustix_to_domain_cpuset (raw : Z -> bool) : CpuSet :=
  list_to_set (List.filter raw (seqZ 0 MAX_CPU)).

Definition domain_to_rustix_cpuset (affinity : CpuSet) : sched_result CpuSet :=
  match List.find (fun cpu => MAX_CPU <=? cpu) (CpuSet_iter affinity) with
  | Some cpu =>
      inl (InvalidData ONLINE_CPUS ("CPU " +:+ to_string cpu +:+ " exceeds affinity ABI limit "
                                    +:+ to_string (MAX_CPU - 1)))
  | None => inr affinity
  end.

Definition read_task (process : Z) (w : W) : sched_result ProcessSchedulingState * W :=
  let path := scheduling_path proc_root process in
  let stat_path := scheduler_stat_path proc_root process in
  and_then (rustix_pid process, w) (fun pid w =>
  and_then (syscall "read scheduler affinity" path (sched_getaffinity pid w)) (fun raw w =>
  and_then (syscall "read nice value" path (getpriority_process pid w)) (fun nice w =>
  if negb ((-128 <=? nice) && (nice <=? 127))
  then (inl (InvalidData path ("kernel returned unrepresentable nice value " +:+ to_string nice +:+ ": "
                               +:+ TRY_FROM_INT)), w)
  else
    and_then (syscall "read" path (read_to_string path w)) (fun contents w =>
    and_then (parse_scheduler_file path contents, w) (fun parsed w =>
    and_then (syscall "read" stat_path (read_to_string stat_path w)) (fun stat_contents w =>
    and_then (parse_scheduler_stat stat_path stat_contents, w) (fun stat w =>
    (if negb (bool_decide (psc_policy parsed = pss_policy stat))
     then inl (InvalidData stat_path
                 ("scheduler policy changed during read: sched reported " +:+ class_debug (psc_policy parsed)
                  +:+ ", stat reported " +:+ class_debug (pss_policy stat)))
     else
       inr {| st_affinity := rustix_to_domain_cpuset raw; st_nice := nice; st_policy := pss_policy stat;
              st_rt_priority := pss_rt_priority stat; st_uclamp_min := psc_uclamp_min parsed;
              st_uclamp_max := psc_uclamp_max parsed |}, w)))))))).

Definition set_affinity_real (process : Z) (affinity : CpuSet) (w : W) : sched_result unit * W :=
  and_then (rustix_pid process, w) (fun pid w =>
  and_then (domain_to_rustix_cpuset affinity, w) (fun raw w =>
  syscall "set scheduler affinity" (scheduling_path proc_root process) (sched_setaffinity pid raw w))).

Definition set_nice_real (process nice : Z) (w : W) : sched_result unit * W :=
  and_then (rustix_pid process, w) (fun pid w =>
  syscall "set nice value" (scheduling_path proc_root process) (setpriority_process pid nice w)).

Definition chrt_arguments (resource : string) (process : Z) (policy : SchedulingClass)
    (rt_priority : option Z) : sched_result (list string) :=
  ok _ := validate_policy_priority resource policy rt_priority in
  let '(flag, priority) :=
    match policy with
    | Other => ("--other", 0)
    | Batch => ("--batch", 0)
    | IdleClass => ("--idle", 0)
    | Fifo => ("--fifo", unwrap_or rt_priority 0)
    end in
  inr [flag; "--pid"; to_string priority; to_string process].

Definition uclampset_arguments (process minimum maximum : Z) : list string :=
  ["-m"; to_string minimum; "-M"; to_string maximum; "-p"; to_string process].

Definition deadline_error (tool resource : string) (kill_error : option IoError) : PlatformError :=
  let exceeded := tool +:+ " exceeded the 1s execution deadline" in
  InvalidData resource
    (match kill_error with
     | None => exceeded
     | Some e => exceeded +:+ " and could not be killed: " +:+ io_message e
     end).

(** [wait_with_deadline], up to [fuel] polls; [None] is still waiting. *)
Fixpoint wait_with_deadline (fuel : nat) (child : Child) (tool resource : string) (deadline : Z) (w : W)
  : option (sched_result ToolOutput) * W :=
  match fuel with
  | O => (None, w)
  | S fuel =>
      let '(r, w) := try_wait child w in
      match r with
      | inl e => (Some (inl (platform_io "poll util-linux scheduler tool" tool e)), w)
      | inr true =>
          let '(r, w) := wait_with_output child w in
          (Some (match r with
                 | inl e => inl (platform_io "collect util-linux scheduler tool" tool e)
                 | inr output => inr output
                 end), w)
      | inr false =>
          let '(now, w) := tool_now w in
          if now <? deadline
          then wait_with_deadline fuel child tool resource deadline (tool_sleep TOOL_POLL_INTERVAL w)
          else
            let '(kill_error, w) := kill_and_wait child w in
            (Some (inl (deadline_error tool resource kill_error)), w)
      end
  end.

Definition run_util_linux (fuel : nat) (tool : string) (arguments : list string) (resource : string) (w : W)
  : option (sched_result unit) * W :=
  let '(r, w) := spawn tool arguments w in
  match r with
  | inl e => (Some (inl (platform_io "execute util-linux scheduler tool" tool e)), w)
  | inr child =>
      let '(now, w) := tool_now w in
      let '(r, w) := wait_with_deadline fuel child tool resource (now + TOOL_TIMEOUT) w in
      ((fun r =>
          ok output := r in
          if to_success output then inr tt
          else inl (InvalidData resource
                 (tool +:+ " exited with " +:+ to_status output +:+ ": "
                  +:+ trim_str (from_utf8_lossy (to_stderr output))))) <$> r, w)
  end.

Definition set_policy_real (fuel : nat) (process : Z) (policy : SchedulingClass) (rt_priority : option Z)
    (w : W) : option (sched_result unit) * W :=
  match chrt with
  | None => (Some (inl (Unsupported "trusted /usr/bin/chrt is unavailable")), w)
  | Some tool =>
      let resource := scheduling_path proc_root process in
      match chrt_arguments resource process policy rt_priority with
      | inl e => (Some (inl e), w)
      | inr arguments => run_util_linux fuel tool arguments resource w
      end
  end.

Definition set_uclamp_real (fuel : nat) (process minimum maximum : Z) (w : W)
  : option (sched_result unit) * W :=
  match uclampset with
  | None => (Some (inl (Unsupported "trusted /usr/bin/uclampset is unavailable")), w)
  | Some tool =>
      run_util_linux fuel tool (uclampset_arguments process minimum maximum)
        (scheduling_path proc_root process) w
  end.
End real.

(** * A scheduling transaction is all or nothing

    Over a kernel whose setters set one field each, and leave the task alone
    when they fail, a write of [LinuxProcessController] ends with the task as
    requested or as it was, or reports that the rollback failed. The parsers of
    procfs are shown to read back what the kernel prints. *)

(** ** Kernels *)

Section transaction.
Context {W : Type} `{!SchedulingApi W}.

(** The scheduling state of each task, and what the calls do to it. *)
Record lawful (task : Z -> W -> option ProcessSchedulingState) : Prop := {
  law_read p w r w' : api_read p w = (r, w') ->
    task p w' = task p w /\ forall s, r = inr s -> task p w = Some s;
  law_online p w r w' : read_online_text w = (r, w') -> task p w' = task p w;
  law_affinity p a w r w' s : api_set_affinity p a w = (r, w') -> task p w = Some s ->
    task p w' = Some (match r with inr _ => s <|st_affinity := a|> | inl _ => s end);
  law_nice p n w r w' s : api_set_nice p n w = (r, w') -> task p w = Some s ->
    task p w' = Some (match r with inr _ => s <|st_nice := n|> | inl _ => s end);
  law_policy p c prio w r w' s : api_set_policy p c prio w = (r, w') -> task p w = Some s ->
    task p w' = Some (match r with
                      | inr _ => s <|st_policy := c|> <|st_rt_priority := prio|>
                      | inl _ => s
                      end);
  law_uclamp p low high w r w' s : api_set_uclamp p low high w = (r, w') -> task p w = Some s ->
    task p w' = Some (match r with
                      | inr _ => s <|st_uclamp_min := Some low|> <|st_uclamp_max := Some high|>
                      | inl _ => s
                      end);
}.

Context (task : Z -> W -> option ProcessSchedulingState) (Hlaw : lawful task).
Context (MAX_CPU : Z) (online_path : string) (p : Z).

(** [s] differs from [original] only in fields that [applied] lists. *)
Record differs (applied : list AppliedChange) (original s : ProcessSchedulingState) : Prop := {
  df_affinity : ChAffinity ∉ applied -> st_affinity s = st_affinity original;
  df_nice : ChNice ∉ applied -> st_nice s = st_nice original;
  df_policy : ChPolicy ∉ applied ->
    st_policy s = st_policy original /\ st_rt_priority s = st_rt_priority original;
  df_uclamp : ChUclamp ∉ applied ->
    st_uclamp_min s = st_uclamp_min original /\ st_uclamp_max s = st_uclamp_max original;
  df_clamped : ChUclamp ∈ applied ->
    is_Some (st_uclamp_min original) /\ is_Some (st_uclamp_max original);
}.

Lemma differs_refl s : differs [] s s.
Proof. constructor; try done. by intros ?%elem_of_nil. Qed.

Lemma state_eq (s t : ProcessSchedulingState) :
  st_affinity s = st_affinity t -> st_nice s = st_nice t -> st_policy s = st_policy t ->
  st_rt_priority s = st_rt_priority t -> st_uclamp_min s = st_uclamp_min t ->
  st_uclamp_max s = st_uclamp_max t -> s = t.
Proof. destruct s, t. simpl. congruence. Qed.

Lemma undo_nil name call failures w w' :
  undo (W := W) name call failures w = ([], w') ->
  failures = [] /\ call w = (inr tt, w').
Proof.
  unfold undo. destruct (call w) as [[e|[]] w1].
  - intros [= H _]. by destruct failures.
  - by intros [= -> ->].
Qed.

(** A step of the rollback that reports nothing puts its field back; a change
    that was not made leaves the task as it is. *)
Lemma undo_step (b : bool) name call failures w w' s (f : ProcessSchedulingState -> ProcessSchedulingState) :
  (if b then undo name call failures w else (failures, w)) = ([], w') ->
  task p w = Some s ->
  (forall w1, call w = (inr tt, w1) -> task p w1 = Some (f s)) ->
  failures = [] /\ task p w' = Some (if b then f s else s).
Proof.
  intros Hu Hs Hset. destruct b.
  - apply undo_nil in Hu as [-> Hc]. by split; [|apply Hset].
  - by injection Hu as -> <-.
Qed.

Lemma rollback_restores original applied w w' s :
  task p w = Some s -> differs applied original s ->
  rollback p original applied w = ([], w') -> task p w' = Some original.
Proof.
  intros Hs [Ha Hn Hp Hu Hc] Hr. unfold rollback in Hr.
  destruct (match bool_decide (ChUclamp ∈ applied) with true => _ | false => _ end) as [f1 w1] eqn:E1.
  destruct (if bool_decide (ChPolicy ∈ applied) then _ else _) as [f2 w2] eqn:E2.
  destruct (if bool_decide (ChNice ∈ applied) then _ else _) as [f3 w3] eqn:E3.
  assert (Hf : f3 = []) by (destruct (bool_decide (ChAffinity ∈ applied));
    [by apply undo_nil in Hr as [-> _]|by injection Hr]). subst f3.
  assert (Hf : f2 = []) by (destruct (bool_decide (ChNice ∈ applied));
    [by apply undo_nil in E3 as [-> _]|by injection E3]). subst f2.
  assert (Hf : f1 = []) by (destruct (bool_decide (ChPolicy ∈ applied));
    [by apply undo_nil in E2 as [-> _]|by injection E2]). subst f1.
  assert (H1 : task p w1 = Some (if bool_decide (ChUclamp ∈ applied)
    then s <|st_uclamp_min := st_uclamp_min original|> <|st_uclamp_max := st_uclamp_max original|>
    else s)).
  { destruct (bool_decide (ChUclamp ∈ applied)) eqn:B; [|by injection E1 as <-].
    apply bool_decide_eq_true in B. destruct (Hc B) as [[low Elow] [high Ehigh]].
    rewrite Elow, Ehigh in *. apply undo_nil in E1 as [_ Hcall].
    exact (law_uclamp _ Hlaw _ _ _ _ _ _ _ Hcall Hs). }
  eapply (undo_step _ _ _ _ _ _ _ (fun s => s <|st_policy := st_policy original|>
    <|st_rt_priority := st_rt_priority original|>)) in E2 as [_ H2];
    [|exact H1|intros ? Hcall; exact (law_policy _ Hlaw _ _ _ _ _ _ _ Hcall H1)].
  eapply (undo_step _ _ _ _ _ _ _ (fun s => s <|st_nice := st_nice original|>)) in E3 as [_ H3];
    [|exact H2|intros ? Hcall; exact (law_nice _ Hlaw _ _ _ _ _ _ Hcall H2)].
  eapply (undo_step _ _ _ _ _ _ _ (fun s => s <|st_affinity := st_affinity original|>)) in Hr as [_ H4];
    [|exact H3|intros ? Hcall; exact (law_affinity _ Hlaw _ _ _ _ _ _ Hcall H3)].
  rewrite H4. f_equal. clear -Ha Hn Hp Hu.
  repeat case_bool_decide; apply state_eq; simpl; (reflexivity || naive_solver).
Qed.

Lemma differs_set_affinity applied original s a :
  differs applied original s -> differs (applied ++ [ChAffinity]) original (s <|st_affinity := a|>).
Proof. intros []. constructor; simpl; rewrite ?elem_of_app, ?list_elem_of_singleton; naive_solver. Qed.

Lemma differs_set_nice applied original s n :
  differs applied original s -> differs (applied ++ [ChNice]) original (s <|st_nice := n|>).
Proof. intros []. constructor; simpl; rewrite ?elem_of_app, ?list_elem_of_singleton; naive_solver. Qed.

Lemma differs_set_policy applied original s c prio :
  differs applied original s ->
  differs (applied ++ [ChPolicy]) original (s <|st_policy := c|> <|st_rt_priority := prio|>).
Proof. intros []. constructor; simpl; rewrite ?elem_of_app, ?list_elem_of_singleton; naive_solver. Qed.

Lemma differs_set_uclamp applied original s low high :
  differs applied original s -> is_Some (st_uclamp_min original) -> is_Some (st_uclamp_max original) ->
  differs (applied ++ [ChUclamp]) original (s <|st_uclamp_min := low|> <|st_uclamp_max := high|>).
Proof. intros [] ??. constructor; simpl; rewrite ?elem_of_app, ?list_elem_of_singleton; naive_solver. Qed.

(** A failed write: the task is as it was, or the error says that it may not be. *)
Definition undone (before : option ProcessSchedulingState) (e : PlatformError) (w : W) : Prop :=
  task p w = before \/ exists failure failures, failures <> [] /\ e = rollback_failed p failure failures.

Lemma fail_with_rollback_restores original applied failure w e w' s :
  task p w = Some s -> differs applied original s ->
  fail_with_rollback p original applied failure w = (e, w') -> undone (Some original) e w'.
Proof.
  intros Hs Hd. unfold fail_with_rollback. destruct (rollback p original applied w) as [fs w1] eqn:E.
  destruct fs as [|f fs]; intros [= <- <-].
  - left. eauto using rollback_restores.
  - right. by exists failure, (f :: fs).
Qed.

Lemma apply_change_step original needed change call applied w r w' s f :
  apply_change p original needed change call applied w = (r, w') ->
  task p w = Some s -> differs applied original s ->
  (forall r w1, call w = (r, w1) -> task p w1 = Some (match r with inr _ => f s | inl _ => s end)) ->
  (needed = true -> differs (applied ++ [change]) original (f s)) ->
  match r with
  | inl e => undone (Some original) e w' /\ exists e1 w1, call w = (inl e1, w1)
  | inr applied' =>
      task p w' = Some (if needed then f s else s)
      /\ differs applied' original (if needed then f s else s)
  end.
Proof.
  intros Ha Hs Hd Hcall Hf. unfold apply_change in Ha. destruct needed; simpl in Ha.
  - destruct (call w) as [[e|[]] w1]; specialize (Hcall _ _ eq_refl) as Ec; simpl in Ec.
    + destruct (fail_with_rollback _ _ _ _ _) as [e' w2] eqn:Ef. injection Ha as <- <-.
      split; [|by exists e, w1]. eauto using fail_with_rollback_restores.
    + injection Ha as <- <-. eauto.
  - by injection Ha as <- <-.
Qed.

(** What the task has after a write that succeeds. *)
Definition overlay (desired original : ProcessSchedulingState) : ProcessSchedulingState :=
  desired <|st_uclamp_min := or_else (st_uclamp_min desired) (st_uclamp_min original)|>
          <|st_uclamp_max := or_else (st_uclamp_max desired) (st_uclamp_max original)|>.

(** The limits of a request. *)
Record acceptable (desired : ProcessSchedulingState) : Prop := {
  ac_affinity : st_affinity desired <> ∅;
  ac_abi : forall cpu, cpu ∈ st_affinity desired -> cpu < MAX_CPU;
  ac_nice : -20 <= st_nice desired <= 19;
  ac_priority : match st_policy desired with
                | Fifo => exists prio, st_rt_priority desired = Some prio /\ 1 <= prio <= 99
                | _ => st_rt_priority desired = None
                end;
  ac_uclamp_min : forall v, st_uclamp_min desired = Some v -> v <= 1024;
  ac_uclamp_max : forall v, st_uclamp_max desired = Some v -> v <= 1024;
  ac_uclamp : forall low high, st_uclamp_min desired = Some low -> st_uclamp_max desired = Some high ->
    low <= high;
}.

(** The kernel serves the request: the checks pass and no call refuses. *)
Record served (desired original : ProcessSchedulingState) : Prop := {
  sv_process : validate_process_id p = inr tt;
  sv_read w e w' : api_read p w <> (inl e, w');
  sv_valid w : task p w = Some original ->
    (validate_desired MAX_CPU online_path desired original w).1 = inr tt;
  sv_affinity w e w' : api_set_affinity p (st_affinity desired) w <> (inl e, w');
  sv_nice w e w' : api_set_nice p (st_nice desired) w <> (inl e, w');
  sv_policy w e w' : api_set_policy p (st_policy desired) (st_rt_priority desired) w <> (inl e, w');
  sv_uclamp low high w e w' : api_set_uclamp p low high w <> (inl e, w');
}.

Lemma validate_desired_task desired original w r w' :
  validate_desired MAX_CPU online_path desired original w = (r, w') -> task p w' = task p w.
Proof.
  unfold validate_desired, read_online_cpus. destruct (CpuSet_is_empty _); [by intros [= _ <-]|].
  destruct (read_online_text w) as [t w1] eqn:E. intros [= _ <-]. by apply (law_online _ Hlaw p) in E.
Qed.

Lemma validate_desired_acceptable desired original w w' :
  validate_desired MAX_CPU online_path desired original w = (inr tt, w') ->
  acceptable desired
  /\ (is_some (st_uclamp_min desired) || is_some (st_uclamp_max desired) = true ->
      is_Some (st_uclamp_min original) /\ is_Some (st_uclamp_max original)).
Proof.
  unfold validate_desired, CpuSet_is_empty. case_bool_decide as He; [done|].
  unfold read_online_cpus. destruct (read_online_text w) as [t w1] eqn:E.
  intros [= H _]. clear E.
  destruct t as [e|contents]; [done|].
  destruct (parse_cpu_list _ _ _) as [e|online]; [done|].
  destruct (CpuSet_is_subset _ _); simpl in H; [|done].
  unfold affinity_limit in H. destruct (List.find _ _) eqn:Ef; [done|].
  destruct ((-20 <=? st_nice desired) && (st_nice desired <=? 19)) eqn:En; simpl in H; [|done].
  destruct (validate_policy_priority _ _ _) eqn:Ep; [done|].
  destruct (validate_uclamp _ _) eqn:Eu; [done|].
  split.
  - constructor; try done.
    + intros cpu Hc. apply CpuSet_iter_elem, list_elem_of_In in Hc.
      pose proof (find_none _ _ Ef _ Hc). simpl in *. lia.
    + lia.
    + unfold validate_policy_priority, LINUX_RT_PRIORITY_MAX in Ep.
      destruct (st_policy desired), (st_rt_priority desired) as [prio|]; try done.
      destruct ((1 <=? prio) && (prio <=? 99)) eqn:Eb; [|done]. exists prio. split; [done|lia].
    + intros v Hv. unfold validate_uclamp, UCLAMP_MAX in Eu. rewrite Hv in Eu. simpl in Eu.
      destruct (1024 <? v) eqn:El; [done|lia].
    + intros v Hv. unfold validate_uclamp, UCLAMP_MAX in Eu. rewrite Hv, orb_comm in Eu. simpl in Eu.
      destruct (1024 <? v) eqn:El; [done|lia].
    + intros low high Hl Hh. unfold validate_uclamp in Eu. rewrite Hl, Hh in Eu.
      destruct (_ || _); [done|]. destruct (high <? low) eqn:El; [done|lia].
  - intros Hs. rewrite Hs in H. simpl in H.
    destruct (st_uclamp_min original), (st_uclamp_max original); eauto; done.
Qed.

(** The setters set what the readback compares. *)
Record requested (desired original s : ProcessSchedulingState) : Prop := {
  rq_affinity : st_affinity s = st_affinity desired;
  rq_nice : st_nice s = st_nice desired;
  rq_policy : st_policy s = st_policy desired;
  rq_priority : st_rt_priority s = st_rt_priority desired;
  rq_min : st_uclamp_min s = or_else (st_uclamp_min desired) (st_uclamp_min original);
  rq_max : st_uclamp_max s = or_else (st_uclamp_max desired) (st_uclamp_max original);
}.

Lemma requested_matches desired original s :
  requested desired original s -> matches_desired s desired = true /\ s = overlay desired original.
Proof.
  intros [Ea En Ep Er El Eh]. split; [|by apply state_eq].
  unfold matches_desired. rewrite Ea, En, Ep, Er, El, Eh, Z.eqb_refl, !bool_decide_true by done.
  by destruct (st_uclamp_min desired), (st_uclamp_max desired); simpl; rewrite ?bool_decide_true.
Qed.

(** The readback at the end: the task has the requested state, unless the read fails. *)
Lemma read_back_step desired original applied w s r w' :
  read_back p desired original applied w = (r, w') ->
  task p w = Some s -> differs applied original s -> requested desired original s ->
  match r with
  | inr readback => readback = overlay desired original /\ task p w' = Some readback
  | inl e => undone (Some original) e w' /\ ~ served desired original
  end.
Proof.
  intros Hr Hs Hd [Hm ->]%requested_matches. unfold read_back in Hr.
  destruct (api_read p w) as [x w1] eqn:E. destruct (law_read _ Hlaw _ _ _ _ E) as [Hw Hx].
  rewrite Hs in Hw, Hx. destruct x as [e|readback].
  - destruct (fail_with_rollback p original applied e w1) as [e' w2] eqn:Ef. injection Hr as <- <-.
    split; [by eapply fail_with_rollback_restores|]. intros Sv. by eapply sv_read.
  - pose proof (Hx _ eq_refl) as [= <-]. rewrite Hm in Hr. by injection Hr as <- <-.
Qed.

(** The last change, the clamps, and the readback. *)
Lemma clamps_step desired original a3 w5 s3 r w' :
  let minimum := or_else (st_uclamp_min desired) (st_uclamp_min original) in
  let maximum := or_else (st_uclamp_max desired) (st_uclamp_max original) in
  match minimum, maximum with
  | Some low, Some high =>
      and_then (apply_change p original
                  ((is_some (st_uclamp_min desired) || is_some (st_uclamp_max desired))
                   && (negb (bool_decide (minimum = st_uclamp_min original))
                       || negb (bool_decide (maximum = st_uclamp_max original))))
                  ChUclamp (api_set_uclamp p low high) a3 w5)
        (fun applied w => read_back p desired original applied w)
  | _, _ => read_back p desired original a3 w5
  end = (r, w') ->
  (is_some (st_uclamp_min desired) || is_some (st_uclamp_max desired) = true ->
   is_Some (st_uclamp_min original) /\ is_Some (st_uclamp_max original)) ->
  task p w5 = Some s3 -> differs a3 original s3 ->
  requested (desired <|st_uclamp_min := None|> <|st_uclamp_max := None|>) original s3 ->
  match r with
  | inr readback => readback = overlay desired original /\ task p w' = Some readback
  | inl e => undone (Some original) e w' /\ ~ served desired original
  end.
Proof.
  intros minimum maximum Hr Hclamps H3 D3 [Qa Qn Qp Qr Ql Qh]. simpl in *.
  set (needed := (_ || _) && _) in Hr.
  assert (Hkept : needed = false \/ minimum = None \/ maximum = None -> requested desired original s3).
  { intros Hk. subst needed minimum maximum. constructor; try done.
    all: destruct (st_uclamp_min desired), (st_uclamp_max desired), (st_uclamp_min original),
      (st_uclamp_max original); simpl in *; try (destruct Hclamps as [[??] [??]]; [done|]);
      (destruct Hk as [Hk|[|]]; [|done..]); repeat case_bool_decide; simplify_eq/=; congruence. }
  destruct minimum as [low|] eqn:El; [|eapply read_back_step in Hr; eauto].
  destruct maximum as [high|] eqn:Eh; [|eapply read_back_step in Hr; eauto].
  unfold and_then in Hr. destruct (apply_change _ _ _ ChUclamp _ _ _) as [x w6] eqn:E.
  eapply (apply_change_step _ _ _ _ _ _ _ _ _
    (fun s => s <|st_uclamp_min := Some low|> <|st_uclamp_max := Some high|>)) in E;
    [|exact H3|exact D3|intros ? ? Hcall; exact (law_uclamp _ Hlaw _ _ _ _ _ _ _ Hcall H3)
     |intros Hn; apply andb_prop in Hn as [Hn _]; destruct (Hclamps Hn); by apply differs_set_uclamp].
  destruct x as [e|a4].
  - injection Hr as <- <-. destruct E as [? (e1 & w1 & E)]. split; [done|]. intros Sv. by eapply sv_uclamp.
  - destruct E as [H4 D4]. eapply read_back_step in Hr; [exact Hr|exact H4|exact D4|].
    destruct needed; [by constructor|auto].
Qed.

(** A write that stops with an error. *)
Definition stopped (desired : ProcessSchedulingState) (before : option ProcessSchedulingState)
    (e : PlatformError) (w : W) : Prop :=
  undone before e w /\ forall original, before = Some original -> ~ served desired original.

(** The changes before the clamps, one after the other. *)
Lemma changes_step desired original w2 k r w' :
  and_then (apply_change p original (negb (bool_decide (st_affinity desired = st_affinity original)))
              ChAffinity (api_set_affinity p (st_affinity desired)) [] w2) (fun applied w =>
  and_then (apply_change p original (negb (st_nice desired =? st_nice original))
              ChNice (api_set_nice p (st_nice desired)) applied w) (fun applied w =>
  and_then (apply_change p original
              (negb (bool_decide (st_policy desired = st_policy original))
               || negb (bool_decide (st_rt_priority desired = st_rt_priority original)))
              ChPolicy (api_set_policy p (st_policy desired) (st_rt_priority desired)) applied w) k)) = (r, w') ->
  task p w2 = Some original ->
  (exists e, r = inl (B := ProcessSchedulingState) e /\ stopped desired (Some original) e w')
  \/ exists applied w5 s3, k applied w5 = (r, w') /\ task p w5 = Some s3 /\ differs applied original s3
       /\ requested (desired <|st_uclamp_min := None|> <|st_uclamp_max := None|>) original s3.
Proof.
  intros Hr Hw2. pose proof (differs_refl original) as D0. unfold and_then in Hr.
  assert (Hstop : forall e w, (undone (Some original) e w /\ ~ served desired original) ->
    exists e', inl (B := ProcessSchedulingState) e = inl e' /\ stopped desired (Some original) e' w).
  { intros e w [Hu Hs]. exists e. split; [done|]. split; [done|]. by intros ? [= <-]. }
  destruct (apply_change _ _ _ ChAffinity _ _ _) as [x1 w3] eqn:E1.
  eapply (apply_change_step _ _ _ _ _ _ _ _ _ (fun s => s <|st_affinity := st_affinity desired|>)) in E1;
    [|exact Hw2|exact D0|intros ? ? Hcall; exact (law_affinity _ Hlaw _ _ _ _ _ _ Hcall Hw2)
     |intros; by apply differs_set_affinity].
  destruct x1 as [e|a1].
  { injection Hr as <- <-. left. destruct E1 as [? (? & ? & E1)]. apply Hstop. split; [done|].
    intros Sv. by eapply sv_affinity. }
  destruct E1 as [H1 D1]. destruct (apply_change _ _ _ ChNice _ _ _) as [x2 w4] eqn:E2.
  eapply (apply_change_step _ _ _ _ _ _ _ _ _ (fun s => s <|st_nice := st_nice desired|>)) in E2;
    [|exact H1|exact D1|intros ? ? Hcall; exact (law_nice _ Hlaw _ _ _ _ _ _ Hcall H1)
     |intros; by apply differs_set_nice].
  destruct x2 as [e|a2].
  { injection Hr as <- <-. left. destruct E2 as [? (? & ? & E2)]. apply Hstop. split; [done|].
    intros Sv. by eapply sv_nice. }
  destruct E2 as [H2 D2]. destruct (apply_change _ _ _ ChPolicy _ _ _) as [x3 w5] eqn:E3.
  eapply (apply_change_step _ _ _ _ _ _ _ _ _
    (fun s => s <|st_policy := st_policy desired|> <|st_rt_priority := st_rt_priority desired|>)) in E3;
    [|exact H2|exact D2|intros ? ? Hcall; exact (law_policy _ Hlaw _ _ _ _ _ _ _ Hcall H2)
     |intros; by apply differs_set_policy].
  destruct x3 as [e|a3].
  { injection Hr as <- <-. left. destruct E3 as [? (? & ? & E3)]. apply Hstop. split; [done|].
    intros Sv. by eapply sv_policy. }
  destruct E3 as [H3 D3]. right. do 3 eexists. split; [exact Hr|]. split; [exact H3|]. split; [exact D3|].
  clear. destruct desired, original; simpl.
  destruct (bool_decide (_ = st_affinity0)) eqn:B1, (_ =? _) eqn:B2, (bool_decide (_ = st_policy0)) eqn:B3,
    (bool_decide (_ = st_rt_priority0)) eqn:B4;
    repeat match goal with
           | H : bool_decide _ = true |- _ => apply bool_decide_eq_true in H
           | H : (_ =? _) = true |- _ => apply Z.eqb_eq in H
           end; constructor; simpl; unfold constant; congruence.
Qed.

Lemma write_scheduling_linux_spec desired w r w' :
  write_scheduling_linux MAX_CPU online_path p desired w = (r, w') ->
  match r with
  | inr s => exists original, task p w = Some original /\ acceptable desired
      /\ s = overlay desired original /\ task p w' = Some s
  | inl e => stopped desired (task p w) e w'
  end.
Proof.
  unfold write_scheduling_linux. destruct (validate_process_id p) as [|[]] eqn:Ep.
  { intros [= <- <-]. split; [by left|]. intros original _ Sv. by rewrite (sv_process _ _ Sv) in Ep. }
  unfold and_then at 1. destruct (api_read p w) as [x w1] eqn:E.
  destruct (law_read _ Hlaw _ _ _ _ E) as [Hw Hx]. destruct x as [e|original].
  { intros [= <- <-]. split; [by left|]. intros original _ Sv. by eapply sv_read. }
  specialize (Hx _ eq_refl). rewrite Hx in *. unfold and_then at 1.
  destruct (validate_desired _ _ _ _ _) as [v w2] eqn:Ev.
  pose proof (validate_desired_task _ _ _ _ _ Ev) as Hw2. rewrite Hw in Hw2. destruct v as [e|[]].
  { intros [= <- <-]. split; [by left|]. intros ? [= <-] Sv. pose proof (sv_valid _ _ Sv w1 Hw) as Hv.
    by rewrite Ev in Hv. }
  apply validate_desired_acceptable in Ev as [Hok Hclamps].
  intros [(e & -> & He)|(applied & w5 & s3 & Hr & H3 & D3 & Q3)]%changes_step; [done| |done].
  eapply clamps_step in Hr; [|done..]. destruct r as [e|s].
  - split; [apply Hr|]. intros ? [= <-]. apply Hr.
  - exists original. naive_solver.
Qed.
End transaction.

(** ** The transaction *)


(** A kernel with one task table, whose clamps can be refused. *)
Record TaskTable := { tt_tasks : gmap Z ProcessSchedulingState; tt_no_uclamp : bool }.

Definition refuse : PlatformError := Unsupported "refused".

Definition table_set (p : Z) (f : ProcessSchedulingState -> ProcessSchedulingState) (w : TaskTable)
  : sched_result unit * TaskTable :=
  match tt_tasks w !! p with
  | Some s => (inr tt, w <|tt_tasks := <[p := f s]> (tt_tasks w)|>)
  | None => (inl refuse, w)
  end.

#[export] Instance table_api : SchedulingApi TaskTable := {
  api_read p w := (match tt_tasks w !! p with Some s => inr s | None => inl (Disappeared "task") end, w);
  api_set_affinity p a := table_set p (fun s => s <|st_affinity := a|>);
  api_set_nice p n := table_set p (fun s => s <|st_nice := n|>);
  api_set_policy p c prio := table_set p (fun s => s <|st_policy := c|> <|st_rt_priority := prio|>);
  api_set_uclamp p low high w :=
    if tt_no_uclamp w then (inl refuse, w)
    else table_set p (fun s => s <|st_uclamp_min := Some low|> <|st_uclamp_max := Some high|>) w;
  read_online_text w := (inr (String.append "0-3" (String newline "")), w);
}.

Definition table_task (p : Z) (w : TaskTable) : option ProcessSchedulingState := tt_tasks w !! p.

Lemma table_set_law p f w r w' s :
  table_set p f w = (r, w') -> table_task p w = Some s ->
  table_task p w' = Some (match r with inr _ => f s | inl _ => s end).
Proof.
  unfold table_set, table_task. intros H Hs. rewrite Hs in H. injection H as <- <-.
  exact (lookup_insert_eq _ _ _).
Qed.

Lemma table_lawful : lawful table_task.
Proof.
  constructor; simpl; intros *.
  - intros [= <- <-]. split; [done|]. unfold table_task. destruct (_ !! _); naive_solver.
  - by intros [= _ <-].
  - apply table_set_law.
  - apply table_set_law.
  - apply table_set_law.
  - destruct (tt_no_uclamp w); [intros [= <- <-] ?; done|apply table_set_law].
Qed.

Definition idle_task : ProcessSchedulingState :=
  {| st_affinity := CpuSet_from_ids [0; 1; 2; 3]; st_nice := 0; st_policy := Other; st_rt_priority := None;
     st_uclamp_min := Some 0; st_uclamp_max := Some 1024 |}.
Definition boosted_task : ProcessSchedulingState :=
  {| st_affinity := CpuSet_from_ids [2; 3]; st_nice := -10; st_policy := Fifo; st_rt_priority := Some 2;
     st_uclamp_min := Some 512; st_uclamp_max := None |}.
Definition table (no_uclamp : bool) : TaskTable :=
  {| tt_tasks := {[ 42 := idle_task ]}; tt_no_uclamp := no_uclamp |}.
Definition boost (no_uclamp : bool) : sched_result ProcessSchedulingState * TaskTable :=
  write_scheduling_linux 1024 ONLINE_CPUS 42 boosted_task (table no_uclamp).


(** ** The tools are waited for at most a second *)

Section tools.
Context {W : Type} `{!SchedulerKernel W}.

(** The clock does not run backwards, and a sleep takes the time it asks for. *)
Record ticking (clock : W -> Z) : Prop := {
  tk_now w t w' : tool_now w = (t, w') -> t = clock w /\ clock w <= clock w';
  tk_try_wait child w r w' : try_wait child w = (r, w') -> clock w <= clock w';
  tk_sleep d w : clock w + d <= clock (tool_sleep d w);
}.

Lemma wait_with_deadline_ends (clock : W -> Z) (Hc : ticking clock) child tool resource deadline fuel w :
  deadline - clock w <= Z.of_nat fuel * TOOL_POLL_INTERVAL ->
  is_Some (wait_with_deadline (S fuel) child tool resource deadline w).1.
Proof.
  revert w. induction fuel as [|fuel IH]; intros w Hf.
  all: cbn [wait_with_deadline]; destruct (try_wait child w) as [r w1] eqn:E1;
    apply (tk_try_wait _ Hc) in E1; destruct r as [e|[]]; [eauto|destruct (wait_with_output child w1); eauto|];
    destruct (tool_now w1) as [now w2] eqn:E2; apply (tk_now _ Hc) in E2 as [-> E2].
  - destruct (clock w1 <? deadline) eqn:E; [lia|]. destruct (kill_and_wait child w2). eauto.
  - destruct (clock w1 <? deadline) eqn:E; [|destruct (kill_and_wait child w2); eauto].
    apply IH. pose proof (tk_sleep _ Hc TOOL_POLL_INTERVAL w2). unfold TOOL_POLL_INTERVAL in *. lia.
Qed.

(** 201 polls, of five milliseconds each, are enough for the second. *)
Lemma run_util_linux_ends (clock : W -> Z) (Hc : ticking clock) tool arguments resource w :
  is_Some (run_util_linux 201 tool arguments resource w).1.
Proof.
  unfold run_util_linux. destruct (spawn tool arguments w) as [[e|child] w1]; [eauto|].
  destruct (tool_now w1) as [now w2] eqn:E. apply (tk_now _ Hc) in E as [-> E].
  pose proof (wait_with_deadline_ends clock Hc child tool resource (clock w1 + TOOL_TIMEOUT) 200 w2) as [r Hr].
  { unfold TOOL_TIMEOUT, TOOL_POLL_INTERVAL. lia. }
  destruct (wait_with_deadline _ _ _ _ _ w2) as [o w3]. simpl in *. rewrite Hr. eauto.
Qed.
End tools.
