(* ===== verification/Systemd.v ===== *)
(** * Unit properties through systemd ([uperf-linux/src/systemd.rs])

    [SystemdDbusClient]: the names, masks and weights it exchanges with systemd,
    the write of a unit's properties as a transaction with readback, and the
    owner thread behind a bounded queue that serves the requests of every clone
    of the client. The bus is a class: a call returns a D-Bus error or a value
    of the type it was asked for. Where a message renders a value with [Debug],
    the rendering is left out. *)

From coqutil Require Import Datatypes.RecordSetters.
From S2P Require Import Prelude Float64 Domain Text Strings ActuatorTypes DaemonTypes Touch Evdev LinuxScheduler.

(** ** The bus *)

Inductive BusErrorKind := MethodError (name : string) | FdoUnknownProperty | OtherBusError.
Record BusError := { be_kind : BusErrorKind; be_text : string }.
#[global] Instance BusErrorKind_eq_dec : EqDecision BusErrorKind.
Proof. solve_decision. Defined.

Inductive Value := U64 (z : Z) | Bytes (l : list Z).

Inductive ConnectionSource := System | Address (address : string).

Class SystemdBus (W : Type) := {
  (** the start of the owner: its thread, its runtime, the builder and the connection *)
  spawn_owner : W -> (IoError + unit) * W;
  build_runtime : W -> (IoError + unit) * W;
  configure_bus : ConnectionSource -> W -> (BusError + unit) * W;
  connect_bus : W -> (BusError + unit) * W;
  (** [Proxy::new] of an object and an interface *)
  bus_proxy : string -> string -> W -> (BusError + unit) * W;
  (** methods of the manager *)
  get_unit : string -> W -> (BusError + string) * W;
  get_unit_by_pid : Z -> W -> (BusError + string) * W;
  get_unit_processes : string -> W -> (BusError + list (string * Z * string)) * W;
  set_unit_properties : string -> bool -> list (string * Value) -> W -> (BusError + unit) * W;
  (** [get_property] of an object and an interface *)
  get_string : string -> string -> string -> W -> (BusError + string) * W;
  get_u64 : string -> string -> string -> W -> (BusError + Z) * W;
  get_bytes : string -> string -> string -> W -> (BusError + list Z) * W;
  (** [fs::read_to_string] of the online CPU list *)
  read_online_list : W -> (IoError + string) * W;
}.

Definition SYSTEMD_SERVICE : string := "org.freedesktop.systemd1".
Definition SYSTEMD_PATH : string := "/org/freedesktop/systemd1".
Definition MANAGER_INTERFACE : string := "org.freedesktop.systemd1.Manager".
Definition UNIT_INTERFACE : string := "org.freedesktop.systemd1.Unit".
Definition MIN_CPU_WEIGHT : Z := 1.
Definition MAX_CPU_WEIGHT : Z := 10000.
Definition UNSET_CPU_WEIGHT : Z := u64_max.
Definition OWNER_QUEUE_CAPACITY : nat := 16.

(** ** Errors *)

Definition dbus_resource (name : string) : string :=
  if is_absolute name then name else "dbus/" +:+ name.

Definition map_dbus_error (operation : string) (e : BusError) : PlatformError :=
  Io operation (dbus_resource SYSTEMD_SERVICE) (be_text e).

Definition owner_unavailable (operation : string) : PlatformError :=
  Io operation (dbus_resource SYSTEMD_SERVICE) "systemd D-Bus owner thread is unavailable".

Definition owner_queue_full (operation : string) : PlatformError :=
  Io operation (dbus_resource SYSTEMD_SERVICE) "systemd D-Bus owner request queue is full".

Definition is_no_unit_for_pid (e : BusError) : bool :=
  bool_decide (be_kind e = MethodError "org.freedesktop.systemd1.NoUnitForPID").

Definition is_unknown_property (e : BusError) : bool :=
  bool_decide (be_kind e = FdoUnknownProperty)
  || bool_decide (be_kind e = MethodError "org.freedesktop.DBus.Error.UnknownProperty").

Definition with_systemd_rollback (unit : string) (failure : PlatformError)
    (rollback : sched_result ()) : PlatformError :=
  match rollback with
  | inr _ => failure
  | inl rollback =>
      InvalidData (dbus_resource unit)
        ("systemd property transaction failed (" +:+ show_error failure
         +:+ "); rollback also failed: " +:+ show_error rollback)
  end.

(** ** Names *)

(** [: _ - . @ \ ] *)
Definition is_unit_punctuation (c : Ascii.ascii) : bool :=
  let b := byte_of c in
  (b =? 58) || (b =? 95) || (b =? 45) || (b =? 46) || (b =? 64) || (b =? 92).

Definition ends_with (suffix s : string) : bool := bool_decide (bytes suffix `suffix_of` bytes s).

(** [validate_unit_name] of systemd.rs; the actuator has a function of the
    same name, modelled in Journal.v. *)
Definition systemd_validate_unit_name (unit : string) : sched_result string :=
  if bool_decide (unit = "") || (256 <? Z.of_nat (String.length unit))
  then inl (InvalidData (dbus_resource unit) "systemd unit name must contain 1..=256 bytes")
  else if negb (forallb (fun c => is_ascii_alphanumeric c || is_unit_punctuation c) (bytes unit))
  then inl (InvalidData (dbus_resource unit) "systemd unit name contains a forbidden character")
  else if ends_with ".service" unit then inr "org.freedesktop.systemd1.Service"
  else if ends_with ".scope" unit then inr "org.freedesktop.systemd1.Scope"
  else if ends_with ".slice" unit then inr "org.freedesktop.systemd1.Slice"
  else inl (Unsupported "only systemd service, scope, and slice units support workload controls").

Definition validate_pid (process : Z) : sched_result () :=
  if (process =? 0) || (2147483647 <? process)
  then inl (InvalidData (dbus_resource "GetUnitByPID")
              ("PID " +:+ to_string process +:+ " is outside the positive Linux pid_t range"))
  else inr tt.

Definition bad_component (component : string) : bool :=
  bool_decide (component = "") || bool_decide (component = ".") || bool_decide (component = "..").

Definition validate_control_group (unit control_group : string) : sched_result () :=
  let invalid_component :=
    match strip_prefix "/" control_group with
    | None => true
    | Some relative =>
        bool_decide (relative = "") || (4095 <? Z.of_nat (String.length relative))
        || existsb bad_component (split_on slash relative)
    end in
  if invalid_component || contains Ascii.zero control_group
  then inl (InvalidData (dbus_resource unit)
              ("systemd returned invalid ControlGroup `" +:+ control_group +:+ "`"))
  else inr tt.

Definition select_instance_identity (unit : string) (invocation_id : option (list Z))
    (control_group : option string) : sched_result SystemdUnitInstanceIdentity :=
  ok _ := systemd_validate_unit_name unit in
  ok key :=
    match invocation_id with
    | Some l =>
        if existsb (fun b => negb (b =? 0)) l then
          if Nat.eqb (length l) 16 then inr (InvocationId l)
          else inl (InvalidData (dbus_resource unit)
                      ("systemd InvocationID must contain exactly 16 bytes, got "
                       +:+ to_string (Z.of_nat (length l))))
        else
          match control_group with
          | None => inl (InvalidData (dbus_resource unit)
                           "systemd exposes neither a nonzero InvocationID nor ControlGroup")
          | Some group => ok _ := validate_control_group unit group in inr (ControlGroup group)
          end
    | None =>
        match control_group with
        | None => inl (InvalidData (dbus_resource unit)
                         "systemd exposes neither a nonzero InvocationID nor ControlGroup")
        | Some group => ok _ := validate_control_group unit group in inr (ControlGroup group)
        end
    end in
  inr {| ui_unit := unit; ui_key := key |}.

(** ** Masks *)

(** [Iterator::next_back] of an ordered set *)
Definition last_cpu (cpus : CpuSet) : option CpuId := last (CpuSet_iter cpus).

Definition set_mask_bit (l : list Z) (cpu : CpuId) : list Z :=
  alter (fun byte => Z.lor byte (Z.shiftl 1 (cpu mod 8))) (Z.to_nat (cpu / 8)) l.

Definition encode_cpu_mask (cpus : CpuSet) : list Z :=
  match last_cpu cpus with
  | None => []
  | Some maximum =>
      fold_left set_mask_bit (CpuSet_iter cpus) (replicate (Z.to_nat (maximum / 8 + 1)) 0)
  end.

(** [u32::checked_mul], [u32::checked_add] *)
Definition checked_u32 (z : Z) : option Z := if z <=? u32_max then Some z else None.

Definition decode_bit (unit : string) (byte_index byte : Z) (cpus : CpuSet) (bit : Z) : sched_result CpuSet :=
  if Z.land byte (Z.shiftl 1 bit) =? 0 then inr cpus
  else if u32_max <? byte_index
  then inl (InvalidData (dbus_resource unit) ("AllowedCPUs mask is too large: " +:+ TRY_FROM_INT))
  else
    match checked_u32 (byte_index * 8) ≫= fun base => checked_u32 (base + bit) with
    | None => inl (InvalidData (dbus_resource unit) "AllowedCPUs CPU index overflow")
    | Some cpu => inr (cpus ∪ {[ cpu ]})
    end.

Fixpoint decode_bits (unit : string) (byte_index byte : Z) (cpus : CpuSet) (bits : list Z)
  : sched_result CpuSet :=
  match bits with
  | [] => inr cpus
  | bit :: bits =>
      ok cpus := decode_bit unit byte_index byte cpus bit in decode_bits unit byte_index byte cpus bits
  end.

Fixpoint decode_bytes (unit : string) (byte_index : Z) (cpus : CpuSet) (l : list Z) : sched_result CpuSet :=
  match l with
  | [] => inr cpus
  | byte :: l =>
      ok cpus := decode_bits unit byte_index byte cpus (seqZ 0 8) in
      decode_bytes unit (byte_index + 1) cpus l
  end.

Definition decode_cpu_mask (unit : string) (l : list Z) : sched_result CpuSet :=
  ok cpus := decode_bytes unit 0 ∅ l in
  if CpuSet_is_empty cpus
  then inl (InvalidData (dbus_resource unit) "nonempty AllowedCPUs byte array contains no CPUs")
  else inr cpus.

(** ** Properties *)

Record RawUnitProperties := { raw_weight : Z; raw_cpus : list Z }.
#[global] Instance RawUnitProperties_eq_dec : EqDecision RawUnitProperties.
Proof. solve_decision. Defined.

Record ResolvedUnit := { ru_path : string; ru_interface : string }.

Definition raw_to_domain (unit : string) (raw : RawUnitProperties) : sched_result SystemdUnitProperties :=
  ok cpu_weight :=
    if (raw_weight raw =? 0) || (raw_weight raw =? u64_max) then inr None
    else if (MIN_CPU_WEIGHT <=? raw_weight raw) && (raw_weight raw <=? MAX_CPU_WEIGHT)
    then inr (Some (raw_weight raw))
    else inl (InvalidData (dbus_resource unit)
                ("systemd returned invalid CPUWeight " +:+ to_string (raw_weight raw))) in
  ok allowed_cpus :=
    if bool_decide (raw_cpus raw = []) then inr None
    else ok cpus := decode_cpu_mask unit (raw_cpus raw) in inr (Some cpus) in
  inr {| up_cpu_weight := cpu_weight; up_allowed_cpus := allowed_cpus |}.

Definition domain_to_raw (properties : SystemdUnitProperties) : RawUnitProperties := {|
  raw_weight := default UNSET_CPU_WEIGHT (up_cpu_weight properties);
  raw_cpus := from_option encode_cpu_mask [] (up_allowed_cpus properties);
|}.

Definition unit_matches_desired (actual desired : SystemdUnitProperties) : bool :=
  bool_decide (actual = desired).

(** ** The owner's operations *)

Section owner.
Context {W : Type} `{!SystemdBus W}.
Context (MAX_CPU : Z) (online_path : string).

(** A D-Bus call whose failure is mapped. *)
Definition with_bus {A} (operation : string) (r : (BusError + A) * W) : sched_result A * W :=
  (match r.1 with inl e => inl (map_dbus_error operation e) | inr a => inr a end, r.2).

Definition read_online (w : W) : sched_result CpuSet * W :=
  let '(r, w) := read_online_list w in
  (match r with
   | inl e => inl (platform_io "read online CPUs" online_path e)
   | inr contents => parse_cpu_list MAX_CPU online_path contents
   end, w).

Definition systemd_manager (w : W) : sched_result unit * W :=
  with_bus "create systemd manager proxy" (bus_proxy SYSTEMD_PATH MANAGER_INTERFACE w).

Definition resolve_unit (unit : string) (w : W) : sched_result ResolvedUnit * W :=
  and_then (systemd_validate_unit_name unit, w) (fun type_interface w =>
  and_then (systemd_manager w) (fun _ w =>
  and_then (with_bus "resolve systemd unit" (get_unit unit w)) (fun path w =>
  and_then (with_bus "create systemd unit proxy" (bus_proxy path UNIT_INTERFACE w)) (fun _ w =>
  and_then (with_bus "read systemd unit identity" (get_string path UNIT_INTERFACE "Id" w)) (fun actual w =>
  (if bool_decide (actual = unit) then inr {| ru_path := path; ru_interface := type_interface |}
   else inl (InvalidData (dbus_resource unit)
               ("resolved unit identity `" +:+ actual +:+ "` differs from `" +:+ unit +:+ "`")), w)))))).

Definition read_instance_identity (unit path : string) (w : W)
  : sched_result SystemdUnitInstanceIdentity * W :=
  let '(r, w) := get_bytes path UNIT_INTERFACE "InvocationID" w in
  and_then
    (match r with
     | inr value => inr (Some value)
     | inl e =>
         if is_unknown_property e then inr None
         else inl (map_dbus_error "read systemd unit InvocationID" e)
     end, w) (fun invocation_id w =>
  and_then
    (if is_none_or invocation_id (forallb (fun byte => byte =? 0)) then
       and_then (with_bus "read systemd unit ControlGroup" (get_string path UNIT_INTERFACE "ControlGroup" w))
         (fun group w => (inr (Some group), w))
     else (inr None, w)) (fun control_group w =>
  (select_instance_identity unit invocation_id control_group, w))).

Definition instance_identity (unit path : string) (w : W) : sched_result SystemdUnitInstanceIdentity * W :=
  and_then (with_bus "create systemd unit identity proxy" (bus_proxy path UNIT_INTERFACE w)) (fun _ w =>
  read_instance_identity unit path w).

Definition read_raw (unit : string) (w : W) : sched_result RawUnitProperties * W :=
  and_then (resolve_unit unit w) (fun resolved w =>
  let path := ru_path resolved in
  let interface := ru_interface resolved in
  and_then (with_bus "create typed systemd unit proxy" (bus_proxy path interface w)) (fun _ w =>
  and_then (with_bus "read systemd CPUWeight" (get_u64 path interface "CPUWeight" w)) (fun cpu_weight w =>
  and_then (with_bus "read systemd AllowedCPUs" (get_bytes path interface "AllowedCPUs" w))
    (fun allowed_cpus w =>
  (inr {| raw_weight := cpu_weight; raw_cpus := allowed_cpus |}, w))))).

Definition set_raw (unit : string) (raw : RawUnitProperties) (w : W) : sched_result () * W :=
  and_then (systemd_manager w) (fun _ w =>
  with_bus "set typed systemd unit properties"
    (set_unit_properties unit true
       [("CPUWeight", U64 (raw_weight raw)); ("AllowedCPUs", Bytes (raw_cpus raw))] w)).

Definition validate_weight (desired : SystemdUnitProperties) : sched_result () :=
  match up_cpu_weight desired with
  | Some weight =>
      if negb ((MIN_CPU_WEIGHT <=? weight) && (weight <=? MAX_CPU_WEIGHT))
      then inl (InvalidData "dbus/systemd/CPUWeight"
                  ("CPUWeight " +:+ to_string weight +:+ " is outside 1..=10000"))
      else inr tt
  | None => inr tt
  end.

Definition validate_desired_properties (desired : SystemdUnitProperties) (w : W) : sched_result () * W :=
  and_then (validate_weight desired, w) (fun _ w =>
  match up_allowed_cpus desired with
  | None => (inr tt, w)
  | Some cpus =>
      if CpuSet_is_empty cpus
      then (inl (InvalidData "dbus/systemd/AllowedCPUs" "AllowedCPUs must not be empty"), w)
      else
        and_then (read_online w) (fun online w =>
        (if CpuSet_is_subset cpus online then inr tt
         else inl (InvalidData online_path "AllowedCPUs contains an offline or nonexistent CPU"), w))
  end).

Definition unit_instance_for_process_owner (process : Z) (w : W)
  : sched_result (option SystemdUnitInstanceIdentity) * W :=
  and_then (validate_pid process, w) (fun _ w =>
  and_then (systemd_manager w) (fun _ w =>
  let '(r, w) := get_unit_by_pid process w in
  match r with
  | inl e =>
      if is_no_unit_for_pid e then (inr None, w)
      else (inl (map_dbus_error "resolve unit for PID" e), w)
  | inr path =>
      and_then (with_bus "create systemd unit identity proxy" (bus_proxy path UNIT_INTERFACE w)) (fun _ w =>
      and_then (with_bus "read systemd unit identity" (get_string path UNIT_INTERFACE "Id" w)) (fun unit w =>
      and_then (systemd_validate_unit_name unit, w) (fun _ w =>
      and_then (read_instance_identity unit path w) (fun identity w => (inr (Some identity), w)))))
  end)).

Definition unit_instance_identity_owner (unit : string) (w : W)
  : sched_result SystemdUnitInstanceIdentity * W :=
  and_then (resolve_unit unit w) (fun resolved w => instance_identity unit (ru_path resolved) w).

Definition unit_processes_owner (unit : string) (w : W) : sched_result (list Z) * W :=
  and_then (systemd_validate_unit_name unit, w) (fun _ w =>
  and_then (systemd_manager w) (fun _ w =>
  and_then (with_bus "enumerate systemd unit processes" (get_unit_processes unit w)) (fun processes w =>
  (inr (sort_dedup ((fun p => p.1.2) <$> processes)), w)))).

Definition read_unit_properties_owner (unit : string) (w : W) : sched_result SystemdUnitProperties * W :=
  and_then (read_raw unit w) (fun raw w => (raw_to_domain unit raw, w)).

(** The two ends of a write that does not verify: the original is put back. *)
Definition restore_raw (unit : string) (original : RawUnitProperties) (failure : PlatformError) (w : W)
  : sched_result SystemdUnitProperties * W :=
  let '(rollback, w) := set_raw unit original w in
  (inl (with_systemd_rollback unit failure rollback), w).

Definition write_unit_properties_owner (unit : string) (desired : SystemdUnitProperties) (w : W)
  : sched_result SystemdUnitProperties * W :=
  and_then (systemd_validate_unit_name unit, w) (fun _ w =>
  and_then (validate_desired_properties desired w) (fun _ w =>
  and_then (read_raw unit w) (fun original_raw w =>
  and_then (set_raw unit (domain_to_raw desired) w) (fun _ w =>
  let '(readback, w) := read_unit_properties_owner unit w in
  match readback with
  | inl error => restore_raw unit original_raw error w
  | inr readback =>
      if unit_matches_desired readback desired then (inr readback, w)
      else
        restore_raw unit original_raw
          (InvalidData (dbus_resource unit) "systemd readback differs from request") w
  end)))).

(** ** The owner thread *)

Inductive OwnerRequest :=
| UnitInstanceForProcess (process : Z)
| UnitInstanceIdentity (unit : string)
| UnitProcesses (unit : string)
| ReadUnitProperties (unit : string)
| WriteUnitProperties (unit : string) (desired : SystemdUnitProperties).

(** What is sent on the reply channel of a request. *)
Inductive SystemdReply :=
| ReInstance (r : sched_result (option SystemdUnitInstanceIdentity))
| ReIdentity (r : sched_result SystemdUnitInstanceIdentity)
| ReProcesses (r : sched_result (list Z))
| ReProperties (r : sched_result SystemdUnitProperties).

Definition handle_request (request : OwnerRequest) (w : W) : SystemdReply * W :=
  match request with
  | UnitInstanceForProcess process =>
      let '(r, w) := unit_instance_for_process_owner process w in (ReInstance r, w)
  | UnitInstanceIdentity unit => let '(r, w) := unit_instance_identity_owner unit w in (ReIdentity r, w)
  | UnitProcesses unit => let '(r, w) := unit_processes_owner unit w in (ReProcesses r, w)
  | ReadUnitProperties unit => let '(r, w) := read_unit_properties_owner unit w in (ReProperties r, w)
  | WriteUnitProperties unit desired =>
      let '(r, w) := write_unit_properties_owner unit desired w in (ReProperties r, w)
  end.

(** What [systemd_owner] sends on the ready channel. *)
Definition systemd_owner_ready (source : ConnectionSource) (w : W) : sched_result () * W :=
  let '(r, w) := build_runtime w in
  and_then
    (match r with
     | inl e => inl (platform_io "build systemd D-Bus runtime" (dbus_resource SYSTEMD_SERVICE) e)
     | inr _ => inr tt
     end, w) (fun _ w =>
  and_then (with_bus (match source with
                      | System => "configure system bus"
                      | Address _ => "configure D-Bus address"
                      end) (configure_bus source w)) (fun _ w =>
  with_bus "connect D-Bus" (connect_bus w))).

Definition start_owner (source : ConnectionSource) (w : W) : sched_result () * W :=
  let '(r, w) := spawn_owner w in
  and_then
    (match r with
     | inl e => inl (platform_io "start systemd D-Bus owner" (dbus_resource SYSTEMD_SERVICE) e)
     | inr _ => inr tt
     end, w) (fun _ w =>
  systemd_owner_ready source w).

Definition connect_system (w : W) : sched_result () * W :=
  and_then (read_online w) (fun _ w => start_owner System w).

Definition from_address (address : string) (w : W) : sched_result () * W :=
  and_then (read_online w) (fun _ w => start_owner (Address address) w).

(** ** The queue in front of it *)

Definition operation_of (request : OwnerRequest) : string :=
  match request with
  | UnitInstanceForProcess _ => "resolve unit for PID"
  | UnitInstanceIdentity _ => "read systemd unit identity"
  | UnitProcesses _ => "enumerate systemd unit processes"
  | ReadUnitProperties _ => "read systemd unit properties"
  | WriteUnitProperties _ _ => "write systemd unit properties"
  end.

(** A reply channel is the number of its request; the receiver of the queue is
    dropped when the owner ends. *)
Record OwnerQueue := {
  oq_requests : list (nat * OwnerRequest);
  oq_open : bool;
  oq_next : nat;
}.

Definition new_queue : OwnerQueue := {| oq_requests := []; oq_open := true; oq_next := O |}.

(** [try_send]: the error the caller gets at once, if any. *)
Definition try_request (q : OwnerQueue) (request : OwnerRequest) : option PlatformError * OwnerQueue :=
  if negb (oq_open q) then (Some (owner_unavailable (operation_of request)), q)
  else if Nat.leb OWNER_QUEUE_CAPACITY (length (oq_requests q))
  then (Some (owner_queue_full (operation_of request)), q)
  else (None, q <|oq_requests := oq_requests q ++ [(oq_next q, request)]|> <|oq_next := S (oq_next q)|>).

(** What a caller that waits on a reply channel receives. *)
Definition served_answer (request : OwnerRequest) (reply : option SystemdReply) : PlatformError + SystemdReply :=
  match reply with
  | Some reply => inr reply
  | None => inl (owner_unavailable (operation_of request))
  end.

(** The clients, the owner and everything else that moves the world: the queue,
    the requests it has accepted so far, the answers given so far with what
    they answer, and the world. *)
Record Served := { sv_number : nat; sv_request : OwnerRequest; sv_answer : PlatformError + SystemdReply }.

Record Bus := {
  bu_queue : OwnerQueue;
  bu_accepted : list OwnerRequest;
  bu_log : list Served;
  bu_world : W;
}.

Definition accept (accepted : list OwnerRequest) (request : OwnerRequest) (refused : option PlatformError)
  : list OwnerRequest :=
  if refused then accepted else accepted ++ [request].

Definition gone (entry : nat * OwnerRequest) : Served :=
  {| sv_number := entry.1; sv_request := entry.2; sv_answer := served_answer entry.2 None |}.

Inductive owner_step (env : W -> W -> Prop) : Bus -> Bus -> Prop :=
| submit b request :
    owner_step env b
      (b <|bu_queue := (try_request (bu_queue b) request).2|>
         <|bu_accepted := accept (bu_accepted b) request (try_request (bu_queue b) request).1|>)
| serve b number request rest reply w' :
    oq_open (bu_queue b) = true ->
    oq_requests (bu_queue b) = (number, request) :: rest ->
    handle_request request (bu_world b) = (reply, w') ->
    owner_step env b
      (b <|bu_queue := (bu_queue b) <|oq_requests := rest|> |>
         <|bu_log := bu_log b ++
             [{| sv_number := number; sv_request := request; sv_answer := served_answer request (Some reply) |}]|>
         <|bu_world := w'|>)
| stop b :
    owner_step env b
      (b <|bu_queue := (bu_queue b) <|oq_requests := []|> <|oq_open := false|> |>
         <|bu_log := bu_log b ++ (gone <$> oq_requests (bu_queue b))|>)
| elsewhere b w' :
    env (bu_world b) w' -> owner_step env b (b <|bu_world := w'|>).

(** A server without clones or queue: it handles one request after the other. *)
Inductive sequential (env : W -> W -> Prop) (w0 : W) : list Served -> W -> Prop :=
| seq_start : sequential env w0 [] w0
| seq_elsewhere log w w' : sequential env w0 log w -> env w w' -> sequential env w0 log w'
| seq_handle log w number request reply w' :
    sequential env w0 log w ->
    handle_request request w = (reply, w') ->
    sequential env w0
      (log ++ [{| sv_number := number; sv_request := request; sv_answer := inr reply |}]) w'
| seq_gone log w number request :
    sequential env w0 log w ->
    sequential env w0
      (log ++ [{| sv_number := number; sv_request := request;
                  sv_answer := inl (owner_unavailable (operation_of request)) |}]) w.

Definition new_bus (w : W) : Bus :=
  {| bu_queue := new_queue; bu_accepted := []; bu_log := []; bu_world := w |}.
End owner.

(** ** Masks *)

(** Whether a mask has the bit of a CPU. *)
Definition bit_of (l : list Z) (cpu : CpuId) : bool :=
  match l !! Z.to_nat (cpu / 8) with Some byte => Z.testbit byte (cpu mod 8) | None => false end.

Lemma land_bit_zero a n : 0 <= n -> (Z.land a (Z.shiftl 1 n) =? 0) = negb (Z.testbit a n).
Proof.
  intros Hn. apply eq_true_iff_eq. rewrite negb_true_iff, Z.eqb_eq. split.
  - intros H. apply (f_equal (fun z => Z.testbit z n)) in H.
    rewrite Z.land_spec, Z.shiftl_spec, Z.bits_0, Z.sub_diag in H by lia. simpl in H.
    by rewrite andb_true_r in H.
  - intros H. apply Z.bits_inj'. intros m Hm.
    rewrite Z.land_spec, Z.shiftl_spec, Z.bits_0 by lia. destruct (decide (m = n)) as [->|Hne].
    + by rewrite H.
    + apply andb_false_iff. right. destruct (decide (m < n)); [by apply Z.testbit_neg_r; lia|].
      apply (Z.bits_above_log2 1 (m - n)); [lia|]. simpl. lia.
Qed.

Lemma set_mask_bit_length l cpu : length (set_mask_bit l cpu) = length l.
Proof. apply length_alter. Qed.

Lemma set_mask_bit_bit l cpu d :
  0 <= cpu -> 0 <= d -> cpu / 8 < Z.of_nat (length l) ->
  bit_of (set_mask_bit l cpu) d = bit_of l d || (d =? cpu).
Proof.
  intros Hc Hd Hl. unfold bit_of, set_mask_bit. set (f := fun byte => _).
  assert (Hq : 0 <= cpu / 8 /\ 0 <= d / 8) by (split; apply Z.div_pos; lia).
  destruct (lookup_lt_is_Some_2 l (Z.to_nat (cpu / 8)) ltac:(lia)) as [byte Hb].
  destruct (decide (cpu / 8 = d / 8)) as [E|E].
  - rewrite <- E, list_lookup_alter_eq, Hb. simpl. unfold f.
    rewrite Z.lor_spec, Z.shiftl_spec by (apply Z.mod_pos_bound; lia). f_equal.
    pose proof (Z.div_mod cpu 8 ltac:(lia)). pose proof (Z.div_mod d 8 ltac:(lia)).
    pose proof (Z.mod_pos_bound cpu 8 ltac:(lia)). pose proof (Z.mod_pos_bound d 8 ltac:(lia)).
    destruct (Z.eqb_spec d cpu) as [->|Hne]; [by rewrite Z.sub_diag|].
    destruct (decide (d mod 8 < cpu mod 8)); [by apply Z.testbit_neg_r; lia|].
    apply (Z.bits_above_log2 1); simpl; lia.
  - rewrite list_lookup_alter_ne by lia.
    destruct (Z.eqb_spec d cpu) as [->|]; [done|]. by rewrite orb_false_r.
Qed.

Lemma set_mask_bits l cs d :
  (forall c, c ∈ cs -> 0 <= c /\ c / 8 < Z.of_nat (length l)) -> 0 <= d ->
  bit_of (fold_left set_mask_bit cs l) d = bit_of l d || bool_decide (d ∈ cs).
Proof.
  revert l. induction cs as [|c cs IH]; intros l Hcs Hd; cbn [fold_left].
  - rewrite (bool_decide_eq_false_2 (d ∈ [])) by apply not_elem_of_nil. by rewrite orb_false_r.
  - destruct (Hcs c) as [Hc1 Hc2]; [by left|].
    rewrite IH, set_mask_bit_bit, <- orb_assoc; [|done..|intros; rewrite set_mask_bit_length; apply Hcs; by right|done].
    f_equal. rewrite (bool_decide_ext (d ∈ c :: cs) (d = c \/ d ∈ cs)) by apply elem_of_cons.
    rewrite bool_decide_or. f_equal. by destruct (Z.eqb_spec d c), (bool_decide_reflect (d = c)).
Qed.

Lemma last_cpu_max cpus m : last_cpu cpus = Some m -> m ∈ cpus /\ forall c, c ∈ cpus -> c <= m.
Proof.
  unfold last_cpu. intros [l Hl]%last_Some. pose proof (CpuSet_iter_sorted cpus) as Hs. rewrite Hl in Hs. split.
  - apply CpuSet_iter_elem. rewrite Hl. apply elem_of_app. right. by left.
  - intros c Hc%CpuSet_iter_elem. rewrite Hl in Hc. clear Hl.
    induction l as [|x l IH]; simpl in *.
    + apply list_elem_of_singleton in Hc as ->. lia.
    + apply StronglySorted_inv in Hs as [Hs Hx]. apply elem_of_cons in Hc as [->|Hc]; [|auto].
      rewrite Forall_forall in Hx. apply Hx, elem_of_app. right. by left.
Qed.

Lemma encode_cpu_mask_spec cpus d :
  (forall c, c ∈ cpus -> 0 <= c) -> 0 <= d -> bit_of (encode_cpu_mask cpus) d = bool_decide (d ∈ cpus).
Proof.
  intros Hpos Hd. unfold encode_cpu_mask. destruct (last_cpu cpus) as [m|] eqn:E.
  - apply last_cpu_max in E as [Hm Hmax].
    assert (Hm0 : 0 <= m / 8) by (apply Z.div_pos; [auto|lia]).
    rewrite set_mask_bits; [|intros c Hc%CpuSet_iter_elem|done].
    + assert (Hz : bit_of (replicate (Z.to_nat (m / 8 + 1)) 0) d = false).
      { unfold bit_of. destruct (replicate _ _ !! _) eqn:Er; [|done].
        apply lookup_replicate in Er as [-> _]. apply Z.bits_0. }
      rewrite Hz. simpl. apply bool_decide_ext, CpuSet_iter_elem.
    + rewrite length_replicate. split; [auto|]. pose proof (Z.div_le_mono c m 8 ltac:(lia) (Hmax c Hc)). lia.
  - apply last_None in E. rewrite bool_decide_eq_false_2; [done|].
    intros Hc%CpuSet_iter_elem. rewrite E in Hc. by apply elem_of_nil in Hc.
Qed.

Lemma encode_cpu_mask_length cpus m :
  last_cpu cpus = Some m -> length (encode_cpu_mask cpus) = Z.to_nat (m / 8 + 1).
Proof.
  unfold encode_cpu_mask. intros ->. set (k := Z.to_nat _). rewrite <- (length_replicate k 0) at 2.
  generalize (replicate k 0). induction (CpuSet_iter cpus) as [|c cs IH]; intros l; [done|].
  cbn [fold_left]. by rewrite IH, set_mask_bit_length.
Qed.

Section decoding.
Context (unit : string).

Lemma decode_bit_spec i byte cpus bit :
  0 <= i -> 0 <= bit -> i * 8 + bit <= u32_max ->
  decode_bit unit i byte cpus bit = inr (if Z.testbit byte bit then cpus ∪ {[ i * 8 + bit ]} else cpus).
Proof.
  intros Hi Hb Hm. unfold decode_bit. rewrite land_bit_zero by lia.
  destruct (Z.testbit byte bit); [|done]. simpl.
  rewrite (proj2 (Z.ltb_ge u32_max i)) by (unfold u32_max in *; lia).
  unfold checked_u32. rewrite (proj2 (Z.leb_le (i * 8) u32_max)) by lia. simpl.
  by rewrite (proj2 (Z.leb_le (i * 8 + bit) u32_max)) by lia.
Qed.

Lemma decode_bits_spec i byte bits cpus :
  0 <= i -> Forall (fun bit => 0 <= bit /\ i * 8 + bit <= u32_max) bits ->
  exists cpus', decode_bits unit i byte cpus bits = inr cpus' /\
    forall c, c ∈ cpus' <-> c ∈ cpus \/ exists bit, bit ∈ bits /\ Z.testbit byte bit = true /\ c = i * 8 + bit.
Proof.
  intros Hi. revert cpus. induction bits as [|bit bits IH]; intros cpus Hf; cbn [decode_bits].
  - exists cpus. split; [done|]. intros c. split; [by left|]. by intros [?|(bit & ?%elem_of_nil & _)].
  - apply Forall_cons in Hf as [[H1 H2] Hf]. rewrite decode_bit_spec by done.
    edestruct IH as (cpus' & -> & Hc); [done|]. exists cpus'. split; [done|]. intros c. rewrite Hc.
    setoid_rewrite elem_of_cons. destruct (Z.testbit byte bit) eqn:E.
    + rewrite elem_of_union, elem_of_singleton. split.
      * intros [[?|?]|(b & ? & ? & ?)]; [by left|right; exists bit; auto|right; exists b; auto].
      * intros [?|(b & [->|?] & ? & ?)]; [by left; left|by left; right|right; exists b; auto].
    + split.
      * intros [?|(b & ? & ? & ?)]; [by left|right; exists b; auto].
      * intros [?|(b & [->|?] & ? & ?)]; [by left|congruence|right; exists b; auto].
Qed.

Lemma bit_of_nil d : bit_of [] d = false.
Proof. done. Qed.

Lemma bit_of_cons byte l d :
  0 <= d -> bit_of (byte :: l) d = if d <? 8 then Z.testbit byte d else bit_of l (d - 8).
Proof.
  intros Hd. unfold bit_of. destruct (Z.ltb_spec d 8).
  - rewrite Z.div_small, Z.mod_small by lia. done.
  - assert (Ed : d / 8 = (d - 8) / 8 + 1) by (rewrite <- Z.div_add by lia; f_equal; lia).
    assert (Em : d mod 8 = (d - 8) mod 8) by (rewrite <- (Z.mod_add (d - 8) 1 8) by lia; f_equal; lia).
    assert (0 <= (d - 8) / 8) by (apply Z.div_pos; lia).
    rewrite Ed, Em. by replace (Z.to_nat ((d - 8) / 8 + 1)) with (S (Z.to_nat ((d - 8) / 8))) by lia.
Qed.

Lemma decode_bytes_spec l i cpus :
  0 <= i -> (i + Z.of_nat (length l)) * 8 <= u32_max + 1 ->
  exists cpus', decode_bytes unit i cpus l = inr cpus' /\
    forall c, c ∈ cpus' <-> c ∈ cpus \/ i * 8 <= c /\ bit_of l (c - i * 8) = true.
Proof.
  revert i cpus. induction l as [|byte l IH]; intros i cpus Hi Hl; cbn [decode_bytes].
  - exists cpus. split; [done|]. intros c. rewrite bit_of_nil. naive_solver.
  - cbn [length] in Hl.
    destruct (decode_bits_spec i byte (seqZ 0 8) cpus) as (cpus1 & -> & H1); [done| |].
    { apply Forall_forall. intros bit Hb%elem_of_seqZ. lia. }
    destruct (IH (i + 1) cpus1) as (cpus' & -> & H2); [lia..|].
    exists cpus'. split; [done|]. intros c. rewrite H2, H1. split.
    + intros [[?|(bit & Hb%elem_of_seqZ & Ht & ->)]|[Hc Ht]]; [by left|right..].
      * split; [lia|]. rewrite bit_of_cons, (proj2 (Z.ltb_lt _ _)) by lia. by replace (_ - _) with bit by lia.
      * split; [lia|]. rewrite bit_of_cons, (proj2 (Z.ltb_ge _ _)) by lia. rewrite <- Ht. f_equal. lia.
    + intros [?|[Hc Ht]]; [by left; left|]. rewrite bit_of_cons in Ht by lia.
      destruct (Z.ltb_spec (c - i * 8) 8).
      * left. right. exists (c - i * 8). rewrite elem_of_seqZ. repeat split; [lia..|done|lia].
      * right. split; [lia|]. rewrite <- Ht. f_equal. lia.
Qed.

Lemma decode_encode_mask cpus :
  cpus <> ∅ -> (forall c, c ∈ cpus -> is_u32 c) -> decode_cpu_mask unit (encode_cpu_mask cpus) = inr cpus.
Proof.
  intros Hne Hu. unfold decode_cpu_mask.
  destruct (last_cpu cpus) as [m|] eqn:Em.
  2:{ apply last_None in Em. destruct Hne. apply set_eq. intros c. rewrite <- CpuSet_iter_elem, Em.
      split; [by intros ?%elem_of_nil|by intros ?%not_elem_of_empty]. }
  pose proof (encode_cpu_mask_length _ _ Em) as Hlen. apply last_cpu_max in Em as [Hm _].
  apply Hu in Hm as Hm'. unfold is_u32 in Hm'.
  pose proof (Z.div_pos m 8 ltac:(lia) ltac:(lia)).
  assert (m / 8 < 536870912) by (apply Z.div_lt_upper_bound; unfold u32_max in *; lia).
  destruct (decode_bytes_spec (encode_cpu_mask cpus) 0 ∅) as (cpus' & -> & Hc);
    [done|rewrite Hlen, Z2Nat.id by lia; unfold u32_max in *; lia|].
  assert (cpus' = cpus) as ->.
  { apply set_eq. intros c. rewrite Hc. rewrite Z.sub_0_r. split.
    - intros [?%not_elem_of_empty|[Hlo Hb]]; [done|]. rewrite encode_cpu_mask_spec in Hb; [|intros; by apply Hu|lia].
      by apply bool_decide_eq_true in Hb.
    - intros Hin. right. pose proof (Hu _ Hin) as [? _]. split; [lia|].
      rewrite encode_cpu_mask_spec; [by apply bool_decide_eq_true|intros; by apply Hu|lia]. }
  unfold CpuSet_is_empty. by rewrite bool_decide_eq_false_2.
Qed.
End decoding.

(** What [validate_desired_properties] accepts, over CPUs of 32 bits. *)
Record settable (p : SystemdUnitProperties) : Prop := {
  sp_weight w : up_cpu_weight p = Some w -> MIN_CPU_WEIGHT <= w <= MAX_CPU_WEIGHT;
  sp_cpus s : up_allowed_cpus p = Some s -> s <> ∅ /\ forall c, c ∈ s -> is_u32 c;
}.

Lemma encode_nil cpus : encode_cpu_mask cpus = [] -> cpus <> ∅ -> (forall c, c ∈ cpus -> 0 <= c) -> False.
Proof.
  intros He Hne Hpos. destruct (set_choose_L cpus Hne) as [c Hc].
  pose proof (encode_cpu_mask_spec cpus c Hpos (Hpos _ Hc)) as Hb. rewrite He in Hb.
  symmetry in Hb. by apply bool_decide_eq_false in Hb.
Qed.

Lemma raw_of_settable unit p : settable p -> raw_to_domain unit (domain_to_raw p) = inr p.
Proof.
  intros [Hw Hc]. destruct p as [w s]. unfold raw_to_domain, domain_to_raw. simpl in *.
  assert (E : (if (default UNSET_CPU_WEIGHT w =? 0) || (default UNSET_CPU_WEIGHT w =? u64_max) then inr None
          else if (MIN_CPU_WEIGHT <=? default UNSET_CPU_WEIGHT w) && (default UNSET_CPU_WEIGHT w <=? MAX_CPU_WEIGHT)
          then inr (Some (default UNSET_CPU_WEIGHT w))
          else inl (InvalidData (dbus_resource unit)
                 ("systemd returned invalid CPUWeight " +:+ to_string (default UNSET_CPU_WEIGHT w))))
        = inr (A := PlatformError) w).
  { destruct w as [w|]; simpl; [|done]. specialize (Hw w eq_refl). unfold MIN_CPU_WEIGHT, MAX_CPU_WEIGHT in *.
    rewrite (proj2 (Z.eqb_neq w 0)), (proj2 (Z.eqb_neq w u64_max)) by (unfold u64_max; lia). simpl.
    by rewrite (proj2 (Z.leb_le 1 w)), (proj2 (Z.leb_le w 10000)) by lia. }
  rewrite E. destruct s as [s|]; simpl; [|done]. destruct (Hc s eq_refl) as [Hne Hu].
  rewrite bool_decide_eq_false_2 by (intros H; eapply encode_nil; [done..|intros; by apply Hu]).
  by rewrite decode_encode_mask.
Qed.

(** ** The transaction *)

Section transaction.
Context {W : Type} `{!SystemdBus W}.

(** No unit has changed. *)
Definition same_units (view : string -> W -> option RawUnitProperties) (w w' : W) : Prop :=
  forall u, view u w' = view u w.

(** The properties of each unit, and what the calls do to them: [unit_of] is
    the unit of an object path. *)
Record systemd_laws (view : string -> W -> option RawUnitProperties) (unit_of : string -> string) : Prop := {
  sl_online w r w' : read_online_list w = (r, w') -> same_units view w w';
  sl_proxy p i w r w' : bus_proxy p i w = (r, w') -> same_units view w w';
  sl_unit n w r w' : get_unit n w = (r, w') -> same_units view w w';
  sl_string p i f w r w' : get_string p i f w = (r, w') ->
    same_units view w w'
    /\ forall n, i = UNIT_INTERFACE -> f = "Id" -> r = inr n -> unit_of p = n;
  sl_u64 p i f w r w' : get_u64 p i f w = (r, w') ->
    same_units view w w'
    /\ forall v, f = "CPUWeight" -> r = inr v -> raw_weight <$> view (unit_of p) w = Some v;
  sl_bytes p i f w r w' : get_bytes p i f w = (r, w') ->
    same_units view w w'
    /\ forall l, f = "AllowedCPUs" -> r = inr l -> raw_cpus <$> view (unit_of p) w = Some l;
  sl_set u runtime x l w r w' :
    set_unit_properties u runtime [("CPUWeight", U64 x); ("AllowedCPUs", Bytes l)] w = (r, w') ->
    (forall u', u' <> u -> view u' w' = view u' w)
    /\ view u w' = match r with
                   | inr _ => Some {| raw_weight := x; raw_cpus := l |}
                   | inl _ => view u w
                   end;
}.

Context (view : string -> W -> option RawUnitProperties) (unit_of : string -> string).
Context (Hlaw : systemd_laws view unit_of).
Context (MAX_CPU : Z) (online_path : string).

Lemma same_units_trans w1 w2 w3 : same_units view w1 w2 -> same_units view w2 w3 -> same_units view w1 w3.
Proof. unfold same_units. intros H1 H2 u. by rewrite H2, H1. Qed.

Lemma with_bus_eq {A} operation (c : (BusError + A) * W) r w' :
  with_bus operation c = (r, w') -> exists r0, c = (r0, w') /\ forall a, r = inr a <-> r0 = inr a.
Proof.
  unfold with_bus. destruct c as [[e|a] w]; intros [= <- <-]; eexists; (split; [done|naive_solver]).
Qed.

(** A sequence of calls, none of which touches a unit. *)
Lemma and_then_same {A B} (m : sched_result A * W) (k : A -> W -> sched_result B * W) w r w' :
  and_then m k = (r, w') ->
  (forall r1 w1, m = (r1, w1) -> same_units view w w1) ->
  (forall a w1 r2 w2, m = (inr a, w1) -> k a w1 = (r2, w2) -> same_units view w1 w2) ->
  same_units view w w'.
Proof.
  unfold and_then. destruct m as [[e|a] w1]; intros H Hm Hk.
  - injection H as <- <-. by eapply Hm.
  - eapply same_units_trans; [by eapply Hm|by eapply Hk].
Qed.

Lemma manager_same w r w' : systemd_manager w = (r, w') -> same_units view w w'.
Proof. intros (r0 & E & _)%with_bus_eq. exact (sl_proxy _ _ Hlaw _ _ _ _ _ E). Qed.

Lemma resolve_unit_spec u w r w' :
  resolve_unit u w = (r, w') -> same_units view w w' /\ forall ru, r = inr ru -> unit_of (ru_path ru) = u.
Proof.
  unfold resolve_unit. destruct (systemd_validate_unit_name u) as [e|i]; cbn [and_then]; [by intros [= <- <-]|].
  destruct (systemd_manager w) as [r1 w1] eqn:E1. apply manager_same in E1.
  destruct r1 as [e|[]]; cbn [and_then]; [by intros [= <- <-]|].
  destruct (with_bus _ (get_unit u w1)) as [r2 w2] eqn:E2.
  apply with_bus_eq in E2 as (x2 & E2 & _). apply (sl_unit _ _ Hlaw) in E2.
  pose proof (same_units_trans _ _ _ E1 E2) as S2.
  destruct r2 as [e|p]; cbn [and_then]; [by intros [= <- <-]|].
  destruct (with_bus _ (bus_proxy p _ w2)) as [r3 w3] eqn:E3.
  apply with_bus_eq in E3 as (x3 & E3 & _). apply (sl_proxy _ _ Hlaw) in E3.
  pose proof (same_units_trans _ _ _ S2 E3) as S3.
  destruct r3 as [e|[]]; cbn [and_then]; [by intros [= <- <-]|].
  destruct (with_bus _ (get_string p _ _ w3)) as [r4 w4] eqn:E4.
  apply with_bus_eq in E4 as (x4 & E4 & V4). apply (sl_string _ _ Hlaw) in E4 as [E4 I4].
  pose proof (same_units_trans _ _ _ S3 E4) as S4.
  destruct r4 as [e|n]; cbn [and_then]; intros [= <- <-]; (split; [done|]); [done|].
  case_bool_decide; [|done]. intros ru [= <-]. simpl. subst n. apply I4; [done..|by apply V4].
Qed.

Lemma read_raw_spec u w r w' :
  read_raw u w = (r, w') -> same_units view w w' /\ forall raw, r = inr raw -> view u w = Some raw.
Proof.
  unfold read_raw. destruct (resolve_unit u w) as [r1 w1] eqn:E1. apply resolve_unit_spec in E1 as [S1 U1].
  destruct r1 as [e|[p i]]; cbn [and_then]; [by intros [= <- <-]|].
  specialize (U1 _ eq_refl). cbn [ru_path ru_interface] in *.
  destruct (with_bus _ (bus_proxy p i w1)) as [r2 w2] eqn:E2.
  apply with_bus_eq in E2 as (x2 & E2 & _). apply (sl_proxy _ _ Hlaw) in E2.
  pose proof (same_units_trans _ _ _ S1 E2) as S2.
  destruct r2 as [e|[]]; cbn [and_then]; [by intros [= <- <-]|].
  destruct (with_bus _ (get_u64 p i _ w2)) as [r3 w3] eqn:E3.
  apply with_bus_eq in E3 as (x3 & E3 & V3). apply (sl_u64 _ _ Hlaw) in E3 as [E3 I3].
  pose proof (same_units_trans _ _ _ S2 E3) as S3.
  destruct r3 as [e|x]; cbn [and_then]; [by intros [= <- <-]|].
  destruct (with_bus _ (get_bytes p i _ w3)) as [r4 w4] eqn:E4.
  apply with_bus_eq in E4 as (x4 & E4 & V4). apply (sl_bytes _ _ Hlaw) in E4 as [E4 I4].
  pose proof (same_units_trans _ _ _ S3 E4) as S4.
  destruct r4 as [e|l]; cbn [and_then]; intros [= <- <-]; (split; [done|]); [done|].
  intros raw [= <-]. specialize (I3 x eq_refl (proj1 (V3 _) eq_refl)).
  specialize (I4 l eq_refl (proj1 (V4 _) eq_refl)). rewrite U1 in I3, I4. rewrite (S2 u) in I3. rewrite (S3 u) in I4.
  destruct (view u w) as [[]|]; simpl in *; congruence.
Qed.

Lemma set_raw_spec u raw w r w' :
  set_raw u raw w = (r, w') ->
  (forall u', u' <> u -> view u' w' = view u' w)
  /\ view u w' = match r with inr _ => Some raw | inl _ => view u w end.
Proof.
  unfold set_raw. destruct (systemd_manager w) as [r1 w1] eqn:E1. apply manager_same in E1.
  destruct r1 as [e|[]]; cbn [and_then]; [by intros [= <- <-]|].
  intros (r0 & E2 & V2)%with_bus_eq. apply (sl_set _ _ Hlaw) in E2 as [H1 H2]. split.
  - intros u' Hu. by rewrite H1, (E1 u').
  - rewrite H2. destruct r as [e|[]], r0 as [e0|[]]; try done.
    + destruct (V2 tt) as [_ V]. discriminate (V eq_refl).
    + destruct (V2 tt) as [V _]. discriminate (V eq_refl).
    + by destruct raw.
Qed.

Lemma validate_desired_same d w r w' :
  validate_desired_properties MAX_CPU online_path d w = (r, w') -> same_units view w w'.
Proof.
  unfold validate_desired_properties. destruct (validate_weight d) as [e|[]]; cbn [and_then]; [by intros [= <- <-]|].
  destruct (up_allowed_cpus d) as [cpus|]; [|by intros [= <- <-]].
  destruct (CpuSet_is_empty cpus); [by intros [= <- <-]|].
  unfold read_online. destruct (read_online_list w) as [r1 w1] eqn:E1. apply (sl_online _ _ Hlaw) in E1.
  destruct (match r1 with inl _ => _ | inr _ => _ end); cbn [and_then]; by intros [= <- <-].
Qed.

(** The two failures a rollback may leave behind. *)
Definition unit_undone (u : string) (before : option RawUnitProperties) (e : PlatformError) (w : W) : Prop :=
  view u w = before \/ exists failure rollback, e = with_systemd_rollback u failure (inl rollback).

Lemma put_back_spec u original failure w r w' :
  restore_raw u original failure w = (r, w') ->
  (forall u', u' <> u -> view u' w' = view u' w)
  /\ exists e, r = inl e /\ unit_undone u (Some original) e w'.
Proof.
  unfold restore_raw. destruct (set_raw u original w) as [r1 w1] eqn:E. apply set_raw_spec in E as [H1 H2].
  intros [= <- <-]. split; [done|]. eexists. split; [done|].
  destruct r1 as [e|[]]; [by right; exists failure, e|by left].
Qed.

Lemma write_unit_properties_spec u d w r w' :
  write_unit_properties_owner MAX_CPU online_path u d w = (r, w') ->
  (forall u', u' <> u -> view u' w' = view u' w)
  /\ match r with
     | inr got => got = d /\ view u w' = Some (domain_to_raw d)
     | inl e => unit_undone u (view u w) e w'
     end.
Proof.
  unfold write_unit_properties_owner, unit_undone. destruct (systemd_validate_unit_name u) as [e|i]; cbn [and_then].
  { intros [= <- <-]. eauto. }
  destruct (validate_desired_properties MAX_CPU online_path d w) as [r1 w1] eqn:E1.
  apply validate_desired_same in E1.
  destruct r1 as [e|[]]; cbn [and_then]; [intros [= <- <-]; eauto|].
  destruct (read_raw u w1) as [r2 w2] eqn:E2. apply read_raw_spec in E2 as [E2 I2].
  pose proof (same_units_trans _ _ _ E1 E2) as S2.
  destruct r2 as [e|original]; cbn [and_then]; [intros [= <- <-]; eauto|].
  specialize (I2 _ eq_refl). rewrite (E1 u) in I2.
  destruct (set_raw u (domain_to_raw d) w2) as [r3 w3] eqn:E3. apply set_raw_spec in E3 as [O3 H3].
  assert (Ho : forall u', u' <> u -> view u' w3 = view u' w) by (intros; rewrite O3 by done; apply S2).
  destruct r3 as [e|[]]; cbn [and_then].
  { intros [= <- <-]. split; [done|]. left. by rewrite H3. }
  unfold read_unit_properties_owner. destruct (read_raw u w3) as [r4 w4] eqn:E4.
  apply read_raw_spec in E4 as [E4 I4].
  assert (Ho4 : forall u', u' <> u -> view u' w4 = view u' w) by (intros; rewrite (E4 u'); auto).
  assert (Hback : forall failure r w', restore_raw u original failure w4 = (r, w') ->
    (forall u', u' <> u -> view u' w' = view u' w)
    /\ match r with
       | inr got => got = d /\ view u w' = Some (domain_to_raw d)
       | inl e => unit_undone u (view u w) e w'
       end).
  { intros f r' w'' [H1 (e & -> & H2)]%put_back_spec. rewrite I2.
    split; [intros u' Hu'; rewrite (H1 _ Hu'); auto|done]. }
  destruct r4 as [e|raw]; cbn [and_then]; [apply Hback|].
  destruct (raw_to_domain u raw) as [e|got]; [apply Hback|].
  unfold unit_matches_desired. case_bool_decide as Hgot; [|apply Hback].
  intros [= <- <-]. split; [done|]. split; [done|]. by rewrite (E4 u).
Qed.
End transaction.

(** ** The queue *)

Section queue.
Context {W : Type} `{!SystemdBus W}.
Context (MAX_CPU : Z) (online_path : string) (env : W -> W -> Prop).

(** Every accepted request is answered or waits, in the order of acceptance. *)
Record queue_inv (w0 : W) (b : Bus) : Prop := {
  qi_sequential : sequential MAX_CPU online_path env w0 (bu_log b) (bu_world b);
  qi_numbers : (sv_number <$> bu_log b) ++ (oq_requests (bu_queue b)).*1 = seq 0 (oq_next (bu_queue b));
  qi_requests : (sv_request <$> bu_log b) ++ (oq_requests (bu_queue b)).*2 = bu_accepted b;
  qi_bounded : (length (oq_requests (bu_queue b)) <= OWNER_QUEUE_CAPACITY)%nat;
  qi_closed : oq_open (bu_queue b) = false -> oq_requests (bu_queue b) = [];
}.

Lemma sequential_gone w0 log w entries :
  sequential MAX_CPU online_path env w0 log w ->
  sequential MAX_CPU online_path env w0 (log ++ (gone <$> entries)) w.
Proof.
  revert log. induction entries as [|[n r] entries IH]; intros log H; cbn [fmap list_fmap].
  - by rewrite app_nil_r.
  - rewrite cons_middle, app_assoc. by apply IH, seq_gone.
Qed.

Lemma owner_step_inv w0 b b' :
  queue_inv w0 b -> owner_step MAX_CPU online_path env b b' -> queue_inv w0 b'.
Proof.
  intros [H1 H2 H3 H4 H5] Hs.
  destruct Hs as [[[rs op nx] acc log w] request|[[rs op nx] acc log w] number request rest reply w' Ho Hq Hh
    |[[rs op nx] acc log w]|[[rs op nx] acc log w] w' He];
    cbn [bu_queue bu_accepted bu_log bu_world oq_requests oq_open oq_next] in *.
  - unfold try_request. cbn [oq_requests oq_open oq_next]. destruct op; cbn [negb]; [|by constructor].
    destruct (Nat.leb OWNER_QUEUE_CAPACITY (length rs)) eqn:El; [by constructor|]. apply Nat.leb_gt in El.
    constructor; cbn; unfold constant; [done|..|done].
    + rewrite fmap_app, app_assoc, H2. symmetry. apply (seq_S nx 0).
    + by rewrite fmap_app, app_assoc, H3.
    + rewrite length_app. cbn. lia.
  - subst rs op. constructor; cbn in *; unfold constant in *; [by eapply seq_handle|..|lia|done].
    + by rewrite fmap_app, <- app_assoc.
    + by rewrite fmap_app, <- app_assoc.
  - constructor; cbn; unfold constant; [by apply sequential_gone|..|lia|done].
    + by rewrite fmap_app, app_nil_r, <- list_fmap_compose.
    + by rewrite fmap_app, app_nil_r, <- list_fmap_compose.
  - constructor; cbn; unfold constant; try done. by eapply seq_elsewhere.
Qed.

Lemma new_bus_inv w : queue_inv w (new_bus w).
Proof. constructor; simpl; [constructor|done..|unfold OWNER_QUEUE_CAPACITY; lia|done]. Qed.

Lemma owner_steps_inv w0 b b' :
  queue_inv w0 b -> rtc (owner_step MAX_CPU online_path env) b b' -> queue_inv w0 b'.
Proof. intros H. induction 1; eauto using owner_step_inv. Qed.
End queue.

(** * The theorems *)

(** A bus with one scope; after the first write, [bs_mute] makes its properties
    unreadable. An object path is the name of its unit. *)
Record BusSim := {
  bs_units : gmap string RawUnitProperties;
  bs_mute : bool;
  bs_writes : list RawUnitProperties;
}.

Definition no_reply : BusError := {| be_kind := OtherBusError; be_text := "no reply" |}.
Definition no_such_unit : BusError :=
  {| be_kind := MethodError "org.freedesktop.systemd1.NoSuchUnit"; be_text := "unit not loaded" |}.

Definition sim_property {A} (w : BusSim) (p : string) (get : RawUnitProperties -> A) : BusError + A :=
  match bs_units w !! p with
  | None => inl no_such_unit
  | Some raw => if bs_mute w && Nat.eqb (length (bs_writes w)) 1 then inl no_reply else inr (get raw)
  end.

Definition sim_set (u : string) (properties : list (string * Value)) (w : BusSim) : (BusError + ()) * BusSim :=
  match properties with
  | [(_, U64 x); (_, Bytes l)] =>
      let raw := {| raw_weight := x; raw_cpus := l |} in
      (inr tt, w <|bs_units := <[u := raw]> (bs_units w)|> <|bs_writes := bs_writes w ++ [raw]|>)
  | _ => (inl no_reply, w)
  end.

#[export] Instance sim_bus : SystemdBus BusSim := {
  spawn_owner w := (inr tt, w);
  build_runtime w := (inr tt, w);
  configure_bus _ w := (inr tt, w);
  connect_bus w := (inr tt, w);
  bus_proxy _ _ w := (inr tt, w);
  get_unit u w := (match bs_units w !! u with Some _ => inr u | None => inl no_such_unit end, w);
  get_unit_by_pid _ w := (inl {| be_kind := MethodError "org.freedesktop.systemd1.NoUnitForPID"; be_text := "" |}, w);
  get_unit_processes u w := (inr [("/", 42, "game"); ("/", 7, "sh"); ("/", 42, "game")], w);
  set_unit_properties u _ properties w := sim_set u properties w;
  get_string p _ f w := (inr (if bool_decide (f = "Id") then p else "/user.slice/" +:+ p), w);
  get_u64 p _ f w := (sim_property w p raw_weight, w);
  get_bytes p _ f w :=
    (if bool_decide (f = "InvocationID") then inl {| be_kind := FdoUnknownProperty; be_text := "" |}
     else sim_property w p raw_cpus, w);
  read_online_list w := (inr "0-7", w);
}.

Lemma sim_bus_laws : systemd_laws (fun u w => bs_units w !! u) (fun p => p).
Proof.
  assert (Hp : forall A w p (get : RawUnitProperties -> A) v,
    sim_property w p get = inr v -> get <$> bs_units w !! p = Some v).
  { intros A w p get v. unfold sim_property. destruct (bs_units w !! p); [|done]. simpl.
    destruct (_ && _); [done|]. by intros [= <-]. }
  constructor; simpl.
  - by intros w r w' [= <- <-].
  - by intros p i w r w' [= <- <-].
  - by intros n w r w' [= <- <-].
  - intros p i f w r w' [= <- <-]. split; [done|]. by intros n -> -> [= <-].
  - intros p i f w r w' [= <- <-]. split; [done|]. intros v _. apply Hp.
  - intros p i f w r w' [= <- <-]. split; [done|]. by intros l -> Hr%Hp.
  - intros u runtime x l w r w' [= <- <-]. simpl. unfold constant. split; [|by rewrite lookup_insert_eq].
    intros u' Hu. by rewrite lookup_insert_ne.
Qed.

Definition game : string := "app-game.scope".
Definition game_raw : RawUnitProperties := {| raw_weight := u64_max; raw_cpus := [] |}.
Definition game_desired : SystemdUnitProperties :=
  {| up_cpu_weight := Some 800; up_allowed_cpus := Some {[ 0; 5; 7 ]} |}.
Definition bus (mute : bool) : BusSim :=
  {| bs_units := {[ game := game_raw; "other.scope" := game_raw ]}; bs_mute := mute; bs_writes := [] |}.


Definition sim_write (mute : bool) : sched_result SystemdUnitProperties * BusSim :=
  write_unit_properties_owner 1024 ONLINE_CPUS game game_desired (bus mute).


(** Every set of properties that may be requested survives the exchange
    format: the weight and the CPUs encoded for systemd, [None] as the value
    that resets a property, decode to the same properties. *)
Theorem unit_properties_round_trip unit p :
  settable p -> raw_to_domain unit (domain_to_raw p) = inr p.
Proof. apply raw_of_settable. Qed.

Definition sparse_cpus : CpuSet := CpuSet_from_ids [0; 7; 8; 65; 511].
Definition sparse : SystemdUnitProperties :=
  {| up_cpu_weight := None; up_allowed_cpus := Some sparse_cpus |}.

Lemma unit_properties_round_trip_witness :
  length (raw_cpus (domain_to_raw sparse)) = 64%nat
  /\ raw_to_domain game (domain_to_raw sparse) = inr sparse.
Proof.
  split; [vm_compute; reflexivity|]. apply unit_properties_round_trip. constructor; [done|].
  intros s Hs. change (Some sparse_cpus = Some s) in Hs. apply (inj Some) in Hs. subst s.
  split; [intros H; apply (f_equal (fun s => bool_decide (0 ∈ s))) in H; vm_compute in H; discriminate|].
  intros c Hc. unfold sparse_cpus, CpuSet_from_ids in Hc. apply elem_of_list_to_set in Hc.
  apply (proj1 (Forall_forall (fun c => is_u32 c) [0; 7; 8; 65; 511])); [|done].
  apply (bool_decide_unpack _). vm_compute. exact Logic.I.
Defined.


(** Two clones ask, the owner serves one and ends. *)
Definition after_two : Bus :=
  {| bu_queue := {| oq_requests := [(0%nat, WriteUnitProperties game game_desired); (1%nat, UnitProcesses game)];
                    oq_open := true; oq_next := 2%nat |};
     bu_accepted := [WriteUnitProperties game game_desired; UnitProcesses game];
     bu_log := []; bu_world := bus false |}.

Definition served_write : SystemdReply * BusSim :=
  handle_request 1024 ONLINE_CPUS (WriteUnitProperties game game_desired) (bus false).

Definition after_end : Bus :=
  {| bu_queue := {| oq_requests := []; oq_open := false; oq_next := 2%nat |};
     bu_accepted := [WriteUnitProperties game game_desired; UnitProcesses game];
     bu_log := [{| sv_number := 0%nat; sv_request := WriteUnitProperties game game_desired;
                   sv_answer := inr served_write.1 |};
                {| sv_number := 1%nat; sv_request := UnitProcesses game;
                   sv_answer := inl (owner_unavailable "enumerate systemd unit processes") |}];
     bu_world := served_write.2 |}.


(** A weight of zero, which systemd keeps for [CPUWeight=idle], reads as an
    absent weight, and an absent weight is written back as the value that
    resets the property. *)
Lemma idle_weight_not_restored :
  raw_to_domain game {| raw_weight := 0; raw_cpus := [] |} = inr {| up_cpu_weight := None; up_allowed_cpus := None |}
  /\ domain_to_raw {| up_cpu_weight := None; up_allowed_cpus := None |}
     = {| raw_weight := 18446744073709551615; raw_cpus := [] |}.
Proof. done. Qed.
