(* ===== verification/Procfs.v ===== *)
(** * Reading procfs ([uperf-linux/src/procfs.rs])

    The identity of a process, its threads, and the tick counters of the CPUs.
    Files and directories are read through a class, and paths are their text. *)

From stdpp Require Import pretty.
From S2P Require Import Prelude Float64 Domain Text Strings ActuatorTypes DaemonTypes Touch Evdev LinuxScheduler.

(** ** Parsing *)

Definition open_parenthesis : Ascii.ascii := Ascii.ascii_of_nat 40.
Definition close_parenthesis : Ascii.ascii := Ascii.ascii_of_nat 41.

Record ParsedProcessStat := { pps_comm : string; pps_start_time_ticks : Z }.

(** [str::from_utf8] with its error mapped. *)
Definition utf8_or (path what : string) (l : list Ascii.ascii) : sched_result string :=
  match from_utf8 l with
  | Some s => inr s
  | None => inl (InvalidData path (what +:+ utf8_error (length l) 0 l))
  end.

Definition parse_process_stat_bytes (path : string) (contents : list Ascii.ascii) (expected_pid : Z)
  : sched_result ParsedProcessStat :=
  match position open_parenthesis contents with
  | None => inl (InvalidData path "missing command opening parenthesis")
  | Some opening =>
      match (match rposition close_parenthesis contents with
             | Some closing => if (opening <? closing)%nat then Some closing else None
             | None => None
             end) with
      | None => inl (InvalidData path "missing command closing parenthesis")
      | Some closing =>
          ok pid_text := utf8_or path "invalid PID bytes: " (take opening contents) in
          ok parsed_pid := parse_or path "invalid PID: " u32_max (trim_str pid_text) in
          if negb (parsed_pid =? expected_pid)
          then inl (InvalidData path ("PID in stat (" +:+ to_string parsed_pid +:+ ") differs from directory ("
                                      +:+ to_string expected_pid +:+ ")"))
          else
            ok tail_text := utf8_or path "invalid stat fields: " (drop (S closing) contents) in
            match split_whitespace tail_text !! 19%nat with
            | None => inl (InvalidData path "stat has fewer than 22 fields")
            | Some field =>
                ok start_time := parse_or path "invalid starttime: " u64_max field in
                inr {| pps_comm := from_utf8_lossy (drop (S opening) (take closing contents));
                       pps_start_time_ticks := start_time |}
            end
      end
  end.

(** [collect] of the parsed values: the first error, or all of them. *)
Fixpoint parse_all (path what : string) (maximum : Z) (values : list string) : sched_result (list Z) :=
  match values with
  | [] => inr []
  | value :: values =>
      ok v := parse_or path what maximum value in
      ok vs := parse_all path what maximum values in
      inr (v :: vs)
  end.

Definition parse_uids (path contents : string) : sched_result (list Z) :=
  match List.find (starts_with "Uid:") (lines contents) with
  | None => inl (InvalidData path "missing Uid line")
  | Some uid_line =>
      ok values := parse_all path "invalid UID: " u32_max
                     (split_whitespace (of_bytes (drop 4 (bytes uid_line)))) in
      if (length values =? 4)%nat then inr values
      else inl (InvalidData path ("Uid line has " +:+ to_string (Z.of_nat (length values))
                                  +:+ " values instead of four"))
  end.

Definition parse_cpu_line (path l : string) : sched_result CpuTimes :=
  ok values := parse_all path "invalid counter: " u64_max (tail (split_whitespace l)) in
  match values with
  | user :: nice :: system :: idle :: rest =>
      let get k := unwrap_or (rest !! k) 0 in
      inr {| ct_user := user; ct_nice := nice; ct_system := system; ct_idle := idle;
             ct_io_wait := get 0%nat; ct_irq := get 1%nat; ct_soft_irq := get 2%nat; ct_steal := get 3%nat |}
  | _ => inl (InvalidData path "cpu line has fewer than four counters")
  end.

(** The aggregate line, and a line for each CPU. *)
Definition cpu_times_line (path : string) (acc : option CpuTimes * gmap CpuId CpuTimes) (l : string)
  : sched_result (option CpuTimes * gmap CpuId CpuTimes) :=
  let '(aggregate, cpus) := acc in
  match split_whitespace l with
  | [] => inr acc
  | label :: _ =>
      if negb (starts_with "cpu" label) then inr acc
      else
        ok times := parse_cpu_line path l in
        if bool_decide (label = "cpu") then
          if is_some aggregate then inl (InvalidData path "duplicate aggregate cpu line")
          else inr (Some times, cpus)
        else
          ok id := parse_or path "invalid CPU label: " u32_max (of_bytes (drop 3 (bytes label))) in
          if is_some (cpus !! id) then inl (InvalidData path ("duplicate cpu" +:+ to_string id +:+ " line"))
          else inr (aggregate, <[id := times]> cpus)
  end.

Fixpoint cpu_times_lines (path : string) (acc : option CpuTimes * gmap CpuId CpuTimes) (ls : list string)
  : sched_result (option CpuTimes * gmap CpuId CpuTimes) :=
  match ls with
  | [] => inr acc
  | l :: ls => ok acc := cpu_times_line path acc l in cpu_times_lines path acc ls
  end.

Definition parse_cpu_times (path contents : string) (observed_at : Z) : sched_result CpuTimeSnapshot :=
  ok (aggregate, cpus) := cpu_times_lines path (None, ∅) (lines contents) in
  match aggregate with
  | None => inl (InvalidData path "missing aggregate cpu line")
  | Some aggregate => inr {| observed_at := observed_at; aggregate := aggregate; snapshot_cpus := cpus |}
  end.

(** ** The adapter *)

Class ProcKernel (W : Type) := {
  (** [fs::read] *)
  read_bytes : string -> W -> (IoError + list Ascii.ascii) * W;
  (** [fs::read_to_string] *)
  read_text : string -> W -> (IoError + string) * W;
  (** [fs::read_link], its bytes *)
  read_link : string -> W -> (IoError + list Ascii.ascii) * W;
  (** [fs::read_dir]: the names of the entries, or the error of one *)
  read_dir_names : string -> W -> (IoError + list (IoError + list Ascii.ascii)) * W;
  (** milliseconds since the clock was made *)
  proc_elapsed : W -> Z * W;
}.

Section procfs.
Context {W : Type} `{!ProcKernel W}.
Context (root : string).

Definition join_path (directory name : string) : string := directory +:+ "/" +:+ name.

(** [LinuxClock::monotonic_millis] *)
Definition monotonic_millis (w : W) : MonotonicMillis * W :=
  let '(millis, w) := proc_elapsed w in (Z.min millis u64_max, w).

(** [map_proc_io] *)
Definition map_proc_io (operation path : string) (e : IoError) : PlatformError := map_process_io operation path e.

Definition cpu_times (w : W) : sched_result CpuTimeSnapshot * W :=
  let path := join_path root "stat" in
  let '(r, w) := read_text path w in
  match r with
  | inl e => (inl (platform_io "read" path e), w)
  | inr contents => let '(now, w) := monotonic_millis w in (parse_cpu_times path contents now, w)
  end.

(** The entries whose names are numbers. *)
Fixpoint numeric_entries (directory operation : string) (entries : list (IoError + list Ascii.ascii))
  : sched_result (list Z) :=
  match entries with
  | [] => inr []
  | inl e :: _ => inl (platform_io operation directory e)
  | inr name :: entries =>
      ok ids := numeric_entries directory operation entries in
      match from_utf8 name with
      | None => inr ids
      | Some name => match parse_u32 name with Some id => inr (id :: ids) | None => inr ids end
      end
  end.

Definition list_numeric_directories (directory operation : string) (w : W) : sched_result (list Z) * W :=
  let '(r, w) := read_dir_names directory w in
  (match r with
   | inl e => inl (platform_io operation directory e)
   | inr entries =>
       ok ids := numeric_entries directory operation entries in
       inr (merge_sort Z.le ids)
   end, w).

Definition list_processes (w : W) : sched_result (list Z) * W :=
  list_numeric_directories root "list processes" w.

Definition list_threads (process : Z) (w : W) : sched_result (list Z) * W :=
  list_numeric_directories (join_path (join_path root (to_string process)) "task") "list process tasks" w.

(** [fs::read] with its error mapped *)
Definition read_proc (path : string) (w : W) : sched_result (list Ascii.ascii) * W :=
  syscall "read" path (read_bytes path w).

Definition executable_of (directory : string) (r : IoError + list Ascii.ascii) : sched_result (option string) :=
  match r with
  | inr path => inr (Some (from_utf8_lossy path))
  | inl e =>
      match io_kind e with
      | NotFound | PermissionDenied => inr None
      | _ => inl (map_proc_io "read link" (join_path directory "exe") e)
      end
  end.

Definition process_identity (process : Z) (w : W) : sched_result ProcessInfo * W :=
  let directory := join_path root (to_string process) in
  let stat_path := join_path directory "stat" in
  let status_path := join_path directory "status" in
  and_then (read_proc stat_path w) (fun stat w =>
  and_then (parse_process_stat_bytes stat_path stat process, w) (fun before w =>
  and_then (read_proc status_path w) (fun status w =>
  and_then (parse_uids status_path (from_utf8_lossy status), w) (fun uids w =>
  let uid := nth 0 uids 0 in
  let owner_control_safe := forallb (fun candidate => candidate =? uid) uids in
  let '(link, w) := read_link (join_path directory "exe") w in
  and_then (executable_of directory link, w) (fun executable w =>
  and_then (read_proc stat_path w) (fun stat w =>
  and_then (parse_process_stat_bytes stat_path stat process, w) (fun after w =>
  (if negb (pps_start_time_ticks before =? pps_start_time_ticks after)
   then inl (Disappeared ("process " +:+ to_string process +:+ " changed identity while procfs was sampled"))
   else
     inr {| identity := {| pid := process; start_time_ticks := pps_start_time_ticks after; uid := uid |};
            owner_control_safe := owner_control_safe; comm := pps_comm after; executable := executable;
            desktop_id := None |}, w)))))))).
End procfs.

(** * What the readers of procfs read back

    The record of a task is read back whatever its command name holds, and an
    identity is never made of two processes that had the same number. *)

(** ** The record of a task *)

(** [/proc/<pid>/stat]: the number, the command name, and the fields from
    [state] on. *)
Definition stat_record (p : Z) (name : list Ascii.ascii) (ws : list string) : list Ascii.ascii :=
  (bytes (to_string p) ++ [space]) ++ open_parenthesis :: name
  ++ close_parenthesis :: space :: bytes (fields ws +:+ String newline "").

(** The fields are words without parentheses. *)
Definition stat_words (ws : list string) : Prop :=
  Forall (fun w => word w /\ close_parenthesis ∉ bytes w) ws.

Lemma stat_words_word ws : stat_words ws -> Forall word ws.
Proof. intros H. eapply Forall_impl; [exact H|]. by intros ? []. Qed.

Lemma blank_newline : blank newline.
Proof. split; [unfold plain|]; vm_compute; done. Qed.

Lemma fields_close ws : stat_words ws -> close_parenthesis ∉ bytes (fields ws +:+ String newline "").
Proof.
  intros Hws. rewrite bytes_app. apply not_elem_of_app. split; [|by intros Hin%list_elem_of_singleton].
  induction Hws as [|w ws [_ Hw] Hws IH]; [apply not_elem_of_nil|].
  destruct ws as [|w' ws]; [done|].
  change (fields (w :: w' :: ws)) with (w +:+ String space (fields (w' :: ws))).
  rewrite bytes_app, bytes_cons. apply not_elem_of_app. split; [done|]. by apply not_elem_of_cons.
Qed.

Lemma tail_words ws :
  stat_words ws -> split_whitespace (of_bytes (space :: bytes (fields ws +:+ String newline ""))) = ws.
Proof.
  intros Hws%stat_words_word. change (split_whitespace (String space (of_bytes (bytes (fields ws +:+ String newline "")))) = ws).
  rewrite of_bytes_bytes, split_whitespace_blank; [|apply blank_space|].
  - apply split_whitespace_fields_end; [done|apply blank_newline].
  - rewrite bytes_app. apply Forall_app. split; [by apply join_plain|]. by repeat constructor.
Qed.

(** The process reader finds the name between the first opening and the last
    closing parenthesis. *)
Lemma parse_process_stat_record path p name ws start :
  0 <= p <= u32_max -> 0 <= start <= u64_max -> stat_words ws -> ws !! 19%nat = Some (to_string start) ->
  parse_process_stat_bytes path (stat_record p name ws) p
  = inr {| pps_comm := from_utf8_lossy name; pps_start_time_ticks := start |}.
Proof.
  intros Hp Hs Hws Hf. unfold parse_process_stat_bytes, stat_record.
  set (P := bytes (to_string p) ++ [space]). set (T := space :: bytes _).
  assert (HP : open_parenthesis ∉ P).
  { subst P. apply not_elem_of_app. split; [|by intros Hin%list_elem_of_singleton].
    by apply digits_not_elem; [apply to_string_digits; lia|]. }
  assert (HT : close_parenthesis ∉ T).
  { subst T. apply not_elem_of_cons. split; [done|]. by apply fields_close. }
  rewrite position_app by done.
  replace (P ++ open_parenthesis :: name ++ close_parenthesis :: T)
    with ((P ++ open_parenthesis :: name) ++ close_parenthesis :: T) by (by rewrite <- app_assoc).
  rewrite rposition_app by done. rewrite length_app. simpl length.
  rewrite (proj2 (Nat.ltb_lt _ _)) by lia.
  assert (Htake : take (length P) ((P ++ open_parenthesis :: name) ++ close_parenthesis :: T) = P).
  { rewrite <- app_assoc. apply take_app_length. }
  assert (Hdrop : drop (S (length P + S (length name)))
    ((P ++ open_parenthesis :: name) ++ close_parenthesis :: T) = T).
  { rewrite cons_middle, app_assoc. apply drop_app_length'. rewrite !length_app. simpl. lia. }
  assert (Hname : drop (S (length P)) (take (length P + S (length name))
    ((P ++ open_parenthesis :: name) ++ close_parenthesis :: T)) = name).
  { rewrite take_app_length' by (rewrite length_app; simpl; lia). rewrite cons_middle, app_assoc.
    apply drop_app_length'. rewrite length_app. simpl. lia. }
  rewrite Htake, Hdrop, Hname. unfold utf8_or.
  assert (HPp : Forall plain P).
  { subst P. apply Forall_app. split; [|by repeat constructor].
    eapply Forall_impl; [apply to_string_graphic|apply graphic_plain]. }
  rewrite from_utf8_plain by done.
  assert (Htrim : trim_str (of_bytes P) = to_string p).
  { subst P. replace (bytes (to_string p) ++ [space]) with (bytes (to_string p +:+ String space ""))
      by (by rewrite bytes_app). rewrite of_bytes_bytes.
    apply trim_str_end; [apply word_to_string|apply blank_space]. }
  rewrite Htrim. unfold parse_or at 1. rewrite parse_unsigned_to_string, Z.eqb_refl by done. simpl negb.
  rewrite from_utf8_plain.
  2: { subst T. constructor; [apply blank_space|]. rewrite bytes_app. apply Forall_app.
       split; [by apply join_plain, stat_words_word|]. by repeat constructor. }
  subst T. rewrite tail_words, Hf by done. unfold parse_or. by rewrite parse_unsigned_to_string.
Qed.

(** The scheduler's reader takes what follows the last [") "]. *)
Lemma after_last_comm_app l k :
  close_parenthesis ∉ k -> after_last_comm (l ++ close_parenthesis :: space :: k) = Some k.
Proof.
  intros Hk. assert (Hnone : forall m, close_parenthesis ∉ m -> after_last_comm m = None).
  { intros m. induction m as [|c m IH]; intros Hm; [done|]. simpl. rewrite IH by set_solver.
    destruct m; [done|]. rewrite bool_decide_eq_false_2; [done|]. intros [-> _]. apply Hm. by left. }
  induction l as [|c l IH].
  - rewrite app_nil_l. cbn [after_last_comm].
    assert (Hn : close_parenthesis ∉ space :: k) by (by apply not_elem_of_cons).
    pose proof (Hnone _ Hn) as E. cbn [after_last_comm] in E. rewrite E. by rewrite bool_decide_eq_true_2.
  - simpl. by rewrite IH.
Qed.

(** What a class reports as its priority. *)
Definition stat_priority (c : SchedulingClass) (rt : option Z) : Z :=
  match c with Fifo => unwrap_or rt 0 | _ => 0 end.
Definition linux_policy (c : SchedulingClass) : Z :=
  match c with Other => 0 | Fifo => 1 | Batch => 3 | IdleClass => 5 end.

Lemma parse_scheduler_stat_record path p name ws c rt reset_on_fork :
  match c with Fifo => exists prio, rt = Some prio /\ 1 <= prio <= 99 | _ => rt = None end ->
  stat_words ws ->
  ws !! 37%nat = Some (to_string (stat_priority c rt)) ->
  ws !! 38%nat = Some (to_string (linux_policy c + if reset_on_fork : bool then 0x40000000 else 0)) ->
  parse_scheduler_stat path (of_bytes (stat_record p name ws))
  = inr {| pss_policy := c; pss_rt_priority := rt |}.
Proof.
  intros Hrt Hws H37 H38. unfold parse_scheduler_stat, stat_record. rewrite bytes_of_bytes.
  change (?a ++ open_parenthesis :: name ++ ?t) with (a ++ (open_parenthesis :: name) ++ t).
  rewrite app_assoc, after_last_comm_app by (by apply fields_close).
  assert (Hs : split_whitespace (of_bytes (bytes (fields ws +:+ String newline ""))) = ws).
  { rewrite of_bytes_bytes. apply split_whitespace_fields_end; [by apply stat_words_word|apply blank_newline]. }
  rewrite Hs, H37, H38. unfold parse_or.
  assert (Hb : 0 <= stat_priority c rt <= 99).
  { destruct c; try (simpl; lia). destruct Hrt as (prio & -> & ?). simpl. lia. }
  rewrite parse_unsigned_to_string by (unfold u32_max; lia).
  rewrite parse_unsigned_to_string by (destruct c, reset_on_fork; vm_compute; done).
  assert (Hc : scheduling_class_from_linux path (linux_policy c + if reset_on_fork then 0x40000000 else 0) = inr c)
    by (destruct c, reset_on_fork; vm_compute; done).
  rewrite Hc. destruct c; try (by subst rt). destruct Hrt as (prio & -> & ?). simpl stat_priority in *.
  rewrite (proj2 (Z.leb_le _ u8_max)) by (unfold u8_max; lia). simpl.
  unfold LINUX_RT_PRIORITY_MAX. by rewrite (proj2 (Z.leb_le 1 _)), (proj2 (Z.leb_le _ 99)) by lia.
Qed.

(** ** The users of a task *)

Definition tab : Ascii.ascii := Ascii.ascii_of_nat 9.

(** The [Uid:] line of [/proc/<pid>/status], after the lines [before]. *)
Definition uid_line (uids : list Z) : string :=
  "Uid:" +:+ foldr (fun u s => String tab (to_string u +:+ s)) "" uids.
Definition status_text (before : list string) (uids : list Z) (after : list string) : string :=
  foldr (fun l s => l +:+ String newline s) "" (before ++ uid_line uids :: after).

Lemma blank_tab : blank tab.
Proof. split; [unfold plain|]; vm_compute; done. Qed.

Lemma to_string_plain z : Forall plain (bytes (to_string z)).
Proof. eapply Forall_impl; [apply to_string_graphic|apply graphic_plain]. Qed.

Lemma tab_fields_plain us : Forall plain (bytes (foldr (fun u s => String tab (to_string u +:+ s)) "" us)).
Proof.
  induction us as [|u us IH]; [constructor|]. cbn [foldr]. rewrite bytes_cons, bytes_app. constructor; [done|].
  apply Forall_app. split; [apply to_string_plain|done].
Qed.

Lemma split_tab_fields us :
  split_whitespace (foldr (fun u s => String tab (to_string u +:+ s)) "" us) = to_string <$> us.
Proof.
  induction us as [|u us IH]; [done|].
  change (split_whitespace (String tab (to_string u +:+ foldr (fun u s => String tab (to_string u +:+ s)) "" us))
    = to_string u :: (to_string <$> us)).
  rewrite split_whitespace_blank; [|apply blank_tab|].
  2: { rewrite bytes_app. apply Forall_app. split; [apply to_string_plain|apply tab_fields_plain]. }
  destruct us as [|v us].
  - simpl. replace (to_string u +:+ "") with (to_string u); [apply split_whitespace_last, word_to_string|].
    rewrite <- (of_bytes_bytes (_ +:+ _)), bytes_app, app_nil_r. by rewrite of_bytes_bytes.
  - rewrite <- IH. simpl foldr. rewrite split_whitespace_word; [|apply word_to_string|apply blank_tab|].
    + done.
    + rewrite bytes_app. apply Forall_app. split; [apply to_string_plain|apply tab_fields_plain].
Qed.

Lemma parse_all_to_string path what maximum zs :
  Forall (fun z => 0 <= z <= maximum) zs -> parse_all path what maximum (to_string <$> zs) = inr zs.
Proof.
  induction 1 as [|z zs Hz Hzs IH]; [done|]. rewrite fmap_cons. cbn [parse_all].
  unfold parse_or. rewrite parse_unsigned_to_string by done. by rewrite IH.
Qed.

(** No line of the record is more than one line. *)
Lemma tab_fields_line us : Forall (fun u => 0 <= u) us -> line (uid_line us).
Proof.
  intros Hus. assert (Hnot : forall c, is_ascii_digit c = false -> c <> tab ->
    c ∉ bytes (foldr (fun u s => String tab (to_string u +:+ s)) "" us)).
  { intros c Hc Ht. induction Hus as [|u us Hu Hus IH]; [apply not_elem_of_nil|]. cbn [foldr].
    rewrite bytes_cons, bytes_app. apply not_elem_of_cons. split; [done|]. apply not_elem_of_app.
    split; [|done]. apply digits_not_elem; [by apply to_string_digits|done]. }
  unfold uid_line. split; rewrite bytes_app; apply not_elem_of_app.
  all: split; [by apply (bool_decide_unpack _); vm_compute|by apply Hnot].
Qed.

Lemma parse_uids_status path before uids after :
  Forall (fun l => line l /\ starts_with "Uid:" l = false) before -> Forall line after ->
  Forall (fun u => 0 <= u <= u32_max) uids -> length uids = 4%nat ->
  parse_uids path (status_text before uids after) = inr uids.
Proof.
  intros Hb Ha Hu Hlen. unfold parse_uids, status_text. rewrite lines_of.
  2: { apply Forall_app. split; [eapply Forall_impl; [exact Hb|]; by intros ? []|].
       constructor; [apply tab_fields_line|done]. eapply Forall_impl; [exact Hu|]. simpl. lia. }
  assert (Hf : List.find (starts_with "Uid:") (before ++ uid_line uids :: after) = Some (uid_line uids)).
  { clear -Hb. induction Hb as [|l before [_ Hl] Hb IH]; simpl; [|by rewrite Hl].
    unfold uid_line. by destruct uids. }
  rewrite Hf. unfold uid_line at 1. rewrite bytes_app.
  change (drop 4 (bytes "Uid:" ++ ?l)) with l. rewrite of_bytes_bytes, split_tab_fields.
  rewrite parse_all_to_string by done. by rewrite Hlen.
Qed.

(** ** Numbers that are given again *)

(** A process as procfs shows it. *)
Record TaskRecord := {
  tr_start : Z;
  tr_name : list Ascii.ascii;
  tr_fields : list string;
  tr_uids : list Z;
}.

Section identity.
Context {W : Type} `{!ProcKernel W}.

Definition stat_path_of (root : string) (p : Z) : string := join_path (join_path root (to_string p)) "stat".
Definition status_path_of (root : string) (p : Z) : string := join_path (join_path root (to_string p)) "status".

(** Which process has a number may change at every step; a process that is
    given a number again started later. A read shows the process of that
    moment, and a file may also fail to be read. *)
Record recycling (root : string) (task_at : Z -> W -> option TaskRecord) (later : W -> W -> Prop) : Prop := {
  rc_order :: PreOrder later;
  rc_monotone p w w' a b : later w w' -> task_at p w = Some a -> task_at p w' = Some b ->
    tr_start a <= tr_start b;
  rc_record p w a : task_at p w = Some a ->
    0 <= tr_start a <= u64_max /\ stat_words (tr_fields a)
    /\ tr_fields a !! 19%nat = Some (to_string (tr_start a));
  rc_users p w a : task_at p w = Some a ->
    Forall (fun u => 0 <= u <= u32_max) (tr_uids a) /\ length (tr_uids a) = 4%nat;
  rc_stat p w r w' : read_bytes (stat_path_of root p) w = (r, w') ->
    later w w' /\ forall text, r = inr text ->
      exists a, task_at p w' = Some a /\ text = stat_record p (tr_name a) (tr_fields a);
  rc_status p w r w' : read_bytes (status_path_of root p) w = (r, w') ->
    later w w' /\ forall text, r = inr text ->
      exists a before after, task_at p w' = Some a
        /\ Forall (fun l => line l /\ starts_with "Uid:" l = false) before /\ Forall line after
        /\ from_utf8_lossy text = status_text before (tr_uids a) after;
  rc_link path w r w' : read_link path w = (r, w') -> later w w';
}.

Context (root : string) (task_at : Z -> W -> option TaskRecord) (later : W -> W -> Prop).
Context (Hrec : recycling root task_at later).

Lemma syscall_inr {A} operation path (r : (IoError + A) * W) a w :
  syscall operation path r = (inr a, w) -> r = (inr a, w).
Proof. destruct r as [[e|x] w1]; unfold syscall; simpl; congruence. Qed.

(** A [stat] record that is read and parsed is the process of that moment. *)
Lemma read_stat p w text w1 path parsed :
  0 <= p <= u32_max ->
  read_proc (stat_path_of root p) w = (inr text, w1) ->
  parse_process_stat_bytes path text p = inr parsed ->
  later w w1 /\ exists a, task_at p w1 = Some a
    /\ parsed = {| pps_comm := from_utf8_lossy (tr_name a); pps_start_time_ticks := tr_start a |}.
Proof.
  intros Hp Hr%syscall_inr Hparse. destruct (rc_stat _ _ _ Hrec _ _ _ _ Hr) as [Hl Ht].
  destruct (Ht _ eq_refl) as (a & Ha & ->). split; [done|]. exists a. split; [done|].
  destruct (rc_record _ _ _ Hrec _ _ _ Ha) as (? & ? & ?).
  rewrite (parse_process_stat_record _ _ _ _ (tr_start a)) in Hparse by done. by injection Hparse.
Qed.

Lemma read_users p w text w1 path uids :
  read_proc (status_path_of root p) w = (inr text, w1) ->
  parse_uids path (from_utf8_lossy text) = inr uids ->
  later w w1 /\ exists a, task_at p w1 = Some a /\ uids = tr_uids a.
Proof.
  intros Hr%syscall_inr Hparse. destruct (rc_status _ _ _ Hrec _ _ _ _ Hr) as [Hl Ht].
  destruct (Ht _ eq_refl) as (a & before & after & Ha & Hb & Haf & E). split; [done|]. exists a.
  split; [done|]. destruct (rc_users _ _ _ Hrec _ _ _ Ha). rewrite E, parse_uids_status in Hparse by done.
  by injection Hparse.
Qed.

Lemma and_then_inr {A B} (r : sched_result A * W) k (b : B) w' :
  and_then r k = (inr b, w') -> exists a w, r = (inr a, w) /\ k a w = (inr b, w').
Proof. destruct r as [[e|a] w]; simpl; [done|]. eauto. Qed.

Lemma process_identity_coherent p w info w' :
  0 <= p <= u32_max ->
  process_identity root p w = (inr info, w') ->
  exists w1 a w2 b, later w w1 /\ later w1 w2 /\ later w2 w'
    /\ task_at p w1 = Some a /\ task_at p w2 = Some b /\ tr_start a = tr_start b
    /\ identity info = {| pid := p; start_time_ticks := tr_start a; uid := nth 0 (tr_uids a) 0 |}
    /\ owner_control_safe info = forallb (fun u => u =? nth 0 (tr_uids a) 0) (tr_uids a)
    /\ comm info = from_utf8_lossy (tr_name b).
Proof.
  intros Hp. unfold process_identity. pose proof (rc_order _ _ _ Hrec) as Hpre.
  intros (stat0 & w0 & R0 & H)%and_then_inr. apply and_then_inr in H as (before & ? & [= P0 <-] & H).
  apply and_then_inr in H as (status & w1 & R1 & H). apply and_then_inr in H as (uids & ? & [= P1 <-] & H).
  destruct (read_link _ w1) as [link w2] eqn:R2. apply (rc_link _ _ _ Hrec) in R2.
  apply and_then_inr in H as (exe & ? & [= _ <-] & H).
  apply and_then_inr in H as (stat3 & w3 & R3 & H). apply and_then_inr in H as (after & ? & [= P3 <-] & H).
  destruct (read_stat _ _ _ _ _ _ Hp R0 P0) as (L0 & a0 & A0 & ->).
  destruct (read_users _ _ _ _ _ _ R1 P1) as (L1 & a1 & A1 & ->).
  destruct (read_stat _ _ _ _ _ _ Hp R3 P3) as (L3 & a3 & A3 & ->). simpl in H.
  destruct (tr_start a0 =? tr_start a3) eqn:E; [|done]. injection H as <- <-. apply Z.eqb_eq in E.
  assert (M1 : tr_start a0 <= tr_start a1) by (eapply (rc_monotone _ _ _ Hrec); [exact L1|done..]).
  assert (M3 : tr_start a1 <= tr_start a3)
    by (eapply (rc_monotone _ _ _ Hrec); [by transitivity w2|done..]).
  exists w1, a1, w3, a3. split; [by transitivity w0|]. split; [by transitivity w2|]. split; [done|].
  repeat (split; [done || lia|]). split; [|done]. simpl. f_equal. lia.
Qed.
End identity.

(** ** The theorems *)

(** A task's record is read back by both of its readers whatever bytes its
    command name holds, parentheses, blanks and invalid UTF-8 included: the
    process reader returns the start time of field 22 and the name, and the
    scheduler's reader the policy and the real-time priority, also when the
    kernel sets the reset-on-fork bit. *)
Theorem stat_record_round_trip path p name ws start c rt reset_on_fork :
  0 <= p <= u32_max -> 0 <= start <= u64_max -> stat_words ws ->
  ws !! 19%nat = Some (to_string start) ->
  ws !! 37%nat = Some (to_string (stat_priority c rt)) ->
  ws !! 38%nat = Some (to_string (linux_policy c + if reset_on_fork : bool then 0x40000000 else 0)) ->
  match c with Fifo => exists prio, rt = Some prio /\ 1 <= prio <= 99 | _ => rt = None end ->
  parse_process_stat_bytes path (stat_record p name ws) p
    = inr {| pps_comm := from_utf8_lossy name; pps_start_time_ticks := start |}
  /\ parse_scheduler_stat path (of_bytes (stat_record p name ws))
    = inr {| pss_policy := c; pss_rt_priority := rt |}.
Proof.
  intros. split; [by apply parse_process_stat_record|by eapply parse_scheduler_stat_record].
Qed.

(** A thread named [") R 1 ("], with bytes that are not UTF-8. *)
Definition hostile_name : list Ascii.ascii := bytes ") R 1 (" ++ [Ascii.ascii_of_nat 255].
Definition some_fields (start : Z) : list string :=
  "S" :: replicate 18 "1" ++ [to_string start] ++ replicate 17 "0" ++ ["2"; "1073741825"].

Lemma some_fields_words start : stat_words (some_fields start).
Proof.
  assert (Hz : word (to_string start) /\ close_parenthesis ∉ bytes (to_string start)).
  { split; [apply word_to_string|]. destruct (decide (start < 0)).
    - rewrite to_string_neg by done. change (close_parenthesis ∉ minus_sign :: bytes (to_string (- start))).
      apply not_elem_of_cons. split; [done|]. apply digits_not_elem; [apply to_string_digits; lia|done].
    - apply digits_not_elem; [apply to_string_digits; lia|done]. }
  assert (Hc : forall s, bool_decide (s <> "") && forallb (fun c => (33 <=? byte_of c) && (byte_of c <? 127)
      && negb (bool_decide (c = close_parenthesis))) (bytes s) = true ->
      word s /\ close_parenthesis ∉ bytes s).
  { intros s [Hn%bool_decide_eq_true Hf]%andb_prop. rewrite forallb_forall in Hf. repeat split; [done| |].
    - apply Forall_forall. intros x Hx%list_elem_of_In%Hf. unfold graphic. lia.
    - intros Hx%list_elem_of_In%Hf. rewrite bool_decide_eq_true_2 in Hx by done. simpl in Hx. lia. }
  unfold stat_words, some_fields. apply Forall_cons. split; [by apply Hc|].
  apply Forall_app. split; [by apply Forall_replicate, Hc|].
  apply Forall_app. split; [by apply Forall_singleton|].
  apply Forall_app. split; [by apply Forall_replicate, Hc|].
  apply Forall_cons. split; [by apply Hc|]. apply Forall_singleton. by apply Hc.
Qed.

Lemma stat_record_round_trip_witness :
  parse_process_stat_bytes "/proc/7/stat" (stat_record 7 hostile_name (some_fields 777)) 7
    = inr {| pps_comm := from_utf8_lossy hostile_name; pps_start_time_ticks := 777 |}
  /\ parse_scheduler_stat "/proc/7/stat" (of_bytes (stat_record 7 hostile_name (some_fields 777)))
    = inr {| pss_policy := Fifo; pss_rt_priority := Some 2 |}.
Proof.
  apply (stat_record_round_trip "/proc/7/stat" 7 hostile_name (some_fields 777) 777 Fifo (Some 2) true).
  - unfold u32_max. lia.
  - unfold u64_max. lia.
  - apply some_fields_words.
  - vm_compute. reflexivity.
  - vm_compute. reflexivity.
  - vm_compute. reflexivity.
  - exists 2. split; [reflexivity|lia].
Defined.

(** C27: A process number may be given to another process between any two reads.
    An identity that is returned is still that of one process: the start time
    and the user belong to the process that had the number at one moment, the
    control flag says whether its four users agree, and the name is that of a
    process that started at the same time. *)
Theorem identity_of_one_process {W} `{!ProcKernel W} root task_at later
    (Hrec : recycling root task_at later) p w info w' :
  0 <= p <= u32_max ->
  process_identity root p w = (inr info, w') ->
  exists w1 a w2 b, later w w1 /\ later w1 w2 /\ later w2 w'
    /\ task_at p w1 = Some a /\ task_at p w2 = Some b /\ tr_start a = tr_start b
    /\ identity info = {| pid := p; start_time_ticks := tr_start a; uid := nth 0 (tr_uids a) 0 |}
    /\ owner_control_safe info = forallb (fun u => u =? nth 0 (tr_uids a) 0) (tr_uids a)
    /\ comm info = from_utf8_lossy (tr_name b).
Proof. by apply process_identity_coherent. Qed.

(** Process 7 is replaced at some moment; every read takes one. *)
Record Moment := { mo_time : Z; mo_replaced : Z }.

Definition task_of (start user : Z) (name : list Ascii.ascii) : TaskRecord :=
  {| tr_start := start; tr_name := name; tr_fields := some_fields start; tr_uids := [user; user; user; user] |}.
Definition task_of_7 (w : Moment) : TaskRecord :=
  if mo_time w <? mo_replaced w then task_of 100 1000 (bytes "game") else task_of 250 0 hostile_name.
Definition moment_task (p : Z) (w : Moment) : option TaskRecord :=
  if p =? 7 then Some (task_of_7 w) else None.
Definition moment_later (w w' : Moment) : Prop := mo_time w <= mo_time w' /\ mo_replaced w = mo_replaced w'.
Definition next_moment (w : Moment) : Moment := {| mo_time := mo_time w + 1; mo_replaced := mo_replaced w |}.
Definition no_entry : IoError := {| io_kind := NotFound; io_message := "No such file or directory (os error 2)" |}.

#[export] Instance moment_kernel : ProcKernel Moment := {
  read_bytes path w :=
    let w := next_moment w in
    let a := task_of_7 w in
    (if bool_decide (path = stat_path_of "/proc" 7) then inr (stat_record 7 (tr_name a) (tr_fields a))
     else if bool_decide (path = status_path_of "/proc" 7)
     then inr (bytes (status_text ["Name:	x"] (tr_uids a) ["Threads:	1"]))
     else inl no_entry, w);
  read_text path w := (inl no_entry, next_moment w);
  read_link path w := (inl no_entry, next_moment w);
  read_dir_names path w := (inl no_entry, next_moment w);
  proc_elapsed w := (mo_time w, w);
}.

Lemma path_of_7 file p :
  join_path (join_path "/proc" (to_string p)) file = join_path (join_path "/proc" (to_string 7)) file -> p = 7.
Proof.
  unfold join_path. intros H. apply (f_equal bytes) in H. rewrite !bytes_app in H.
  apply app_inv_tail, app_inv_head, app_inv_head in H.
  apply (f_equal of_bytes) in H. rewrite !of_bytes_bytes in H. by apply (inj pretty) in H.
Qed.

(** The two files have different names. *)
Lemma stat_not_status root p q : stat_path_of root p <> status_path_of root q.
Proof.
  unfold stat_path_of, status_path_of, join_path. intros E.
  apply (f_equal (fun s => last (bytes s))) in E. by rewrite !bytes_app, !last_app in E.
Qed.

Lemma moment_recycling : recycling "/proc" moment_task moment_later.
Proof.
  constructor.
  - split; [intros []; split; done|]. intros [] [] [] [? E1] [? E2]. split; simpl in *; [lia|congruence].
  - unfold moment_task, task_of_7. intros p [t r] [t' r'] a b [Hl Hr] Ha Hb. simpl in *. subst r'.
    destruct (p =? 7); [|done]. injection Ha as <-. injection Hb as <-.
    destruct (t <? r) eqn:E1, (t' <? r) eqn:E2; simpl; lia.
  - unfold moment_task, task_of_7. intros p w a Ha. destruct (p =? 7); [|done]. injection Ha as <-.
    destruct (_ <? _); (split; [vm_compute; done|]); (split; [apply some_fields_words|vm_compute; done]).
  - unfold moment_task, task_of_7. intros p w a Ha. destruct (p =? 7); [|done]. injection Ha as <-.
    destruct (_ <? _); (split; [repeat constructor; vm_compute; done|done]).
  - intros p w r w' H. simpl in H.
    case_bool_decide as E.
    + apply path_of_7 in E as ->. injection H as <- <-. split; [split; simpl; [lia|done]|].
      intros text [= <-]. eexists. split; [unfold moment_task; simpl; reflexivity|reflexivity].
    + case_bool_decide; injection H as <- <-; (split; [split; simpl; [lia|done]|]); [|done].
      intros text _. match goal with E : _ = _ |- _ => by destruct (stat_not_status _ _ _ E) end.
  - intros p w r w' H. simpl in H. rewrite bool_decide_eq_false_2 in H by (by intros E%eq_sym%stat_not_status).
    case_bool_decide as E; injection H as <- <-; (split; [split; simpl; [lia|done]|]); [|done].
    apply path_of_7 in E as ->. intros text [= <-].
    eexists _, ["Name:	x"], ["Threads:	1"]. split; [unfold moment_task; simpl; reflexivity|].
    assert (Hl : forall l, bool_decide (newline ∉ bytes l) && bool_decide (carriage_return ∉ bytes l) = true -> line l)
      by (intros l [?%bool_decide_eq_true ?%bool_decide_eq_true]%andb_prop; done).
    split; [|split].
    + apply Forall_singleton. split; [by apply Hl|done].
    + apply Forall_singleton. by apply Hl.
    + unfold task_of_7. destruct (_ <? _); vm_compute; reflexivity.
  - intros path [t r] x w' [= _ <-]. split; simpl; [lia|done].
Qed.

Definition game_info : ProcessInfo :=
  {| identity := {| pid := 7; start_time_ticks := 100; uid := 1000 |};
     owner_control_safe := true; comm := "game"; executable := None; desktop_id := None |}.

Definition identity_at (replaced : Z) : sched_result ProcessInfo * Moment :=
  process_identity "/proc" 7 {| mo_time := 0; mo_replaced := replaced |}.

(** An unreplaced process is identified; one replaced before the last read has
    disappeared; one replaced before the first is the new process. *)
Lemma identity_of_one_process_witness :
  (exists w1 a, task_of_7 w1 = a /\ tr_start a = 100 /\ nth 0 (tr_uids a) 0 = 1000
     /\ fst (identity_at 9) = inr game_info)
  /\ fst (identity_at 3)
     = inl (Disappeared "process 7 changed identity while procfs was sampled")
  /\ fst (identity_at 0) = inr {| identity := {| pid := 7; start_time_ticks := 250; uid := 0 |};
          owner_control_safe := true; comm := from_utf8_lossy hostile_name; executable := None;
          desktop_id := None |}.
Proof.
  assert (E : fst (identity_at 9) = inr game_info)
    by (vm_compute; reflexivity).
  split; [|split; vm_compute; reflexivity].
  destruct (identity_at 9) as [r w'] eqn:Ei. simpl in E. subst r.
  destruct (identity_of_one_process "/proc" moment_task moment_later moment_recycling 7
    {| mo_time := 0; mo_replaced := 9 |} game_info w') as (w1 & a & w2 & b & _ & _ & _ & Ha & _ & _ & Hid & _).
  - unfold u32_max. lia.
  - exact Ei.
  - injection Ha as Ha. injection Hid as Hs Hu. exists w1, a. split; [exact Ha|].
    split; [symmetry; exact Hs|]. split; [symmetry; exact Hu|reflexivity].
Defined.
