(* ===== verification/Sysfs.v ===== *)
(** * Rooted access to sysfs ([uperf-linux/src/sysfs.rs])

    Attributes are read and written below one physical root. Names are made
    canonical by the operating system, which is a class; the cache of read
    paths, which clones of an adapter share, is passed from call to call.
    Path sets and maps compare paths by components, as [PathBuf] does. *)

From coqutil Require Import Datatypes.RecordSetters.
From S2P Require Import Prelude Float64 Domain Text Strings ActuatorTypes DaemonTypes Touch Evdev LinuxScheduler Procfs.

Definition MAX_ATTRIBUTE_BYTES : Z := 64 * 1024.
Definition MAX_WRITE_BYTES : Z := 4096.

Class SysfsKernel (W : Type) := {
  (** [Path::canonicalize] *)
  canonicalize : string -> W -> (IoError + string) * W;
  File : Type;
  (** [File::open]; [OpenOptions] with write and truncate *)
  open_read : string -> W -> (IoError + File) * W;
  open_write : string -> W -> (IoError + File) * W;
  (** [Read::take] and [read_to_end] *)
  read_limited : File -> Z -> W -> (IoError + list Ascii.ascii) * W;
  write_all : File -> list Ascii.ascii -> W -> (IoError + unit) * W;
  flush : File -> W -> (IoError + unit) * W;
}.

Notation PathKey := (list Component) (only parsing).

(** [RootedSysfs]; [read_paths] is its shared cache. *)
Record RootedSysfs := {
  sy_root : string;
  sy_writable : gset PathKey;
}.
Notation ReadPaths := (gmap PathKey string) (only parsing).

(** ** Logical paths *)

Definition non_normal (logical : string) : PlatformError := AccessDenied logical "non-normal path component".

Fixpoint normal_components (logical : string) (cs : list Component) : sched_result (list string) :=
  match cs with
  | [] => inr []
  | Text.Normal value :: cs => ok values := normal_components logical cs in inr (value :: values)
  | _ :: _ => inl (non_normal logical)
  end.

(** The parts below [/sys]. *)
Definition logical_relative (logical : string) : sched_result (list string) :=
  match components logical with
  | RootDir :: Text.Normal first :: rest =>
      if bool_decide (first = "sys") then normal_components logical rest
      else inl (AccessDenied logical "sysfs paths must be absolute and begin with /sys")
  | _ => inl (AccessDenied logical "sysfs paths must be absolute and begin with /sys")
  end.

(** [PathBuf::join] of the parts. *)
Definition join_parts (root : string) (parts : list string) : string := join_path root (join "/" parts).

Section sysfs.
Context {W : Type} `{!SysfsKernel W}.

(** A call whose failure is mapped. *)
Definition with_io {A} (operation path : string) (r : (IoError + A) * W) : sched_result A * W :=
  (match r.1 with inl e => inl (platform_io operation path e) | inr a => inr a end, r.2).

Definition read_only (root : string) (w : W) : sched_result RootedSysfs * W :=
  and_then (with_io "canonicalize sysfs root" root (canonicalize root w)) (fun root w =>
  (inr {| sy_root := root; sy_writable := ∅ |}, w)).

Definition resolve_existing (s : RootedSysfs) (logical : string) (w : W) : sched_result string * W :=
  and_then (logical_relative logical, w) (fun relative w =>
  and_then (with_io "canonicalize sysfs path" logical (canonicalize (join_parts (sy_root s) relative) w))
    (fun resolved w =>
  (if negb (path_starts_with resolved (sy_root s))
   then inl (AccessDenied logical "canonical target escapes the configured sysfs root")
   else inr resolved, w))).

(** The loop of [with_write_allowlist]. *)
Fixpoint allow (s : RootedSysfs) (allowed_paths : list string) (w : W) : sched_result RootedSysfs * W :=
  match allowed_paths with
  | [] => (inr s, w)
  | path :: allowed_paths =>
      and_then (resolve_existing s path w) (fun resolved w =>
      allow {| sy_root := sy_root s; sy_writable := {[ components resolved ]} ∪ sy_writable s |}
        allowed_paths w)
  end.

Definition with_write_allowlist (root : string) (allowed_paths : list string) (w : W)
  : sched_result RootedSysfs * W :=
  and_then (read_only root w) (fun adapter w => allow adapter allowed_paths w).

(** ** Reading *)

(** The result, the cache and the world. *)
Definition resolve_read_path (s : RootedSysfs) (cache : ReadPaths) (logical : string) (w : W)
  : sched_result string * ReadPaths * W :=
  match logical_relative logical with
  | inl e => (inl e, cache, w)
  | inr _ =>
      match cache !! components logical with
      | Some resolved => (inr resolved, cache, w)
      | None =>
          let '(r, w) := resolve_existing s logical w in
          match r with
          | inl e => (inl e, cache, w)
          | inr resolved => (inr resolved, <[components logical := resolved]> cache, w)
          end
      end
  end.

Definition invalidate_read_path (cache : ReadPaths) (logical expected : string) : ReadPaths :=
  if is_some_and (cache !! components logical)
       (fun cached => bool_decide (components cached = components expected))
  then delete (components logical) cache else cache.

Definition open_for_read (s : RootedSysfs) (cache : ReadPaths) (logical : string) (w : W)
  : sched_result File * ReadPaths * W :=
  let '(r, cache, w) := resolve_read_path s cache logical w in
  match r with
  | inl e => (inl e, cache, w)
  | inr resolved =>
      let '(file, w) := open_read resolved w in
      match file with
      | inr file => (inr file, cache, w)
      | inl e =>
          if decide (io_kind e = NotFound) then
            let cache := invalidate_read_path cache logical resolved in
            let '(r, cache, w) := resolve_read_path s cache logical w in
            match r with
            | inl e => (inl e, cache, w)
            | inr refreshed =>
                let '(r, w) := with_io "open for read" logical (open_read refreshed w) in (r, cache, w)
            end
          else (inl (platform_io "open for read" logical e), cache, w)
      end
  end.

Definition sysfs_read_string (s : RootedSysfs) (cache : ReadPaths) (path : string) (w : W)
  : sched_result string * ReadPaths * W :=
  let '(file, cache, w) := open_for_read s cache path w in
  match file with
  | inl e => (inl e, cache, w)
  | inr file =>
      let '(r, w) := with_io "read" path (read_limited file (MAX_ATTRIBUTE_BYTES + 1) w) in
      (ok bytes := r in
       if MAX_ATTRIBUTE_BYTES <? Z.of_nat (length bytes)
       then inl (InvalidData path ("attribute exceeds " +:+ to_string MAX_ATTRIBUTE_BYTES +:+ " bytes"))
       else
         ok value := utf8_or path "not UTF-8: " bytes in
         inr (trim_str value), cache, w)
  end.

(** ** Writing *)

Definition nul : Ascii.ascii := Ascii.ascii_of_nat 0.

Definition sysfs_write_string (s : RootedSysfs) (path value : string) (w : W) : sched_result unit * W :=
  if MAX_WRITE_BYTES <? str_len value
  then (inl (InvalidData path ("write exceeds " +:+ to_string MAX_WRITE_BYTES +:+ " bytes")), w)
  else if contains nul value then (inl (InvalidData path "write contains a NUL byte"), w)
  else
    and_then (resolve_existing s path w) (fun resolved w =>
    if negb (bool_decide (components resolved ∈ sy_writable s))
    then (inl (AccessDenied path "adapter is read-only or target is not allowlisted"), w)
    else
      and_then (with_io "open for write" path (open_write resolved w)) (fun file w =>
      and_then (with_io "write" path (write_all file (bytes value) w)) (fun _ w =>
      with_io "flush" path (flush file w)))).
End sysfs.

(** ** Confinement *)

Section confinement.
Context {W : Type} `{!SysfsKernel W}.

(** The files that have been opened; only the opening calls open files. *)
Record logging (reads writes : W -> gset PathKey) : Prop := {
  lg_canonicalize p w r w' : canonicalize p w = (r, w') -> reads w' = reads w /\ writes w' = writes w;
  lg_open_read p w r w' : open_read p w = (r, w') ->
    reads w' = {[ components p ]} ∪ reads w /\ writes w' = writes w;
  lg_open_write p w r w' : open_write p w = (r, w') ->
    reads w' = reads w /\ writes w' = {[ components p ]} ∪ writes w;
  lg_read f n w r w' : read_limited f n w = (r, w') -> reads w' = reads w /\ writes w' = writes w;
  lg_write f b w r w' : write_all f b w = (r, w') -> reads w' = reads w /\ writes w' = writes w;
  lg_flush f w r w' : flush f w = (r, w') -> reads w' = reads w /\ writes w' = writes w;
}.

Context (reads writes : W -> gset PathKey) (Hlog : logging reads writes).

(** The components of a path below the root. *)
Definition below (root : string) (key : PathKey) : Prop := components root `prefix_of` key.

(** [key] is what [path] resolved to at some moment. *)
Definition resolved_from (root path : string) (key : PathKey) : Prop :=
  exists parts w resolved w', logical_relative path = inr parts
    /\ canonicalize (join_parts root parts) w = (inr resolved, w')
    /\ key = components resolved /\ below root key.

(** What a call may open. *)
Definition opens (R Wr : PathKey -> Prop) (w w' : W) : Prop :=
  (forall k, k ∈ reads w' -> k ∈ reads w \/ R k) /\ (forall k, k ∈ writes w' -> k ∈ writes w \/ Wr k).

Lemma opens_quiet R Wr w w' : reads w' = reads w /\ writes w' = writes w -> opens R Wr w w'.
Proof. intros [E1 E2]. split; rewrite ?E1, ?E2; auto. Qed.

Lemma opens_trans R Wr w1 w2 w3 : opens R Wr w1 w2 -> opens R Wr w2 w3 -> opens R Wr w1 w3.
Proof. unfold opens. naive_solver. Qed.

Lemma with_io_eq {A} operation path (r : (IoError + A) * W) x w :
  with_io operation path r = (x, w) -> r = (r.1, w).
Proof. destruct r. unfold with_io. simpl. congruence. Qed.

Lemma resolve_existing_spec s logical w r w' :
  resolve_existing s logical w = (r, w') ->
  (reads w' = reads w /\ writes w' = writes w)
  /\ forall resolved, r = inr resolved -> resolved_from (sy_root s) logical (components resolved).
Proof.
  unfold resolve_existing. destruct (logical_relative logical) as [e|parts] eqn:El; simpl.
  { intros [= <- <-]. split; [done|]. by intros ? [=]. }
  destruct (canonicalize _ w) as [[e|resolved] w1] eqn:Ec; unfold with_io; simpl; intros [= <- <-];
    (split; [by apply (lg_canonicalize _ _ Hlog) in Ec|]); [by intros ? [=]|].
  destruct (path_starts_with _ _) eqn:Ep; simpl; [|by intros ? [=]]. intros ? [= <-].
  exists parts, w, resolved, w1. apply bool_decide_eq_true in Ep. done.
Qed.

Lemma allow_spec s paths w s' w' :
  allow s paths w = (inr s', w') ->
  sy_root s' = sy_root s /\ (reads w' = reads w /\ writes w' = writes w)
  /\ forall key, key ∈ sy_writable s' ->
     key ∈ sy_writable s \/ exists path, path ∈ paths /\ resolved_from (sy_root s) path key.
Proof.
  revert s w. induction paths as [|path paths IH]; intros s w.
  - intros [= <- <-]. auto.
  - simpl. destruct (resolve_existing s path w) as [[e|resolved] w1] eqn:Er; simpl; [done|].
    apply resolve_existing_spec in Er as [[E1 E2] Hr]. intros (Hs & [E3 E4] & Hk)%IH. simpl in *.
    split; [done|]. split; [split; congruence|]. intros key [Hin|(path' & ? & ?)]%Hk.
    + apply elem_of_union in Hin as [->%elem_of_singleton|]; [|auto].
      right. exists path. split; [by left|]. by apply Hr.
    + right. exists path'. split; [by right|done].
Qed.

(** Every cached path lies below the root. *)
Definition cache_below (root : string) (cache : ReadPaths) : Prop :=
  forall logical resolved, cache !! logical = Some resolved -> below root (components resolved).

Lemma resolve_read_path_spec s cache logical w r cache' w' :
  cache_below (sy_root s) cache ->
  resolve_read_path s cache logical w = (r, cache', w') ->
  (reads w' = reads w /\ writes w' = writes w) /\ cache_below (sy_root s) cache'
  /\ forall resolved, r = inr resolved -> below (sy_root s) (components resolved).
Proof.
  unfold resolve_read_path. intros Hc. destruct (logical_relative logical) as [e|parts].
  { intros [= <- <- <-]. split; [done|]. split; [done|]. by intros ? [=]. }
  destruct (cache !! components logical) as [resolved|] eqn:El.
  { intros [= <- <- <-]. split; [done|]. split; [done|]. intros ? [= <-]. by eapply Hc. }
  destruct (resolve_existing s logical w) as [[e|resolved] w1] eqn:Er;
    apply resolve_existing_spec in Er as [Hq Hr]; intros [= <- <- <-]; (split; [done|]); [by split|].
  destruct (Hr _ eq_refl) as (? & ? & ? & ? & _ & _ & _ & Hb). split.
  - intros l p. destruct (decide (l = components logical)) as [->|].
    + rewrite lookup_insert_eq. by intros [= <-].
    + rewrite lookup_insert_ne by done. apply Hc.
  - by intros ? [= <-].
Qed.

Lemma invalidate_below root cache logical expected :
  cache_below root cache -> cache_below root (invalidate_read_path cache logical expected).
Proof.
  intros Hc. unfold invalidate_read_path. destruct (is_some_and _ _); [|done].
  intros l p [_ Hl]%lookup_delete_Some. by eapply Hc.
Qed.

Lemma open_for_read_spec s cache logical w r cache' w' :
  cache_below (sy_root s) cache ->
  open_for_read s cache logical w = (r, cache', w') ->
  opens (below (sy_root s)) (fun _ => False) w w' /\ cache_below (sy_root s) cache'.
Proof.
  intros Hc. unfold open_for_read.
  destruct (resolve_read_path s cache logical w) as [[r1 c1] w1] eqn:E1.
  apply resolve_read_path_spec in E1 as (Q1 & C1 & B1); [|done].
  destruct r1 as [e|resolved]; [intros [= <- <- <-]; split; [by apply opens_quiet|done]|].
  assert (Hopen : forall p w f w', below (sy_root s) (components p) -> open_read p w = (f, w') ->
      opens (below (sy_root s)) (fun _ => False) w w').
  { intros p v f v' Hb [E2 E3]%(lg_open_read _ _ Hlog). split; rewrite ?E2, ?E3; [|auto].
    intros k [->%elem_of_singleton|]%elem_of_union; auto. }
  destruct (open_read resolved w1) as [[e|f] w2] eqn:E2;
    (apply Hopen in E2; [|by apply B1]); pose proof (opens_trans _ _ _ _ _ (opens_quiet _ _ _ _ Q1) E2) as O2.
  2: by intros [= <- <- <-].
  destruct (decide _); [|by intros [= <- <- <-]].
  destruct (resolve_read_path s (invalidate_read_path c1 logical resolved) logical w2) as [[r3 c3] w3] eqn:E3.
  apply resolve_read_path_spec in E3 as (Q3 & C3 & B3); [|by apply invalidate_below].
  pose proof (opens_trans _ _ _ _ _ O2 (opens_quiet _ _ _ _ Q3)) as O3.
  destruct r3 as [e'|refreshed]; [by intros [= <- <- <-]|].
  destruct (with_io _ _ _) as [r4 w4] eqn:E4. apply with_io_eq, Hopen in E4; [|by apply B3].
  intros [= <- <- <-]. split; [by eapply opens_trans|done].
Qed.

Lemma read_string_spec s cache path w r cache' w' :
  cache_below (sy_root s) cache ->
  sysfs_read_string s cache path w = (r, cache', w') ->
  opens (below (sy_root s)) (fun _ => False) w w' /\ cache_below (sy_root s) cache'.
Proof.
  intros Hc. unfold sysfs_read_string. destruct (open_for_read s cache path w) as [[f c1] w1] eqn:E1.
  apply open_for_read_spec in E1 as [O1 C1]; [|done]. destruct f as [e|f]; [by intros [= <- <- <-]|].
  destruct (with_io _ _ _) as [r2 w2] eqn:E2. apply with_io_eq, (lg_read _ _ Hlog) in E2.
  intros [= <- <- <-]. split; [|done]. eapply opens_trans; [exact O1|by apply opens_quiet].
Qed.

Lemma write_string_spec s path value w r w' :
  sysfs_write_string s path value w = (r, w') ->
  opens (fun _ => False) (fun k => k ∈ sy_writable s /\ resolved_from (sy_root s) path k) w w'.
Proof.
  set (Wr := fun k : PathKey => k ∈ sy_writable s /\ resolved_from (sy_root s) path k).
  unfold sysfs_write_string.
  assert (Hq : forall w, opens (fun _ => False) Wr w w) by (intros; by apply opens_quiet).
  destruct (_ <? _); [by intros [= _ <-]|]. destruct (contains _ _); [by intros [= _ <-]|].
  destruct (resolve_existing s path w) as [[e|resolved] w1] eqn:E1;
    apply resolve_existing_spec in E1 as [Q1 R1]; cbn [and_then]; [intros [= _ <-]; by apply opens_quiet|].
  case_bool_decide as Hin; cbn [negb]; [|intros [= _ <-]; by apply opens_quiet].
  destruct (with_io "open for write" path (open_write resolved w1)) as [r2 w2] eqn:E2. apply with_io_eq in E2.
  assert (O2 : opens (fun _ => False) Wr w w2).
  { eapply opens_trans; [by apply opens_quiet|]. apply (lg_open_write _ _ Hlog) in E2 as [E2 E3].
    split; rewrite ?E2, ?E3; [auto|]. intros k [->%elem_of_singleton|]%elem_of_union; [|auto].
    right. split; [done|]. by apply R1. }
  destruct r2 as [e|f]; cbn [and_then]; [by intros [= _ <-]|].
  destruct (with_io "write" path (write_all f (bytes value) w2)) as [r3 w3] eqn:E3.
  apply with_io_eq, (lg_write _ _ Hlog) in E3.
  pose proof (opens_trans _ _ _ _ _ O2 (opens_quiet _ _ _ _ E3)) as O3.
  destruct r3 as [e|[]]; cbn [and_then]; [by intros [= _ <-]|].
  intros H%with_io_eq%(lg_flush _ _ Hlog). eapply opens_trans; [exact O3|by apply opens_quiet].
Qed.

(** A use of an adapter, by any of its clones. *)
Inductive SysfsUse := UseRead (path : string) | UseWrite (path value : string).

Fixpoint use_all (s : RootedSysfs) (uses : list SysfsUse) (cache : ReadPaths) (w : W) : ReadPaths * W :=
  match uses with
  | [] => (cache, w)
  | UseRead path :: uses => let '(_, cache, w) := sysfs_read_string s cache path w in use_all s uses cache w
  | UseWrite path value :: uses => let '(_, w) := sysfs_write_string s path value w in use_all s uses cache w
  end.

Lemma use_all_spec s uses cache w cache' w' :
  cache_below (sy_root s) cache -> use_all s uses cache w = (cache', w') ->
  opens (below (sy_root s)) (fun k => k ∈ sy_writable s) w w' /\ cache_below (sy_root s) cache'.
Proof.
  assert (Hmono : forall R Wr R' Wr' w w', (forall k, R k -> R' k) -> (forall k, Wr k -> Wr' k) ->
    opens R Wr w w' -> opens R' Wr' w w') by (unfold opens; naive_solver).
  revert cache w. induction uses as [|[path|path value] uses IH]; intros cache w Hc; simpl.
  - intros [= <- <-]. split; [by apply opens_quiet|done].
  - destruct (sysfs_read_string s cache path w) as [[r c1] w1] eqn:E.
    apply read_string_spec in E as [O1 C1]; [|done]. intros [O2 C2]%IH; [|done]. split; [|done].
    eapply opens_trans; [|exact O2]. eapply Hmono; [| |exact O1]; done.
  - destruct (sysfs_write_string s path value w) as [r w1] eqn:E. apply write_string_spec in E as O1.
    intros [O2 C2]%IH; [|done]. split; [|done]. eapply opens_trans; [|exact O2].
    eapply Hmono; [| |exact O1]; [done|]. by intros k [].
Qed.
End confinement.

(** ** The theorem *)


(** A machine with one frequency attribute behind a class link, and a link out
    of sysfs. *)
Record SysfsSim := {
  ss_links : gmap string string;
  ss_reads : gset PathKey;
  ss_writes : gset PathKey;
}.

Definition sim_missing : IoError := {| io_kind := NotFound; io_message := "No such file or directory (os error 2)" |}.

#[export] Instance sim_sysfs : SysfsKernel SysfsSim := {
  canonicalize p w := (match ss_links w !! p with Some q => inr q | None => inl sim_missing end, w);
  File := unit;
  open_read p w := (inr tt, w <|ss_reads := {[ components p ]} ∪ ss_reads w|>);
  open_write p w := (inr tt, w <|ss_writes := {[ components p ]} ∪ ss_writes w|>);
  read_limited f n w := (inr (bytes (String.append "300000" (String newline ""))), w);
  write_all f b w := (inr tt, w);
  flush f w := (inr tt, w);
}.

Definition max_freq : string := "/sys/class/policy0/max".
Definition sysfs_sim : SysfsSim :=
  {| ss_links := {[ "/sys" := "/sys"; max_freq := "/sys/devices/policy0/max"; "/sys/escape" := "/etc/passwd" ]};
     ss_reads := ∅; ss_writes := ∅ |}.
Definition sim_uses : list SysfsUse :=
  [UseRead max_freq; UseWrite max_freq "400000"; UseWrite "/sys/escape" "x"; UseRead "/sys/escape";
   UseRead "/sys/../etc/passwd"; UseWrite "/sys/devices/policy0/max" "1"].
Definition sim_adapter : RootedSysfs :=
  {| sy_root := "/sys"; sy_writable := {[ components "/sys/devices/policy0/max" ]} |}.
Definition sim_run : gmap PathKey string * SysfsSim := use_all sim_adapter sim_uses ∅ sysfs_sim.

Lemma sim_logging : logging ss_reads ss_writes.
Proof. constructor; simpl; intros; match goal with H : (_, _) = _ |- _ => apply (f_equal snd) in H; simpl in H; by subst end. Qed.

