(* ===== verification/StateStore.v ===== *)
(** * The durable journal file ([FileStateStore] of [uperf-actuator/src/lib.rs])

    The journal is replaced by writing a file beside it, flushing it, renaming
    it over the journal and flushing the directory. The file system is a class;
    what a crash may leave behind is the subject of the theorem. *)

From S2P Require Import Prelude Float64 Domain Text Strings ActuatorTypes Scalars Targets Journal DaemonTypes Touch Evdev LinuxScheduler Procfs.

Class StoreKernel (W : Type) := {
  StoreFile : Type;
  (** [File::open]; [OpenOptions] with create, truncate and write *)
  open_existing : string -> W -> (IoError + StoreFile) * W;
  open_temporary : string -> W -> (IoError + StoreFile) * W;
  (** [Read::take] and [read_to_end] *)
  read_file : StoreFile -> Z -> W -> (IoError + list Z) * W;
  write_file : StoreFile -> list Z -> W -> (IoError + unit) * W;
  sync_all : StoreFile -> W -> (IoError + unit) * W;
  rename : string -> string -> W -> (IoError + unit) * W;
  remove_file : string -> W -> (IoError + unit) * W;
  create_dir_all : string -> W -> (IoError + unit) * W;
  (** [File::open] of the directory and [sync_all] *)
  sync_directory : string -> W -> (IoError + unit) * W;
}.

(** ** Paths *)

Definition component_text (c : Component) : string :=
  match c with RootDir => "" | CurDir => "." | ParentDir => ".." | Text.Normal s => s end.

(** The text of normalised components. *)
Definition path_text (cs : list Component) : string :=
  match cs with
  | [RootDir] => "/"
  | _ => join "/" (component_text <$> cs)
  end.

Definition dot : Ascii.ascii := Ascii.ascii_of_nat 46.

(** [Path::file_stem]: up to the last dot, unless nothing is before it. *)
Definition file_stem (name : string) : string :=
  match rposition dot (bytes name) with
  | None | Some O => name
  | Some n => of_bytes (take n (bytes name))
  end.

(** [Path::parent], and [Path::with_extension] *)
Definition store_parent (path : string) : option string :=
  match rev (components path) with
  | [] | [RootDir] => None
  | _ :: rest => Some (path_text (rev rest))
  end.

Definition with_extension (path extension : string) : string :=
  match rev (components path) with
  | Text.Normal name :: rest =>
      path_text (rev (Text.Normal (file_stem name +:+ "." +:+ extension) :: rest))
  | _ => path
  end.

Section store.
Context {W : Type} `{!StoreKernel W}.
(** [FileStateStore::path] *)
Context (path : string).

Definition journal_parent : sched_result string :=
  match store_parent path with
  | Some parent => inr parent
  | None => inl (InvalidData path "journal path does not have a parent directory")
  end.

Definition store_io {A} (operation where_ : string) (r : (IoError + A) * W) : sched_result A * W :=
  (match r.1 with inl e => inl (platform_io operation where_ e) | inr a => inr a end, r.2).

Definition sync_parent (w : W) : sched_result unit * W :=
  and_then (journal_parent, w) (fun parent w =>
  store_io "fsync journal directory" parent (sync_directory parent w)).

Definition file_load (w : W) : sched_result (option (list Z)) * W :=
  let '(file, w) := open_existing path w in
  match file with
  | inl e => (if decide (io_kind e = NotFound) then inr None else inl (platform_io "open journal" path e), w)
  | inr file =>
      and_then (store_io "read journal" path (read_file file (MAX_JOURNAL_ENVELOPE_BYTES + 1) w))
        (fun content w =>
      (if MAX_JOURNAL_ENVELOPE_BYTES <? Z.of_nat (length content)
       then inl (InvalidData path ("journal exceeds " +:+ to_string MAX_JOURNAL_ENVELOPE_BYTES +:+ " bytes"))
       else inr (Some content), w))
  end.

Definition temporary : string := with_extension path "json.new".

Definition file_store_durable (content : list Z) (w : W) : sched_result unit * W :=
  and_then (journal_parent, w) (fun parent w =>
  and_then (store_io "create journal directory" parent (create_dir_all parent w)) (fun _ w =>
  and_then (store_io "open journal temporary" temporary (open_temporary temporary w)) (fun file w =>
  and_then (store_io "write journal temporary" temporary (write_file file content w)) (fun _ w =>
  and_then (store_io "fsync journal temporary" temporary (sync_all file w)) (fun _ w =>
  and_then (store_io "replace journal" path (rename temporary path w)) (fun _ w =>
  sync_parent w)))))).

Definition file_remove_durable (w : W) : sched_result unit * W :=
  let '(r, w) := remove_file path w in
  match r with
  | inr _ => sync_parent w
  | inl e => (if decide (io_kind e = NotFound) then inr tt else inl (platform_io "remove journal" path e), w)
  end.
End store.

(** ** What a crash leaves *)

Notation content := (option (list Z)) (only parsing).

Section crashes.
Context {W : Type} `{!StoreKernel W} (path : string).

(** The file system has, for the journal's name, the content a reader sees, and
    the contents a crash now may leave; [seen] collects what a crash at any
    moment so far could have left. [written] is what a handle has written, and
    [staged] the content of the temporary file that is certain. *)
Record Images := {
  visible : W -> content;
  leaves : W -> content -> Prop;
  seen : W -> content -> Prop;
  staged : W -> content;
  written : StoreFile -> W -> content;
}.

Context (im : Images).

(** Moments between two states are no worse than the states. *)
Definition between (w w' : W) : Prop :=
  forall x, seen im w' x -> seen im w x \/ leaves im w x \/ leaves im w' x.
Definition quiet (w w' : W) : Prop :=
  visible im w' = visible im w /\ (forall x, leaves im w' x -> leaves im w x) /\ between w w'.

(** A rename replaces the journal as a whole, with the content of the temporary
    file when that is certain; it, and a removal, are certain after a crash
    only when the directory was flushed. A call that fails may have had its
    effect, or not. *)
Record crash_laws : Prop := {
  cr_open w r w' : open_existing path w = (r, w') ->
    quiet w w' /\ (forall e, r = inl e -> io_kind e = NotFound -> visible im w = None);
  cr_read file n w r w' : read_file file n w = (r, w') ->
    quiet w w' /\ forall bytes, r = inr bytes -> exists all, visible im w = Some all /\ bytes = take (Z.to_nat n) all;
  cr_create p w r w' : create_dir_all p w = (r, w') -> quiet w w';
  cr_temporary w r w' : open_temporary (temporary path) w = (r, w') -> quiet w w';
  cr_write file bytes w r w' : write_file file bytes w = (r, w') ->
    quiet w w' /\ (r = inr tt -> written im file w' = Some bytes);
  cr_sync file w r w' : sync_all file w = (r, w') ->
    quiet w w' /\ (r = inr tt -> staged im w' = written im file w);
  cr_rename bytes w r w' : staged im w = Some bytes -> rename (temporary path) path w = (r, w') ->
    between w w' /\ (forall x, leaves im w' x -> leaves im w x \/ x = Some bytes)
    /\ (visible im w' = Some bytes \/ exists e, r = inl e /\ visible im w' = visible im w);
  cr_directory p w r w' : store_parent path = Some p -> sync_directory p w = (r, w') ->
    quiet w w' /\ (r = inr tt -> forall x, leaves im w' x -> x = visible im w);
  cr_remove w r w' : remove_file path w = (r, w') ->
    between w w' /\ (forall x, leaves im w' x -> leaves im w x \/ x = None)
    /\ match r with
       | inr _ => visible im w' = None
       | inl e => (visible im w' = visible im w \/ visible im w' = None)
                  /\ (io_kind e = NotFound -> quiet w w' /\ visible im w = None)
       end;
}.

Context (laws : crash_laws).

(** Everything a reader or a crash can find is [old] or [new]. *)
Record one_of (old new : content) (w0 w : W) : Prop := {
  oo_visible : visible im w = old \/ visible im w = new;
  oo_leaves x : leaves im w x -> x = old \/ x = new;
  oo_seen x : seen im w x -> seen im w0 x \/ x = old \/ x = new;
}.

(** The journal is certain to be [old]. *)
Definition settled (old : content) (w : W) : Prop :=
  visible im w = old /\ forall x, leaves im w x -> x = old.

Lemma one_of_quiet old new w0 w w' : one_of old new w0 w -> quiet w w' -> one_of old new w0 w'.
Proof.
  intros [V L S] (Ev & El & Eb). constructor; [by rewrite Ev|auto|].
  intros x [?|[?|?]]%Eb; [by apply S|right; by apply L|right; by apply L, El].
Qed.

Lemma settled_one_of old new w : settled old w -> one_of old new w w.
Proof. intros [V L]. constructor; [by left|intros x Hx; left; by apply L|by left]. Qed.

Lemma store_io_eq {A} operation p (r : (IoError + A) * W) x w :
  store_io operation p r = (x, w) -> exists r0, r = (r0, w) /\ forall a, x = inr a -> r0 = inr a.
Proof.
  destruct r as [r0 w1]. unfold store_io. simpl. intros [= <- <-]. exists r0. split; [done|].
  destruct r0; [done|]. by intros ? [= <-].
Qed.
Lemma sync_parent_spec w r w' :
  sync_parent path w = (r, w') ->
  quiet w w' /\ (r = inr tt -> forall x, leaves im w' x -> x = visible im w).
Proof.
  unfold sync_parent, journal_parent. destruct (store_parent path) as [parent|] eqn:Ep; simpl.
  - intros (r0 & H & Hr)%store_io_eq. destruct (cr_directory laws _ _ _ _ Ep H) as [Hq Hd].
    split; [done|]. intros ->. auto.
  - intros [= <- <-]. split; [|done]. split; [done|]. split; [done|]. intros x Hx. by left.
Qed.

(** The write up to the rename. *)
Lemma stage_spec bytes w r w' (k : W -> sched_result unit * W) :
  and_then (store_io "open journal temporary" (temporary path) (open_temporary (temporary path) w))
    (fun file w =>
  and_then (store_io "write journal temporary" (temporary path) (write_file file bytes w)) (fun _ w =>
  and_then (store_io "fsync journal temporary" (temporary path) (sync_all file w)) (fun _ w => k w)))
  = (r, w') ->
  (exists e, r = inl e /\ forall old new w0, one_of old new w0 w -> one_of old new w0 w')
  \/ exists w1, k w1 = (r, w') /\ staged im w1 = Some bytes
       /\ forall old new w0, one_of old new w0 w -> one_of old new w0 w1.
Proof.
  destruct (store_io _ _ _) as [r1 w1] eqn:E1. apply store_io_eq in E1 as (x1 & E1 & _).
  apply (cr_temporary laws) in E1 as Q1. destruct r1 as [e|file]; cbn [and_then].
  { intros [= <- <-]. left. exists e. split; [done|]. intros; by eapply one_of_quiet. }
  destruct (store_io _ _ _) as [r2 w2] eqn:E2. apply store_io_eq in E2 as (x2 & E2 & H2).
  apply (cr_write laws) in E2 as [Q2 S2]. destruct r2 as [e|[]]; cbn [and_then].
  { intros [= <- <-]. left. exists e. split; [done|]. intros. do 2 (eapply one_of_quiet; [|done]). done. }
  destruct (store_io _ _ _) as [r3 w3] eqn:E3. apply store_io_eq in E3 as (x3 & E3 & H3).
  apply (cr_sync laws) in E3 as [Q3 S3]. destruct r3 as [e|[]]; cbn [and_then].
  { intros [= <- <-]. left. exists e. split; [done|]. intros. do 3 (eapply one_of_quiet; [|done]). done. }
  intros Hk. right. exists w3. split; [done|]. split.
  - rewrite S3, S2 by auto. done.
  - intros. do 3 (eapply one_of_quiet; [|done]). done.
Qed.

Lemma file_store_durable_spec old bytes w r w' :
  settled old w -> file_store_durable path bytes w = (r, w') ->
  one_of old (Some bytes) w w' /\ (r = inr tt -> settled (Some bytes) w').
Proof.
  intros Hw. apply settled_one_of with (new := Some bytes) in Hw as Ho. unfold file_store_durable.
  destruct (journal_parent path) as [e|parent] eqn:Ep; cbn [and_then]; [by intros [= <- <-]|].
  destruct (store_io _ _ (create_dir_all _ _)) as [r1 w1] eqn:E1. apply store_io_eq in E1 as (x1 & E1 & _).
  apply (cr_create laws) in E1. pose proof (one_of_quiet _ _ _ _ _ Ho E1) as O1.
  destruct r1 as [e|u]; cbn [and_then]; [by intros [= <- <-]|].
  intros [(e & -> & H)|(w2 & Hk & Hs & H)]%stage_spec; [split; [by apply H|done]|]. apply H in O1 as O2.
  destruct (store_io _ _ (rename _ _ _)) as [r3 w3] eqn:E3. apply store_io_eq in E3 as (x3 & E3 & H3).
  destruct (cr_rename laws _ _ _ _ Hs E3) as (B3 & L3 & V3).
  assert (O3 : one_of old (Some bytes) w w3).
  { destruct O2 as [V L S]. constructor.
    - destruct V3 as [->|(e & _ & ->)]; auto.
    - intros x [?%L| ->]%L3; auto.
    - intros x [?|[?|[?%L| ->]%L3]]%B3; [by apply S|right; by apply L|right; done|auto]. }
  destruct r3 as [e|u3]; cbn [and_then] in Hk; [by injection Hk as <- <-|].
  apply sync_parent_spec in Hk as [Q4 D4]. split; [by eapply one_of_quiet|]. intros ->.
  rewrite (H3 _ eq_refl) in V3. destruct V3 as [V3|(e & [=] & _)].
  split; [destruct Q4 as [-> _]; done|]. intros x Hx. rewrite (D4 eq_refl x Hx). done.
Qed.

Lemma file_remove_durable_spec old w r w' :
  settled old w -> file_remove_durable path w = (r, w') ->
  one_of old None w w' /\ (r = inr tt -> settled None w').
Proof.
  intros Hw. apply settled_one_of with (new := None) in Hw as Ho. unfold file_remove_durable.
  destruct (remove_file path w) as [r1 w1] eqn:E. destruct (cr_remove laws _ _ _ E) as (B & L & V).
  assert (O1 : one_of old None w w1).
  { destruct Ho as [Vo Lo So]. constructor.
    - destruct r1 as [e|u]; [|auto]. destruct V as [[V|V] _]; [rewrite V|]; auto.
    - intros x [?%Lo| ->]%L; auto.
    - intros x [?|[?|[?%Lo| ->]%L]]%B; auto. }
  destruct r1 as [e|u].
  - destruct (decide (io_kind e = NotFound)) as [Hn|]; intros [= <- <-]; (split; [done|]); [|done]. intros _.
    destruct V as [_ V]. destruct (V Hn) as [(Qv & Ql & _) Hv]. destruct Hw as [Vw Lw].
    split; [congruence|]. intros x Hx%Ql%Lw. congruence.
  - intros [Q D]%sync_parent_spec. split; [by eapply one_of_quiet|]. intros ->.
    split; [destruct Q as [-> _]; done|]. intros x Hx. by rewrite (D eq_refl x Hx).
Qed.
Lemma settled_quiet old w w' : settled old w -> quiet w w' -> settled old w'.
Proof. intros [V L] (Ev & El & _). split; [congruence|auto]. Qed.

Lemma load_spec old w r w' :
  settled old w -> file_load path w = (r, w') -> settled old w' /\ forall x, r = inr x -> x = old.
Proof.
  intros Hw. unfold file_load. destruct (open_existing path w) as [f w1] eqn:E1.
  destruct (cr_open laws _ _ _ E1) as [Q1 N1]. pose proof (settled_quiet _ _ _ Hw Q1) as S1.
  destruct f as [e|file].
  - intros [= <- <-]. split; [done|]. destruct (decide _) as [Hn|]; [|done]. intros x [= <-].
    destruct Hw as [<- _]. symmetry. by apply (N1 e).
  - destruct (store_io _ _ _) as [r2 w2] eqn:E2. apply store_io_eq in E2 as (x2 & E2 & H2).
    destruct (cr_read laws _ _ _ _ _ E2) as [Q2 R2]. pose proof (settled_quiet _ _ _ S1 Q2) as S2.
    destruct r2 as [e|bytes]; cbn [and_then]; intros [= <- <-]; (split; [done|]); [done|].
    destruct (R2 bytes (H2 _ eq_refl)) as (all & Hv & ->).
    destruct (_ <? _) eqn:El; [done|]. intros x [= <-]. destruct S1 as [<- _]. rewrite Hv. f_equal.
    apply take_ge. rewrite length_take in El. apply Z.ltb_ge in El.
    assert (0 <= MAX_JOURNAL_ENVELOPE_BYTES) by done. revert El. generalize MAX_JOURNAL_ENVELOPE_BYTES as m. lia.
Qed.
End crashes.

(** ** The theorem *)

(** C17: The journal file is replaced and removed atomically. From a journal that is
    certain, whatever call fails and whenever the machine crashes, a reader
    finds the old or the new content and never a part of one; an operation that
    succeeds leaves only the new content, also after a crash; and a load that
    succeeds returns the content, or that there is none. *)
Theorem journal_file_atomic {W} `{!StoreKernel W} path (im : Images) (laws : crash_laws path im) old w :
  settled im old w ->
  (forall bytes r w', file_store_durable path bytes w = (r, w') ->
     one_of im old (Some bytes) w w' /\ (r = inr tt -> settled im (Some bytes) w'))
  /\ (forall r w', file_remove_durable path w = (r, w') ->
     one_of im old None w w' /\ (r = inr tt -> settled im None w'))
  /\ (forall r w', file_load path w = (r, w') -> settled im old w' /\ forall x, r = inr x -> x = old).
Proof.
  intros Hw. split; [|split]; intros *.
  - by apply file_store_durable_spec.
  - by apply file_remove_durable_spec.
  - by apply load_spec.
Qed.

(** ** A disk *)

(** The content the journal's name has, the content the disk has for it, what
    was written to the temporary file and what of it was flushed, everything a
    crash could have left, and whether flushing the directory fails. *)
Record Disk := {
  dk_name : content;
  dk_disk : content;
  dk_temp : content;
  dk_staged : content;
  dk_seen : list content;
  dk_broken : bool;
}.

Definition disk_error (kind : IoErrorKind) : IoError := {| io_kind := kind; io_message := "disk" |}.

Definition note (d : Disk) : Disk :=
  {| dk_name := dk_name d; dk_disk := dk_disk d; dk_temp := dk_temp d; dk_staged := dk_staged d;
     dk_seen := dk_name d :: dk_disk d :: dk_seen d; dk_broken := dk_broken d |}.
Definition with_name (x : content) (d : Disk) : Disk :=
  note {| dk_name := x; dk_disk := dk_disk d; dk_temp := dk_temp d; dk_staged := dk_staged d;
          dk_seen := dk_seen d; dk_broken := dk_broken d |}.
Definition with_temp (x y : content) (d : Disk) : Disk :=
  {| dk_name := dk_name d; dk_disk := dk_disk d; dk_temp := x; dk_staged := y; dk_seen := dk_seen d;
     dk_broken := dk_broken d |}.

#[export] Instance disk_kernel : StoreKernel Disk := {
  StoreFile := unit;
  open_existing p d := (match dk_name d with Some _ => inr tt | None => inl (disk_error NotFound) end, d);
  open_temporary p d := (inr tt, with_temp (Some []) None d);
  read_file f n d :=
    (match dk_name d with Some all => inr (take (Z.to_nat n) all) | None => inl (disk_error OtherError) end, d);
  write_file f bytes d := (inr tt, with_temp (Some bytes) None d);
  sync_all f d := (inr tt, with_temp (dk_temp d) (dk_temp d) d);
  rename p q d := (inr tt, with_name (dk_staged d) d);
  remove_file p d :=
    match dk_name d with Some _ => (inr tt, with_name None d) | None => (inl (disk_error NotFound), d) end;
  create_dir_all p d := (inr tt, d);
  sync_directory p d :=
    if dk_broken d then (inl (disk_error OtherError), d)
    else (inr tt, note {| dk_name := dk_name d; dk_disk := dk_name d; dk_temp := dk_temp d;
                          dk_staged := dk_staged d; dk_seen := dk_seen d; dk_broken := false |});
}.

Definition disk_images : Images (W := Disk) :=
  {| visible := dk_name; leaves d x := x = dk_name d \/ x = dk_disk d; seen d x := x ∈ dk_seen d;
     staged := dk_staged; written f d := dk_temp d |}.

Lemma disk_laws path : crash_laws path disk_images.
Proof.
  assert (Hq : forall x y d, quiet disk_images d (with_temp x y d)) by (intros; split; [done|]; split; [done|]; intros z Hz; by left).
  assert (Hr : forall d, quiet disk_images d d) by (intros; split; [done|]; split; [done|]; intros z Hz; by left).
  assert (Hb : forall x d, between disk_images d (with_name x d)).
  { intros x d y. simpl. rewrite !elem_of_cons. tauto. }
  constructor; simpl.
  - intros d r d' [= <- <-]. split; [apply Hr|]. intros e. by destruct (dk_name d).
  - intros f n d r d' [= <- <-]. split; [apply Hr|]. intros bytes. destruct (dk_name d) as [all|]; [|done].
    intros [= <-]. eauto.
  - by intros p d r d' [= _ <-].
  - by intros d r d' [= _ <-].
  - by intros f bytes d r d' [= _ <-].
  - by intros f d r d' [= _ <-].
  - intros bytes d r d' Hs [= <- <-]. split; [apply Hb|]. simpl. rewrite Hs. split; [|by left].
    intros x [->| ->]; auto.
  - intros p d r d' _. destruct (dk_broken d); intros [= <- <-]; [split; [apply Hr|done]|].
    split; [|by intros _ x [->| ->]]. split; [done|]. split; [intros x [->| ->]; by left|].
    intros x. simpl. rewrite !elem_of_cons. tauto.
  - intros d r d'. destruct (dk_name d) eqn:En; intros [= <- <-].
    + split; [apply Hb|]. simpl. split; [|done]. intros x [->| ->]; auto.
    + split; [intros x Hx; by left|]. simpl. rewrite En. split; [tauto|].
      split; [by left|]. intros _. split; [apply Hr|done].
Qed.

Definition journal_path : string := "/var/lib/uperf/journal.json".
Definition disk (broken : bool) : Disk :=
  {| dk_name := Some [1]; dk_disk := Some [1]; dk_temp := None; dk_staged := None; dk_seen := []; dk_broken := broken |}.

(** A store over a working disk, and one whose directory cannot be flushed: the
    latter fails, and a crash may bring the old journal back. *)
Lemma journal_file_atomic_witness :
  settled disk_images (Some [2; 3]) (file_store_durable journal_path [2; 3] (disk false)).2
  /\ (one_of disk_images (Some [1]) (Some [2; 3]) (disk true)
         (file_store_durable journal_path [2; 3] (disk true)).2
      /\ leaves disk_images (file_store_durable journal_path [2; 3] (disk true)).2 (Some [1])
      /\ visible disk_images (file_store_durable journal_path [2; 3] (disk true)).2 = Some [2; 3]).
Proof.
  assert (Hs : forall broken, settled disk_images (Some [1]) (disk broken)).
  { intros broken. split; [reflexivity|]. intros x [H|H]; exact H. }
  destruct (journal_file_atomic journal_path disk_images (disk_laws journal_path) (Some [1]) (disk false) (Hs false))
    as [H1 _].
  destruct (journal_file_atomic journal_path disk_images (disk_laws journal_path) (Some [1]) (disk true) (Hs true))
    as [H2 _].
  destruct (H1 [2; 3] _ _ eq_refl) as [_ H3]. destruct (H2 [2; 3] _ _ (surjective_pairing _)) as [H4 _].
  split; [apply H3; reflexivity|]. split; [exact H4|]. split; [right; reflexivity|reflexivity].
Defined.

(** Removing the journal again after the directory could not be flushed reports
    success, because the name is gone, and flushes nothing: a crash may still
    bring the journal back. *)
Lemma retried_removal_not_durable :
  exists d, (file_remove_durable journal_path (disk true)).2 = d
    /\ (file_remove_durable journal_path (disk true)).1 <> inr tt
    /\ (file_remove_durable journal_path d).1 = inr tt
    /\ leaves disk_images (file_remove_durable journal_path d).2 (Some [1]).
Proof. eexists. split; [reflexivity|]. split; [by vm_compute|]. split; [reflexivity|]. by right. Qed.
