(* ===== verification/TouchFacts.v ===== *)
(** * Touch events follow the contact protocol

    Whatever raw events a device sends, what its machine emits is a history of
    contacts: each begins before it ends, ends once, and is a gesture only when
    it has just ended. The contacts that have begun and not ended are those the
    machine tracks. *)

From coqutil Require Import Datatypes.RecordSetters.
From stdpp Require Import gmultiset.
From S2P Require Import Prelude Float64 Domain DaemonTypes Touch.

(** ** The protocol of one device *)

Record Contacts := { open_contacts : gmultiset Z; just_ended : option Z }.

Definition no_contacts : Contacts := {| open_contacts := ∅; just_ended := None |}.

Definition contact_step (device : Z) (p : Contacts) (event : InputEvent) : option Contacts :=
  match event with
  | TouchDown c _ _ =>
      if decide (tc_device c = device)
      then Some {| open_contacts := open_contacts p ⊎ {[+ tc_tracking_id c +]}; just_ended := None |}
      else None
  | TouchUp c _ _ =>
      if decide (tc_device c = device /\ tc_tracking_id c ∈ open_contacts p)
      then Some {| open_contacts := open_contacts p ∖ {[+ tc_tracking_id c +]};
                   just_ended := Some (tc_tracking_id c) |}
      else None
  | InGesture c _ =>
      if decide (tc_device c = device /\ just_ended p = Some (tc_tracking_id c))
      then Some {| open_contacts := open_contacts p; just_ended := None |}
      else None
  | Interaction _ => None
  | Resync d => if decide (d = Some device) then Some no_contacts else None
  end.

Fixpoint contact_run (device : Z) (p : Contacts) (events : list InputEvent) : option Contacts :=
  match events with
  | [] => Some p
  | e :: events => p ← contact_step device p e; contact_run device p events
  end.

(** [events] takes the open contacts from [X] to [Y]. *)
Definition takes (device : Z) (X : gmultiset Z) (events : list InputEvent) (Y : gmultiset Z) : Prop :=
  forall e, exists e', contact_run device {| open_contacts := X; just_ended := e |} events
                       = Some {| open_contacts := Y; just_ended := e' |}.

Lemma contact_run_app device p a b :
  contact_run device p (a ++ b) = p' ← contact_run device p a; contact_run device p' b.
Proof.
  revert p. induction a as [|e a IH]; intros p; simpl; [done|].
  destruct (contact_step device p e); simpl; [apply IH|done].
Qed.

Lemma takes_nil device X : takes device X [] X.
Proof. intros e. by exists e. Qed.

Lemma takes_eq device X X' events Y Y' :
  takes device X events Y -> X' = X -> Y' = Y -> takes device X' events Y'.
Proof. by intros Ht -> ->. Qed.

Lemma takes_app device X a Y b Z : takes device X a Y -> takes device Y b Z -> takes device X (a ++ b) Z.
Proof.
  intros Ha Hb e. destruct (Ha e) as [e1 He1]. destruct (Hb e1) as [e2 He2]. exists e2.
  rewrite contact_run_app, He1. exact He2.
Qed.

Lemma takes_down device t x y X :
  takes device X [TouchDown {| tc_device := device; tc_tracking_id := t |} x y] (X ⊎ {[+ t +]}).
Proof. intros e. exists None. simpl. by rewrite decide_True. Qed.

Lemma takes_up device t x y X :
  takes device ({[+ t +]} ⊎ X) [TouchUp {| tc_device := device; tc_tracking_id := t |} x y] X.
Proof.
  intros e. exists (Some t). simpl. rewrite decide_True by (split; [done|multiset_solver]).
  simpl. f_equal. f_equal. multiset_solver.
Qed.

Lemma takes_up_gesture device t x y g X :
  takes device ({[+ t +]} ⊎ X)
    [TouchUp {| tc_device := device; tc_tracking_id := t |} x y;
     InGesture {| tc_device := device; tc_tracking_id := t |} g] X.
Proof.
  intros e. exists None. simpl. rewrite decide_True by (split; [done|multiset_solver]). simpl.
  rewrite decide_True by done. simpl. f_equal. f_equal. multiset_solver.
Qed.

Lemma takes_resync device X : takes device X [Resync (Some device)] ∅.
Proof. intros e. exists None. simpl. by rewrite decide_True. Qed.

(** ** The contacts of a machine *)

(** The contacts among [l] whose beginning was emitted. *)
Definition announced (l : list Contact) : gmultiset Z :=
  list_to_set_disj (co_tracking_id <$> List.filter co_down_emitted l).

Definition slot_contacts (slots : list SlotState) : list Contact := omap sl_active slots.

Definition tracked (m : TouchStateMachine) : list Contact :=
  tm_pending_releases m ++ slot_contacts (values (tm_slots m)).

Definition begun (m : TouchStateMachine) : gmultiset Z := announced (tracked m).

#[export] Instance announced_proper : Proper (Permutation ==> eq) announced.
Proof.
  intros l k Hlk. unfold announced. apply list_to_set_disj_perm.
  apply fmap_Permutation. induction Hlk; simpl; repeat case_match; eauto using Permutation.
Qed.

Lemma announced_cons c l :
  announced (c :: l) = (if co_down_emitted c then {[+ co_tracking_id c +]} else ∅) ⊎ announced l.
Proof. unfold announced. simpl. destruct (co_down_emitted c); simpl; multiset_solver. Qed.

Lemma announced_app l k : announced (l ++ k) = announced l ⊎ announced k.
Proof.
  induction l as [|c l IH]; [multiset_solver|]. rewrite <- app_comm_cons, !announced_cons, IH.
  multiset_solver.
Qed.

Lemma announced_quiet l : Forall (fun c => co_down_emitted c = false) l -> announced l = ∅.
Proof. induction 1 as [|c l Hc Hl IH]; [done|]. rewrite announced_cons, Hc, IH. multiset_solver. Qed.

#[export] Instance slot_contacts_proper : Proper (Permutation ==> Permutation) slot_contacts.
Proof.
  intros l k Hlk. unfold slot_contacts.
  induction Hlk; simpl; repeat case_match; eauto using Permutation.
Qed.

Lemma values_insert {V} (k : Z) (v : V) (m : gmap Z V) :
  values (<[k := v]> m) ≡ₚ v :: values (delete k m).
Proof.
  unfold values. rewrite !entries_perm, <- insert_delete_eq, map_to_list_insert by apply lookup_delete_eq.
  done.
Qed.

Lemma values_delete {V} (k : Z) (v : V) (m : gmap Z V) :
  m !! k = Some v -> values m ≡ₚ v :: values (delete k m).
Proof. intros Hk. rewrite <- (insert_id m k v) at 1 by done. apply values_insert. Qed.

Lemma values_fmap {V U} (f : V -> U) (m : gmap Z V) : values (f <$> m) ≡ₚ f <$> values m.
Proof.
  unfold values. rewrite !entries_perm, map_to_list_fmap, <- !list_fmap_compose. done.
Qed.

(** A contact was announced where it was last seen. *)
Definition contact_ok (c : Contact) : Prop := co_down_emitted c = true -> is_Some (co_last c).

Definition machine_ok (m : TouchStateMachine) : Prop := Forall contact_ok (tracked m).

Lemma machine_ok_pending m :
  machine_ok m <-> Forall contact_ok (tm_pending_releases m)
                   /\ Forall contact_ok (slot_contacts (values (tm_slots m))).
Proof. unfold machine_ok, tracked. by rewrite Forall_app. Qed.

(** The slot [k] of [slots] gets [s]; [rest] is everything else. *)
Definition slot_at (slots : gmap Z SlotState) (k : Z) : SlotState :=
  unwrap_or (slots !! k) SlotState_default.

Lemma slot_contacts_at (slots : gmap Z SlotState) (k : Z) :
  slot_contacts (values slots)
  ≡ₚ option_list (sl_active (slot_at slots k)) ++ slot_contacts (values (delete k slots)).
Proof.
  unfold slot_at. destruct (slots !! k) as [s|] eqn:Hk; simpl.
  - rewrite (values_delete k s) by done. unfold slot_contacts at 1. simpl.
    by destruct (sl_active s).
  - by rewrite delete_id.
Qed.

Lemma slot_contacts_insert (slots : gmap Z SlotState) (k : Z) (s : SlotState) :
  slot_contacts (values (<[k := s]> slots))
  ≡ₚ option_list (sl_active s) ++ slot_contacts (values (delete k slots)).
Proof. rewrite values_insert. unfold slot_contacts at 1. simpl. by destruct (sl_active s). Qed.

Section touch.
Context (hypot : f64 -> f64 -> f64).

(** ** Refreshing *)

Lemma refresh_point_same axes w c :
  co_tracking_id (refresh_point hypot axes w c) = co_tracking_id c
  /\ co_down_emitted (refresh_point hypot axes w c) = co_down_emitted c
  /\ (is_Some (co_last c) -> is_Some (co_last (refresh_point hypot axes w c))).
Proof. unfold refresh_point. repeat case_match; simpl; eauto. Qed.

Lemma refreshed_announced m c l : announced (refreshed hypot m c :: l) = announced (c :: l).
Proof.
  rewrite !announced_cons. unfold refreshed.
  by destruct (refresh_point_same (tm_axes m) (ge_edge_width (tm_config m)) c) as (-> & -> & _).
Qed.

Lemma refreshed_ok m c : contact_ok c -> contact_ok (refreshed hypot m c).
Proof.
  unfold contact_ok, refreshed. intros Hc.
  destruct (refresh_point_same (tm_axes m) (ge_edge_width (tm_config m)) c) as (_ & -> & Hl). auto.
Qed.

(** ** Committing a frame *)

Lemma finished_takes d config c X :
  contact_ok c ->
  takes d (announced [c] ⊎ X) (append_finished_contact d config c) X.
Proof.
  intros Hc. unfold append_finished_contact. rewrite announced_cons.
  change (announced []) with (∅ : gmultiset Z). unfold contact_ok in Hc.
  destruct (co_last c) as [p|]; [|destruct (co_down_emitted c); [by destruct Hc|]].
  - set (t := co_tracking_id c).
    assert (Hup : takes d ({[+ t +]} ⊎ X)
      ([TouchUp (contact_id d c) (pt_x p) (pt_y p)]
       ++ (if is_gesture config c then [InGesture (contact_id d c) (co_maximum_distance c)] else [])) X)
      by (destruct (is_gesture config c); [apply takes_up_gesture|apply takes_up]).
    destruct (co_down_emitted c); simpl.
    + replace ({[+ t +]} ⊎ ∅ ⊎ X) with ({[+ t +]} ⊎ X) by multiset_solver. exact Hup.
    + eapply (takes_app _ _ [_]); [apply takes_down|]. fold t.
      replace (∅ ⊎ ∅ ⊎ X ⊎ {[+ t +]}) with ({[+ t +]} ⊎ X) by multiset_solver. exact Hup.
  - replace (∅ ⊎ ∅ ⊎ X) with X by multiset_solver. apply takes_nil.
Qed.

Lemma releases_take m l X :
  Forall contact_ok l ->
  takes (tm_device_id m) (announced l ⊎ X)
    (flat_map (fun c => append_finished_contact (tm_device_id m) (tm_config m) (refreshed hypot m c)) l) X.
Proof.
  induction 1 as [|c l Hc Hl IH]; simpl.
  - replace (announced [] ⊎ X) with X by multiset_solver. apply takes_nil.
  - eapply takes_app; [|exact IH]. rewrite <- (refreshed_announced m), announced_cons.
    pose proof (finished_takes (tm_device_id m) (tm_config m) (refreshed hypot m c)
                  (announced l ⊎ X) (refreshed_ok m c Hc)) as Ht.
    rewrite announced_cons in Ht. change (announced []) with (∅ : gmultiset Z) in Ht.
    match goal with |- takes _ ?A _ _ => match type of Ht with takes _ ?B _ _ =>
      replace A with B by multiset_solver end end. exact Ht.
Qed.

Lemma commit_slot_takes m s X :
  takes (tm_device_id m) (announced (option_list (sl_active s)) ⊎ X) (commit_slot hypot m s).1
    (announced (option_list (sl_active (commit_slot hypot m s).2)) ⊎ X).
Proof.
  unfold commit_slot. destruct (sl_active s) as [c|] eqn:Hs; simpl; [|rewrite Hs; apply takes_nil].
  assert (E : announced [c] = announced [refreshed hypot m c]) by (symmetry; apply refreshed_announced).
  rewrite E. set (c' := refreshed hypot m c). clearbody c'.
  destruct (co_last c') as [p|]; [|apply takes_nil].
  destruct (co_down_emitted c') eqn:Hd; simpl; [apply takes_nil|].
  rewrite !announced_cons, Hd. simpl.
  change (announced []) with (∅ : gmultiset Z).
  replace ({[+ co_tracking_id c' +]} ⊎ ∅ ⊎ X) with (∅ ⊎ ∅ ⊎ X ⊎ {[+ co_tracking_id c' +]}) by multiset_solver.
  apply takes_down.
Qed.

Lemma slots_take m slots X :
  takes (tm_device_id m) (announced (slot_contacts slots) ⊎ X)
    (flat_map (fun s => (commit_slot hypot m s).1) slots)
    (announced (slot_contacts ((fun s => (commit_slot hypot m s).2) <$> slots)) ⊎ X).
Proof.
  revert X. induction slots as [|s slots IH]; intros X; [apply takes_nil|]. simpl flat_map.
  assert (E : forall s l, announced (slot_contacts (s :: l))
                          = announced (option_list (sl_active s)) ⊎ announced (slot_contacts l)).
  { intros s' l. rewrite <- announced_app. unfold slot_contacts. simpl. by destruct (sl_active s'). }
  rewrite fmap_cons, !E.
  eapply takes_app.
  - rewrite <- (assoc_L (⊎)). apply commit_slot_takes.
  - set (A := announced (option_list (sl_active (commit_slot hypot m s).2))).
    eapply takes_eq; [apply (IH (A ⊎ X))|multiset_solver..].
Qed.

Lemma commit_slot_ok m s :
  Forall contact_ok (option_list (sl_active s)) ->
  Forall contact_ok (option_list (sl_active (commit_slot hypot m s).2)).
Proof.
  unfold commit_slot. destruct (sl_active s) as [c|] eqn:Hs; simpl; [|by rewrite Hs].
  rewrite Forall_singleton. intros Hc%(refreshed_ok m).
  destruct (co_last (refreshed hypot m c)) as [p|] eqn:Hp; simpl; [|by constructor].
  destruct (co_down_emitted (refreshed hypot m c)) eqn:Hd; simpl; constructor; try done.
  intros _. exists p. exact Hp.
Qed.

Lemma slot_contacts_ok slots :
  Forall contact_ok (slot_contacts slots)
  <-> Forall (fun s => Forall contact_ok (option_list (sl_active s))) slots.
Proof.
  induction slots as [|s slots IH]; [by split|]. rewrite Forall_cons, <- IH. unfold slot_contacts.
  simpl. destruct (sl_active s); simpl; rewrite ?Forall_cons; naive_solver.
Qed.

Lemma commit_frame_takes m :
  machine_ok m ->
  takes (tm_device_id m) (begun m) (commit_frame hypot m).1 (begun (commit_frame hypot m).2)
  /\ machine_ok (commit_frame hypot m).2.
Proof.
  intros (Hp & Hs)%machine_ok_pending. unfold commit_frame, begun, tracked. simpl. split.
  - eapply takes_app; [rewrite announced_app; by apply releases_take|].
    pose proof (slots_take m (values (tm_slots m)) ∅) as Ht.
    eapply takes_eq; [exact Ht|multiset_solver|].
    rewrite values_fmap. multiset_solver.
  - apply machine_ok_pending. simpl. split; [constructor|]. rewrite values_fmap.
    apply slot_contacts_ok. apply Forall_fmap. rewrite slot_contacts_ok in Hs.
    eapply Forall_impl; [exact Hs|]. intros s. apply commit_slot_ok.
Qed.

(** ** Tracking and moving *)

(** A machine whose contacts are those of [m], up to fresh ones. *)
Definition retracks (m m' : TouchStateMachine) : Prop :=
  tm_device_id m' = tm_device_id m /\ (machine_ok m -> machine_ok m' /\ begun m' = begun m).

Lemma tracked_release m k s c :
  tracked (push_release c (set_slot k s m))
  ≡ₚ c :: option_list (sl_active s) ++ tm_pending_releases m ++ slot_contacts (values (delete k (tm_slots m))).
Proof.
  unfold tracked, push_release, set_slot. simpl. rewrite slot_contacts_insert. solve_Permutation.
Qed.

Lemma tracked_set m k s :
  tracked (set_slot k s m)
  ≡ₚ option_list (sl_active s) ++ tm_pending_releases m ++ slot_contacts (values (delete k (tm_slots m))).
Proof. unfold tracked, set_slot. simpl. rewrite slot_contacts_insert. solve_Permutation. Qed.

Lemma tracked_at m k :
  tracked m ≡ₚ option_list (sl_active (slot_at (tm_slots m) k))
               ++ tm_pending_releases m ++ slot_contacts (values (delete k (tm_slots m))).
Proof. unfold tracked. rewrite (slot_contacts_at _ k). solve_Permutation. Qed.

(** One way to show that a machine retracks another: its contacts are those of
    the other and [fresh], which is not announced. *)
Lemma retracks_perm (m m' : TouchStateMachine) (fresh : list Contact) :
  tm_device_id m' = tm_device_id m ->
  Forall (fun c => co_down_emitted c = false) fresh ->
  tracked m' ≡ₚ fresh ++ tracked m -> retracks m m'.
Proof.
  intros Hid Hf Ht. split; [done|]. unfold machine_ok, begun. rewrite Ht. intros Hok. split.
  - apply Forall_app. split; [|done]. eapply Forall_impl; [exact Hf|]. intros c Hc Hd. by rewrite Hc in Hd.
  - rewrite announced_app, announced_quiet by done. multiset_solver.
Qed.

Lemma handle_tracking_id_retracks id m : retracks m (handle_tracking_id id m).
Proof.
  unfold handle_tracking_id. destruct (tm_current_slot m) as [k|]; [|by apply (retracks_perm _ _ [])].
  fold (slot_at (tm_slots m) k).
  assert (Hsame : retracks m (set_slot k (slot_at (tm_slots m) k) m)).
  { apply (retracks_perm _ _ []); [done|done|]. by rewrite tracked_set, (tracked_at m k). }
  assert (Hnew : forall t, retracks m
    (match sl_active (slot_at (tm_slots m) k) with
     | Some c => push_release c (set_slot k {| sl_active := Some (Contact_new t) |} m)
     | None => set_slot k {| sl_active := Some (Contact_new t) |} m
     end)).
  { intros t. apply (retracks_perm _ _ [Contact_new t]); [by destruct (sl_active _)|by repeat constructor|].
    rewrite (tracked_at m k). destruct (sl_active (slot_at _ k)) as [c|].
    - rewrite tracked_release. simpl. solve_Permutation.
    - by rewrite tracked_set. }
  destruct (id =? -1).
  - apply (retracks_perm _ _ []); [by destruct (sl_active _)|constructor|].
    rewrite (tracked_at m k). destruct (sl_active (slot_at _ k)) as [c|].
    + by rewrite tracked_release.
    + by rewrite tracked_set.
  - destruct (tracking_of id) as [t|]; [|exact Hsame].
    destruct (is_some_and _ _); [exact Hsame|apply Hnew].
Qed.

Lemma update_position_retracks x y m : retracks m (update_position hypot x y m).
Proof.
  unfold update_position. destruct (tm_current_slot m) as [k|]; [|by apply (retracks_perm _ _ [])].
  destruct (tm_slots m !! k ≫= sl_active) as [c|] eqn:Hc; [|by apply (retracks_perm _ _ [])].
  set (c' := match y with Some _ => _ | None => _ end).
  assert (Hsame : co_tracking_id c' = co_tracking_id c /\ co_down_emitted c' = co_down_emitted c
                  /\ co_last c' = co_last c) by (subst c'; by destruct x, y).
  clearbody c'. destruct Hsame as (Ht & Hd & Hl).
  assert (Hat : sl_active (slot_at (tm_slots m) k) = Some c).
  { unfold slot_at. destruct (tm_slots m !! k); [exact Hc|done]. }
  split; [done|]. unfold machine_ok, begun. rewrite tracked_set, (tracked_at m k), Hat. simpl.
  rewrite !Forall_cons. intros [Hok Hrest]. split.
  - split; [|done]. apply refreshed_ok. unfold contact_ok in *. by rewrite Hd, Hl.
  - rewrite refreshed_announced, !announced_cons, Ht, Hd. done.
Qed.

(** ** The machine *)

Lemma empty_machine (m : TouchStateMachine) :
  tm_slots m = ∅ -> tm_pending_releases m = [] -> machine_ok m /\ begun m = ∅.
Proof.
  intros Hs Hp. unfold machine_ok, begun, tracked. rewrite Hs, Hp. split; [constructor|].
  vm_compute. done.
Qed.

Lemma retracks_takes m m' :
  retracks m m' -> machine_ok m ->
  takes (tm_device_id m) (begun m) [] (begun m') /\ machine_ok m' /\ tm_device_id m' = tm_device_id m.
Proof. intros [Hid Hr] Hok. destruct (Hr Hok) as [Hok' ->]. auto using takes_nil. Qed.

(** Every raw event keeps the machine sound and its output a history. *)
Lemma touch_handle_takes m event :
  machine_ok m ->
  let out := touch_handle hypot m event in
  takes (tm_device_id m) (begun m) out.1 (begun out.2) /\ machine_ok out.2
  /\ tm_device_id out.2 = tm_device_id m.
Proof.
  intros Hok out. subst out.
  assert (Hquiet : forall m', tm_device_id m' = tm_device_id m -> tracked m' = tracked m -> retracks m m').
  { intros m' Hid Ht. apply (retracks_perm _ _ []); [done|constructor|]. by rewrite Ht. }
  unfold touch_handle. destruct event; simpl.
  6: { destruct (empty_machine (reset_after_drop m)) as [Ho He]; [done..|]. rewrite He.
       auto using takes_resync. }
  all: destruct (tm_desynchronized m); simpl; try (apply retracks_takes; [by apply Hquiet|done]).
  - apply retracks_takes; [apply handle_tracking_id_retracks|done].
  - apply retracks_takes; [apply update_position_retracks|done].
  - apply retracks_takes; [apply update_position_retracks|done].
  - destruct (commit_frame_takes m Hok) as [Ht Ho]. auto.
Qed.

(** A rebuild starts from nothing: it is a history of its own once the reset
    was emitted. *)
Lemma rebuild_takes id x y m :
  let out := rebuild_single_slot hypot id x y m in
  takes (tm_device_id m) ∅ out.1 (begun out.2) /\ machine_ok out.2
  /\ tm_device_id out.2 = tm_device_id m.
Proof.
  intros out. subst out. unfold rebuild_single_slot. cbv zeta.
  destruct (tracking_of id) as [t|]; simpl.
  - match goal with |- context [set_slot ?K ?S ?M] => set (e := M); set (n := set_slot K S e) end.
    destruct (empty_machine e) as [Ho He]; [done..|].
    assert (Hr : retracks e n).
    { apply (retracks_perm _ _ [(Contact_new t) <|co_raw_x := Some x|> <|co_raw_y := Some y|>]);
        [done|by repeat constructor|]. subst n. by rewrite tracked_set. }
    destruct Hr as [_ Hr]. destruct (Hr Ho) as [Hn Hb].
    destruct (commit_frame_takes n Hn) as [Ht Ho']. rewrite Hb, He in Ht. auto.
  - match goal with |- takes _ _ _ (begun ?M) /\ _ => destruct (empty_machine M) as [Ho He]; [done..|] end.
    rewrite He. auto using takes_nil.
Qed.
End touch.
