(* ===== verification/DecisionTrace.v ===== *)
(** * The decision trace ([uperf-daemon/src/decision_trace.rs])

    A bounded ring of completed reconciliations, with a paged reader. It
    refines the unbounded history of all reconciliations: a reader at most
    [TRACE_CAPACITY] entries behind misses nothing. *)

From S2P Require Import Prelude Domain Scene Engine DaemonTypes.

Definition TRACE_CAPACITY : nat := 1024.
Definition MAX_TRACE_PAGE : Z := 512.

Record TraceState := {
  next_decision_id : Z;
  next_reconcile_id : Z;
  trace_entries : list DecisionTraceEntry;
}.

Definition TraceState_default : TraceState :=
  {| next_decision_id := 0; next_reconcile_id := 0; trace_entries := [] |}.

Record DecisionTraceContext := {
  tc_trigger_source : string;
  tc_trigger_monotonic_ms : Z;
  tc_governor : GovernorDiagnosticsStatus;
}.

(** [u64::try_from(duration.as_micros()).unwrap_or(u64::MAX)], with the duration
    in nanoseconds. *)
Definition micros (duration : Z) : Z := Z.min (duration / 1000) u64_max.

Definition format_errors (frequency_error scheduler_error : option text) : text :=
  match frequency_error, scheduler_error with
  | None, None => []
  | Some error, None => PText "frequency: " :: error
  | None, Some error => PText "scheduler: " :: error
  | Some frequency, Some scheduler =>
      PText "frequency: " :: frequency ++ PText "; scheduler: " :: scheduler
  end.

Definition frequency_snapshot (m : gmap string FrequencyLimits) : list DecisionFrequency :=
  (fun kv : string * FrequencyLimits =>
     {| df_target_id := kv.1; df_min_hz := lim_min kv.2; df_max_hz := lim_max kv.2 |}) <$> entries m.

Section trace.
(** [serde_json::to_string] of a scalar setting. *)
Context (scalar_json : ScalarSettingValue -> string).

Definition scalar_snapshot (m : gmap string ScalarSettingValue) : list DecisionScalar :=
  (fun kv : string * ScalarSettingValue =>
     {| ds_target_id := kv.1; ds_value_json := scalar_json kv.2 |}) <$> entries m.

(** The arguments of [record_reconcile]. *)
Record Reconciliation := {
  re_monotonic_ms : Z;
  re_duration : Z;
  re_desired : DesiredPlan;
  re_applied : AppliedState;
  re_frequency_attempted : bool;
  re_scheduler_attempted : bool;
  re_frequency_error : option text;
  re_scheduler_error : option text;
  re_context : DecisionTraceContext;
}.

Definition entry_of_reconcile (decision_id reconcile_id : Z) (r : Reconciliation)
  : DecisionTraceEntry :=
  let error := format_errors (re_frequency_error r) (re_scheduler_error r) in
  {| dt_decision_id := decision_id;
     dt_reconcile_id := reconcile_id;
     dt_monotonic_ms := re_monotonic_ms r;
     dt_duration_us := micros (re_duration r);
     dt_generation := dp_generation (re_desired r);
     dt_profile := profile_name (dp_effective_profile (re_desired r));
     dt_scene := scene_name (dp_dominant_scene (re_desired r));
     dt_frequency_attempted := re_frequency_attempted r;
     dt_scheduler_attempted := re_scheduler_attempted r;
     dt_desired_frequencies := frequency_snapshot (dp_frequencies (re_desired r));
     dt_applied_frequencies := frequency_snapshot (ap_frequencies (re_applied r));
     dt_success := match error with [] => true | _ => false end;
     dt_error := error;
     dt_trigger_source := tc_trigger_source (re_context r);
     dt_trigger_monotonic_ms := tc_trigger_monotonic_ms (re_context r);
     dt_verified_apply_latency_us :=
       sat_add (sat_mul (sat_sub (re_monotonic_ms r) (tc_trigger_monotonic_ms (re_context r))) 1000)
         (micros (re_duration r));
     dt_governor := tc_governor (re_context r);
     dt_desired_scalars := scalar_snapshot (dp_scalars (re_desired r));
     dt_applied_scalars := scalar_snapshot (ap_scalars (re_applied r)) |}.

Definition record_reconcile (s : TraceState) (r : Reconciliation) : TraceState :=
  let decision := sat_add (next_decision_id s) 1 in
  let reconcile := sat_add (next_reconcile_id s) 1 in
  let kept := if (length (trace_entries s) =? TRACE_CAPACITY)%nat
              then tail (trace_entries s) else trace_entries s in
  {| next_decision_id := decision; next_reconcile_id := reconcile;
     trace_entries := kept ++ [entry_of_reconcile decision reconcile r] |}.

Definition page (s : TraceState) (after_id limit : Z) : list DecisionTraceEntry :=
  take (Z.to_nat limit) (List.filter (fun e => after_id <? dt_decision_id e) (trace_entries s)).

(** ** The history the ring abstracts *)

Definition history (rs : list Reconciliation) : list DecisionTraceEntry :=
  imap (fun i r => entry_of_reconcile (Z.of_nat i + 1) (Z.of_nat i + 1) r) rs.

Definition recorded (rs : list Reconciliation) : TraceState :=
  foldl record_reconcile TraceState_default rs.

Lemma history_snoc rs r :
  history (rs ++ [r]) =
  history rs ++ [entry_of_reconcile (Z.of_nat (length rs) + 1) (Z.of_nat (length rs) + 1) r].
Proof. unfold history. rewrite imap_app. simpl. by rewrite Nat.add_0_r. Qed.

Lemma length_history rs : length (history rs) = length rs.
Proof. apply length_imap. Qed.

Lemma tail_drop {A} (l : list A) n : tail (drop n l) = drop (S n) l.
Proof. revert l. induction n as [|n IH]; intros [|x l]; simpl; auto. Qed.

(** The ring holds the last entries of the history. *)
Lemma recorded_spec rs :
  Z.of_nat (length rs) <= u64_max ->
  recorded rs =
    {| next_decision_id := Z.of_nat (length rs); next_reconcile_id := Z.of_nat (length rs);
       trace_entries := drop (length rs - TRACE_CAPACITY) (history rs) |}.
Proof.
  induction rs as [|r rs IH] using rev_ind; intros Hlen; [done|].
  rewrite length_app in *. simpl in Hlen. unfold recorded in *. rewrite foldl_app. simpl.
  rewrite IH by lia. unfold record_reconcile. simpl.
  assert (Hid : sat_add (Z.of_nat (length rs)) 1 = Z.of_nat (length rs) + 1)
    by (unfold sat_add, u64_max in *; lia).
  rewrite Hid, history_snoc, length_drop, length_history.
  replace (Z.of_nat (length rs + 1)) with (Z.of_nat (length rs) + 1) by lia. f_equal.
  destruct (Nat.eqb_spec (length rs - (length rs - TRACE_CAPACITY)) TRACE_CAPACITY) as [Hfull|Hroom].
  - rewrite tail_drop, drop_app_le by (rewrite length_history; unfold TRACE_CAPACITY in *; lia).
    do 2 f_equal. unfold TRACE_CAPACITY in *. lia.
  - rewrite drop_app_le by (rewrite length_history; unfold TRACE_CAPACITY in *; lia).
    do 2 f_equal. unfold TRACE_CAPACITY in *. lia.
Qed.

(** Identifiers are positions, so filtering by identifier drops a prefix. *)
Lemma filter_after (rs : list Reconciliation) (k n : nat) after_id :
  0 <= after_id ->
  List.filter (fun e => after_id <? dt_decision_id e)
    (drop k (imap (fun i r => entry_of_reconcile (Z.of_nat (n + i) + 1) (Z.of_nat (n + i) + 1) r) rs)) =
  drop (Nat.max k (Z.to_nat after_id - n))
    (imap (fun i r => entry_of_reconcile (Z.of_nat (n + i) + 1) (Z.of_nat (n + i) + 1) r) rs).
Proof.
  intros Ha. revert k n. induction rs as [|r rs IH]; intros k n; [by destruct k, (Nat.max _ _)|].
  assert (Htl : imap ((fun i r => entry_of_reconcile (Z.of_nat (n + i) + 1) (Z.of_nat (n + i) + 1) r) ∘ S) rs
              = imap (fun i r => entry_of_reconcile (Z.of_nat (S n + i) + 1) (Z.of_nat (S n + i) + 1) r) rs).
  { apply imap_ext. intros i x _. simpl. by replace (n + S i)%nat with (S (n + i)) by lia. }
  cbn [imap]. rewrite Htl. destruct k as [|k].
  - cbn [drop List.filter dt_decision_id entry_of_reconcile]. specialize (IH 0%nat (S n)).
    rewrite !drop_0 in *. rewrite IH.
    destruct (Z.ltb_spec after_id (Z.of_nat (n + 0) + 1)).
    + by replace (Nat.max 0 (Z.to_nat after_id - n)) with 0%nat by lia;
        replace (Nat.max 0 (Z.to_nat after_id - S n)) with 0%nat by lia; rewrite !drop_0.
    + by replace (Nat.max 0 (Z.to_nat after_id - n))
        with (S (Nat.max 0 (Z.to_nat after_id - S n))) by lia.
  - cbn [drop]. rewrite IH.
    by replace (Nat.max (S k) (Z.to_nat after_id - n))
      with (S (Nat.max k (Z.to_nat after_id - S n))) by lia.
Qed.

(** C36: The trace refines the history of all reconciliations: a page is the part of
    the history after the given identifier, oldest first, up to the limit, less
    only what lies more than [TRACE_CAPACITY] entries back. *)
Theorem trace_refines_history (rs : list Reconciliation) (after_id limit : Z) :
  Z.of_nat (length rs) <= u64_max -> 0 <= after_id ->
  page (recorded rs) after_id limit =
  take (Z.to_nat limit)
    (drop (Nat.max (length rs - TRACE_CAPACITY) (Z.to_nat after_id)) (history rs)).
Proof.
  intros Hlen Ha. rewrite recorded_spec by done. unfold page. simpl. f_equal.
  pose proof (filter_after rs (length rs - TRACE_CAPACITY) 0 after_id Ha) as Hf.
  simpl in Hf. rewrite Nat.sub_0_r in Hf. exact Hf.
Qed.
End trace.

(** ** A short history *)

Definition sample_governor : GovernorDiagnosticsStatus :=
  {| gds_available := false; gds_elapsed_ms := 0; gds_estimated_package_power_mw := 0;
     gds_slow_limit_power_mw := 0; gds_fast_limit_power_mw := 0; gds_effective_budget_mw := 0;
     gds_bucket_remaining_mj := 0; gds_bypassed_power_budget := false;
     gds_shared_ramp_basis_points := 0; gds_targets := [] |}.

Definition sample_reconciliation (at_ms : Z) (error : option text) : Reconciliation :=
  {| re_monotonic_ms := at_ms; re_duration := 1500;
     re_desired := {| dp_generation := 1; dp_effective_profile := Balance;
                      dp_dominant_scene := Touch;
                      dp_frequencies := {[ "cpu0" := {| lim_min := 1; lim_max := 2 |} ]};
                      dp_scalars := ∅; dp_tasks := ∅ |};
     re_applied := {| ap_generation := 1; ap_frequencies := ∅; ap_scalars := ∅; ap_tasks := ∅ |};
     re_frequency_attempted := true; re_scheduler_attempted := false;
     re_frequency_error := error; re_scheduler_error := None;
     re_context := {| tc_trigger_source := "tick"; tc_trigger_monotonic_ms := 10;
                      tc_governor := sample_governor |} |}.

Definition sample_history : list Reconciliation :=
  [sample_reconciliation 20 None; sample_reconciliation 30 (Some [PText "busy"]);
   sample_reconciliation 40 None].

Lemma trace_refines_history_witness :
  let page_of := page (recorded (fun _ => "") sample_history) in
  page_of 1 5 = take 5 (drop 1 (history (fun _ => "") sample_history)) /\
  dt_decision_id <$> page_of 1 5 = [2; 3] /\ dt_success <$> page_of 1 5 = [false; true].
Proof.
  intros page_of.
  split; [|split; vm_compute; reflexivity].
  exact (trace_refines_history (fun _ => "") sample_history 1 5
    ltac:(vm_compute; discriminate) ltac:(lia)).
Defined.
