(* ===== verification/Reconcile.v ===== *)
(** * The blocking reconciler ([uperf-daemon/src/reconcile.rs])

    One snapshot of the desired plan is brought about through the actuator:
    frequencies under the safety fence, scalars, then tasks and the workload's
    systemd unit. What has been applied is threaded as the [&mut] parameters
    are: an error keeps what was recorded before it. *)

From S2P Require Import Prelude Domain Scene Frequency ConfigTypes Validate ValidatePolicy Rules Engine ActuatorTypes Scalars Targets Journal Ports FrequencyOps ScalarOps TaskOps UnitOps Recovery DaemonTypes DecisionTrace.

(** ** The safety fence *)

Record FrequencySafetyEnvelope := {
  env_generation : Z;
  env_upper_caps : gmap string Hertz;
}.

(** The mutex is poisoned once an operation under it has panicked. *)
Record FrequencySafetyFence := {
  ff_envelope : FrequencySafetyEnvelope;
  ff_poisoned : bool;
}.

Definition fence_poisoned : text := [PText "frequency safety fence was poisoned"].

Definition replace_upper_caps (f : FrequencySafetyFence) (caps : gmap string Hertz)
  : res Z text * FrequencySafetyFence :=
  if ff_poisoned f then (Err fence_poisoned, f)
  else
    let g := sat_add (env_generation (ff_envelope f)) 1 in
    (Ok g, {| ff_envelope := {| env_generation := g; env_upper_caps := caps |};
              ff_poisoned := false |}).

Definition apply_upper_cap (limits : FrequencyLimits) (cap : Hertz) : FrequencyLimits :=
  let mx := Z.min (lim_max limits) cap in
  {| lim_min := Z.min (lim_min limits) mx; lim_max := mx |}.

(** ** Values *)

Definition actuator_scalar_value (v : ScalarSettingValue) : ScalarValue :=
  match v with
  | SettingInteger z => Integer z
  | SettingString s => Str s
  | SettingCpuList c => CpuListValue c
  end.

Definition policy_scalar_value (v : ScalarValue) : ScalarSettingValue :=
  match v with
  | Integer z => SettingInteger z
  | Str s => SettingString s
  | CpuListValue c => SettingCpuList c
  end.

(** [apply_task_plan], on the clamp pair as the code orders it: a plan with one
    side keeps the other side of the task's pair, within which it is clamped. *)
Definition apply_task_plan (current : ProcessSchedulingState) (p : TaskPlan)
  : ProcessSchedulingState :=
  let policy := default (st_policy current) (scheduling_class p) in
  let rt := match scheduling_class p with
            | Some c => if decide (c = Fifo) then st_rt_priority current else None
            | None => st_rt_priority current
            end in
  {| st_affinity := default (st_affinity current) (affinity p);
     st_nice := default (st_nice current) (nice p);
     st_policy := policy;
     st_rt_priority := match rt_priority p with Some r => Some r | None => rt end;
     st_uclamp_min :=
       match uclamp_min p, uclamp_max p with
       | Some mn, Some _ => Some mn
       | Some mn, None => Some (from_option (Z.min mn) mn (st_uclamp_max current))
       | None, _ => st_uclamp_min current
       end;
     st_uclamp_max :=
       match uclamp_min p, uclamp_max p with
       | Some _, Some mx => Some mx
       | None, Some mx => Some (from_option (Z.max mx) mx (st_uclamp_min current))
       | _, None => st_uclamp_max current
       end |}.

Definition scheduling_state_as_plan (s : ProcessSchedulingState) : TaskPlan :=
  {| affinity := Some (st_affinity s); nice := Some (st_nice s);
     scheduling_class := Some (st_policy s); rt_priority := st_rt_priority s;
     uclamp_min := st_uclamp_min s; uclamp_max := st_uclamp_max s |}.

Definition process_disappeared (e : ActuatorError) : bool :=
  match e with
  | ProcessIdentityChanged _ | Platform (Disappeared _) => true
  | _ => false
  end.

Definition append_warning (existing : option text) (warning : text) : option text :=
  match existing with
  | Some existing => Some (existing ++ PText "; " :: warning)
  | None => Some warning
  end.

Record DesiredCgroup := { dc_unit : string; dc_properties : SystemdUnitProperties }.

Record SchedulerResolution := {
  sr_tasks : gmap ProcessIdentity TaskPlan;
  sr_cgroup : option DesiredCgroup;
  sr_warning : option text;
  sr_matched_rule : option string;
  sr_cgroup_class : option string;
}.

Definition empty_resolution : SchedulerResolution :=
  {| sr_tasks := ∅; sr_cgroup := None; sr_warning := None; sr_matched_rule := None;
     sr_cgroup_class := None |}.

(** ** The reconciler's monad *)

(** The [&mut] parameters: applied state, applied units and the warning. *)
Record Progress := {
  pg_applied : AppliedState;
  pg_units : gmap string SystemdUnitProperties;
  pg_warning : option text;
}.

Definition RM (W A : Type) : Type := Progress * St W -> res A text * (Progress * St W).

#[global] Instance RM_ret W : MRet (RM W) := fun A a s => (Ok a, s).
#[global] Instance RM_bind W : MBind (RM W) := fun A B k m s =>
  match m s with
  | (Ok a, s) => k a s
  | (Err e, s) => (Err e, s)
  | (Panic, s) => (Panic, s)
  end.

Section primitives.
Context {W : Type}.

Definition rpanic {A} : RM W A := fun s => (Panic, s).
Definition reject {A} (e : text) : RM W A := fun s => (Err e, s).

(** An actuator call, its result as a value. *)
Definition tried {A} (m : M W A) : RM W (res A ActuatorError) := fun s =>
  let '(r, s') := m s.2 in
  match r with Panic => (Panic, (s.1, s')) | _ => (Ok r, (s.1, s')) end.

(** [.map_err(|error| format!(..))?] *)
Definition act {A} (context : text) (m : M W A) : RM W A :=
  r ← tried m;
  match r with
  | Ok x => mret x
  | Err e => reject (context ++ [PActuator e])
  | Panic => rpanic
  end.

(** A call of an observation port, which the actuator does not see. *)
Definition observed {A} (op : W -> (PlatformError + A) * W) : RM W (PlatformError + A) := fun s =>
  let '(r, w) := op (st_world s.2) in
  (Ok r, (s.1, {| st_rt := st_rt s.2; st_world := w; st_log := st_log s.2 |})).

Definition observe_or {A} (context : text) (op : W -> (PlatformError + A) * W) : RM W A :=
  r ← observed op;
  match r with inl e => reject (context ++ [PPlatform e]) | inr x => mret x end.

Definition get_progress : RM W Progress := fun s => (Ok s.1, s).
Definition put_progress (p : Progress) : RM W unit := fun s => (Ok tt, (p, s.2)).

Definition get_applied : RM W AppliedState := p ← get_progress; mret (pg_applied p).
Definition update_applied (f : AppliedState -> AppliedState) : RM W unit :=
  p ← get_progress;
  put_progress {| pg_applied := f (pg_applied p); pg_units := pg_units p;
                  pg_warning := pg_warning p |}.
Definition update_units
    (f : gmap string SystemdUnitProperties -> gmap string SystemdUnitProperties) : RM W unit :=
  p ← get_progress;
  put_progress {| pg_applied := pg_applied p; pg_units := f (pg_units p);
                  pg_warning := pg_warning p |}.
Definition set_warning (w : option text) : RM W unit :=
  p ← get_progress;
  put_progress {| pg_applied := pg_applied p; pg_units := pg_units p; pg_warning := w |}.

Fixpoint rfold {A S} (f : S -> A -> RM W S) (s : S) (l : list A) : RM W S :=
  match l with
  | [] => mret s
  | x :: l => s' ← f s x; rfold f s' l
  end.
End primitives.

Definition with_frequencies (f : gmap string FrequencyLimits -> gmap string FrequencyLimits)
    (s : AppliedState) : AppliedState :=
  {| ap_generation := ap_generation s; ap_frequencies := f (ap_frequencies s);
     ap_scalars := ap_scalars s; ap_tasks := ap_tasks s |}.
Definition with_applied_scalars (f : gmap string ScalarSettingValue -> gmap string ScalarSettingValue)
    (s : AppliedState) : AppliedState :=
  {| ap_generation := ap_generation s; ap_frequencies := ap_frequencies s;
     ap_scalars := f (ap_scalars s); ap_tasks := ap_tasks s |}.
Definition with_tasks (f : gmap ProcessIdentity TaskPlan -> gmap ProcessIdentity TaskPlan)
    (s : AppliedState) : AppliedState :=
  {| ap_generation := ap_generation s; ap_frequencies := ap_frequencies s;
     ap_scalars := ap_scalars s; ap_tasks := f (ap_tasks s) |}.

(** [for id in removed { map.remove(&id); }] *)
Definition remove_all {K V} `{Countable K} (l : list K) (m : gmap K V) : gmap K V :=
  foldl (fun m k => delete k m) m l.

(** The keys of [applied] that [desired] no longer has, in order. *)
Definition removed_keys {K V V'} `{KeyOrd K} (applied : gmap K V) (desired : gmap K V') : list K :=
  List.filter (fun k => negb (bool_decide (is_Some (desired !! k)))) (keys applied).

Section reconcile.
Context {W : Type} `{!Ports W} `{JournalCodec} `{!Environment W} `{RegexEngine}.
Context (a : Actuator).

(** ** Frequencies *)

(** Capping one target: one outside the plan is capped from its current pair. *)
Definition cap_target (effective : gmap string FrequencyLimits) (kv : string * Hertz)
  : RM W (gmap string FrequencyLimits) :=
  let '(id, cap) := kv in
  match effective !! id with
  | Some limits => mret (<[id := apply_upper_cap limits cap]> effective)
  | None =>
      current ← act [PText "read safety-capped frequency target "; PText id; PText ": "]
                  (actuator_read_limits a id);
      mret (<[id := apply_upper_cap current cap]> effective)
  end.

Definition request_frequency (requests : list FrequencyRequest) (kv : string * FrequencyLimits)
  : RM W (list FrequencyRequest) :=
  let '(id, limits) := kv in
  current ← act [PText "read frequency target "; PText id; PText ": "] (actuator_read_limits a id);
  if decide (current = limits)
  then update_applied (with_frequencies (<[id := current]>));; mret requests
  else mret (requests ++ [{| fr_target := id; fr_limits := limits |}]).

(** The fast path, or a durable claim when a target is not owned yet. *)
Definition apply_frequencies (requests : list FrequencyRequest) : RM W BatchOutcome :=
  r ← tried (apply_owned_batch_fast a requests);
  match r with
  | Ok outcome => mret outcome
  | Err (OwnershipRequired _) =>
      act [PText "durably claim frequency batch: "] (apply_batch a requests)
  | Err e => reject [PText "apply owned frequency batch: "; PActuator e]
  | Panic => rpanic
  end.

Definition reconcile_frequencies (desired : DesiredPlan) (upper_caps : gmap string Hertz)
  : RM W unit :=
  effective ← rfold cap_target (dp_frequencies desired) (entries upper_caps);
  applied ← get_applied;
  let removed := removed_keys (ap_frequencies applied) effective in
  act [PText "restore inactive frequency targets: "] (restore_targets a removed);;
  update_applied (with_frequencies (remove_all removed));;
  requests ← rfold request_frequency [] (entries effective);
  match requests with
  | [] => mret tt
  | _ =>
      outcome ← apply_frequencies requests;
      update_applied (with_frequencies (fun m => outcome ∪ m))
  end.

(** ** Scalars *)

Definition request_scalar (requests : list ScalarRequest) (kv : string * ScalarSettingValue)
  : RM W (list ScalarRequest) :=
  let '(id, desired_value) := kv in
  current ← act [PText "read scalar target "; PText id; PText ": "] (actuator_read_scalar a id);
  let desired_value := actuator_scalar_value desired_value in
  if decide (current = desired_value)
  then update_applied (with_applied_scalars (<[id := policy_scalar_value current]>));; mret requests
  else mret (requests ++ [{| sr_target := id; sr_value := desired_value |}]).

Definition reconcile_scalars (desired : DesiredPlan) : RM W unit :=
  applied ← get_applied;
  let removed := removed_keys (ap_scalars applied) (dp_scalars desired) in
  act [PText "restore inactive scalar targets: "] (restore_scalars a removed);;
  update_applied (with_applied_scalars (remove_all removed));;
  requests ← rfold request_scalar [] (entries (dp_scalars desired));
  match requests with
  | [] => mret tt
  | _ =>
      outcome ← act [PText "apply scalar batch: "] (apply_scalars a requests);
      update_applied (with_applied_scalars (fun m => (policy_scalar_value <$> outcome) ∪ m))
  end.

(** ** The scheduler's resolution *)

Definition resolve_thread (workload : ProcessInfo) (threads : list ProcessInfo) (tid : Z)
  : RM W (list ProcessInfo) :=
  if decide (tid = pid (identity workload)) then mret (threads ++ [workload])
  else
    r ← observed (env_process_identity tid);
    match r with
    | inr thread => mret (threads ++ [thread])
    | inl (Disappeared _) => mret threads
    | inl e => reject [PText "resolve workload thread "; PNum tid; PText ": "; PPlatform e]
    end.

(** The closure of [decision.tasks.retain]: affinities are cut to the CPUs
    online, and a task left with none keeps its own. *)
Definition retain_online (online : CpuSet)
    (acc : option text * gmap ProcessIdentity TaskPlan) (kv : ProcessIdentity * TaskPlan)
  : option text * gmap ProcessIdentity TaskPlan :=
  let '(warning, tasks) := acc in
  let '(i, plan) := kv in
  match affinity plan with
  | None => (warning, <[i := plan]> tasks)
  | Some cpus =>
      let available := CpuSet_intersection cpus online in
      if CpuSet_is_empty available
      then (append_warning warning
              [PText "task "; PNum (pid i);
               PText " has no configured CPU online; leaving its affinity unchanged"], tasks)
      else (warning,
            <[i := {| affinity := Some available; nice := nice plan;
                      scheduling_class := scheduling_class plan; rt_priority := rt_priority plan;
                      uclamp_min := uclamp_min plan; uclamp_max := uclamp_max plan |}]> tasks)
  end.

(** A unit may be mutated only while the workload is its only process, before
    and after the membership was listed. *)
Definition unit_ownership_warning (workload : ProcessIdentity) (name : string)
  : RM W (option text) :=
  r ← tried (unit_processes a name);
  match r with
  | Err e => mret (Some [PText "cannot enumerate "; PText name; PText ": "; PActuator e])
  | Panic => rpanic
  | Ok members =>
      let members := sort_dedup members in
      if negb (bool_decide (members = [pid workload]))
      then mret (Some [PText "refusing shared or ambiguous unit "; PText name;
                       PText "; members are "; PNums members])
      else
        c ← tried (unit_for_process a workload);
        match c with
        | Ok (Some current) =>
            if decide (current = name) then mret None
            else mret (Some [PText "workload unit changed while verifying ownership of "; PText name])
        | Ok None =>
            mret (Some [PText "workload unit changed while verifying ownership of "; PText name])
        | Err e => mret (Some [PText "cannot revalidate ownership of "; PText name; PText ": "; PActuator e])
        | Panic => rpanic
        end
  end.

Definition resolve_cgroup (e : PolicyEngine) (workload : ProcessIdentity) (class_id : string)
    (online : CpuSet) : RM W (option DesiredCgroup * option text) :=
  match List.find (fun c => bool_decide (cg_id c = class_id))
          (sc_cgroup_classes (pol_scheduler (pe_config e))) with
  | None => mret (None, Some [PText "unknown cgroup class "; PText class_id])
  | Some class =>
      u ← tried (unit_for_process a workload);
      match u with
      | Ok None => mret (None, Some [PText "active workload has no systemd unit"])
      | Err e => mret (None, Some [PText "cannot resolve workload unit: "; PActuator e])
      | Panic => rpanic
      | Ok (Some name) =>
          w ← unit_ownership_warning workload name;
          match w with
          | Some warning => mret (None, Some warning)
          | None =>
              let allowed_cpus := CpuSet_intersection (cg_allowed_cpus class) online in
              if CpuSet_is_empty allowed_cpus
              then mret (None, Some [PText "cgroup class "; PText class_id;
                           PText " has no configured CPU online; leaving "; PText name;
                           PText " unchanged"])
              else mret (Some {| dc_unit := name;
                                 dc_properties :=
                                   {| up_cpu_weight := Some (cg_cpu_weight class);
                                      up_allowed_cpus := Some allowed_cpus |} |}, None)
          end
      end
  end.

Definition resolve_scheduler (e : PolicyEngine) (workload : option ProcessInfo)
    (source : WorkloadSource) (scene : SchedulerScene) : RM W SchedulerResolution :=
  if negb (sc_enabled (pol_scheduler (pe_config e))) then mret empty_resolution
  else
    match workload with
    | None => mret empty_resolution
    | Some workload =>
        let p := pid (identity workload) in
        first_listing ← observe_or [PText "list workload threads: "] (env_list_threads p);
        threads ← rfold (resolve_thread workload) [] first_listing;
        confirmed ← observe_or [PText "recheck workload threads: "] (env_list_threads p);
        if negb (bool_decide (p ∈ confirmed))
        then reject [PText "active workload exited during thread classification"]
        else
          let threads := List.filter (fun t => bool_decide (pid (identity t) ∈ confirmed)) threads in
          decision ← match evaluate_scheduler e workload threads source scene with
                     | Ok d => mret d
                     | Err error => reject [PPolicy error]
                     | Panic => rpanic
                     end;
          online ← observe_or [PText "read online CPU mask: "] env_online_cpus;
          let '(warning, tasks) := foldl (retain_online online) (None, ∅) (entries (sd_tasks decision)) in
          '(cgroup, cgroup_warning) ←
            match sd_cgroup_class decision with
            | None => mret (None, None)
            | Some class_id => resolve_cgroup e (identity workload) class_id online
            end;
          mret {| sr_tasks := tasks; sr_cgroup := cgroup;
                  sr_warning := from_option (append_warning warning) warning cgroup_warning;
                  sr_matched_rule := sd_matched_rule decision;
                  sr_cgroup_class := sd_cgroup_class decision |}
    end.

(** ** Tasks and units *)

Definition request_task (acc : list TaskRequest * gmap ProcessIdentity TaskPlan)
    (kv : ProcessIdentity * TaskPlan)
  : RM W (list TaskRequest * gmap ProcessIdentity TaskPlan) :=
  let '(requests, verified) := acc in
  let '(i, plan) := kv in
  r ← tried (read_task_state a i);
  match r with
  | Err e =>
      if process_disappeared e
      then update_applied (with_tasks (delete i));; mret (requests, verified)
      else reject [PText "read task "; PNum (pid i); PText ": "; PActuator e]
  | Panic => rpanic
  | Ok current =>
      let desired_state := apply_task_plan current plan in
      if decide (desired_state = current)
      then mret (requests, <[i := scheduling_state_as_plan current]> verified)
      else mret (requests ++ [{| tr_identity := i; tr_desired := desired_state |}], verified)
  end.

Definition reconcile_tasks (desired : DesiredPlan) : RM W unit :=
  applied ← get_applied;
  let removed := removed_keys (ap_tasks applied) (dp_tasks desired) in
  act [PText "restore inactive tasks: "] (restore_tasks a removed);;
  update_applied (with_tasks (remove_all removed));;
  '(requests, verified) ← rfold request_task ([], ∅) (entries (dp_tasks desired));
  outcome ← act [PText "apply task batch: "] (apply_tasks a requests);
  update_applied (with_tasks (fun m => ((scheduling_state_as_plan <$> outcome) ∪ verified) ∪ m)).

Definition restore_inactive_units (desired_cgroup : option DesiredCgroup) : RM W unit :=
  p ← get_progress;
  let removed_units :=
    List.filter (fun u => negb (bool_decide (Some u = dc_unit <$> desired_cgroup)))
      (keys (pg_units p)) in
  act [PText "restore inactive systemd units: "] (restore_units a removed_units);;
  update_units (remove_all removed_units).

Definition reconcile_cgroup (workload : ProcessInfo) (intent : DesiredCgroup) : RM W unit :=
  w ← unit_ownership_warning (identity workload) (dc_unit intent);
  match w with
  | Some ownership_warning =>
      set_warning (Some ownership_warning);;
      p ← get_progress;
      if bool_decide (is_Some (pg_units p !! dc_unit intent))
      then
        act [PText "restore unit after ownership changed: "] (restore_units a [dc_unit intent]);;
        update_units (delete (dc_unit intent))
      else mret tt
  | None =>
      p ← get_progress;
      if decide (pg_units p !! dc_unit intent = Some (dc_properties intent)) then mret tt
      else
        outcome ← act [PText "apply systemd unit policy: "]
                    (apply_units a [{| ur_unit := dc_unit intent;
                                       ur_desired := dc_properties intent |}]);
        update_units (fun m => outcome ∪ m)
  end.

Definition reconcile_scheduler (workload : option ProcessInfo) (desired : DesiredPlan)
    (desired_cgroup : option DesiredCgroup) : RM W unit :=
  reconcile_tasks desired;;
  restore_inactive_units desired_cgroup;;
  match desired_cgroup, workload with
  | Some intent, Some workload => reconcile_cgroup workload intent
  | _, _ => mret tt
  end.

(** ** One job *)

Record ReconcileJob := {
  rj_policy_engine : PolicyEngine;
  rj_workload : option ProcessInfo;
  rj_workload_source : WorkloadSource;
  rj_desired : DesiredPlan;
  rj_applied : AppliedState;
  rj_applied_units : gmap string SystemdUnitProperties;
  rj_reconcile_frequencies : bool;
  rj_reconcile_scheduler : bool;
  rj_gate_poisoned : bool;
  rj_frequency_safety : FrequencySafetyFence;
  rj_trace_context : DecisionTraceContext;
}.

Record SchedulerReport := {
  rp_workload : option ProcessIdentity;
  rp_matched_rule : option string;
  rp_cgroup_class : option string;
  rp_systemd_unit : option string;
}.

Definition SchedulerReport_default : SchedulerReport :=
  {| rp_workload := None; rp_matched_rule := None; rp_cgroup_class := None;
     rp_systemd_unit := None |}.

Record ReconcileOutcome := {
  ro_desired : DesiredPlan;
  ro_applied : AppliedState;
  ro_applied_units : gmap string SystemdUnitProperties;
  ro_frequency_attempted : bool;
  ro_frequency_error : option text;
  ro_scheduler_attempted : bool;
  ro_scheduler_error : option text;
  ro_scheduler_warning : option text;
  ro_scheduler_report : SchedulerReport;
}.

Definition with_plan_tasks (p : DesiredPlan) (tasks : gmap ProcessIdentity TaskPlan) : DesiredPlan :=
  {| dp_generation := dp_generation p; dp_effective_profile := dp_effective_profile p;
     dp_dominant_scene := dp_dominant_scene p; dp_frequencies := dp_frequencies p;
     dp_scalars := dp_scalars p; dp_tasks := tasks |}.

(** The error of a failure domain, if it had one; a panic stays a panic. *)
Definition error_of {A} (m : RM W A) : RM W (option text) := fun s =>
  match m s with
  | (Ok _, s) => (Ok None, s)
  | (Err e, s) => (Ok (Some e), s)
  | (Panic, s) => (Panic, s)
  end.

(** The frequency domain: limits under the fence, then scalars. *)
Definition frequency_domain (fence : FrequencySafetyFence) (desired : DesiredPlan) : RM W unit :=
  if ff_poisoned fence then reject fence_poisoned
  else
    reconcile_frequencies desired (env_upper_caps (ff_envelope fence));;
    reconcile_scalars desired.

(** [if reconcile_scheduler { match resolve_scheduler(..) { .. } }] *)
Definition resolve_if_requested (job : ReconcileJob)
  : RM W (option SchedulerResolution * option text) :=
  if rj_reconcile_scheduler job
  then fun s =>
    match resolve_scheduler (rj_policy_engine job) (rj_workload job) (rj_workload_source job)
            (scheduler_scene_for (dp_dominant_scene (rj_desired job))) s with
    | (Ok r, s) => (Ok (Some r, None), s)
    | (Err e, s) => (Ok (None, Some e), s)
    | (Panic, s) => (Panic, s)
    end
  else mret (None, None).

Definition scheduler_report (job : ReconcileJob) (r : SchedulerResolution) : SchedulerReport :=
  {| rp_workload := identity <$> rj_workload job; rp_matched_rule := sr_matched_rule r;
     rp_cgroup_class := sr_cgroup_class r; rp_systemd_unit := dc_unit <$> sr_cgroup r |}.

Definition gate_poisoned : text := [PText "runtime mutation gate was poisoned"].

(** The body of [run] but the clock and the trace. *)
Definition run_domains (job : ReconcileJob) : RM W ReconcileOutcome :=
  '(scheduler, resolve_error) ← resolve_if_requested job;
  set_warning (r ← scheduler; sr_warning r);;
  let desired := from_option (fun r => with_plan_tasks (rj_desired job) (sr_tasks r))
                   (rj_desired job) scheduler in
  let finish (frequency_error scheduler_error : option text) : RM W ReconcileOutcome :=
    p ← get_progress;
    mret {| ro_desired := desired; ro_applied := pg_applied p; ro_applied_units := pg_units p;
            ro_frequency_attempted := rj_reconcile_frequencies job;
            ro_frequency_error := frequency_error;
            ro_scheduler_attempted := rj_reconcile_scheduler job;
            ro_scheduler_error := scheduler_error;
            ro_scheduler_warning := pg_warning p;
            ro_scheduler_report :=
              from_option (scheduler_report job) SchedulerReport_default scheduler |} in
  if negb (rj_reconcile_frequencies job) && bool_decide (scheduler = None)
  then finish None resolve_error
  else if rj_gate_poisoned job
  then finish (if rj_reconcile_frequencies job then Some gate_poisoned else None)
         (if scheduler then Some gate_poisoned else resolve_error)
  else
    frequency_error ←
      (if rj_reconcile_frequencies job
       then error_of (frequency_domain (rj_frequency_safety job) desired) else mret None);
    scheduler_error ←
      match scheduler with
      | None => mret resolve_error
      | Some r => error_of (reconcile_scheduler (rj_workload job) desired (sr_cgroup r))
      end;
    finish frequency_error scheduler_error.
End reconcile.

(** [run]: the job between two readings of the clock, and its trace entry. *)
Definition run {W} `{!Ports W} `{JournalCodec} `{!Environment W} `{RegexEngine}
    (scalar_json : ScalarSettingValue -> string) (a : Actuator) (job : ReconcileJob)
    (trace : TraceState) (s : St W) : res ReconcileOutcome text * TraceState * St W :=
  let on w := {| st_rt := st_rt s; st_world := w; st_log := st_log s |} in
  let '(started_at, w) := monotonic_millis (st_world s) in
  let '(t0, w) := instant_now w in
  let start := {| pg_applied := rj_applied job; pg_units := rj_applied_units job;
                  pg_warning := None |} in
  match run_domains a job (start, on w) with
  | (Ok o, (_, s)) =>
      let '(t1, w) := instant_now (st_world s) in
      (Ok o,
       record_reconcile scalar_json trace
         {| re_monotonic_ms := started_at; re_duration := Z.max 0 (t1 - t0);
            re_desired := ro_desired o; re_applied := ro_applied o;
            re_frequency_attempted := ro_frequency_attempted o;
            re_scheduler_attempted := ro_scheduler_attempted o;
            re_frequency_error := ro_frequency_error o;
            re_scheduler_error := ro_scheduler_error o;
            re_context := rj_trace_context job |},
       {| st_rt := st_rt s; st_world := w; st_log := st_log s |})
  | (Err e, (_, s)) => (Err e, trace, s)
  | (Panic, (_, s)) => (Panic, trace, s)
  end.
