(* ===== verification/ReconcileFacts.v ===== *)
(** * The reconciler as a client of the actuator

    Weakest preconditions for the reconciler's monad, and the simulation: a
    reconciliation is a sequence of whole actuator operations and queries,
    whatever the observation ports answer. *)

From S2P Require Import Prelude Domain Scene Frequency ConfigTypes Validate ValidatePolicy Rules Engine ActuatorTypes Scalars Targets Journal Ports FrequencyOps ScalarOps TaskOps UnitOps Recovery DaemonTypes DecisionTrace Reconcile.

Create HintDb steps discriminated.

Section logic.
Context {W : Type}.

Definition rwp {A} (m : RM W A) (Q : res A text -> Progress -> St W -> Prop)
    (p : Progress) (s : St W) : Prop :=
  Q (m (p, s)).1 (m (p, s)).2.1 (m (p, s)).2.2.

Implicit Types (p : Progress) (s : St W).

Lemma rwp_run {A} (m : RM W A) Q p s r p' s' : rwp m Q p s -> m (p, s) = (r, (p', s')) -> Q r p' s'.
Proof. unfold rwp. by intros HQ Hm; rewrite Hm in HQ. Qed.

Lemma rwp_mono {A} (m : RM W A) (Q Q' : res A text -> Progress -> St W -> Prop) p s :
  rwp m Q p s -> (forall r p' s', Q r p' s' -> Q' r p' s') -> rwp m Q' p s.
Proof. unfold rwp. auto. Qed.

Lemma rwp_ret {A} (x : A) Q p s : Q (Ok x) p s -> rwp (mret x) Q p s.
Proof. done. Qed.
Lemma rwp_reject {A} e (Q : res A text -> Progress -> St W -> Prop) p s :
  Q (Err e) p s -> rwp (reject e) Q p s.
Proof. done. Qed.
Lemma rwp_panic {A} (Q : res A text -> Progress -> St W -> Prop) p s :
  Q Panic p s -> rwp rpanic Q p s.
Proof. done. Qed.

Lemma rwp_bind {A B} (m : RM W A) (k : A -> RM W B) Q p s :
  rwp m (fun r p' s' => match r with
                        | Ok x => rwp (k x) Q p' s'
                        | Err e => Q (Err e) p' s'
                        | Panic => Q Panic p' s'
                        end) p s ->
  rwp (x ← m; k x) Q p s.
Proof. unfold rwp, mbind, RM_bind. by destruct (m (p, s)) as [[x|e|] [p' s']]. Qed.

Lemma rwp_tried {A} (m : M W A) Q p s :
  (forall r s', m s = (r, s') ->
     match r with Panic => Q Panic p s' | _ => Q (Ok r) p s' end) ->
  rwp (tried m) Q p s.
Proof.
  unfold rwp, tried. simpl. destruct (m s) as [r s']. intros HQ. specialize (HQ r s' eq_refl).
  by destruct r.
Qed.

Lemma rwp_act {A} context (m : M W A) Q p s :
  (forall r s', m s = (r, s') ->
     match r with
     | Ok x => Q (Ok x) p s'
     | Err e => Q (Err (context ++ [PActuator e])) p s'
     | Panic => Q Panic p s'
     end) ->
  rwp (act context m) Q p s.
Proof.
  intros HQ. unfold act. apply rwp_bind, rwp_tried. intros r s' Hm. specialize (HQ r s' Hm).
  by destruct r.
Qed.

Lemma rwp_observed {A} (op : W -> (PlatformError + A) * W) Q p s :
  (forall r w, Q (Ok r) p {| st_rt := st_rt s; st_world := w; st_log := st_log s |}) ->
  rwp (observed op) Q p s.
Proof. unfold rwp, observed. simpl. intros HQ. destruct (op (st_world s)) as [r w]. apply HQ. Qed.

Lemma rwp_get Q p s : Q (Ok p) p s -> rwp get_progress Q p s.
Proof. done. Qed.

Lemma rwp_update f Q p s :
  Q (Ok tt) {| pg_applied := f (pg_applied p); pg_units := pg_units p; pg_warning := pg_warning p |} s ->
  rwp (update_applied f) Q p s.
Proof. done. Qed.

Lemma rwp_rfold {A S} (I : list A -> S -> Progress -> St W -> Prop) (f : S -> A -> RM W S) l acc
    (Q : res S text -> Progress -> St W -> Prop) p s :
  I l acc p s ->
  (forall x l acc p s, I (x :: l) acc p s ->
     rwp (f acc x) (fun r p' s' => match r with Ok acc' => I l acc' p' s' | _ => Q r p' s' end) p s) ->
  (forall acc p s, I [] acc p s -> Q (Ok acc) p s) ->
  rwp (rfold f acc l) Q p s.
Proof.
  intros HI Hstep Hend. revert acc p s HI.
  induction l as [|x l IH]; intros acc p s HI; simpl; [apply rwp_ret; by apply Hend|].
  apply rwp_bind. eapply rwp_mono; [by apply Hstep|]. intros [acc'|e|] p' s' H'; auto.
Qed.
End logic.

(** ** The simulation *)

Section steps.
Context {W : Type} `{!Ports W} `{JournalCodec} `{!Environment W} `{RegexEngine}.
Context (a : Actuator).

(** The actuator operation or query a call performs. *)
Definition performs {A} (m : M W A) : Prop :=
  forall s : St W, (m s).1 <> Panic -> step a s (m s).2.

Lemma performs_op {A} op (m : M W A) : run_operation a op = discard m -> performs m.
Proof.
  intros Hop s Hr. destruct (m s) as [r s'] eqn:Hm. simpl in *.
  apply (step_operation a op s (match r with Ok _ => Ok tt | Err e => Err e | Panic => Panic end)).
  - rewrite Hop. unfold discard, mbind, M_bind. rewrite Hm. by destruct r.
  - by destruct r.
Qed.

Lemma performs_unit_op op (m : M W unit) : run_operation a op = m -> performs m.
Proof.
  intros Hop s Hr. apply (step_operation a op s (m s).1); [|done]. rewrite Hop. by destruct (m s).
Qed.

Lemma performs_query {A} q (m : M W A) : run_query a q = discard m -> performs m.
Proof.
  intros Hop s Hr. destruct (m s) as [r s'] eqn:Hm. simpl in *.
  apply (step_query a q s (match r with Ok _ => Ok tt | Err e => Err e | Panic => Panic end)).
  - rewrite Hop. unfold discard, mbind, M_bind. rewrite Hm. by destruct r.
  - by destruct r.
Qed.

(** A reconciler routine that does not panic is a sequence of actuator steps. *)
Definition steps {A} (m : RM W A) : Prop :=
  forall p s, rwp m (fun r _ s' => r <> Panic -> rtc (step a) s s') p s.

Lemma steps_ret {A} (x : A) : steps (mret x).
Proof. intros p s _. constructor. Qed.
Lemma steps_reject {A} e : steps (A := A) (reject e).
Proof. intros p s _. constructor. Qed.
Lemma steps_panic {A} : steps (A := A) rpanic.
Proof. intros p s Hp. by destruct Hp. Qed.

Lemma steps_bind {A B} (m : RM W A) (k : A -> RM W B) :
  steps m -> (forall x, steps (k x)) -> steps (x ← m; k x).
Proof.
  intros Hm Hk p s. apply rwp_bind. eapply rwp_mono; [apply Hm|].
  intros [x|e|] p' s' Hs; [|by intros _; apply Hs|done].
  eapply rwp_mono; [apply Hk|]. intros r p2 s2 Hs2 Hr. etrans; [by apply Hs|by apply Hs2].
Qed.

Lemma steps_tried {A} (m : M W A) : performs m -> steps (tried m).
Proof.
  intros Hm p s. apply rwp_tried. intros r s' Hr. pose proof (Hm s) as Hp. rewrite Hr in Hp. simpl in Hp.
  destruct r; [| |done]; intros _; apply rtc_once, Hp; done.
Qed.

Lemma steps_act {A} context (m : M W A) : performs m -> steps (act context m).
Proof.
  intros Hm. apply steps_bind; [by apply steps_tried|].
  intros [x|e|]; [apply steps_ret|apply steps_reject|apply steps_panic].
Qed.

Lemma steps_observed {A} (op : W -> (PlatformError + A) * W) : steps (observed op).
Proof. intros p s. apply rwp_observed. intros r w _. apply rtc_once, step_world. Qed.

Lemma steps_observe_or {A} context (op : W -> (PlatformError + A) * W) : steps (observe_or context op).
Proof.
  apply steps_bind; [apply steps_observed|]. intros [e|x]; [apply steps_reject|apply steps_ret].
Qed.

Lemma steps_get : steps get_progress.
Proof. intros p s _. constructor. Qed.
Lemma steps_put p : steps (put_progress p).
Proof. intros p' s _. constructor. Qed.

Lemma steps_rfold {A S} (f : S -> A -> RM W S) acc l :
  (forall acc x, steps (f acc x)) -> steps (rfold f acc l).
Proof.
  intros Hf. revert acc. induction l as [|x l IH]; intros acc; simpl; [apply steps_ret|].
  apply steps_bind; [apply Hf|apply IH].
Qed.

Lemma steps_error_of {A} (m : RM W A) : steps m -> steps (error_of m).
Proof.
  intros Hm p s. pose proof (Hm p s) as Hs. unfold rwp, error_of in *.
  destruct (m (p, s)) as [[x|e|] [p' s']]; simpl in *; auto.
Qed.
End steps.

#[export] Hint Resolve steps_ret steps_reject steps_panic steps_observed steps_observe_or
  steps_get steps_put : steps.

(** One step through a routine's control structure. *)
Ltac steps_step :=
  match goal with
  | |- steps _ (mbind _ _) => apply steps_bind; [|intros ?]
  | |- steps _ (rfold _ _ _) => apply steps_rfold; intros ? ?
  | |- steps _ (error_of _) => apply steps_error_of
  | |- steps _ (match ?x with _ => _ end) => destruct x
  | |- steps _ (let '_ := ?x in _) => destruct x
  | |- steps _ _ => solve [eauto with steps nocore]
  end.
Ltac steps_tac := repeat steps_step.

Section simulation.
Context {W : Type} `{!Ports W} `{JournalCodec} `{!Environment W} `{RegexEngine}.
Context (a : Actuator).

(** *** The calls *)

Lemma act_read_limits c id : steps a (act c (actuator_read_limits a id)).
Proof. by apply steps_act, (performs_query a (QueryLimits id)). Qed.
Lemma act_read_scalar c id : steps a (act c (actuator_read_scalar a id)).
Proof. by apply steps_act, (performs_query a (QueryScalar id)). Qed.
Lemma tried_read_task i : steps a (tried (read_task_state a i)).
Proof. by apply steps_tried, (performs_query a (QueryTask i)). Qed.
Lemma tried_unit_for i : steps a (tried (unit_for_process a i)).
Proof. by apply steps_tried, (performs_query a (QueryUnitOf i)). Qed.
Lemma tried_unit_processes u : steps a (tried (unit_processes a u)).
Proof. by apply steps_tried, (performs_query a (QueryUnitProcesses u)). Qed.
Lemma tried_fast l : steps a (tried (apply_owned_batch_fast a l)).
Proof. by apply steps_tried, (performs_op a (OpApplyFast l)). Qed.
Lemma act_apply_batch c l : steps a (act c (apply_batch a l)).
Proof. by apply steps_act, (performs_op a (OpApplyBatch l)). Qed.
Lemma act_apply_scalars c l : steps a (act c (apply_scalars a l)).
Proof. by apply steps_act, (performs_op a (OpApplyScalars l)). Qed.
Lemma act_apply_tasks c l : steps a (act c (apply_tasks a l)).
Proof. by apply steps_act, (performs_op a (OpApplyTasks l)). Qed.
Lemma act_apply_units c l : steps a (act c (apply_units a l)).
Proof. by apply steps_act, (performs_op a (OpApplyUnits l)). Qed.
Lemma act_restore_targets c l : steps a (act c (restore_targets a l)).
Proof. by apply steps_act, (performs_unit_op a (OpRestoreTargets l)). Qed.
Lemma act_restore_scalars c l : steps a (act c (restore_scalars a l)).
Proof. by apply steps_act, (performs_unit_op a (OpRestoreScalars l)). Qed.
Lemma act_restore_tasks c l : steps a (act c (restore_tasks a l)).
Proof. by apply steps_act, (performs_unit_op a (OpRestoreTasks l)). Qed.
Lemma act_restore_units c l : steps a (act c (restore_units a l)).
Proof. by apply steps_act, (performs_unit_op a (OpRestoreUnits l)). Qed.

Hint Resolve act_read_limits act_read_scalar tried_read_task tried_unit_for tried_unit_processes
  tried_fast act_apply_batch act_apply_scalars act_apply_tasks act_apply_units act_restore_targets
  act_restore_scalars act_restore_tasks act_restore_units : steps.

Lemma steps_update_applied f : steps a (update_applied f).
Proof. unfold update_applied. steps_tac. Qed.
Lemma steps_update_units f : steps a (update_units f).
Proof. unfold update_units. steps_tac. Qed.
Lemma steps_set_warning w : steps a (set_warning w).
Proof. unfold set_warning. steps_tac. Qed.
Lemma steps_get_applied : steps a get_applied.
Proof. unfold get_applied. steps_tac. Qed.
Hint Resolve steps_update_applied steps_update_units steps_set_warning steps_get_applied : steps.

(** *** The routines *)

Lemma steps_unit_ownership w u : steps a (unit_ownership_warning a w u).
Proof. unfold unit_ownership_warning. steps_tac. Qed.
Hint Resolve steps_unit_ownership : steps.

Lemma steps_frequency_domain f d : steps a (frequency_domain a f d).
Proof.
  unfold frequency_domain, reconcile_frequencies, reconcile_scalars, cap_target, request_frequency,
    apply_frequencies, request_scalar. steps_tac.
Qed.

Lemma steps_resolve_scheduler e w src sc : steps a (resolve_scheduler a e w src sc).
Proof. unfold resolve_scheduler, resolve_thread, resolve_cgroup. steps_tac. Qed.

Lemma steps_reconcile_scheduler w d c : steps a (reconcile_scheduler a w d c).
Proof.
  unfold reconcile_scheduler, reconcile_tasks, restore_inactive_units, reconcile_cgroup, request_task.
  steps_tac.
Qed.
Hint Resolve steps_frequency_domain steps_resolve_scheduler steps_reconcile_scheduler : steps.

Lemma steps_resolve_if job : steps a (resolve_if_requested a job).
Proof.
  unfold resolve_if_requested. destruct (rj_reconcile_scheduler job); [|apply steps_ret].
  intros p s. pose proof (steps_resolve_scheduler (rj_policy_engine job) (rj_workload job)
    (rj_workload_source job) (scheduler_scene_for (dp_dominant_scene (rj_desired job))) p s) as Hs.
  unfold rwp in *. destruct (resolve_scheduler _ _ _ _ _ _) as [[x|e|] [p' s']]; simpl in *; auto.
Qed.
Hint Resolve steps_resolve_if : steps.

Lemma steps_run_domains job : steps a (run_domains a job).
Proof. unfold run_domains. steps_tac. Qed.

(** *** Errors are part of the outcome *)

Definition no_err {A} (m : RM W A) : Prop := forall p s, rwp m (fun r _ _ => forall e, r <> Err e) p s.

Lemma no_err_ret {A} (x : A) : no_err (mret x).
Proof. by intros p s e. Qed.
Lemma no_err_bind {A B} (m : RM W A) (k : A -> RM W B) :
  no_err m -> (forall x, no_err (k x)) -> no_err (x ← m; k x).
Proof.
  intros Hm Hk p s. apply rwp_bind. eapply rwp_mono; [apply Hm|]. intros [x|e|] p' s' Hr.
  - apply Hk.
  - by destruct (Hr e).
  - done.
Qed.
Lemma no_err_error_of {A} (m : RM W A) : no_err (error_of m).
Proof. intros p s. unfold rwp, error_of. by destruct (m (p, s)) as [[x|e|] [p' s']]. Qed.
Lemma no_err_resolve_if job : no_err (resolve_if_requested a job).
Proof.
  unfold resolve_if_requested. destruct (rj_reconcile_scheduler job); [|apply no_err_ret].
  intros p s. unfold rwp. by destruct (resolve_scheduler _ _ _ _ _ _) as [[x|e|] [p' s']].
Qed.
Lemma no_err_set_warning w : no_err (set_warning (W := W) w).
Proof. by intros p s e. Qed.
Lemma no_err_get : no_err (get_progress (W := W)).
Proof. by intros p s e. Qed.

Lemma no_err_run_domains job : no_err (run_domains a job).
Proof.
  unfold run_domains.
  repeat match goal with
         | |- no_err (mbind _ _) => apply no_err_bind; [|intros ?]
         | |- no_err (match ?x with _ => _ end) => destruct x
         | |- no_err _ => first [apply no_err_ret | apply no_err_error_of | apply no_err_resolve_if
                                 | apply no_err_set_warning | apply no_err_get]
         end.
Qed.

(** A job that does not panic is a sequence of steps of the actuator. *)
Lemma run_is_steps scalar_json (job : ReconcileJob) (trace trace' : TraceState) (s s' : St W) r :
  run scalar_json a job trace s = (r, trace', s') -> r <> Panic ->
  rtc (step a) s s' /\ exists o, r = Ok o.
Proof.
  unfold run. destruct (monotonic_millis _) as [t w]. destruct (instant_now w) as [t0 w0].
  set (p0 := {| pg_applied := rj_applied job |}).
  set (s0 := {| st_rt := st_rt s; st_world := w0; st_log := st_log s |}).
  pose proof (steps_run_domains job p0 s0) as Hs. pose proof (no_err_run_domains job p0 s0) as Hn.
  unfold rwp in Hs, Hn. destruct (run_domains a job (p0, s0)) as [[o|e|] [p1 s1]]; simpl in *.
  - destruct (instant_now (st_world s1)) as [t1 w1]. intros [= <- _ <-] _. split; [|by exists o].
    eapply rtc_l; [apply (step_world a s w0)|]. fold s0. etrans; [by apply Hs|].
    apply rtc_once, step_world.
  - by destruct (Hn e).
  - intros [= <- _ _] Hp. by destruct Hp.
Qed.

End simulation.
