(* ===== verification/SchedulerFacts.v ===== *)
(** * Frequencies under the safety fence

    A successful frequency reconciliation leaves every capped target at or
    below its cap, including targets outside the plan, once the daemon owns its
    targets; and it always touches the durable store. *)

From S2P Require Import Prelude Domain Scene Frequency ConfigTypes Validate ValidatePolicy ValidateFacts Rules RulesFacts Engine EngineFacts ActuatorTypes Scalars Targets Journal Ports FrequencyOps ScalarOps TaskOps UnitOps Recovery Ownership FrequencySafety RestoreSafety OtherSafety ActuatorSafety SimMachine FrequencyWrites DaemonTypes DecisionTrace Reconcile ReconcileFacts.

Section caps.
Context {W : Type} `{!Ports W} `{JournalCodec} `{!Environment W} `{RegexEngine}.
Context (a : Actuator) (Hwf : actuator_wf a) (d0 : list (option Journal)).

Definition capped (caps : gmap string Hertz) (id : string) (l : FrequencyLimits) : Prop :=
  forall cap, caps !! id = Some cap -> lim_max l <= cap.

Definition all_capped (caps : gmap string Hertz) (m : gmap string FrequencyLimits) : Prop :=
  forall id l, m !! id = Some l -> capped caps id l.

Lemma apply_upper_cap_le l cap : lim_max (apply_upper_cap l cap) <= cap.
Proof. simpl. lia. Qed.

(** Queries leave the runtime state alone. *)
Definition same_rt (s s' : St W) : Prop := st_rt s' = st_rt s.

Lemma rwp_read_limits c id Q p (s : St W) :
  (forall l s', st_rt s' = st_rt s -> inv a d0 s -> inv a d0 s' -> Q (Ok l) p s') ->
  (forall e s', Q (Err e) p s') -> (forall s', Q Panic p s') ->
  inv a d0 s -> rwp (act c (actuator_read_limits a id)) Q p s.
Proof.
  intros HOk HErr HP Hi. apply rwp_act. intros r s' Hr.
  pose proof (quiet_actuator_read_limits a no_paths id s) as Hq. unfold wp in Hq. rewrite Hr in Hq.
  simpl in Hq. destruct Hq as [Hq _].
  assert (Hi' : inv a d0 s') by by eapply quiet_step_inv.
  destruct Hq as [Hrt _]. destruct r; auto.
Qed.

(** The effective plan: every cap is met, and no target of the plan is lost. *)
Definition capping (desired : gmap string FrequencyLimits) (caps : gmap string Hertz) (s0 : St W)
    (todo : list (string * Hertz)) (effective : gmap string FrequencyLimits) (s : St W) : Prop :=
  inv a d0 s /\ st_rt s = st_rt s0 /\
  (forall id cap, caps !! id = Some cap ->
     (id, cap) ∈ todo \/ exists l, effective !! id = Some l /\ lim_max l <= cap) /\
  dom effective ⊆ dom desired ∪ dom caps.

Lemma capping_insert desired caps s0 id cap todo effective s limits :
  caps !! id = Some cap -> capping desired caps s0 ((id, cap) :: todo) effective s ->
  capping desired caps s0 todo (<[id := apply_upper_cap limits cap]> effective) s.
Proof.
  intros Hcap (Hi & Hrt & Hall & Hdom). split_and!; [done|done| |].
  - intros id' cap' Hc'. destruct (decide (id' = id)) as [->|Hne].
    + right. exists (apply_upper_cap limits cap). rewrite lookup_insert_eq. split; [done|].
      rewrite Hcap in Hc'. injection Hc' as <-. apply apply_upper_cap_le.
    + destruct (Hall id' cap' Hc') as [[[= -> ->]|Hin]%elem_of_cons|(l & Hl & Hle)]; [done|by left|].
      right. exists l. by rewrite lookup_insert_ne by done.
  - rewrite dom_insert. assert (id ∈ dom caps) by by apply elem_of_dom. set_solver.
Qed.

(** What a query at [s] may lead to: the same runtime state, or an end. *)
Definition ends {A B} (m : A -> Prop) (R : Progress -> St W -> Prop) (r : res A B) (p : Progress)
    (s : St W) : Prop :=
  match r with Ok x => m x /\ R p s | _ => True end.

Lemma rwp_cap_fold desired caps p s :
  inv a d0 s ->
  rwp (rfold (cap_target a) desired (entries caps))
    (fun r p' s' => match r with
                    | Ok effective => p' = p /\ capping desired caps s [] effective s'
                    | _ => True
                    end) p s.
Proof.
  intros Hi. eapply (rwp_rfold (fun todo effective p' s' =>
    p' = p /\ capping desired caps s todo effective s' /\
    forall kv, kv ∈ todo -> caps !! kv.1 = Some kv.2)).
  - split_and!; [done| |by intros [id cap] ?%elem_of_entries]. split_and!; [done|done| |set_solver].
    intros id cap Hc. left. by apply elem_of_entries.
  - intros [id cap] todo effective p' s' (-> & Hcap & Htodo). unfold cap_target.
    assert (Hc : caps !! id = Some cap) by (apply (Htodo (id, cap)); set_solver).
    assert (Htodo' : forall kv, kv ∈ todo -> caps !! kv.1 = Some kv.2) by set_solver.
    destruct (effective !! id) as [l|].
    + apply rwp_ret. split_and!; [done| |done]. by apply capping_insert.
    + apply rwp_bind, rwp_read_limits; [|done|done|by apply Hcap].
      intros l s1 Hrt Hi0 Hi1. apply rwp_ret. split_and!; [done| |done].
      apply capping_insert; [done|]. destruct Hcap as (_ & Hrt0 & H1 & H2).
      split_and!; [done|congruence|done|done].
  - by intros effective p' s' (-> & Hcap & _).
Qed.

(** The targets read so far: at their pair, or requested. *)
Definition requesting (effective : gmap string FrequencyLimits) (todo : list (string * FrequencyLimits))
    (requests : list FrequencyRequest) (p : Progress) (s : St W) : Prop :=
  inv a d0 s /\ owns (keys effective) s /\
  (forall kv, kv ∈ todo -> effective !! kv.1 = Some kv.2) /\
  (forall r, r ∈ requests -> effective !! fr_target r = Some (fr_limits r)) /\
  (forall id l, effective !! id = Some l ->
     (id, l) ∈ todo \/ ap_frequencies (pg_applied p) !! id = Some l \/ id ∈ fr_target <$> requests).

Lemma rwp_request_fold effective p s :
  inv a d0 s -> owns (keys effective) s ->
  rwp (rfold (request_frequency a) [] (entries effective))
    (fun r p' s' => match r with
                    | Ok requests => requesting effective [] requests p' s'
                    | _ => True
                    end) p s.
Proof.
  intros Hi Ho. eapply (rwp_rfold (requesting effective)).
  - split_and!; [done|done|by intros [id cap] ?%elem_of_entries|set_solver|].
    intros id l Hl. left. by apply elem_of_entries.
  - intros [id limits] todo requests p' s' (Hi' & Ho' & Htodo & Hreq & Hall).
    unfold request_frequency. apply rwp_bind, rwp_read_limits; [|done|done|done].
    intros current s1 Hrt _ Hi1. assert (Ho1 : owns (keys effective) s1) by by eapply owns_rt.
    assert (Hid : effective !! id = Some limits) by (apply (Htodo (id, limits)); set_solver).
    destruct (decide (current = limits)) as [->|Hne].
    + apply rwp_bind, rwp_update, rwp_ret. split_and!; [done|done|set_solver|done|].
      intros id' l' Hl'. simpl. destruct (decide (id' = id)) as [->|Hne].
      * right. left. rewrite lookup_insert_eq. congruence.
      * rewrite lookup_insert_ne by done.
        destruct (Hall id' l' Hl') as [[[= -> ->]|?]%elem_of_cons|?]; [done|by left|by right].
    + apply rwp_ret. split_and!; [done|done|set_solver| |].
      * intros r [Hr| ->%list_elem_of_singleton]%elem_of_app; [by apply Hreq|done].
      * intros id' l' Hl'. rewrite fmap_app.
        destruct (Hall id' l' Hl') as [[[= -> ->]|?]%elem_of_cons|[?|?]]; [|by left|by right; left|];
          right; right; apply elem_of_app; [right; simpl; set_solver|by left].
  - done.
Qed.

(** With everything owned, the batch goes through the fast path. *)
Lemma rwp_apply_owned requests effective p s :
  requesting effective [] requests p s ->
  rwp (apply_frequencies a requests)
    (fun r p' s' => match r with Ok out => p' = p /\ settles a requests out | _ => True end) p s.
Proof using Hwf.
  intros (Hi & Ho & _ & Hreq & _). unfold apply_frequencies. apply rwp_bind, rwp_tried.
  intros r s' Hr.
  pose proof (safe_apply_fast a Hwf (keys effective) requests) as Hsafe.
  pose proof (yields_apply_fast a Hwf requests s) as Hy. rewrite Hr in Hy. simpl in Hy.
  assert (Hin : forall r, r ∈ requests -> fr_target r ∈ keys effective).
  { intros r' Hr'. unfold keys. apply list_elem_of_fmap. exists (fr_target r', fr_limits r').
    split; [done|]. by apply elem_of_entries, Hreq. }
  specialize (Hsafe Hin s Ho). unfold wp in Hsafe. rewrite Hr in Hsafe. simpl in Hsafe.
  destruct r as [out|e|]; [|destruct Hsafe as [_ Hsafe]; by destruct e; try (by specialize (Hsafe eq_refl))|done].
  apply rwp_ret. auto.
Qed.

Lemma fence_holds (desired : DesiredPlan) (caps : gmap string Hertz) p s p' s' :
  inv a d0 s ->
  (forall id, id ∈ dom (dp_frequencies desired) ∪ dom caps ->
     is_Some (j_entries (journal_of s) !! id)) ->
  reconcile_frequencies a desired caps (p, s) = (Ok tt, (p', s')) ->
  forall id cap, caps !! id = Some cap ->
    exists l, ap_frequencies (pg_applied p') !! id = Some l /\ lim_max l <= cap.
Proof using Hwf.
  intros Hi Hown Hrun id cap Hc.
  assert (Hgoal : rwp (reconcile_frequencies a desired caps) (fun r p' s' => r = Ok tt ->
    exists l, ap_frequencies (pg_applied p') !! id = Some l /\ lim_max l <= cap) p s).
  2: { by apply (rwp_run _ _ _ _ _ _ _ Hgoal Hrun). }
  clear Hrun. unfold reconcile_frequencies. apply rwp_bind.
  eapply rwp_mono; [by apply rwp_cap_fold|]. intros [effective|e|] p1 s1; [|done|done].
  intros (-> & Hi1 & Hrt1 & Hcaps & Hdom).
  destruct (Hcaps id cap Hc) as [?|(l & Hl & Hle)]; [set_solver|].
  apply rwp_bind, rwp_bind, rwp_get, rwp_ret, rwp_bind, rwp_act. intros r2 s2 Hr2.
  assert (Hown1 : owns (keys effective) s1).
  { intros id' ([k v] & -> & Hkv%elem_of_entries)%list_elem_of_fmap. rewrite Hrt1. apply Hown, Hdom.
    by apply elem_of_dom. }
  assert (Hkeep := restore_keeps a Hwf (keys effective) d0 (removed_keys (ap_frequencies (pg_applied p)) effective)
    s1 Hi1 Hown1).
  pose proof (wp_restore_targets a Hwf d0 (removed_keys (ap_frequencies (pg_applied p)) effective) s1 Hi1) as Hpost.
  unfold wp in Hkeep, Hpost. rewrite Hr2 in Hkeep, Hpost. simpl in Hkeep, Hpost.
  destruct Hpost as [_ Hi2]. destruct r2 as [[]|e|]; [|done|done].
  assert (Hown2 : owns (keys effective) s2).
  { apply Hkeep. intros id' [_ Hid']%list_elem_of_In%filter_In ([k v] & -> & Hkv%elem_of_entries)%list_elem_of_fmap.
    apply negb_true_iff, bool_decide_eq_false in Hid'. apply Hid'. by exists v. }
  apply rwp_bind, rwp_update, rwp_bind. eapply rwp_mono; [apply rwp_request_fold; [by apply Hi2|done]|].
  intros [requests|e|] p3 s3; [|done|done]. intros Hreq. pose proof Hreq as (_ & _ & _ & Hlim & Hall).
  specialize (Hall id l Hl).
  destruct requests as [|q qs].
  - apply rwp_ret. intros _. destruct Hall as [?|[?|?]]; [set_solver|by exists l|set_solver].
  - apply rwp_bind. eapply rwp_mono; [by eapply rwp_apply_owned|].
    intros [out|e|] p4 s4; [|done|done]. intros (-> & Hset & Hnone). apply rwp_update. intros _. simpl.
    destruct (decide (id ∈ fr_target <$> (q :: qs))) as [Hin|Hnin].
    + apply list_elem_of_fmap in Hin as (r & -> & Hr).
      destruct (Hset r Hr) as (t & d & Ht & Hd & Hout). exists d.
      rewrite (lookup_union_Some_l _ _ _ _ Hout). split; [done|].
      destruct (rw_targets _ (aw_registry _ Hwf) _ _ Ht) as [_ Htwf].
      destruct (snap_limits_spec t Htwf _ _ Hd) as (_ & Hmax & _).
      rewrite (Hlim r Hr) in Hl. injection Hl as <-. lia.
    + destruct Hall as [?|[Hap|?]]; [set_solver| |done]. exists l. split; [|done].
      by rewrite lookup_union_r by by apply Hnone.
Qed.
End caps.


(** ** The durable store on every cycle *)

Definition store_event (ev : Event) : Prop :=
  match ev with EvStore _ _ | EvRemove _ => True | _ => False end.

(** Restoring nothing still goes to the durable store, with its [fsync]: every
    frequency reconciliation starts with such a call, although the fast path
    after it is meant to spare the store. *)
Theorem restoring_nothing_stores {W} `{!Ports W} `{JournalCodec} (a : Actuator) (s s' : St W) :
  restore_targets a [] s = (Ok tt, s') ->
  exists ev, store_event ev /\ st_log s' = st_log s ++ [ev].
Proof.
  unfold restore_targets, ensure_mutation_ready, ensure_read_write, get_rt, mbind, M_bind. simpl.
  destruct (rt_mode (st_rt s)); [|done]. simpl.
  destruct (rt_recovery_required (st_rt s)); [done|]. simpl.
  unfold persist_or_remove_locked, attempt, get_journal, put_journal, get_rt, put_rt, mbind, M_bind. simpl.
  unfold persist_or_remove_journal. destruct (journal_is_empty _); simpl.
  - unfold call. simpl. destruct (remove_durable _) as [[e|[]] w]; simpl.
    + unfold degrade, get_rt, put_rt, fail, mbind, M_bind. simpl. done.
    + intros [= <-]. by exists (EvRemove (inr tt)).
  - unfold persist_journal, lift, mbind, M_bind. destruct (encode_journal _) as [bytes|e|]; simpl; [|done..].
    unfold call. simpl. destruct (store_durable bytes _) as [[e|[]] w]; simpl.
    + unfold degrade, get_rt, put_rt, fail, mbind, M_bind. simpl. done.
    + intros [= <-]. by eexists (EvStore _ (inr tt)).
Qed.

(** ** A capped run of the simulated machine *)

Definition claimed_start : St SimWorld := (run_operation sim_actuator sim_request sim_start).2.

Lemma claimed_reachable : reachable sim_actuator sim_world claimed_start.
Proof.
  eapply reachable_step; [apply reachable_start|].
  apply (step_operation sim_actuator sim_request sim_start (Ok tt)); [|done].
  vm_compute. reflexivity.
Qed.

Definition wide_plan : DesiredPlan :=
  {| dp_generation := 1; dp_effective_profile := Balance; dp_dominant_scene := SIdle;
     dp_frequencies := {[ "cpu0" := {| lim_min := 1000000; lim_max := 4000000 |} ]};
     dp_scalars := ∅; dp_tasks := ∅ |}.
Definition nothing_applied : Progress :=
  {| pg_applied := {| ap_generation := 0; ap_frequencies := ∅; ap_scalars := ∅; ap_tasks := ∅ |};
     pg_units := ∅; pg_warning := None |}.

Definition capped_run : res unit text * (Progress * St SimWorld) :=
  reconcile_frequencies sim_actuator wide_plan {[ "cpu0" := 2500000 ]} (nothing_applied, claimed_start).


Lemma restoring_nothing_stores_witness :
  let run := restore_targets sim_actuator [] claimed_start in
  run.1 = Ok tt /\ exists ev, store_event ev /\ st_log run.2 = st_log claimed_start ++ [ev].
Proof.
  intros run. split; [vm_compute; reflexivity|].
  apply (restoring_nothing_stores sim_actuator claimed_start). vm_compute. reflexivity.
Defined.

(** * What the reconciler hands to tasks and units

    Task plans are those of the scheduler's decision, cut to the CPUs online, so
    real-time isolation survives down to the requests; and a unit is claimed
    only with evidence that the workload is its only process. *)

(** ** Cutting plans to the CPUs online *)

(** [p] is the planned [q] on the CPUs online. *)
Definition cut_plan (online : CpuSet) (q p : TaskPlan) : Prop :=
  (affinity q = None /\ p = q) \/
  exists cpus, affinity q = Some cpus /\ cpus ∩ online <> ∅ /\
    p = {| affinity := Some (cpus ∩ online); nice := nice q; scheduling_class := scheduling_class q;
           rt_priority := rt_priority q; uclamp_min := uclamp_min q; uclamp_max := uclamp_max q |}.

Lemma retain_online_step online w tasks i q w' tasks' :
  retain_online online (w, tasks) (i, q) = (w', tasks') ->
  (tasks' = tasks \/ exists p, cut_plan online q p /\ tasks' = <[i := p]> tasks).
Proof.
  unfold retain_online. destruct (affinity q) as [cpus|] eqn:Ha.
  - unfold CpuSet_intersection, CpuSet_is_empty. case_bool_decide as He; intros [= _ <-]; [by left|].
    right. eexists. split; [right; exists cpus; done|done].
  - intros [= _ <-]. right. exists q. split; [by left|done].
Qed.

Lemma retain_online_spec online l w tasks w' tasks' :
  foldl (retain_online online) (w, tasks) l = (w', tasks') ->
  forall i p, tasks' !! i = Some p ->
    tasks !! i = Some p \/ exists q, (i, q) ∈ l /\ cut_plan online q p.
Proof.
  revert w tasks. induction l as [|[i0 q0] l IH]; intros w tasks; cbn [foldl].
  { intros [= _ <-]. by left. }
  destruct (retain_online online (w, tasks) (i0, q0)) as [w1 tasks1] eqn:E1. intros Hf i p Hp.
  destruct (IH _ _ Hf i p Hp) as [H1|(q & Hq & Hc)]; [|right; exists q; split; [set_solver|done]].
  destruct (retain_online_step _ _ _ _ _ _ _ E1) as [->|(p0 & Hc & ->)]; [by left|].
  apply lookup_insert_Some in H1 as [[<- <-]|[_ ?]]; [right|by left].
  exists q0. split; [set_solver|done].
Qed.

Lemma cut_plan_safe s online q p : plan_safe s q -> cut_plan online q p -> plan_safe s p.
Proof.
  intros [H1 H2] [[_ ->]|(cpus & Ha & _ & ->)]; [done|]. split; simpl; [|done].
  intros Hf. destruct (H1 Hf) as (E1 & E2 & E3 & E4 & (b & Hb & Hd)).
  split_and!; try done. exists (cpus ∩ online). split; [done|]. rewrite Ha in Hb.
  injection Hb as <-. set_solver.
Qed.

Section resolution.
Context {W : Type} `{!Ports W} `{JournalCodec} `{!Environment W} `{RegexEngine}.
Context (a : Actuator).

(** A result of a reconciler routine, from any state, satisfies [R]. *)
Definition ryields {A} (m : RM W A) (R : A -> Prop) : Prop :=
  forall s x, (m s).1 = Ok x -> R x.

Lemma ryields_ret {A} (x : A) (R : A -> Prop) : R x -> ryields (mret x) R.
Proof. by intros HR s y [= <-]. Qed.
Lemma ryields_reject {A} e (R : A -> Prop) : ryields (reject e) R.
Proof. by intros s y. Qed.
Lemma ryields_panic {A} (R : A -> Prop) : ryields rpanic R.
Proof. by intros s y. Qed.
Lemma ryields_bind {A B} (R : A -> Prop) (m : RM W A) (k : A -> RM W B) Q :
  ryields m R -> (forall x, R x -> ryields (k x) Q) -> ryields (x ← m; k x) Q.
Proof.
  intros Hm Hk s y Hy. unfold mbind, RM_bind in Hy. specialize (Hm s).
  destruct (m s) as [[x|e|] s1]; simpl in *; [|done..]. by eapply (Hk x (Hm x eq_refl) s1).
Qed.
Lemma ryields_then {A B} (m : RM W A) (k : A -> RM W B) Q :
  (forall x, ryields (k x) Q) -> ryields (x ← m; k x) Q.
Proof. intros Hk. by eapply (ryields_bind (fun _ => True)). Qed.

(** Every task of a resolution was planned by the scheduler's decision on the
    threads found, and only cut to the CPUs online. *)
Definition resolved_from (e : PolicyEngine) (workload : ProcessInfo) (source : WorkloadSource)
    (scene : SchedulerScene) (r : SchedulerResolution) : Prop :=
  sr_tasks r = ∅ \/
  exists threads d online,
    evaluate_scheduler e workload threads source scene = Ok d /\
    forall i p, sr_tasks r !! i = Some p ->
      exists q, sd_tasks d !! i = Some q /\ cut_plan online q p.

Lemma resolve_scheduler_from e workload source scene :
  ryields (resolve_scheduler a e (Some workload) source scene)
    (resolved_from e workload source scene).
Proof.
  unfold resolve_scheduler. destruct (negb _); [apply ryields_ret; by left|].
  do 3 (apply ryields_then; intros ?). destruct (negb _); [apply ryields_reject|].
  eapply (ryields_bind (fun d => exists threads,
    evaluate_scheduler e workload threads source scene = Ok d)).
  { destruct (evaluate_scheduler _ _ _ _ _) as [d|err|] eqn:E;
      [apply ryields_ret; eauto|apply ryields_reject|apply ryields_panic]. }
  intros d (threads & Hd). apply ryields_then. intros online.
  destruct (foldl _ _ _) as [warning tasks] eqn:Hf. apply ryields_then. intros [cgroup cw].
  apply ryields_ret. right. exists threads, d, online. split; [done|]. simpl. intros i p Hp.
  destruct (retain_online_spec _ _ _ _ _ _ Hf i p Hp) as [?|(q & Hq%elem_of_entries & Hc)]; [done|].
  by exists q.
Qed.


(** ** Claiming a unit *)

(** [m] only appends events that satisfy [P] to the log. *)
Definition logs (P : Event -> Prop) {A} (m : M W A) : Prop :=
  forall s, exists evs, st_log (m s).2 = st_log s ++ evs /\ Forall P evs.

Lemma logs_pure {A} P (m : M W A) : (forall s, st_log (m s).2 = st_log s) -> logs P m.
Proof. intros Hm s. exists []. by rewrite app_nil_r. Qed.
Lemma logs_bind {A B} P (m : M W A) (k : A -> M W B) :
  logs P m -> (forall x, logs P (k x)) -> logs P (x ← m; k x).
Proof.
  intros Hm Hk s. destruct (Hm s) as (e1 & H1 & F1). unfold mbind, M_bind.
  destruct (m s) as [[x|e|] s1]; simpl in *; [|by exists e1..].
  destruct (Hk x s1) as (e2 & H2 & F2). exists (e1 ++ e2).
  rewrite H2, H1, (assoc_L (++)). split; [done|]. by apply Forall_app.
Qed.
Lemma logs_attempt {A} P (m : M W A) : logs P m -> logs P (attempt m).
Proof.
  intros Hm s. destruct (Hm s) as (e1 & H1 & F1). unfold attempt. exists e1.
  by destruct (m s) as [[x|e|] s1].
Qed.
Lemma logs_call {A} (P : Event -> Prop) (op : W -> (PlatformError + A) * W) ev :
  (forall r, P (ev r)) -> logs P (call op ev).
Proof.
  intros HP s. unfold call. destruct (op (st_world s)) as [r w]. exists [ev r].
  split; [done|]. by constructor.
Qed.
Lemma logs_for_fold {A S} P (f : S -> A -> M W S) l acc :
  (forall acc x, logs P (f acc x)) -> logs P (for_fold f acc l).
Proof.
  intros Hf. revert acc. induction l as [|x l IH]; intros acc; simpl; [by apply logs_pure|].
  apply logs_bind; [apply Hf|apply IH].
Qed.
End resolution.

Create HintDb logs discriminated.

(** One step through a routine's control structure. *)
Ltac logs_step :=
  match goal with
  | |- logs _ (mbind _ _) => apply logs_bind; [|intros ?]
  | |- logs _ (attempt _) => apply logs_attempt
  | |- logs _ (for_fold _ _ _) => apply logs_for_fold; intros ? ?
  | |- logs _ (match ?x with _ => _ end) => destruct x
  | |- logs _ (let '_ := ?x in _) => destruct x
  | |- logs _ (call _ _) => apply logs_call; intros ?; done
  | |- logs _ _ => solve [eauto with logs nocore]
  | |- logs _ _ => by apply logs_pure
  end.
Ltac logs_tac := repeat logs_step.

Section units.
Context {W : Type} `{!Ports W} `{JournalCodec} `{!Environment W} `{RegexEngine}.
Context (a : Actuator).

Lemma grows_persist_or_remove j : logs (W := W) (fun _ => True) (persist_or_remove_journal j).
Proof. unfold persist_or_remove_journal, persist_journal. logs_tac. Qed.
Hint Resolve grows_persist_or_remove : logs.
Lemma grows_persist_locked what : logs (W := W) (fun _ => True) (persist_or_remove_locked what).
Proof. unfold persist_or_remove_locked, degrade. logs_tac. Qed.
Hint Resolve grows_persist_locked : logs.

Lemma grows_verify_unit i : logs (W := W) (fun _ => True) (verify_unit_instance i).
Proof. unfold verify_unit_instance, unit_instance_is_current, get_unit_instance_identity. logs_tac. Qed.
Hint Resolve grows_verify_unit : logs.

Lemma grows_rollback_units prepared attempted : logs (W := W) (fun _ => True) (rollback_units prepared attempted).
Proof.
  unfold rollback_units, rollback_unit, rollback_result, unit_instance_is_current,
    get_unit_instance_identity, io_read_unit, io_write_unit. logs_tac.
Qed.
Hint Resolve grows_rollback_units : logs.

Lemma grows_write_units prepared l applied attempted :
  logs (W := W) (fun _ => True) (write_units prepared l applied attempted).
Proof.
  revert applied attempted. induction l as [|r l IH]; intros applied attempted; cbn [write_units];
    [by apply logs_pure|]. unfold io_write_unit, record_unit, get_journal, put_journal. logs_tac.
Qed.
Hint Resolve grows_write_units : logs.

Lemma grows_apply_units requests : logs (W := W) (fun _ => True) (apply_units a requests).
Proof.
  unfold apply_units, ensure_mutation_ready, ensure_read_write, observe_unit, degrade,
    get_unit_instance_identity, io_read_unit. logs_tac.
Qed.

Definition no_unit_write (ev : Event) : Prop :=
  match ev with EvWriteUnit _ _ _ => False | _ => True end.

(** Evidence that the workload is the only process of its unit. *)
Definition sole_process (i : ProcessIdentity) (u : string) (evs : list Event) : Prop :=
  exists members, EvUnitProcesses u (inr members) ∈ evs /\ sort_dedup members = [pid i] /\
    EvUnitOf (pid i) (inr (Some u)) ∈ evs.

Lemma logs_verify_identity i : logs (W := W) no_unit_write (verify_process_identity i).
Proof. unfold verify_process_identity, process_identity_is_current, get_process_identity. logs_tac. Qed.
Hint Resolve logs_verify_identity : logs.

Lemma logs_unit_processes u : logs (W := W) no_unit_write (unit_processes a u).
Proof. unfold unit_processes. logs_tac. Qed.
Lemma logs_unit_for_process i : logs (W := W) no_unit_write (unit_for_process a i).
Proof. unfold unit_for_process. logs_tac. Qed.

(** A result that comes with evidence: new events, no unit write among them, and
    [ev] is one. *)
Definition logged (ev : Event) (s s' : St W) : Prop :=
  exists evs, st_log s' = st_log s ++ evs /\ Forall no_unit_write evs /\ ev ∈ evs.

Lemma unit_processes_logged u s members s' :
  unit_processes a u s = (Ok members, s') -> logged (EvUnitProcesses u (inr members)) s s'.
Proof.
  unfold unit_processes, mbind, M_bind, lift. destruct (validate_unit_name u); simpl; [|done..].
  destruct (act_systemd a); simpl; [|done]. unfold call.
  destruct (client_unit_processes u (st_world s)) as [[e|l] w]; [done|]. intros [= -> <-].
  exists [EvUnitProcesses u (inr members)]. split_and!; [done|by constructor|set_solver].
Qed.

Lemma unit_for_process_logged i s o s' :
  unit_for_process a i s = (Ok o, s') -> logged (EvUnitOf (pid i) (inr o)) s s'.
Proof.
  unfold unit_for_process, mbind, M_bind.
  destruct (act_proc_reader a); simpl; [|done]. destruct (act_systemd a); simpl; [|done].
  destruct (logs_verify_identity i s) as (e1 & L1 & F1).
  destruct (verify_process_identity i s) as [[[]|e|] s1]; [|done..]. simpl in L1. unfold call.
  destruct (client_unit_for_process (pid i) (st_world s1)) as [[e|o1] w]; [done|].
  set (s2 := {| st_rt := st_rt s1 |}).
  destruct (logs_verify_identity i s2) as (e3 & L3 & F3).
  destruct (verify_process_identity i s2) as [[[]|e|] s3]; [|done..]. simpl in L3.
  intros [= -> <-]. exists (e1 ++ EvUnitOf (pid i) (inr o) :: e3). split_and!.
  - rewrite L3, L1. by rewrite <- !(assoc_L (++)).
  - apply Forall_app. split; [done|]. by constructor.
  - set_solver.
Qed.

(** No warning means evidence. *)
Lemma rwp_ownership i u p (s : St W) :
  rwp (unit_ownership_warning a i u) (fun r p' s' => p' = p /\
    exists evs, st_log s' = st_log s ++ evs /\ Forall no_unit_write evs /\
      (r = Ok None -> sole_process i u evs)) p s.
Proof.
  unfold unit_ownership_warning. apply rwp_bind, rwp_tried. intros r1 s1 H1.
  destruct (logs_unit_processes u s) as (e1 & L1 & F1). rewrite H1 in L1. simpl in L1.
  assert (Hearly : forall r : res (option text) text, r <> Ok None ->
    exists evs, st_log s1 = st_log s ++ evs /\ Forall no_unit_write evs /\
      (r = Ok None -> sole_process i u evs)) by (intros r Hr; by exists e1).
  destruct r1 as [members|e|]; [|split; [done|by apply Hearly]..]. apply unit_processes_logged in H1.
  case_bool_decide as Hm; simpl; [|split; [done|by apply Hearly]].
  apply rwp_bind, rwp_tried. intros r2 s2 H2.
  destruct (logs_unit_for_process i s1) as (e2 & L2 & F2). rewrite H2 in L2. simpl in L2.
  assert (Hlate : forall r : res (option text) text,
    (r = Ok None -> sole_process i u (e1 ++ e2)) ->
    exists evs, st_log s2 = st_log s ++ evs /\ Forall no_unit_write evs /\
      (r = Ok None -> sole_process i u evs)).
  { intros r Hr. exists (e1 ++ e2). rewrite L2, L1, (assoc_L (++)). split; [done|].
    split; [by apply Forall_app|done]. }
  destruct r2 as [[current|]|e|]; [|split; [done|by apply Hlate]..].
  destruct (decide (current = u)) as [->|]; [|split; [done|by apply Hlate]].
  split; [done|]. apply Hlate. intros _. apply unit_for_process_logged in H2.
  destruct H1 as (f1 & K1 & _ & I1), H2 as (f2 & K2 & _ & I2).
  rewrite L1 in K1. rewrite L2 in K2. apply app_inv_head in K1, K2. subst f1 f2.
  exists members. split_and!; [set_solver|done|set_solver].
Qed.

End units.

(** ** A claimed scope on the simulated machine *)

Definition scope_intent : DesiredCgroup :=
  {| dc_unit := "game.scope";
     dc_properties := {| up_cpu_weight := Some 500; up_allowed_cpus := Some {[ 1 ]} |} |}.
Definition no_progress : Progress :=
  {| pg_applied := {| ap_generation := 0; ap_frequencies := ∅; ap_scalars := ∅; ap_tasks := ∅ |};
     pg_units := ∅; pg_warning := None |}.
Definition scope_run : res unit text * (Progress * St SimWorld) :=
  reconcile_cgroup sim_actuator (sim_process sim_task) scope_intent (no_progress, sim_start).


(** * A reconciliation on the simulated machine

    The engine of [EngineFacts] and the machine of [SimMachine]: one job that
    moves the frequency pair, schedules the real-time workload and leaves a
    trace entry. *)

Definition sim_thread (p : Z) : PlatformError + ProcessInfo :=
  match List.find (fun t => pid (identity t) =? p) (wit_workload :: wit_threads) with
  | Some t => inr t
  | None => inl (Disappeared "thread")
  end.

#[global] Instance sim_environment : Environment SimWorld := {
  monotonic_millis w := (sw_clock w / 1000000, w);
  env_list_threads p w := (inr [42; 43; 44], w);
  env_process_identity p w := (sim_thread p, w);
  env_online_cpus w := (inr {[ 0; 1; 2; 3; 5 ]}, w);
}.

Definition resolve_run : res SchedulerResolution text * (Progress * St SimWorld) :=
  resolve_scheduler sim_actuator wit_engine (Some wit_workload) Explicit SBoost
    (no_progress, sim_start).

Definition resolution : SchedulerResolution :=
  match resolve_run.1 with Ok r => r | _ => empty_resolution end.


Definition sim_job : ReconcileJob :=
  {| rj_policy_engine := wit_engine; rj_workload := Some wit_workload;
     rj_workload_source := Explicit; rj_desired := wide_plan;
     rj_applied := pg_applied no_progress; rj_applied_units := ∅;
     rj_reconcile_frequencies := true; rj_reconcile_scheduler := true;
     rj_gate_poisoned := false;
     rj_frequency_safety :=
       {| ff_envelope := {| env_generation := 1; env_upper_caps := {[ "cpu0" := 2500000 ]} |};
          ff_poisoned := false |};
     rj_trace_context := {| tc_trigger_source := "load"; tc_trigger_monotonic_ms := 0;
                            tc_governor := sample_governor |} |}.

Definition job_run : res ReconcileOutcome text * TraceState * St SimWorld :=
  run (fun _ => "") sim_actuator sim_job TraceState_default claimed_start.

