(* ===== verification/DaemonConfig.v ===== *)
(** * Resolved configuration ([uperf-daemon/src/config.rs])

    How a validated device profile is matched against the hardware discovery
    found: device selection, the resolution of frequency targets and thermal
    zones, and the tables the policy engine and the actuator are built from.
    Reading files and parsing JSON are not modelled; an error keeps the parts
    of its message. *)

From S2P Require Import Prelude Float64 Domain Text Scene Frequency Thermal Load ConfigTypes Validate ValidatePolicy Energy Governor Rules ActuatorTypes Scalars Targets DaemonTypes.

(** ** What discovery reports ([uperf-core/src/domain.rs], [uperf-linux/src/discovery.rs]) *)

Record CpuPolicyCapability := {
  cpc_id : string;
  cpc_policy_name : string;
  cpc_cpus : CpuSet;
  cpc_limits : FrequencyLimits;
  cpc_available_frequencies : list Hertz;
  cpc_governor : option string;
}.

Record DevfreqCapability := {
  dfc_id : string;
  dfc_device_name : string;
  dfc_compatible : list string;
  dfc_limits : FrequencyLimits;
  dfc_available_frequencies : list Hertz;
  dfc_governor : option string;
}.

Record ThermalZoneCapability := {
  tzc_id : string;
  tzc_zone_type : string;
  tzc_current : option ThermalReading;
}.

Record InputDeviceCapability := { idc_id : string; idc_name : string; idc_multi_touch : bool }.

Record DeviceCapabilities := {
  dc_device_name : option string;
  dc_compatible : list string;
  dc_cpu_policies : list CpuPolicyCapability;
  dc_devfreq_targets : list DevfreqCapability;
  dc_thermal_zones : list ThermalZoneCapability;
  dc_input_devices : list InputDeviceCapability;
}.

Record FrequencyTargetPaths := {
  ftp_id : string;
  ftp_minimum : string;
  ftp_maximum : string;
  ftp_current : string;
  ftp_hertz_per_unit : Z;
}.

Record LinuxDiscovery := {
  ld_capabilities : DeviceCapabilities;
  ld_frequency_targets : gmap string FrequencyTargetPaths;
  ld_thermal_zone_paths : gmap string string;
  ld_warnings : list text;
}.

(** ** A resolved target *)

Record ResolvedTarget := {
  rt_id : string;
  rt_kind : string;
  rt_label : text;
  rt_cpus : CpuSet;
  rt_hardware_limits : FrequencyLimits;
  rt_available_frequencies : list Hertz;
  rt_paths : FrequencyTargetPaths;
  rt_automatic_policy : option FrequencyPolicy;
  rt_energy_model : option EnergyModel;
  rt_administrator_cap : option Hertz;
  rt_critical_cap : Hertz;
  rt_sensor_failure_cap : Hertz;
}.

Definition actuator_target (t : ResolvedTarget) : result FrequencyTarget :=
  let? target := FrequencyTarget_new (rt_id t) (ftp_minimum (rt_paths t)) (ftp_maximum (rt_paths t))
                   (lim_min (rt_hardware_limits t)) (lim_max (rt_hardware_limits t))
                   (rt_available_frequencies t) in
  with_hertz_per_unit target (ftp_hertz_per_unit (rt_paths t)).

Definition actuator_scalar_target (c : ScalarTargetConfig) : result ScalarTarget :=
  let domain :=
    match stc_domain c with
    | CfgIntegerRange minimum maximum => IntegerRange minimum maximum
    | CfgIntegerEnum values => IntegerEnum values
    | CfgStringEnum values => StringEnum values
    | CfgCpuList allowed_cpus allow_empty => CpuListDomain allowed_cpus allow_empty
    end in
  ScalarTarget_new (stc_id c) (stc_path c) domain.

(** ** Selecting the device profile *)

Definition compatible_matches (d : LinuxDiscovery) (compatible : option string) : bool :=
  match compatible with
  | None => true
  | Some c => existsb (fun v => bool_decide (v = c)) (dc_compatible (ld_capabilities d))
  end.

Definition product_matches (d : LinuxDiscovery) (product : option string) : bool :=
  match product with
  | None => true
  | Some p => bool_decide (dc_device_name (ld_capabilities d) = Some p)
  end.

Definition validate_device_match (device : DeviceConfig) (d : LinuxDiscovery) : res unit text :=
  match dev_device_match device with
  | None => Ok tt
  | Some selector =>
      do? reject_if (negb (compatible_matches d (dm_compatible selector)))
            [PText "device profile "; PText (dev_device_id device); PText " requires compatible"] in
      reject_if (negb (product_matches d (dm_product_name selector)))
        [PText "device profile "; PText (dev_device_id device); PText " requires product name"]
  end.

Definition device_matches (device : DeviceConfig) (d : LinuxDiscovery) : bool :=
  match dev_device_match device with
  | None => false
  | Some selector =>
      compatible_matches d (dm_compatible selector) && product_matches d (dm_product_name selector)
  end.

(** [load_catalog_device], from the parsed profiles of the directory in the
    order of their sorted paths. *)
Definition select_catalog_device (profiles : list DeviceConfig) (d : LinuxDiscovery)
  : res DeviceConfig text :=
  match List.filter (fun device => device_matches device d) profiles with
  | [device] => Ok device
  | [] => Err [PText "no device profile exactly matches"]
  | _ => Err [PText "multiple shared device profiles match discovered hardware"]
  end.

(** ** Resolving frequency targets *)

(** [Path::parent] and [Path::file_name], on the components of a path. *)
Definition parent (path : string) : option (list Component) :=
  match rev (components path) with
  | [] | [RootDir] => None
  | _ :: rest => Some (rev rest)
  end.
Definition file_name (path : list Component) : option string :=
  match rev path with Text.Normal s :: _ => Some s | _ => None end.

Definition unique_match {A} (id selector : string) (candidates : list A) : res A text :=
  match candidates with
  | [candidate] => Ok candidate
  | [] => Err [PText id; PText ": "; PText selector; PText " did not match discovered hardware"]
  | _ => Err [PText id; PText ": "; PText selector; PText " is ambiguous"]
  end.

Definition discovery_paths (d : LinuxDiscovery) (id : string) : res FrequencyTargetPaths text :=
  ok_or (ld_frequency_targets d !! id) [PText "discovery did not retain private paths for "; PText id].

Definition discovered_directory (d : LinuxDiscovery) (id : string) : option (list Component) :=
  p ← ld_frequency_targets d !! id; parent (ftp_minimum p).

Definition in_directory (d : LinuxDiscovery) (id : string) (sysfs_path : option string) : bool :=
  is_none_or sysfs_path (fun path => bool_decide (discovered_directory d id = Some (components path))).

Definition validate_optional_directory (configured : option string) (discovered : FrequencyTargetPaths)
  : res unit text :=
  match configured with
  | None => Ok tt
  | Some path =>
      let? dir := ok_or (parent (ftp_minimum discovered)) [PText "discovered target path has no parent"] in
      reject_if (negb (bool_decide (components path = dir)))
        [PText "configured sysfs override "; PText path; PText " does not match discovered target"]
  end.

Definition validate_target_cap (cap : option Hertz) (hardware : FrequencyLimits) (id kind : string)
    (hertz_per_unit : Z) : res unit text :=
  do? reject_if (hertz_per_unit =? 0) [PText id; PText ": kernel target unit must be non-zero"] in
  do? reject_if (is_some_and cap (fun v => (v <? lim_min hardware) || (lim_max hardware <? v)))
        [PText id; PText ": "; PText kind; PText " cap lies outside hardware limits"] in
  reject_if (is_some_and cap (fun v => negb (is_multiple_of v hertz_per_unit)))
    [PText id; PText ": "; PText kind; PText " cap is not representable in the kernel target unit"].

(** The three caps of a target and the two it falls back to. *)
Definition resolve_caps (id : string) (hardware : FrequencyLimits) (hertz_per_unit : Z)
    (admin critical sensor_failure : option Hertz) : res (Hertz * Hertz) text :=
  do? validate_target_cap admin hardware id "admin" hertz_per_unit in
  do? validate_target_cap critical hardware id "critical" hertz_per_unit in
  do? validate_target_cap sensor_failure hardware id "sensor failure" hertz_per_unit in
  let critical_cap := unwrap_or critical (lim_min hardware) in
  let sensor_failure_cap := unwrap_or sensor_failure (lim_min hardware) in
  do? reject_if (critical_cap <? sensor_failure_cap)
        [PText id; PText ": sensor failure cap must not exceed critical cap"] in
  Ok (critical_cap, sensor_failure_cap).

Definition resolve_cpu_policy (d : LinuxDiscovery) (c : CpuPolicyConfig)
  : res (string * ResolvedTarget) text :=
  let? capability := unique_match (cp_id c) "CPU related_cpus selector"
      (List.filter (fun k => bool_decide (cpc_cpus k = cp_related_cpus c)
                             && in_directory d (cpc_id k) (cp_sysfs_path c))
         (dc_cpu_policies (ld_capabilities d))) in
  let? paths := discovery_paths d (cpc_id capability) in
  do? validate_optional_directory (cp_sysfs_path c) paths in
  let limits := cpc_limits capability in
  let policy := {| Frequency.hardware_limits := limits; floor := cp_floor_hz c; reference := cp_reference_hz c;
                   efficient_cap := cp_efficient_cap_hz c; hertz_per_unit := ftp_hertz_per_unit paths;
                   available_frequencies := cpc_available_frequencies capability |} in
  do? map_err (fun e => [PPolicy e]) (Frequency.validate policy) in
  let? (critical_cap, sensor_failure_cap) :=
      resolve_caps (cp_id c) limits (ftp_hertz_per_unit paths)
        (cp_admin_cap_hz c) (cp_critical_cap_hz c) (cp_sensor_failure_cap_hz c) in
  let? energy_model :=
      match cp_energy_model c with
      | None => Ok None
      | Some model =>
          map_err (fun _ => [PText "expand calibrated energy model for "; PText (cp_id c)])
            (let? m := from_config model (cpc_available_frequencies capability) in Ok (Some m))
      end in
  Ok (cpc_id capability,
      {| rt_id := cp_id c; rt_kind := "cpufreq";
         rt_label := [PText "CPU "; PNums (CpuSet_iter (cp_related_cpus c))];
         rt_cpus := cp_related_cpus c; rt_hardware_limits := limits;
         rt_available_frequencies := cpc_available_frequencies capability; rt_paths := paths;
         rt_automatic_policy := Some policy; rt_energy_model := energy_model;
         rt_administrator_cap := cp_admin_cap_hz c; rt_critical_cap := critical_cap;
         rt_sensor_failure_cap := sensor_failure_cap |}).

Definition devfreq_matches (d : LinuxDiscovery) (c : DevfreqTargetConfig) (k : DevfreqCapability) : bool :=
  (bool_decide (dfc_device_name k = df_device_name c)
   || is_some_and (dir ← discovered_directory d (dfc_id k); file_name dir)
        (fun name => bool_decide (name = df_device_name c)))
  && forallb (fun required => bool_decide (required ∈ dfc_compatible k)) (df_compatible c)
  && in_directory d (dfc_id k) (df_sysfs_path c).

Definition resolve_devfreq (d : LinuxDiscovery) (c : DevfreqTargetConfig)
  : res (string * ResolvedTarget) text :=
  let? capability := unique_match (df_id c) "devfreq device_name selector"
      (List.filter (devfreq_matches d c) (dc_devfreq_targets (ld_capabilities d))) in
  let? paths := discovery_paths d (dfc_id capability) in
  do? validate_optional_directory (df_sysfs_path c) paths in
  do? reject_if (bool_decide (dfc_available_frequencies capability = []))
        [PText (df_id c); PText ": devfreq target exposes no immutable OPP table"] in
  let limits := dfc_limits capability in
  let? (critical_cap, sensor_failure_cap) :=
      resolve_caps (df_id c) limits (ftp_hertz_per_unit paths)
        (df_admin_cap_hz c) (df_critical_cap_hz c) (df_sensor_failure_cap_hz c) in
  Ok (dfc_id capability,
      {| rt_id := df_id c; rt_kind := "devfreq"; rt_label := [PText (dfc_device_name capability)];
         rt_cpus := ∅; rt_hardware_limits := limits;
         rt_available_frequencies := dfc_available_frequencies capability; rt_paths := paths;
         rt_automatic_policy := None; rt_energy_model := None;
         rt_administrator_cap := df_admin_cap_hz c; rt_critical_cap := critical_cap;
         rt_sensor_failure_cap := sensor_failure_cap |}).

(** One configured target added to the claimed discovery ids and the result. *)
Definition claim_target {C} (resolve : C -> res (string * ResolvedTarget) text)
    (acc : gset string * gmap string ResolvedTarget) (c : C)
  : res (gset string * gmap string ResolvedTarget) text :=
  let? (discovered, target) := resolve c in
  Ok ({[discovered]} ∪ acc.1, <[rt_id target := target]> acc.2).

Definition resolve_targets (device : DeviceConfig) (d : LinuxDiscovery)
  : res (gmap string ResolvedTarget * list text) text :=
  let? acc := res_foldM (claim_target (resolve_cpu_policy d)) (∅, ∅) (dev_cpu_policies device) in
  let? (claimed, resolved) :=
      res_foldM (claim_target (resolve_devfreq d)) acc (dev_devfreq_targets device) in
  let unclaimed := List.filter (fun id => negb (bool_decide (id ∈ claimed)))
                     (keys (ld_frequency_targets d)) in
  Ok (resolved,
      ld_warnings d ++
      ((fun id => [PText "discovered target "; PText id;
                   PText " is not selected by device.json and remains read-only"]) <$> unclaimed)).

(** ** Resolving thermal zones *)

Definition zone_matches (d : LinuxDiscovery) (c : ThermalZoneConfig) (z : ThermalZoneCapability) : bool :=
  bool_decide (tzc_zone_type z = tz_zone_type c)
  && match tz_sysfs_path c with
     | None => true
     | Some path => is_some_and (ld_thermal_zone_paths d !! tzc_id z)
                      (fun discovered => path_eqb discovered path)
     end.

Definition with_zone_path (c : ThermalZoneConfig) (path : string) : ThermalZoneConfig :=
  {| tz_id := tz_id c; tz_zone_type := tz_zone_type c; tz_sysfs_path := Some path;
     tz_warning := tz_warning c; tz_throttled := tz_throttled c; tz_critical := tz_critical c;
     tz_hysteresis := tz_hysteresis c; tz_dwell_ms := tz_dwell_ms c;
     tz_stale_after_ms := tz_stale_after_ms c |}.

Definition resolve_zone (d : LinuxDiscovery) (acc : gset string * list ThermalZoneConfig)
    (c : ThermalZoneConfig) : res (gset string * list ThermalZoneConfig) text :=
  let? discovered :=
    match List.filter (zone_matches d c) (dc_thermal_zones (ld_capabilities d)) with
    | [zone] => Ok zone
    | [] => Err [PText "thermal zone "; PText (tz_id c); PText " was not discovered"]
    | _ => Err [PText "thermal zone "; PText (tz_id c); PText " is ambiguous"]
    end in
  do? reject_if (bool_decide (tzc_id discovered ∈ acc.1))
        [PText "thermal zone "; PText (tz_id c); PText " resolves to already claimed sensor "] in
  let? path := ok_or (ld_thermal_zone_paths d !! tzc_id discovered)
                 [PText "discovery did not retain the path for thermal sensor "] in
  Ok ({[tzc_id discovered]} ∪ acc.1, acc.2 ++ [with_zone_path c path]).

Definition resolve_thermal_zones (device : DeviceConfig) (d : LinuxDiscovery)
  : res (list ThermalZoneConfig) text :=
  let? (_, resolved) := res_foldM (resolve_zone d) (∅, []) (dev_thermal_zones device) in
  Ok resolved.

(** ** The configuration *)

Section configuration.
Context `{RegexEngine}.

Record ResolvedConfiguration := {
  rc_device : DeviceConfig;
  rc_policy : PolicyConfig;
  rc_apps : AppsConfig;
  rc_app_rule_engine : list CompiledAppRule;
  rc_policy_engine : PolicyEngine;
  rc_targets : gmap string ResolvedTarget;
  rc_thermal_zones : list ThermalZoneConfig;
  rc_warnings : list text;
}.

(** [ResolvedConfiguration::load] from the documents it has parsed; each was
    validated when it was parsed. *)
Definition load (device : DeviceConfig) (configured_policy : PolicyConfig) (apps : AppsConfig)
    (startup_warnings : list text) (d : LinuxDiscovery) : res ResolvedConfiguration text :=
  let? policy := map_err (fun _ => [PText "validate references across device and policy configuration"])
      (materialize_cpu_groups {| bundle_device := device; bundle_policy := configured_policy |}) in
  let? engine := map_err (fun e => [PPolicy e]) (PolicyEngine_new policy) in
  let? rules := map_err (fun e => [PPolicy e]) (AppRuleEngine_new apps) in
  let? (targets, warnings) := resolve_targets device d in
  let? thermal_zones := resolve_thermal_zones device d in
  Ok {| rc_device := device; rc_policy := policy; rc_apps := apps; rc_app_rule_engine := rules;
        rc_policy_engine := engine; rc_targets := targets; rc_thermal_zones := thermal_zones;
        rc_warnings := warnings ++ startup_warnings |}.

Context (c : ResolvedConfiguration).

Definition actuator_scalar_targets : result (list ScalarTarget) :=
  res_mapM actuator_scalar_target (dev_scalar_targets (rc_device c)).

Definition actuator_registry : result TargetRegistry :=
  let? frequencies := res_mapM actuator_target (values (rc_targets c)) in
  let? scalars := actuator_scalar_targets in
  let? registry := TargetRegistry_new frequencies in
  with_scalar_targets registry scalars.

Definition actuator_write_paths : result (list string) :=
  let? scalars := actuator_scalar_targets in
  Ok (flat_map (fun t => [ftp_minimum (rt_paths t); ftp_maximum (rt_paths t)]) (values (rc_targets c))
      ++ (sct_path <$> scalars)).

Definition cpu_target_policies : gmap string CpuTargetPolicy :=
  omap (fun t =>
    p ← rt_automatic_policy t;
    Some {| cpus := rt_cpus t; frequency := p; energy_model := rt_energy_model t |}) (rc_targets c).

Definition manual_target_policies : gmap string FrequencyPolicy :=
  omap (fun t =>
    match rt_automatic_policy t with
    | Some _ => None
    | None =>
        Some {| Frequency.hardware_limits := rt_hardware_limits t; floor := lim_min (rt_hardware_limits t);
                reference := lim_max (rt_hardware_limits t);
                efficient_cap := lim_max (rt_hardware_limits t);
                hertz_per_unit := ftp_hertz_per_unit (rt_paths t);
                available_frequencies := rt_available_frequencies t |}
    end) (rc_targets c).

Definition administrator_caps : gmap string Hertz := omap rt_administrator_cap (rc_targets c).
End configuration.
