(* ===== verification/RuntimeTypes.v ===== *)
(** * The runtime's state and vocabulary ([uperf-daemon/src/runtime.rs])

    The commands and events the state owner consumes, the jobs it hands to its
    workers, its errors and receipts, and its state. [RuntimeActor] has some
    ninety fields; they are grouped here by concern, each group a record. The
    channels to the workers are part of the state: what was sent and not yet
    consumed. A oneshot reply channel is a number, and an answer sent on it is
    logged. *)

From coqutil Require Import Datatypes.RecordSetters.
From Stdlib Require Import SpecFloat.
From S2P Require Import Prelude Float64 Domain Text Scene Frequency Thermal Load ConfigTypes Validate ValidatePolicy Energy Governor Rules Engine ActuatorTypes Scalars Targets Journal Ports DaemonTypes DecisionTrace Reconcile DaemonConfig.

Export RecordSetters.TriangleBracketNotations.

(** ** Constants *)

Definition WORKLOAD_CHECK_INTERVAL_MS : Z := 1000.
Definition SCHEDULER_SCAN_INTERVAL_MS : Z := 250.
Definition FREQUENCY_STALE_AFTER_MS : Z := 3000.
Definition FOCUS_REASON_LIMIT : Z := 256.
Definition RENDER_IDLE_SLACK_MS : Z := 200.
Definition JUNK_HINT_DURATION_MS : Z := 60.
Definition DEADLINE_MISS_RATE_LIMIT_MS : Z := 16.
Definition MAX_EXTERNAL_DRIFT_CORRECTIONS : Z := 2.
Definition FOCUS_REJECTED_ISSUE : string := "focus.rejected".
Definition APP_PERSISTENCE_IN_FLIGHT : text := [PText "an application-rule update is still being persisted"].
Definition RELOAD_IN_FLIGHT : text := [PText "configuration reload is still being prepared"].
Definition PROCESS_IDENTITY_IN_FLIGHT : text := [PText "a workload identity lookup is still in progress"].

(** ** Errors, receipts and answers *)

Inductive RuntimeError :=
| EInvalidArgument (t : text)
| ENotFound (t : text)
| ENotAuthorized (t : text)
| EConflict (t : text)
| EDegraded (t : text)
| EValidation (t : text)
| EInternal (t : text).

(** [#[error(..)]]: how an error reads inside another message. *)
Definition error_text (e : RuntimeError) : text :=
  match e with
  | EInvalidArgument t => PText "invalid argument: " :: t
  | ENotFound t => PText "resource not found: " :: t
  | ENotAuthorized t => PText "not authorized: " :: t
  | EConflict t => PText "state conflict: " :: t
  | EDegraded t => PText "mutation unavailable in degraded mode: " :: t
  | EValidation t => PText "configuration validation failed: " :: t
  | EInternal t => PText "runtime internal error: " :: t
  end.

Record MutationReceipt := { mr_generation : Z; mr_changed_ids : list text; mr_message : text }.
Record ReloadReport := { rl_config_generation : Z; rl_warnings : list text; rl_message : text }.

Definition receipt (generation : Z) (changed_ids : list text) (message : text) : MutationReceipt :=
  {| mr_generation := generation; mr_changed_ids := changed_ids; mr_message := message |}.

(** A oneshot sender, and what is sent on it. *)
Notation ReplyTo := Z (only parsing).
Notation rt_result A := (sum RuntimeError A) (only parsing).

Inductive Reply :=
| ReReceipt (r : rt_result MutationReceipt)
| ReReload (r : rt_result ReloadReport)
| ReDone (r : rt_result unit)
| ReSleep (r : sum text unit).

Record HealthIssue := {
  hi_code : string;
  hi_severity : string;
  hi_component : string;
  hi_message : text;
}.

Definition issue (code severity component : string) (message : text) : HealthIssue :=
  {| hi_code := code; hi_severity := severity; hi_component := component; hi_message := message |}.

(** ** Requests *)

Record WorkloadRequest := { wr_pid : Z; wr_mode : string; wr_reason : string }.

Record FrequencyOverride := {
  fo_target_id : string;
  fo_min_hz : Z;
  fo_max_hz : Z;
  fo_ttl_ms : Z;
  fo_reason : string;
}.

Record ApiAppRule := {
  aa_id : string;
  aa_enabled : bool;
  aa_owner_uid : Z;
  aa_executable : option string;
  aa_comm_regex : option string;
  aa_mode : string;
  aa_priority : Z;
}.

Inductive FrameHintEvent :=
| RenderStarted | RenderIdle | DeadlineMissed | DisplayBlanked | DisplayUnblanked.

Inductive SessionState := SessionActive | SessionIdle | SessionLocked.
#[global] Instance SessionState_eq_dec : EqDecision SessionState.
Proof. solve_decision. Defined.

Inductive Command :=
| CmdSetMode (mode : string) (reply : ReplyTo)
| CmdSetActiveWorkload (request : WorkloadRequest) (caller_uid : Z) (reply : ReplyTo)
| CmdClearActiveWorkload (caller_uid : Z) (reply : ReplyTo)
| CmdSetForegroundProcess (pid : Z) (reason : string) (caller_uid : Z) (peer : option string)
    (reply : ReplyTo)
| CmdClearForegroundProcess (caller_uid : Z) (peer : option string) (reply : ReplyTo)
| CmdReportFrameHint (event : FrameHintEvent) (caller_uid : Z) (peer : option string)
    (reply : ReplyTo)
| CmdForgetForegroundPeer (peer : string)
| CmdSetFrequencyOverrides (overrides : list FrequencyOverride) (reply : ReplyTo)
| CmdClearFrequencyOverrides (target_ids : list string) (reply : ReplyTo)
| CmdReload (reply : ReplyTo)
| CmdSetAppRule (rule : ApiAppRule) (reply : ReplyTo)
| CmdRemoveAppRule (id : string) (reply : ReplyTo)
| CmdRunningWorkloadObserverHealth (result : sum text unit)
| CmdActivate (reply : ReplyTo)
| CmdBeginShutdown (reply : ReplyTo)
| CmdStop (reply : ReplyTo).

Inductive RuntimeInput :=
| RiHint (scene : Scene)
| RiInput (event : InputEvent)
| RiSessionState (state : SessionState)
| RiPrepareForSleep (sleeping : bool) (completion : ReplyTo).

Record FrequencyObservationBatch := {
  ob_readings : gmap string ObservedFrequency;
  ob_errors : gmap string text;
}.

Record ThermalSample := {
  ts_zone_id : string;
  ts_zone_type : string;
  ts_path : string;
  ts_reading : ThermalReading;
}.

#[global] Instance ProcessInfo_eq_dec : EqDecision ProcessInfo.
Proof. solve_decision. Defined.

(** ** Leases *)

Record TimedOverride := { to_limits : FrequencyLimits; to_expires_at : option MonotonicMillis }.

Record FocusLease := {
  fl_info : ProcessInfo;
  fl_peer : option string;
  fl_expires_at : MonotonicMillis;
}.

Record FrameReporterLease := {
  fr_peer : string;
  fr_uid : Z;
  fr_expires_at : MonotonicMillis;
}.

Record PendingFocusReport := {
  pf_pid : Z;
  pf_caller_uid : Z;
  pf_peer : option string;
  pf_not_before : MonotonicMillis;
  pf_focus_revision : Z;
  pf_trigger_at : MonotonicMillis;
}.

Record RenderIdleDeadline := { ri_generation : Z; ri_deadline : MonotonicMillis }.

Inductive ProcessIdentityPurpose :=
| PurposeSet (pid : Z) (requested_profile : option ProfileId) (caller_uid : Z) (reply : ReplyTo)
| PurposeClear (expected : ProcessIdentity) (caller_uid : Z) (reply : ReplyTo)
| PurposeRefresh (expected : ProcessIdentity)
| PurposeFocus (pid caller_uid : Z) (peer : option string) (revision : Z)
    (trigger_at : MonotonicMillis)
| PurposeRefreshFocus (expected : ProcessIdentity).

Definition is_control_request (p : ProcessIdentityPurpose) : bool :=
  match p with PurposeSet _ _ _ _ | PurposeClear _ _ _ => true | _ => false end.

Record ProcessIdentityInFlight := { pif_id : Z; pif_is_control_request : bool }.

Record ProcessIdentityOutcome := {
  pio_id : Z;
  pio_purpose : ProcessIdentityPurpose;
  pio_result : sum text ProcessInfo;
}.

(** ** Jobs and outcomes of the workers *)

Record ExternalDriftState := {
  ed_desired : FrequencyLimits;
  ed_corrections : Z;
  ed_suppressed : bool;
}.

Record FrequencyIntent := {
  fi_frequencies : gmap string FrequencyLimits;
  fi_scalars : gmap string ScalarSettingValue;
}.
#[global] Instance FrequencyIntent_eq_dec : EqDecision FrequencyIntent.
Proof. solve_decision. Defined.

Definition FrequencyIntent_from (desired : DesiredPlan) : FrequencyIntent :=
  {| fi_frequencies := dp_frequencies desired; fi_scalars := dp_scalars desired |}.

Record RestoreOutcome := { rs_id : Z; rs_result : sum text unit }.
Record FrequencySafetyOutcome := { fso_id : Z; fso_result : sum text unit }.

(** [ObserverSettings] *)
Record ObserverSettings := {
  os_generation : Z;
  os_load_interval : Z;
  os_thermal_interval : Z;
  os_thermal_paths : list string;
  os_input : InputConfig;
}.

Section jobs.
Context `{RegexEngine}.

Record FrequencyWork := {
  fw_job : ReconcileJob;
  fw_drift_targets : gmap string FrequencyLimits;
}.

Inductive FrequencyWorkerCommand :=
| FwReconcile (id : Z) (work : FrequencyWork)
| FwQuiesce (id : Z).

Inductive FrequencyWorkerEvent :=
| FwReconciled (id : Z) (drift_targets : gmap string FrequencyLimits)
    (result : sum text ReconcileOutcome)
| FwQuiesced (id : Z)
| FwFailed (error : text).

Record SchedulerWorkerOutcome := {
  sw_id : Z;
  sw_result : sum text ReconcileOutcome;
}.

Record AppPersistenceOutcome := {
  apo_candidate : AppsConfig;
  apo_changed_id : text;
  apo_message : text;
  apo_reply : ReplyTo;
  apo_result : rt_result unit;
}.

Record ReloadOutcome := {
  ro_reply : ReplyTo;
  ro_result : rt_result ResolvedConfiguration;
}.

(** ** The state, by concern *)

(** The configuration in force. *)
Record ConfigState := {
  cf_configuration : ResolvedConfiguration;
  cf_actuator : option Actuator;
  cf_config_generation : Z;
  cf_observer_generation : Z;
  cf_observer_settings : ObserverSettings;
}.

(** What clients control. *)
Record ControlState := {
  co_mode : ModeSelection;
  co_active_workload : option ProcessInfo;
  co_requested_workload_profile : option ProfileId;
  co_overrides : gmap string TimedOverride;
  co_session_state : SessionState;
  co_generation : Z;
  co_mutations_activated : bool;
  co_accepting_control : bool;
  co_stop_requested : bool;
}.

(** Focus and frame reporter leases. *)
Record FocusState := {
  fs_focus_lease : option FocusLease;
  fs_frame_reporter_lease : option FrameReporterLease;
  fs_pending_focus : option PendingFocusReport;
  fs_focus_report_revision : Z;
}.

(** Interactions, their hints and the display. *)
Record InteractionState := {
  ia_generation : Z;
  ia_ended : bool;
  ia_hints : gmap Scene Z;
  ia_render_generation : option Z;
  ia_render_idle_deadline : option RenderIdleDeadline;
  ia_last_deadline_missed : option (Z * MonotonicMillis);
  ia_display_blanked : bool;
  ia_scenes : HintSet;
  ia_contacts : gset TouchContactId;
}.

(** Observations. *)
Record SensingState := {
  sn_observed : ObservedState;
  sn_thermal_guards : gmap string ThermalGuard;
  sn_thermal_state : ThermalState;
  sn_thermal_caps : gmap string Hertz;
  sn_maximum_temperature : option MilliCelsius;
  sn_previous_cpu_times : option CpuTimeSnapshot;
  sn_last_load_success : option MonotonicMillis;
  sn_last_frequency_success : option MonotonicMillis;
  sn_heavy_load : HeavyLoadDetector;
  sn_adaptive_sampler : SamplingMode;
  sn_telemetry_sequence : Z;
}.

(** The policy's last decision. *)
Record DecisionState := {
  de_desired : option DesiredPlan;
  de_trigger_source : string;
  de_trigger_at : MonotonicMillis;
  de_governor_state : GovernorState;
  de_governor_diagnostics : option GovernorDiagnostics;
  de_integrate_elapsed_time : bool;
  de_external_drift : gmap string ExternalDriftState;
}.

(** What the workers reported as applied. *)
Record AppliedResources := {
  ar_applied : AppliedState;
  ar_applied_units : gmap string SystemdUnitProperties;
  ar_scheduler_report : SchedulerReport;
}.

(** The protocol with the frequency worker and the scheduler tasks. *)
Record LaneState := {
  ln_frequency_command_pending : option Z;
  ln_frequency_quiesce_pending : option Z;
  ln_frequency_quiesced : bool;
  ln_next_frequency_command_id : Z;
  ln_frequency_requested : option FrequencyIntent;
  ln_scheduler_in_flight : option Z;
  ln_scheduler_pending : bool;
  ln_scheduler_dirty : bool;
  ln_next_scheduler_id : Z;
  ln_last_workload_check : MonotonicMillis;
  ln_last_scheduler_scan : MonotonicMillis;
}.

(** Sleep, resume, stop and reload. *)
Record BarrierState := {
  ba_suspended : bool;
  ba_restore_in_flight : option Z;
  ba_next_restore_id : Z;
  ba_restore_requested : bool;
  ba_restored_while_suspended : bool;
  ba_sleep_waiters : list ReplyTo;
  ba_wake_waiters : list ReplyTo;
  ba_pending_resume : bool;
  ba_stop_waiters : list ReplyTo;
  ba_pending_reload : option ReloadOutcome;
  ba_reload_in_flight : bool;
  ba_app_persist_in_flight : bool;
  ba_capabilities_changed_pending : bool;
}.

(** The identity reader. *)
Record IdentityState := {
  id_reader : bool;
  id_in_flight : option ProcessIdentityInFlight;
  id_next : Z;
}.

(** Updates of the frequency safety fence. *)
Record SafetyState := {
  sf_update_in_flight : option Z;
  sf_next_update_id : Z;
  sf_requested_upper_caps : gmap string Hertz;
  sf_pending_upper_caps : option (gmap string Hertz);
}.

(** Failures, backoff and health. *)
Record FailureState := {
  fa_restore_failure : option text;
  fa_frequency_safety_failure : option text;
  fa_reconcile_worker_failure : option text;
  fa_frequency_failures : Z;
  fa_frequency_retry_not_before : MonotonicMillis;
  fa_scheduler_failures : Z;
  fa_scheduler_retry_not_before : MonotonicMillis;
  fa_actuator_read_only : bool;
  fa_startup_recovery_pending : bool;
  fa_health_issues : gmap string HealthIssue;
}.

(** The channels to the workers: what was sent and not yet taken. The
    frequency worker reads a watch channel, which keeps the last command only;
    it is closed when the worker has stopped. *)
Record Channels := {
  ch_frequency_command : option FrequencyWorkerCommand;
  ch_frequency_closed : bool;
  ch_schedulers : list (Z * ReconcileJob);
  ch_restores : list Z;
  ch_safety_updates : list (Z * gmap string Hertz);
  ch_identity_reads : list (Z * Z * ProcessIdentityPurpose);
  ch_app_persistence : list (AppsConfig * text * text * ReplyTo);
  ch_reloads : list ReplyTo;
}.

Record RuntimeActor (W : Type) := {
  ra_config : ConfigState;
  ra_control : ControlState;
  ra_focus : FocusState;
  ra_interaction : InteractionState;
  ra_sensing : SensingState;
  ra_decision : DecisionState;
  ra_applied : AppliedResources;
  ra_lanes : LaneState;
  ra_barrier : BarrierState;
  ra_identity : IdentityState;
  ra_safety : SafetyState;
  ra_failures : FailureState;
  ra_channels : Channels;
  ra_replies : list (ReplyTo * Reply);
  ra_sys : St W;
}.
End jobs.
Arguments RuntimeActor {H} W.
Arguments ra_config {H W}.
Arguments ra_control {H W}.
Arguments ra_focus {H W}.
Arguments ra_interaction {H W}.
Arguments ra_sensing {H W}.
Arguments ra_decision {H W}.
Arguments ra_applied {H W}.
Arguments ra_lanes {H W}.
Arguments ra_barrier {H W}.
Arguments ra_identity {H W}.
Arguments ra_safety {H W}.
Arguments ra_failures {H W}.
Arguments ra_channels {H W}.
Arguments ra_replies {H W}.
Arguments ra_sys {H W}.

(** ** The monad of the state owner

    A failed debug assertion or a panic ends it: [None]. *)

Definition AM (W : Type) `{RegexEngine} (X : Type) : Type :=
  RuntimeActor W -> option X * RuntimeActor W.

#[global] Instance AM_ret W `{RegexEngine} : MRet (AM W) := fun X x s => (Some x, s).
#[global] Instance AM_bind W `{RegexEngine} : MBind (AM W) := fun X Y k m s =>
  match m s with
  | (Some x, s) => k x s
  | (None, s) => (None, s)
  end.

Section primitives.
Context {W : Type} `{!Ports W} `{!Environment W} `{RegexEngine}.

Definition gets {X} (f : RuntimeActor W -> X) : AM W X := fun s => (Some (f s), s).
Definition modify (f : RuntimeActor W -> RuntimeActor W) : AM W unit := fun s => (Some tt, f s).
Definition crash {X} : AM W X := fun s => (None, s).
Definition debug_assert (b : bool) : AM W unit := if b then mret tt else crash.

(** [reply.send(..)] *)
Definition answer (r : ReplyTo) (v : Reply) : AM W unit :=
  modify (fun s => s <|ra_replies ::= (fun l => l ++ [(r, v)])|>).

(** [self.environment.monotonic_millis()] *)
Definition clock : AM W MonotonicMillis := fun s =>
  let '(now, w) := monotonic_millis (st_world (ra_sys s)) in
  (Some now,
   s <|ra_sys := {| st_rt := st_rt (ra_sys s); st_world := w; st_log := st_log (ra_sys s) |}|>).

(** A query of the actuator, whose error the caller inspects. *)
Definition query_actuator {X} (m : M W X) : AM W (res X ActuatorError) := fun s =>
  let '(r, t) := m (ra_sys s) in (Some r, s <|ra_sys := t|>).

Definition when (b : bool) (m : AM W unit) : AM W unit := if b then m else mret tt.

Fixpoint afor {X} (l : list X) (f : X -> AM W unit) : AM W unit :=
  match l with
  | [] => mret tt
  | x :: l => f x;; afor l f
  end.

(** ** The helpers every handler uses *)

Definition insert_issue (i : HealthIssue) : AM W unit :=
  modify (fun s => s <|ra_failures->fa_health_issues ::= <[hi_code i := i]>|>).
Definition remove_issue (code : string) : AM W unit :=
  modify (fun s => s <|ra_failures->fa_health_issues ::= delete code|>).

(** [self.generation = self.generation.saturating_add(1)] *)
Definition bump_generation : AM W unit :=
  modify (fun s => s <|ra_control->co_generation ::= (fun g => sat_add g 1)|>).

Definition set_scheduler_dirty : AM W unit :=
  modify (fun s => s <|ra_lanes->ln_scheduler_dirty := true|>).

Definition generation : AM W Z := gets (fun s => co_generation (ra_control s)).
Definition configuration : AM W ResolvedConfiguration :=
  gets (fun s => cf_configuration (ra_config s)).

Definition mark_decision_trigger (source : string) : AM W unit :=
  modify (fun s => s <|ra_decision->de_trigger_source := source|>);;
  now ← clock;
  modify (fun s => s <|ra_decision->de_trigger_at := now|>).
End primitives.

(** [code.starts_with(prefix)] removed from the issues. *)
Definition without_prefix (p : string) (m : gmap string HealthIssue) : gmap string HealthIssue :=
  filter (fun kv => String.prefix p kv.1 = false) m.

(** * Pure helpers of the runtime ([uperf-daemon/src/runtime.rs])

    Parsing of modes, backoff delays, staleness, the rounding of diagnostics
    into the integers the API publishes, and the signature that tells whether
    a reloaded configuration still drives the same attributes. *)

(** ** Modes *)

Definition parse_profile (value : string) : rt_result ProfileId :=
  if decide (value = "powersave") then inr Powersave
  else if decide (value = "balance") then inr Balance
  else if decide (value = "performance") then inr Performance
  else inl (EInvalidArgument [PText "unknown profile "; PText value]).

Definition parse_mode (value : string) : rt_result ModeSelection :=
  if decide (value = "auto") then inr Auto
  else match parse_profile value with inl e => inl e | inr p => inr (Forced p) end.

Definition mode_name (m : ModeSelection) : string :=
  match m with Auto => "auto" | Forced p => profile_name p end.

(** ** Backoff and staleness *)

Definition retry_delay_ms (failures : Z) : Z :=
  let exponent := Z.min (sat_sub failures 1) 8 in
  Z.min (sat_mul 100 (Z.shiftl 1 exponent)) 30000.

Definition frequency_sample_is_stale (last_success : option MonotonicMillis) (now : MonotonicMillis)
  : bool :=
  is_none_or last_success (fun last =>
    (now <? last) || (FREQUENCY_STALE_AFTER_MS <? saturating_duration_since now last)).

(** ** Rounding *)

(** [f64::round] of a finite number: half away from zero. *)
Definition round_to_Z (x : f64) : Z :=
  match x with
  | S754_finite s m e =>
      let magnitude :=
        if 0 <=? e then Z.shiftl (Zpos m) e
        else (2 * Zpos m + Z.shiftl 1 (- e)) / Z.shiftl 1 (1 - e) in
      if s then - magnitude else magnitude
  | _ => 0
  end.

Definition utilization_to_basis_points (value : f64) : Z :=
  let scaled := f64_mul (f64_clamp value f64_zero f64_one) (f64_of_Z 10000) in
  Z.max 0 (Z.min 65535 (round_to_Z scaled)).

Definition rounded_nonnegative (value : f64) : Z :=
  if negb (f64_is_finite value) || f64_le value f64_zero then 0
  else Z.min (round_to_Z value) u64_max.

Definition rounded_signed (value : f64) : Z :=
  if negb (f64_is_finite value) then 0
  else Z.max (-9223372036854775808) (Z.min 9223372036854775807 (round_to_Z value)).

(** ** Targets *)

Definition middle_opp (t : ResolvedTarget) : option Hertz :=
  match rt_available_frequencies t with
  | [] => Some (sat_add (lim_min (rt_hardware_limits t)) (lim_max (rt_hardware_limits t)) / 2)
  | frequencies =>
      let sorted := merge_sort Z.le frequencies in sorted !! (length sorted / 2)%nat
  end.

#[global] Instance ScalarTargetDomainConfig_eq_dec : EqDecision ScalarTargetDomainConfig.
Proof. solve_decision. Defined.
#[global] Instance ScalarTargetConfig_eq_dec : EqDecision ScalarTargetConfig.
Proof. solve_decision. Defined.

Record TargetSignature := {
  ts_frequencies : list (string * list Component * list Component * Z);
  ts_scalars : list ScalarTargetConfig;
}.
#[global] Instance TargetSignature_eq_dec : EqDecision TargetSignature.
Proof. solve_decision. Defined.

Definition scalar_target_le (a b : ScalarTargetConfig) : Prop := key_le (stc_id a) (stc_id b).
#[global] Instance scalar_target_le_dec : RelDecision scalar_target_le.
Proof. intros a b. unfold scalar_target_le. apply _. Defined.

(** ** Application rules *)

Definition api_rule_to_core (rule : ApiAppRule) : rt_result AppRule :=
  if negb (aa_owner_uid rule =? u32_max)
  then inl (EInvalidArgument [PText "application rules are administrator-owned and global"])
  else if bool_decide (aa_executable rule = None) && bool_decide (aa_comm_regex rule = None)
  then inl (EInvalidArgument [PText "an application rule requires executable and/or comm_regex"])
  else
    match parse_profile (aa_mode rule) with
    | inl e => inl e
    | inr p =>
        inr {| ar_id := aa_id rule; ar_enabled := aa_enabled rule; ar_priority := aa_priority rule;
               ar_matcher := {| wm_executable := aa_executable rule; wm_desktop_id := None;
                                wm_comm_regex := aa_comm_regex rule |};
               ar_profile := p |}
    end.

(** A rule with a desktop id fails its debug assertion. *)
Definition core_rule_to_api (rule : AppRule) : res ApiAppRule text :=
  if wm_desktop_id (ar_matcher rule) then Panic
  else
    Ok {| aa_id := ar_id rule; aa_enabled := ar_enabled rule; aa_owner_uid := u32_max;
          aa_executable := wm_executable (ar_matcher rule);
          aa_comm_regex := wm_comm_regex (ar_matcher rule);
          aa_mode := profile_name (ar_profile rule); aa_priority := ar_priority rule |}.

(** ** Diagnostics *)

Definition effective_power_budget (policy : PolicyConfig) (desired : DesiredPlan)
  : option PowerBudgetConfig :=
  p ← List.find (fun p => bool_decide (pc_id p = dp_effective_profile desired)) (pol_profiles policy);
  match patch ← pc_scenes p !! dp_dominant_scene desired; sp_power_budget patch with
  | None => pc_power_budget p
  | Some patch => resolve_power_budget (pc_power_budget p) patch
  end.

Definition governor_opp_reason (d : GovernorDiagnostics) (t : TargetGovernorDiagnostics) : string :=
  if td_prediction_bypassed_ramp t then "prediction-bypass"
  else if gd_bypassed_power_budget d then "burst-budget-bypass"
  else if td_selected_cap_hz t <? td_requested_floor_hz t then "budget-or-safety-cap"
  else if td_selected_floor_hz t <? td_requested_floor_hz t then "ramp-or-dwell-limited"
  else "demand-floor".

Definition governor_target_status (d : GovernorDiagnostics)
    (kv : string * TargetGovernorDiagnostics) : GovernorTargetStatus :=
  let '(id, t) := kv in
  {| gt_target_id := id;
     gt_raw_load_basis_points := utilization_to_basis_points (td_raw_load t);
     gt_ema_load_basis_points := utilization_to_basis_points (td_ema_load t);
     gt_predicted_load_basis_points := utilization_to_basis_points (td_predicted_load t);
     gt_selected_load_basis_points := utilization_to_basis_points (td_selected_load t);
     gt_effective_demand_basis_points := utilization_to_basis_points (td_effective_demand t);
     gt_prediction_bypassed_ramp := td_prediction_bypassed_ramp t;
     gt_estimated_power_mw := rounded_nonnegative (td_estimated_power_mw t);
     gt_requested_floor_hz := td_requested_floor_hz t;
     gt_selected_floor_hz := td_selected_floor_hz t;
     gt_selected_cap_hz := td_selected_cap_hz t;
     gt_opp_reason := governor_opp_reason d t |}.

Definition GovernorDiagnosticsStatus_default : GovernorDiagnosticsStatus :=
  {| gds_available := false; gds_elapsed_ms := 0; gds_estimated_package_power_mw := 0;
     gds_slow_limit_power_mw := 0; gds_fast_limit_power_mw := 0; gds_effective_budget_mw := 0;
     gds_bucket_remaining_mj := 0; gds_bypassed_power_budget := false;
     gds_shared_ramp_basis_points := 0; gds_targets := [] |}.

Definition governor_diagnostics_status (policy : PolicyConfig)
    (diagnostics : option GovernorDiagnostics) (desired : DesiredPlan) : GovernorDiagnosticsStatus :=
  match diagnostics with
  | None => GovernorDiagnosticsStatus_default
  | Some d =>
      let budget := effective_power_budget policy desired in
      {| gds_available := true;
         gds_elapsed_ms := gd_elapsed_ms d;
         gds_estimated_package_power_mw := rounded_nonnegative (gd_estimated_package_power_mw d);
         gds_slow_limit_power_mw := map_or budget 0 slow_limit_power_mw;
         gds_fast_limit_power_mw := map_or budget 0 fast_limit_power_mw;
         gds_effective_budget_mw := rounded_nonnegative (gd_selected_package_budget_mw d);
         gds_bucket_remaining_mj := rounded_signed (gd_bucket_remaining_mj d);
         gds_bypassed_power_budget := gd_bypassed_power_budget d;
         gds_shared_ramp_basis_points := utilization_to_basis_points (gd_shared_ramp_progress d);
         gds_targets := governor_target_status d <$> entries (gd_targets d) |}
  end.

Section configured.
Context `{RegexEngine}.

Definition target_signature (c : ResolvedConfiguration) : TargetSignature :=
  {| ts_frequencies :=
       (fun kv : string * ResolvedTarget =>
          let p := rt_paths kv.2 in
          (kv.1, components (ftp_minimum p), components (ftp_maximum p), ftp_hertz_per_unit p))
       <$> entries (rc_targets c);
     ts_scalars := merge_sort scalar_target_le (dev_scalar_targets (rc_device c)) |}.

(** [ObserverSettings::from_configuration] *)
Definition ObserverSettings_from_configuration (c : ResolvedConfiguration) (generation : Z)
  : ObserverSettings :=
  {| os_generation := generation;
     os_load_interval := idle_sample_ms (pol_governor (rc_policy c));
     os_thermal_interval := tp_sample_interval_ms (pol_thermal (rc_policy c));
     os_thermal_paths := omap tz_sysfs_path (rc_thermal_zones c);
     os_input := pol_input (rc_policy c) |}.
End configured.
