(* ===== verification/Discovery.v ===== *)
(** * Hardware discovery ([uperf-linux/src/discovery.rs], [uperf-linux/src/environment.rs])

    The frequency targets, thermal zones and input devices found below sysfs,
    the identifiers they get, and the registry of paths the actuator is built
    from. Attributes are read through [RootedSysfs]; directories, and the nodes
    of the device tree, through a class. The environment opens the adapters on
    these roots and reads the metadata of the system. *)

From stdpp Require Import pretty.
From S2P Require Import Prelude Float64 Domain Text Strings ActuatorTypes Scalars DaemonTypes Touch Evdev LinuxScheduler Procfs Sysfs DaemonConfig RuntimeTypes.

Definition MIN_PLAUSIBLE_TEMPERATURE : Z := -40000.
Definition MAX_PLAUSIBLE_TEMPERATURE : Z := 200000.

(** ** Sorting *)

(** [sort_by], which is stable. *)
Fixpoint insert_by {A} (leb : A -> A -> bool) (x : A) (l : list A) : list A :=
  match l with
  | [] => [x]
  | y :: l' => if leb x y then x :: l else y :: insert_by leb x l'
  end.
Definition sort_by {A} (leb : A -> A -> bool) (l : list A) : list A := foldr (insert_by leb) [] l.

(** The order of [PathBuf]: by components. *)
Definition component_rank (c : Component) : Z :=
  match c with RootDir => 0 | CurDir => 1 | ParentDir => 2 | Text.Normal _ => 3 end.
Definition component_cmp (a b : Component) : comparison :=
  match a, b with
  | Text.Normal a, Text.Normal b => String.compare a b
  | _, _ => Z.compare (component_rank a) (component_rank b)
  end.
Fixpoint path_cmp (a b : list Component) : comparison :=
  match a, b with
  | [], [] => Eq
  | [], _ => Lt
  | _, [] => Gt
  | x :: a, y :: b => match component_cmp x y with Eq => path_cmp a b | c => c end
  end.

(** ** Parsing *)

(** [u64::checked_mul] *)
Definition checked_mul (a b : Z) : option Z := if u64_max <? a * b then None else Some (a * b).

Fixpoint parse_frequency_tokens (path : string) (multiplier : Z) (tokens : list string)
  : sched_result (list Hertz) :=
  match tokens with
  | [] => inr []
  | token :: tokens =>
      ok raw := parse_or path ("invalid frequency `" +:+ token +:+ "`: ") u64_max token in
      match checked_mul raw multiplier with
      | None => inl (InvalidData path ("frequency `" +:+ token +:+ "` overflows hertz"))
      | Some hz => ok rest := parse_frequency_tokens path multiplier tokens in inr (hz :: rest)
      end
  end.

Definition parse_frequency_list (path value : string) (multiplier : Z) : sched_result (list Hertz) :=
  parse_frequency_tokens path multiplier (split_whitespace value).

Definition discovery_cpu_id (path value : string) : sched_result Z :=
  parse_or path ("invalid CPU ID `" +:+ value +:+ "`: ") u32_max value.

Definition discovery_cpu_token (path : string) (cpus : CpuSet) (token : string) : sched_result CpuSet :=
  match split_once hyphen token with
  | Some (first, last) =>
      ok first := discovery_cpu_id path first in
      ok last := discovery_cpu_id path last in
      if last <? first then inl (InvalidData path ("reversed CPU range `" +:+ token +:+ "`"))
      else inr (cpus ∪ list_to_set (seqZ first (last - first + 1)))
  | None => ok cpu := discovery_cpu_id path token in inr (cpus ∪ {[ cpu ]})
  end.

Fixpoint discovery_cpu_tokens (path : string) (cpus : CpuSet) (tokens : list string) : sched_result CpuSet :=
  match tokens with
  | [] => inr cpus
  | token :: tokens => ok cpus := discovery_cpu_token path cpus token in discovery_cpu_tokens path cpus tokens
  end.

(** Split at commas and white space, without the empty parts. *)
Definition parse_cpu_set (path value : string) : sched_result CpuSet :=
  discovery_cpu_tokens path ∅ (mjoin (split_whitespace <$> split_on LinuxScheduler.comma value)).

Definition normalize_opps (frequencies : list Hertz) (limits : FrequencyLimits) : list Hertz :=
  match frequencies with
  | [] => []
  | _ =>
      sort_dedup (List.filter (fun f => (lim_min limits <=? f) && (f <=? lim_max limits)) frequencies
                  ++ [lim_min limits; lim_max limits])
  end.

(** [u64::from_str_radix] with radix 16 *)
Definition hex_digit (c : Ascii.ascii) : option Z :=
  let b := byte_of c in
  if (48 <=? b) && (b <=? 57) then Some (b - 48)
  else if (97 <=? b) && (b <=? 102) then Some (b - 87)
  else if (65 <=? b) && (b <=? 70) then Some (b - 55)
  else None.
Fixpoint hex_value (acc : Z) (l : list Ascii.ascii) : option Z :=
  match l with
  | [] => Some acc
  | c :: l => d ← hex_digit c; let v := acc * 16 + d in if u64_max <? v then None else hex_value v l
  end.
Definition parse_hex (s : string) : option Z :=
  match bytes s with
  | [] => None
  | c :: l =>
      let digits := if bool_decide (c = plus_sign) then l else c :: l in
      match digits with [] => None | _ => hex_value 0 digits end
  end.

Definition linux_capability_bit (mask : string) (bit : Z) : bool :=
  let words := omap parse_hex (rev (split_whitespace mask)) in
  is_some_and (words !! Z.to_nat (bit / 64)) (fun word => negb (Z.land word (Z.shiftl 1 (bit mod 64)) =? 0)).

Definition has_type_b_multitouch_axes (mask : string) : bool :=
  forallb (linux_capability_bit mask) [0x2f; 0x35; 0x36; 0x39].

Definition nul_terminated_string (l : list Ascii.ascii) : option string :=
  let ending := unwrap_or (position nul l) (length l) in
  value ← from_utf8 (take ending l);
  let value := trim_str value in
  if bool_decide (value = "") then None else Some value.

(** ** Identifiers *)

(** FNV-1a *)
Definition stable_path_hash (path : string) : Z :=
  fold_left (fun hash c => (Z.lxor hash (byte_of c) * 0x100000001b3) mod 2 ^ 64) (bytes path)
    0xcbf29ce484222325.

Definition hex_char (d : Z) : Ascii.ascii :=
  Ascii.ascii_of_nat (Z.to_nat (if d <? 10 then 48 + d else 87 + d)).
(** [{:016x}] *)
Fixpoint hex_digits (n : nat) (z : Z) : list Ascii.ascii :=
  match n with
  | O => []
  | S n => hex_digits n (z / 16) ++ [hex_char (z mod 16)]
  end.
Definition hex16 (z : Z) : string := of_bytes (hex_digits 16 z).

Definition invalid_target_id (value : string) : string :=
  "invalid target id `" +:+ value +:+ "`; expected 1..=64 ASCII characters ([A-Za-z0-9] followed by [A-Za-z0-9._-]*)".

(** [TargetId::new] with its error mapped *)
Definition target_id_or (path what value : string) : sched_result string :=
  match TargetId_new value with
  | Ok id => inr id
  | _ => inl (InvalidData path (what +:+ invalid_target_id value))
  end.

Definition is_id_char (b : Z) : bool :=
  ((48 <=? b) && (b <=? 57)) || ((65 <=? b) && (b <=? 90)) || ((97 <=? b) && (b <=? 122))
  || (b =? 46) || (b =? 95) || (b =? 45).

(** Each character that an identifier cannot have becomes an underscore. *)
Definition sanitize (name : string) : list Ascii.ascii :=
  (fun c : Z * Z => Ascii.ascii_of_nat (if is_id_char c.1 then Z.to_nat c.1 else 95%nat)) <$> chars name.

(** [String::truncate] of ASCII text *)
Definition truncate (n : Z) (s : string) : string := of_bytes (take (Z.to_nat n) (bytes s)).

Definition id_suffix (hash discriminator : Z) : string :=
  if discriminator =? 0 then "." +:+ hex16 hash else "." +:+ hex16 hash +:+ "." +:+ to_string discriminator.

Definition disambiguated (base : string) (hash discriminator : Z) : string :=
  let suffix := id_suffix hash discriminator in
  truncate (Z.max 0 (MAX_LEN - str_len suffix)) base +:+ suffix.

(** The discriminators from [d] on, up to [fuel] of them; [None] when more are
    needed. *)
Fixpoint discriminate_id (fuel : nat) (entry_name base : string) (hash d : Z) (used : gset string)
  : option (sched_result (string * gset string)) :=
  if u32_max <? d then Some (inl (InvalidData entry_name "exhausted devfreq target-ID discriminators"))
  else
    match fuel with
    | O => None
    | S fuel =>
        match target_id_or entry_name "cannot create unique target ID: " (disambiguated base hash d) with
        | inl e => Some (inl e)
        | inr candidate =>
            if bool_decide (candidate ∈ used) then discriminate_id fuel entry_name base hash (d + 1) used
            else Some (inr (candidate, {[ candidate ]} ∪ used))
        end
    end.

(** The identifier, and the identifiers in use after it. *)
Definition unique_devfreq_id (entry_name canonical_identity : string) (index : Z) (used : gset string)
  : option (sched_result (string * gset string)) :=
  let sanitized := take (Z.to_nat (MAX_LEN - str_len "devfreq.")) (sanitize entry_name) in
  let base :=
    match sanitized with
    | [] => "devfreq.target" +:+ to_string index
    | _ => "devfreq." +:+ of_bytes sanitized
    end in
  match target_id_or entry_name "cannot create target ID: " base with
  | inl e => Some (inl e)
  | inr candidate =>
      if bool_decide (candidate ∈ used)
      then discriminate_id (S (S (size used))) entry_name base (stable_path_hash canonical_identity) 0 used
      else Some (inr (candidate, {[ candidate ]} ∪ used))
  end.

(** ** The file system *)

Inductive EntryType := EtDirectory | EtSymlink | EtOther.
Record SysEntry := { sye_name : list Ascii.ascii; sye_type : IoError + EntryType }.

Class DiscoveryKernel (W : Type) := {
  (** [Path::is_dir] *)
  is_dir : string -> W -> bool * W;
  (** [fs::read_dir], its entries with their types *)
  read_dir : string -> W -> (IoError + list (IoError + SysEntry)) * W;
  (** [fs::read] *)
  read_node : string -> W -> (IoError + list Ascii.ascii) * W;
}.

(** The message of the operating system for [ENOENT], the one error of the
    kind [NotFound]. *)
Definition ENOENT : string := "No such file or directory (os error 2)".

(** Numbered entries: [prefix] and an index. *)
Fixpoint collect_prefixed (prefix : string) (entries : list (IoError + SysEntry))
  : sched_result (list (Z * string)) :=
  match entries with
  | [] => inr []
  | inl e :: _ => inl (platform_io "read directory entry" prefix e)
  | inr entry :: entries =>
      ok rest := collect_prefixed prefix entries in
      match name ← from_utf8 (sye_name entry);
            suffix ← strip_prefix prefix name;
            index ← parse_u32 suffix;
            Some (index, name) with
      | Some numbered => inr (numbered :: rest)
      | None => inr rest
      end
  end.

Definition sort_by_index (l : list (Z * string)) : list (Z * string) :=
  sort_by (fun a b => a.1 <=? b.1) l.

Section discovery.
Context {W : Type} `{!SysfsKernel W} `{!ProcKernel W} `{!DiscoveryKernel W}.
Context (sys_root : string) (sysfs : RootedSysfs).

(** The adapter's cache and the world. *)
Notation Sys := (gmap PathKey string * W)%type.

Definition sread (path : string) (c : Sys) : sched_result string * Sys :=
  let '(r, cache, w) := sysfs_read_string sysfs c.1 path c.2 in (r, (cache, w)).

(** A call that does not use the adapter. *)
Definition lift {A} (f : W -> A * W) (c : Sys) : A * Sys := let '(r, w) := f c.2 in (r, (c.1, w)).

Definition read_optional (path : string) (c : Sys) : option string * Sys :=
  let '(r, c) := sread path c in
  (match r with inl _ => None | inr value => Some value end, c).

Definition read_required_with_fallback (preferred fallback : string) (c : Sys) : sched_result string * Sys :=
  let '(r, c) := sread preferred c in
  match r with
  | inr value => (inr value, c)
  | inl (Io operation path source) =>
      if bool_decide (source = ENOENT) then sread fallback c else (inl (Io operation path source), c)
  | inl error => (inl error, c)
  end.

Definition read_hz (path : string) (c : Sys) : sched_result Hertz * Sys :=
  and_then (sread path c) (fun value c => (parse_or path "invalid hertz value: " u64_max value, c)).

Definition read_khz (path : string) (c : Sys) : sched_result Hertz * Sys :=
  and_then (sread path c) (fun value c =>
  (ok khz := parse_or path "invalid kHz value: " u64_max value in
   match checked_mul khz 1000 with
   | Some hz => inr hz
   | None => inl (InvalidData path "kHz value overflows hertz")
   end, c)).

(** [FrequencyLimits::new] with its error mapped *)
Definition limits_or (path : string) (minimum maximum : Hertz) : sched_result FrequencyLimits :=
  match FrequencyLimits_new minimum maximum with
  | Ok limits => inr limits
  | _ =>
      inl (InvalidData path ("frequency minimum " +:+ to_string minimum +:+ " Hz exceeds maximum "
                             +:+ to_string maximum +:+ " Hz"))
  end.

(** ** Thermal zones *)

Definition read_thermal_sample_at (base : string) (now : MonotonicMillis) (c : Sys) : ThermalSample * Sys :=
  let zone_id := unwrap_or (name ← file_name (components base); from_utf8 (bytes name)) "unknown" in
  let '(zone_type, c) := read_optional (join_path base "type") c in
  let '(temp, c) := read_optional (join_path base "temp") c in
  let temperature :=
    value ← temp; t ← parse_i64 value;
    if (MIN_PLAUSIBLE_TEMPERATURE <=? t) && (t <=? MAX_PLAUSIBLE_TEMPERATURE) then Some t else None in
  ({| ts_zone_id := zone_id; ts_zone_type := unwrap_or zone_type "unknown"; ts_path := base;
      ts_reading := {| temperature := temperature; sampled_at := now;
                       health := if is_some temperature then Healthy else Unavailable |} |}, c).

Fixpoint read_samples (paths : list string) (now : MonotonicMillis) (c : Sys) : list ThermalSample * Sys :=
  match paths with
  | [] => ([], c)
  | path :: paths =>
      let '(sample, c) := read_thermal_sample_at path now c in
      let '(samples, c) := read_samples paths now c in
      (sample :: samples, c)
  end.

Definition read_thermal_samples_at (paths : list string) (c : Sys) : list ThermalSample * Sys :=
  let '(now, c) := lift monotonic_millis c in read_samples paths now c.

(** A directory's numbered entries in order; none when there is no directory. *)
Definition numbered_entries (operation directory prefix : string) (c : Sys)
  : sched_result (list string) * Sys :=
  let '(entries, c) := lift (read_dir directory) c in
  (match entries with
   | inl e => if decide (io_kind e = NotFound) then inr [] else inl (platform_io operation directory e)
   | inr entries =>
       ok numbered := collect_prefixed prefix entries in
       inr (snd <$> sort_by_index numbered)
   end, c).

Definition read_thermal_samples (c : Sys) : sched_result (list ThermalSample) * Sys :=
  let directory := join_path sys_root "class/thermal" in
  let '(entries, c) := lift (read_dir directory) c in
  match entries with
  | inl e =>
      (if decide (io_kind e = NotFound) then inr [] else inl (platform_io "list thermal zones" directory e), c)
  | inr entries =>
      and_then (collect_prefixed "thermal_zone" entries, c) (fun zones c =>
      let '(now, c) := lift monotonic_millis c in
      let '(samples, c) :=
        read_samples ((fun zone => join_path "/sys/class/thermal" zone.2) <$> sort_by_index zones) now c in
      (inr samples, c))
  end.

Definition zone_warnings (samples : list ThermalSample) : list text :=
  omap (fun sample =>
    if bool_decide (health (ts_reading sample) = Healthy) then None
    else Some [PText ("thermal zone " +:+ ts_zone_id sample +:+ " has no valid temperature")]) samples.

Definition zone_capability (sample : ThermalSample) : ThermalZoneCapability :=
  {| tzc_id := ts_zone_id sample; tzc_zone_type := ts_zone_type sample;
     tzc_current := Some (ts_reading sample) |}.

(** The capabilities, the paths and the warnings. *)
Definition discover_thermal (c : Sys)
  : sched_result (list ThermalZoneCapability * gmap string string * list text) * Sys :=
  and_then (read_thermal_samples c) (fun samples c =>
  (inr (zone_capability <$> samples,
        fold_left (fun paths sample => <[ts_zone_id sample := ts_path sample]> paths) samples ∅,
        zone_warnings samples), c)).

(** ** CPU policies *)

Definition cpu_available_frequencies (base : string) (limits : FrequencyLimits) (c : Sys)
  : sched_result (list Hertz) * Sys :=
  let available := join_path base "scaling_available_frequencies" in
  let in_state := join_path base "stats/time_in_state" in
  let '(value, c) := read_optional available c in
  and_then
    (match value with
     | Some value => (parse_frequency_list available value 1000, c)
     | None =>
         let '(value, c) := read_optional in_state c in
         (match value with
          | Some value =>
              parse_frequency_list in_state
                (join " " (omap (fun l => head (split_whitespace l)) (lines value))) 1000
          | None => inr []
          end, c)
     end) (fun frequencies c => (inr (normalize_opps frequencies limits), c)).

Definition probe_cpu_policy (relative policy_name : string) (c : Sys)
  : sched_result (CpuPolicyCapability * FrequencyTargetPaths) * Sys :=
  let base := join_path (join_path "/sys" relative) policy_name in
  let related := join_path base "related_cpus" in
  and_then (read_required_with_fallback related (join_path base "affected_cpus") c) (fun cpus_text c =>
  and_then (parse_cpu_set related cpus_text, c) (fun cpus c =>
  if CpuSet_is_empty cpus then (inl (InvalidData related "CPU policy has an empty CPU set"), c)
  else
    and_then (read_khz (join_path base "cpuinfo_min_freq") c) (fun minimum c =>
    and_then (read_khz (join_path base "cpuinfo_max_freq") c) (fun maximum c =>
    and_then (limits_or (join_path base "cpuinfo_max_freq") minimum maximum, c) (fun limits c =>
    and_then (cpu_available_frequencies base limits c) (fun available c =>
    let '(governor, c) := read_optional (join_path base "scaling_governor") c in
    (ok id := target_id_or base "invalid target ID: " ("cpu." +:+ policy_name) in
     inr ({| cpc_id := id; cpc_policy_name := policy_name; cpc_cpus := cpus; cpc_limits := limits;
             cpc_available_frequencies := available; cpc_governor := governor |},
          {| ftp_id := id; ftp_minimum := join_path base "scaling_min_freq";
             ftp_maximum := join_path base "scaling_max_freq";
             ftp_current := join_path base "scaling_cur_freq"; ftp_hertz_per_unit := 1000 |}), c))))))).

(** What discovery has collected: capabilities, paths by identifier, warnings. *)
Fixpoint probe_policies (relative : string) (names : list string)
    (acc : list CpuPolicyCapability * gmap string FrequencyTargetPaths * list text) (c : Sys)
  : list CpuPolicyCapability * gmap string FrequencyTargetPaths * list text * Sys :=
  match names with
  | [] => (acc, c)
  | policy_name :: names =>
      let '(policies, targets, warnings) := acc in
      let '(parsed, c) := probe_cpu_policy relative policy_name c in
      let acc :=
        match parsed with
        | inr (capability, paths) =>
            (policies ++ [capability], <[cpc_id capability := paths]> targets, warnings)
        | inl error =>
            (policies, targets,
             warnings ++ [[PText ("skipping cpufreq " +:+ policy_name +:+ ": " +:+ show_error error)]])
        end in
      probe_policies relative names acc c
  end.

Definition discover_cpu_policies (targets : gmap string FrequencyTargetPaths) (warnings : list text) (c : Sys)
  : sched_result (list CpuPolicyCapability * gmap string FrequencyTargetPaths * list text) * Sys :=
  let '(devices, c) := lift (is_dir (join_path sys_root "devices/system/cpu/cpufreq")) c in
  let relative := if devices then "devices/system/cpu/cpufreq" else "class/cpufreq" in
  and_then (numbered_entries "list cpufreq policies" (join_path sys_root relative) "policy" c) (fun names c =>
  let '(acc, c) := probe_policies relative names ([], targets, warnings) c in (inr acc, c)).

(** ** Devfreq candidates *)

Record DevfreqCandidate := {
  dvc_entry_name : string;
  dvc_logical_base : string;
  dvc_canonical_identity : string;
}.

Definition MAX_DEVICE_SCAN_DEPTH : nat := 16.
Definition MAX_DEVICE_SCAN_ENTRIES : Z := 100000.

(** What a scan has found; paths are compared by components. *)
Record Scan := {
  sc_visited : Z;
  sc_identities : gset PathKey;
  sc_candidates : list DevfreqCandidate;
  sc_warnings : list text;
}.
Definition scan_warn (t : string) (s : Scan) : Scan :=
  {| sc_visited := sc_visited s; sc_identities := sc_identities s; sc_candidates := sc_candidates s;
     sc_warnings := sc_warnings s ++ [[PText t]] |}.
Definition scan_visit (s : Scan) : Scan :=
  {| sc_visited := sc_visited s + 1; sc_identities := sc_identities s; sc_candidates := sc_candidates s;
     sc_warnings := sc_warnings s |}.

(** A new identity is inserted, and its candidate kept. *)
Definition scan_identity (d : DevfreqCandidate) (s : Scan) : Scan :=
  let identity := components (dvc_canonical_identity d) in
  if bool_decide (identity ∈ sc_identities s) then s
  else {| sc_visited := sc_visited s; sc_identities := {[ identity ]} ∪ sc_identities s;
          sc_candidates := sc_candidates s ++ [d]; sc_warnings := sc_warnings s |}.

(** An entry of [class/devfreq]. *)
Definition class_entry (canonical_sys directory : string) (entry : IoError + SysEntry) (s : Scan) (w : W)
  : Scan * W :=
  match entry with
  | inl error => (scan_warn ("cannot read devfreq class entry: " +:+ io_message error) s, w)
  | inr entry =>
      match from_utf8 (sye_name entry) with
      | None => (scan_warn "ignoring devfreq target with a non-UTF-8 name" s, w)
      | Some entry_name =>
          let '(identity, w) := canonicalize (join_path directory entry_name) w in
          (match identity with
           | inr path =>
               if path_starts_with path canonical_sys
               then scan_identity {| dvc_entry_name := entry_name;
                                     dvc_logical_base := join_path "/sys/class/devfreq" entry_name;
                                     dvc_canonical_identity := path |} s
               else scan_warn ("ignoring devfreq " +:+ entry_name +:+ ": target escapes /sys") s
           | inl error =>
               scan_warn ("ignoring devfreq " +:+ entry_name +:+ ": cannot canonicalize: " +:+ io_message error) s
           end, w)
      end
  end.

Fixpoint class_entries (canonical_sys directory : string) (entries : list (IoError + SysEntry)) (s : Scan) (w : W)
  : Scan * W :=
  match entries with
  | [] => (s, w)
  | entry :: entries =>
      let '(s, w) := class_entry canonical_sys directory entry s w in
      class_entries canonical_sys directory entries s w
  end.

Definition type_is (types : list EntryType) (entry : SysEntry) : bool :=
  match sye_type entry with
  | inr t => existsb (fun u => match t, u with
                               | EtDirectory, EtDirectory | EtSymlink, EtSymlink | EtOther, EtOther => true
                               | _, _ => false
                               end) types
  | inl _ => false
  end.

(** An entry of a directory called [devfreq]. *)
Definition container_entry (container canonical_sys : string) (entry : IoError + SysEntry) (s : Scan) (w : W)
  : Scan * W :=
  match entry with
  | inl _ => (s, w)
  | inr entry =>
      if negb (type_is [EtDirectory; EtSymlink] entry) then (s, w)
      else
        match from_utf8 (sye_name entry) with
        | None => (s, w)
        | Some entry_name =>
            let '(identity, w) := canonicalize (join_path container entry_name) w in
            (match identity with
             | inr path =>
                 if path_starts_with path canonical_sys
                 then
                   let relative := drop (length (components canonical_sys)) (components path) in
                   scan_identity {| dvc_entry_name := entry_name;
                                    dvc_logical_base := join_path "/sys" (join "/" (omap (fun c =>
                                      match c with Text.Normal v => Some v | _ => None end) relative));
                                    dvc_canonical_identity := path |} s
                 else s
             | inl _ => s
             end, w)
        end
  end.

Fixpoint container_entries (container canonical_sys : string) (entries : list (IoError + SysEntry)) (s : Scan)
    (w : W) : Scan * W :=
  match entries with
  | [] => (s, w)
  | entry :: entries =>
      let '(s, w) := container_entry container canonical_sys entry s w in
      container_entries container canonical_sys entries s w
  end.

Definition collect_devfreq_container (container canonical_sys : string) (s : Scan) (w : W) : Scan * W :=
  let '(entries, w) := read_dir container w in
  match entries with
  | inl _ => (s, w)
  | inr entries => container_entries container canonical_sys entries s w
  end.

(** The entries of a directory, [descend] into a subdirectory; it stops when
    the budget is used up. *)
Fixpoint device_entries (descend : string -> Scan -> W -> Scan * W) (directory canonical_sys : string)
    (entries : list (IoError + SysEntry)) (s : Scan) (w : W) : Scan * W :=
  match entries with
  | [] => (s, w)
  | entry :: entries =>
      if MAX_DEVICE_SCAN_ENTRIES <=? sc_visited s
      then (scan_warn ("stopped devfreq fallback scan after " +:+ to_string MAX_DEVICE_SCAN_ENTRIES
                       +:+ " entries") s, w)
      else
        let s := scan_visit s in
        let '(s, w) :=
          match entry with
          | inl _ => (s, w)
          | inr entry =>
              if negb (type_is [EtDirectory] entry) then (s, w)
              else
                let path := join_path directory (of_bytes (sye_name entry)) in
                if bool_decide (of_bytes (sye_name entry) = "devfreq")
                then collect_devfreq_container path canonical_sys s w
                else descend path s w
          end in
        device_entries descend directory canonical_sys entries s w
  end.

(** [depth] counts down: with [O] the directory is too deep. *)
Fixpoint collect_device_devfreq (depth : nat) (canonical_sys directory : string) (s : Scan) (w : W) : Scan * W :=
  match depth with
  | O => (s, w)
  | S depth =>
      if MAX_DEVICE_SCAN_ENTRIES <=? sc_visited s then (s, w)
      else
        let '(entries, w) := read_dir directory w in
        match entries with
        | inl error =>
            (match io_kind error with
             | NotFound | PermissionDenied => s
             | _ => scan_warn ("cannot scan " +:+ directory +:+ ": " +:+ io_message error) s
             end, w)
        | inr entries =>
            device_entries (collect_device_devfreq depth canonical_sys) directory canonical_sys entries s w
        end
  end.

Definition candidate_leb (a b : DevfreqCandidate) : bool :=
  match String.compare (dvc_entry_name a) (dvc_entry_name b) with
  | Lt => true
  | Gt => false
  | Eq => match path_cmp (components (dvc_canonical_identity a)) (components (dvc_canonical_identity b)) with
          | Gt => false
          | _ => true
          end
  end.

Definition devfreq_candidates (warnings : list text) (w : W)
  : sched_result (list DevfreqCandidate * list text) * W :=
  and_then (with_io "canonicalize sysfs root" sys_root (canonicalize sys_root w)) (fun canonical_sys w =>
  let class_directory := join_path sys_root "class/devfreq" in
  let s := {| sc_visited := 0; sc_identities := ∅; sc_candidates := []; sc_warnings := warnings |} in
  let '(entries, w) := read_dir class_directory w in
  let '(s, w) :=
    match entries with
    | inr entries => class_entries canonical_sys class_directory entries s w
    | inl error =>
        (if decide (io_kind error = NotFound) then s
         else scan_warn ("cannot list " +:+ class_directory +:+ ": " +:+ io_message error) s, w)
    end in
  let '(s, w) := collect_device_devfreq (S MAX_DEVICE_SCAN_DEPTH) canonical_sys (join_path sys_root "devices") s w in
  (inr (sort_by candidate_leb (sc_candidates s), sc_warnings s), w)).

(** ** Devfreq targets *)

(** A string list that NUL characters separate. *)
Definition devfreq_device_name (base entry_name : string) (c : Sys) : string * Sys :=
  let '(name, c) := read_optional (join_path base "name") c in
  match name with
  | Some (String _ _ as name) => (name, c)
  | _ =>
      let '(compatible, c) := read_optional (join_path base "device/of_node/compatible") c in
      (match compatible ≫= (fun v => head (List.filter (fun e => negb (bool_decide (e = ""))) (split_on nul v))) with
       | Some first => first
       | None => entry_name
       end, c)
  end.

Definition devfreq_compatible (base : string) (c : Sys) : list string * Sys :=
  let '(value, c) := read_optional (join_path base "device/of_node/compatible") c in
  (match value with
   | Some value => List.filter (fun e => negb (bool_decide (e = ""))) (trim_str <$> split_on nul value)
   | None => []
   end, c).

Definition devfreq_available_frequencies (base : string) (c : Sys) : sched_result (list Hertz) * Sys :=
  let '(value, c) := read_optional (join_path base "available_frequencies") c in
  let '(value, c) :=
    match value with
    | Some value => (Some value, c)
    | None => read_optional (join_path base "available_freqs") c
    end in
  (match value with
   | Some value => ok l := parse_frequency_list (join_path base "available_frequencies") value 1 in inr (sort_dedup l)
   | None => inr []
   end, c).

(** The window of the OPP table, which the current window lies in. *)
Definition devfreq_limits (base : string) (current : FrequencyLimits) (available : list Hertz)
  : sched_result FrequencyLimits :=
  let path := join_path base "available_frequencies" in
  match head available, last available with
  | Some minimum, Some maximum =>
      if (lim_min current <? minimum) || (maximum <? lim_max current)
      then inl (InvalidData path "current devfreq window lies outside the advertised OPP table")
      else limits_or path minimum maximum
  | _, _ => inr current
  end.

(** The parsed target and the identifiers in use after it; [None] when the
    identifier's discriminators ran out of fuel. *)
Definition probe_devfreq (candidate : DevfreqCandidate) (index : Z) (used : gset string) (c : Sys)
  : option (sched_result (DevfreqCapability * FrequencyTargetPaths)) * gset string * Sys :=
  let base := dvc_logical_base candidate in
  let '(parsed, c) :=
    and_then (read_hz (join_path base "min_freq") c) (fun current_minimum c =>
    and_then (read_hz (join_path base "max_freq") c) (fun current_maximum c =>
    and_then (limits_or (join_path base "max_freq") current_minimum current_maximum, c) (fun current c =>
    and_then (devfreq_available_frequencies base c) (fun available c =>
    and_then (devfreq_limits base current available, c) (fun limits c =>
    let available := normalize_opps available limits in
    let '(governor, c) := read_optional (join_path base "governor") c in
    let '(device_name, c) := devfreq_device_name base (dvc_entry_name candidate) c in
    let '(compatible, c) := devfreq_compatible base c in
    (inr (limits, available, governor, device_name, compatible), c)))))) in
  match parsed with
  | inl e => (Some (inl e), used, c)
  | inr (limits, available, governor, device_name, compatible) =>
      match unique_devfreq_id (dvc_entry_name candidate) (dvc_canonical_identity candidate) index used with
      | None => (None, used, c)
      | Some (inl e) => (Some (inl e), used, c)
      | Some (inr (id, used)) =>
          (Some (inr ({| dfc_id := id; dfc_device_name := device_name; dfc_compatible := compatible;
                         dfc_limits := limits; dfc_available_frequencies := available; dfc_governor := governor |},
                      {| ftp_id := id; ftp_minimum := join_path base "min_freq";
                         ftp_maximum := join_path base "max_freq"; ftp_current := join_path base "cur_freq";
                         ftp_hertz_per_unit := 1 |})), used, c)
      end
  end.

Fixpoint probe_candidates (candidates : list DevfreqCandidate) (index : Z) (used : gset string)
    (acc : list DevfreqCapability * gmap string FrequencyTargetPaths * list text) (c : Sys)
  : option (sched_result (list DevfreqCapability * gmap string FrequencyTargetPaths * list text)) * Sys :=
  match candidates with
  | [] => (Some (inr acc), c)
  | candidate :: candidates =>
      let '(capabilities, targets, warnings) := acc in
      let '(parsed, used, c) := probe_devfreq candidate index used c in
      match parsed with
      | None => (None, c)
      | Some (inl error) =>
          probe_candidates candidates (index + 1) used
            (capabilities, targets,
             warnings ++ [[PText ("skipping devfreq " +:+ dvc_entry_name candidate +:+ ": " +:+ show_error error)]]) c
      | Some (inr (capability, paths)) =>
          if is_some (targets !! dfc_id capability)
          then (Some (inl (InvalidData (dfc_id capability)
                  "duplicate devfreq target ID would overwrite a mutation path")), c)
          else
            probe_candidates candidates (index + 1) used
              (capabilities ++ [capability], <[dfc_id capability := paths]> targets, warnings) c
      end
  end.

Definition discover_devfreq (targets : gmap string FrequencyTargetPaths) (warnings : list text) (c : Sys)
  : option (sched_result (list DevfreqCapability * gmap string FrequencyTargetPaths * list text)) * Sys :=
  let '(r, c) := lift (devfreq_candidates warnings) c in
  match r with
  | inl e => (Some (inl e), c)
  | inr (candidates, warnings) => probe_candidates candidates 0 ∅ ([], targets, warnings) c
  end.

(** ** Input devices and the device tree *)

Fixpoint probe_inputs (names : list string) (c : Sys) : list InputDeviceCapability * list text * Sys :=
  match names with
  | [] => ([], [], c)
  | event_name :: names =>
      let base := join_path (join_path "/sys/class/input" event_name) "device" in
      let '(name, c) := read_optional (join_path base "name") c in
      match name with
      | None =>
          let '(devices, warnings, c) := probe_inputs names c in
          (devices, [PText ("input " +:+ event_name +:+ " has no readable name")] :: warnings, c)
      | Some name =>
          let '(mask, c) := read_optional (join_path base "capabilities/abs") c in
          let '(devices, warnings, c) := probe_inputs names c in
          ({| idc_id := event_name; idc_name := name;
              idc_multi_touch := is_some_and mask has_type_b_multitouch_axes |} :: devices, warnings, c)
      end
  end.

Definition discover_input (c : Sys) : sched_result (list InputDeviceCapability * list text) * Sys :=
  and_then (numbered_entries "list input devices" (join_path sys_root "class/input") "event" c) (fun names c =>
  let '(devices, warnings, c) := probe_inputs names c in (inr (devices, warnings), c)).

(** The parts between NUL bytes. *)
Fixpoint split_bytes (sep : Ascii.ascii) (l : list Ascii.ascii) : list (list Ascii.ascii) :=
  match l with
  | [] => [[]]
  | b :: l =>
      if bool_decide (b = sep) then [] :: split_bytes sep l
      else match split_bytes sep l with [] => [[b]] | part :: parts => (b :: part) :: parts end
  end.

Definition device_identity (w : W) : option string * list string * W :=
  let device_tree := join_path sys_root "firmware/devicetree/base" in
  let '(model, w) := read_node (join_path device_tree "model") w in
  let '(compatible, w) := read_node (join_path device_tree "compatible") w in
  (match model with inl _ => None | inr l => nul_terminated_string l end,
   List.filter (fun e => negb (bool_decide (e = "")))
     (omap from_utf8 (split_bytes nul (match compatible with inl _ => [] | inr l => l end))), w).

(** ** Discovery *)

Definition discover_device_identity (w : W) : LinuxDiscovery * W :=
  let '(device_name, compatible, w) := device_identity w in
  ({| ld_capabilities := {| dc_device_name := device_name; dc_compatible := compatible; dc_cpu_policies := [];
                            dc_devfreq_targets := []; dc_thermal_zones := []; dc_input_devices := [] |};
      ld_frequency_targets := ∅; ld_thermal_zone_paths := ∅; ld_warnings := [] |}, w).

(** The frequency targets of both kinds. *)
Definition discover_frequency_targets (c : Sys)
  : option (sched_result (list CpuPolicyCapability * list DevfreqCapability
                          * gmap string FrequencyTargetPaths * list text)) * Sys :=
  let '(r, c) := discover_cpu_policies ∅ [] c in
  match r with
  | inl e => (Some (inl e), c)
  | inr (cpu_policies, targets, warnings) =>
      let '(r, c) := discover_devfreq targets warnings c in
      ((fun r => ok (devfreq, targets, warnings) := r in inr (cpu_policies, devfreq, targets, warnings)) <$> r, c)
  end.

Definition discover_recovery_targets (c : Sys) : option (sched_result LinuxDiscovery) * Sys :=
  let '(d, c) := lift discover_device_identity c in
  let '(r, c) := discover_frequency_targets c in
  ((fun r =>
      ok (cpu_policies, devfreq, targets, warnings) := r in
      inr {| ld_capabilities :=
               {| dc_device_name := dc_device_name (ld_capabilities d);
                  dc_compatible := dc_compatible (ld_capabilities d); dc_cpu_policies := cpu_policies;
                  dc_devfreq_targets := devfreq; dc_thermal_zones := []; dc_input_devices := [] |};
             ld_frequency_targets := targets; ld_thermal_zone_paths := ∅; ld_warnings := warnings |}) <$> r, c).

Definition discover (c : Sys) : option (sched_result LinuxDiscovery) * Sys :=
  let '(r, c) := discover_frequency_targets c in
  match r with
  | None => (None, c)
  | Some (inl e) => (Some (inl e), c)
  | Some (inr (cpu_policies, devfreq, targets, warnings)) =>
      let '(r, c) :=
        and_then (discover_thermal c) (fun '(zones, zone_paths, zone_warnings) c =>
        and_then (discover_input c) (fun '(inputs, input_warnings) c =>
        let '(device_name, compatible, c) :=
          (let '(d, w) := device_identity c.2 in (d, (c.1, w))) in
        (inr {| ld_capabilities :=
                  {| dc_device_name := device_name; dc_compatible := compatible; dc_cpu_policies := cpu_policies;
                     dc_devfreq_targets := devfreq; dc_thermal_zones := zones; dc_input_devices := inputs |};
                ld_frequency_targets := targets; ld_thermal_zone_paths := zone_paths;
                ld_warnings := warnings ++ zone_warnings ++ input_warnings |}, c))) in
      (Some r, c)
  end.
End discovery.

(** ** The environment ([uperf-linux/src/environment.rs]) *)

Record SystemRoots := { roots_sys : string; roots_proc : string; roots_etc : string }.
Definition host_roots : SystemRoots := {| roots_sys := "/sys"; roots_proc := "/proc"; roots_etc := "/etc" |}.
Definition roots_below (root : string) : SystemRoots :=
  {| roots_sys := join_path root "sys"; roots_proc := join_path root "proc"; roots_etc := join_path root "etc" |}.

Record SystemInfo := {
  si_architecture : string;
  si_kernel_release : option string;
  si_os_id : option string;
  si_os_pretty_name : option string;
  si_boot_id : option string;
}.

(** [unquote_os_release]: a pair of double or single quotes is dropped. *)
Definition quoted_by (quote : Z) (l : list Ascii.ascii) : bool :=
  match l, rev l with a :: _, b :: _ => (byte_of a =? quote) && (byte_of b =? quote) | _, _ => false end.

Definition unquote_os_release (value : string) : string :=
  let l := bytes value in
  if (2 <=? length l)%nat && (quoted_by 34 l || quoted_by 39 l) then of_bytes (take (length l - 2) (drop 1 l)) else value.

Definition equals_sign : Ascii.ascii := Ascii.ascii_of_nat 61.

(** One line: a later assignment of the same key wins. *)
Definition os_release_line (acc : option string * option string) (line : string) : option string * option string :=
  match split_once equals_sign line with
  | None => acc
  | Some (key, raw_value) =>
      let value := unquote_os_release (trim_str raw_value) in
      if bool_decide (key = "ID") then (Some value, acc.2)
      else if bool_decide (key = "PRETTY_NAME") then (acc.1, Some value)
      else acc
  end.

Definition parse_os_release (contents : string) : option string * option string :=
  fold_left os_release_line (lines contents) (None, None).

Section environment.
Context {W : Type} `{!SysfsKernel W} `{!ProcKernel W}.
(** [std::env::consts::ARCH] and [rustix::thread::CpuSet::MAX_CPU] *)
Context (roots : SystemRoots) (architecture : string) (MAX_CPU : Z).

Definition read_optional_trimmed (path : string) (w : W) : sched_result (option string) * W :=
  let '(r, w) := read_text path w in
  (match r with
   | inr value => let value := trim_str value in inr (if bool_decide (value = "") then None else Some value)
   | inl e =>
       if bool_decide (io_kind e = NotFound) || bool_decide (io_kind e = PermissionDenied) then inr None
       else inl (Io "read system metadata" path (io_message e))
   end, w).

Definition read_system_info (w : W) : sched_result SystemInfo * W :=
  and_then (read_optional_trimmed (join_path (roots_proc roots) "sys/kernel/osrelease") w) (fun kernel_release w =>
  and_then (read_optional_trimmed (join_path (roots_proc roots) "sys/kernel/random/boot_id") w) (fun boot_id w =>
  and_then (read_optional_trimmed (join_path (roots_etc roots) "os-release") w) (fun os_release w =>
  let parsed := match os_release with Some contents => parse_os_release contents | None => (None, None) end in
  (inr {| si_architecture := architecture; si_kernel_release := kernel_release; si_os_id := parsed.1;
          si_os_pretty_name := parsed.2; si_boot_id := boot_id |}, w)))).

(** [LinuxEnvironment::online_cpus] *)
Definition environment_online_cpus (sysfs : RootedSysfs) (cache : gmap PathKey string) (w : W)
  : sched_result CpuSet * gmap PathKey string * W :=
  let path := "/sys/devices/system/cpu/online" in
  let '(r, cache, w) := sysfs_read_string sysfs cache path w in
  (match r with inl e => inl e | inr contents => parse_cpu_list MAX_CPU path contents end, cache, w).

(** The writers: the two attributes of every target, or the paths of a journal. *)
Definition open_actuator_sysfs (targets : list FrequencyTargetPaths) (w : W) : sched_result RootedSysfs * W :=
  with_write_allowlist (roots_sys roots) (targets ≫= (fun t => [ftp_minimum t; ftp_maximum t])) w.

Definition open_recovery_sysfs (allowed_paths : list string) (w : W) : sched_result RootedSysfs * W :=
  with_write_allowlist (roots_sys roots) allowed_paths w.
End environment.

Example os_release_example :
  parse_os_release ("ID=ubuntu" +:+ of_bytes [newline] +:+ "PRETTY_NAME= 'Ubuntu 26.04' " +:+ of_bytes [newline] +:+ "X")
  = (Some "ubuntu", Some "Ubuntu 26.04").
Proof. vm_compute. reflexivity. Qed.

(** * What discovery registers

    Identifiers are always found and never taken twice, and every registered
    target has a window, operating points and paths the actuator can use. *)

(** ** Identifiers *)

Definition full_stop : Ascii.ascii := Ascii.ascii_of_nat 46.

Lemma target_id_or_inr path what value id : target_id_or path what value = inr id -> id = value.
Proof. unfold target_id_or, TargetId_new. destruct (_ && _ && _); [by intros [= <-]|done]. Qed.

Lemma stop_not_in_number d : 0 <= d -> full_stop ∉ bytes (to_string d).
Proof. intros Hd. apply digits_not_elem; [by apply to_string_digits|done]. Qed.

(** Positive discriminators give different identifiers. *)
Lemma disambiguated_inj base hash d e :
  0 < d -> 0 < e -> disambiguated base hash d = disambiguated base hash e -> d = e.
Proof.
  intros Hd He E. unfold disambiguated, id_suffix in E.
  rewrite (proj2 (Z.eqb_neq d 0)), (proj2 (Z.eqb_neq e 0)) in E by lia.
  apply (f_equal bytes) in E. rewrite !bytes_app in E.
  change (bytes ".") with [full_stop] in E. rewrite !app_assoc in E.
  rewrite <- !(app_assoc _ [full_stop]) in E. cbn [app] in E.
  match type of E with ?a ++ full_stop :: ?b = ?c ++ full_stop :: ?d => set (A := a) in E; set (C := c) in E end.
  assert (Hl : length A = length C).
  { apply (f_equal (rposition full_stop)) in E. rewrite !rposition_app in E by (apply stop_not_in_number; lia).
    by apply (inj Some) in E. }
  apply app_inj_1 in E as [_ E]; [|done]. apply (f_equal tail) in E. cbn [tail] in E.
  apply (f_equal of_bytes) in E. rewrite !of_bytes_bytes in E. by apply (inj pretty) in E.
Qed.

(** Running out of fuel would mean that all of the discriminators are taken. *)
Lemma discriminate_id_taken fuel name base hash d used :
  discriminate_id fuel name base hash d used = None ->
  forall i, (i < fuel)%nat -> disambiguated base hash (d + Z.of_nat i) ∈ used.
Proof.
  revert d. induction fuel as [|fuel IH]; intros d; [lia|]. cbn [discriminate_id].
  destruct (_ <? d); [done|]. destruct (target_id_or _ _ _) as [e|candidate] eqn:E; [done|].
  apply target_id_or_inr in E as ->. case_bool_decide as Hin; [|done]. intros Hn i Hi.
  destruct i as [|i]; [by rewrite Z.add_0_r|].
  replace (d + Z.of_nat (S i)) with (d + 1 + Z.of_nat i) by lia. apply IH; [done|lia].
Qed.

Lemma unique_devfreq_id_total name identity index used :
  is_Some (unique_devfreq_id name identity index used).
Proof.
  unfold unique_devfreq_id. destruct (target_id_or _ _ _) as [e|candidate]; [eauto|].
  case_bool_decide; [|eauto]. set (base := match take _ _ with [] => _ | _ => _ end).
  set (hash := stable_path_hash identity).
  destruct (discriminate_id _ _ _ _ _ _) eqn:E; [eauto|]. exfalso.
  pose proof (discriminate_id_taken _ _ _ _ _ _ E) as Ht.
  set (taken := (fun i => disambiguated base hash (Z.of_nat (S i))) <$> seq 0 (S (size used))).
  assert (Hnd : NoDup taken).
  { apply NoDup_fmap_2_strong; [|apply NoDup_seq]. intros i j _ _ Hij%disambiguated_inj; lia. }
  assert (Hsub : forall x, x ∈ taken -> x ∈ elements used).
  { intros x (i & -> & Hi%elem_of_seq)%list_elem_of_fmap. apply elem_of_elements.
    apply (Ht (S i)). lia. }
  pose proof (NoDup_submseteq _ _ Hnd Hsub) as Hs%submseteq_length.
  subst taken. rewrite length_fmap, length_seq in Hs. unfold size, set_size in Hs. simpl in Hs. lia.
Qed.

Lemma unique_devfreq_id_fresh name identity index used id used' :
  unique_devfreq_id name identity index used = Some (inr (id, used')) -> id ∉ used /\ used' = {[ id ]} ∪ used.
Proof.
  assert (Hd : forall fuel base hash d, discriminate_id fuel name base hash d used = Some (inr (id, used')) ->
    id ∉ used /\ used' = {[ id ]} ∪ used).
  { intros fuel base hash. induction fuel as [|fuel IH]; intros d; cbn [discriminate_id];
      destruct (_ <? d); try done. destruct (target_id_or _ _ _); [done|].
    case_bool_decide; [apply IH|by intros [= <- <-]]. }
  unfold unique_devfreq_id. destruct (target_id_or _ _ _); [done|].
  case_bool_decide; [apply Hd|by intros [= <- <-]].
Qed.

(** ** Windows and operating points *)

(** A window and its operating points in the unit of the attribute. *)
Record window_wf (unit_ : Z) (limits : FrequencyLimits) (opps : list Hertz) : Prop := {
  ww_order : lim_min limits <= lim_max limits;
  ww_sorted : StronglySorted Z.lt opps;
  ww_inside f : f ∈ opps -> lim_min limits <= f <= lim_max limits;
  ww_ends : opps = [] \/ (lim_min limits ∈ opps /\ lim_max limits ∈ opps);
  ww_unit f : f ∈ lim_min limits :: lim_max limits :: opps -> (unit_ | f);
}.

Lemma normalize_opps_wf unit_ limits l :
  lim_min limits <= lim_max limits ->
  (forall f, f ∈ lim_min limits :: lim_max limits :: l -> (unit_ | f)) ->
  window_wf unit_ limits (normalize_opps l limits).
Proof.
  intros Ho Hu. unfold normalize_opps. destruct l as [|x l]; [constructor; [done|constructor|by intros f ?%not_elem_of_nil|by left|done]|].
  set (kept := List.filter _ _).
  assert (Hin : forall f, f ∈ sort_dedup (kept ++ [lim_min limits; lim_max limits]) <->
    (f ∈ x :: l /\ lim_min limits <= f <= lim_max limits) \/ f = lim_min limits \/ f = lim_max limits).
  { intros f. rewrite elem_of_sort_dedup, elem_of_app. subst kept.
    rewrite (list_elem_of_In (List.filter _ _)), filter_In, <- list_elem_of_In, !elem_of_cons, elem_of_nil, andb_true_iff,
      !Z.leb_le. naive_solver. }
  constructor; [done|apply sort_dedup_sorted| | |].
  - intros f [[_ ?]|[->| ->]]%Hin; lia.
  - right. rewrite !Hin. auto.
  - intros f. rewrite !elem_of_cons, Hin. intros [->|[->|[[Hf _]|[->| ->]]]]; apply Hu; set_solver.
Qed.

Lemma limits_or_inr path lo hi limits :
  limits_or path lo hi = inr limits -> lim_min limits = lo /\ lim_max limits = hi /\ lo <= hi.
Proof.
  unfold limits_or, FrequencyLimits_new. destruct (lo <=? hi) eqn:E; [|done]. intros [= <-]. simpl. lia.
Qed.

Lemma parse_frequency_list_unit path value unit_ l :
  parse_frequency_list path value unit_ = inr l -> Forall (fun f => (unit_ | f)) l.
Proof.
  unfold parse_frequency_list. revert l. induction (split_whitespace value) as [|token tokens IH]; intros l; simpl.
  - intros [= <-]. constructor.
  - destruct (parse_or _ _ _ _) as [|raw]; [done|]. unfold checked_mul. destruct (_ <? _); [done|].
    destruct (parse_frequency_tokens _ _ _) as [|rest]; [done|]. intros [= <-]. constructor; [|by apply IH].
    exists raw. lia.
Qed.

(** ** The registry *)

(** What discovery hands to the actuator. *)
Record registry_wf (cpus : list CpuPolicyCapability) (devfreq : list DevfreqCapability)
    (targets : gmap string FrequencyTargetPaths) : Prop := {
  rg_cpu p : p ∈ cpus ->
    cpc_cpus p <> ∅ /\ window_wf 1000 (cpc_limits p) (cpc_available_frequencies p)
    /\ exists t, targets !! cpc_id p = Some t /\ ftp_hertz_per_unit t = 1000;
  rg_devfreq p : p ∈ devfreq ->
    window_wf 1 (dfc_limits p) (dfc_available_frequencies p)
    /\ exists t, targets !! dfc_id p = Some t /\ ftp_hertz_per_unit t = 1;
  rg_distinct : NoDup (dfc_id <$> devfreq);
  rg_targets id t : targets !! id = Some t ->
    ftp_id t = id /\ ftp_minimum t <> ftp_maximum t /\ id ∈ (cpc_id <$> cpus) ++ (dfc_id <$> devfreq);
}.

Lemma registry_empty : registry_wf [] [] ∅.
Proof. constructor; [by intros ? ?%not_elem_of_nil..|constructor|]. by intros ? ? [=]. Qed.

(** The last parts of two paths differ. *)
Lemma join_path_ne base a b : a <> b -> join_path base a <> join_path base b.
Proof.
  unfold join_path. intros Hne E. apply (f_equal bytes) in E. rewrite !bytes_app in E.
  do 2 apply app_inv_head in E. apply (f_equal of_bytes) in E. by rewrite !of_bytes_bytes in E.
Qed.

Section probing.
Context {W : Type} `{!SysfsKernel W} `{!ProcKernel W} `{!DiscoveryKernel W}.
Context (sys_root : string) (sysfs : RootedSysfs).
Notation Sys := (gmap path_key string * W)%type.

Lemma read_khz_unit (path : string) (c c' : Sys) (hz : Hertz) : read_khz sysfs path c = (inr hz, c') -> (1000 | hz).
Proof.
  unfold read_khz. intros (value & c1 & _ & H)%and_then_inr.
  destruct (parse_or _ _ _ _) as [|khz]; [done|]. unfold checked_mul in H. destruct (_ <? _); [done|].
  injection H as <- _. exists khz. lia.
Qed.

Lemma cpu_available_frequencies_wf (base : string) (limits : FrequencyLimits) (c c' : Sys) (l : list Hertz) :
  lim_min limits <= lim_max limits -> (1000 | lim_min limits) -> (1000 | lim_max limits) ->
  cpu_available_frequencies sysfs base limits c = (inr l, c') -> window_wf 1000 limits l.
Proof.
  intros Ho Hmin Hmax. unfold cpu_available_frequencies.
  destruct (read_optional sysfs _ c) as [value c1]. intros (fs & c2 & Hf & [= <- _])%and_then_inr.
  apply normalize_opps_wf; [done|]. assert (Forall (fun f => (1000 | f)) fs) as Hu.
  { revert Hf. destruct value as [value|]; [intros [= Hf _]; by eapply parse_frequency_list_unit|].
    destruct (read_optional sysfs (join_path base "stats/time_in_state") c1) as [[value|] c3]; intros [= Hf _].
    - by eapply parse_frequency_list_unit.
    - subst fs. constructor. }
  rewrite Forall_forall in Hu. intros f. rewrite !elem_of_cons. naive_solver.
Qed.

Lemma probe_cpu_policy_wf (relative name : string) (c c' : Sys) (cap : CpuPolicyCapability) (paths : FrequencyTargetPaths) :
  probe_cpu_policy sysfs relative name c = (inr (cap, paths), c') ->
  cpc_cpus cap <> ∅ /\ window_wf 1000 (cpc_limits cap) (cpc_available_frequencies cap)
  /\ ftp_id paths = cpc_id cap /\ ftp_hertz_per_unit paths = 1000 /\ ftp_minimum paths <> ftp_maximum paths.
Proof.
  unfold probe_cpu_policy. intros (text & c1 & _ & H)%and_then_inr.
  apply and_then_inr in H as (cpus & ? & [= _ <-] & H).
  unfold CpuSet_is_empty in H. case_bool_decide as Hne; [done|].
  apply and_then_inr in H as (lo & c2 & Hlo%read_khz_unit & H).
  apply and_then_inr in H as (hi & c3 & Hhi%read_khz_unit & H).
  apply and_then_inr in H as (limits & ? & [= (E1 & E2 & Ho)%limits_or_inr <-] & H).
  apply and_then_inr in H as (avail & c4 & Ha & H).
  apply cpu_available_frequencies_wf in Ha; [|congruence..].
  destruct (read_optional sysfs _ c4) as [governor c5].
  destruct (target_id_or _ _ _) as [|id]; [done|]. injection H as <- <- _. simpl.
  do 4 (split; [done|]). by apply join_path_ne.
Qed.

Lemma probe_policies_wf (relative : string) (names : list string)
    (acc : list CpuPolicyCapability * gmap string FrequencyTargetPaths * list text) (c : Sys) :
  registry_wf acc.1.1 [] acc.1.2 ->
  let r := (probe_policies sysfs relative names acc c).1 in registry_wf r.1.1 [] r.1.2.
Proof.
  revert acc c. induction names as [|name names IH]; intros [[policies targets] warnings] c Hr; [done|].
  cbn [probe_policies]. destruct (probe_cpu_policy sysfs relative name c) as [[e|[cap paths]] c1] eqn:E.
  { by apply IH. }
  apply IH. apply probe_cpu_policy_wf in E as (Hc & Hw & Hid & Hu & Hp). destruct Hr as [R1 R2 R3 R4].
  simpl in *. constructor; simpl.
  - intros p [Hin| ->%list_elem_of_singleton]%elem_of_app.
    + destruct (R1 p Hin) as (? & ? & t & Ht & ?). split; [done|]. split; [done|].
      destruct (decide (cpc_id cap = cpc_id p)) as [->|].
      * rewrite lookup_insert_eq. eauto.
      * rewrite lookup_insert_ne by done. eauto.
    + rewrite lookup_insert_eq. eauto.
  - by intros ? ?%not_elem_of_nil.
  - constructor.
  - intros id t. rewrite app_nil_r. intros [[<- <-]|[Hne Ht]]%lookup_insert_Some.
    + repeat split; [done..|]. rewrite fmap_app. set_solver.
    + apply R4 in Ht as (? & ? & Hin). rewrite app_nil_r in Hin. repeat split; [done..|].
      rewrite fmap_app. set_solver.
Qed.

Lemma probe_devfreq_wf (candidate : DevfreqCandidate) (index : Z) (used used' : gset string) (c c' : Sys)
    (cap : DevfreqCapability) (paths : FrequencyTargetPaths) :
  probe_devfreq sysfs candidate index used c = (Some (inr (cap, paths)), used', c') ->
  window_wf 1 (dfc_limits cap) (dfc_available_frequencies cap)
  /\ dfc_id cap ∉ used /\ used' = {[ dfc_id cap ]} ∪ used
  /\ ftp_id paths = dfc_id cap /\ ftp_hertz_per_unit paths = 1 /\ ftp_minimum paths <> ftp_maximum paths.
Proof.
  unfold probe_devfreq. set (parse := and_then _ _). destruct parse as [[e|p] c1] eqn:Ep; [done|]. subst parse.
  destruct p as [[[[limits available] governor] device_name] compatible].
  destruct (unique_devfreq_id _ _ _ _) as [[e|[id used1]]|] eqn:Eu; [done| |done].
  apply unique_devfreq_id_fresh in Eu as [Hnew ->]. intros [= <- <- <- <-]. simpl.
  split; [|do 4 (split; [done|]); by apply join_path_ne].
  apply and_then_inr in Ep as (lo & c2 & _ & Ep). apply and_then_inr in Ep as (hi & c3 & _ & Ep).
  apply and_then_inr in Ep as (current & ? & [= (E1 & E2 & Ho)%limits_or_inr <-] & Ep).
  apply and_then_inr in Ep as (raw & c4 & _ & Ep).
  apply and_then_inr in Ep as (window & ? & [= Hl <-] & Ep).
  destruct (read_optional sysfs _ c4) as [g c5]. destruct (devfreq_device_name sysfs _ _ c5) as [n c6].
  destruct (devfreq_compatible sysfs _ c6) as [v c7]. injection Ep as <- <- _ _ _ _.
  apply normalize_opps_wf; [|intros f _; apply Z.divide_1_l].
  unfold devfreq_limits in Hl. destruct (head raw), (last raw); try (injection Hl as <-; lia).
  destruct (_ || _); [done|]. apply limits_or_inr in Hl. lia.
Qed.

Lemma probe_candidates_wf (cpus : list CpuPolicyCapability) (candidates : list DevfreqCandidate) (index : Z)
    (used : gset string) (acc : list DevfreqCapability * gmap string FrequencyTargetPaths * list text) (c : Sys) :
  registry_wf cpus acc.1.1 acc.1.2 -> (forall p, p ∈ acc.1.1 -> dfc_id p ∈ used) ->
  match (probe_candidates sysfs candidates index used acc c).1 with
  | Some (inr r) => registry_wf cpus r.1.1 r.1.2
  | Some (inl _) => True
  | None => False
  end.
Proof.
  revert index used acc c. induction candidates as [|d candidates IH];
    intros index used [[devfreq targets] warnings] c Hr Hused; [done|].
  cbn [probe_candidates]. destruct (probe_devfreq sysfs d index used c) as [[parsed used1] c1] eqn:E.
  destruct parsed as [[e|[cap paths]]|].
  - apply IH; [done|]. intros p Hp. simpl in *. apply Hused in Hp.
    unfold probe_devfreq in E. destruct (and_then _ _) as [[e'|p'] c2]; [by injection E as _ <- _|].
    destruct p' as [[[[? ?] ?] ?] ?].
    destruct (unique_devfreq_id _ _ _ _) as [[e'|[id u]]|]; [by injection E as _ <- _|done|done].
  - apply probe_devfreq_wf in E as (Hw & Hnew & -> & Hid & Hu & Hp).
    destruct (targets !! dfc_id cap) as [t|] eqn:Et; [done|]. cbn [is_some].
    destruct Hr as [R1 R2 R3 R4]. simpl in *. apply IH; simpl.
    + constructor.
      * intros p Hin. destruct (R1 p Hin) as (? & ? & t & Ht & ?). split; [done|]. split; [done|].
        exists t. rewrite lookup_insert_ne; [done|]. congruence.
      * intros p [Hin| ->%list_elem_of_singleton]%elem_of_app.
        -- destruct (R2 p Hin) as (? & t & Ht & ?). split; [done|]. exists t.
           rewrite lookup_insert_ne; [done|]. congruence.
        -- rewrite lookup_insert_eq. eauto.
      * rewrite fmap_app. apply NoDup_app. split; [done|]. split; [|apply NoDup_singleton].
        intros id (p & -> & Hin)%list_elem_of_fmap H2%list_elem_of_singleton. apply Hnew. rewrite <- H2. auto.
      * intros id t [[<- <-]|[Hne Ht]]%lookup_insert_Some.
        -- repeat split; [done..|]. rewrite fmap_app. set_solver.
        -- apply R4 in Ht as (? & ? & ?). repeat split; [done..|]. rewrite fmap_app. set_solver.
    + intros p [Hin| ->%list_elem_of_singleton]%elem_of_app; [|set_solver]. apply Hused in Hin. set_solver.
  - unfold probe_devfreq in E. destruct (and_then _ _) as [[e'|p'] c2]; [done|].
    destruct p' as [[[[? ?] ?] ?] ?].
    pose proof (unique_devfreq_id_total (dvc_entry_name d) (dvc_canonical_identity d) index used) as [x Hx].
    rewrite Hx in E. by destruct x as [|[]].
Qed.

Lemma discover_frequency_targets_wf (c : Sys) :
  match (discover_frequency_targets sys_root sysfs c).1 with
  | Some (inr (cpus, devfreq, targets, _)) => registry_wf cpus devfreq targets
  | Some (inl _) => True
  | None => False
  end.
Proof.
  unfold discover_frequency_targets.
  destruct (discover_cpu_policies sys_root sysfs ∅ [] c) as [[e|[[cpus targets] warnings]] c1] eqn:E; [done|].
  assert (Hcpu : registry_wf cpus [] targets).
  { unfold discover_cpu_policies in E. destruct (lift _ _) as [devices c2].
    apply and_then_inr in E as (names & c3 & _ & E).
    pose proof (probe_policies_wf (if devices then "devices/system/cpu/cpufreq" else "class/cpufreq") names
      ([], ∅, []) c3 registry_empty) as H.
    destruct (probe_policies _ _ _ _ c3) as [acc c4]. by injection E as -> _. }
  unfold discover_devfreq. destruct (lift _ _) as [[e|[candidates warnings']] c2]; [done|].
  pose proof (probe_candidates_wf cpus candidates 0 ∅ ([], targets, warnings') c2 Hcpu) as H.
  destruct (probe_candidates _ _ _ _ _ c2) as [[[e|[[d t] w]]|] c3]; simpl in *; [done| |].
  - apply H. by intros p ?%not_elem_of_nil.
  - apply H. by intros p ?%not_elem_of_nil.
Qed.
End probing.

(** ** The theorem *)


(** ** An example *)

(** Two policies and two devfreq devices, whose names become the same
    identifier, below one root. *)
Definition example_text (p : string) : option string :=
  let find := fun l => snd <$> List.find (fun e => bool_decide (fst e = p)) l in
  find [("/sys/class/cpufreq/policy0/related_cpus", "0-3");
        ("/sys/class/cpufreq/policy0/cpuinfo_min_freq", "300000");
        ("/sys/class/cpufreq/policy0/cpuinfo_max_freq", "1800000");
        ("/sys/class/cpufreq/policy0/scaling_available_frequencies", "1800000 600000 300000 ");
        ("/sys/class/cpufreq/policy4/related_cpus", "");
        ("/sys/class/devfreq/gpu@0/min_freq", "100000000"); ("/sys/class/devfreq/gpu@0/max_freq", "800000000");
        ("/sys/class/devfreq/gpu:0/min_freq", "200000000"); ("/sys/class/devfreq/gpu:0/max_freq", "400000000")].

#[local] Instance example_sysfs : SysfsKernel unit := {
  canonicalize p w := (inr p, w);
  File := string;
  open_read p w := (match example_text p with Some _ => inr p | None => inl sim_missing end, w);
  open_write p w := (inl sim_missing, w);
  read_limited f n w := (inr (bytes (unwrap_or (example_text f) "")), w);
  write_all f b w := (inr tt, w);
  flush f w := (inr tt, w);
}.
#[local] Instance example_proc : ProcKernel unit := {
  read_bytes p w := (inl sim_missing, w); read_text p w := (inl sim_missing, w);
  read_link p w := (inl sim_missing, w); read_dir_names p w := (inl sim_missing, w); proc_elapsed w := (7, w);
}.
Definition example_entry (t : EntryType) (name : string) : IoError + SysEntry :=
  inr {| sye_name := bytes name; sye_type := inr t |}.
#[local] Instance example_directories : DiscoveryKernel unit := {
  is_dir p w := (false, w);
  read_dir p w :=
    (if bool_decide (p = "/sys/class/cpufreq")
     then inr (example_entry EtDirectory <$> ["policy4"; "boost"; "policy0"])
     else if bool_decide (p = "/sys/class/devfreq") then inr (example_entry EtSymlink <$> ["gpu@0"; "gpu:0"])
     else inl sim_missing, w);
  read_node p w := (inl sim_missing, w);
}.

Definition example_discovery : option (sum PlatformError LinuxDiscovery) :=
  (discover "/sys" {| sy_root := "/sys"; sy_writable := ∅ |} (∅, tt)).1.

Example discovery_example :
  match example_discovery with
  | Some (inr d) =>
      (cpc_available_frequencies <$> dc_cpu_policies (ld_capabilities d),
       dfc_id <$> dc_devfreq_targets (ld_capabilities d), ld_warnings d)
      = ([[300000000; 600000000; 1800000000]],
         ["devfreq.gpu_0"; "devfreq.gpu_0.2a4823b0782a7177"],
         [[PText "skipping cpufreq policy4: invalid data in /sys/class/cpufreq/policy4/related_cpus: CPU policy has an empty CPU set"]])
  | _ => False
  end.
Proof. vm_compute. reflexivity. Qed.
