(* ===== verification/RuntimeEval.v ===== *)
(** * Evaluation and submission ([uperf-daemon/src/runtime.rs])

    [evaluate_and_reconcile]: one policy evaluation, the guards that keep it
    from reaching the workers, and the submission of the frequency and the
    scheduler lane; the bounded corrections of external drift. *)

From coqutil Require Import Datatypes.RecordSetters.
From S2P Require Import Prelude Float64 Domain Text Scene Frequency Thermal Load ConfigTypes Validate ValidatePolicy Energy Governor Rules Engine ActuatorTypes Scalars Targets Journal Ports DaemonTypes DaemonConfig DecisionTrace Reconcile RuntimeTypes.

#[global] Instance ObservedFrequency_eq_dec : EqDecision ObservedFrequency.
Proof. solve_decision. Defined.

Section evaluate.
Context {W : Type} `{!Ports W} `{!Environment W} `{RegexEngine}.

(** ** Reading the state *)

(** The workload every scheduling decision applies to: an explicit selection
    wins, focus only fills the gap. *)
Definition effective_workload (s : RuntimeActor W) : option ProcessInfo :=
  or_else (co_active_workload (ra_control s)) (fl_info <$> fs_focus_lease (ra_focus s)).

Definition effective_workload_source (s : RuntimeActor W) : WorkloadSource :=
  if co_active_workload (ra_control s) then Explicit else Focus.

Definition match_app_profile (s : RuntimeActor W) (process : ProcessInfo) : option ProfileId :=
  match_profile (rc_app_rule_engine (cf_configuration (ra_config s))) process.

(** A drift of this target that was corrected as often as allowed. *)
Definition drift_suppressed (s : RuntimeActor W) (id : string) (target : FrequencyLimits) : bool :=
  is_some_and (de_external_drift (ra_decision s) !! id)
    (fun state => bool_decide (ed_desired state = target) && ed_suppressed state).

Definition observed_differs (s : RuntimeActor W) (id : string) (target : FrequencyLimits) : bool :=
  is_some_and (obs_frequencies (sn_observed (ra_sensing s)) !! id)
    (fun observed => negb (bool_decide (obs_limits observed = target))).

Definition applied_frequencies (s : RuntimeActor W) : gmap string FrequencyLimits :=
  ap_frequencies (ar_applied (ra_applied s)).

Definition target_needs_reconcile (s : RuntimeActor W) (kv : string * FrequencyLimits) : bool :=
  let '(id, target) := kv in
  negb (bool_decide (applied_frequencies s !! id = Some target))
  || (observed_differs s id target && negb (drift_suppressed s id target)).

Definition frequency_needs_reconcile (s : RuntimeActor W) (desired : DesiredPlan) : bool :=
  (existsb (target_needs_reconcile s) (entries (dp_frequencies desired))
   || existsb (fun id => negb (bool_decide (is_Some (dp_frequencies desired !! id))))
        (keys (applied_frequencies s)))
  || negb (bool_decide (ap_scalars (ar_applied (ra_applied s)) = dp_scalars desired)).

Definition correctable_drift_targets (s : RuntimeActor W) (desired : DesiredPlan)
  : gmap string FrequencyLimits :=
  filter (fun kv : string * FrequencyLimits =>
      (bool_decide (applied_frequencies s !! kv.1 = Some kv.2)
       && observed_differs s kv.1 kv.2 && negb (drift_suppressed s kv.1 kv.2)) = true)
    (dp_frequencies desired).

(** ** Failures *)

(** The fail-closed latch of a worker whose progress is unknown. *)
Definition fail_reconcile_worker (error : text) : AM W unit :=
  let barrier_error := error ++
    [PText "; mutation progress cannot be proven, so all further mutations are disabled"] in
  modify (fun s => s <|ra_failures->fa_reconcile_worker_failure := Some barrier_error|>
                     <|ra_failures->fa_actuator_read_only := true|>);;
  insert_issue (issue "reconciler.worker" "critical" "reconciler" barrier_error).

Definition clear_frequency_failure : AM W unit :=
  modify (fun s => s <|ra_failures->fa_frequency_failures := 0|>
                     <|ra_failures->fa_frequency_retry_not_before := 0|>);;
  remove_issue "reconciler.frequency_backoff".

Definition clear_scheduler_failure : AM W unit :=
  modify (fun s => s <|ra_failures->fa_scheduler_failures := 0|>
                     <|ra_failures->fa_scheduler_retry_not_before := 0|>);;
  remove_issue "reconciler.scheduler_backoff".

Definition record_frequency_failure (message : text) : AM W unit :=
  modify (fun s => s <|ra_failures->fa_frequency_failures ::= (fun n => Z.min (n + 1) u32_max)|>);;
  failures ← gets (fun s => fa_frequency_failures (ra_failures s));
  let delay_ms := retry_delay_ms failures in
  now ← clock;
  modify (fun s => s <|ra_failures->fa_frequency_retry_not_before := saturating_add now delay_ms|>);;
  insert_issue (issue "reconciler.frequency_backoff" "error" "reconciler"
    (message ++ [PText "; retrying frequency control in "; PNum delay_ms; PText " ms"])).

Definition record_scheduler_failure (message : text) : AM W unit :=
  modify (fun s => s <|ra_failures->fa_scheduler_failures ::= (fun n => Z.min (n + 1) u32_max)|>);;
  failures ← gets (fun s => fa_scheduler_failures (ra_failures s));
  let delay_ms := retry_delay_ms failures in
  now ← clock;
  modify (fun s => s <|ra_failures->fa_scheduler_retry_not_before := saturating_add now delay_ms|>);;
  insert_issue (issue "reconciler.scheduler_backoff" "error" "scheduler"
    (message ++ [PText "; retrying scheduler control in "; PNum delay_ms; PText " ms"])).

(** ** External drift *)

Definition refresh_external_constraint_health : AM W unit :=
  drift ← gets (fun s => de_external_drift (ra_decision s));
  let constrained := (List.filter (fun kv => ed_suppressed kv.2) (entries drift)).*1 in
  match constrained with
  | [] => remove_issue "reconciler.external_constraint"
  | _ =>
      insert_issue (issue "reconciler.external_constraint" "warning" "frequency"
        [PText "suspected external constraint on "; PIds constrained;
         PText "; stopped rewriting the unchanged desired limits after ";
         PNum MAX_EXTERNAL_DRIFT_CORRECTIONS; PText " corrections"])
  end.

Definition prepare_external_drift_state (desired : DesiredPlan) : AM W unit :=
  modify (fun s => s <|ra_decision->de_external_drift ::=
    filter (fun kv : string * ExternalDriftState =>
      dp_frequencies desired !! kv.1 = Some (ed_desired kv.2)
      /\ applied_frequencies s !! kv.1 = Some (ed_desired kv.2))|>);;
  refresh_external_constraint_health.

(** The state of one desired target after an observer sample. *)
Definition observe_target_drift (s : RuntimeActor W)
    (drift : gmap string ExternalDriftState) (kv : string * FrequencyLimits)
  : gmap string ExternalDriftState :=
  let '(id, target) := kv in
  if negb (bool_decide (applied_frequencies s !! id = Some target)) then delete id drift
  else
    match obs_frequencies (sn_observed (ra_sensing s)) !! id with
    | None => drift
    | Some observed =>
        if decide (obs_limits observed = target) then delete id drift
        else
          let fresh := {| ed_desired := target; ed_corrections := 0; ed_suppressed := false |} in
          let state := unwrap_or (drift !! id) fresh in
          let state := if decide (ed_desired state = target) then state else fresh in
          <[id := {| ed_desired := ed_desired state; ed_corrections := ed_corrections state;
                     ed_suppressed := MAX_EXTERNAL_DRIFT_CORRECTIONS <=? ed_corrections state |}]> drift
    end.

Definition observe_external_frequency_drift : AM W unit :=
  desired ← gets (fun s => de_desired (ra_decision s));
  match desired with
  | None => modify (fun s => s <|ra_decision->de_external_drift := ∅|>)
  | Some desired =>
      modify (fun s => s <|ra_decision->de_external_drift ::= (fun drift =>
        filter (fun kv : string * ExternalDriftState => is_Some (dp_frequencies desired !! kv.1))
          (foldl (observe_target_drift s) drift (entries (dp_frequencies desired))))|>)
  end;;
  refresh_external_constraint_health.

(** A verified write counts as a correction of the drift it answered. *)
Definition count_correction (desired : option DesiredPlan)
    (drift : gmap string ExternalDriftState) (kv : string * FrequencyLimits)
  : gmap string ExternalDriftState :=
  let '(id, target) := kv in
  match drift !! id with
  | None => drift
  | Some state =>
      if bool_decide (ed_desired state = target)
         && bool_decide ((p ← desired; dp_frequencies p !! id) = Some target)
      then <[id := {| ed_desired := ed_desired state;
                      ed_corrections := Z.min (ed_corrections state + 1) 255;
                      ed_suppressed := ed_suppressed state |}]> drift
      else drift
  end.

Definition record_external_drift_corrections (corrected : gmap string FrequencyLimits) : AM W unit :=
  modify (fun s => s <|ra_decision->de_external_drift ::= (fun drift =>
    foldl (count_correction (de_desired (ra_decision s))) drift (entries corrected))|>).

(** ** Submission *)

(** The fence and the gate are shared with the workers, which see what they
    hold when the job runs. *)
Definition reconcile_job (s : RuntimeActor W) (desired : DesiredPlan)
    (reconcile_frequencies reconcile_scheduler : bool) : ReconcileJob :=
  let c := cf_configuration (ra_config s) in
  {| rj_policy_engine := rc_policy_engine c;
     rj_workload := effective_workload s;
     rj_workload_source := effective_workload_source s;
     rj_desired := desired;
     rj_applied := ar_applied (ra_applied s);
     rj_applied_units := ar_applied_units (ra_applied s);
     rj_reconcile_frequencies := reconcile_frequencies;
     rj_reconcile_scheduler := reconcile_scheduler;
     rj_gate_poisoned := false;
     rj_frequency_safety :=
       {| ff_envelope := {| env_generation := 0; env_upper_caps := ∅ |}; ff_poisoned := false |};
     rj_trace_context :=
       {| tc_trigger_source := de_trigger_source (ra_decision s);
          tc_trigger_monotonic_ms := de_trigger_at (ra_decision s);
          tc_governor :=
            governor_diagnostics_status (rc_policy c) (de_governor_diagnostics (ra_decision s)) desired |} |}.

Definition submit_frequency_reconcile (desired : DesiredPlan) : AM W unit :=
  s ← gets (fun s => s);
  let intent := FrequencyIntent_from desired in
  if bool_decide (is_Some (ln_frequency_command_pending (ra_lanes s)))
     && bool_decide (ln_frequency_requested (ra_lanes s) = Some intent)
  then mret tt
  else
    let work := {| fw_job := reconcile_job s desired true false;
                   fw_drift_targets := correctable_drift_targets s desired |} in
    let id := sat_add (ln_next_frequency_command_id (ra_lanes s)) 1 in
    modify (fun s => s <|ra_lanes->ln_next_frequency_command_id := id|>);;
    if ch_frequency_closed (ra_channels s)
    then fail_reconcile_worker
           [PText "frequency worker command channel closed; all further mutations are disabled"]
    else modify (fun s =>
      s <|ra_channels->ch_frequency_command := Some (FwReconcile id work)|>
        <|ra_lanes->ln_frequency_command_pending := Some id|>
        <|ra_lanes->ln_frequency_quiesce_pending := None|>
        <|ra_lanes->ln_frequency_quiesced := false|>
        <|ra_lanes->ln_frequency_requested := Some intent|>).

Definition submit_scheduler_reconcile (desired : DesiredPlan) : AM W unit :=
  s ← gets (fun s => s);
  if bool_decide (is_Some (ln_scheduler_in_flight (ra_lanes s)))
  then modify (fun s => s <|ra_lanes->ln_scheduler_pending := true|>)
  else
    let id := sat_add (ln_next_scheduler_id (ra_lanes s)) 1 in
    let job := reconcile_job s desired false true in
    modify (fun s =>
      s <|ra_lanes->ln_next_scheduler_id := id|>
        <|ra_lanes->ln_scheduler_in_flight := Some id|>
        <|ra_lanes->ln_scheduler_pending := false|>
        <|ra_channels->ch_schedulers ::= (fun l => l ++ [(id, job)])|>).

(** ** Evaluation *)

Definition session_profile (s : RuntimeActor W) : option ProfileId :=
  session ← pol_session (rc_policy (cf_configuration (ra_config s)));
  or_else (if ia_display_blanked (ra_interaction s) then display_blanked_profile session else None)
    (if decide (co_session_state (ra_control s) = SessionLocked) then locked_profile session else None).

Definition app_profile (s : RuntimeActor W) : option ProfileId :=
  or_else (session_profile s)
    (or_else (co_requested_workload_profile (ra_control s))
       (info ← effective_workload s; match_app_profile s info)).

Definition policy_input (s : RuntimeActor W) : PolicyInput :=
  let c := cf_configuration (ra_config s) in
  {| pi_generation := co_generation (ra_control s);
     pi_observed := sn_observed (ra_sensing s);
     pi_mode := co_mode (ra_control s);
     pi_app_profile := app_profile s;
     pi_hints := ia_scenes (ra_interaction s);
     pi_cpu_targets := cpu_target_policies c;
     pi_manual_target_policies := manual_target_policies c;
     pi_manual_overrides := to_limits <$> co_overrides (ra_control s);
     pi_administrator_caps := administrator_caps c;
     pi_thermal_caps := sn_thermal_caps (ra_sensing s);
     pi_thermal_degraded := bool_decide (sn_thermal_state (ra_sensing s) = Degraded) |}.

(** [policy_engine.evaluate_stateful(..)] on the current state. *)
Definition evaluate (s : RuntimeActor W) : res StatefulPolicyEvaluation PolicyError :=
  evaluate_stateful (pe_config (rc_policy_engine (cf_configuration (ra_config s))))
    (policy_input s) (de_governor_state (ra_decision s))
    (de_integrate_elapsed_time (ra_decision s)).

(** What keeps a decision from the workers. *)
Definition submission_blocked (s : RuntimeActor W) : bool :=
  let b := ra_barrier s in
  ba_suspended b
  || negb (co_mutations_activated (ra_control s))
  || negb (co_accepting_control (ra_control s))
  || ba_restore_requested b
  || bool_decide (is_Some (ba_restore_in_flight b))
  || (if ba_pending_reload b then true else false)
  || bool_decide (is_Some (sf_update_in_flight (ra_safety s)))
  || bool_decide (is_Some (sf_pending_upper_caps (ra_safety s))).

(** A plan reaches the workers unless something blocks it. *)
Definition submit (now : MonotonicMillis) (desired : DesiredPlan) : AM W unit :=
  s ← gets (fun s => s);
  if submission_blocked s then mret tt
  else
    match cf_actuator (ra_config s) with
    | None => modify (fun s => s <|ra_lanes->ln_scheduler_dirty := false|>)
    | Some _ =>
        if fa_actuator_read_only (ra_failures s) then mret tt
        else
          let reconcile_frequencies :=
            frequency_needs_reconcile s desired
            && (fa_frequency_retry_not_before (ra_failures s) <=? now) in
          let reconcile_scheduler :=
            ln_scheduler_dirty (ra_lanes s)
            && (fa_scheduler_retry_not_before (ra_failures s) <=? now) in
          when reconcile_frequencies (submit_frequency_reconcile desired);;
          when reconcile_scheduler (submit_scheduler_reconcile desired)
    end.

(** The plan adopted: a new scheduler scene makes the scheduler dirty, and the
    task plans of the last resolution are kept. *)
Definition adopt_plan (desired : DesiredPlan) : AM W DesiredPlan :=
  previous ← gets (fun s => de_desired (ra_decision s));
  let changed := is_some_and previous (fun p =>
    negb (bool_decide (dp_dominant_scene p = dp_dominant_scene desired))
    && negb (bool_decide (scheduler_scene_for (dp_dominant_scene p)
                          = scheduler_scene_for (dp_dominant_scene desired)))) in
  when changed set_scheduler_dirty;;
  let desired := match previous with
                 | Some p => with_plan_tasks desired (dp_tasks p)
                 | None => desired
                 end in
  modify (fun s => s <|ra_decision->de_desired := Some desired|>);;
  mret desired.

Definition evaluate_and_reconcile : AM W unit :=
  now ← clock;
  modify (fun s => s <|ra_interaction->ia_scenes ::= (fun h => (expire h now).2)|>);;
  evaluation ← gets evaluate;
  match evaluation with
  | Panic => crash
  | Err error =>
      insert_issue (issue "policy.evaluate" "error" "policy" [PPolicy error])
  | Ok evaluation =>
      remove_issue "policy.evaluate";;
      modify (fun s =>
        s <|ra_decision->de_governor_state := Engine.se_next_governor_state evaluation|>
          <|ra_decision->de_governor_diagnostics := se_governor_diagnostics evaluation|>
          <|ra_decision->de_integrate_elapsed_time := true|>);;
      desired ← adopt_plan (Engine.se_desired evaluation);
      prepare_external_drift_state desired;;
      submit now desired
  end.
End evaluate.
