(* ===== verification/RuntimeObservers.v ===== *)
(** * Observations and the safety envelope ([uperf-daemon/src/runtime.rs])

    What the state owner does with a load, frequency or thermal sample and
    when one becomes stale; the thermal caps, and the asynchronous updates of
    the frequency safety fence that publish them to the workers. *)

From coqutil Require Import Datatypes.RecordSetters.
From S2P Require Import Prelude Float64 Domain Text Strings Scene Frequency Thermal Load ConfigTypes Validate ValidatePolicy Energy Governor Rules Engine ActuatorTypes Scalars Targets Journal Ports Recovery DaemonTypes DaemonConfig DecisionTrace Reconcile RuntimeTypes RuntimeEval.

Section observers.
Context {W : Type} `{!Ports W} `{!Environment W} `{RegexEngine}.

(** ** Health of the actuator *)

(** A latch only a restart clears. *)
Definition latched (s : RuntimeActor W) : bool :=
  let f := ra_failures s in
  bool_decide (is_Some (fa_restore_failure f))
  || bool_decide (is_Some (fa_frequency_safety_failure f))
  || bool_decide (is_Some (fa_reconcile_worker_failure f)).

Definition set_read_only (b : bool) : AM W unit :=
  modify (fun s => s <|ra_failures->fa_actuator_read_only := b|>).

Definition refresh_actuator_health : AM W unit :=
  remove_issue "actuator.degraded";;
  actuator ← gets (fun s => cf_actuator (ra_config s));
  match actuator with
  | None =>
      set_read_only true;;
      modify (fun s => s <|ra_failures->fa_startup_recovery_pending := false|>)
  | Some _ =>
      pending ← query_actuator startup_recovery_required;
      modify (fun s => s <|ra_failures->fa_startup_recovery_pending :=
                             match pending with Ok b => b | _ => true end|>);;
      m ← query_actuator mode;
      match m with
      | Ok ReadWrite => set_read_only false
      | Ok (ReadOnlyDegraded reason) =>
          set_read_only true;;
          insert_issue (issue "actuator.degraded" "critical" "actuator" [PMessage reason])
      | Err error =>
          set_read_only true;;
          insert_issue (issue "actuator.degraded" "critical" "actuator" [PActuator error])
      | Panic => crash
      end;;
      modify (fun s => s <|ra_failures->fa_actuator_read_only ::= (fun b => b || latched s)|>)
  end.

Definition seed_warning (n : nat) (warning : text) : AM W unit :=
  let code := ("discovery.warning." +:+ to_string (Z.of_nat n))%string in
  insert_issue (issue code "warning" "discovery" warning).

Definition seed_health : AM W unit :=
  remove_issue "scheduler.process_backend";;
  remove_issue "scheduler.systemd_backend";;
  c ← configuration;
  afor (imap pair (rc_warnings c)) (fun p => seed_warning p.1 p.2);;
  actuator ← gets (fun s => cf_actuator (ra_config s));
  when (negb (if actuator then true else false))
    (insert_issue (issue "actuator.read_only" "warning" "actuator"
       [PText "daemon was started without a mutation actuator"]));;
  let scheduler := pol_scheduler (rc_policy c) in
  when (sc_enabled scheduler)
    (when (negb (is_some_and actuator has_process_backend))
       (insert_issue (issue "scheduler.process_backend" "warning" "scheduler"
          [PText "task scheduling is configured but its process backend is unavailable"]));;
     when (negb (bool_decide (sc_cgroup_classes scheduler = []))
           && negb (is_some_and actuator has_systemd_backend))
       (insert_issue (issue "scheduler.systemd_backend" "warning" "scheduler"
          [PText "cgroup classes are configured but the systemd backend is unavailable"])));;
  refresh_actuator_health.

(** ** The safety fence *)

Definition start_frequency_safety_update (upper_caps : gmap string Hertz) : AM W unit :=
  in_flight ← gets (fun s => sf_update_in_flight (ra_safety s));
  debug_assert (bool_decide (in_flight = None));;
  modify (fun s => s <|ra_safety->sf_next_update_id ::= (fun n => sat_add n 1)|>);;
  id ← gets (fun s => sf_next_update_id (ra_safety s));
  modify (fun s => s <|ra_safety->sf_update_in_flight := Some id|>
                     <|ra_channels->ch_safety_updates ::= (fun l => l ++ [(id, upper_caps)])|>).

Definition request_frequency_safety_update (upper_caps : gmap string Hertz) : AM W unit :=
  s ← gets (fun s => s);
  if bool_decide (is_Some (fa_frequency_safety_failure (ra_failures s)))
     || bool_decide (upper_caps = sf_requested_upper_caps (ra_safety s))
  then mret tt
  else
    modify (fun s => s <|ra_safety->sf_requested_upper_caps := upper_caps|>);;
    if bool_decide (is_Some (sf_update_in_flight (ra_safety s)))
    then modify (fun s => s <|ra_safety->sf_pending_upper_caps := Some upper_caps|>)
    else start_frequency_safety_update upper_caps.

Definition finish_frequency_safety_update (outcome : FrequencySafetyOutcome) : AM W unit :=
  expected ← gets (fun s => sf_update_in_flight (ra_safety s));
  modify (fun s => s <|ra_safety->sf_update_in_flight := None|>);;
  let result :=
    if decide (expected = Some (fso_id outcome)) then fso_result outcome
    else inl [PText "received frequency safety result "; PNum (fso_id outcome);
              PText " while waiting for "; PWaiting expected] in
  match result with
  | inl message =>
      let message := message ++ [PText "; all further mutations are disabled"] in
      modify (fun s => s <|ra_failures->fa_frequency_safety_failure := Some message|>
                         <|ra_safety->sf_pending_upper_caps := None|>
                         <|ra_failures->fa_actuator_read_only := true|>);;
      insert_issue (issue "safety.frequency_fence" "critical" "actuator" message);;
      refresh_actuator_health
  | inr _ =>
      remove_issue "safety.frequency_fence";;
      pending ← gets (fun s => sf_pending_upper_caps (ra_safety s));
      modify (fun s => s <|ra_safety->sf_pending_upper_caps := None|>);;
      match pending with
      | Some upper_caps => start_frequency_safety_update upper_caps
      | None => evaluate_and_reconcile
      end
  end.

(** ** Thermal caps *)

Definition thermal_cap_of (state : ThermalState) (t : ResolvedTarget) : option Hertz :=
  match state with
  | Normal => None
  | Warning => efficient_cap <$> rt_automatic_policy t
  | Throttled =>
      match rt_automatic_policy t with
      | None => middle_opp t
      | Some policy => Some (Z.min (reference policy) (efficient_cap policy))
      end
  | Critical => Some (rt_critical_cap t)
  | Degraded => Some (rt_sensor_failure_cap t)
  end.

Definition upper_caps_of (administrator thermal : gmap string Hertz) : gmap string Hertz :=
  union_with (fun a t => Some (Z.min a t)) administrator thermal.

Definition update_thermal_caps : AM W unit :=
  s ← gets (fun s => s);
  let c := cf_configuration (ra_config s) in
  let previous := sn_thermal_caps (ra_sensing s) in
  let caps := omap (thermal_cap_of (sn_thermal_state (ra_sensing s))) (rc_targets c) in
  modify (fun s => s <|ra_sensing->sn_thermal_caps := caps|>);;
  request_frequency_safety_update (upper_caps_of (administrator_caps c) caps);;
  let tightened := existsb (fun kv : string * Hertz =>
      is_none_or (previous !! kv.1) (fun p => kv.2 <? p)) (entries caps) in
  when tightened clear_frequency_failure.

Definition update_thermal_health : AM W unit :=
  remove_issue "thermal.degraded";;
  state ← gets (fun s => sn_thermal_state (ra_sensing s));
  when (bool_decide (state = Degraded))
    (insert_issue (issue "thermal.degraded" "critical" "thermal"
       [PText "a trusted thermal sensor is stale or unavailable; boost and new overrides are inhibited"])).

Definition with_thermal (o : ObservedState) (f : gmap string ThermalReading -> gmap string ThermalReading)
  : ObservedState :=
  {| timestamp := timestamp o; cpu_loads := cpu_loads o; obs_frequencies := obs_frequencies o;
     thermal := f (thermal o) |}.
Definition with_timestamp (o : ObservedState) (t : MonotonicMillis) : ObservedState :=
  {| timestamp := t; cpu_loads := cpu_loads o; obs_frequencies := obs_frequencies o;
     thermal := thermal o |}.
Definition with_loads (o : ObservedState) (l : gmap CpuId f64) : ObservedState :=
  {| timestamp := timestamp o; cpu_loads := l; obs_frequencies := obs_frequencies o;
     thermal := thermal o |}.
Definition with_observed_frequencies (o : ObservedState) (f : gmap string ObservedFrequency)
  : ObservedState :=
  {| timestamp := timestamp o; cpu_loads := cpu_loads o; obs_frequencies := f;
     thermal := thermal o |}.

Definition unavailable (now : MonotonicMillis) : ThermalReading :=
  {| temperature := None; sampled_at := now; health := Unavailable |}.

(** One zone's reading recorded and shown to its guard; the guard's state. *)
Definition feed_zone (now : MonotonicMillis) (id : string) (reading : ThermalReading)
    (n : SensingState) : option ThermalState * SensingState :=
  let n := n <|sn_observed ::= (fun o => with_thermal o <[id := reading]>)|> in
  match sn_thermal_guards n !! id with
  | None => (None, n)
  | Some guard =>
      let guard := Thermal.update guard now reading in
      (Some (state guard), n <|sn_thermal_guards ::= <[id := guard]>|>)
  end.

Definition hotter (maximum : option MilliCelsius) (r : ThermalReading) : option MilliCelsius :=
  match health r, temperature r with
  | Healthy, Some t => Some (map_or maximum t (fun old => Z.max old t))
  | _, _ => maximum
  end.

Definition mark_all_thermal_unavailable (now : MonotonicMillis) : AM W unit :=
  c ← configuration;
  modify (fun s => s <|ra_sensing ::= (fun n =>
    foldl (fun n z => (feed_zone now (tz_id z) (unavailable now) n).2) n (rc_thermal_zones c))|>);;
  modify (fun s => s <|ra_sensing->sn_maximum_temperature := None|>
                     <|ra_sensing->sn_thermal_state := Degraded|>);;
  update_thermal_health.

Definition sample_of_zone (samples : list ThermalSample) (z : ThermalZoneConfig)
  : option ThermalSample :=
  List.find (fun sample =>
    bool_decide (ts_zone_type sample = tz_zone_type z)
    && match tz_sysfs_path z with
       | None => true
       | Some path => path_eqb path (ts_path sample)
       end) samples.

Definition sample_zone (now : MonotonicMillis) (samples : list ThermalSample)
    (acc : list ThermalState * option MilliCelsius * SensingState) (z : ThermalZoneConfig)
  : list ThermalState * option MilliCelsius * SensingState :=
  let '(states, maximum, n) := acc in
  let reading := map_or (sample_of_zone samples z) (unavailable now) ts_reading in
  let '(state, n) := feed_zone now (tz_id z) reading n in
  (states ++ option_list state, hotter maximum reading, n).

Definition adopt_thermal (r : list ThermalState * option MilliCelsius * SensingState) : AM W unit :=
  let '(states, maximum, n) := r in
  modify (fun s => s <|ra_sensing := n <|sn_maximum_temperature := maximum|>
                                       <|sn_thermal_state := worst_thermal_state states|> |>);;
  update_thermal_health;;
  update_thermal_caps.

Definition bump_telemetry : AM W unit :=
  modify (fun s => s <|ra_sensing->sn_telemetry_sequence ::= (fun n => sat_add n 1)|>).

Definition reduce_thermal (observation : sum text (list ThermalSample)) : AM W unit :=
  mark_decision_trigger "thermal-observer";;
  now ← clock;
  modify (fun s => s <|ra_sensing->sn_observed ::= (fun o => with_timestamp o now)|>);;
  match observation with
  | inl message =>
      insert_issue (issue "observer.thermal" "critical" "thermal" message);;
      mark_all_thermal_unavailable now;;
      update_thermal_caps;;
      evaluate_and_reconcile
  | inr samples =>
      remove_issue "observer.thermal";;
      c ← configuration;
      n ← gets ra_sensing;
      adopt_thermal (foldl (sample_zone now samples) ([], None, n) (rc_thermal_zones c));;
      bump_telemetry;;
      evaluate_and_reconcile
  end.

(** A healthy reading becomes stale with age, or when the clock moved back. *)
Definition stale_reading (now : MonotonicMillis) (z : ThermalZoneConfig) (r : ThermalReading)
  : ThermalReading :=
  if bool_decide (health r = Healthy)
     && ((now <? sampled_at r) || (tz_stale_after_ms z <? saturating_duration_since now (sampled_at r)))
  then {| temperature := temperature r; sampled_at := sampled_at r; health := Stale |}
  else r.

(** One zone of the staleness check: whether its reading became stale, and the
    zone fed to its guard. *)
Definition refresh_zone (now : MonotonicMillis)
    (acc : bool * (list ThermalState * option MilliCelsius * SensingState)) (z : ThermalZoneConfig)
  : bool * (list ThermalState * option MilliCelsius * SensingState) :=
  let '(changed, (states, maximum, n)) := acc in
  let recorded := unwrap_or (thermal (sn_observed n) !! tz_id z) (unavailable now) in
  let reading := stale_reading now z recorded in
  let '(state, n) := feed_zone now (tz_id z) reading n in
  (changed || negb (bool_decide (health reading = health recorded)),
   (states ++ option_list state, hotter maximum reading, n)).

Definition refresh_thermal_staleness (now : MonotonicMillis) : AM W bool :=
  c ← configuration;
  before ← gets ra_sensing;
  let '(reading_changed, r) := foldl (refresh_zone now) (false, ([], None, before)) (rc_thermal_zones c) in
  adopt_thermal r;;
  after ← gets (fun s => sn_thermal_state (ra_sensing s));
  mret (reading_changed || negb (bool_decide (after = sn_thermal_state before))).

(** ** Load *)

Context (exp : f64 -> f64).

Definition update_load_observer_cadence : AM W unit :=
  s ← gets (fun s => s);
  let maximum_load := foldl f64_max f64_zero
      (List.filter f64_is_finite (values (cpu_loads (sn_observed (ra_sensing s))))) in
  let '(sampler, interval_ms) := sampler_update (sn_adaptive_sampler (ra_sensing s)) maximum_load
      (pol_governor (rc_policy (cf_configuration (ra_config s)))) in
  modify (fun s => s <|ra_sensing->sn_adaptive_sampler := sampler|>
                     <|ra_config->cf_observer_settings->os_load_interval := interval_ms|>).

Definition deactivate_scene (scene : Scene) : AM W unit :=
  modify (fun s => s <|ra_interaction->ia_scenes ::= (fun h => (deactivate h scene).2)|>).
Definition activate_hint (h : Hint) : AM W unit :=
  modify (fun s => s <|ra_interaction->ia_scenes ::= (fun hs => activate hs h)|>).

Definition invalidate_load_state : AM W unit :=
  modify (fun s => s <|ra_sensing->sn_observed ::= (fun o => with_loads o ∅)|>
                     <|ra_sensing->sn_previous_cpu_times := None|>
                     <|ra_sensing->sn_heavy_load := HeavyLoadDetector_default|>
                     <|ra_sensing->sn_adaptive_sampler := SampleIdle|>);;
  update_load_observer_cadence;;
  deactivate_scene Boost;;
  bump_telemetry.

Definition loads_since (sample previous : CpuTimeSnapshot) : gmap CpuId f64 :=
  map_imap (fun cpu current =>
    old ← snapshot_cpus previous !! cpu;
    u ← utilization_since current old;
    Some (f64_clamp u f64_zero f64_one)) (snapshot_cpus sample).

(** The heavy load detector fed with the aggregate utilisation. *)
Definition update_heavy_load (sample previous : CpuTimeSnapshot) : AM W unit :=
  s ← gets (fun s => s);
  let config := pol_load (rc_policy (cf_configuration (ra_config s))) in
  let elapsed_ms := saturating_duration_since (observed_at sample) (observed_at previous) in
  if negb (load_enabled config)
  then
    deactivate_scene Boost;;
    modify (fun s => s <|ra_sensing->sn_heavy_load := HeavyLoadDetector_default|>)
  else
    match utilization_since (aggregate sample) (aggregate previous) with
    | None =>
        insert_issue (issue "observer.load_counters" "warning" "load"
          [PText "aggregate CPU counters moved backwards or had no elapsed time"]);;
        invalidate_load_state
    | Some utilization =>
        remove_issue "observer.load_counters";;
        match HeavyLoadDetector_update exp (sn_heavy_load (ra_sensing s))
                (f64_clamp utilization f64_zero f64_one) elapsed_ms (observed_at sample) config with
        | Ok detector =>
            modify (fun s => s <|ra_sensing->sn_heavy_load := detector|>);;
            match hstate detector with
            | Heavy => activate_hint (persistent Boost (observed_at sample))
            | HIdle => deactivate_scene Boost
            end
        | Err error =>
            insert_issue (issue "policy.heavy_load" "error" "policy" [PPolicy error])
        | Panic => crash
        end
    end.

Definition reduce_load (observation : sum text CpuTimeSnapshot) : AM W unit :=
  mark_decision_trigger "load-observer";;
  match observation with
  | inl message =>
      insert_issue (issue "observer.load" "error" "load" message);;
      invalidate_load_state;;
      evaluate_and_reconcile
  | inr sample =>
      remove_issue "observer.load";;
      remove_issue "observer.load_stale";;
      previous ← gets (fun s => sn_previous_cpu_times (ra_sensing s));
      modify (fun s => s <|ra_sensing->sn_last_load_success := Some (observed_at sample)|>
                         <|ra_sensing->sn_previous_cpu_times := Some sample|>
                         <|ra_sensing->sn_observed ::= (fun o => with_timestamp o (observed_at sample))|>);;
      match previous with
      | None => mret tt
      | Some previous =>
          modify (fun s => s <|ra_sensing->sn_observed ::= (fun o =>
                                 with_loads o (loads_since sample previous))|>);;
          update_load_observer_cadence;;
          update_heavy_load sample previous;;
          bump_telemetry;;
          evaluate_and_reconcile
      end
  end.

Definition refresh_load_staleness (now : MonotonicMillis) : AM W bool :=
  s ← gets (fun s => s);
  match sn_last_load_success (ra_sensing s) with
  | None => mret false
  | Some last =>
      let config := pol_load (rc_policy (cf_configuration (ra_config s))) in
      let stale_after_ms := Z.max (sat_mul (sample_interval_ms config) 5) 1000 in
      if (last <=? now) && (saturating_duration_since now last <=? stale_after_ms) then mret false
      else
        insert_issue (issue "observer.load_stale" "warning" "load"
          [PText "CPU load telemetry is stale; demand and persistent boost were cleared"]);;
        let changed := negb (bool_decide (cpu_loads (sn_observed (ra_sensing s)) = ∅))
                       || contains_active (ia_scenes (ra_interaction s)) Boost now in
        when changed invalidate_load_state;;
        mret changed
  end.

(** ** Frequency samples *)

Definition frequency_observations_stale (s : RuntimeActor W) (now : MonotonicMillis) : bool :=
  if decide (rc_targets (cf_configuration (ra_config s)) = ∅) then false
  else frequency_sample_is_stale (sn_last_frequency_success (ra_sensing s)) now.

Definition refresh_frequency_staleness (now : MonotonicMillis) : AM W unit :=
  stale ← gets (fun s => frequency_observations_stale s now);
  if stale : bool
  then insert_issue (issue "observer.frequency.stale" "warning" "frequency"
         [PText "frequency limit telemetry is stale; reported observations may no longer match the kernel"])
  else remove_issue "observer.frequency.stale".

Definition observer_error (kv : string * text) : AM W unit :=
  let code := ("observer.frequency." +:+ kv.1)%string in
  insert_issue (issue code "error" "frequency" kv.2).

Definition reduce_frequencies (observation : sum text FrequencyObservationBatch) : AM W unit :=
  mark_decision_trigger "frequency-observer";;
  modify (fun s => s <|ra_failures->fa_health_issues ::= without_prefix "observer.frequency."|>);;
  match observation with
  | inr batch =>
      (if decide (ob_readings batch = ∅) then mret tt
       else
         now ← clock;
         modify (fun s => s <|ra_sensing->sn_last_frequency_success := Some now|>));;
      afor (entries (ob_errors batch)) observer_error;;
      modify (fun s => s <|ra_sensing->sn_observed ::= (fun o =>
                             with_observed_frequencies o (ob_readings batch))|>);;
      observe_external_frequency_drift
  | inl message =>
      modify (fun s => s <|ra_sensing->sn_observed ::= (fun o => with_observed_frequencies o ∅)|>);;
      insert_issue (issue "observer.frequency.worker" "error" "frequency" message)
  end;;
  bump_telemetry;;
  evaluate_and_reconcile.

(** ** Health of the other observers *)

Definition observer_health (code severity component : string) (observation : sum text unit) : AM W unit :=
  match observation with
  | inr _ => remove_issue code
  | inl message => insert_issue (issue code severity component message)
  end.

Definition reduce_logind_health : sum text unit -> AM W unit :=
  observer_health "observer.logind" "error" "logind".
Definition reduce_input_health : sum text unit -> AM W unit :=
  observer_health "observer.input" "warning" "input".
Definition reduce_running_workload_observer_health : sum text unit -> AM W unit :=
  observer_health "observer.running_workloads.stale" "warning" "process-observer".
End observers.
