(* ===== verification/RuntimeInteraction.v ===== *)
(** * Interactions and the display ([uperf-daemon/src/runtime.rs])

    Touch contacts, the generation of the current interaction and the hints it
    owns, external hints, the session state, and the frame hints of an
    authorised compositor. *)

From coqutil Require Import Datatypes.RecordSetters.
From S2P Require Import Prelude Float64 Domain Text Scene Frequency Thermal Load ConfigTypes Validate ValidatePolicy Energy Governor Rules Engine Strings ActuatorTypes Scalars Targets Journal Ports DaemonTypes DecisionTrace Reconcile DaemonConfig RuntimeTypes RuntimeEval RuntimeObservers.

(** ** Touch contacts ([ActiveTouchContacts]) *)

Notation ActiveTouchContacts := (gset TouchContactId) (only parsing).

(** Whether it is the first active contact. *)
Definition press (c : ActiveTouchContacts) (contact : TouchContactId) : bool * ActiveTouchContacts :=
  let was_empty := bool_decide (c = ∅) in
  (negb (bool_decide (contact ∈ c)) && was_empty, {[contact]} ∪ c).

(** Whether a known contact was the last active one. *)
Definition release (c : ActiveTouchContacts) (contact : TouchContactId) : bool * ActiveTouchContacts :=
  let remaining := c ∖ {[contact]} in
  (bool_decide (contact ∈ c) && bool_decide (remaining = ∅), remaining).

(** The contacts of one device, or all, discarded: whether touch ended. *)
Definition resync (c : ActiveTouchContacts) (device : option Z) : bool * ActiveTouchContacts :=
  let had_contacts := negb (bool_decide (c = ∅)) in
  let remaining :=
    match device with
    | Some d => filter (fun contact => tc_device contact <> d) c
    | None => ∅
    end in
  (had_contacts && bool_decide (remaining = ∅), remaining).

Section interaction.
Context {W : Type} `{!Ports W} `{!Environment W} `{RegexEngine}.

(** ** Interaction hints *)

(** The interaction hints of a generation, or all, withdrawn. *)
Definition clear_interaction_hints (generation : option Z) : AM W bool :=
  s ← gets ra_interaction;
  let scenes := (List.filter (fun kv : Scene * Z => is_none_or generation (fun g => kv.2 =? g))
                   (map_to_list (ia_hints s))).*1 in
  let changed := existsb (fun scene => bool_decide (is_Some (ia_scenes s !! scene))) scenes in
  modify (fun s =>
    s <|ra_interaction->ia_hints ::= (fun m => foldl (fun m k => delete k m) m scenes)|>
      <|ra_interaction->ia_scenes ::= (fun h => foldl (fun h k => (deactivate h k).2) h scenes)|>);;
  mret changed.

(** No render cycle belongs to an interaction that has ended or begun anew. *)
Definition forget_render : AM W unit :=
  modify (fun s => s <|ra_interaction->ia_render_generation := None|>
                     <|ra_interaction->ia_render_idle_deadline := None|>
                     <|ra_interaction->ia_last_deadline_missed := None|>).

Definition begin_interaction : AM W unit :=
  _ ← clear_interaction_hints None;
  modify (fun s => s <|ra_interaction->ia_generation ::= (fun g => sat_add g 1)|>
                     <|ra_interaction->ia_ended := false|>);;
  forget_render.

(** How long an interaction scene lasts; zero is until it is withdrawn. *)
Definition interaction_duration (input : InputConfig) (scene : Scene) : option Z :=
  match scene with
  | Touch => Some 0
  | Trigger => Some (in_trigger_duration_ms input)
  | Gesture => Some (in_gesture_duration_ms input)
  | Junk => Some JUNK_HINT_DURATION_MS
  | _ => None
  end.

Definition hint_for (scene : Scene) (now : MonotonicMillis) (duration : Z) : Hint :=
  if duration =? 0 then persistent scene now else with_ttl scene now duration.

Definition activate_current_interaction_hint (scene : Scene) : AM W unit :=
  modify (fun s =>
    if ia_generation (ra_interaction s) =? 0 then s <|ra_interaction->ia_generation := 1|> else s);;
  now ← clock;
  c ← configuration;
  match interaction_duration (pol_input (rc_policy c)) scene with
  | None => crash
  | Some duration =>
      activate_hint (hint_for scene now duration);;
      modify (fun s => s <|ra_interaction->ia_hints ::= <[scene := ia_generation (ra_interaction s)]>|>)
  end.

Definition current_interaction_active (s : RuntimeActor W) (now : MonotonicMillis) : bool :=
  existsb (fun kv : Scene * Z =>
      (kv.2 =? ia_generation (ra_interaction s))
      && contains_active (ia_scenes (ra_interaction s)) kv.1 now)
    (map_to_list (ia_hints (ra_interaction s))).

Definition external_duration (input : InputConfig) (scene : Scene) : option Z :=
  match scene with
  | Junk => Some JUNK_HINT_DURATION_MS
  | Switch => Some (in_switch_duration_ms input)
  | Wake => Some (in_wake_duration_ms input)
  | Boost => Some 0
  | _ => None
  end.

Definition activate_external_hint (scene : Scene) : AM W unit :=
  match scene with
  | Touch | Trigger | Gesture =>
      begin_interaction;;
      activate_current_interaction_hint scene;;
      evaluate_and_reconcile
  | _ =>
      now ← clock;
      c ← configuration;
      match external_duration (pol_input (rc_policy c)) scene with
      | None => mret tt
      | Some duration =>
          activate_hint (hint_for scene now duration);;
          evaluate_and_reconcile
      end
  end.

Definition finish_render_idle_if_due (now : MonotonicMillis) : AM W bool :=
  s ← gets ra_interaction;
  match ia_render_idle_deadline s with
  | None => mret false
  | Some pending =>
      if now <? ri_deadline pending then mret false
      else
        forget_render;;
        if negb (ri_generation pending =? ia_generation s) then mret false
        else
          modify (fun s => s <|ra_interaction->ia_ended := true|>);;
          clear_interaction_hints (Some (ri_generation pending))
  end.

(** The end of a visible interaction: no hint, no render cycle. *)
Definition end_interaction : AM W unit :=
  forget_render;;
  modify (fun s => s <|ra_interaction->ia_ended := true|>);;
  _ ← clear_interaction_hints None;
  mret tt.

(** ** Input events *)

Definition withdraw_touch : AM W unit :=
  deactivate_scene Touch;;
  modify (fun s => s <|ra_interaction->ia_hints ::= delete Touch|>).

(** A change of the contacts, with its answer. *)
Definition change_contacts (f : ActiveTouchContacts -> bool * ActiveTouchContacts) : AM W bool :=
  s ← gets ra_interaction;
  let '(b, contacts) := f (ia_contacts s) in
  modify (fun s => s <|ra_interaction->ia_contacts := contacts|>);;
  mret b.

Definition reduce_input (event : InputEvent) : AM W unit :=
  match event with
  | TouchDown contact _ _ =>
      first ← change_contacts (fun c => press c contact);
      when first
        (begin_interaction;;
         activate_current_interaction_hint Touch;;
         evaluate_and_reconcile)
  | TouchUp contact _ _ =>
      last ← change_contacts (fun c => release c contact);
      when last
        (withdraw_touch;;
         ended ← gets (fun s => ia_ended (ra_interaction s));
         when (negb ended) (activate_current_interaction_hint Trigger);;
         evaluate_and_reconcile)
  | InGesture _ _ =>
      generation ← gets (fun s => ia_generation (ra_interaction s));
      when (generation =? 0) begin_interaction;;
      ended ← gets (fun s => ia_ended (ra_interaction s));
      when (negb ended)
        (activate_current_interaction_hint Gesture;;
         evaluate_and_reconcile)
  | Interaction _ =>
      begin_interaction;;
      activate_current_interaction_hint Trigger;;
      evaluate_and_reconcile
  | Resync device =>
      ended ← change_contacts (fun c => resync c device);
      when ended
        (withdraw_touch;;
         evaluate_and_reconcile)
  end.

Definition reduce_session_state (state : SessionState) : AM W unit :=
  s ← gets (fun s => s);
  if decide (state = co_session_state (ra_control s)) then mret tt
  else
    modify (fun s => s <|ra_control->co_session_state := state|>);;
    bump_generation;;
    match state with
    | SessionActive =>
        if negb (ia_display_blanked (ra_interaction s)) then activate_external_hint Wake
        else evaluate_and_reconcile
    | SessionIdle | SessionLocked =>
        end_interaction;;
        evaluate_and_reconcile
    end.

(** ** Frame hints *)

Definition authorize_frame_reporter (caller_uid : Z) (peer : option string) : AM W (rt_result unit) :=
  match peer with
  | None => mret (inl (ENotAuthorized [PText "frame hint reporter has no D-Bus peer identity"]))
  | Some peer =>
      now ← clock;
      s ← gets (fun s => s);
      let ttl := fc_lease_ttl_ms (sc_focus (pol_scheduler (rc_policy (cf_configuration (ra_config s))))) in
      let refused := inl (ENotAuthorized
            [PText "frame hints require a current compositor reporter lease"]) in
      match fs_frame_reporter_lease (ra_focus s) with
      | None => mret refused
      | Some lease =>
          if bool_decide (fr_peer lease = peer) && (now <? fr_expires_at lease)
             && ((caller_uid =? 0) || (fr_uid lease =? caller_uid))
          then
            modify (fun s => s <|ra_focus->fs_frame_reporter_lease := Some
              {| fr_peer := fr_peer lease; fr_uid := fr_uid lease;
                 fr_expires_at := saturating_add now ttl |}|>);;
            mret (inr tt)
          else mret refused
      end
  end.

Definition receipt_now (changed : list text) (message : string) : AM W (rt_result MutationReceipt) :=
  g ← generation; mret (inr (receipt g changed [PText message])).

Definition render_started (now : MonotonicMillis) : AM W (rt_result MutationReceipt) :=
  s ← gets (fun s => s);
  if ia_display_blanked (ra_interaction s) || negb (current_interaction_active s now)
  then receipt_now [] "render start ignored without a current visible interaction"
  else
    let g := ia_generation (ra_interaction s) in
    modify (fun s => s <|ra_interaction->ia_render_generation := Some g|>
                       <|ra_interaction->ia_render_idle_deadline := None|>);;
    receipt_now [[PText "render:"; PNum g]] "render generation started".

Definition render_idle (now : MonotonicMillis) : AM W (rt_result MutationReceipt) :=
  s ← gets (fun s => s);
  match ia_render_generation (ra_interaction s) with
  | None => receipt_now [] "render idle ignored without a render generation"
  | Some g =>
      if negb (g =? ia_generation (ra_interaction s)) || negb (current_interaction_active s now)
      then
        modify (fun s => s <|ra_interaction->ia_render_generation := None|>
                           <|ra_interaction->ia_render_idle_deadline := None|>);;
        receipt_now [] "stale render idle ignored"
      else
        modify (fun s => s <|ra_interaction->ia_render_idle_deadline := Some
          {| ri_generation := g; ri_deadline := saturating_add now RENDER_IDLE_SLACK_MS |}|>);;
        receipt_now [[PText "render-idle:"; PNum g]] "render idle slack scheduled"
  end.

Definition deadline_missed (now : MonotonicMillis) : AM W (rt_result MutationReceipt) :=
  s ← gets (fun s => s);
  match ia_render_generation (ra_interaction s) with
  | None => receipt_now [] "deadline miss ignored outside a render generation"
  | Some g =>
      if ia_display_blanked (ra_interaction s) || negb (g =? ia_generation (ra_interaction s))
         || negb (current_interaction_active s now)
      then receipt_now [] "stale deadline miss ignored"
      else if is_some_and (ia_last_deadline_missed (ra_interaction s)) (fun '(previous_generation, previous) =>
                (previous_generation =? g)
                && (saturating_duration_since now previous <? DEADLINE_MISS_RATE_LIMIT_MS))
      then receipt_now [] "deadline miss rate-limited"
      else
        modify (fun s => s <|ra_interaction->ia_last_deadline_missed := Some (g, now)|>);;
        activate_current_interaction_hint Junk;;
        evaluate_and_reconcile;;
        receipt_now [[PText "scene:junk:"; PNum g]] "deadline miss activated junk scene"
  end.

Definition blank_display : AM W (rt_result MutationReceipt) :=
  s ← gets ra_interaction;
  if ia_display_blanked s then receipt_now [] "display was already blanked"
  else
    modify (fun s => s <|ra_interaction->ia_display_blanked := true|>);;
    end_interaction;;
    bump_generation;;
    evaluate_and_reconcile;;
    receipt_now [[PText "display:blanked"]] "physical display blanked".

Definition unblank_display : AM W (rt_result MutationReceipt) :=
  s ← gets ra_interaction;
  if negb (ia_display_blanked s) then receipt_now [] "display was already visible"
  else
    modify (fun s => s <|ra_interaction->ia_display_blanked := false|>);;
    bump_generation;;
    activate_external_hint Wake;;
    receipt_now [[PText "display:visible"]] "physical display became visible".

Definition command_report_frame_hint (event : FrameHintEvent) (caller_uid : Z) (peer : option string)
  : AM W (rt_result MutationReceipt) :=
  r ← authorize_frame_reporter caller_uid peer;
  match r with
  | inl e => mret (inl e)
  | inr _ =>
      mark_decision_trigger "compositor-frame";;
      now ← clock;
      match event with
      | RenderStarted => render_started now
      | RenderIdle => render_idle now
      | DeadlineMissed => deadline_missed now
      | DisplayBlanked => blank_display
      | DisplayUnblanked => unblank_display
      end
  end.
End interaction.

(** * Focus, frame reporters and workloads ([uperf-daemon/src/runtime.rs])

    The compositor's focus and frame reporter leases, the single slot of a
    pending focus report, the identity reads that resolve a pid, and the
    explicit selection of a workload. *)

(** The thread that reads identities from procfs may fail to start, and its
    queue of one may be full or closed. *)
Class IdentityReader (W : Type) := {
  reader_spawn : W -> sum string unit * W;
  reader_try_send : Z -> W -> bool * bool * W;
}.

Section focus.
Context {W : Type} `{!Ports W} `{!Environment W} `{!IdentityReader W} `{RegexEngine}.

Definition on_world {X} (op : W -> X * W) : AM W X := fun s =>
  let '(x, w) := op (st_world (ra_sys s)) in
  (Some x,
   s <|ra_sys := {| st_rt := st_rt (ra_sys s); st_world := w; st_log := st_log (ra_sys s) |}|>).

(** ** Frame reporter leases *)

Definition reset_frame_reporter_state : AM W unit :=
  forget_render;;
  blanked ← gets (fun s => ia_display_blanked (ra_interaction s));
  when blanked
    (modify (fun s => s <|ra_interaction->ia_display_blanked := false|>);;
     bump_generation).

Definition install_frame_reporter (peer : option string) (uid : Z) (expires_at : MonotonicMillis)
  : AM W unit :=
  match peer with
  | None => mret tt
  | Some peer =>
      lease ← gets (fun s => fs_frame_reporter_lease (ra_focus s));
      let changed_owner := is_some_and lease (fun l =>
        negb (bool_decide (fr_peer l = peer)) || negb (fr_uid l =? uid)) in
      when changed_owner reset_frame_reporter_state;;
      modify (fun s => s <|ra_focus->fs_frame_reporter_lease := Some
        {| fr_peer := peer; fr_uid := uid; fr_expires_at := expires_at |}|>)
  end.

Definition revoke_frame_reporter (peer : option string) : AM W bool :=
  lease ← gets (fun s => fs_frame_reporter_lease (ra_focus s));
  let matches := is_some_and lease (fun l => is_none_or peer (fun p => bool_decide (fr_peer l = p))) in
  if negb matches then mret false
  else
    modify (fun s => s <|ra_focus->fs_frame_reporter_lease := None|>);;
    reset_frame_reporter_state;;
    mret true.

Definition expire_frame_reporter_lease (now : MonotonicMillis) : AM W bool :=
  lease ← gets (fun s => fs_frame_reporter_lease (ra_focus s));
  if is_some_and lease (fun l => fr_expires_at l <=? now) then revoke_frame_reporter None
  else mret false.

(** ** Focus leases *)

Definition advance_focus_report_revision : AM W Z :=
  modify (fun s => s <|ra_focus->fs_focus_report_revision ::= (fun n => sat_add n 1)|>);;
  gets (fun s => fs_focus_report_revision (ra_focus s)).

Definition invalidate_focus_reports : AM W unit :=
  _ ← advance_focus_report_revision;
  modify (fun s => s <|ra_focus->fs_pending_focus := None|>).

Definition release_focus_lease : AM W bool :=
  lease ← gets (fun s => fs_focus_lease (ra_focus s));
  match lease with
  | None => mret false
  | Some _ =>
      modify (fun s => s <|ra_focus->fs_focus_lease := None|>);;
      set_scheduler_dirty;;
      bump_generation;;
      evaluate_and_reconcile;;
      mret true
  end.

Definition expire_focus_lease (now : MonotonicMillis) : AM W bool :=
  lease ← gets (fun s => fs_focus_lease (ra_focus s));
  if is_some_and lease (fun l => fl_expires_at l <=? now)
  then
    modify (fun s => s <|ra_focus->fs_focus_lease := None|>);;
    set_scheduler_dirty;;
    bump_generation;;
    mret true
  else mret false.

Definition reject_focus (peer : option string) (message : text) : AM W unit :=
  insert_issue (issue FOCUS_REJECTED_ISSUE "info" "focus" message);;
  lease ← gets (fun s => fs_focus_lease (ra_focus s));
  when (is_some_and lease (fun l => bool_decide (fl_peer l = peer)))
    (_ ← revoke_frame_reporter peer;
     _ ← release_focus_lease;
     mret tt).

(** A caller may act on a process that is its own beyond doubt; root on any. *)
Definition caller_owns (caller_uid : Z) (p : ProcessInfo) : bool :=
  (caller_uid =? 0) || (owner_control_safe p && (uid (identity p) =? caller_uid)).

Definition complete_focus_report (p caller_uid : Z) (peer : option string) (revision : Z)
    (result : sum text ProcessInfo) : AM W unit :=
  s ← gets (fun s => s);
  let c := cf_configuration (ra_config s) in
  let focus := sc_focus (pol_scheduler (rc_policy c)) in
  if negb (revision =? fs_focus_report_revision (ra_focus s)) || negb (fc_enabled focus) then mret tt
  else
    match result with
    | inl error => reject_focus peer error
    | inr observed =>
        if negb (pid (identity observed) =? p)
        then reject_focus peer [PText "focused PID changed while its identity was resolved"]
        else if negb (caller_owns caller_uid observed)
        then reject_focus peer
               [PText "non-root reporters may only focus a process whose real/effective/saved/fs UIDs all equal their UID"]
        else if focus_protects (rc_policy_engine c) observed
        then reject_focus peer
               [PText "process "; PText (comm observed); PText " is protected from focus leasing"]
        else
          remove_issue FOCUS_REJECTED_ISSUE;;
          now ← clock;
          let expires_at := saturating_add now (fc_lease_ttl_ms focus) in
          let unchanged := is_some_and (fs_focus_lease (ra_focus s))
              (fun l => bool_decide (fl_info l = observed) && bool_decide (fl_peer l = peer)) in
          when (negb unchanged) reset_frame_reporter_state;;
          install_frame_reporter peer (uid (identity observed)) expires_at;;
          modify (fun s => s <|ra_focus->fs_focus_lease := Some
            {| fl_info := observed; fl_peer := peer; fl_expires_at := expires_at |}|>);;
          when (negb unchanged)
            (set_scheduler_dirty;;
             bump_generation;;
             evaluate_and_reconcile)
    end.

Definition complete_focus_refresh (expected : ProcessIdentity) (result : sum text ProcessInfo)
  : AM W unit :=
  s ← gets ra_focus;
  match fs_focus_lease s with
  | None => mret tt
  | Some lease =>
      if negb (bool_decide (identity (fl_info lease) = expected)) then mret tt
      else
        let gone := _ ← release_focus_lease; mret tt in
        match result with
        | inr current =>
            if negb (bool_decide (identity current = expected)) then gone
            else if decide (current = fl_info lease) then mret tt
            else
              modify (fun s => s <|ra_focus->fs_focus_lease := Some
                {| fl_info := current; fl_peer := fl_peer lease;
                   fl_expires_at := fl_expires_at lease |}|>);;
              set_scheduler_dirty;;
              bump_generation;;
              evaluate_and_reconcile
        | inl _ => gone
        end
  end.

(** ** The active workload *)

Definition select_workload (w : option ProcessInfo) (profile : option ProfileId) : AM W unit :=
  modify (fun s => s <|ra_control->co_active_workload := w|>
                     <|ra_control->co_requested_workload_profile := profile|>).

Definition complete_set_workload (p : Z) (requested_profile : option ProfileId) (caller_uid : Z)
    (observed : ProcessInfo) : AM W (rt_result MutationReceipt) :=
  s ← gets (fun s => s);
  if negb (caller_owns caller_uid observed)
  then mret (inl (ENotAuthorized
         [PText "non-root callers may only select a process whose real/effective/saved/fs UIDs all equal their UID"]))
  else
    let changed :=
      negb (bool_decide (identity <$> co_active_workload (ra_control s) = Some (identity observed)))
      || negb (bool_decide (co_requested_workload_profile (ra_control s) = requested_profile)) in
    if negb changed then receipt_now [] "workload was already active"
    else
      select_workload (Some observed) requested_profile;;
      remove_issue "workload.exited";;
      set_scheduler_dirty;;
      now ← clock;
      activate_hint (with_ttl Switch now
        (in_switch_duration_ms (pol_input (rc_policy (cf_configuration (ra_config s))))));;
      bump_generation;;
      evaluate_and_reconcile;;
      receipt_now [[PText "workload:"; PNum p]] "active workload selected".

Definition complete_clear_workload (expected : ProcessIdentity) (caller_uid : Z)
    (current : ProcessInfo) : AM W (rt_result MutationReceipt) :=
  s ← gets ra_control;
  match identity <$> co_active_workload s with
  | None =>
      mret (inl (EConflict
        [PText "active workload changed while its identity was being verified"]))
  | Some active =>
      if negb (bool_decide (active = expected)) || negb (bool_decide (identity current = expected))
      then mret (inl (EConflict [PText "active workload exited or its PID was reused"]))
      else if negb (caller_owns caller_uid current)
      then mret (inl (ENotAuthorized
             [PText "non-root callers may only clear a workload owned by their UID"]))
      else
        select_workload None None;;
        set_scheduler_dirty;;
        bump_generation;;
        evaluate_and_reconcile;;
        receipt_now [[PText "workload:"; PNum (pid active)]] "active workload cleared"
  end.

Definition clear_exited_workload : AM W unit :=
  select_workload None None;;
  set_scheduler_dirty;;
  bump_generation;;
  insert_issue (issue "workload.exited" "info" "workload"
    [PText "the active workload exited or its PID was reused"]);;
  evaluate_and_reconcile.

Definition complete_workload_refresh (expected : ProcessIdentity) (result : sum text ProcessInfo)
  : AM W unit :=
  s ← gets ra_control;
  match co_active_workload s with
  | None => mret tt
  | Some active =>
      if negb (bool_decide (identity active = expected)) then mret tt
      else
        match result with
        | inr current =>
            if negb (bool_decide (identity current = expected)) then clear_exited_workload
            else if decide (current = active) then mret tt
            else
              modify (fun s => s <|ra_control->co_active_workload := Some current|>);;
              set_scheduler_dirty;;
              bump_generation;;
              evaluate_and_reconcile
        | inl _ => clear_exited_workload
        end
  end.

(** ** Identity reads *)

Definition process_control_request_in_flight (s : RuntimeActor W) : bool :=
  is_some_and (id_in_flight (ra_identity s)) pif_is_control_request.

Definition ensure_process_identity_reader : AM W (sum text unit) :=
  started ← gets (fun s => id_reader (ra_identity s));
  if started : bool then mret (inr tt)
  else
    r ← on_world reader_spawn;
    match r with
    | inl error => mret (inl [PText "start workload identity reader thread: "; PText error])
    | inr _ =>
        modify (fun s => s <|ra_identity->id_reader := true|>);;
        mret (inr tt)
    end.

(** The identity of a process handed to the reader, or why it was not. *)
Definition send_identity_read (p : Z) : AM W (sum text unit) :=
  r ← ensure_process_identity_reader;
  match r with
  | inl error => mret (inl error)
  | inr _ =>
      '(sent, full) ← on_world (reader_try_send p);
      mret (if sent : bool then inr tt
            else if full : bool then inl [PText "workload identity reader queue is full"]
            else inl [PText "workload identity reader stopped"])
  end.

(** What an answered identity read does, but for the focus report that may
    have waited behind it. *)
Definition complete_process_identity (purpose : ProcessIdentityPurpose)
    (result : sum text ProcessInfo) : AM W unit :=
  match purpose with
  | PurposeSet p requested_profile caller_uid reply =>
      r ← match result with
          | inl e => mret (inl (ENotFound e))
          | inr observed => complete_set_workload p requested_profile caller_uid observed
          end;
      answer reply (ReReceipt r)
  | PurposeClear expected caller_uid reply =>
      r ← match result with
          | inl e => mret (inl (EConflict e))
          | inr current => complete_clear_workload expected caller_uid current
          end;
      answer reply (ReReceipt r)
  | PurposeRefresh expected => complete_workload_refresh expected result
  | PurposeFocus p caller_uid peer revision trigger_at =>
      modify (fun s => s <|ra_decision->de_trigger_source := "focus-report"|>
                         <|ra_decision->de_trigger_at := trigger_at|>);;
      complete_focus_report p caller_uid peer revision result
  | PurposeRefreshFocus expected => complete_focus_refresh expected result
  end.

(** A pending focus report whose time has come starts its read, unless another
    read is in flight. *)
Definition drive_pending_focus_with (start : Z -> ProcessIdentityPurpose -> AM W unit)
    (now : MonotonicMillis) : AM W unit :=
  s ← gets (fun s => s);
  match fs_pending_focus (ra_focus s) with
  | Some pending =>
      if bool_decide (is_Some (id_in_flight (ra_identity s))) || (now <? pf_not_before pending)
      then mret tt
      else
        modify (fun s => s <|ra_focus->fs_pending_focus := None|>);;
        start (pf_pid pending)
          (PurposeFocus (pf_pid pending) (pf_caller_uid pending) (pf_peer pending)
             (pf_focus_revision pending) (pf_trigger_at pending))
  | None => mret tt
  end.

Definition finish_process_identity_with (start : Z -> ProcessIdentityPurpose -> AM W unit)
    (outcome : ProcessIdentityOutcome) : AM W unit :=
  s ← gets (fun s => s);
  if negb (bool_decide (pif_id <$> id_in_flight (ra_identity s) = Some (pio_id outcome)))
  then mret tt
  else
    modify (fun s => s <|ra_identity->id_in_flight := None|>);;
    complete_process_identity (pio_purpose outcome) (pio_result outcome);;
    now ← clock;
    drive_pending_focus_with start now.

(** [start_process_identity_read], [finish_process_identity] and
    [drive_pending_focus] call each other: a read the reader refuses is finished
    at once, and a finished read lets the pending focus report start one. The
    slot of the pending report is emptied on the way, so two turns are all
    there are; [fuel] counts them. *)
Fixpoint start_process_identity_read_in (fuel : nat) (p : Z) (purpose : ProcessIdentityPurpose)
  : AM W unit :=
  match fuel with
  | O => crash
  | S fuel =>
      s ← gets (fun s => s);
      debug_assert (negb (process_control_request_in_flight s));;
      let id := sat_add (id_next (ra_identity s)) 1 in
      modify (fun s => s <|ra_identity->id_next := id|>
                         <|ra_identity->id_in_flight := Some
                            {| pif_id := id; pif_is_control_request := is_control_request purpose |}|>);;
      r ← send_identity_read p;
      match r with
      | inr _ =>
          modify (fun s => s <|ra_channels->ch_identity_reads ::= (fun l => l ++ [(id, p, purpose)])|>)
      | inl error =>
          finish_process_identity_with (start_process_identity_read_in fuel)
            {| pio_id := id; pio_purpose := purpose; pio_result := inl error |}
      end
  end.

Definition IDENTITY_FUEL : nat := 2.

Definition start_process_identity_read := start_process_identity_read_in IDENTITY_FUEL.
Definition drive_pending_focus := drive_pending_focus_with start_process_identity_read.
Definition finish_process_identity := finish_process_identity_with start_process_identity_read.

Definition check_workload_identity : AM W unit :=
  s ← gets (fun s => s);
  if bool_decide (is_Some (id_in_flight (ra_identity s)))
     || (if fs_pending_focus (ra_focus s) then true else false)
  then mret tt
  else
    match identity <$> co_active_workload (ra_control s) with
    | Some expected =>
        start_process_identity_read (pid expected) (PurposeRefresh expected)
    | None =>
        match (identity ∘ fl_info) <$> fs_focus_lease (ra_focus s) with
        | Some expected =>
            start_process_identity_read (pid expected) (PurposeRefreshFocus expected)
        | None => mret tt
        end
    end.

(** ** Commands *)

Definition refuse_receipt (reply : ReplyTo) (e : RuntimeError) : AM W unit :=
  answer reply (ReReceipt (inl e)).

Definition start_set_workload (request : WorkloadRequest) (caller_uid : Z) (reply : ReplyTo)
  : AM W unit :=
  if wr_pid request =? 0
  then refuse_receipt reply (EInvalidArgument [PText "workload PID must be non-zero"])
  else if 256 <? str_len (wr_reason request)
  then refuse_receipt reply (EInvalidArgument [PText "workload audit reason exceeds 256 bytes"])
  else
    match (if decide (wr_mode request = "") then inr None
           else match parse_profile (wr_mode request) with
                | inl e => inl e
                | inr p => inr (Some p)
                end) with
    | inl error => refuse_receipt reply error
    | inr requested_profile =>
        busy ← gets process_control_request_in_flight;
        if busy : bool then refuse_receipt reply (EConflict PROCESS_IDENTITY_IN_FLIGHT)
        else start_process_identity_read (wr_pid request)
               (PurposeSet (wr_pid request) requested_profile caller_uid reply)
    end.

Definition start_clear_workload (caller_uid : Z) (reply : ReplyTo) : AM W unit :=
  s ← gets (fun s => s);
  match identity <$> co_active_workload (ra_control s) with
  | None => r ← receipt_now [] "no workload was active"; answer reply (ReReceipt r)
  | Some active =>
      if process_control_request_in_flight s
      then refuse_receipt reply (EConflict PROCESS_IDENTITY_IN_FLIGHT)
      else start_process_identity_read (pid active) (PurposeClear active caller_uid reply)
  end.

Definition accept_focus_report (p : Z) (reason : string) (caller_uid : Z) (peer : option string)
  : AM W (rt_result MutationReceipt) :=
  if (p =? 0) || (p =? 1)
  then mret (inl (EInvalidArgument [PText "focused PID must be a real userspace process"]))
  else if FOCUS_REASON_LIMIT <? str_len reason
  then mret (inl (EInvalidArgument [PText "focus audit reason exceeds 256 bytes"]))
  else
    c ← configuration;
    let focus := sc_focus (pol_scheduler (rc_policy c)) in
    if negb (fc_enabled focus)
    then mret (inl (EDegraded [PText "focus-driven scheduling is disabled by configuration"]))
    else
      now ← clock;
      revision ← advance_focus_report_revision;
      lease ← gets (fun s => fs_focus_lease (ra_focus s));
      let report :=
        modify (fun s => s <|ra_focus->fs_pending_focus := Some
          {| pf_pid := p; pf_caller_uid := caller_uid; pf_peer := peer;
             pf_not_before := saturating_add now (fc_debounce_ms focus);
             pf_focus_revision := revision; pf_trigger_at := now |}|>);;
        drive_pending_focus now;;
        receipt_now [[PText "focus:"; PNum p]] "focus report accepted" in
      match lease with
      | Some l =>
          if (pid (identity (fl_info l)) =? p) && bool_decide (fl_peer l = peer)
          then
            let expires_at := saturating_add now (fc_lease_ttl_ms focus) in
            modify (fun s => s <|ra_focus->fs_focus_lease := Some
              {| fl_info := fl_info l; fl_peer := fl_peer l; fl_expires_at := expires_at |}|>);;
            install_frame_reporter (fl_peer l) (uid (identity (fl_info l))) expires_at;;
            modify (fun s => s <|ra_focus->fs_pending_focus := None|>);;
            receipt_now [] "focus lease renewed"
          else report
      | None => report
      end.

(** Whether a caller may clear the lease, or the report that still waits. *)
Definition may_clear_foreground (f : FocusState) (caller_uid : Z) : rt_result unit :=
  match fs_focus_lease f, fs_pending_focus f with
  | Some lease, _ =>
      if (caller_uid =? 0) || (uid (identity (fl_info lease)) =? caller_uid) then inr tt
      else inl (ENotAuthorized
             [PText "non-root callers may only clear a focus lease owned by their UID"])
  | None, Some pending =>
      if (caller_uid =? 0) || (pf_caller_uid pending =? caller_uid) then inr tt
      else inl (ENotAuthorized [PText "non-root callers may only clear their own focus report"])
  | None, None => inr tt
  end.

Definition command_clear_foreground_from_peer (caller_uid : Z) (peer : option string)
  : AM W (rt_result MutationReceipt) :=
  s ← gets (fun s => s);
  let f := ra_focus s in
  match may_clear_foreground f caller_uid with
  | inl e => mret (inl e)
  | inr _ =>
      let nothing := negb (if fs_focus_lease f then true else false)
                     && negb (if fs_pending_focus f then true else false) in
      if nothing && bool_decide (peer = None)
      then receipt_now [] "no focused process was reported"
      else
        let display_was_blanked := ia_display_blanked (ra_interaction s) in
        (if peer then
           now ← clock;
           let ttl := fc_lease_ttl_ms (sc_focus (pol_scheduler
                        (rc_policy (cf_configuration (ra_config s))))) in
           install_frame_reporter peer caller_uid (saturating_add now ttl)
         else mret tt);;
        if nothing
        then
          blanked ← gets (fun s => ia_display_blanked (ra_interaction s));
          when (display_was_blanked && negb blanked) evaluate_and_reconcile;;
          receipt_now [] "compositor reporter lease renewed without a focused process"
        else
          invalidate_focus_reports;;
          let focused := (fun l => pid (identity (fl_info l))) <$> fs_focus_lease f in
          released ← release_focus_lease;
          if negb released then receipt_now [] "pending focus report discarded"
          else receipt_now ((fun p => [PText "focus:"; PNum p]) <$> option_list focused)
                 "focused process cleared"
  end.

Definition forget_focus_peer (peer : string) : AM W unit :=
  s ← gets (fun s => s);
  let f := ra_focus s in
  when (is_some_and (fs_pending_focus f) (fun p => bool_decide (pf_peer p = Some peer)))
    invalidate_focus_reports;;
  let lease_matches := is_some_and (fs_focus_lease f) (fun l => bool_decide (fl_peer l = Some peer)) in
  let reporter_matches :=
    is_some_and (fs_frame_reporter_lease f) (fun l => bool_decide (fr_peer l = peer)) in
  when reporter_matches (_ ← revoke_frame_reporter (Some peer); mret tt);;
  if lease_matches then _ ← release_focus_lease; mret tt
  else when (reporter_matches && ia_display_blanked (ra_interaction s)) evaluate_and_reconcile.
End focus.
