(* ===== verification/Observers.v ===== *)
(** * The observers of the daemon ([uperf-daemon/src/observers.rs])

    The evdev thread, which opens a source, forwards its events and starts over
    when the settings change or the source fails; the deadline of the sleep
    barrier; and the state of the local session. What the thread does to its
    ingress is a class. *)

From coqutil Require Import Datatypes.RecordSetters.
From S2P Require Import Prelude Float64 Domain Strings ConfigTypes ActuatorTypes DaemonTypes Touch Evdev RuntimeTypes.

(** ** The sleep barrier's deadline, in nanoseconds *)

Definition MAX_RESTORE_TIMEOUT : Z := 10000000000.
Definition RESTORE_DEADLINE_MARGIN : Z := 250000000.

Definition restore_timeout (inhibit_delay_max_usec : Z) : string + Z :=
  if inhibit_delay_max_usec =? 0 then inl "logind reported a zero delay-inhibitor deadline"
  else
    let maximum := inhibit_delay_max_usec * 1000 in
    let margin := Z.min RESTORE_DEADLINE_MARGIN (maximum / 5) in
    inr (Z.max (Z.min (Z.max (maximum - margin) 0) MAX_RESTORE_TIMEOUT) 1000000).

(** ** The local session *)

(** A session's proxy and its properties, read one by one. *)
Record LogindSession := {
  ls_connect : string + unit;
  ls_active : string + bool;
  ls_remote : string + bool;
  ls_locked_hint : string + bool;
  ls_idle_hint : string + bool;
}.

Record SessionScan := { sn_found : bool; sn_any_locked : bool; sn_any_idle : bool }.

Definition prefix_error {A} (prefix : string) (r : string + A) : string + A :=
  match r with inl e => inl (prefix +:+ e) | inr a => inr a end.

Declare Scope session_scope.
#[local] Open Scope session_scope.
Notation "'try' x ':=' c 'in' k" := (match c with inl e => inl e | inr x => k end)
  (at level 200, x pattern, only parsing) : session_scope.

(** The loop over the sessions: [inr (Some _)] ends it. *)
Fixpoint scan_sessions (sessions : list LogindSession) (acc : SessionScan)
  : string + (SessionState + SessionScan) :=
  match sessions with
  | [] => inr (inr acc)
  | s :: sessions =>
      try _ := prefix_error "connect to session properties: " (ls_connect s) in
      try active := prefix_error "read session Active: " (ls_active s) in
      try remote := prefix_error "read session Remote: " (ls_remote s) in
      if negb active || remote then scan_sessions sessions acc
      else
        try locked := prefix_error "read session LockedHint: " (ls_locked_hint s) in
        try idle := prefix_error "read session IdleHint: " (ls_idle_hint s) in
        if negb locked && negb idle then inr (inl SessionActive)
        else scan_sessions sessions
               {| sn_found := true; sn_any_locked := sn_any_locked acc || locked;
                  sn_any_idle := sn_any_idle acc || idle |}
  end.

Definition active_local_session_state (sessions : string + list LogindSession)
  : string + option SessionState :=
  try sessions := prefix_error "list sessions: " sessions in
  try scan := scan_sessions sessions {| sn_found := false; sn_any_locked := false; sn_any_idle := false |} in
  inr (match scan with
       | inl state => Some state
       | inr acc =>
           if sn_any_locked acc then Some SessionLocked
           else if sn_any_idle acc then Some SessionIdle
           else if sn_found acc then Some SessionActive
           else None
       end).

(** ** The evdev thread *)

Inductive TrySend := TsSent | TsFull | TsClosed.

Class Ingress (W : Type) := {
  (** [mpsc::Sender::try_send] of the runtime channel *)
  try_send : InputEvent -> W -> TrySend * W;
  input_settings : W -> InputConfig * W;
  report_input_health : string + unit -> W -> W;
  (** the texts of a refused gesture configuration and of a platform error *)
  gesture_error : TouchConfigurationError -> string;
  platform_error : PlatformError -> string;
}.

Section observer.
Context {W : Type} `{!Evdev W} `{!Ingress W}.
Context (hypot : f64 -> f64 -> f64).

(** The source that is open, and what the thread has sent. *)
Record InputObserver := {
  io_source : option (EvdevInputSource (W := W));
  io_sent : list InputEvent;
}.

(** [send_input_with_backpressure]: it waits while the channel is full; [None]
    is still waiting after [fuel] attempts. *)
Fixpoint send_input_with_backpressure (fuel : nat) (event : InputEvent) (w : W) : option bool * W :=
  match fuel with
  | O => (None, w)
  | S fuel =>
      let '(c, w) := cancelled w in
      if c : bool then (Some false, w)
      else
        let '(r, w) := try_send event w in
        match r with
        | TsSent => (Some true, w)
        | TsClosed => (Some false, w)
        | TsFull => send_input_with_backpressure fuel event (evdev_sleep 1000000 w)
        end
  end.

(** [send_observed_input]: whether the thread goes on, and whether the event was
    sent. Activity may be dropped when the channel is full. *)
Definition send_observed_input (fuel : nat) (event : InputEvent) (w : W) : option (bool * bool) * W :=
  let '(c, w) := cancelled w in
  if c : bool then (Some (false, false), w)
  else
    match event with
    | Interaction _ =>
        let '(r, w) := try_send event w in
        (Some (match r with TsSent => (true, true) | TsFull => (true, false) | TsClosed => (false, false) end), w)
    | _ =>
        let '(r, w) := send_input_with_backpressure fuel event w in
        ((fun b : bool => (b, b)) <$> r, w)
    end.

Definition source_health (source : EvdevInputSource (W := W)) : string + unit :=
  if bool_decide (es_devices source = ∅)
  then
    inl (match entries (es_device_errors source) with
         | [] => "no supported keyboard, relative-pointer, or type-B multitouch device is available"
         | (path, error) :: _ => "cannot use " +:+ path +:+ ": " +:+ error
         end)
  else
    match entries (es_device_errors source) with
    | (path, error) :: _ =>
        inl ("input observation is partially degraded; " +:+ path +:+ ": " +:+ error)
    | [] => inr tt
    end.

(** [wait_for_input_change], up to [fuel] naps. *)
Fixpoint wait_for_input_change (fuel : nat) (started maximum : Z) (w : W) : W :=
  match fuel with
  | O => w
  | S fuel =>
      let '(c, w) := cancelled w in
      if c : bool then w
      else
        let '(changed, w) := interrupted w in
        if changed : bool then w
        else
          let '(now, w) := evdev_now w in
          if since now started <? maximum
          then wait_for_input_change fuel started maximum (evdev_sleep 50000000 w)
          else w
  end.

Definition wait_change (fuel : nat) (maximum : Z) (w : W) : W :=
  let '(started, w) := evdev_now w in
  wait_for_input_change fuel started maximum w.

(** [!cancelled] before the next pass over the settings. *)
Definition then_wait (fuel : nat) (w : W) : W :=
  let '(c, w) := cancelled w in
  if c : bool then w else wait_change fuel 1000000000 w.

(** The end of a session with the source: every contact is discarded. *)
Definition close_source (fuel : nat) (health : option (string + unit)) (sent : list InputEvent) (w : W)
  : option (bool * InputObserver) * W :=
  let '(r, w) := send_input_with_backpressure fuel (Resync None) w in
  match r with
  | None => (None, w)
  | Some false => (Some (false, {| io_source := None; io_sent := sent |}), w)
  | Some true =>
      let w := match health with Some h => report_input_health h w | None => w end in
      (Some (true, {| io_source := None; io_sent := sent ++ [Resync None] |}), then_wait fuel w)
  end.

(** One pass of the inner loop. *)
Definition forward_event (fuel : nat) (source : EvdevInputSource (W := W)) (sent : list InputEvent) (w : W)
  : option (bool * InputObserver) * W :=
  let '(outcome, (source, w)) := next_event_until_interrupt hypot fuel (source, w) in
  let w := report_input_health (source_health source) w in
  match outcome with
  | Panic | Ok (inr _) => (None, w)
  | Ok (inl (Some event)) =>
      let '(r, w) := send_observed_input fuel event w in
      ((fun '(continue, delivered) =>
          (continue : bool,
           {| io_source := Some source;
              io_sent := if delivered : bool then sent ++ [event] else sent |})) <$> r, w)
  | Ok (inl None) =>
      let '(c, w) := cancelled w in
      if c : bool then (Some (false, {| io_source := None; io_sent := sent |}), w)
      else close_source fuel None sent w
  | Err error => close_source fuel (Some (inl (platform_error error))) sent w
  end.

(** One pass of the outer loop, up to a source that is open. *)
Definition open_pass (fuel : nat) (sent : list InputEvent) (w : W) : option (bool * InputObserver) * W :=
  let idle := {| io_source := None; io_sent := sent |} in
  let '(c, w) := cancelled w in
  if c : bool then (Some (false, idle), w)
  else
    let '(configuration, w) := input_settings w in
    if negb (in_enabled configuration)
    then (Some (true, idle), wait_change fuel 100000000 (report_input_health (inr tt) w))
    else
      match from_input_config configuration with
      | Err e => (Some (true, idle), wait_change fuel 1000000000 (report_input_health (inl (gesture_error e)) w))
      | Panic => (None, w)
      | Ok gesture =>
          let '(r, w) := host_source gesture w in
          match r with
          | Ok source =>
              (Some (true, {| io_source := Some source; io_sent := sent |}),
               report_input_health (source_health source) w)
          | Err e => (Some (true, idle), then_wait fuel (report_input_health (inl (platform_error e)) w))
          | Panic => (None, w)
          end
      end.

(** One pass of the thread; [false] ends it. *)
Definition observer_pass (fuel : nat) (o : InputObserver) (w : W) : option (bool * InputObserver) * W :=
  match io_source o with
  | Some source => forward_event fuel source (io_sent o) w
  | None => open_pass fuel (io_sent o) w
  end.
End observer.
