(* ===== verification/InputFacts.v ===== *)
(** * No contact is held that no device holds

    Hotplug, read errors, dropped frames and rebuilds included, every contact
    the state owner believes in is one that an open device has announced and
    not ended. *)

From coqutil Require Import Datatypes.RecordSetters.
From stdpp Require Import gmultiset.
From S2P Require Import Prelude Float64 Domain ActuatorTypes Strings ConfigTypes DaemonTypes Touch Evdev TouchFacts RuntimeTypes RuntimeInteraction Observers.

(** ** What the state owner believes *)

(** The contacts of [reduce_input], after one event and after many. *)
Definition believe (contacts : gset TouchContactId) (event : InputEvent) : gset TouchContactId :=
  match event with
  | TouchDown c _ _ => (press contacts c).2
  | TouchUp c _ _ => (release contacts c).2
  | Resync device => (resync contacts device).2
  | InGesture _ _ | Interaction _ => contacts
  end.

Definition believed (contacts : gset TouchContactId) (events : list InputEvent) : gset TouchContactId :=
  foldl believe contacts events.

(** The contacts of [device] are among [X]. *)
Definition within (device : Z) (X : gmultiset Z) (contacts : gset TouchContactId) : Prop :=
  forall c, c ∈ contacts -> tc_device c = device -> tc_tracking_id c ∈ X.

(** Other devices gain nothing. *)
Definition spares (device : Z) (before after : gset TouchContactId) : Prop :=
  forall c, c ∈ after -> tc_device c <> device -> c ∈ before.

Lemma elem_of_difference_singleton (X : gmultiset Z) x y :
  x ∈ X -> x <> y -> x ∈ X ∖ {[+ y +]}.
Proof.
  rewrite !elem_of_multiplicity. intros Hx Hne. rewrite multiplicity_difference.
  rewrite multiplicity_singleton_ne by done. lia.
Qed.

Lemma believe_step device p event p' contacts :
  contact_step device p event = Some p' -> within device (open_contacts p) contacts ->
  within device (open_contacts p') (believe contacts event)
  /\ spares device contacts (believe contacts event).
Proof.
  unfold within, spares. destruct event as [c x y|c x y|c g|d|d]; simpl; intros Hs Hw; try case_decide as Hd; simplify_eq; simpl.
  - split; intros c' Hin%elem_of_union He; rewrite elem_of_singleton in Hin.
    + apply gmultiset_elem_of_disj_union. destruct Hin as [->|Hin]; [right|left; by apply Hw].
      by apply gmultiset_elem_of_singleton.
    + destruct Hin as [->|Hin]; [by destruct He|done].
  - destruct Hd as [Hd Hin]. split; intros c' [Hc' Hne]%elem_of_difference He; [|done].
    pose proof (Hw _ Hc' He). rewrite elem_of_singleton in Hne.
    assert (tc_tracking_id c' <> tc_tracking_id c).
    { intros Ht. apply Hne. destruct c, c'; simpl in *. congruence. }
    multiset_solver.
  - split; [|done]. intros c' Hc' He. by apply Hw.
  - split; intros c' [Hd Hc']%elem_of_filter He; [by destruct Hd|done].
Qed.

(** [events] of [device] take what is believed of it from within [X] to within
    [Y]. *)
Definition believable (device : Z) (X : gmultiset Z) (events : list InputEvent) (Y : gmultiset Z) : Prop :=
  forall contacts, within device X contacts ->
    within device Y (believed contacts events) /\ spares device contacts (believed contacts events).

Lemma takes_believable device X events Y : takes device X events Y -> believable device X events Y.
Proof.
  intros Ht contacts. destruct (Ht None) as [e He]. revert He. clear Ht.
  change X with (open_contacts {| open_contacts := X; just_ended := None |}) at 2.
  generalize {| open_contacts := X; just_ended := None |} as p. revert contacts.
  induction events as [|ev events IH]; intros contacts p; simpl.
  - intros [= ->] Hw. split; [exact Hw|]. by intros c.
  - destruct (contact_step device p ev) as [p'|] eqn:Hs; [|done]. simpl. intros Hr Hw.
    destruct (believe_step _ _ _ _ _ Hs Hw) as [Hw' Hsp].
    destruct (IH _ _ Hr Hw') as [Hw'' Hsp']. split; [done|].
    intros c Hc Hne. apply Hsp; [by apply Hsp'|done].
Qed.

Lemma believed_app contacts a b : believed contacts (a ++ b) = believed (believed contacts a) b.
Proof. apply foldl_app. Qed.

(** ** The machine of one device *)

(** While it waits for a report after a drop, a machine tracks nothing. *)
Definition machine_sound (m : TouchStateMachine) : Prop :=
  machine_ok m /\ (tm_desynchronized m = true -> begun m = ∅).

Lemma sound_new device axes config :
  machine_sound (TouchStateMachine_new device axes config)
  /\ begun (TouchStateMachine_new device axes config) = ∅.
Proof.
  destruct (empty_machine (TouchStateMachine_new device axes config)) as [Ho Hb]; [done..|].
  by repeat split.
Qed.

Section input.
Context (hypot : f64 -> f64 -> f64).

Lemma handle_desynchronized m event :
  event <> SyncDropped -> tm_desynchronized (touch_handle hypot m event).2 = true ->
  tm_desynchronized m = true /\ (touch_handle hypot m event).2 = m.
Proof.
  assert (Ht : forall id m, tm_desynchronized (handle_tracking_id id m) = tm_desynchronized m).
  { intros id m'. unfold handle_tracking_id, push_release, set_slot. by repeat case_match. }
  assert (Hu : forall x y m, tm_desynchronized (update_position hypot x y m) = tm_desynchronized m).
  { intros x y m'. unfold update_position, set_slot. by repeat case_match. }
  unfold touch_handle. destruct event, (tm_desynchronized m) eqn:Hd; simpl; rewrite ?Ht, ?Hu, ?Hd; intros Hne He;
    try done; try (by destruct Hne).
  all: by change (tm_desynchronized m = true) in He; rewrite Hd in He.
Qed.

Lemma touch_handle_sound m event :
  machine_sound m ->
  let out := touch_handle hypot m event in
  takes (tm_device_id m) (begun m) out.1 (begun out.2) /\ machine_sound out.2
  /\ tm_device_id out.2 = tm_device_id m.
Proof.
  intros [Hok Hl] out. destruct (touch_handle_takes hypot m event Hok) as (Ht & Ho & Hid).
  fold out in Ht, Ho, Hid. repeat split; [done|done| |done].
  intros Hd. assert (event = SyncDropped \/ event <> SyncDropped) as [->|Hne]
    by (destruct event; try (by right); by left).
  - by apply (empty_machine (reset_after_drop m)).
  - destruct (handle_desynchronized m event Hne Hd) as [Hd' E]. subst out. rewrite E. by apply Hl.
Qed.

(** The machine after the report that ends a drop, rebuilt from a snapshot. *)
Lemma rebuild_sound m id x y :
  let out := rebuild_single_slot hypot id x y m in
  begun m = ∅ ->
  takes (tm_device_id m) (begun m) out.1 (begun out.2) /\ machine_sound out.2
  /\ tm_device_id out.2 = tm_device_id m.
Proof.
  intros out Hb. destruct (rebuild_takes hypot id x y m) as (Ht & Ho & Hid). fold out in Ht, Ho, Hid.
  rewrite Hb. repeat split; [done|done| |done]. subst out. unfold rebuild_single_slot, commit_frame, set_slot.
  simpl. by destruct (tracking_of id).
Qed.

(** Everything one device does: its raw events, and a rebuild when the report
    after a drop has come. *)
Inductive touched (device : Z) (axes : TouchAxes) (config : GestureConfig)
  : list InputEvent -> TouchStateMachine -> Prop :=
| touched_new : touched device axes config [] (TouchStateMachine_new device axes config)
| touched_event out m event :
    touched device axes config out m ->
    touched device axes config (out ++ (touch_handle hypot m event).1) (touch_handle hypot m event).2
| touched_rebuild out m id x y :
    touched device axes config out m -> tm_desynchronized m = true ->
    let report := touch_handle hypot m SyncReport in
    let rebuilt := rebuild_single_slot hypot id x y report.2 in
    touched device axes config (out ++ report.1 ++ rebuilt.1) rebuilt.2.

Lemma touched_sound device axes config out m :
  touched device axes config out m ->
  takes device ∅ out (begun m) /\ machine_sound m /\ tm_device_id m = device.
Proof.
  induction 1 as [|out m event Hm (IHt & IHs & IHid)|out m id x y Hm (IHt & IHs & IHid) Hd report rebuilt].
  - destruct (sound_new device axes config) as [Hs ->]. by split; [apply takes_nil|].
  - destruct (touch_handle_sound m event IHs) as (Ht & Hs & Hid). rewrite IHid in *.
    split; [by eapply takes_app|done].
  - destruct (touch_handle_sound m SyncReport IHs) as (Ht & Hs & Hid). fold report in Ht, Hs, Hid.
    assert (Hb : begun report.2 = ∅).
    { subst report. unfold touch_handle. rewrite Hd. simpl. by apply IHs. }
    destruct (rebuild_sound report.2 id x y Hb) as (Ht' & Hs' & Hid').
    fold rebuilt in Ht', Hs', Hid'. rewrite Hid, IHid in *. split; [|done].
    eapply takes_app; [done|]. by eapply takes_app.
Qed.
End input.

(** ** The source *)

Section source.
Context {W : Type} `{!Evdev W}.
Context (hypot : f64 -> f64 -> f64).

(** An open device has announced the contact and not ended it. *)
Definition held (s : EvdevInputSource) (c : TouchContactId) : Prop :=
  exists path d m, es_devices s !! path = Some d /\ od_mode d = ModeTouch m
                   /\ tc_device c = od_device_id d /\ tc_tracking_id c ∈ begun m.

(** [contacts] is what the state owner believes before the pending events. *)
Record source_sound (contacts : gset TouchContactId) (s : EvdevInputSource) : Prop := {
  ss_device : forall path d, es_devices s !! path = Some d ->
    od_device_id d < es_next_device_id s
    /\ forall m, od_mode d = ModeTouch m -> machine_sound m /\ tm_device_id m = od_device_id d;
  ss_distinct : forall p q d e, es_devices s !! p = Some d -> es_devices s !! q = Some e ->
    od_device_id d = od_device_id e -> p = q;
  ss_known : forall path, is_Some (es_devices s !! path) -> is_Some (es_device_identities s !! path);
  ss_held : forall c, c ∈ believed contacts (es_pending s) -> held s c;
}.

(** *** One device moves *)

Lemma sound_device contacts s path d mode events Y :
  source_sound contacts s -> es_devices s !! path = Some d ->
  (forall m, mode = ModeTouch m -> machine_sound m /\ tm_device_id m = od_device_id d /\ begun m = Y) ->
  believable (od_device_id d) (match od_mode d with ModeTouch m => begun m | _ => ∅ end) events Y ->
  (exists m, mode = ModeTouch m) \/ Y = ∅ ->
  source_sound contacts
    (s <|es_devices ::= <[path := d <|od_mode := mode|>]>|> <|es_pending ::= (fun l => l ++ events)|>).
Proof.
  intros [H1 H2 H3 H4] Hd Hm Ht Hy. constructor; simpl.
  - intros p e He. destruct (decide (p = path)) as [->|Hne].
    + rewrite lookup_insert_eq in He. simplify_eq. simpl. destruct (H1 _ _ Hd) as [Hid _]. split; [done|].
      intros m Hmode. by destruct (Hm m Hmode) as (? & ? & _).
    + rewrite lookup_insert_ne in He by done. by apply H1 in He.
  - intros p q e f He Hf Hid.
    assert (Hold : forall p e, <[path := d <|od_mode := mode|>]> (es_devices s) !! p = Some e ->
      exists e0, es_devices s !! p = Some e0 /\ od_device_id e0 = od_device_id e).
    { intros p' e' He'. destruct (decide (p' = path)) as [->|Hne].
      - rewrite lookup_insert_eq in He'. simplify_eq. eauto.
      - rewrite lookup_insert_ne in He' by done. eauto. }
    destruct (Hold _ _ He) as (e0 & He0 & Ei). destruct (Hold _ _ Hf) as (f0 & Hf0 & Fi).
    apply (H2 p q e0 f0); congruence.
  - intros p Hp. destruct (decide (p = path)) as [->|Hne]; [apply H3; eauto|].
    rewrite lookup_insert_ne in Hp by done. by apply H3.
  - intros c Hc. rewrite believed_app in Hc.
    assert (Hw : within (od_device_id d) (match od_mode d with ModeTouch m => begun m | _ => ∅ end)
                   (believed contacts (es_pending s))).
    { intros c' Hc' Hid. destruct (H4 c' Hc') as (p & e & m & He & Hmode & Hide & Hin).
      assert (p = path) as -> by (apply (H2 p path e d); congruence). simplify_eq. by rewrite Hmode. }
    destruct (Ht _ Hw) as [Hw' Hsp].
    destruct (decide (tc_device c = od_device_id d)) as [Hid|Hid].
    + specialize (Hw' c Hc Hid). destruct Hy as [[m ->]| ->]; [|by apply gmultiset_not_elem_of_empty in Hw'].
      destruct (Hm m eq_refl) as (_ & _ & <-).
      exists path, (d <|od_mode := ModeTouch m|>), m. simpl. rewrite lookup_insert_eq. done.
    + destruct (H4 c (Hsp c Hc Hid)) as (p & e & m & He & Hmode & Hide & Hin).
      exists p, e, m. simpl. rewrite lookup_insert_ne; [done|]. intros ->. simplify_eq.
Qed.

(** A device leaves. *)
Lemma sound_drop contacts s path d :
  source_sound contacts s -> es_devices s !! path = Some d ->
  source_sound contacts
    (s <|es_devices ::= delete path|>
       <|es_pending ::= (fun l => l ++ if is_touch d then [Resync (Some (od_device_id d))] else [])|>).
Proof.
  intros [H1 H2 H3 H4] Hd. constructor; simpl.
  - intros p e [_ He]%lookup_delete_Some. by apply H1 in He.
  - intros p q e f [_ He]%lookup_delete_Some [_ Hf]%lookup_delete_Some. by apply H2.
  - intros p [e [_ He]%lookup_delete_Some]. apply H3. eauto.
  - intros c Hc. rewrite believed_app in Hc.
    assert (Hc' : c ∈ believed contacts (es_pending s) /\ (is_touch d = true -> tc_device c <> od_device_id d)).
    { destruct (is_touch d); [|by split]. simpl in Hc. apply elem_of_filter in Hc as [Hne Hc]. by split. }
    destruct Hc' as [Hc' Hne]. destruct (H4 c Hc') as (p & e & m & He & Hmode & Hide & Hin).
    exists p, e, m. split; [|done]. simpl. apply lookup_delete_Some. split; [|done].
    intros <-. simplify_eq. apply Hne; [|done]. unfold is_touch. by rewrite Hmode.
Qed.

(** A device arrives with an identity of its own. *)
Lemma sound_adopt contacts s path identity d :
  source_sound contacts s -> es_devices s !! path = None ->
  od_device_id d = es_next_device_id s ->
  (forall m, od_mode d = ModeTouch m ->
     exists axes config, m = TouchStateMachine_new (od_device_id d) axes config) ->
  source_sound contacts
    (s <|es_next_device_id ::= (fun n => n + 1)|> <|es_devices ::= <[path := d]>|>
       <|es_device_identities ::= <[path := identity]>|> <|es_device_errors ::= delete path|>).
Proof.
  intros [H1 H2 H3 H4] Hp Hid Hnew. constructor; simpl.
  - intros p e He. apply lookup_insert_Some in He as [[<- <-]|[Hne He]].
    + split; [change (od_device_id d < es_next_device_id s + 1); lia|]. intros m Hm. destruct (Hnew m Hm) as (axes & config & ->).
      split; [apply sound_new|done].
    + destruct (H1 _ _ He) as [Hlt Hm].
      split; [change (od_device_id e < es_next_device_id s + 1); lia|done].
  - intros p q e f He Hf. apply lookup_insert_Some in He as [[<- <-]|[Hne He]];
      apply lookup_insert_Some in Hf as [[<- <-]|[Hne' Hf]]; intros Hsame.
    + done.
    + destruct (H1 _ _ Hf). exfalso. lia.
    + destruct (H1 _ _ He). exfalso. lia.
    + by apply (H2 p q e f).
  - intros p Hi. destruct (decide (path = p)) as [->|Hne]; [rewrite lookup_insert_eq; eauto|].
    rewrite lookup_insert_ne in Hi by done. rewrite lookup_insert_ne by done. by apply H3.
  - intros c Hc. destruct (H4 c Hc) as (p & e & m & He & Hrest). exists p, e, m. simpl.
    rewrite lookup_insert_ne by congruence. done.
Qed.

(** Nothing the soundness is about changes. *)
Lemma sound_other contacts s s' :
  source_sound contacts s -> es_devices s' = es_devices s -> es_pending s' = es_pending s ->
  es_next_device_id s' = es_next_device_id s ->
  (forall path, is_Some (es_devices s !! path) -> is_Some (es_device_identities s' !! path)) ->
  source_sound contacts s'.
Proof.
  intros [H1 H2 H3 H4] Hd Hp Hn Hk. constructor; unfold held; rewrite ?Hd, ?Hp, ?Hn; auto.
Qed.

(** *** Programs *)

Definition keeps {E A} (m : SM (W := W) E A) : Prop :=
  forall contacts s w, source_sound contacts s -> source_sound contacts (m (s, w)).2.1.

(** A program that only asks the world. *)
Definition asks {E A} (m : SM (W := W) E A) : Prop := forall s w, (m (s, w)).2.1 = s.

Lemma keeps_asks {E A} (m : SM E A) : asks m -> keeps m.
Proof. intros Hm contacts s w. by rewrite Hm. Qed.

Lemma sm_keeps_bind {E A B} (m : SM E A) (k : A -> SM E B) :
  keeps m -> (forall a, keeps (k a)) -> keeps (m ≫= k).
Proof.
  intros Hm Hk contacts s w Hs. specialize (Hm contacts s w Hs). unfold mbind, SM_bind.
  destruct (m (s, w)) as [[a|e|] [s' w']]; [by apply Hk|done|done].
Qed.

(** The state that is read is the state the rest starts from. *)
Lemma sm_keeps_get {E A B} (f : EvdevInputSource -> A) (k : A -> SM E B) :
  (forall contacts s w, source_sound contacts s -> source_sound contacts (k (f s) (s, w)).2.1) ->
  keeps (sm_get f ≫= k).
Proof. intros Hk contacts s w Hs. by apply Hk. Qed.

Lemma asks_bind {E A B} (m : SM E A) (k : A -> SM E B) :
  asks m -> (forall a, asks (k a)) -> asks (m ≫= k).
Proof.
  intros Hm Hk s w. specialize (Hm s w). unfold mbind, SM_bind.
  destruct (m (s, w)) as [[a|e|] [s' w']]; simpl in *; subst; [apply Hk|done|done].
Qed.

Lemma asks_ret {E A} (a : A) : asks (mret a : SM E A). Proof. done. Qed.
Lemma asks_fail {E A} (e : E) : asks (sm_fail e : SM E A). Proof. done. Qed.
Lemma asks_panic {E A} : asks (sm_panic : SM E A). Proof. done. Qed.
Lemma asks_get {E A} f : asks (sm_get f : SM E A). Proof. done. Qed.
Lemma asks_world {E A} (f : W -> A * W) : asks (sm_world f : SM E A).
Proof. intros s w. unfold sm_world. simpl. by destruct (f w). Qed.
Lemma asks_call {E A} (f : W -> (E + A) * W) : asks (sm_call f).
Proof. intros s w. unfold sm_call. simpl. by destruct (f w) as [[] ?]. Qed.
Lemma asks_instant_add {E} t d : asks (instant_add t d : SM E Z).
Proof. unfold instant_add. by case_match. Qed.

Lemma sm_keeps_attempt {E F A} (m : SM E A) : keeps m -> keeps (sm_attempt m : SM F (E + A)).
Proof.
  intros Hm contacts s w Hs. specialize (Hm contacts s w Hs). unfold sm_attempt.
  by destruct (m (s, w)) as [[a|e|] s'].
Qed.
Lemma asks_attempt {E F A} (m : SM E A) : asks m -> asks (sm_attempt m : SM F (E + A)).
Proof.
  intros Hm s w. specialize (Hm s w). unfold sm_attempt. by destruct (m (s, w)) as [[a|e|] s'].
Qed.
Lemma keeps_when {E} b (m : SM E unit) : keeps m -> keeps (sm_when b m).
Proof. intros Hm. destruct b; [exact Hm|apply keeps_asks, asks_ret]. Qed.
Lemma keeps_each {E A} (f : A -> SM E unit) l : (forall x, keeps (f x)) -> keeps (sm_each f l).
Proof. intros Hf. induction l as [|x l IH]; simpl.
  - apply keeps_asks, asks_ret.
  - apply sm_keeps_bind; [apply Hf|intros _; exact IH].
Qed.

Lemma keeps_modify {E} f :
  (forall s, es_devices (f s) = es_devices s /\ es_pending (f s) = es_pending s
             /\ es_next_device_id (f s) = es_next_device_id s
             /\ es_device_identities (f s) = es_device_identities s) ->
  keeps (sm_modify f : SM E unit).
Proof.
  intros Hf contacts s w Hs. simpl. destruct (Hf s) as (Hd & Hp & Hn & Hi).
  apply (sound_other _ s); [done..|]. rewrite Hi. apply Hs.
Qed.
End source.

Create HintDb keeps discriminated.
#[export] Hint Resolve sm_keeps_bind sm_keeps_attempt keeps_when keeps_each keeps_asks asks_bind asks_ret asks_fail
  asks_panic asks_get asks_world asks_call asks_instant_add asks_attempt : keeps.

Section operations.
Context {W : Type} `{!Evdev W}.
Context (hypot : f64 -> f64 -> f64).

(** *** Opening *)

Lemma asks_touch_axes device : asks (touch_axes (W := W) device).
Proof.
  unfold touch_axes. destruct (supported_absolute_axes device) as [l|]; [|apply asks_ret].
  destruct (negb _); [apply asks_ret|]. apply asks_bind; [apply asks_call|]. intros info.
  destruct (foldl _ _ _) as [[x y] slots]. apply asks_ret.
Qed.

Lemma asks_open path id config : asks (open_input_device (W := W) path id config).
Proof.
  unfold open_input_device. apply asks_bind; [apply asks_call|]. intros device.
  apply asks_bind; [apply asks_touch_axes|]. intros axes. case_match; apply asks_ret.
Qed.

(** An opened device has the identity it was given and a fresh machine. *)
Lemma open_fresh path id config s w d :
  (open_input_device (W := W) path id config (s, w)).1 = Ok (Some d) ->
  od_device_id d = id
  /\ forall m, od_mode d = ModeTouch m ->
       exists axes config, m = TouchStateMachine_new (od_device_id d) axes config.
Proof.
  unfold open_input_device, mbind at 1, SM_bind at 1.
  destruct (sm_call (open_raw path) (s, w)) as [[device|e|] s1]; [|done|done].
  unfold mbind, SM_bind. destruct (touch_axes device s1) as [[axes|e|] s2]; [|done|done].
  destruct (observed_device_kind _ _) as [kind|]; [|done]. intros [= <-]. simpl. split; [done|].
  destruct kind; intros m [= <-]; eauto.
Qed.

(** *** At one state *)

(** The outcome and the source [m] leaves from [s] satisfy [Q]. *)
Definition leaves {E A} (m : SM (W := W) E A) (Q : res A E -> EvdevInputSource -> Prop) (s : EvdevInputSource)
  : Prop := forall w, Q (m (s, w)).1 (m (s, w)).2.1.

Lemma leaves_bind {E A B} (m : SM E A) (k : A -> SM E B) Q s :
  leaves m (fun r s' => match r with
                        | Ok a => leaves (k a) Q s'
                        | Err e => Q (Err e) s'
                        | Panic => Q Panic s'
                        end) s ->
  leaves (m ≫= k) Q s.
Proof.
  intros Hm w. specialize (Hm w). unfold mbind, SM_bind.
  destruct (m (s, w)) as [[a|e|] [s' w']]; [apply Hm|exact Hm|exact Hm].
Qed.

Lemma leaves_asks {E A} (m : SM E A) (Q : res A E -> EvdevInputSource -> Prop) s :
  asks m -> (forall r, Q r s) -> leaves m Q s.
Proof. intros Hm HQ w. rewrite Hm. apply HQ. Qed.

Lemma leaves_mono {E A} (m : SM E A) (Q R : res A E -> EvdevInputSource -> Prop) s :
  leaves m Q s -> (forall r s', Q r s' -> R r s') -> leaves m R s.
Proof. intros Hm HQ w. apply HQ, Hm. Qed.

Lemma keeps_leaves {E A} (m : SM E A) :
  keeps m <-> forall contacts s, source_sound contacts s -> leaves m (fun _ => source_sound contacts) s.
Proof. split; intros Hm contacts s; [intros Hs w; by apply Hm|intros w Hs; by apply Hm]. Qed.

Lemma leaves_get {E A B} (f : EvdevInputSource -> A) (k : A -> SM E B) Q s :
  leaves (k (f s)) Q s -> leaves (sm_get f ≫= k) Q s.
Proof. done. Qed.
Lemma leaves_modify {E A} f (k : SM E A) Q s :
  leaves k Q (f s) -> leaves (sm_modify f;; k) Q s.
Proof. done. Qed.
Lemma leaves_ask {E A B} (m : SM E A) (k : A -> SM E B) contacts s :
  asks m -> source_sound contacts s -> (forall a, leaves (k a) (fun _ => source_sound contacts) s) ->
  leaves (m ≫= k) (fun _ => source_sound contacts) s.
Proof. intros Hm Hs Hk. apply leaves_bind, leaves_asks; [done|]. by intros [a|e|]. Qed.

(** *** Reading *)

Lemma set_mode_emit {E A} path d mode events Y (k : SM E A) Q s contacts :
  source_sound contacts s -> es_devices s !! path = Some d ->
  (forall m, mode = ModeTouch m -> machine_sound m /\ tm_device_id m = od_device_id d /\ begun m = Y) ->
  believable (od_device_id d) (match od_mode d with ModeTouch m => begun m | _ => ∅ end) events Y ->
  (exists m, mode = ModeTouch m) \/ Y = ∅ ->
  (forall s', source_sound contacts s' -> es_devices s' !! path = Some (d <|od_mode := mode|>) ->
     leaves k Q s') ->
  leaves (set_mode path d mode;; emit events;; k) Q s.
Proof.
  intros Hs Hd Hm Ht Hy Hk w. apply Hk; [by eapply sound_device|]. simpl. by rewrite lookup_insert_eq.
Qed.

Lemma asks_snapshot device axes : asks (single_slot_kernel_snapshot (W := W) device axes).
Proof.
  unfold single_slot_kernel_snapshot. destruct (negb _); [apply asks_ret|].
  apply asks_bind; [apply asks_call|]. intros info. repeat case_match; auto with keeps.
Qed.

Lemma set_mode_again path d mode mode' :
  set_mode (W := W) (E := IoError) path (d <|od_mode := mode|>) mode' = set_mode path d mode'.
Proof. done. Qed.

Lemma interaction_believable device m e now :
  believable device ∅ (option_list (interaction_handle m e now).1) ∅.
Proof.
  assert (Hq : forall out, (interaction_handle m e now).1 = Some out -> exists d, out = Interaction d).
  { intros out. unfold interaction_handle. repeat case_match; simpl; intros; simplify_eq; eauto. }
  intros contacts Hw. destruct (interaction_handle m e now).1 as [out|]; [|split; [exact Hw|by intros c]].
  destruct (Hq out eq_refl) as [d ->]. split; [exact Hw|by intros c].
Qed.

Lemma read_touch_event_sound path d m event contacts s :
  source_sound contacts s -> es_devices s !! path = Some d -> od_mode d = ModeTouch m ->
  leaves (read_touch_event hypot path d m event) (fun _ => source_sound contacts) s.
Proof.
  intros Hs Hd Hmode. destruct (ss_device _ _ Hs _ _ Hd) as [_ Hm]. destruct (Hm m Hmode) as [Hsound Hid].
  destruct (touch_handle_sound hypot m event Hsound) as (Ht & Hs1 & Hid1). unfold read_touch_event.
  destruct (touch_handle hypot m event) as [events m1] eqn:Hout. simpl in Ht, Hs1, Hid1.
  eapply (set_mode_emit path d (ModeTouch m1) events (begun m1)); [done|done| | |eauto|].
  { intros ? [= <-]. split; [done|]. split; [congruence|done]. }
  { rewrite Hmode, <- Hid. by apply takes_believable. }
  intros s1 Hs1' Hd1. case_match eqn:Hrebuild; [|by apply leaves_asks].
  assert (Hb : begun m1 = ∅ /\ tm_device_id m1 = od_device_id d).
  { split; [|congruence]. apply andb_true_iff in Hrebuild as [[Hl He]%andb_true_iff _].
    destruct event; try done. unfold touch_handle in Hout. rewrite Hl in Hout. injection Hout as <- <-.
    by apply Hsound. }
  destruct Hb as [Hb Hid2]. apply leaves_bind. apply leaves_asks; [apply asks_snapshot|].
  intros [[[[t x] y]|]|e|]; [|by apply leaves_asks|done|done].
  destruct (rebuild_sound hypot m1 t x y Hb) as (Ht2 & Hs2 & Hid3).
  destruct (rebuild_single_slot hypot t x y m1) as [events2 m2]. simpl in Ht2, Hs2, Hid3.
  rewrite <- (set_mode_again path d (ModeTouch m1)). rewrite Hid2 in Ht2.
  intros w. apply (sound_device contacts s1 path (d <|od_mode := ModeTouch m1|>) (ModeTouch m2) events2 (begun m2));
    [done|done| |by apply takes_believable|eauto].
  intros ? [= <-]. split; [done|]. split; [|done]. change (tm_device_id m2 = od_device_id d). congruence.
Qed.

Lemma keeps_read_event path event : keeps (read_event hypot path event).
Proof.
  apply sm_keeps_get. intros contacts s w Hs. destruct (es_devices s !! path) as [d|] eqn:Hd; [|done].
  destruct (od_mode d) as [m|m] eqn:Hmode.
  - destruct (map_touch_event event) as [e|]; [|done]. by apply read_touch_event_sound.
  - destruct (map_interaction_event event) as [e|]; [|done]. revert w.
    apply (leaves_bind _ _ (fun _ => source_sound contacts)), leaves_asks; [apply asks_world|].
    intros [now|?|]; [|done|done]. destruct (interaction_handle m e now) as [out m1] eqn:Hout.
    intros w. apply (sound_device contacts s path d (ModeInteraction m1) (option_list out) ∅);
      [done|done|done| |by right].
    rewrite Hmode. pose proof (interaction_believable (od_device_id d) m e now) as Hb.
    by rewrite Hout in Hb.
Qed.

Lemma keeps_read_available path : keeps (read_available hypot path).
Proof.
  apply sm_keeps_get. intros contacts s w Hs. destruct (es_devices s !! path) as [d|]; [|done].
  revert contacts s w Hs. apply sm_keeps_bind; [auto with keeps|]. intros events.
  apply keeps_each, keeps_read_event.
Qed.

(** *** Leaving *)

Lemma drop_device_sound {E} path contacts s :
  source_sound contacts s ->
  leaves (drop_device (E := E) path)
    (fun _ s' => source_sound contacts s' /\ es_devices s' = delete path (es_devices s)
                 /\ es_device_identities s' = es_device_identities s) s.
Proof.
  intros Hs. apply leaves_get. destruct (es_devices s !! path) as [d|] eqn:Hd.
  - apply leaves_modify. pose proof (sound_drop _ _ _ _ Hs Hd) as Hdrop.
    destruct (is_touch d); intros w; [done|]. split; [|done].
    apply (sound_other _ _ _ Hdrop); [done| |done|apply Hdrop]. symmetry. apply app_nil_r.
  - intros w. split; [done|]. split; [|done]. symmetry. by apply delete_id.
Qed.

Lemma keeps_drop_device {E} path : keeps (drop_device (E := E) path).
Proof. apply keeps_leaves. intros contacts s Hs w. by apply drop_device_sound. Qed.

(** Forgetting the identity of a node whose device has left. *)
Lemma sound_forget_identity contacts s path :
  source_sound contacts s -> es_devices s !! path = None ->
  source_sound contacts (s <|es_device_identities ::= delete path|>).
Proof.
  intros Hs Hn. apply (sound_other _ s); [done..|]. intros p Hp. simpl.
  rewrite lookup_delete_ne; [by apply Hs|]. intros <-. rewrite Hn in Hp. by destruct Hp.
Qed.

Lemma keeps_forget_node path : keeps (forget_node (E := PlatformError) path).
Proof.
  apply keeps_leaves. intros contacts s Hs. apply leaves_bind.
  eapply leaves_mono; [by apply drop_device_sound|]. intros r s' (Hs' & Hd & Hi).
  destruct r; try done. intros w. simpl.
  assert (Hn : es_devices s' !! path = None) by (rewrite Hd; apply lookup_delete_eq).
  eapply sound_other; [exact (sound_forget_identity _ _ _ Hs' Hn)|done..|].
  apply (sound_forget_identity _ _ _ Hs' Hn).
Qed.

Lemma keeps_disconnect path : keeps (disconnect path).
Proof.
  apply keeps_leaves. intros contacts s Hs. apply leaves_bind.
  eapply leaves_mono; [by apply drop_device_sound|]. intros r s' (Hs' & Hd & Hi).
  destruct r; try done. apply leaves_get. destruct (es_device_identities s' !! path); [|by intros w].
  assert (Hn : es_devices s' !! path = None) by (rewrite Hd; apply lookup_delete_eq).
  pose proof (sound_forget_identity _ _ _ Hs' Hn) as Hf. apply leaves_modify.
  apply leaves_ask; [apply asks_world|done|]. intros now.
  apply leaves_ask; [apply asks_instant_add|done|]. intros retry_at w.
  eapply sound_other; [exact Hf|done..|apply Hf].
Qed.

(** *** Arriving *)

Lemma keeps_fail_node path identity message retry_at delay :
  keeps (fail_node (E := PlatformError) path identity message retry_at delay).
Proof. by apply keeps_modify. Qed.

Lemma try_node_sound now path identity contacts s :
  source_sound contacts s -> es_devices s !! path = None ->
  leaves (try_node now path identity) (fun _ => source_sound contacts) s.
Proof.
  intros Hs Hn. apply leaves_get, leaves_modify.
  set (s1 := s <|es_failed_nodes ::= delete path|>).
  assert (Hs1 : source_sound contacts s1) by (apply (sound_other _ s); [done..|apply Hs]).
  case_match.
  { destruct (es_failed_nodes s !! path) as [f|]; intros w; [|done].
    apply (sound_other _ s1); [done..|apply Hs1]. }
  apply leaves_bind. intros w. unfold sm_attempt.
  pose proof (asks_open path (es_next_device_id s) (es_config s) s1 w) as Hask.
  pose proof (fun d => open_fresh path (es_next_device_id s) (es_config s) s1 w d) as Hfresh.
  destruct (open_input_device path _ _ (s1, w)) as [[device|e|] [s2 w']]; simpl in Hask; subst s2; [| |done].
  - unfold adopt_device. destruct device as [d|].
    + destruct (Hfresh d eq_refl) as [Hid Hnew]. apply leaves_get.
      destruct (u64_max <=? _); intros w2; [done|].
      apply sound_adopt; [done|done|by rewrite Hid|exact Hnew].
    + intros w2. apply (sound_other _ s1); [done..|apply Hs1].
  - apply leaves_ask; [apply asks_instant_add|done|]. intros retry_at w2.
    by apply keeps_fail_node.
Qed.

(** A node that changed its identity: the device is dropped first. *)
Lemma replace_node_sound path contacts s :
  source_sound contacts s ->
  leaves (sm_modify (E := PlatformError) (fun s => s <|es_device_identities ::= delete path|>);; drop_device path)
    (fun _ s' => source_sound contacts s' /\ es_devices s' !! path = None) s.
Proof.
  intros Hs. apply leaves_modify, leaves_get.
  change (es_devices (s <|es_device_identities ::= delete path|>)) with (es_devices s).
  destruct (es_devices s !! path) as [d|] eqn:Hd.
  - apply leaves_modify. pose proof (sound_drop _ _ _ _ Hs Hd) as Hdrop.
    pose proof (sound_forget_identity _ _ path Hdrop (lookup_delete_eq _ _)) as Hf.
    destruct (is_touch d); intros w; (split; [|apply lookup_delete_eq]); [exact Hf|].
    apply (sound_other _ _ _ Hf); [done| |done|apply Hf]. symmetry. apply app_nil_r.
  - intros w. split; [by apply sound_forget_identity|done].
Qed.

Lemma keeps_refresh_node now node : keeps (refresh_node now node).
Proof.
  destruct node as [path identity]. apply keeps_leaves. intros contacts s Hs. apply leaves_get.
  destruct (bool_decide (_ = Some identity)); [by intros w|]. apply leaves_bind.
  assert (Hrest : forall s, source_sound contacts s -> es_devices s !! path = None ->
    leaves (s ← sm_get (fun s => s);
            if bool_decide (es_ignored_nodes s !! path = Some identity) then mret tt
            else sm_modify (fun s => s <|es_ignored_nodes ::= delete path|>);; try_node now path identity)
      (fun _ => source_sound contacts) s).
  { intros s1 Hs1 Hn. apply leaves_get. destruct (bool_decide _); [by intros w|]. apply leaves_modify.
    apply try_node_sound; [|done]. apply (sound_other _ s1); [done..|apply Hs1]. }
  destruct (bool_decide (is_Some _)) eqn:Hid.
  - eapply leaves_mono; [by apply replace_node_sound|]. intros [[]|e|] s' [Hs' Hn]; [|done|done].
    by apply Hrest.
  - intros w. apply Hrest; [done|]. apply bool_decide_eq_false in Hid.
    apply eq_None_not_Some. intros Hd. by apply Hid, Hs.
Qed.

Lemma asks_discover root : asks (discover_event_nodes (W := W) root).
Proof.
  unfold discover_event_nodes. apply asks_bind; [apply asks_world|]. intros [e|entries]; [|done].
  by case_match.
Qed.

Lemma keeps_refresh_devices : keeps (refresh_devices (W := W)).
Proof.
  apply sm_keeps_bind; [auto with keeps|]. intros root.
  apply sm_keeps_bind; [apply keeps_asks, asks_discover|]. intros discovered.
  apply sm_keeps_bind; [auto with keeps|]. intros s0.
  apply sm_keeps_bind; [apply keeps_each, keeps_forget_node|]. intros _.
  apply sm_keeps_bind; [auto with keeps|]. intros now.
  apply sm_keeps_bind; [apply keeps_each, keeps_refresh_node|]. intros _.
  apply sm_keeps_bind; [auto with keeps|]. intros next_scan. by apply keeps_modify.
Qed.

(** *** Polling *)

Lemma keeps_poll_device path : keeps (poll_device hypot path).
Proof.
  apply sm_keeps_bind; [apply sm_keeps_attempt, keeps_read_available|]. intros [e|u].
  - case_match; [auto with keeps|]. apply sm_keeps_bind; [by apply keeps_modify|auto with keeps].
  - apply sm_keeps_bind; [by apply keeps_modify|auto with keeps].
Qed.

Lemma keeps_poll_paths paths : keeps (poll_paths hypot paths).
Proof.
  induction paths as [|path paths IH]; simpl; [auto with keeps|].
  apply sm_keeps_bind; [apply keeps_poll_device|]. intros lost.
  apply sm_keeps_bind; [exact IH|]. auto with keeps.
Qed.

Lemma keeps_poll_devices : keeps (poll_devices hypot).
Proof.
  apply sm_keeps_bind; [auto with keeps|]. intros before.
  apply sm_keeps_bind; [apply keeps_poll_paths|]. intros disconnected.
  apply sm_keeps_bind; [|intros _; auto with keeps]. apply keeps_when.
  apply sm_keeps_bind; [apply keeps_each, keeps_disconnect|]. intros _.
  apply sm_keeps_bind; [auto with keeps|]. intros now.
  apply sm_keeps_bind; [auto with keeps|]. intros s.
  apply sm_keeps_bind; [auto with keeps|]. intros next_scan. by apply keeps_modify.
Qed.

(** *** Waiting *)

(** After an event is handed over, the state owner believes it too. *)
Definition handed (contacts : gset TouchContactId) (event : option InputEvent) : gset TouchContactId :=
  match event with Some e => believe contacts e | None => contacts end.

(** What holds of a result and of the source it leaves. *)
Definition yields {E A} (m : SM (W := W) E A) (P : A -> EvdevInputSource -> Prop) (s : EvdevInputSource) : Prop :=
  leaves m (fun r s' => match r with Ok a => P a s' | _ => True end) s.

Lemma sm_yields_ret {E A} (a : A) (P : A -> EvdevInputSource -> Prop) s : P a s -> yields (E := E) (mret a) P s.
Proof. intros Hp w. exact Hp. Qed.

Lemma sm_yields_bind {E A B} (m : SM E A) (k : A -> SM E B) P s :
  yields m (fun a s' => yields (k a) P s') s -> yields (m ≫= k) P s.
Proof.
  intros Hm. apply leaves_bind. eapply leaves_mono; [exact Hm|]. by intros [a|e|] s' Hs'.
Qed.

Lemma yields_keeps {E A B} (m : SM E A) (k : A -> SM E B) P contacts s :
  keeps m -> source_sound contacts s ->
  (forall a s', source_sound contacts s' -> yields (k a) P s') -> yields (m ≫= k) P s.
Proof.
  intros Hm Hs Hk. apply sm_yields_bind. intros w. specialize (Hm contacts s w Hs).
  destruct (m (s, w)) as [[a|e|] [s' w']]; [by apply Hk|done|done].
Qed.

Lemma yields_asks {E A B} (m : SM E A) (k : A -> SM E B) P s :
  asks m -> (forall a, yields (k a) P s) -> yields (m ≫= k) P s.
Proof. intros Hm Hk. apply sm_yields_bind, leaves_asks; [done|]. intros [a|e|]; [apply Hk|done|done]. Qed.

Lemma yields_mono {E A} (m : SM E A) (P Q : A -> EvdevInputSource -> Prop) s :
  yields m P s -> (forall a s', P a s' -> Q a s') -> yields m Q s.
Proof. intros Hm HQ. eapply leaves_mono; [exact Hm|]. intros [a|e|] s' Hp; [by apply HQ|done|done]. Qed.

Definition hands (contacts : gset TouchContactId) (event : option InputEvent) (s : EvdevInputSource) : Prop :=
  source_sound (handed contacts event) s.

Lemma pop_hands contacts s : source_sound contacts s -> yields (pop_pending (W := W)) (hands contacts) s.
Proof.
  intros Hs. apply leaves_get. destruct (es_pending s) as [|event rest] eqn:Hp; intros w; [exact Hs|].
  destruct Hs as [H1 H2 H3 H4]. constructor; [exact H1|exact H2|exact H3|].
  intros c Hc. apply H4. by rewrite Hp.
Qed.

Lemma then_pop {A} (k : option InputEvent -> SM PlatformError A) P contacts s :
  source_sound contacts s -> (forall event s', hands contacts event s' -> yields (k event) P s') ->
  yields (pop_pending ≫= k) P s.
Proof.
  intros Hs Hk. apply sm_yields_bind. eapply yields_mono; [by apply pop_hands|]. apply Hk.
Qed.

Definition passes (contacts : gset TouchContactId) (r : option InputEvent + Z) (s : EvdevInputSource) : Prop :=
  match r with inl event => hands contacts event s | inr _ => source_sound contacts s end.

Lemma wait_pass_sound idle contacts s :
  source_sound contacts s -> yields (wait_pass hypot idle) (passes contacts) s.
Proof.
  intros Hs. apply yields_asks; [apply asks_world|]. intros c.
  apply yields_asks; [destruct c; [apply asks_ret|apply asks_world]|]. intros [|]; [by apply sm_yields_ret|].
  apply (then_pop _ _ contacts); [done|]. intros [event|] s1 Hs1; [by apply sm_yields_ret|].
  apply yields_asks; [apply asks_world|]. intros now.
  apply yields_asks; [apply asks_get|]. intros next_scan.
  assert (Hscan : yields (if next_scan <=? now then refresh_devices;; pop_pending else mret None)
                    (hands contacts) s1).
  { destruct (next_scan <=? now); [|by apply sm_yields_ret].
    apply (yields_keeps _ _ _ contacts); [apply keeps_refresh_devices|done|]. intros _ s2. apply pop_hands. }
  apply sm_yields_bind. eapply yields_mono; [exact Hscan|]. intros [event|] s2 Hs2; [by apply sm_yields_ret|].
  apply (yields_keeps _ _ _ contacts); [apply keeps_poll_devices|done|]. intros active s3 Hs3.
  apply yields_asks; [apply asks_get|]. intros poll_interval.
  apply (then_pop _ _ contacts); [done|]. intros [event|] s4 Hs4; [by apply sm_yields_ret|].
  apply yields_asks; [apply asks_world|]. intros now2.
  apply yields_asks; [apply asks_get|]. intros s5.
  apply yields_asks; [apply asks_world|]. intros _. by apply sm_yields_ret.
Qed.

Definition answers (contacts : gset TouchContactId) (r : option InputEvent + unit) (s : EvdevInputSource)
  : Prop := match r with inl event => hands contacts event s | inr _ => source_sound contacts s end.

Lemma next_event_sound fuel contacts s :
  source_sound contacts s -> yields (next_event_until_interrupt hypot fuel) (answers contacts) s.
Proof.
  intros Hs. apply yields_asks; [apply asks_get|]. intros idle. revert idle s Hs.
  induction fuel as [|fuel IH]; intros idle s Hs; simpl; [by apply sm_yields_ret|].
  apply sm_yields_bind. eapply yields_mono; [by apply wait_pass_sound|].
  intros [event|idle'] s' Hs'; [by apply sm_yields_ret|by apply IH].
Qed.

Lemma empty_source_sound root config poll scan now :
  source_sound ∅ (empty_source (W := W) root config poll scan now).
Proof. constructor; simpl; try done. by intros path [d Hd]. Qed.

(** A source that has just been opened: what it found is discarded, and nothing
    is held. *)
Lemma with_intervals_sound root config poll scan w s w' :
  with_intervals root config poll scan w = (Ok s, w') -> source_sound ∅ s.
Proof.
  unfold with_intervals. destruct (evdev_now w) as [now w1].
  pose proof (keeps_refresh_devices ∅ _ w1 (empty_source_sound root config poll scan now)) as Hk.
  destruct (refresh_devices _) as [[u|e|] [s1 w2]]; intros [= <- <-]. destruct Hk as [H1 H2 H3 _].
  constructor; [exact H1|exact H2|exact H3|]. intros c Hc. by apply elem_of_empty in Hc.
Qed.
End operations.

(** ** The evdev thread *)

Section thread.
Context {W : Type} `{!Evdev W} `{!Ingress W}.
Context (hypot : f64 -> f64 -> f64).

(** Every contact the state owner believes in after what was sent is held by
    the source; without a source there is none. *)
Definition observer_sound (o : InputObserver (W := W)) : Prop :=
  match io_source o with
  | Some s => source_sound (believed ∅ (io_sent o)) s
  | None => believed ∅ (io_sent o) = ∅
  end.

Lemma believed_snoc sent event : believed ∅ (sent ++ [event]) = believe (believed ∅ sent) event.
Proof. by rewrite believed_app. Qed.

Lemma close_source_sound fuel health sent w o w' :
  close_source fuel health sent w = (Some (true, o), w') -> observer_sound o.
Proof.
  unfold close_source. destruct (send_input_with_backpressure _ _ _) as [[[|]|] w1]; intros [= <- <-].
  unfold observer_sound. simpl. rewrite believed_snoc. done.
Qed.

(** A source with nothing to believe yet may take over. *)
Lemma open_pass_sound fuel sent w o w' :
  open_pass fuel sent w = (Some (true, o), w') -> believed ∅ sent = ∅ -> observer_sound o.
Proof.
  unfold open_pass. intros Hp Hb.
  destruct (cancelled w) as [[|] w1]; [done|]. destruct (input_settings w1) as [conf w2].
  destruct (negb _); [by injection Hp as <- <-|].
  destruct (from_input_config conf) as [g|e|]; [|by injection Hp as <- <-|done].
  destruct (host_source g w2) as [[s|e|] w3] eqn:Hs; [|by injection Hp as <- <-|done].
  injection Hp as <- <-. unfold observer_sound. simpl. rewrite Hb. by eapply with_intervals_sound.
Qed.

Lemma forward_event_sound fuel source sent w o w' :
  forward_event hypot fuel source sent w = (Some (true, o), w') ->
  source_sound (believed ∅ sent) source -> observer_sound o.
Proof.
  unfold forward_event. intros Hp Hs. pose proof (next_event_sound hypot fuel _ _ Hs w) as Hn.
  destruct (next_event_until_interrupt hypot fuel (source, w)) as [outcome [s1 w1]]. simpl in Hn.
  destruct outcome as [[[event|]|]|e|]; try done.
  - unfold send_observed_input in Hp. destruct (cancelled _) as [[|] w2]; [done|].
    assert (Hsent : forall b : bool, b = true -> observer_sound {| io_source := Some s1; io_sent := if b then sent ++ [event] else sent |}).
    { intros b ->. unfold observer_sound. simpl. by rewrite believed_snoc. }
    assert (Hother : forall w3 r, ((fun '(continue, delivered) =>
        (continue : bool, {| io_source := Some s1; io_sent := if delivered : bool then sent ++ [event] else sent |}))
          <$> ((fun b : bool => (b, b)) <$> r), w3) = (Some (true, o), w') -> observer_sound o).
    { intros w3 [b|]; [|done]. intros [= -> <- <-]. exact (Hsent true eq_refl). }
    destruct event; try (destruct (send_input_with_backpressure _ _ _) as [r w3]; by eapply Hother).
    destruct (try_send _ w2) as [[| |] w3]; [| |done]; injection Hp as <- <-; [exact (Hsent true eq_refl)|].
    unfold observer_sound. simpl. exact Hn.
  - destruct (cancelled _) as [[|] w2]; [done|]. by eapply close_source_sound.
  - by eapply close_source_sound.
Qed.

Lemma observer_pass_sound fuel o w o' w' :
  observer_pass hypot fuel o w = (Some (true, o'), w') -> observer_sound o -> observer_sound o'.
Proof.
  unfold observer_pass, observer_sound at 1. destruct (io_source o) as [s|].
  - apply forward_event_sound.
  - apply open_pass_sound.
Qed.

(** Runs of the thread while it goes on; the world may change between passes. *)
Inductive observing (fuel : nat) : InputObserver (W := W) -> Prop :=
| observing_start : observing fuel {| io_source := None; io_sent := [] |}
| observing_pass o w o' w' :
    observing fuel o -> observer_pass hypot fuel o w = (Some (true, o'), w') -> observing fuel o'.

Lemma observing_sound fuel o : observing fuel o -> observer_sound o.
Proof. induction 1; [done|by eapply observer_pass_sound]. Qed.
End thread.
