(* ===== verification/InputTheorems.v ===== *)
(** * From raw input events to what the state owner believes

    The end-to-end statements about input, and a touchscreen to instantiate
    them: it is touched, and unplugged under the finger. *)

From coqutil Require Import Datatypes.RecordSetters.
From Stdlib Require Import Sorted.
From stdpp Require Import gmultiset.
From S2P Require Import Prelude Float64 Domain ConfigTypes ActuatorTypes Strings DaemonTypes Touch Evdev TouchFacts RuntimeTypes RuntimeInteraction Observers InputFacts.

Section touch.
Context (hypot : f64 -> f64 -> f64).

(** C25: What a touch device emits is a history of contacts, whatever raw events
    it sends, with dropped frames and rebuilds: a contact ends only after it
    has begun, once, a gesture is reported only for the contact that has just
    ended, and the contacts still open are exactly those the machine tracks. *)
Theorem touch_history device axes config out m :
  touched hypot device axes config out m ->
  exists p, contact_run device no_contacts out = Some p /\ open_contacts p = begun m.
Proof.
  intros Ht. destruct (touched_sound _ _ _ _ _ _ Ht) as (Hout & _ & _).
  destruct (Hout None) as [e He]. exists {| open_contacts := begun m; just_ended := e |}. by split.
Qed.

(** C26: No contact is stuck: after everything the input thread has sent, with
    hotplug, read errors, restarts and settings changes, every contact the
    state owner believes in is one that a device, open now, has announced and
    not ended, unless its end is already queued; without a source there is
    none. *)
Theorem no_stuck_contact {W : Type} `{!Evdev W} `{!Ingress W} fuel (o : InputObserver (W := W)) c :
  observing hypot fuel o -> c ∈ believed ∅ (io_sent o) ->
  exists s, io_source o = Some s /\ (held s c \/ c ∉ believed ∅ (io_sent o ++ es_pending s)).
Proof.
  intros Ho%observing_sound Hc. unfold observer_sound in Ho. destruct (io_source o) as [s|].
  - exists s. split; [done|]. rewrite believed_app.
    destruct (decide (c ∈ believed (believed ∅ (io_sent o)) (es_pending s))) as [Hin|Hout]; [|by right].
    left. by apply Ho.
  - rewrite Ho in Hc. by apply elem_of_empty in Hc.
Qed.
End touch.

(** ** Activity *)

Fixpoint interaction_run (m : InteractionStateMachine) (events : list (RawInteractionEvent * Z))
  : list Z :=
  match events with
  | [] => []
  | (event, now) :: events =>
      let '(out, m) := interaction_handle m event now in
      (if out then [now] else []) ++ interaction_run m events
  end.

Definition spaced (interval a b : Z) : Prop := a + interval <= b.

(** A machine whose clock does not go back. *)
Definition timely (m : InteractionStateMachine) (events : list (RawInteractionEvent * Z)) : Prop :=
  StronglySorted Z.le events.*2
  /\ forall last, im_last_emitted m = Some last -> Forall (fun t => last <= t) events.*2.

(** What an event leaves, and when one is passed on. *)
Lemma interaction_passed m event now out m' :
  interaction_handle m event now = (out, m') ->
  im_coalesce_interval m' = im_coalesce_interval m
  /\ match out with
     | None => im_last_emitted m' = im_last_emitted m
     | Some _ => im_last_emitted m' = Some now
         /\ forall last, im_last_emitted m = Some last -> im_coalesce_interval m <= since now last
     end.
Proof.
  destruct m as [device pending last interval]. destruct event as [code v|axis v| |]; simpl.
  1-2: case_match; by intros [= <- <-].
  - destruct (negb pending || _) eqn:Hq; intros [= <- <-]; simpl; [done|]. repeat split; [done..|].
    intros t ->. apply orb_false_iff in Hq as [_ Hq]. by apply Z.ltb_ge in Hq.
  - by intros [= <- <-].
Qed.

Lemma interaction_run_spaced m events :
  0 <= im_coalesce_interval m -> timely m events ->
  StronglySorted (spaced (im_coalesce_interval m)) (interaction_run m events)
  /\ forall last, im_last_emitted m = Some last ->
       Forall (spaced (im_coalesce_interval m) last) (interaction_run m events).
Proof.
  revert m. induction events as [|[event now] events IH]; intros m Hi [Hs Hl]; simpl; [by repeat constructor|].
  apply StronglySorted_inv in Hs as [Hs Hn].
  assert (Hlast : forall last, im_last_emitted m = Some last -> last <= now /\ Forall (fun t => last <= t) events.*2).
  { intros last E. specialize (Hl last E). by apply Forall_cons in Hl. }
  assert (Hsame : forall m', im_last_emitted m' = im_last_emitted m ->
            im_coalesce_interval m' = im_coalesce_interval m ->
            StronglySorted (spaced (im_coalesce_interval m)) (interaction_run m' events)
            /\ forall last, im_last_emitted m = Some last ->
                 Forall (spaced (im_coalesce_interval m) last) (interaction_run m' events)).
  { intros m' E Ei. rewrite <- Ei, <- E. apply IH; [by rewrite Ei|]. split; [done|].
    rewrite E. intros last El. by apply Hlast. }
  destruct (interaction_handle m event now) as [out m'] eqn:Hout.
  destruct (interaction_passed _ _ _ _ _ Hout) as [Ei Hm]. destruct out as [out|]; simpl; [|by apply Hsame].
  destruct Hm as [E Hsp].
  destruct (IH m') as [H1 H2]; [by rewrite Ei|split; [done|by rewrite E; intros ? [= <-]]|].
  rewrite Ei in H1, H2. specialize (H2 now E). split; [by constructor|].
  intros last El. specialize (Hsp last El). destruct (Hlast last El) as [Hle _].
  assert (Hnow : spaced (im_coalesce_interval m) last now) by (unfold spaced, since in *; lia).
  constructor; [done|]. eapply Forall_impl; [exact H2|]. unfold spaced in *. intros t Ht. lia.
Qed.

(** C30: Activity is coalesced: on a clock that does not go back, the moments a
    device reports activity are at least the coalescing interval apart; and a
    report that follows activity is passed on unless it comes within that
    interval. *)
Theorem activity_coalesced device interval events :
  0 <= interval -> StronglySorted Z.le events.*2 ->
  StronglySorted (spaced interval) (interaction_run (InteractionStateMachine_new device interval) events)
  /\ forall m now m', interaction_handle m RiSyncReport now = (None, m') -> im_pending m = true ->
       exists last, im_last_emitted m = Some last /\ since now last < im_coalesce_interval m.
Proof.
  intros Hi Hs. split.
  - by destruct (interaction_run_spaced (InteractionStateMachine_new device interval) events Hi).
  - intros [device' pending last interval'] now m' Hm Hp. simpl in *. subst pending.
    destruct last as [last|]; simpl in Hm; [|done]. exists last. split; [done|].
    destruct (since now last <? interval') eqn:E; [by apply Z.ltb_lt in E|done].
Qed.

Lemma activity_coalesced_witness :
  StronglySorted (spaced 16)
    (interaction_run (InteractionStateMachine_new 1 16)
       [(RiKey (KEY_OTHER 30) 1, 0); (RiSyncReport, 0); (RiRelative REL_X 2, 10); (RiSyncReport, 10);
        (RiKey KEY_POWER 1, 20); (RiSyncReport, 20); (RiRelative REL_WHEEL 1, 40); (RiSyncReport, 40)])
  /\ interaction_run (InteractionStateMachine_new 1 16)
       [(RiKey (KEY_OTHER 30) 1, 0); (RiSyncReport, 0); (RiRelative REL_X 2, 10); (RiSyncReport, 10);
        (RiKey KEY_POWER 1, 20); (RiSyncReport, 20); (RiRelative REL_WHEEL 1, 40); (RiSyncReport, 40)] = [0; 40].
Proof.
  split; [|vm_compute; reflexivity].
  apply (activity_coalesced 1 16); [lia|]. simpl. repeat constructor; lia.
Defined.

(** ** A touchscreen *)

(** The nodes below the root, the frames the device still has to deliver, and
    the clock. *)
Record Desk := {
  dk_nodes : list string;
  dk_frames : list (list EventSummary);
  dk_clock : Z;
}.

Definition touchscreen_axes : list (AbsoluteAxisCode * AbsInfo) :=
  [(ABS_MT_SLOT, {| ai_value := 0; ai_minimum := 0; ai_maximum := 9 |});
   (ABS_MT_POSITION_X, {| ai_value := 0; ai_minimum := 0; ai_maximum := 1000 |});
   (ABS_MT_POSITION_Y, {| ai_value := 0; ai_minimum := 0; ai_maximum := 2000 |});
   (ABS_MT_TRACKING_ID, {| ai_value := -1; ai_minimum := 0; ai_maximum := 65535 |})].

#[global] Instance desk_evdev : Evdev Desk := {
  RawDevice := unit;
  read_dir _ w :=
    (inr ((fun n => inr {| de_name := Some n; de_path := "/dev/input/" +:+ n;
                           de_metadata := inr {| en_device := 13; en_inode := 64 |} |}) <$> dk_nodes w), w);
  open_raw _ w := (inr tt, w);
  supported_absolute_axes _ := Some touchscreen_axes.*1;
  supported_keys _ := None;
  supported_relative_axes _ := None;
  get_absinfo _ w := (inr touchscreen_axes, w);
  fetch_events _ w :=
    match dk_frames w with
    | frame :: rest => (inr frame, {| dk_nodes := dk_nodes w; dk_frames := rest; dk_clock := dk_clock w |})
    | [] => (inl {| io_kind := WouldBlock; io_message := "" |}, w)
    end;
  evdev_now w := (dk_clock w, w);
  evdev_sleep d w := {| dk_nodes := dk_nodes w; dk_frames := dk_frames w; dk_clock := dk_clock w + d |};
  cancelled w := (false, w);
  interrupted w := (false, w);
}.

#[global] Instance desk_ingress : Ingress Desk := {
  try_send _ w := (TsSent, w);
  input_settings w :=
    ({| in_enabled := true; in_trigger_duration_ms := 1; in_gesture_duration_ms := 1;
        in_switch_duration_ms := 1; in_wake_duration_ms := 1;
        in_swipe_distance := f64_lit 3 100; in_edge_width := f64_lit 3 100 |}, w);
  report_input_health _ w := w;
  gesture_error _ := "";
  platform_error _ := "";
}.

(** A finger comes down, and later the node is gone. *)
Definition touch_frame : list EventSummary :=
  [EsAbsoluteAxis ABS_MT_SLOT 0; EsAbsoluteAxis ABS_MT_TRACKING_ID 7;
   EsAbsoluteAxis ABS_MT_POSITION_X 500; EsAbsoluteAxis ABS_MT_POSITION_Y 500;
   EsSynchronization SYN_REPORT].

Definition plugged : Desk := {| dk_nodes := ["event0"; "mouse0"]; dk_frames := [touch_frame]; dk_clock := 0 |}.
Definition unplugged : Desk := {| dk_nodes := ["mouse0"]; dk_frames := []; dk_clock := 600000000 |}.

(** The largest of the two coordinates, for the distance. *)
Definition desk_hypot (x y : f64) : f64 :=
  f64_max (f64_max x (f64_neg x)) (f64_max y (f64_neg y)).

Definition desk_pass (o : InputObserver) (w : Desk) : InputObserver :=
  match (observer_pass desk_hypot 10 o w).1 with Some (true, o') => o' | _ => o end.

Definition desk_start : InputObserver := {| io_source := None; io_sent := [] |}.
Definition desk_open : InputObserver := desk_pass desk_start plugged.
Definition desk_touched : InputObserver := desk_pass desk_open plugged.
Definition desk_released : InputObserver := desk_pass desk_touched unplugged.

Lemma desk_observing o w :
  observing desk_hypot 10 o ->
  match (observer_pass desk_hypot 10 o w).1 with Some (true, _) => true | _ => false end = true ->
  observing desk_hypot 10 (desk_pass o w).
Proof.
  intros Ho Hp. unfold desk_pass. destruct (observer_pass desk_hypot 10 o w) as [[[[|] o']|] w'] eqn:E; try done.
  by eapply observing_pass.
Qed.

Definition finger : TouchContactId := {| tc_device := 1; tc_tracking_id := 7 |}.

Lemma desk_touched_observing : observing desk_hypot 10 desk_touched.
Proof.
  apply desk_observing; [apply desk_observing; [apply observing_start|]|]; vm_compute; reflexivity.
Qed.

Lemma no_stuck_contact_witness :
  (exists s, io_source desk_touched = Some s
     /\ (held s finger \/ finger ∉ believed ∅ (io_sent desk_touched ++ es_pending s)))
  /\ io_sent desk_released = io_sent desk_touched ++ [Resync (Some 1)]
  /\ believed ∅ (io_sent desk_released) = ∅.
Proof.
  assert (Hin : finger ∈ believed ∅ (io_sent desk_touched)) by (apply (bool_decide_unpack _); vm_compute; exact I).
  split; [exact (no_stuck_contact desk_hypot 10 desk_touched finger desk_touched_observing Hin)|].
  split; [vm_compute; reflexivity|]. vm_compute. reflexivity.
Defined.

(** A swipe: the finger comes down, moves across, and is lifted. *)
Definition desk_axes : TouchAxes :=
  {| axes_x := {| ar_minimum := 0; ar_maximum := 1000 |};
     axes_y := {| ar_minimum := 0; ar_maximum := 2000 |};
     axes_slots := {| ar_minimum := 0; ar_maximum := 0 |} |}.

Definition touch_step (acc : list InputEvent * TouchStateMachine) (event : RawTouchEvent)
  : list InputEvent * TouchStateMachine :=
  (acc.1 ++ (touch_handle desk_hypot acc.2 event).1, (touch_handle desk_hypot acc.2 event).2).

Definition touch_run (events : list RawTouchEvent) : list InputEvent * TouchStateMachine :=
  foldl touch_step ([], TouchStateMachine_new 1 desk_axes GestureConfig_default) events.

Lemma touch_run_touched events :
  touched desk_hypot 1 desk_axes GestureConfig_default (touch_run events).1 (touch_run events).2.
Proof.
  unfold touch_run. induction events as [|event events IH] using rev_ind; [apply touched_new|].
  rewrite foldl_snoc. by apply touched_event.
Qed.

Definition swipe : list RawTouchEvent :=
  [TrackingId 7; PositionX 100; PositionY 100; SyncReport; PositionX 900; SyncReport;
   TrackingId (-1); SyncReport].

Definition event_tag (event : InputEvent) : nat :=
  match event with TouchDown _ _ _ => 0 | TouchUp _ _ _ => 1 | InGesture _ _ => 2 | Interaction _ => 3 | Resync _ => 4 end.

Lemma touch_history_witness :
  (exists p, contact_run 1 no_contacts (touch_run swipe).1 = Some p
             /\ open_contacts p = begun (touch_run swipe).2)
  /\ event_tag <$> (touch_run swipe).1 = [0; 1; 2]%nat.
Proof.
  split; [|vm_compute; reflexivity].
  exact (touch_history desk_hypot 1 desk_axes GestureConfig_default _ _ (touch_run_touched swipe)).
Defined.
