(* ===== verification/Service.v ===== *)
(** * The control service and its authorisation
    ([uperf-daemon/src/auth.rs], [uperf-daemon/src/service.rs])

    What a D-Bus caller may ask of the state owner: who it is, what it must
    prove first, and the command its request becomes. The message bus, logind,
    PolicyKit and the state owner are a class; every call to them is logged with
    its answer, so that what a command rests on can be read off the log. The
    list of running workloads, with its cache, is at the end. *)

From coqutil Require Import Datatypes.RecordSetters.
From S2P Require Import Prelude Float64 Domain Text Strings ActuatorTypes DaemonTypes Touch Evdev DecisionTrace LinuxScheduler Systemd RuntimeTypes.

(** ** Errors *)

Inductive ServiceError :=
| SeInvalidArgument (t : text)
| SeIncompatibleVersion (t : text)
| SeNotFound (t : text)
| SeConflict (t : text)
| SeNotAuthorized (t : text)
| SeUnavailable (t : text)
| SeDegraded (t : text)
| SeValidationFailed (t : text)
| SeInternal (t : text)
| SeZBus (e : BusError).

Definition map_runtime_error (e : RuntimeError) : ServiceError :=
  match e with
  | EInvalidArgument m => SeInvalidArgument m
  | ENotFound m => SeNotFound m
  | ENotAuthorized m => SeNotAuthorized m
  | EConflict m => SeConflict m
  | EDegraded m => SeDegraded m
  | EValidation m => SeValidationFailed m
  | EInternal m => SeInternal m
  end.

(** ** The message bus and the state owner *)

Class ServiceBus (W : Type) := {
  (** [DBusProxy::new], and its two queries *)
  dbus_proxy : W -> (BusError + unit) * W;
  connection_unix_user : string -> W -> (BusError + Z) * W;
  connection_unix_process_id : string -> W -> (BusError + Z) * W;
  (** the manager of logind, and a session's proxy and properties *)
  login_manager : W -> (BusError + unit) * W;
  session_by_pid : Z -> W -> (BusError + string) * W;
  list_sessions : W -> (BusError + list (Z * string)) * W;
  session_proxy : string -> W -> (BusError + unit) * W;
  session_active : string -> W -> (BusError + bool) * W;
  session_remote : string -> W -> (BusError + bool) * W;
  (** PolicyKit *)
  polkit_proxy : W -> (BusError + unit) * W;
  check_authorization : string -> string -> W -> (BusError + bool) * W;
  (** [RuntimeHandle::request]: a command is sent, and answered *)
  runtime_request : (Z -> Command) -> W -> (RuntimeError + Reply) * W;
}.

(** The answered calls an authorisation rests on, and the commands sent. *)
Inductive ServiceEvent :=
| EvUser (sender : string) (r : BusError + Z)
| EvPid (sender : string) (r : BusError + Z)
| EvSessionOf (pid : Z) (r : BusError + string)
| EvSessions (r : BusError + list (Z * string))
| EvActive (path : string) (r : BusError + bool)
| EvRemote (path : string) (r : BusError + bool)
| EvPolkit (sender action : string) (r : BusError + bool)
| EvCommand (command : Z -> Command).

(** ** The monad of a request *)

Definition SV (W A : Type) : Type := W -> (ServiceError + A) * list ServiceEvent * W.

#[export] Instance SV_ret W : MRet (SV W) := fun A a w => (inr a, [], w).
#[export] Instance SV_bind W : MBind (SV W) := fun A B k m w =>
  let '(r, log, w) := m w in
  match r with
  | inl e => (inl e, log, w)
  | inr a => let '(r, log', w) := k a w in (r, log ++ log', w)
  end.

Definition reject {W A} (e : ServiceError) : SV W A := fun w => (inl e, [], w).

(** A call; its error is handled by the caller, or mapped and returned. *)
Definition sv_call {W A} (op : W -> A * W) (event : A -> list ServiceEvent) : SV W A :=
  fun w => let '(r, w) := op w in (inr r, event r, w).

Definition or_reject {W A} (f : BusError -> ServiceError) (m : SV W (BusError + A)) : SV W A :=
  r ← m;
  match r with inl e => reject (f e) | inr a => mret a end.

Definition to_internal (e : BusError) : ServiceError := SeInternal [PText (be_text e)].
Definition to_unavailable (e : BusError) : ServiceError := SeUnavailable [PText (be_text e)].
Definition to_not_authorized (e : BusError) : ServiceError := SeNotAuthorized [PText (be_text e)].

(** ** Authorisation *)

Definition CONTROL_ACTION : string := "org.uperflinux.control".
Definition ADMIN_ACTION : string := "org.uperflinux.admin".

Inductive AuthorizationMode := PolicyKit | DevelopmentSession.
#[global] Instance AuthorizationMode_eq_dec : EqDecision AuthorizationMode.
Proof. solve_decision. Defined.

Section authorizer.
Context {W : Type} `{!ServiceBus W}.
Context (mode : AuthorizationMode).

(** [header.sender()] *)
Definition sender_of (header : option string) : SV W string :=
  match header with
  | Some sender => mret sender
  | None => reject (SeNotAuthorized [PText "D-Bus sender is missing"])
  end.

Definition caller_uid (header : option string) : SV W Z :=
  sender ← sender_of header;
  or_reject to_internal (sv_call dbus_proxy (fun _ => []));;
  or_reject to_not_authorized (sv_call (connection_unix_user sender) (fun r => [EvUser sender r])).

Definition session_is_active_local (path : string) : SV W bool :=
  or_reject to_unavailable (sv_call (session_proxy path) (fun _ => []));;
  active ← or_reject to_unavailable (sv_call (session_active path) (fun r => [EvActive path r]));
  remote ← or_reject to_unavailable (sv_call (session_remote path) (fun r => [EvRemote path r]));
  mret (active && negb remote).

(** The loop over the sessions of the fallback. *)
Fixpoint any_session (uid : Z) (sessions : list (Z * string)) : SV W Z :=
  match sessions with
  | [] => reject (SeNotAuthorized [PText "caller has no local, currently active logind session"])
  | (session_uid, path) :: sessions =>
      if session_uid =? uid then
        local ← session_is_active_local path;
        if local : bool then mret uid else any_session uid sessions
      else any_session uid sessions
  end.

Definition require_active_local_session (header : option string) : SV W Z :=
  uid ← caller_uid header;
  if (uid =? 0) || bool_decide (mode = DevelopmentSession) then mret uid
  else
    sender ← sender_of header;
    or_reject to_internal (sv_call dbus_proxy (fun _ => []));;
    caller_pid ← or_reject to_not_authorized
                   (sv_call (connection_unix_process_id sender) (fun r => [EvPid sender r]));
    or_reject to_unavailable (sv_call login_manager (fun _ => []));;
    direct_session ← sv_call (session_by_pid caller_pid) (fun r => [EvSessionOf caller_pid r]);
    match direct_session with
    | inr path =>
        local ← session_is_active_local path;
        if local : bool then mret uid
        else reject (SeNotAuthorized [PText "only a local, currently active session may report focus"])
    | inl _ =>
        sessions ← or_reject to_unavailable (sv_call list_sessions (fun r => [EvSessions r]));
        any_session uid sessions
    end.

Definition require_action (header : option string) (action : string) : SV W Z :=
  uid ← caller_uid header;
  if (uid =? 0) || bool_decide (mode = DevelopmentSession) then mret uid
  else
    sender ← sender_of header;
    or_reject to_unavailable (sv_call polkit_proxy (fun _ => []));;
    authorized ← or_reject to_unavailable
                   (sv_call (check_authorization sender action) (fun r => [EvPolkit sender action r]));
    if authorized : bool then mret uid
    else reject (SeNotAuthorized [PText "PolicyKit denied "; PText action]).

(** ** The methods that change something *)

Inductive ServiceCall :=
| SetMode (m : string)
| SetActiveWorkload (request : WorkloadRequest)
| ClearActiveWorkload
| SetForegroundProcess (process : Z) (reason : string)
| ClearForegroundProcess
| ReportFrameHint (event : string)
| SetFrequencyOverrides (overrides : list FrequencyOverride)
| ClearFrequencyOverrides (target_ids : list string)
| ReloadConfig
| SetAppRule (rule : ApiAppRule)
| RemoveAppRule (rule_id : string).

(** [FrameHintEvent::from_str] *)
Definition parse_frame_hint (s : string) : option FrameHintEvent :=
  if bool_decide (s = "render-started") then Some RenderStarted
  else if bool_decide (s = "render-idle") then Some RenderIdle
  else if bool_decide (s = "deadline-missed") then Some DeadlineMissed
  else if bool_decide (s = "display-blanked") then Some DisplayBlanked
  else if bool_decide (s = "display-unblanked") then Some DisplayUnblanked
  else None.

(** [self.runtime.request(..).await.map_err(map_runtime_error)] *)
Definition request_runtime (command : Z -> Command) : SV W Reply :=
  r ← sv_call (runtime_request command) (fun _ => [EvCommand command]);
  match r with inl e => reject (map_runtime_error e) | inr a => mret a end.

Definition serve_call (header : option string) (call : ServiceCall) : SV W Reply :=
  match call with
  | SetMode m =>
      require_action header CONTROL_ACTION;;
      request_runtime (CmdSetMode m)
  | SetActiveWorkload request =>
      caller ← caller_uid header;
      (if bool_decide (wr_mode request = "") then mret caller
       else require_action header CONTROL_ACTION);;
      request_runtime (CmdSetActiveWorkload request caller)
  | ClearActiveWorkload =>
      caller ← caller_uid header;
      request_runtime (CmdClearActiveWorkload caller)
  | SetForegroundProcess process reason =>
      caller ← require_active_local_session header;
      request_runtime (CmdSetForegroundProcess process reason caller header)
  | ClearForegroundProcess =>
      caller ← require_active_local_session header;
      request_runtime (CmdClearForegroundProcess caller header)
  | ReportFrameHint event =>
      match parse_frame_hint event with
      | None =>
          reject (SeInvalidArgument [PText "unknown frame hint '"; PText event;
            PText "'; expected render-started, render-idle, deadline-missed, display-blanked, or display-unblanked"])
      | Some event =>
          caller ← require_active_local_session header;
          request_runtime (CmdReportFrameHint event caller header)
      end
  | SetFrequencyOverrides overrides =>
      require_action header ADMIN_ACTION;;
      request_runtime (CmdSetFrequencyOverrides overrides)
  | ClearFrequencyOverrides target_ids =>
      require_action header ADMIN_ACTION;;
      request_runtime (CmdClearFrequencyOverrides target_ids)
  | ReloadConfig =>
      require_action header ADMIN_ACTION;;
      request_runtime CmdReload
  | SetAppRule rule =>
      require_action header ADMIN_ACTION;;
      request_runtime (CmdSetAppRule rule)
  | RemoveAppRule rule_id =>
      require_action header ADMIN_ACTION;;
      request_runtime (CmdRemoveAppRule rule_id)
  end.

(** The page request of a reader, which needs no authorisation. *)
Definition get_decision_trace (t : TraceState) (after_id limit : Z)
  : ServiceError + list DecisionTraceEntry :=
  if MAX_TRACE_PAGE <? limit
  then inl (SeInvalidArgument [PText "decision trace limit "; PNum limit; PText " exceeds "; PNum MAX_TRACE_PAGE])
  else inr (page t after_id limit).
End authorizer.

(** * Nothing reaches the state owner unauthorised *)

(** What a command requires of the caller. *)
Inductive Requirement := Identity | Action (action : string) | LocalSession.

Definition requirement (c : Command) : Requirement :=
  match c with
  | CmdSetActiveWorkload request _ _ =>
      if bool_decide (wr_mode request = "") then Identity else Action CONTROL_ACTION
  | CmdSetMode _ _ => Action CONTROL_ACTION
  | CmdClearActiveWorkload _ _ => Identity
  | CmdSetForegroundProcess _ _ _ _ _ | CmdClearForegroundProcess _ _ _ | CmdReportFrameHint _ _ _ _ => LocalSession
  | _ => Action ADMIN_ACTION
  end.

(** The caller and the peer that a command names. *)
Definition named_caller (c : Command) : option Z :=
  match c with
  | CmdSetActiveWorkload _ uid _ | CmdClearActiveWorkload uid _ | CmdSetForegroundProcess _ _ uid _ _
  | CmdClearForegroundProcess uid _ _ | CmdReportFrameHint _ uid _ _ => Some uid
  | _ => None
  end.

Definition named_peer (c : Command) : option (option string) :=
  match c with
  | CmdSetForegroundProcess _ _ _ peer _ | CmdClearForegroundProcess _ peer _ | CmdReportFrameHint _ _ peer _ =>
      Some peer
  | _ => None
  end.

Section evidence.
Context (mode : AuthorizationMode).

(** logind has said that a session is active and not remote, and that it is the
    caller's: the one its process belongs to, or, when its process belongs to
    none, one of its user. *)
Definition in_local_session (log : list ServiceEvent) (sender : string) (uid : Z) : Prop :=
  exists process path,
    EvPid sender (inr process) ∈ log /\ EvActive path (inr true) ∈ log /\ EvRemote path (inr false) ∈ log
    /\ (EvSessionOf process (inr path) ∈ log
        \/ exists e sessions, EvSessionOf process (inl e) ∈ log /\ EvSessions (inr sessions) ∈ log
                              /\ (uid, path) ∈ sessions).

Definition met (log : list ServiceEvent) (sender : string) (r : Requirement) : Prop :=
  exists uid, EvUser sender (inr uid) ∈ log /\
    match r with
    | Identity => True
    | Action action => uid = 0 \/ mode = DevelopmentSession \/ EvPolkit sender action (inr true) ∈ log
    | LocalSession => uid = 0 \/ mode = DevelopmentSession \/ in_local_session log sender uid
    end.

Definition authorised (header : option string) (log : list ServiceEvent) (c : Command) : Prop :=
  exists sender, header = Some sender
    /\ (forall uid, named_caller c = Some uid -> EvUser sender (inr uid) ∈ log)
    /\ (forall peer, named_peer c = Some peer -> peer = Some sender)
    /\ met log sender (requirement c).

Definition no_command (log : list ServiceEvent) : Prop := forall c, EvCommand c ∉ log.

Lemma no_command_app l1 l2 : no_command (l1 ++ l2) <-> no_command l1 /\ no_command l2.
Proof. unfold no_command. setoid_rewrite not_elem_of_app. firstorder. Qed.
End evidence.

(** ** Reasoning about requests *)

Section rules.
Context {W : Type} `{!ServiceBus W}.

Definition spec {A} (m : SV W A) (Q : ServiceError + A -> list ServiceEvent -> Prop) : Prop :=
  forall w r log w', m w = (r, log, w') -> Q r log.

Lemma spec_ret {A} (a : A) (Q : _ -> _ -> Prop) : Q (inr a) [] -> spec (mret a) Q.
Proof. by intros H w r log w' [= <- <- <-]. Qed.

Lemma spec_reject {A} e (Q : ServiceError + A -> _ -> Prop) : Q (inl e) [] -> spec (reject e) Q.
Proof. by intros H w r log w' [= <- <- <-]. Qed.

Lemma spec_bind {A B} (m : SV W A) (k : A -> SV W B) (Q : _ -> _ -> Prop) :
  spec m (fun r log => match r with
                       | inl e => Q (inl e) log
                       | inr a => spec (k a) (fun r log' => Q r (log ++ log'))
                       end) ->
  spec (m ≫= k) Q.
Proof.
  intros H w r log w' E. unfold mbind, SV_bind in E. destruct (m w) as [[r1 l1] w1] eqn:E1.
  apply H in E1. destruct r1 as [e|a]; [by injection E as <- <- <-|].
  destruct (k a w1) as [[r2 l2] w2] eqn:E2. injection E as <- <- <-. exact (E1 _ _ _ _ E2).
Qed.

Lemma spec_weaken {A} (m : SV W A) (P Q : _ -> _ -> Prop) :
  spec m P -> (forall r log, P r log -> Q r log) -> spec m Q.
Proof. intros H HPQ w r log w' E. eauto. Qed.

Lemma spec_call {A} (op : W -> A * W) event (Q : _ -> _ -> Prop) :
  (forall r, Q (inr r) (event r)) -> spec (sv_call op event) Q.
Proof. intros H w r log w' E. unfold sv_call in E. destruct (op w) as [a w1]. by injection E as <- <- <-. Qed.

(** A call whose error is returned. *)
Lemma spec_or_reject {A} f (op : W -> (BusError + A) * W) event (Q : _ -> _ -> Prop) :
  (forall e, Q (inl (f e)) (event (inl e))) -> (forall a, Q (inr a) (event (inr a))) ->
  spec (or_reject f (sv_call op event)) Q.
Proof.
  intros He Ha. apply spec_bind, spec_call. intros [e|a].
  - apply spec_reject. rewrite app_nil_r. apply He.
  - apply spec_ret. rewrite app_nil_r. apply Ha.
Qed.
End rules.

(** Steps through a request up to the next branch. *)
Ltac sv_step :=
  lazymatch goal with
  | |- spec (_ ≫= _) _ => apply spec_bind
  | |- spec (mret _) _ => apply spec_ret
  | |- spec (reject _) _ => apply spec_reject
  | |- spec (or_reject _ _) _ => apply spec_or_reject; [intros ?|intros ?]
  | |- spec (sv_call _ _) _ => apply spec_call; intros ?
  end.
Ltac in_log := rewrite ?elem_of_app, ?list_elem_of_singleton; tauto.
Ltac quiet_log := unfold no_command; intros ?; rewrite ?not_elem_of_app, ?not_elem_of_cons; repeat split; try done; apply not_elem_of_nil.

Section specs.
Context {W : Type} `{!ServiceBus W}.
Context (mode : AuthorizationMode).

Lemma sender_of_spec header :
  spec (W := W) (sender_of header) (fun r log => log = [] /\ forall s, r = inr s -> header = Some s).
Proof. unfold sender_of. destruct header; sv_step; by split; [|intros ? [= <-]]. Qed.

(** Who the caller is. *)
Lemma caller_uid_spec header :
  spec (W := W) (caller_uid header) (fun r log => no_command log /\
    forall uid, r = inr uid -> exists sender, header = Some sender /\ EvUser sender (inr uid) ∈ log).
Proof.
  unfold caller_uid. sv_step. eapply spec_weaken; [apply sender_of_spec|]. intros [e|sender] log [-> Hs].
  - by split; [quiet_log|].
  - sv_step. sv_step; [by split; [quiet_log|]|]. sv_step; [by split; [quiet_log|]|].
    split; [quiet_log|]. intros uid [= ->]. exists sender. split; [by apply Hs|]. by left.
Qed.

Lemma session_is_active_local_spec path :
  spec (W := W) (session_is_active_local path) (fun r log => no_command log /\
    (r = inr true -> EvActive path (inr true) ∈ log /\ EvRemote path (inr false) ∈ log)).
Proof.
  unfold session_is_active_local. sv_step. sv_step; [by split; [quiet_log|]|].
  sv_step. sv_step; [by split; [quiet_log|]|]. sv_step. sv_step; [by split; [quiet_log|]|]. sv_step.
  split; [quiet_log|]. intros [= H]. apply andb_true_iff in H as [-> ->%negb_true_iff].
  rewrite !elem_of_app, !list_elem_of_singleton. auto.
Qed.

Lemma any_session_spec uid sessions :
  spec (W := W) (any_session uid sessions) (fun r log => no_command log /\
    forall u, r = inr u -> u = uid /\ exists path, (uid, path) ∈ sessions
      /\ EvActive path (inr true) ∈ log /\ EvRemote path (inr false) ∈ log).
Proof.
  induction sessions as [|[session_uid path] sessions IH]; cbn [any_session].
  - sv_step. by split; [quiet_log|].
  - assert (Hrest : spec (W := W) (any_session uid sessions) (fun r log => no_command log /\
      forall u, r = inr u -> u = uid /\ exists path', (uid, path') ∈ (session_uid, path) :: sessions
        /\ EvActive path' (inr true) ∈ log /\ EvRemote path' (inr false) ∈ log)).
    { eapply spec_weaken; [exact IH|]. intros r log [Hn Hr]. split; [done|].
      intros u Hu. destruct (Hr u Hu) as (-> & p & Hp & ?). split; [done|]. exists p. split; [by right|done]. }
    destruct (Z.eqb_spec session_uid uid) as [->|]; [|exact Hrest].
    sv_step. eapply spec_weaken; [apply session_is_active_local_spec|]. intros [e|[|]] log [Hn Hl]; [by split|..].
    + sv_step. rewrite app_nil_r. split; [done|]. intros u [= <-]. split; [done|].
      exists path. split; [by left|by apply Hl].
    + eapply spec_weaken; [exact Hrest|]. intros r log' [Hn' Hr]. split; [by apply no_command_app|].
      intros u Hu. destruct (Hr u Hu) as (-> & p & Hp & ? & ?). split; [done|]. exists p.
      rewrite !elem_of_app. auto.
Qed.

(** What holds when an authorisation succeeds. *)
Definition grants (header : option string) (m : SV W Z) (r : Requirement) : Prop :=
  spec m (fun res log => no_command log /\
    forall uid, res = inr uid -> exists sender, header = Some sender
      /\ EvUser sender (inr uid) ∈ log /\ met mode log sender r).

Lemma caller_uid_grants header : grants header (caller_uid header) Identity.
Proof.
  eapply spec_weaken; [apply caller_uid_spec|]. intros r log [Hn H]. split; [done|].
  intros uid Hu. destruct (H uid Hu) as (s & ? & ?). exists s. split; [done|]. split; [done|]. by exists uid.
Qed.

Lemma met_app_l l1 l2 sender r : met mode l2 sender r -> met mode (l1 ++ l2) sender r.
Proof.
  assert (Hin : forall e, e ∈ l2 -> e ∈ l1 ++ l2) by (intros; apply elem_of_app; by right).
  unfold met, in_local_session. intros (uid & ? & H). exists uid. split; [auto|].
  destruct r; [done|destruct H as [?|[?|?]]; auto|].
  destruct H as [?|[?|(process & path & ? & ? & ? & H)]]; [auto..|]. right. right. exists process, path.
  repeat (split; [by auto|]). destruct H as [?|(e & sessions & ? & ? & ?)]; [auto|].
  right. exists e, sessions. auto.
Qed.

Lemma require_action_grants header action : grants header (require_action mode header action) (Action action).
Proof.
  unfold grants, require_action. sv_step. eapply spec_weaken; [apply caller_uid_spec|].
  intros [e|uid] log [Hn Hu]; [by split|]. destruct (Hu uid eq_refl) as (sender & Hh & Hs).
  destruct ((uid =? 0) || bool_decide (mode = DevelopmentSession)) eqn:Eb.
  - sv_step. rewrite app_nil_r. split; [done|]. intros u [= <-]. exists sender. repeat split; [done..|].
    exists uid. split; [done|]. apply orb_true_iff in Eb as [?%Z.eqb_eq|?%bool_decide_eq_true]; auto.
  - sv_step. eapply spec_weaken; [apply sender_of_spec|]. intros [e|s] l [-> Hsome]; [by rewrite app_nil_r; split|].
    specialize (Hsome s eq_refl). assert (s = sender) as -> by congruence.
    sv_step. sv_step; [split; [|done]; apply no_command_app; by split; [|quiet_log]|].
    sv_step. sv_step; [split; [|done]; apply no_command_app; by split; [|quiet_log]|].
    destruct a0; sv_step; (split; [apply no_command_app; by split; [|quiet_log]|]); [|done].
    intros u [= <-]. exists sender. split; [done|]. rewrite elem_of_app. split; [by left|].
    exists uid. split; [in_log|]. right. right. in_log.
Qed.

Lemma require_session_grants header : grants header (require_active_local_session mode header) LocalSession.
Proof.
  unfold grants, require_active_local_session. sv_step. eapply spec_weaken; [apply caller_uid_spec|].
  intros [e|uid] log [Hn Hu]; [by split|]. destruct (Hu uid eq_refl) as (sender & Hh & Hs).
  destruct ((uid =? 0) || bool_decide (mode = DevelopmentSession)) eqn:Eb.
  - sv_step. rewrite app_nil_r. split; [done|]. intros u [= <-]. exists sender. repeat split; [done..|].
    exists uid. split; [done|]. apply orb_true_iff in Eb as [?%Z.eqb_eq|?%bool_decide_eq_true]; auto.
  - sv_step. eapply spec_weaken; [apply sender_of_spec|]. intros [e|s] l [-> Hsome]; [by rewrite app_nil_r; split|].
    specialize (Hsome s eq_refl). assert (s = sender) as -> by congruence.
    assert (Hq : forall l', no_command l' -> no_command (log ++ l')) by (intros; by apply no_command_app).
    sv_step. sv_step; [by split; [apply Hq; quiet_log|]|].
    sv_step. sv_step; [by split; [apply Hq; quiet_log|]|]. rename a0 into process.
    sv_step. sv_step; [by split; [apply Hq; quiet_log|]|]. sv_step. sv_step. destruct r as [e|path].
    + sv_step. sv_step; [by split; [apply Hq; quiet_log|]|]. rename a1 into sessions.
      eapply spec_weaken; [apply any_session_spec|]. intros r l [Hn' Hr].
      split; [apply Hq; repeat (apply no_command_app; split); [quiet_log..|done]|].
      intros u ->. destruct (Hr u eq_refl) as (-> & path & Hp & Ha & Hrem).
      exists sender. split; [done|]. rewrite elem_of_app. split; [by left|].
      exists uid. split; [rewrite elem_of_app; by left|]. right. right. exists process, path.
      repeat split; [in_log..|]. right. exists e, sessions.
      in_log.
    + sv_step. eapply spec_weaken; [apply session_is_active_local_spec|]. intros [e|[|]] l [Hn' Hl].
      * split; [apply Hq; repeat (apply no_command_app; split); [quiet_log..|done]|done].
      * sv_step. rewrite app_nil_r.
        split; [apply Hq; repeat (apply no_command_app; split); [quiet_log..|done]|].
        intros u [= <-]. destruct (Hl eq_refl) as [Ha Hrem].
        exists sender. split; [done|]. rewrite elem_of_app. split; [by left|].
        exists uid. split; [rewrite elem_of_app; by left|]. right. right. exists process, path.
        in_log.
      * sv_step. rewrite app_nil_r.
        split; [apply Hq; repeat (apply no_command_app; split); [quiet_log..|done]|done].
Qed.
End specs.

Section requests.
Context {W : Type} `{!ServiceBus W}.
Context (mode : AuthorizationMode).

(** A request that ends without a command, or with one that is authorised by
    what came before it. *)
Definition gated (header : option string) (r : ServiceError + Reply) (log : list ServiceEvent) : Prop :=
  no_command log /\ (exists e, r = inl e)
  \/ exists before c, log = before ++ [EvCommand c] /\ no_command before
                      /\ forall reply, authorised mode header before (c reply).

Lemma request_runtime_spec header log0 command :
  no_command log0 -> (forall reply, authorised mode header log0 (command reply)) ->
  spec (W := W) (request_runtime command) (fun r log => gated header r (log0 ++ log)).
Proof.
  intros Hn Ha. unfold request_runtime. sv_step. sv_step.
  destruct r as [e|a]; sv_step; rewrite app_nil_r; right; exists log0, command; auto.
Qed.

(** After [log0], an authorisation and the command it allows. *)
Lemma gated_request header log0 (auth : SV W Z) r (command : Z -> Z -> Command) :
  no_command log0 -> grants mode header auth r ->
  (forall uid reply, requirement (command uid reply) = r
    /\ (forall u, named_caller (command uid reply) = Some u ->
          u = uid \/ forall s, header = Some s -> EvUser s (inr u) ∈ log0)
    /\ (forall p, named_peer (command uid reply) = Some p -> p = header)) ->
  spec (auth ≫= fun uid => request_runtime (command uid)) (fun r log => gated header r (log0 ++ log)).
Proof.
  intros Hn0 Hg Hc. sv_step. eapply spec_weaken; [exact Hg|]. intros [e|uid] log [Hn Hu].
  - left. rewrite no_command_app. eauto.
  - destruct (Hu uid eq_refl) as (sender & Hh & Hs & Hm).
    eapply spec_weaken; [apply (request_runtime_spec header (log0 ++ log) (command uid))|].
    + by apply no_command_app.
    + intros reply. destruct (Hc uid reply) as (Hr & Hcaller & Hpeer). exists sender. split; [done|].
      split; [intros u [->|Hin]%Hcaller; apply elem_of_app; [by right|left; by apply Hin]|].
      split; [by intros p ->%Hpeer|]. rewrite Hr. by apply met_app_l.
    + intros r' log'. by rewrite app_assoc.
Qed.
End requests.

(** Whatever is asked and answered, a request is gated. *)
Lemma serve_call_gated {W} `{!ServiceBus W} mode header call (w : W) r log w' :
  serve_call mode header call w = (r, log, w') -> gated mode header r log.
Proof.
  revert w r log w'. change (spec (serve_call mode header call) (fun r log => gated mode header r ([] ++ log))).
  assert (Hnil : no_command []) by quiet_log.
  pose proof (require_action_grants mode header) as Hact. pose proof (require_session_grants mode header) as Hses.
  destruct call; cbn [serve_call].
  - apply (gated_request mode header [] _ (Action CONTROL_ACTION) (fun _ => CmdSetMode m)); [done..|].
    by intros; repeat split.
  - sv_step. eapply spec_weaken; [apply (caller_uid_grants mode)|]. intros [e|caller] log [Hn Hu]; [left; eauto|].
    destruct (Hu caller eq_refl) as (sender & Hh & Hs & Hm). case_bool_decide as Hmode.
    + sv_step. sv_step. apply request_runtime_spec; [done|]. intros reply. exists sender.
      split; [done|]. split; [by intros u [= <-]|]. split; [done|]. simpl. by rewrite bool_decide_eq_true_2.
    + apply (gated_request mode header log _ (Action CONTROL_ACTION) (fun _ => CmdSetActiveWorkload request caller));
        [done..|]. intros uid reply. simpl. rewrite bool_decide_eq_false_2 by done. repeat split; [|done].
      intros u [= <-]. right. intros s Hs'. by replace s with sender by congruence.
  - apply (gated_request mode header [] _ Identity CmdClearActiveWorkload);
      [done|apply caller_uid_grants|]. intros; repeat split; [intros u [= ->]; by left|done].
  - apply (gated_request mode header [] _ LocalSession (fun uid => CmdSetForegroundProcess process reason uid header));
      [done..|]. intros; repeat split; [intros u [= ->]; by left|by intros p [= ->]].
  - apply (gated_request mode header [] _ LocalSession (fun uid => CmdClearForegroundProcess uid header)); [done..|].
    intros; repeat split; [intros u [= ->]; by left|by intros p [= ->]].
  - destruct (parse_frame_hint event) as [hint|]; [|sv_step; left; eauto].
    apply (gated_request mode header [] _ LocalSession (fun uid => CmdReportFrameHint hint uid header)); [done..|].
    intros; repeat split; [intros u [= ->]; by left|by intros p [= ->]].
  - apply (gated_request mode header [] _ (Action ADMIN_ACTION) (fun _ => CmdSetFrequencyOverrides overrides));
      [done..|]. by intros; repeat split.
  - apply (gated_request mode header [] _ (Action ADMIN_ACTION) (fun _ => CmdClearFrequencyOverrides target_ids));
      [done..|]. by intros; repeat split.
  - apply (gated_request mode header [] _ (Action ADMIN_ACTION) (fun _ => CmdReload)); [done..|].
    by intros; repeat split.
  - apply (gated_request mode header [] _ (Action ADMIN_ACTION) (fun _ => CmdSetAppRule rule)); [done..|].
    by intros; repeat split.
  - apply (gated_request mode header [] _ (Action ADMIN_ACTION) (fun _ => CmdRemoveAppRule rule_id)); [done..|].
    by intros; repeat split.
Qed.

(** A bus on which user 1000 asks from an ssh session: PolicyKit lets it control
    but not administrate, logind knows its session as active and remote. *)
#[export] Instance ssh_bus : ServiceBus unit := {
  dbus_proxy w := (inr tt, w);
  connection_unix_user _ w := (inr 1000, w);
  connection_unix_process_id _ w := (inr 77, w);
  login_manager w := (inr tt, w);
  session_by_pid _ w := (inr "/session/5", w);
  list_sessions w := (inr [(1000, "/session/5"); (0, "/session/1")], w);
  session_proxy _ w := (inr tt, w);
  session_active _ w := (inr true, w);
  session_remote _ w := (inr true, w);
  polkit_proxy w := (inr tt, w);
  check_authorization _ action w := (inr (bool_decide (action = CONTROL_ACTION)), w);
  runtime_request _ w := (inr (ReReceipt (inr (receipt 1 [] []))), w);
}.

(** * Running workloads *)

Definition MAX_RUNNING_WORKLOADS : nat := 128.

Definition GAME_PROCESS_PATTERNS : list string :=
  ["unitymain"; "gamethread"; "renderthread"; "glthread"; "dolphin"; "ppsspp"; "retroarch"; "wine"; "proton";
   "mihoyo"; "hoyoverse"; "minecraft"; "gameloft"; "supercell"; "niantic"; "rovio"; "ea.games"; "playdead";
   "half-life"; "steam"; "gta"; "pubg"; "fortnite"; "callofduty"; "genshin"; "honkai"; "arknights"; "yuzu";
   "ryujinx"].

Record SchedulerStatus := {
  ss_enabled : bool;
  ss_matched_rule : string;
  ss_managed_tasks : Z;
  ss_applied_tasks : Z;
  ss_cgroup_class : string;
  ss_systemd_unit : string;
  ss_cgroup_applied : bool;
  ss_warning : text;
}.
#[export] Instance SchedulerStatus_eq_dec : EqDecision SchedulerStatus.
Proof. solve_decision. Defined.
Definition SchedulerStatus_default : SchedulerStatus :=
  {| ss_enabled := false; ss_matched_rule := ""; ss_managed_tasks := 0; ss_applied_tasks := 0;
     ss_cgroup_class := ""; ss_systemd_unit := ""; ss_cgroup_applied := false; ss_warning := [] |}.

(** [WorkloadIdentity] has the fields of a [ProcessIdentity]. *)
Record RunningWorkload := {
  rw_identity : ProcessIdentity;
  rw_name : string;
  rw_matched_pattern : string;
  rw_active : bool;
  rw_scheduler : SchedulerStatus;
}.
#[export] Instance RunningWorkload_eq_dec : EqDecision RunningWorkload.
Proof. solve_decision. Defined.

Record ActiveWorkload := {
  aw_present : bool;
  aw_identity : ProcessIdentity;
  aw_name : string;
  aw_requested_mode : string;
  aw_effective_mode : string;
  aw_source : string;
}.

(** [str::to_ascii_lowercase] *)
Definition ascii_lower (c : Ascii.ascii) : Ascii.ascii :=
  if (65 <=? byte_of c) && (byte_of c <=? 90) then Ascii.ascii_of_nat (Z.to_nat (byte_of c + 32)) else c.
Definition to_ascii_lowercase (s : string) : string := of_bytes (ascii_lower <$> bytes s).

(** [str::contains] of a string *)
Definition contains_str (pattern s : string) : bool :=
  if String.index 0 pattern s then true else false.

Definition matched_game_pattern (process : ProcessInfo) : option string :=
  let comm := to_ascii_lowercase (Domain.comm process) in
  let executable := to_ascii_lowercase (default "" (executable process)) in
  List.find (fun pattern => contains_str pattern comm || contains_str pattern executable) GAME_PROCESS_PATTERNS.

(** [sort_by_key] of the process number: stable. *)
Definition pid_le (a b : RunningWorkload) : Prop := pid (rw_identity a) <= pid (rw_identity b).
#[export] Instance pid_le_dec a b : Decision (pid_le a b).
Proof. unfold pid_le. apply _. Defined.
Definition sort_by_pid (l : list RunningWorkload) : list RunningWorkload := merge_sort pid_le l.

Section scanner.
Context {W : Type}.
Context (list_processes : W -> (PlatformError + list Z) * W).
Context (identity_of : Z -> W -> (PlatformError + ProcessInfo) * W).

Definition candidate (process : ProcessInfo) (pattern : string) : RunningWorkload :=
  {| rw_identity := identity process; rw_name := Domain.comm process; rw_matched_pattern := pattern;
     rw_active := false; rw_scheduler := SchedulerStatus_default |}.

(** The loop over the processes. *)
Fixpoint scan_processes (processes : list Z) (candidates : list RunningWorkload) (w : W)
  : (text + list RunningWorkload) * W :=
  match processes with
  | [] => (inr candidates, w)
  | process :: processes =>
      if process <? 2 then scan_processes processes candidates w
      else
        let '(r, w) := identity_of process w in
        match r with
        | inl (Disappeared _) | inl (AccessDenied _ _) | inl (Io _ _ _) => scan_processes processes candidates w
        | inl error => (inl [PText "read process "; PNum process; PText ": "; PPlatform error], w)
        | inr info =>
            match matched_game_pattern info with
            | None => scan_processes processes candidates w
            | Some pattern =>
                let candidates := candidates ++ [candidate info pattern] in
                if Nat.eqb (length candidates) MAX_RUNNING_WORKLOADS then (inr candidates, w)
                else scan_processes processes candidates w
            end
        end
  end.

Definition scan_running_workloads (w : W) : (text + list RunningWorkload) * W :=
  let '(r, w) := list_processes w in
  match r with
  | inl error => (inl [PText "list procfs processes: "; PPlatform error], w)
  | inr processes =>
      let '(r, w) := scan_processes processes [] w in
      (match r with inl e => inl e | inr candidates => inr (sort_by_pid candidates) end, w)
  end.

(** [refresh]: what it answers and what is cached after it. The source may be
    unavailable, and the scan's worker may die, with a text. *)
Definition refresh (available : bool) (worker : option text) (cached : list RunningWorkload) (w : W)
  : (text + unit) * list RunningWorkload * W :=
  if negb available then (inr tt, cached, w)
  else
    let '(r, w) :=
      match worker with
      | Some error => (inl (PText "running-workload scan worker failed: " :: error), w)
      | None => scan_running_workloads w
      end in
    match r with
    | inr candidates => (inr tt, candidates, w)
    | inl error => (inl error, [], w)
    end.
End scanner.

(** [RunningWorkloadScanner::snapshot] of what is cached and published. *)
Definition snapshot_workloads (cached : list RunningWorkload) (active : ActiveWorkload)
    (scheduler : SchedulerStatus) (caller_uid : Z) : list RunningWorkload :=
  let explicit_active := aw_present active && bool_decide (aw_source active = "explicit") in
  let is_active (c : RunningWorkload) := bool_decide (rw_identity c = aw_identity active) in
  let candidates :=
    if explicit_active
    then List.filter (fun c => negb (pid (rw_identity c) =? pid (aw_identity active)) || is_active c) cached
    else cached in
  let candidates :=
    if explicit_active && negb (existsb is_active candidates)
    then candidates ++ [{| rw_identity := aw_identity active; rw_name := aw_name active;
                           rw_matched_pattern := "active"; rw_active := true; rw_scheduler := scheduler |}]
    else candidates in
  let candidates :=
    (fun c =>
       let live := explicit_active && is_active c in
       c <|rw_active := live|> <|rw_scheduler := if live then scheduler else SchedulerStatus_default|>)
    <$> candidates in
  let candidates :=
    if negb (caller_uid =? 0)
    then List.filter (fun c => uid (rw_identity c) =? caller_uid) candidates
    else candidates in
  sort_by_pid candidates.

(** ** What a caller is shown *)

Lemma sort_by_pid_sorted l : StronglySorted pid_le (sort_by_pid l).
Proof.
  apply StronglySorted_merge_sort; [|intros a b; unfold pid_le; lia].
  intros a b c. unfold pid_le. lia.
Qed.

Definition pids (l : list RunningWorkload) : list Z := (fun c => pid (rw_identity c)) <$> l.

Lemma pids_sort l : pids (sort_by_pid l) ≡ₚ pids l.
Proof. unfold pids, sort_by_pid. by rewrite merge_sort_Permutation. Qed.

Lemma pids_strict l : StronglySorted pid_le l -> NoDup (pids l) -> StronglySorted Z.lt (pids l).
Proof.
  intros Hs Hd. apply NoDup_sorted_lt; [done|]. induction Hs as [|c l Hs IH Hc]; [constructor|].
  apply NoDup_cons in Hd as [_ Hd]. constructor; [by apply IH|]. apply Forall_fmap. exact Hc.
Qed.

Lemma pids_filter_NoDup p l : NoDup (pids l) -> NoDup (pids (List.filter p l)).
Proof.
  intros Hd. induction l as [|c l IH]; [done|]. apply NoDup_cons in Hd as [Hc Hd]. cbn [List.filter].
  destruct (p c); [|auto]. cbn. apply NoDup_cons. split; [|auto].
  intros (d & Hd1 & Hd2)%list_elem_of_fmap. apply Hc, list_elem_of_fmap. exists d. split; [done|].
  rewrite list_elem_of_In in Hd2 |- *. by apply List.filter_In in Hd2 as [? _].
Qed.

Section snapshot.
Context (cached : list RunningWorkload) (active : ActiveWorkload) (scheduler : SchedulerStatus) (caller : Z).
Let explicit : bool := aw_present active && bool_decide (aw_source active = "explicit").
Let is_active (c : RunningWorkload) : bool := bool_decide (rw_identity c = aw_identity active).

Let kept : list RunningWorkload :=
  if explicit
  then List.filter (fun c => negb (pid (rw_identity c) =? pid (aw_identity active)) || is_active c) cached
  else cached.

Let with_active : list RunningWorkload :=
  if explicit && negb (existsb is_active kept)
  then kept ++ [{| rw_identity := aw_identity active; rw_name := aw_name active;
                   rw_matched_pattern := "active"; rw_active := true; rw_scheduler := scheduler |}]
  else kept.

Let marked : list RunningWorkload :=
  (fun c => let live := explicit && is_active c in
     c <|rw_active := live|> <|rw_scheduler := if live then scheduler else SchedulerStatus_default|>)
  <$> with_active.

Lemma kept_NoDup : NoDup (pids cached) -> NoDup (pids kept).
Proof. unfold kept. destruct explicit; [apply pids_filter_NoDup|done]. Qed.

Lemma with_active_NoDup : NoDup (pids cached) -> NoDup (pids with_active).
Proof.
  intros Hd%kept_NoDup. unfold with_active. destruct (explicit && _) eqn:Eb; [|done].
  apply andb_true_iff in Eb as [He Hx%negb_true_iff]. unfold pids. rewrite fmap_app. apply NoDup_app.
  split; [done|]. split; [|apply NoDup_singleton]. intros x (c & -> & Hc)%list_elem_of_fmap Hx'.
  apply list_elem_of_singleton in Hx'. unfold kept in Hc, Hx. rewrite He in Hc, Hx.
  rewrite list_elem_of_In in Hc. apply List.filter_In in Hc as Hf. destruct Hf as [_ Hf].
  simpl in Hx'. rewrite Hx', Z.eqb_refl in Hf. simpl in Hf.
  assert (existsb is_active (List.filter (fun c0 =>
    negb (pid (rw_identity c0) =? pid (aw_identity active)) || is_active c0) cached) = true) as Ht; [|congruence].
  apply existsb_exists. by exists c.
Qed.

Lemma marked_pids : pids marked = pids with_active.
Proof. unfold pids, marked. rewrite <- list_fmap_compose. by apply list_fmap_ext. Qed.

(** A row is marked exactly when it is the explicitly active workload. *)
Lemma marked_row row :
  row ∈ marked ->
  rw_active row = explicit && is_active row
  /\ rw_scheduler row = (if explicit && is_active row then scheduler else SchedulerStatus_default).
Proof. by intros (c & -> & _)%list_elem_of_fmap. Qed.

Lemma active_shown : explicit = true -> exists row, row ∈ marked /\ rw_identity row = aw_identity active.
Proof.
  intros He. assert (exists c, c ∈ with_active /\ rw_identity c = aw_identity active) as (c & Hc & Hi).
  { unfold with_active. rewrite He. simpl. destruct (existsb is_active kept) eqn:Ex; simpl.
    - apply existsb_exists in Ex as (c & Hc & Hi%bool_decide_eq_true). exists c. by rewrite list_elem_of_In.
    - eexists. split; [apply elem_of_app; right; by left|done]. }
  eexists. split; [apply list_elem_of_fmap; by exists c|done].
Qed.

Lemma snapshot_workloads_eq :
  snapshot_workloads cached active scheduler caller
  = sort_by_pid (if negb (caller =? 0) then List.filter (fun c => uid (rw_identity c) =? caller) marked else marked).
Proof. done. Qed.

Lemma snapshot_row row :
  row ∈ snapshot_workloads cached active scheduler caller <->
  row ∈ marked /\ (caller <> 0 -> uid (rw_identity row) = caller).
Proof.
  rewrite snapshot_workloads_eq. unfold sort_by_pid. rewrite merge_sort_Permutation.
  destruct (Z.eqb_spec caller 0) as [->|Hc]; simpl; [by split; [|intros []]|].
  rewrite list_elem_of_In, List.filter_In, <- list_elem_of_In, Z.eqb_eq. naive_solver.
Qed.
End snapshot.

(** What a caller is shown of the running workloads: rows in the order of
    their process numbers, no number twice, even when the cache still holds a
    process whose number the active workload has taken over. Unless it is root
    it sees its own processes only. Exactly the explicitly active workload is
    marked active and carries scheduler state, and it is always shown to its
    owner and to root. *)
Theorem workloads_shown cached active scheduler caller :
  NoDup (pids cached) ->
  let explicit := aw_present active && bool_decide (aw_source active = "explicit") in
  let rows := snapshot_workloads cached active scheduler caller in
  StronglySorted Z.lt (pids rows)
  /\ (caller <> 0 -> forall row, row ∈ rows -> uid (rw_identity row) = caller)
  /\ (forall row, row ∈ rows ->
        rw_active row = explicit && bool_decide (rw_identity row = aw_identity active)
        /\ rw_scheduler row = (if rw_active row then scheduler else SchedulerStatus_default))
  /\ (explicit = true -> caller = 0 \/ caller = uid (aw_identity active) ->
        exists row, row ∈ rows /\ rw_identity row = aw_identity active).
Proof.
  intros Hd explicit rows. unfold rows. split; [|split; [|split]].
  - apply pids_strict; [apply sort_by_pid_sorted|]. rewrite snapshot_workloads_eq, pids_sort.
    apply (with_active_NoDup _ active scheduler) in Hd. rewrite <- marked_pids in Hd.
    destruct (negb (caller =? 0)); [by apply pids_filter_NoDup|done].
  - intros Hc row [_ Hu]%snapshot_row. auto.
  - intros row [[Ha Hs]%marked_row _]%snapshot_row. by rewrite Ha, Hs.
  - intros He Hu. destruct (active_shown cached active scheduler He) as (row & Hr & Hi). exists row.
    split; [|done]. apply snapshot_row. split; [done|]. rewrite Hi. intros. by destruct Hu.
Qed.

Definition row_of (p ticks u : Z) (name : string) : RunningWorkload :=
  {| rw_identity := {| pid := p; start_time_ticks := ticks; uid := u |}; rw_name := name;
     rw_matched_pattern := "wine"; rw_active := false; rw_scheduler := SchedulerStatus_default |}.
Definition game_active : ActiveWorkload :=
  {| aw_present := true; aw_identity := {| pid := 77; start_time_ticks := 1234; uid := 1000 |};
     aw_name := "replacement"; aw_requested_mode := ""; aw_effective_mode := "balance";
     aw_source := "explicit" |}.
Definition stale_cache : list RunningWorkload :=
  [row_of 12 120 1001 "wine"; row_of 77 770 1000 "wine64-preloader"; row_of 90 900 1000 "wineserver"].

Lemma workloads_shown_witness :
  pids (snapshot_workloads stale_cache game_active SchedulerStatus_default 1000) = [77; 90]
  /\ rw_name <$> snapshot_workloads stale_cache game_active SchedulerStatus_default 1000
     = ["replacement"; "wineserver"]
  /\ StronglySorted Z.lt (pids (snapshot_workloads stale_cache game_active SchedulerStatus_default 1000)).
Proof.
  split; [vm_compute; reflexivity|]. split; [vm_compute; reflexivity|].
  apply (workloads_shown stale_cache game_active SchedulerStatus_default 1000).
  apply (bool_decide_unpack _). vm_compute. exact Logic.I.
Defined.

(** ** What the cache holds *)

(** A row of the scan: a process with a matching name, below no owner. *)
Definition scanned (c : RunningWorkload) : Prop :=
  2 <= pid (rw_identity c)
  /\ exists info pattern, c = candidate info pattern /\ matched_game_pattern info = Some pattern.

Record cache_wf (l : list RunningWorkload) : Prop := {
  cw_nodup : NoDup (pids l);
  cw_bounded : (length l <= MAX_RUNNING_WORKLOADS)%nat;
  cw_sorted : StronglySorted pid_le l;
  cw_scanned : Forall scanned l;
}.

Section scan.
Context {W : Type}.
Context (list_processes : W -> (PlatformError + list Z) * W).
Context (identity_of : Z -> W -> (PlatformError + ProcessInfo) * W).
Hypothesis (Hlist : forall w l w', list_processes w = (inr l, w') -> NoDup l).
Hypothesis (Hidentity : forall p w info w', identity_of p w = (inr info, w') -> pid (identity info) = p).

Lemma scan_processes_wf processes candidates w l w' :
  NoDup processes -> NoDup (pids candidates) -> Forall scanned candidates ->
  (length candidates < MAX_RUNNING_WORKLOADS)%nat ->
  (forall p, p ∈ processes -> p ∉ pids candidates) ->
  scan_processes identity_of processes candidates w = (inr l, w') ->
  NoDup (pids l) /\ Forall scanned l /\ (length l <= MAX_RUNNING_WORKLOADS)%nat.
Proof.
  revert candidates w. induction processes as [|p processes IH]; intros candidates w Hp Hd Hf Hl Hnew.
  { cbn [scan_processes]. intros [= <- <-]. split; [done|]. split; [done|lia]. }
  apply NoDup_cons in Hp as [Hp1 Hp2].
  assert (Hskip : forall w, scan_processes identity_of processes candidates w = (inr l, w') ->
    NoDup (pids l) /\ Forall scanned l /\ (length l <= MAX_RUNNING_WORKLOADS)%nat).
  { intros w1. apply IH; try done. intros q Hq. apply Hnew. by right. }
  cbn [scan_processes]. destruct (Z.ltb_spec p 2); [apply Hskip|].
  destruct (identity_of p w) as [[e|info] w1] eqn:E.
  { destruct e; try apply Hskip; done. }
  destruct (matched_game_pattern info) as [pattern|] eqn:Em; [|apply Hskip].
  apply Hidentity in E. set (c := candidate info pattern).
  assert (Hd' : NoDup (pids (candidates ++ [c]))).
  { unfold pids. rewrite fmap_app. apply NoDup_app. split; [done|]. split; [|apply NoDup_singleton].
    intros q Hq Hq'. apply list_elem_of_singleton in Hq'. simpl in Hq'. rewrite E in Hq'. subst q.
    by apply (Hnew p); [left|]. }
  assert (Hf' : Forall scanned (candidates ++ [c])).
  { apply Forall_app. split; [done|]. constructor; [|constructor]. split; [simpl; lia|]. eauto. }
  destruct (Nat.eqb_spec (length (candidates ++ [c])) MAX_RUNNING_WORKLOADS) as [Hm|Hm].
  - intros [= <- <-]. rewrite Hm. auto.
  - intros Hs. eapply IH; [..|exact Hs]; try done.
    + rewrite length_app in *. simpl in *. lia.
    + intros q Hq. unfold pids. rewrite fmap_app. intros [Hin|Hin]%elem_of_app.
      * by apply (Hnew q); [right|].
      * apply list_elem_of_singleton in Hin. simpl in Hin. congruence.
Qed.

(** Every refresh leaves a well-formed cache, or an empty one when it fails. *)
Lemma refresh_wf available worker cached w r cached' w' :
  cache_wf cached -> refresh list_processes identity_of available worker cached w = (r, cached', w') ->
  cache_wf cached' /\ forall e, r = inl e -> cached' = [].
Proof.
  intros Hc. unfold refresh. destruct available; cbn [negb]; [|by intros [= <- <- <-]].
  assert (Hnil : cache_wf []).
  { constructor; [constructor|unfold MAX_RUNNING_WORKLOADS; simpl; lia|constructor..]. }
  destruct worker as [error|]; [by intros [= <- <- <-]|]. unfold scan_running_workloads.
  destruct (list_processes w) as [[e|processes] w1] eqn:E1; [by intros [= <- <- <-]|].
  destruct (scan_processes _ _ _ _) as [[e|l] w2] eqn:E2; intros [= <- <- <-]; [done|].
  apply scan_processes_wf in E2 as (H1 & H2 & H3);
    [|by eapply Hlist|constructor..|unfold MAX_RUNNING_WORKLOADS; simpl; lia|by intros p _ ?%elem_of_nil].
  split; [|done]. constructor.
  - by rewrite pids_sort.
  - unfold sort_by_pid. by rewrite merge_sort_Permutation.
  - apply sort_by_pid_sorted.
  - unfold sort_by_pid. by rewrite merge_sort_Permutation.
Qed.
End scan.

(** * Notifications

    [run_signal_pump] forwards what the state owner announces to D-Bus signals.
    The published snapshot may be replaced between any two of its reads: reads
    and emissions are a class. *)

Record HealthStatus := {
  hs_state : string;
  hs_read_only : bool;
  hs_recovery_pending : bool;
  hs_summary : text;
  hs_issues : list HealthIssue;
}.

Record StateProperties := {
  sp_config_generation : Z;
  sp_mode : string;
  sp_effective_profile : string;
  sp_dominant_scene : string;
}.
#[export] Instance StateProperties_eq_dec : EqDecision StateProperties.
Proof. solve_decision. Defined.

(** The parts of [PublishedState] the pump reads. *)
Record Published := {
  pb_state_revision : Z;
  pb_properties : StateProperties;
  pb_health : HealthStatus;
  pb_telemetry_sequence : Z;
  pb_active : ActiveWorkload;
  pb_scheduler : SchedulerStatus;
}.

Inductive Signal :=
| StateChanged (generation : Z)
| HealthChanged (health : HealthStatus)
| CapabilitiesChanged
| TelemetryUpdated (sequence : Z)
| RunningWorkloadsChanged
(** [PropertiesChanged], with the value a property has when it is announced *)
| PropConfigGeneration (z : Z)
| PropMode (s : string)
| PropEffectiveProfile (s : string)
| PropDominantScene (s : string)
| PropHealthInvalidated
| PropDegraded (b : bool).

(** [RuntimeEvent], and a receiver that fell behind. *)
Inductive PumpEvent :=
| PeStateChanged (generation : Z)
| PeHealthChanged (health : HealthStatus)
| PeCapabilitiesChanged
| PeLagged
| PeTelemetryTick
| PeScan (result : option (text + unit)).

Class PumpBus (W : Type) := {
  published : W -> Published * W;
  (** the candidates the scanner holds *)
  cached_candidates : W -> list RunningWorkload * W;
  (** whether the emission succeeded *)
  emit_signal : Signal -> W -> bool * W;
  (** [report_running_workload_health], whose result is dropped *)
  report_health : text + unit -> W -> W;
}.

Record PumpState := {
  pu_last_telemetry : option Z;
  pu_last_properties : StateProperties;
  pu_last_workloads : list RunningWorkload;
}.

Section pump.
Context {W : Type} `{!PumpBus W}.

(** [None]: an emission failed, which ends the pump. *)
Definition P (A : Type) : Type := W -> option A * W.
#[export] Instance P_ret : MRet P := fun A a w => (Some a, w).
#[export] Instance P_bind : MBind P := fun A B k m w =>
  let '(r, w) := m w in match r with Some a => k a w | None => (None, w) end.

Definition emit (s : Signal) : P unit := fun w =>
  let '(sent, w) := emit_signal s w in (if sent : bool then Some tt else None, w).
Definition read_published : P Published := fun w => let '(p, w) := published w in (Some p, w).

(** A property's change: its value is read when it is announced. *)
Definition announce (property : Published -> Signal) : P unit :=
  p ← read_published; emit (property p).

Definition announce_generation : P unit := announce (fun p => PropConfigGeneration (sp_config_generation (pb_properties p))).
Definition announce_mode : P unit := announce (fun p => PropMode (sp_mode (pb_properties p))).
Definition announce_profile : P unit := announce (fun p => PropEffectiveProfile (sp_effective_profile (pb_properties p))).
Definition announce_scene : P unit := announce (fun p => PropDominantScene (sp_dominant_scene (pb_properties p))).
Definition announce_degraded : P unit :=
  announce (fun p => PropDegraded (negb (bool_decide (hs_state (pb_health p) = "healthy")))).

(** [StateProperties::capture] *)
Definition capture : P StateProperties := p ← read_published; mret (pb_properties p).

Definition when_ (b : bool) (m : P unit) : P unit := if b then m else mret tt.

Definition emit_running_workloads_if_changed (previous : list RunningWorkload) : P (list RunningWorkload) :=
  p ← read_published;
  cached ← (fun w => let '(c, w) := cached_candidates w in (Some c, w));
  let current := snapshot_workloads cached (pb_active p) (pb_scheduler p) 0 in
  if bool_decide (current = previous) then mret previous
  else emit RunningWorkloadsChanged;; mret current.

(** One pass of the loop, without the end of the event stream and the shutdown. *)
Definition pump_turn (s : PumpState) (event : PumpEvent) : P PumpState :=
  match event with
  | PeStateChanged generation =>
      emit (StateChanged generation);;
      current ← capture;
      let last := pu_last_properties s in
      (if bool_decide (current = last) then mret tt
       else
         when_ (negb (sp_config_generation current =? sp_config_generation last)) announce_generation;;
         when_ (negb (bool_decide (sp_mode current = sp_mode last))) announce_mode;;
         when_ (negb (bool_decide (sp_effective_profile current = sp_effective_profile last))) announce_profile;;
         when_ (negb (bool_decide (sp_dominant_scene current = sp_dominant_scene last))) announce_scene);;
      workloads ← emit_running_workloads_if_changed (pu_last_workloads s);
      mret (s <|pu_last_properties := current|> <|pu_last_workloads := workloads|>)
  | PeHealthChanged health =>
      emit (HealthChanged health);;
      emit PropHealthInvalidated;;
      announce_degraded;;
      mret s
  | PeCapabilitiesChanged => emit CapabilitiesChanged;; mret s
  | PeLagged =>
      p ← read_published;
      emit (StateChanged (pb_state_revision p));;
      emit (HealthChanged (pb_health p));;
      emit CapabilitiesChanged;;
      announce_generation;;
      announce_mode;;
      announce_profile;;
      announce_scene;;
      emit PropHealthInvalidated;;
      announce_degraded;;
      current ← capture;
      mret (s <|pu_last_properties := current|>)
  | PeTelemetryTick =>
      p ← read_published;
      let sequence := pb_telemetry_sequence p in
      if bool_decide (pu_last_telemetry s = Some sequence) then mret s
      else
        emit (TelemetryUpdated sequence);;
        mret (s <|pu_last_telemetry := Some sequence|>)
  | PeScan result =>
      match result with
      | Some result => (fun w => (Some tt, report_health result w))
      | None => mret tt
      end;;
      workloads ← emit_running_workloads_if_changed (pu_last_workloads s);
      mret (s <|pu_last_workloads := workloads|>)
  end.

Fixpoint run_pump (s : PumpState) (events : list PumpEvent) : P PumpState :=
  match events with
  | [] => mret s
  | event :: events => s ← pump_turn s event; run_pump s events
  end.
End pump.

(** ** What a client knows *)

(** A client that keeps the properties it was told. *)
Definition told (known : StateProperties) (s : Signal) : StateProperties :=
  match s with
  | PropConfigGeneration z => known <|sp_config_generation := z|>
  | PropMode m => known <|sp_mode := m|>
  | PropEffectiveProfile m => known <|sp_effective_profile := m|>
  | PropDominantScene m => known <|sp_dominant_scene := m|>
  | _ => known
  end.

Section client.
Context {W : Type} `{!PumpBus W}.
(** what is published, and what the client has been told *)
Context (current : W -> StateProperties) (known : W -> StateProperties).

(** A world in which nothing is published while the pump takes a turn. *)
Record settled : Prop := {
  st_published w p w' : published w = (p, w') ->
    pb_properties p = current w /\ current w' = current w /\ known w' = known w;
  st_cached w c w' : cached_candidates w = (c, w') -> current w' = current w /\ known w' = known w;
  st_emit w s b w' : emit_signal s w = (b, w') ->
    current w' = current w /\ known w' = (if b then told (known w) s else known w);
  st_report w r : current (report_health r w) = current w /\ known (report_health r w) = known w;
}.
Context (Hsettled : settled).

Definition at_ (c k : StateProperties) (w : W) : Prop := current w = c /\ known w = k.

Lemma P_bind_Some {A B} (m : P (W := W) A) (k : A -> P (W := W) B) w b w' :
  (m ≫= k) w = (Some b, w') -> exists a w1, m w = (Some a, w1) /\ k a w1 = (Some b, w').
Proof. unfold mbind, P_bind. destruct (m w) as [[a|] w1]; [eauto|done]. Qed.

Lemma emit_at s c k w u w' : at_ c k w -> emit s w = (Some u, w') -> at_ c (told k s) w'.
Proof.
  intros [Hc Hk]. unfold emit. destruct (emit_signal s w) as [sent w1] eqn:E.
  apply (st_emit Hsettled) in E as [E1 E2]. destruct sent; [|done]. intros [= _ <-]. split; congruence.
Qed.

Lemma read_published_at c k w p w' : at_ c k w -> read_published w = (Some p, w') -> pb_properties p = c /\ at_ c k w'.
Proof.
  intros [Hc Hk]. unfold read_published. destruct (published w) as [p1 w1] eqn:E.
  apply (st_published Hsettled) in E as (E1 & E2 & E3). intros [= <- <-]. unfold at_. split_and!; congruence.
Qed.

Lemma announce_at f c k w u w' :
  at_ c k w -> announce f w = (Some u, w') -> exists p, pb_properties p = c /\ at_ c (told k (f p)) w'.
Proof.
  intros Ha (p & w1 & E1 & E2)%P_bind_Some. apply (read_published_at c k) in E1 as [Hp E1]; [|done].
  exists p. split; [done|]. by eapply emit_at.
Qed.

Lemma when_at b (m : P (W := W) unit) c k k' w u w' :
  at_ c k w -> when_ b m w = (Some u, w') ->
  (forall u w', m w = (Some u, w') -> at_ c k' w') -> (b = false -> k' = k) -> at_ c k' w'.
Proof.
  intros Ha. unfold when_. destruct b; [intros E H _; by eapply H|]. intros [= _ <-] _ H. by rewrite H.
Qed.

Lemma workloads_at previous c k w l w' :
  at_ c k w -> emit_running_workloads_if_changed previous w = (Some l, w') -> at_ c k w'.
Proof.
  intros Ha (p & w1 & E1 & (cached & w2 & E2 & E3)%P_bind_Some)%P_bind_Some.
  apply (read_published_at c k) in E1 as [_ [Hc Hk]]; [|done].
  destruct (cached_candidates w1) as [l1 w3] eqn:E. apply (st_cached Hsettled) in E as [H1 H2].
  injection E2 as <- <-. assert (Ha2 : at_ c k w3) by (split; congruence).
  cbv beta zeta in E3. case_bool_decide; [by injection E3 as <- <-|].
  apply P_bind_Some in E3 as (u & w4 & E4 & [= <- <-]). apply (emit_at _ c k) in E4; done.
Qed.

(** The four announcements bring a client that knows [last] up to date. *)
Lemma announce_changes_at c last w u w' :
  at_ c last w ->
  (when_ (negb (sp_config_generation c =? sp_config_generation last)) announce_generation;;
   when_ (negb (bool_decide (sp_mode c = sp_mode last))) announce_mode;;
   when_ (negb (bool_decide (sp_effective_profile c = sp_effective_profile last))) announce_profile;;
   when_ (negb (bool_decide (sp_dominant_scene c = sp_dominant_scene last))) announce_scene) w = (Some u, w') ->
  at_ c c w'.
Proof.
  intros Ha (u1 & w1 & E1 & (u2 & w2 & E2 & (u3 & w3 & E3 & E4)%P_bind_Some)%P_bind_Some)%P_bind_Some.
  destruct c as [g m f s], last as [g0 m0 f0 s0]; cbn in *.
  apply (when_at _ _ _ _ {| sp_config_generation := g; sp_mode := m0; sp_effective_profile := f0; sp_dominant_scene := s0 |}
    _ _ _ Ha) in E1;
    [|intros ? ? (p & Hp & ?)%(announce_at _ _ _ _ _ _ Ha); rewrite Hp in *; done
     |intros ->%negb_false_iff%Z.eqb_eq; done].
  apply (when_at _ _ _ _ {| sp_config_generation := g; sp_mode := m; sp_effective_profile := f0; sp_dominant_scene := s0 |}
    _ _ _ E1) in E2;
    [|intros ? ? (p & Hp & ?)%(announce_at _ _ _ _ _ _ E1); rewrite Hp in *; done
     |intros ->%negb_false_iff%bool_decide_eq_true; done].
  apply (when_at _ _ _ _ {| sp_config_generation := g; sp_mode := m; sp_effective_profile := f; sp_dominant_scene := s0 |}
    _ _ _ E2) in E3;
    [|intros ? ? (p & Hp & ?)%(announce_at _ _ _ _ _ _ E2); rewrite Hp in *; done
     |intros ->%negb_false_iff%bool_decide_eq_true; done].
  apply (when_at _ _ _ _ {| sp_config_generation := g; sp_mode := m; sp_effective_profile := f; sp_dominant_scene := s |}
    _ _ _ E3) in E4; [done
     |intros ? ? (p & Hp & ?)%(announce_at _ _ _ _ _ _ E3); rewrite Hp in *; done
     |intros ->%negb_false_iff%bool_decide_eq_true; done].
Qed.

Definition informs (event : PumpEvent) : bool :=
  match event with PeStateChanged _ | PeLagged => true | _ => false end.

Lemma pump_turn_at s event c w s' w' :
  at_ c (pu_last_properties s) w -> pump_turn s event w = (Some s', w') ->
  at_ c (pu_last_properties s') w' /\ (informs event = true -> pu_last_properties s' = c).
Proof.
  intros Ha. destruct event as [generation|health| | | |result]; cbn [pump_turn informs].
  - intros (u1 & w1 & E1 & (cur & w2 & E2 & (u3 & w3 & E3 & (l & w4 & E4 & [= <- <-])%P_bind_Some)%P_bind_Some)%P_bind_Some)%P_bind_Some.
    apply (emit_at _ _ _ _ _ _ Ha) in E1. cbn in E1.
    apply P_bind_Some in E2 as (p & w5 & E5 & [= <- <-]).
    apply (read_published_at _ _ _ _ _ E1) in E5 as [Hp E5]. rewrite Hp in *.
    assert (E6 : at_ c c w3).
    { cbv beta zeta in E3. case_bool_decide as Hc; [injection E3 as _ <-; by rewrite <- Hc in E5|]. by eapply announce_changes_at. }
    apply (workloads_at _ _ _ _ _ _ E6) in E4. by split.
  - intros (u1 & w1 & E1 & (u2 & w2 & E2 & (u3 & w3 & E3 & [= <- <-])%P_bind_Some)%P_bind_Some)%P_bind_Some.
    apply (emit_at _ _ _ _ _ _ Ha) in E1. apply (emit_at _ _ _ _ _ _ E1) in E2.
    apply (announce_at _ _ _ _ _ _ E2) in E3 as (p & _ & E3). by split.
  - intros (u1 & w1 & E1 & [= <- <-])%P_bind_Some. apply (emit_at _ _ _ _ _ _ Ha) in E1. by split.
  - intros (p0 & w0 & E0 & (u1 & w1 & E1 & (u2 & w2 & E2 & (u3 & w3 & E3 & (u4 & w4 & E4 & (u5 & w5 & E5 & (u6 & w6 & E6
      & (u7 & w7 & E7 & (u8 & w8 & E8 & (u9 & w9 & E9 & (cur & w10 & E10 & [= <- <-])%P_bind_Some)%P_bind_Some)%P_bind_Some)%P_bind_Some)%P_bind_Some)%P_bind_Some)%P_bind_Some)%P_bind_Some)%P_bind_Some)%P_bind_Some)%P_bind_Some.
    apply (read_published_at _ _ _ _ _ Ha) in E0 as [_ E0].
    apply (emit_at _ _ _ _ _ _ E0) in E1. apply (emit_at _ _ _ _ _ _ E1) in E2. apply (emit_at _ _ _ _ _ _ E2) in E3.
    apply (announce_at _ _ _ _ _ _ E3) in E4 as (p4 & H4 & E4). apply (announce_at _ _ _ _ _ _ E4) in E5 as (p5 & H5 & E5).
    apply (announce_at _ _ _ _ _ _ E5) in E6 as (p6 & H6 & E6). apply (announce_at _ _ _ _ _ _ E6) in E7 as (p7 & H7 & E7).
    apply (emit_at _ _ _ _ _ _ E7) in E8. apply (announce_at _ _ _ _ _ _ E8) in E9 as (p9 & _ & E9).
    apply P_bind_Some in E10 as (p & w11 & E11 & [= <- <-]).
    apply (read_published_at _ _ _ _ _ E9) in E11 as [-> E11]. cbn. unfold constant. split; [|done].
    rewrite H4, H5, H6, H7 in E11. cbn in E11. destruct c, (pu_last_properties s). exact E11.
  - intros (p & w1 & E1 & E2)%P_bind_Some. apply (read_published_at _ _ _ _ _ Ha) in E1 as [_ E1].
    cbv beta zeta in E2. case_bool_decide; [injection E2 as <- <-; by split|].
    apply P_bind_Some in E2 as (u & w2 & E2 & [= <- <-]). apply (emit_at _ _ _ _ _ _ E1) in E2. by split.
  - intros (u & w1 & E1 & (l & w2 & E2 & [= <- <-])%P_bind_Some)%P_bind_Some.
    assert (Ha1 : at_ c (pu_last_properties s) w1).
    { destruct result as [r|]; injection E1 as _ <-; [|done]. destruct Ha as [Hc Hk].
      destruct (st_report Hsettled w r) as [H1 H2]. split; congruence. }
    apply (workloads_at _ _ _ _ _ _ Ha1) in E2. by split.
Qed.
End client.

(** Turns of the pump, between which anything may be published. *)
Inductive pumped {W} `{!PumpBus W} (known : W -> StateProperties) (s : PumpState) (w : W)
  : PumpState -> W -> Prop :=
| pumped_start : pumped known s w s w
| pumped_turn s1 w1 event s2 w2 :
    pumped known s w s1 w1 -> pump_turn s1 event w1 = (Some s2, w2) -> pumped known s w s2 w2
| pumped_publish s1 w1 w2 :
    pumped known s w s1 w1 -> known w2 = known w1 -> pumped known s w s1 w2.


(** A published state that is replaced at the reads the script says, and a client. *)
Record PumpSim := { ps_script : list Published; ps_known : StateProperties; ps_signals : list Signal }.

Definition healthy : HealthStatus :=
  {| hs_state := "healthy"; hs_read_only := false; hs_recovery_pending := false; hs_summary := []; hs_issues := [] |}.
Definition properties (generation : Z) (m : string) : StateProperties :=
  {| sp_config_generation := generation; sp_mode := m; sp_effective_profile := "balance"; sp_dominant_scene := "idle" |}.
Definition snapshot_of (generation : Z) (m : string) : Published :=
  {| pb_state_revision := generation; pb_properties := properties generation m; pb_health := healthy;
     pb_telemetry_sequence := 0; pb_active := game_active; pb_scheduler := SchedulerStatus_default |}.

(** The last element of the script stays. *)
Definition head_of (l : list Published) : Published := default (snapshot_of 0 "auto") (head l).

#[export] Instance sim_pump : PumpBus PumpSim := {
  published w := (head_of (ps_script w),
                  w <|ps_script := match ps_script w with _ :: (_ :: _) as rest => rest | l => l end|>);
  cached_candidates w := ([], w);
  emit_signal s w := (true, w <|ps_known := told (ps_known w) s|> <|ps_signals := ps_signals w ++ [s]|>);
  report_health _ w := w;
}.

Definition sim_pump_world (script : list Published) : PumpSim :=
  {| ps_script := script; ps_known := properties 1 "auto"; ps_signals := [] |}.
Definition sim_pump_state : PumpState :=
  {| pu_last_telemetry := None; pu_last_properties := properties 1 "auto"; pu_last_workloads := [] |}.

(** The same pump over a state that does not change while it takes its turns. *)
Record Quiet := { qu_now : Published; qu_known : StateProperties }.
#[export] Instance quiet_pump : PumpBus Quiet := {
  published w := (qu_now w, w);
  cached_candidates w := ([], w);
  emit_signal s w := (true, w <|qu_known := told (qu_known w) s|>);
  report_health _ w := w;
}.

Definition quiet_world : Quiet := {| qu_now := snapshot_of 2 "performance"; qu_known := properties 1 "auto" |}.

Lemma quiet_settled : settled (fun w => pb_properties (qu_now w)) qu_known.
Proof.
  constructor; simpl.
  - by intros w p w' [= <- <-].
  - by intros w c w' [= <- <-].
  - by intros w s b w' [= <- <-].
  - done.
Qed.


(** A state published between the last announcement after a gap and the capture
    that follows is taken for announced: the client is not told of it, neither
    then nor when its own event arrives. *)
Lemma change_after_gap_not_announced :
  let old := snapshot_of 1 "auto" in
  let new := snapshot_of 2 "performance" in
  let end_ := (run_pump sim_pump_state [PeLagged; PeStateChanged 2]
                 (sim_pump_world [old; old; old; old; old; old; new])).2 in
  pb_properties (head_of (ps_script end_)) = properties 2 "performance"
  /\ ps_known end_ = properties 1 "auto".
Proof. split; vm_compute; reflexivity. Qed.
