(* ===== verification/Startup.v ===== *)
(** * Startup and crash recovery ([uperf-daemon/src/main.rs], [uperf-actuator/src/lib.rs])

    The options of the daemon, the identity of the boot and of the device, the
    inspection of the journal before any configuration is read, and the recovery
    actuator built from what the journal says about itself and what the hardware
    says now. The adapters of sysfs are a class; the ports of the recovery
    actuator depend on the write allowlist its sysfs was opened with. The
    theorems say who may command a daemon that was started so, that the registry
    is the journal's, and that the journal of another boot or device is never
    applied. *)

From coqutil Require Import Datatypes.RecordSetters.
From S2P Require Import Prelude Float64 Domain Text Strings ActuatorTypes Scalars Targets Journal JournalFacts Ports FrequencyOps ScalarOps TaskOps UnitOps Recovery Ownership SimMachine DaemonTypes Evdev DaemonConfig Systemd RuntimeTypes Service.

(** ** Options *)

Record Options := {
  op_config_dir : string;
  op_device_profile_dir : string;
  op_state_dir : string;
  op_runtime_dir : string;
  op_fixture_root : option string;
  op_session_bus : bool;
  op_read_only : bool;
}.

Definition Options_default : Options := {|
  op_config_dir := "/etc/uperf-linux";
  op_device_profile_dir := "/usr/share/uperf-linux/devices";
  op_state_dir := "/var/lib/uperf-linux";
  op_runtime_dir := "/run/uperf-linux";
  op_fixture_root := None;
  op_session_bus := false;
  op_read_only := false;
|}.

(** What parsing the arguments ends with: options, a message and a clean exit,
    or an error. *)
Inductive Parsed := Run (o : Options) | ExitWith (message : text) | Bad (e : text).

(** The options that take a path, and the field each sets. *)
Definition path_option (argument : string) : option (Options -> string -> Options) :=
  if bool_decide (argument = "--config-dir") then Some (fun o path => o <|op_config_dir := path|>)
  else if bool_decide (argument = "--device-profile-dir") then Some (fun o path => o <|op_device_profile_dir := path|>)
  else if bool_decide (argument = "--state-dir") then Some (fun o path => o <|op_state_dir := path|>)
  else if bool_decide (argument = "--runtime-dir") then Some (fun o path => o <|op_runtime_dir := path|>)
  else if bool_decide (argument = "--fixture-root") then Some (fun o path => o <|op_fixture_root := Some path|>)
  else None.

Section options.
(** [CARGO_PKG_VERSION] *)
Context (version : string).

(** The help text, line ends and all. *)
Definition usage : text :=
  let next := "\" +:+ String newline "+                     " in
  [PText ("Usage: uperf-linux [--config-dir PATH] [--device-profile-dir PATH] " +:+ next
          +:+ "[--state-dir PATH] [--runtime-dir PATH] [--read-only] " +:+ next
          +:+ "[--session] [--fixture-root PATH]")].

(** The checks once every argument is read. *)
Definition check_options (o : Options) : Parsed :=
  if is_some_and (op_fixture_root o) (fun _ => true) && negb (op_read_only o)
  then Bad [PText "--fixture-root requires --read-only"]
  else if op_session_bus o && negb (op_read_only o)
  then Bad [PText "--session requires --read-only; mutation is exposed only on the protected system bus"]
  else Run o.

(** The loop over the arguments; a path takes the next one ([next_path]). *)
Fixpoint parse_arguments (o : Options) (arguments : list string) : Parsed :=
  match arguments with
  | [] => check_options o
  | argument :: arguments =>
      match path_option argument with
      | Some set_path =>
          match arguments with
          | path :: arguments => parse_arguments (set_path o path) arguments
          | [] => Bad [PText argument; PText " requires a path"]
          end
      | None =>
          if bool_decide (argument = "--session") then parse_arguments (o <|op_session_bus := true|>) arguments
          else if bool_decide (argument = "--read-only") then parse_arguments (o <|op_read_only := true|>) arguments
          else if bool_decide (argument = "--version") then ExitWith [PText "uperf-linux "; PText version]
          else if bool_decide (argument = "--help") || bool_decide (argument = "-h") then ExitWith usage
          else Bad [PText "unknown option "; PText argument]
      end
  end.

Definition parse_options (arguments : list string) : Parsed := parse_arguments Options_default arguments.
End options.

(** What [run] makes of the options: who may ask, and whether there is an
    actuator at all. *)
Definition authorization_of (o : Options) : AuthorizationMode :=
  if op_session_bus o then DevelopmentSession else PolicyKit.
Definition mutates (o : Options) : bool := negb (op_read_only o).

(** [record_shutdown_error]: the first error is kept. *)
Definition record_shutdown_error (first : option text) (error : text) : option text :=
  match first with None => Some error | Some _ => first end.

(** ** Who this machine is *)

Section identity.
(** The digest in hexadecimal. *)
Context (sha256 : list Ascii.ascii -> string).

Definition fingerprint_input (d : LinuxDiscovery) : list Ascii.ascii :=
  bytes "uperf-linux-device-fingerprint-v2" ++ [Ascii.zero]
  ++ match dc_device_name (ld_capabilities d) with Some name => bytes name ++ [Ascii.zero] | None => [] end
  ++ (dc_compatible (ld_capabilities d) ≫= fun compatible => bytes compatible ++ [Ascii.zero]).

Definition device_fingerprint (d : LinuxDiscovery) : string := sha256 (fingerprint_input d).
End identity.

(** [read_boot_id] of what the file holds. *)
Definition read_boot_id (path : string) (value : IoError + string) : res string text :=
  match value with
  | inl _ => Err [PText "read boot ID "; PText path]
  | inr value =>
      let value := trim_str value in
      if bool_decide (value = "") then Err [PText "kernel boot ID is empty; refusing to enable mutation"] else Ok value
  end.

(** ** The journal's own account of itself *)

Inductive RecoveryResourceTarget :=
| TargetPair (m : RecoveryFrequencyTargetManifest)
| TargetScalar (m : RecoveryScalarTargetManifest).

Record RecoveryManifest := {
  rm_schema_version : Z;
  rm_boot_id : string;
  rm_device_fingerprint : string;
  rm_resource_targets : list RecoveryResourceTarget;
  rm_frequency_targets : list RecoveryFrequencyTargetManifest;
  rm_has_tasks : bool;
  rm_has_systemd_units : bool;
}.

Definition frequency_write_paths (m : RecoveryManifest) : list string :=
  rm_frequency_targets m ≫= fun t => [rf_min_path t; rf_max_path t].

Definition scalar_write_paths (m : RecoveryManifest) : list string :=
  omap (fun t => match t with TargetScalar t => Some (rs_path t) | TargetPair _ => None end)
    (rm_resource_targets m).

Definition resource_write_paths (m : RecoveryManifest) : list string :=
  frequency_write_paths m ++ scalar_write_paths m.

(** [RecoveryManifest::self_describing_registry] *)
Definition sort_resource (acc : list FrequencyTarget * list ScalarTarget) (t : RecoveryResourceTarget)
  : result (list FrequencyTarget * list ScalarTarget) :=
  match t with
  | TargetPair m => let? t := to_frequency_target m in Ok (acc.1 ++ [t], acc.2)
  | TargetScalar m => let? t := to_scalar_target m in Ok (acc.1, acc.2 ++ [t])
  end.

Definition self_describing_registry (m : RecoveryManifest) : result TargetRegistry :=
  let? (frequencies, scalars) := res_foldM sort_resource ([], []) (rm_resource_targets m) in
  let? registry := TargetRegistry_new frequencies in
  with_scalar_targets registry scalars.

(** What [inspect_recovery_journal] makes of a decoded journal. *)
Definition manifest_of (j : Journal) : result (option RecoveryManifest) :=
  if journal_is_empty j then Ok None
  else
    let? frequency_targets := res_mapM recovery_frequency_manifest (values (j_entries j)) in
    let? scalars := res_mapM recovery_scalar_manifest (values (j_scalars j)) in
    Ok (Some {|
      rm_schema_version := j_schema_version j;
      rm_boot_id := j_boot_id j;
      rm_device_fingerprint := j_device_fingerprint j;
      rm_resource_targets := (TargetPair <$> frequency_targets) ++ (TargetScalar <$> scalars);
      rm_frequency_targets := frequency_targets;
      rm_has_tasks := negb (bool_decide (j_tasks j = ∅));
      rm_has_systemd_units := negb (bool_decide (j_units j = ∅));
    |}).

Section startup.
Context {W : Type} `{JournalCodec}.

(** The sysfs of an allowlist, and what it makes of the ports. *)
Class StartupEnv := {
  discover_recovery : W -> (PlatformError + LinuxDiscovery) * W;
  discover_identity : W -> LinuxDiscovery * W;
  open_recovery_sysfs : list string -> W -> (PlatformError + unit) * W;
  ports_of : list string -> Ports W;
}.
Context `{!StartupEnv}.

(** [store.load()]: the store is the same whatever the allowlist. *)
Definition inspect_recovery_journal (w : W) : result (option RecoveryManifest) * W :=
  let '(r, w) := store_load (Ports := ports_of []) w in
  (match r with
   | inl e => Err (Platform e)
   | inr None => Ok None
   | inr (Some l) => let? j := decode_journal l in manifest_of j
   end, w).

(** ** Live hardware *)

Record LiveFrequencyTarget := {
  lt_limits : FrequencyLimits;
  lt_opps : list Hertz;
  lt_hertz_per_unit : Z;
}.

Definition capability_of (d : LinuxDiscovery) (id : string) : option (FrequencyLimits * list Hertz) :=
  or_else
    ((fun c => (cpc_limits c, cpc_available_frequencies c))
       <$> List.find (fun c => bool_decide (cpc_id c = id)) (dc_cpu_policies (ld_capabilities d)))
    ((fun c => (dfc_limits c, dfc_available_frequencies c))
       <$> List.find (fun c => bool_decide (dfc_id c = id)) (dc_devfreq_targets (ld_capabilities d))).

Definition live_target_for_paths (d : LinuxDiscovery) (minimum maximum : string)
  : res LiveFrequencyTarget text :=
  match List.filter (fun p => path_eqb (ftp_minimum p) minimum && path_eqb (ftp_maximum p) maximum)
          (values (ld_frequency_targets d)) with
  | [paths] =>
      let? capability :=
        ok_or (capability_of d (ftp_id paths))
          [PText "discovered recovery paths have no matching capability "; PText (ftp_id paths)] in
      Ok {| lt_limits := capability.1; lt_opps := capability.2; lt_hertz_per_unit := ftp_hertz_per_unit paths |}
  | _ =>
      Err [PText "recovery paths "; PText minimum; PText " and "; PText maximum;
           PText " do not identify exactly one discovered target"]
  end.

Definition validate_self_describing_target (m : RecoveryFrequencyTargetManifest) (d : LinuxDiscovery)
  : res unit text :=
  let? live := live_target_for_paths d (rf_min_path m) (rf_max_path m) in
  reject_if
    (negb (rf_hardware_min m =? lim_min (lt_limits live)) || negb (rf_hardware_max m =? lim_max (lt_limits live))
     || negb (bool_decide (rf_opps m = lt_opps live)) || negb (rf_hertz_per_unit m =? lt_hertz_per_unit live))
    [PText (rf_id m); PText " recovery manifest no longer matches live hardware identity"].

Definition actuator_text {A} (r : result A) : res A text := map_err (fun e => [PActuator e]) r.

(** One resource of the manifest. *)
Definition recovery_resource (d : LinuxDiscovery) (acc : list FrequencyTarget * list ScalarTarget)
    (t : RecoveryResourceTarget) : res (list FrequencyTarget * list ScalarTarget) text :=
  match t with
  | TargetPair m =>
      do? validate_self_describing_target m d in
      let? t := actuator_text (to_frequency_target m) in
      Ok (acc.1 ++ [t], acc.2)
  | TargetScalar m => let? t := actuator_text (to_scalar_target m) in Ok (acc.1, acc.2 ++ [t])
  end.

Definition recovery_registry (m : RecoveryManifest) (d : LinuxDiscovery) : res TargetRegistry text :=
  let? (frequencies, scalars) := res_foldM (recovery_resource d) ([], []) (rm_resource_targets m) in
  let? registry := actuator_text (TargetRegistry_new frequencies) in
  actuator_text (with_scalar_targets registry scalars).

(** ** Recovery before configuration *)

Record MutationBackends := { mb_process : bool; mb_systemd : bool }.

(** [attach_backends] *)
Definition recovery_actuator (registry : TargetRegistry) (boot_id fingerprint : string)
    (backends : MutationBackends) : Actuator :=
  {| act_registry := registry; act_boot_id := boot_id; act_device_fingerprint := fingerprint;
     act_proc_reader := mb_process backends; act_process_controller := mb_process backends;
     act_systemd := mb_systemd backends |}.

(** How it ends: with the reason why recovery failed, if it did, and what the
    recovery actuator did. *)
Definition Recovery : Type := res (option text) ActuatorError * list Event * W.

(** The recovery actuator over a sysfs that may write [write_paths]. *)
Definition run_recovery (registry : TargetRegistry) (write_paths : list string) (boot_id fingerprint : string)
    (backends : MutationBackends) (w : W) : Recovery :=
  let '(sysfs, w) := open_recovery_sysfs write_paths w in
  match sysfs with
  | inl error => (Ok (Some [PText "cannot construct recovery sysfs allowlist: "; PPlatform error]), [], w)
  | inr _ =>
      let a := recovery_actuator registry boot_id fingerprint backends in
      let start := FrequencyActuator_new (Ports0 := ports_of write_paths) a w in
      let '(r, s) := recover_pending (Ports0 := ports_of write_paths) a start in
      (match r with Ok _ => Ok None | Err e => Ok (Some [PActuator e]) | Panic => Panic end, st_log s, st_world s)
  end.

(** [environment.discover_*]: frequency targets are discovered only when the
    journal owns some. *)
Definition recovery_discovery (m : RecoveryManifest) (w : W) : res LinuxDiscovery text * W :=
  if existsb (fun t => match t with TargetPair _ => true | TargetScalar _ => false end) (rm_resource_targets m)
  then
    let '(r, w) := discover_recovery w in
    (match r with
     | inl error => Err [PText "cannot discover journal-owned frequency targets: "; PPlatform error]
     | inr d => Ok d
     end, w)
  else let '(d, w) := discover_identity w in (Ok d, w).

Definition empty_registry_ : TargetRegistry := {| reg_targets := ∅; reg_scalar_targets := ∅ |}.

(** The registry and the allowlist: another boot, or another device, gets neither. *)
Definition recovery_targets (m : RecoveryManifest) (supplied : option LinuxDiscovery) (boot_id fingerprint : string)
    (w : W) : res (TargetRegistry * list string) text * W :=
  if bool_decide (rm_boot_id m = boot_id) && bool_decide (rm_device_fingerprint m = fingerprint) then
    let '(discovery, w) :=
      match supplied with
      | Some d => (Ok d, w)
      | None => recovery_discovery m w
      end in
    ((let? d := discovery in
      let? registry :=
        map_err (fun e => PText "cannot resolve recovery manifest: " :: e) (recovery_registry m d) in
      Ok (registry, resource_write_paths m)), w)
  else (Ok (empty_registry_, []), w).

Definition recover_before_configuration (supplied : option LinuxDiscovery) (boot_id fingerprint : string)
    (backends : MutationBackends) (w : W) : Recovery :=
  let '(inspected, w) := inspect_recovery_journal w in
  match inspected with
  | Err error => (Ok (Some [PText "cannot inspect recovery journal: "; PActuator error]), [], w)
  | Panic => (Panic, [], w)
  | Ok None => (Ok None, [], w)
  | Ok (Some manifest) =>
      let '(targets, w) := recovery_targets manifest supplied boot_id fingerprint w in
      match targets with
      | Err reason => (Ok (Some reason), [], w)
      | Panic => (Panic, [], w)
      | Ok (registry, write_paths) => run_recovery registry write_paths boot_id fingerprint backends w
      end
  end.
End startup.

(** * What the fingerprint tells apart *)

Definition no_nul (s : string) : Prop := Ascii.zero ∉ bytes s.

Lemma nul_ends a b x y :
  no_nul a -> no_nul b -> bytes a ++ Ascii.zero :: x = bytes b ++ Ascii.zero :: y -> a = b /\ x = y.
Proof.
  intros Ha Hb E. assert (bytes a = bytes b /\ x = y) as [Eab ->].
  { revert Ha Hb E. unfold no_nul. generalize (bytes b). induction (bytes a) as [|c l IH]; intros [|c' l']; simpl.
    - intros _ _ [= ->]. done.
    - intros _ Hb [= <- _]. destruct Hb. left.
    - intros Ha _ [= -> _]. destruct Ha. left.
    - rewrite !not_elem_of_cons. intros [_ Ha] [_ Hb] [= -> E]. destruct (IH l' Ha Hb E) as [-> ->]. done. }
  split; [|done]. rewrite <- (String.string_of_list_ascii_of_string a), <- (String.string_of_list_ascii_of_string b).
  by f_equal.
Qed.

Lemma nul_ends_all l k :
  Forall no_nul l -> Forall no_nul k ->
  (l ≫= fun c => bytes c ++ [Ascii.zero]) = (k ≫= fun c => bytes c ++ [Ascii.zero]) -> l = k.
Proof.
  revert k. induction l as [|a l IH]; intros [|b k]; cbn [mbind list_bind].
  - done.
  - intros _ _ E. by destruct (bytes b).
  - intros _ _ E. by destruct (bytes a).
  - rewrite !Forall_cons. intros [Ha Hl] [Hb Hk]. rewrite <- !(assoc_L (++)). simpl. intros E.
    destruct (nul_ends _ _ _ _ Ha Hb E) as [-> E']. f_equal. by apply IH.
Qed.

(** Two devices that both have a name are told apart by it and by their
    compatible strings, up to a collision of the digest. *)
Lemma fingerprint_input_injective d d' name name' :
  dc_device_name (ld_capabilities d) = Some name -> dc_device_name (ld_capabilities d') = Some name' ->
  Forall no_nul (name :: dc_compatible (ld_capabilities d)) ->
  Forall no_nul (name' :: dc_compatible (ld_capabilities d')) ->
  fingerprint_input d = fingerprint_input d' ->
  name = name' /\ dc_compatible (ld_capabilities d) = dc_compatible (ld_capabilities d').
Proof.
  intros Hn Hn' H H' E. unfold fingerprint_input in E. rewrite Hn, Hn' in E. apply app_inv_head, app_inv_head in E.
  pose proof (nul_ends_all (name :: dc_compatible (ld_capabilities d))
    (name' :: dc_compatible (ld_capabilities d')) H H' E) as [= -> ->]. done.
Qed.

Definition sim_device (name : option string) (compatible : list string) : LinuxDiscovery :=
  {| ld_capabilities := {| dc_device_name := name; dc_compatible := compatible; dc_cpu_policies := [];
       dc_devfreq_targets := []; dc_thermal_zones := []; dc_input_devices := [] |};
     ld_frequency_targets := ∅; ld_thermal_zone_paths := ∅; ld_warnings := [] |}.

(** A device without a name has the fingerprint of one that is named after the
    first of its compatible strings. *)
Example fingerprint_of_nameless sha256 :
  device_fingerprint sha256 (sim_device None ["maker,board"; "maker,chip"])
  = device_fingerprint sha256 (sim_device (Some "maker,board") ["maker,chip"]).
Proof. reflexivity. Qed.

(** * Who may ask *)

Lemma check_options_Run o o' :
  check_options o = Run o' -> o' = o /\ (mutates o = true -> authorization_of o = PolicyKit /\ op_fixture_root o = None).
Proof.
  unfold check_options, mutates, authorization_of.
  destruct o as [c d st r [f|] [|] [|]]; simpl; intros [= <-]; done.
Qed.

Lemma parse_arguments_Run version arguments : forall o o',
  parse_arguments version o arguments = Run o' -> check_options o' = Run o'.
Proof.
  assert (Hgen : forall n arguments, (length arguments <= n)%nat -> forall o o',
    parse_arguments version o arguments = Run o' -> check_options o' = Run o'); [|by eapply Hgen].
  clear arguments. intros n. induction n as [|n IH]; intros [|a rest] Hn o o'; cbn [parse_arguments length] in *; try lia;
    try (intros H; pose proof (check_options_Run _ _ H) as [-> _]; exact H).
  destruct (path_option a) as [set_path|].
  - destruct rest as [|path rest]; [done|]. apply IH. simpl in Hn. lia.
  - repeat case_bool_decide; simpl; try done; apply IH; lia.
Qed.




(** * The recovery registry is the journal's *)

(** ** What a registry holds *)

Lemma register_frequencies_lookup ts : forall acc acc',
  res_foldM register_frequency acc ts = Ok acc' ->
  reg_scalar_targets acc'.2 = reg_scalar_targets acc.2
  /\ forall id t, reg_targets acc'.2 !! id = Some t <-> reg_targets acc.2 !! id = Some t \/ (t ∈ ts /\ ft_id t = id).
Proof.
  induction ts as [|x ts IH]; intros [claimed r] acc'; cbn [res_foldM].
  - intros [= <-]. split; [done|]. intros id t. split; [by left|]. by intros [?|[?%elem_of_nil _]].
  - intros ([c1 r1] & H1 & H2)%res_bind_Ok. apply IH in H2 as [Hs H2]. simpl in *.
    unfold register_frequency in H1.
    apply res_bind_Ok in H1 as (u & Hn%reject_if_Ok & (c2 & _ & (c3 & _ & [= <- <-])%res_bind_Ok)%res_bind_Ok).
    apply bool_decide_eq_false, eq_None_not_Some in Hn. split; [done|]. intros id t. rewrite H2. simpl.
    rewrite lookup_insert_Some, elem_of_cons. split.
    + intros [[[<- <-]|[_ ?]]|[? ?]]; auto.
    + intros [Hl|[[->|?] Hid]]; [|auto..].
      left. right. split; [congruence|done].
Qed.

Lemma TargetRegistry_new_lookup ts r :
  TargetRegistry_new ts = Ok r ->
  reg_scalar_targets r = ∅ /\ forall id t, reg_targets r !! id = Some t <-> t ∈ ts /\ ft_id t = id.
Proof.
  unfold TargetRegistry_new. intros ([c r'] & Hf & [= <-])%res_bind_Ok.
  apply register_frequencies_lookup in Hf as [Hs Hf]. simpl in *. split; [done|]. intros id t.
  rewrite Hf, lookup_empty. naive_solver.
Qed.

Lemma register_scalars_lookup ss : forall acc acc',
  res_foldM register_scalar acc ss = Ok acc' ->
  reg_targets acc'.2 = reg_targets acc.2
  /\ forall id t, reg_scalar_targets acc'.2 !! id = Some t
       <-> reg_scalar_targets acc.2 !! id = Some t \/ (t ∈ ss /\ sct_id t = id).
Proof.
  induction ss as [|x ss IH]; intros [claimed r] acc'; cbn [res_foldM].
  - intros [= <-]. split; [done|]. intros id t. split; [by left|]. by intros [?|[?%elem_of_nil _]].
  - intros ([c1 r1] & H1 & H2)%res_bind_Ok. apply IH in H2 as [Hs H2]. simpl in *.
    unfold register_scalar in H1.
    apply res_bind_Ok in H1 as (x' & _ & (u & _ & (u' & Hn%reject_if_Ok & (c2 & _ & [= <- <-])
      %res_bind_Ok)%res_bind_Ok)%res_bind_Ok).
    apply orb_false_iff in Hn as [_ Hn%bool_decide_eq_false]. apply eq_None_not_Some in Hn.
    split; [done|]. intros id t. rewrite H2. simpl. rewrite lookup_insert_Some, elem_of_cons. split.
    + intros [[[<- <-]|[_ ?]]|[? ?]]; auto.
    + intros [Hl|[[->|?] Hid]]; [|auto..]. left. right. split; [congruence|done].
Qed.

Lemma with_scalar_targets_lookup r ss r' :
  with_scalar_targets r ss = Ok r' ->
  reg_targets r' = reg_targets r
  /\ forall id t, reg_scalar_targets r' !! id = Some t
       <-> reg_scalar_targets r !! id = Some t \/ (t ∈ ss /\ sct_id t = id).
Proof.
  unfold with_scalar_targets. intros ([c r1] & Hf & [= <-])%res_bind_Ok.
  by apply register_scalars_lookup in Hf.
Qed.

(** ** What the loop over the manifest collects *)

Section resources.
Context (d : LinuxDiscovery).

Definition rebuilt_pair (m : RecoveryFrequencyTargetManifest) (t : FrequencyTarget) : Prop :=
  validate_self_describing_target m d = Ok tt /\ to_frequency_target m = Ok t.
Definition rebuilt_scalar (m : RecoveryScalarTargetManifest) (t : ScalarTarget) : Prop :=
  to_scalar_target m = Ok t.

Lemma collect_pairs ms : forall acc rest acc',
  res_foldM (recovery_resource d) acc ((TargetPair <$> ms) ++ rest) = Ok acc' ->
  exists fs, Forall2 rebuilt_pair ms fs /\ res_foldM (recovery_resource d) (acc.1 ++ fs, acc.2) rest = Ok acc'.
Proof.
  induction ms as [|m ms IH]; intros acc rest acc'; cbn [fmap list_fmap app res_foldM].
  - intros H. exists []. rewrite app_nil_r. split; [constructor|]. by destruct acc.
  - intros (acc1 & H1 & H2)%res_bind_Ok. cbn [recovery_resource] in H1.
    apply res_bind_Ok in H1 as ([] & Hv & (t & Ht & [= <-])%res_bind_Ok).
    assert (to_frequency_target m = Ok t) by (unfold actuator_text in Ht; destruct (to_frequency_target m); simpl in Ht; congruence).
    apply IH in H2 as (fs & Hfs & H2). exists (t :: fs). split; [by constructor|].
    simpl in H2. by rewrite <- (assoc_L (++)) in H2.
Qed.

Lemma collect_scalars ms : forall acc acc',
  res_foldM (recovery_resource d) acc (TargetScalar <$> ms) = Ok acc' ->
  exists ss, Forall2 rebuilt_scalar ms ss /\ acc' = (acc.1, acc.2 ++ ss).
Proof.
  induction ms as [|m ms IH]; intros acc acc'; cbn [fmap list_fmap res_foldM].
  - intros [= <-]. exists []. rewrite app_nil_r. split; [constructor|]. by destruct acc.
  - intros (acc1 & H1 & H2)%res_bind_Ok. cbn [recovery_resource] in H1.
    apply res_bind_Ok in H1 as (t & Ht & [= <-]).
    assert (to_scalar_target m = Ok t) by (unfold actuator_text in Ht; destruct (to_scalar_target m); simpl in Ht; congruence).
    apply IH in H2 as (ss & Hss & ->). exists (t :: ss). split; [by constructor|].
    simpl. by rewrite <- (assoc_L (++)).
Qed.

Lemma recovery_registry_lookup m ms sms r :
  rm_resource_targets m = (TargetPair <$> ms) ++ (TargetScalar <$> sms) ->
  recovery_registry m d = Ok r ->
  exists fs ss, Forall2 rebuilt_pair ms fs /\ Forall2 rebuilt_scalar sms ss
    /\ (forall id t, reg_targets r !! id = Some t <-> t ∈ fs /\ ft_id t = id)
    /\ (forall id t, reg_scalar_targets r !! id = Some t <-> t ∈ ss /\ sct_id t = id).
Proof.
  intros Hm. unfold recovery_registry. rewrite Hm. intros ([fs ss] & Hf & Hr)%res_bind_Ok.
  apply collect_pairs in Hf as (fs' & Hfs & Hf). apply collect_scalars in Hf as (ss' & Hss & [= -> ->]).
  apply res_bind_Ok in Hr as (r1 & H1 & H2).
  assert (E1 : TargetRegistry_new fs' = Ok r1)
    by (unfold actuator_text in H1; destruct (TargetRegistry_new _); simpl in H1; congruence).
  assert (E2 : with_scalar_targets r1 ss' = Ok r)
    by (unfold actuator_text in H2; destruct (with_scalar_targets _ _); simpl in H2; congruence).
  apply TargetRegistry_new_lookup in E1 as [Hs1 Ht1]. apply with_scalar_targets_lookup in E2 as [Ht2 Hs2].
  exists fs', ss'. split; [done|]. split; [done|]. split; [by rewrite Ht2|].
  intros id t. rewrite Hs2, Hs1, lookup_empty. naive_solver.
Qed.
End resources.

(** ** Every entry has its target, and every target its entry *)

(** [to_frequency_target] keeps the manifest's identity. *)
Lemma to_frequency_target_Ok m t :
  to_frequency_target m = Ok t ->
  ft_id t = rf_id m /\ frequency_manifest_eqb (frequency_manifest t) m = true.
Proof.
  unfold to_frequency_target.
  intros (t0 & H0 & (t1 & H1 & (u & Hm%reject_if_Ok%negb_false_iff & [= <-])%res_bind_Ok)%res_bind_Ok)%res_bind_Ok.
  split; [|done]. unfold frequency_manifest_eqb in Hm. rewrite !andb_true_iff in Hm.
  destruct Hm as [[[[[[Hid%bool_decide_eq_true _] _] _] _] _] _]. done.
Qed.

Lemma frequency_manifest_paths t m :
  frequency_manifest_eqb (frequency_manifest t) m = true ->
  path_eqb (ft_min_path t) (rf_min_path m) = true /\ path_eqb (ft_max_path t) (rf_max_path m) = true.
Proof. unfold frequency_manifest_eqb. rewrite !andb_true_iff. by intros [[[[[[_ ?] ?] _] _] _] _]. Qed.

Lemma to_scalar_target_eqb m t :
  to_scalar_target m = Ok t -> scalar_manifest_eqb m (scalar_manifest t) = true.
Proof.
  unfold to_scalar_target.
  intros (t0 & _ & (u & Hm%reject_if_Ok%negb_false_iff & [= <-])%res_bind_Ok)%res_bind_Ok.
  unfold scalar_manifest_eqb, path_eqb in *. rewrite !andb_true_iff, !bool_decide_eq_true in *.
  destruct Hm as [[? ?] ?]. split_and!; congruence.
Qed.

Lemma path_eqb_both a b c : path_eqb a b = true -> path_eqb a c = true -> path_eqb b c = true.
Proof. unfold path_eqb. rewrite !bool_decide_eq_true. congruence. Qed.

(** What a registry must be to recover a journal on the hardware found: each
    entry's target, as its manifest describes it and as the hardware is now, and
    no other target. *)
Record recovers (d : LinuxDiscovery) (j : Journal) (write_paths : list string) (reg : TargetRegistry) : Prop := {
  rec_frequency : forall id e, j_entries j !! id = Some e -> exists m t,
    recovery_frequency_manifest e = Ok m /\ get reg (je_target e) = Some t
    /\ path_eqb (ft_min_path t) (je_min_path e) = true /\ path_eqb (ft_max_path t) (je_max_path e) = true
    /\ frequency_manifest_eqb (frequency_manifest t) m = true
    /\ validate_self_describing_target m d = Ok tt
    /\ rf_min_path m ∈ write_paths /\ rf_max_path m ∈ write_paths;
  rec_scalar : forall id e, j_scalars j !! id = Some e -> exists m t,
    recovery_scalar_manifest e = Ok m /\ get_scalar reg (se_target e) = Some t
    /\ path_eqb (se_path e) (sct_path t) = true /\ scalar_manifest_eqb m (scalar_manifest t) = true
    /\ rs_path m ∈ write_paths;
  rec_only_frequency : forall id t, get reg id = Some t -> is_Some (j_entries j !! id);
  rec_only_scalar : forall id t, get_scalar reg id = Some t -> is_Some (j_scalars j !! id);
}.

Lemma Forall2_in_l {A B} (P : A -> B -> Prop) l k x : Forall2 P l k -> x ∈ l -> exists y, y ∈ k /\ P x y.
Proof.
  intros H (i & Hi)%list_elem_of_lookup. destruct (Forall2_lookup_l _ _ _ _ _ H Hi) as (y & Hy & HP).
  exists y. split; [|done]. by apply list_elem_of_lookup_2 in Hy.
Qed.

Lemma Forall2_in_r {A B} (P : A -> B -> Prop) l k y : Forall2 P l k -> y ∈ k -> exists x, x ∈ l /\ P x y.
Proof. intros H%Forall2_flip. apply (Forall2_in_l _ _ _ _ H). Qed.

Lemma manifest_of_Some j m :
  manifest_of j = Ok (Some m) -> exists ms sms,
    res_mapM recovery_frequency_manifest (values (j_entries j)) = Ok ms
    /\ res_mapM recovery_scalar_manifest (values (j_scalars j)) = Ok sms
    /\ rm_resource_targets m = (TargetPair <$> ms) ++ (TargetScalar <$> sms) /\ rm_frequency_targets m = ms.
Proof.
  unfold manifest_of. destruct (journal_is_empty j); [done|].
  intros (ms & Hms & (sms & Hsms & [= <-])%res_bind_Ok)%res_bind_Ok. by exists ms, sms.
Qed.

Lemma write_paths_pair m mf :
  mf ∈ rm_frequency_targets m -> rf_min_path mf ∈ resource_write_paths m /\ rf_max_path mf ∈ resource_write_paths m.
Proof.
  intros Hm. unfold resource_write_paths, frequency_write_paths.
  split; apply elem_of_app; left; apply list_elem_of_bind; exists mf; (split; [|done]); rewrite !elem_of_cons; auto.
Qed.

Lemma write_paths_scalar m sm : TargetScalar sm ∈ rm_resource_targets m -> rs_path sm ∈ resource_write_paths m.
Proof.
  intros Hm. unfold resource_write_paths, scalar_write_paths. apply elem_of_app. right.
  apply list_elem_of_omap. by exists (TargetScalar sm).
Qed.

Section covers.
Context (d : LinuxDiscovery) (j : Journal) (m : RecoveryManifest) (reg : TargetRegistry).
Hypothesis Hj : journal_valid j.
Hypothesis Hm : manifest_of j = Ok (Some m).
Hypothesis Hreg : recovery_registry m d = Ok reg.

Lemma covers_frequency id e mf t :
  j_entries j !! id = Some e -> recovery_frequency_manifest e = Ok mf -> rebuilt_pair d mf t ->
  ft_id t = je_target e
  /\ path_eqb (ft_min_path t) (je_min_path e) = true /\ path_eqb (ft_max_path t) (je_max_path e) = true
  /\ frequency_manifest_eqb (frequency_manifest t) mf = true
  /\ validate_self_describing_target mf d = Ok tt.
Proof.
  intros He Hmf [Hv Ht]. destruct (jv_entries _ Hj _ _ He) as [_ _ _ (t' & (m' & Em & Eid & Emin & Emax & _) & _) _].
  unfold recovery_frequency_manifest in Hmf. rewrite Em in Hmf. injection Hmf as ->.
  apply to_frequency_target_Ok in Ht as [Hid Heq]. split; [congruence|].
  apply frequency_manifest_paths in Heq as Hpaths. unfold path_eqb in *. rewrite !bool_decide_eq_true in *.
  destruct Hpaths. split_and!; try done; congruence.
Qed.

Lemma covers_scalar id e sm t :
  j_scalars j !! id = Some e -> recovery_scalar_manifest e = Ok sm -> rebuilt_scalar sm t ->
  sct_id t = se_target e /\ path_eqb (se_path e) (sct_path t) = true
  /\ scalar_manifest_eqb sm (scalar_manifest t) = true.
Proof.
  intros He Hsm Ht%to_scalar_target_eqb. destruct (jv_scalars _ Hj _ _ He) as [_ _ _ (t' & (m' & Em & Eid & Ep & _) & _)].
  unfold recovery_scalar_manifest in Hsm. rewrite Em in Hsm. injection Hsm as ->.
  pose proof Ht as Heq. unfold scalar_manifest_eqb in Ht. rewrite !andb_true_iff in Ht.
  destruct Ht as [[Hid%bool_decide_eq_true Hp] _]. simpl in *.
  split_and!; [congruence| |done]. by apply (path_eqb_both (rs_path sm)).
Qed.

Lemma registry_recovers : recovers d j (resource_write_paths m) reg.
Proof.
  destruct (manifest_of_Some _ _ Hm) as (ms & sms & Hms%res_mapM_Ok & Hsms%res_mapM_Ok & Hrt & Hft).
  destruct (recovery_registry_lookup d _ _ _ _ Hrt Hreg) as (fs & ss & Hfs & Hss & Hf & Hs).
  constructor.
  - intros id e He. assert (Hin : e ∈ values (j_entries j)) by (apply elem_of_values; eauto).
    destruct (Forall2_in_l _ _ _ _ Hms Hin) as (mf & Hmf & Ha). destruct (Forall2_in_l _ _ _ _ Hfs Hmf) as (t & Ht & Hb).
    destruct (covers_frequency _ _ _ _ He Ha Hb) as (Hid & H1 & H2 & H3 & H4).
    destruct (write_paths_pair m mf) as [W1 W2]; [by rewrite Hft|].
    exists mf, t. split_and!; try done. by apply Hf.
  - intros id e He. assert (Hin : e ∈ values (j_scalars j)) by (apply elem_of_values; eauto).
    destruct (Forall2_in_l _ _ _ _ Hsms Hin) as (sm & Hsm & Ha). destruct (Forall2_in_l _ _ _ _ Hss Hsm) as (t & Ht & Hb).
    destruct (covers_scalar _ _ _ _ He Ha Hb) as (Hid & H1 & H2).
    exists sm, t. split_and!; try done; [by apply Hs|]. apply write_paths_scalar. rewrite Hrt.
    apply elem_of_app. right. by apply list_elem_of_fmap_2.
  - intros id t [Ht Hid]%Hf. destruct (Forall2_in_r _ _ _ _ Hfs Ht) as (mf & Hmf & Hb).
    destruct (Forall2_in_r _ _ _ _ Hms Hmf) as (e & (k & He)%elem_of_values & Ha).
    destruct (covers_frequency _ _ _ _ He Ha Hb) as (Hid' & _).
    rewrite <- Hid, Hid', <- (fev_key _ _ (jv_entries _ Hj _ _ He)). by exists e.
  - intros id t [Ht Hid]%Hs. destruct (Forall2_in_r _ _ _ _ Hss Ht) as (sm & Hsm & Hb).
    destruct (Forall2_in_r _ _ _ _ Hsms Hsm) as (e & (k & He)%elem_of_values & Ha).
    destruct (covers_scalar _ _ _ _ He Ha Hb) as (Hid' & _).
    rewrite <- Hid, Hid', <- (sev_key _ _ _ (jv_scalars _ Hj _ _ He)). by exists e.
Qed.
End covers.

(** An entry whose target is registered as recorded passes the checks of
    recovery. *)
Lemma recovers_intent {W} `{!Ports W} `{JournalCodec} d j paths (a : Actuator) acc id e (s : St W) :
  recovers d j paths (act_registry a) -> j_entries j !! id = Some e ->
  recover_frequency_intent a acc e s = restore_intent a "journal" "recovery" acc e s.
Proof.
  intros Hr He. destruct (rec_frequency _ _ _ _ Hr _ _ He) as (m & t & Hm & Ht & H1 & H2 & H3 & _).
  unfold recover_frequency_intent. rewrite Ht, H1, H2. simpl. rewrite Hm. unfold mbind, M_bind, lift.
  by rewrite H3.
Qed.

(** C7: The recovery actuator has exactly the journal's targets. When the
    registry is rebuilt from a valid journal and live discovery, every owned
    frequency pair and scalar is registered under its recorded paths and
    manifest, its hardware limits, operating points and unit are those the
    hardware reports now, its files are in the write allowlist, and no other
    target is registered; so no entry fails the identity checks of recovery,
    which goes straight to restoring the recorded originals. *)
Theorem recovery_covers_journal {W} `{!Ports W} `{JournalCodec} d j m reg (a : Actuator) acc id e (s : St W) :
  journal_valid j -> manifest_of j = Ok (Some m) -> recovery_registry m d = Ok reg ->
  recovers d j (resource_write_paths m) reg
  /\ (act_registry a = reg -> j_entries j !! id = Some e ->
      recover_frequency_intent a acc e s = restore_intent a "journal" "recovery" acc e s).
Proof.
  intros Hj Hm Hreg. pose proof (registry_recovers _ _ _ _ Hj Hm Hreg) as Hr. split; [done|].
  intros <- He. by eapply recovers_intent.
Qed.

(** * A journal of another boot or device *)

Section foreign.
Context {W : Type} `{JournalCodec} `{!StartupEnv (W := W)}.

Lemma inspect_Some (w : W) m w1 :
  inspect_recovery_journal w = (Ok (Some m), w1) ->
  exists l j, store_load (Ports := ports_of []) w = (inr (Some l), w1)
    /\ decode_journal l = Ok j /\ journal_is_empty j = false
    /\ rm_boot_id m = j_boot_id j /\ rm_device_fingerprint m = j_device_fingerprint j.
Proof.
  unfold inspect_recovery_journal. destruct (store_load w) as [[e|[l|]] w'] eqn:El; intros [= E <-];
  apply res_bind_Ok in E as (j & Hj & Hm). exists l, j. unfold manifest_of in Hm.
  destruct (journal_is_empty j); [done|].
  by apply res_bind_Ok in Hm as (ms & _ & (sms & _ & [= <-])%res_bind_Ok).
Qed.

(** The start of the recovery actuator on a loaded journal. *)
Lemma FrequencyActuator_new_loaded `{!Ports W} a (w w' : W) l j :
  store_load w = (inr (Some l), w') -> decode_journal l = Ok j -> journal_is_empty j = false ->
  FrequencyActuator_new a w
  = {| st_rt := {| rt_mode := ReadWrite; rt_journal := j; rt_recovery_required := true |};
       st_world := w'; st_log := [] |}.
Proof. intros Hl Hj He. unfold FrequencyActuator_new. by rewrite Hl, Hj, He. Qed.

(** What recovery does with a loaded journal of another boot or device. *)
Lemma recover_pending_foreign `{!Ports W} a j (w : W) r s' :
  recover_pending a {| st_rt := {| rt_mode := ReadWrite; rt_journal := j; rt_recovery_required := true |};
                       st_world := w; st_log := [] |} = (r, s') ->
  (j_boot_id j <> act_boot_id a -> exists o, st_log s' = [EvRemove o] /\ (o = inr tt -> r = Ok tt))
  /\ (j_boot_id j = act_boot_id a -> j_device_fingerprint j <> act_device_fingerprint a ->
      st_log s' = [] /\ exists e, r = Err e).
Proof.
  unfold recover_pending, ensure_read_write, degrade_on_error, attempt, call, degrade, get_rt, put_rt, mbind, M_bind; simpl.
  intros Hrun. split.
  - intros Hb. revert Hrun. rewrite bool_decide_false by done. simpl.
    destruct (remove_durable w) as [[e|[]] w2]; simpl; intros [= <- <-]; simpl; eauto.
    exists (inl e). by split.
  - intros Hb Hf. revert Hrun. rewrite bool_decide_true by done. simpl. rewrite bool_decide_false by done. simpl.
    intros [= <- <-]. simpl. eauto.
Qed.

(** C8: A journal of another boot or another device is never applied. Given that
    the store answers the same when it is read again, recovery of such a journal
    touches no attribute, no process and no unit: of another boot it removes the
    journal and nothing else, and succeeds when the removal does; of another
    device it does nothing at all and reports the failure, which keeps the daemon
    degraded. *)
Theorem foreign_journal_not_applied supplied boot_id fingerprint backends (w : W) m w1 r log w' :
  inspect_recovery_journal w = (Ok (Some m), w1) ->
  rm_boot_id m <> boot_id \/ rm_device_fingerprint m <> fingerprint ->
  (forall w2, (open_recovery_sysfs [] w1).2 = w2 ->
    (store_load (Ports := ports_of []) w2).1 = (store_load (Ports := ports_of []) w).1) ->
  recover_before_configuration supplied boot_id fingerprint backends w = (r, log, w') ->
  (rm_boot_id m <> boot_id -> log = [] \/ exists o, log = [EvRemove o] /\ (o = inr tt -> r = Ok None))
  /\ (rm_boot_id m = boot_id -> log = [] /\ exists reason, r = Ok (Some reason)).
Proof.
  intros Hi Hf Hst. unfold recover_before_configuration. rewrite Hi.
  unfold recovery_targets. replace (_ && _) with false
    by (symmetry; apply andb_false_iff; rewrite !bool_decide_eq_false; tauto).
  unfold run_recovery. destruct (open_recovery_sysfs [] w1) as [[e|u] w2] eqn:Eo.
  - intros [= <- <- <-]. split; [by left|]. by eauto.
  - destruct (inspect_Some _ _ _ Hi) as (l & j & Hl & Hj & He & Hb & Hd).
    specialize (Hst w2 eq_refl). rewrite Hl in Hst. simpl in Hst.
    destruct (store_load w2) as [r3 w3] eqn:E3. simpl in Hst. subst r3.
    rewrite (FrequencyActuator_new_loaded (Ports0 := ports_of []) _ _ _ _ _ E3 Hj He).
    destruct (recover_pending _ _) as [r1 s'] eqn:Er. intros [= <- <- <-].
    apply recover_pending_foreign in Er as [H1 H2]. simpl in H1, H2. rewrite Hb in *. rewrite Hd in *. split.
    + intros Hn. right. destruct (H1 Hn) as (o & Ho & Hr). exists o. split; [done|]. intros E. by rewrite (Hr E).
    + intros Hn. destruct (H2 Hn) as [? [e ->]]; [tauto|]. eauto.
Qed.
End foreign.

(** * A crash and the next start *)

Definition sim_discovery : LinuxDiscovery := {|
  ld_capabilities := {|
    dc_device_name := None; dc_compatible := [];
    dc_cpu_policies := [{| cpc_id := "cpu:policy0"; cpc_policy_name := "policy0"; cpc_cpus := {[ 0; 1 ]};
      cpc_limits := {| lim_min := 1000000; lim_max := 4000000 |};
      cpc_available_frequencies := [1000000; 2000000; 3000000; 4000000]; cpc_governor := None |}];
    dc_devfreq_targets := []; dc_thermal_zones := []; dc_input_devices := [] |};
  ld_frequency_targets := {[ "cpu:policy0" := {|
    ftp_id := "cpu:policy0"; ftp_minimum := "/sys/devices/cpu0/scaling_min_freq";
    ftp_maximum := "/sys/devices/cpu0/scaling_max_freq"; ftp_current := "/sys/devices/cpu0/scaling_cur_freq";
    ftp_hertz_per_unit := 1000 |} ]};
  ld_thermal_zone_paths := ∅; ld_warnings := [] |}.

(** The simulated machine's sysfs, opened for an allowlist. *)
Definition allowed_ports (paths : list string) : Ports SimWorld := {|
  read_string := read_string;
  write_string p v w := if decide (p ∈ paths) then write_string p v w else (inl (AccessDenied p "not allowed"), w);
  store_load := store_load; store_durable := store_durable; remove_durable := remove_durable;
  process_identity := process_identity; read_scheduling := read_scheduling; write_scheduling := write_scheduling;
  client_unit_for_process := client_unit_for_process; client_unit_processes := client_unit_processes;
  unit_instance_identity := unit_instance_identity; read_unit_properties := read_unit_properties;
  write_unit_properties := write_unit_properties; instant_now := instant_now; thread_sleep := thread_sleep;
|}.

#[global] Instance sim_startup : StartupEnv (W := SimWorld) := {|
  discover_recovery w := (inr sim_discovery, w);
  discover_identity w := (sim_discovery, w);
  open_recovery_sysfs _ w := (inr tt, w);
  ports_of := allowed_ports;
|}.

(** The world after a daemon that had applied limits and a scalar
    died. *)
Definition sim_scalar_request : operation :=
  OpApplyScalars [{| sr_target := "governor"; sr_value := Str "power" |}].
Definition crashed : St SimWorld :=
  (run_operation sim_actuator sim_scalar_request (run_operation sim_actuator sim_request sim_start).2).2.
Definition crashed_journal : Journal := rt_journal (st_rt crashed).
Definition crashed_world : SimWorld := st_world crashed.
Definition crashed_manifest : RecoveryManifest :=
  default {| rm_schema_version := 0; rm_boot_id := ""; rm_device_fingerprint := ""; rm_resource_targets := [];
             rm_frequency_targets := []; rm_has_tasks := false; rm_has_systemd_units := false |}
    (match manifest_of crashed_journal with Ok o => o | _ => None end).
Definition crashed_registry : TargetRegistry :=
  match recovery_registry crashed_manifest sim_discovery with Ok r => r | _ => empty_registry end.

(** The next start recovers: the files hold their first values, the journal is
    gone. *)
Definition crash_recovery : Recovery :=
  recover_before_configuration None "boot" "device" {| mb_process := true; mb_systemd := true |} crashed_world.
Example crash_recovered :
  sw_files crashed_world !! "/sys/devices/cpu0/scaling_max_freq" = Some "3000"
  /\ sw_files crashed_world !! "/sys/devices/cpu0/energy_preference" = Some "power"
  /\ crash_recovery.1.1 = Ok None /\ sw_store crash_recovery.2 = None
  /\ bool_decide (sw_files crash_recovery.2 = sw_files sim_world) = true.
Proof. split_and!; vm_compute; reflexivity. Qed.

Definition crashed_entry : JournalEntry :=
  match values (j_entries crashed_journal) with
  | e :: _ => e
  | [] => {| je_target := ""; je_min_path := ""; je_max_path := "";
             je_resource_manifest := ScalarResource (scalar_manifest sim_scalar);
             je_original := {| lim_min := 0; lim_max := 0 |}; je_desired := {| lim_min := 0; lim_max := 0 |};
             je_applied := {| lim_min := 0; lim_max := 0 |}; je_legal_pairs := [] |}
  end.
Definition crashed_actuator : Actuator :=
  recovery_actuator crashed_registry "boot" "device" {| mb_process := true; mb_systemd := true |}.

Lemma recovery_covers_journal_witness :
  j_entries crashed_journal !! "cpu0" = Some crashed_entry
  /\ resource_write_paths crashed_manifest
     = ["/sys/devices/cpu0/scaling_min_freq"; "/sys/devices/cpu0/scaling_max_freq"; "/sys/devices/cpu0/energy_preference"]
  /\ recovers sim_discovery crashed_journal (resource_write_paths crashed_manifest) crashed_registry
  /\ recover_frequency_intent crashed_actuator [] crashed_entry crashed
    = restore_intent crashed_actuator "journal" "recovery" [] crashed_entry crashed.
Proof.
  assert (He : j_entries crashed_journal !! "cpu0" = Some crashed_entry) by (vm_compute; reflexivity).
  split; [exact He|]. split; [vm_compute; reflexivity|].
  assert (Hj : journal_valid crashed_journal)
    by (apply validate_decoded_journal_spec; vm_compute; reflexivity).
  assert (Hm : manifest_of crashed_journal = Ok (Some crashed_manifest)) by (vm_compute; reflexivity).
  assert (Hr : recovery_registry crashed_manifest sim_discovery = Ok crashed_registry) by (vm_compute; reflexivity).
  destruct (recovery_covers_journal sim_discovery crashed_journal crashed_manifest crashed_registry
    crashed_actuator [] "cpu0" crashed_entry crashed Hj Hm Hr) as [H1 H2].
  split; [exact H1|]. exact (H2 eq_refl He).
Defined.

(** The same crash, met by another boot and by another device. *)
Definition restart (boot_id fingerprint : string) : Recovery :=
  recover_before_configuration None boot_id fingerprint {| mb_process := true; mb_systemd := true |} crashed_world.
Lemma restart_eq boot_id fingerprint :
  restart boot_id fingerprint
  = ((restart boot_id fingerprint).1.1, (restart boot_id fingerprint).1.2, (restart boot_id fingerprint).2).
Proof. by destruct (restart _ _) as [[??]?]. Qed.

Lemma foreign_journal_not_applied_witness :
  (restart "next boot" "device").1 = (Ok None, [EvRemove (inr tt)])
  /\ ((restart "next boot" "device").1.2 = [] \/
      exists o, (restart "next boot" "device").1.2 = [EvRemove o] /\
        (o = inr tt -> (restart "next boot" "device").1.1 = Ok None))
  /\ (restart "boot" "other").1.2 = [] /\ sw_store (restart "boot" "other").2 = sw_store crashed_world.
Proof.
  assert (Hi : inspect_recovery_journal crashed_world = (Ok (Some crashed_manifest), crashed_world))
    by (vm_compute; reflexivity).
  assert (Hb : rm_boot_id crashed_manifest <> "next boot") by (vm_compute; discriminate).
  assert (Hs : forall w2, (open_recovery_sysfs [] crashed_world).2 = w2 ->
    (store_load (Ports := ports_of []) w2).1 = (store_load (Ports := ports_of []) crashed_world).1)
    by (intros w2 <-; reflexivity).
  destruct (foreign_journal_not_applied None "next boot" "device" {| mb_process := true; mb_systemd := true |}
    crashed_world crashed_manifest crashed_world _ _ _ Hi (or_introl Hb) Hs (restart_eq "next boot" "device")) as [H1 _].
  split; [vm_compute; reflexivity|]. split; [exact (H1 Hb)|]. split; vm_compute; reflexivity.
Defined.
