(* ===== verification/RuntimeControl.v ===== *)
(** * Modes, overrides and application rules ([uperf-daemon/src/runtime.rs])

    The control commands that change what the policy is asked for: the mode,
    timed frequency overrides, and the persisted application rules. *)

From coqutil Require Import Datatypes.RecordSetters.
From S2P Require Import Prelude Float64 Domain Text Strings Scene Frequency Thermal Load ConfigTypes Validate ValidatePolicy Energy Governor Rules Engine ActuatorTypes Scalars Targets Journal Ports DaemonTypes DaemonConfig DecisionTrace Reconcile RuntimeTypes RuntimeEval RuntimeObservers RuntimeInteraction.

Section control.
Context {W : Type} `{!Ports W} `{!Environment W} `{RegexEngine}.

Definition closed_text : text :=
  [PText "daemon shutdown has started; mutation requests are closed"].

Definition require_accepting_control (s : RuntimeActor W) : rt_result unit :=
  if co_accepting_control (ra_control s) then inr tt else inl (EConflict closed_text).

Definition require_writable_actuator (s : RuntimeActor W) : rt_result unit :=
  let f := ra_failures s in
  match cf_actuator (ra_config s) with
  | None => inl (EDegraded [PText "daemon is running read-only"])
  | Some _ =>
      if negb (fa_actuator_read_only f) then inr tt
      else
        let reason := or_else (fa_restore_failure f)
              (or_else (fa_frequency_safety_failure f) (fa_reconcile_worker_failure f)) in
        inl (EDegraded (unwrap_or reason
              (map_or (fa_health_issues f !! "actuator.degraded")
                 [PText "actuator is read-only degraded"] hi_message)))
  end.

(** ** Mode *)

Definition command_set_mode (value : string) : AM W (rt_result MutationReceipt) :=
  match parse_mode value with
  | inl e => mret (inl e)
  | inr m =>
      current ← gets (fun s => co_mode (ra_control s));
      if decide (current = m) then receipt_now [] "mode was already selected"
      else
        modify (fun s => s <|ra_control->co_mode := m|>);;
        bump_generation;;
        evaluate_and_reconcile;;
        g ← generation;
        mret (inr (receipt g [[PText "mode"]] [PText "mode changed to "; PText (mode_name m)]))
  end.

(** ** Overrides *)

Definition parse_override (c : ResolvedConfiguration) (now : MonotonicMillis)
    (seen : list string) (request : FrequencyOverride) : rt_result (string * TimedOverride) :=
  match TargetId_new (fo_target_id request) with
  | Ok id =>
      if bool_decide (id ∈ seen)
      then inl (EInvalidArgument [PText "duplicate target "; PText id])
      else
        match rc_targets c !! id with
        | None => inl (ENotFound [PText id])
        | Some target =>
            match FrequencyLimits_new (fo_min_hz request) (fo_max_hz request) with
            | Ok limits =>
                if (lim_min limits <? lim_min (rt_hardware_limits target))
                   || (lim_max (rt_hardware_limits target) <? lim_max limits)
                then inl (EInvalidArgument
                       [PText id; PText ": override lies outside advertised hardware limits"])
                else
                  inr (id, {| to_limits := limits;
                              to_expires_at :=
                                if fo_ttl_ms request =? 0 then None
                                else Some (saturating_add now (fo_ttl_ms request)) |})
            | _ => inl (EInvalidArgument [PText "frequency limits are reversed"])
            end
        end
  | _ => inl (EInvalidArgument [PText "invalid target id "; PText (fo_target_id request)])
  end.

(** The batch, refused as a whole at its first bad request. *)
Fixpoint parse_overrides (c : ResolvedConfiguration) (now : MonotonicMillis)
    (parsed : list (string * TimedOverride)) (requests : list FrequencyOverride)
  : rt_result (list (string * TimedOverride)) :=
  match requests with
  | [] => inr parsed
  | request :: requests =>
      match parse_override c now parsed.*1 request with
      | inl e => inl e
      | inr p => parse_overrides c now (parsed ++ [p]) requests
      end
  end.

Definition command_set_overrides (requests : list FrequencyOverride)
  : AM W (rt_result MutationReceipt) :=
  s ← gets (fun s => s);
  if decide (sn_thermal_state (ra_sensing s) = Degraded)
  then mret (inl (EDegraded [PText "trusted thermal data is not currently healthy"]))
  else if decide (requests = [])
  then mret (inl (EInvalidArgument [PText "at least one override is required"]))
  else
    match require_writable_actuator s with
    | inl e => mret (inl e)
    | inr _ =>
        now ← clock;
        match parse_overrides (cf_configuration (ra_config s)) now [] requests with
        | inl e => mret (inl e)
        | inr parsed =>
            modify (fun s => s <|ra_control->co_overrides ::= (fun m =>
              foldl (fun m p => <[p.1 := p.2]> m) m parsed)|>);;
            bump_generation;;
            evaluate_and_reconcile;;
            receipt_now ((fun id => [PText id]) <$> parsed.*1) "frequency override batch accepted"
        end
    end.

Fixpoint parse_target_ids (l : list string) : rt_result (list string) :=
  match l with
  | [] => inr []
  | value :: l =>
      match TargetId_new value with
      | Ok id => match parse_target_ids l with inl e => inl e | inr ids => inr (id :: ids) end
      | _ => inl (EInvalidArgument [PText "invalid target id "; PText value])
      end
  end.

Definition command_clear_overrides (requested_ids : list string) : AM W (rt_result MutationReceipt) :=
  s ← gets (fun s => s);
  match require_writable_actuator s with
  | inl e => mret (inl e)
  | inr _ =>
      let overrides := co_overrides (ra_control s) in
      match (if decide (requested_ids = []) then inr (keys overrides)
             else parse_target_ids requested_ids) with
      | inl e => mret (inl e)
      | inr ids =>
          let changed := List.filter (fun id => bool_decide (is_Some (overrides !! id))) ids in
          modify (fun s => s <|ra_control->co_overrides ::= remove_all changed|>);;
          if decide (changed = []) then receipt_now [] "no matching overrides were active"
          else
            bump_generation;;
            evaluate_and_reconcile;;
            receipt_now ((fun id => [PText id]) <$> changed) "frequency overrides cleared"
      end
  end.

(** The overrides whose time has come, withdrawn. *)
Definition expire_overrides (now : MonotonicMillis) : AM W bool :=
  overrides ← gets (fun s => co_overrides (ra_control s));
  let expired := (List.filter (fun kv => is_some_and (to_expires_at kv.2) (fun t => t <=? now))
                    (entries overrides)).*1 in
  modify (fun s => s <|ra_control->co_overrides ::= remove_all expired|>);;
  let had_expired := negb (bool_decide (expired = [])) in
  when had_expired bump_generation;;
  mret had_expired.

(** ** Application rules *)

(** Why an update of the rules or the configuration has to wait. *)
Definition update_in_flight (s : RuntimeActor W) : option text :=
  if ba_app_persist_in_flight (ra_barrier s) then Some APP_PERSISTENCE_IN_FLIGHT
  else if ba_reload_in_flight (ra_barrier s) then Some RELOAD_IN_FLIGHT
  else None.

Definition start_app_persistence (candidate : AppsConfig) (changed_id message : text)
    (reply : ReplyTo) : AM W unit :=
  modify (fun s => s <|ra_barrier->ba_app_persist_in_flight := true|>
                     <|ra_channels->ch_app_persistence ::=
                         (fun l => l ++ [(candidate, changed_id, message, reply)])|>).

(** The rule replaces the one of its id, or is added last. *)
Fixpoint replace_rule (rule : AppRule) (rules : list AppRule) : option (list AppRule) :=
  match rules with
  | [] => None
  | r :: rules =>
      if decide (ar_id r = ar_id rule) then Some (rule :: rules)
      else (fun rules => r :: rules) <$> replace_rule rule rules
  end.

Definition store_rule (rule : AppRule) (apps : AppsConfig) : AppsConfig :=
  {| apps_schema_version := apps_schema_version apps;
     apps_rules := unwrap_or (replace_rule rule (apps_rules apps)) (apps_rules apps ++ [rule]) |}.

Definition remove_rule (id : string) (apps : AppsConfig) : AppsConfig :=
  {| apps_schema_version := apps_schema_version apps;
     apps_rules := List.filter (fun r => negb (bool_decide (ar_id r = id))) (apps_rules apps) |}.

Definition start_set_app_rule (rule : ApiAppRule) (reply : ReplyTo) : AM W unit :=
  s ← gets (fun s => s);
  match update_in_flight s with
  | Some busy => refuse_receipt reply (EConflict busy)
  | None =>
      match api_rule_to_core rule with
      | inl error => refuse_receipt reply error
      | inr converted =>
          start_app_persistence (store_rule converted (rc_apps (cf_configuration (ra_config s))))
            [PText "app-rule:"; PText (aa_id rule)] [PText "application rule stored"] reply
      end
  end.

Definition start_remove_app_rule (id : string) (reply : ReplyTo) : AM W unit :=
  s ← gets (fun s => s);
  match update_in_flight s with
  | Some busy => refuse_receipt reply (EConflict busy)
  | None =>
      let apps := rc_apps (cf_configuration (ra_config s)) in
      let candidate := remove_rule id apps in
      if (length (apps_rules candidate) =? length (apps_rules apps))%nat
      then refuse_receipt reply (ENotFound [PText "application rule "; PText id])
      else start_app_persistence candidate [PText "app-rule:"; PText id]
             [PText "application rule removed"] reply
  end.

Definition with_apps (c : ResolvedConfiguration) (apps : AppsConfig) : ResolvedConfiguration :=
  {| rc_device := rc_device c; rc_policy := rc_policy c; rc_apps := apps;
     rc_app_rule_engine := rc_app_rule_engine c; rc_policy_engine := rc_policy_engine c;
     rc_targets := rc_targets c; rc_thermal_zones := rc_thermal_zones c;
     rc_warnings := rc_warnings c |}.

Definition finish_app_persistence (outcome : AppPersistenceOutcome) : AM W unit :=
  modify (fun s => s <|ra_barrier->ba_app_persist_in_flight := false|>);;
  mark_decision_trigger "app-rule-update";;
  r ← match apo_result outcome with
      | inl e => mret (inl e)
      | inr _ =>
          modify (fun s => s <|ra_config->cf_configuration ::= (fun c => with_apps c (apo_candidate outcome))|>
                             <|ra_config->cf_config_generation ::= (fun n => sat_add n 1)|>);;
          bump_generation;;
          evaluate_and_reconcile;;
          g ← generation;
          mret (inr (receipt g [apo_changed_id outcome] (apo_message outcome)))
      end;
  answer (apo_reply outcome) (ReReceipt r).

(** ** Reload *)

Definition start_reload (reply : ReplyTo) : AM W unit :=
  s ← gets (fun s => s);
  match update_in_flight s with
  | Some busy => answer reply (ReReload (inl (EConflict busy)))
  | None =>
      modify (fun s => s <|ra_barrier->ba_reload_in_flight := true|>
                         <|ra_channels->ch_reloads ::= (fun l => l ++ [reply])|>)
  end.

(** What the reload worker sends back: the loaded configuration, if an actuator
    could be built from it. *)
Definition reload_result (loaded : res ResolvedConfiguration text) : rt_result ResolvedConfiguration :=
  match loaded with
  | Err e => inl (EValidation e)
  | Panic => inl (EInternal [PText "blocking configuration reload failed"])
  | Ok candidate =>
      match actuator_registry candidate with
      | Ok _ => inr candidate
      | Err e => inl (EValidation [PActuator e])
      | Panic => inl (EInternal [PText "blocking configuration reload failed"])
      end
  end.

(** [persist_apps]: what is written is validated first; the write itself is
    the worker's. *)
Definition validate_persisted (apps : AppsConfig) : rt_result unit :=
  match AppsConfig_validate apps with
  | Ok _ => inr tt
  | _ => inl (EValidation [PText "application rules"])
  end.
End control.
