(* ===== verification/Client.v ===== *)
(** * The daemon's capabilities and the client library ([uperf-api/src/client.rs], [uperf-api/src/contract.rs])

    What the daemon advertises ([uperf-daemon/src/config.rs]), the checks the
    client makes before it sends a request, and the calls it sends. The
    connection is a class. The client checks the same identifiers as the daemon,
    and the spelling of a frame hint is read back as the hint it names. *)

From S2P Require Import Prelude Float64 Domain Text Strings ActuatorTypes ConfigTypes DaemonTypes DecisionTrace Validate DaemonConfig Systemd RuntimeTypes Service.

(** ** The contract *)

Record ApiVersion := { av_major : Z; av_minor : Z }.
#[global] Instance ApiVersion_eq_dec : EqDecision ApiVersion.
Proof. solve_decision. Defined.

Definition ApiVersion_CURRENT : ApiVersion := {| av_major := 2; av_minor := 0 |}.
Definition is_current (v : ApiVersion) : bool :=
  (av_major v =? av_major ApiVersion_CURRENT) && (av_minor v =? av_minor ApiVersion_CURRENT).

Record ModeInfo := { mi_id : string; mi_display_name : string; mi_description : string }.

Record TargetCapability := {
  tc_id : string;
  tc_kind : string;
  tc_label : text;
  tc_cpus : list Z;
  tc_minimum_hz : Z;
  tc_maximum_hz : Z;
  tc_available_hz : list Z;
  tc_can_override : bool;
}.

Record Capabilities := {
  ca_api_version : ApiVersion;
  ca_features : list string;
  ca_modes : list ModeInfo;
  ca_targets : list TargetCapability;
  ca_config_schema_version : Z;
}.

Definition supports (c : Capabilities) (feature : string) : bool :=
  existsb (fun candidate => bool_decide (candidate = feature)) (ca_features c).

Record ThermalStatus := {
  ths_state : string;
  ths_max_temperature_millicelsius : Z;
  ths_cap_active : bool;
  ths_sensors_stale : bool;
}.

Record FrequencyStatus := {
  fs_target_id : string;
  fs_observed_available : bool;
  fs_observed_min_hz : Z;
  fs_observed_max_hz : Z;
  fs_desired_min_hz : Z;
  fs_desired_max_hz : Z;
  fs_desired_available : bool;
  fs_applied_min_hz : Z;
  fs_applied_max_hz : Z;
  fs_applied_verified : bool;
  fs_override_active : bool;
  fs_stale : bool;
}.

Record DaemonStatus := {
  ds_api_version : ApiVersion;
  ds_daemon_version : string;
  ds_state : string;
  ds_health : HealthStatus;
  ds_mode : string;
  ds_effective_profile : string;
  ds_dominant_scene : string;
  ds_active_workload : ActiveWorkload;
  ds_thermal : ThermalStatus;
  ds_frequencies : list FrequencyStatus;
  ds_config_generation : Z;
  ds_reconcile_generation : Z;
}.

Record GovernorStatus := {
  gs_generation : Z;
  gs_profile : string;
  gs_scene : string;
  gs_trigger_source : string;
  gs_diagnostics : GovernorDiagnosticsStatus;
  gs_desired_scalars : list DecisionScalar;
  gs_applied_scalars : list DecisionScalar;
}.

(** ** What the daemon advertises *)

(** [is_empty] of a collection *)
Definition is_nil {A} (l : list A) : bool := match l with [] => true | _ => false end.

Definition api_capability (t : ResolvedTarget) : TargetCapability := {|
  tc_id := rt_id t;
  tc_kind := rt_kind t;
  tc_label := rt_label t;
  tc_cpus := CpuSet_iter (rt_cpus t);
  tc_minimum_hz := lim_min (rt_hardware_limits t);
  tc_maximum_hz := lim_max (rt_hardware_limits t);
  tc_available_hz := rt_available_frequencies t;
  tc_can_override := true;
|}.

Definition mode_info (id display_name description : string) : ModeInfo :=
  {| mi_id := id; mi_display_name := display_name; mi_description := description |}.

Definition capabilities `{RegexEngine} (c : ResolvedConfiguration) : Capabilities :=
  let when (b : bool) (l : list string) := if b then l else [] in
  {| ca_api_version := ApiVersion_CURRENT;
     ca_features :=
       ["thermal-guard"; "active-workload"; "config-reload-v2"; "logind-sleep-wake"; "decision-trace"]
       ++ when (in_enabled (pol_input (rc_policy c))) ["evdev-scenes"; "desktop-input-v1"]
       ++ when (sc_enabled (pol_scheduler (rc_policy c))) ["scene-scheduler-v1"]
       ++ when (negb (is_nil (dev_scalar_targets (rc_device c)))) ["scalar-targets-v1"]
       ++ when (negb (is_nil (dev_cpu_policies (rc_device c)))
                && forallb (fun p => is_some_and (cp_energy_model p) (fun _ => true)) (dev_cpu_policies (rc_device c))
                && forallb (fun p => is_some_and (pc_power_budget p) (fun _ => true)) (pol_profiles (rc_policy c)))
            ["energy-governor-v1"]
       ++ ["device-profile"];
     ca_modes :=
       [mode_info "auto" "Automatic" "Use the active workload rule or balanced default";
        mode_info "powersave" "Power saver" "Prefer efficient operating points";
        mode_info "balance" "Balanced" "Balance responsiveness and efficiency";
        mode_info "performance" "Performance" "Prefer responsiveness within safety caps"];
     ca_targets := api_capability <$> values (rc_targets c);
     ca_config_schema_version := CONFIG_SCHEMA_VERSION |}.

(** ** Errors *)

Inductive ClientError :=
| Transport (e : BusError)
| Remote (name message : string)
| IncompatibleApi (server : ApiVersion)
| InvalidRequest (message : text).

(** [From<zbus::Error>]: only a method error names what went wrong. *)
Definition client_error (e : BusError) : ClientError :=
  match be_kind e with
  | MethodError name => Remote name (be_text e)
  | _ => Transport e
  end.

Definition remote_name (e : ClientError) : option string :=
  match e with Remote name _ => Some name | _ => None end.

(** ** The checks of the client *)

Definition invalid (message : text) : ClientError + unit := inl (InvalidRequest message).

(** [?] *)
Definition or_return {A B} (m : ClientError + A) (k : A -> ClientError + B) : ClientError + B :=
  match m with inl e => inl e | inr a => k a end.

Definition validate_decision_trace_limit (limit : Z) : ClientError + unit :=
  if MAX_TRACE_PAGE <? limit
  then invalid [PText "decision trace limit "; PNum limit; PText " exceeds "; PNum MAX_TRACE_PAGE]
  else inr tt.

Definition ensure_current (server : ApiVersion) : ClientError + unit :=
  if is_current server then inr tt else inl (IncompatibleApi server).

Definition validate_workload_pid (process : Z) : ClientError + unit :=
  if process =? 0 then invalid [PText "PID zero is not a workload"] else inr tt.

Definition is_identifier_punct (b : Ascii.ascii) : bool :=
  (byte_of b =? 45) || (byte_of b =? 95) || (byte_of b =? 46).

Definition validate_identifier (kind value : string) : ClientError + unit :=
  if str_len value =? 0 then invalid [PText kind; PText " must not be empty"]
  else if 64 <? str_len value then invalid [PText kind; PText " exceeds 64 bytes"]
  else
    let valid :=
      match bytes value with
      | first :: rest =>
          is_ascii_alphanumeric first && forallb (fun b => is_ascii_alphanumeric b || is_identifier_punct b) rest
      | [] => false
      end in
    if valid then inr tt else invalid [PText kind; PText " contains unsupported characters"].

(** The loop over the requests, with the targets seen so far. *)
Fixpoint validate_override_list (target_ids : gset string) (overrides : list FrequencyOverride)
  : ClientError + unit :=
  match overrides with
  | [] => inr tt
  | request :: overrides =>
      let target := PText (fo_target_id request) in
      or_return (validate_identifier "target ID" (fo_target_id request)) (fun _ =>
      if (fo_min_hz request =? 0) || (fo_max_hz request =? 0)
      then invalid [PText "target '"; target; PText "' has a zero frequency bound"]
      else if fo_max_hz request <? fo_min_hz request
      then invalid [PText "target '"; target; PText "' minimum exceeds maximum"]
      else if 256 <? str_len (fo_reason request)
      then invalid [PText "target '"; target; PText "' reason exceeds 256 bytes"]
      else if bool_decide (fo_target_id request ∈ target_ids)
      then invalid [PText "duplicate target '"; target; PText "'"]
      else validate_override_list ({[fo_target_id request]} ∪ target_ids) overrides)
  end.

Definition validate_frequency_overrides (overrides : list FrequencyOverride) : ClientError + unit :=
  match overrides with
  | [] => invalid [PText "at least one frequency override is required"]
  | _ => validate_override_list ∅ overrides
  end.

(** The targets to clear: identifiers, each once. *)
Fixpoint validate_target_ids (unique : gset string) (target_ids : list string) : ClientError + unit :=
  match target_ids with
  | [] => inr tt
  | target_id :: target_ids =>
      or_return (validate_identifier "target ID" target_id) (fun _ =>
      if bool_decide (target_id ∈ unique)
      then invalid [PText "duplicate target '"; PText target_id; PText "'"]
      else validate_target_ids ({[target_id]} ∪ unique) target_ids)
  end.

(** One matcher of an application rule. *)
Definition validate_matcher_text (name : string) (value : option string) : ClientError + unit :=
  match value with
  | None => inr tt
  | Some value =>
      if str_len value =? 0 then invalid [PText "rule "; PText name; PText " must not be empty"]
      else if 1024 <? str_len value then invalid [PText "rule "; PText name; PText " exceeds 1024 bytes"]
      else inr tt
  end.

Definition validate_rule (rule : ApiAppRule) : ClientError + unit :=
  or_return (validate_identifier "rule ID" (aa_id rule)) (fun _ =>
  if negb (aa_owner_uid rule =? u32_max)
  then invalid [PText "application rules are administrator-owned and global"]
  else
    or_return (validate_identifier "mode" (aa_mode rule)) (fun _ =>
    match aa_executable rule, aa_comm_regex rule with
    | None, None => invalid [PText "an executable or comm regex matcher is required"]
    | executable, comm_regex =>
        or_return (validate_matcher_text "executable" executable) (fun _ =>
        validate_matcher_text "comm regex" comm_regex)
    end)).

(** ** Calls *)

(** [FrameHintEvent::as_str] *)
Definition frame_hint_str (e : FrameHintEvent) : string :=
  match e with
  | RenderStarted => "render-started"
  | RenderIdle => "render-idle"
  | DeadlineMissed => "deadline-missed"
  | DisplayBlanked => "display-blanked"
  | DisplayUnblanked => "display-unblanked"
  end.

(** The methods of the client that change something. *)
Inductive ClientCall :=
| CallSetMode (mode : string)
| CallSetActiveWorkload (request : WorkloadRequest)
| CallClearActiveWorkload
| CallSetForegroundProcess (process : Z) (reason : string)
| CallClearForegroundProcess
| CallReportFrameHint (event : FrameHintEvent)
| CallSetFrequencyOverrides (overrides : list FrequencyOverride)
| CallClearFrequencyOverrides (target_ids : list string)
| CallReloadConfig
| CallSetAppRule (rule : ApiAppRule)
| CallRemoveAppRule (rule_id : string).

Definition reason_too_long (what reason : string) : ClientError + unit :=
  if 256 <? str_len reason then invalid [PText what; PText " reason exceeds 256 bytes"] else inr tt.

(** What a method sends once its checks have passed. *)
Definition checked_call (c : ClientCall) : ClientError + ServiceCall :=
  match c with
  | CallSetMode mode => or_return (validate_identifier "mode" mode) (fun _ => inr (SetMode mode))
  | CallSetActiveWorkload request =>
      or_return (validate_workload_pid (wr_pid request)) (fun _ =>
      or_return (if negb (bool_decide (wr_mode request = "")) then validate_identifier "mode" (wr_mode request)
                 else inr tt) (fun _ =>
      or_return (reason_too_long "workload" (wr_reason request)) (fun _ => inr (SetActiveWorkload request))))
  | CallClearActiveWorkload => inr ClearActiveWorkload
  | CallSetForegroundProcess process reason =>
      or_return (validate_workload_pid process) (fun _ =>
      or_return (reason_too_long "focus" reason) (fun _ => inr (SetForegroundProcess process reason)))
  | CallClearForegroundProcess => inr ClearForegroundProcess
  | CallReportFrameHint event => inr (ReportFrameHint (frame_hint_str event))
  | CallSetFrequencyOverrides overrides =>
      or_return (validate_frequency_overrides overrides) (fun _ => inr (SetFrequencyOverrides overrides))
  | CallClearFrequencyOverrides target_ids =>
      or_return (validate_target_ids ∅ target_ids) (fun _ => inr (ClearFrequencyOverrides target_ids))
  | CallReloadConfig => inr ReloadConfig
  | CallSetAppRule rule => or_return (validate_rule rule) (fun _ => inr (SetAppRule rule))
  | CallRemoveAppRule rule_id =>
      or_return (validate_identifier "rule ID" rule_id) (fun _ => inr (RemoveAppRule rule_id))
  end.

Class DaemonBus (W : Type) := {
  daemon_proxy : W -> (BusError + unit) * W;
  bus_call : ServiceCall -> W -> (BusError + Reply) * W;
  bus_get_status : W -> (BusError + DaemonStatus) * W;
  bus_get_capabilities : W -> (BusError + Capabilities) * W;
  bus_list_running_workloads : W -> (BusError + list RunningWorkload) * W;
  bus_get_decision_trace : Z -> Z -> W -> (BusError + list DecisionTraceEntry) * W;
  bus_get_governor_status : W -> (BusError + GovernorStatus) * W;
  bus_list_app_rules : W -> (BusError + list ApiAppRule) * W;
}.

Definition CL (W A : Type) : Type := W -> (ClientError + A) * W.
#[export] Instance CL_ret W : MRet (CL W) := fun A a w => (inr a, w).
#[export] Instance CL_bind W : MBind (CL W) := fun A B k m w =>
  let '(r, w) := m w in match r with inl e => (inl e, w) | inr a => k a w end.

Record DiagnosticCheck := { dk_id : string; dk_passed : bool; dk_message : text }.
Record DiagnosticReport := { dr_api_version : ApiVersion; dr_healthy : bool; dr_checks : list DiagnosticCheck }.

Section client.
Context {W : Type} `{!DaemonBus W}.

(** A bus call, its error as the client's. *)
Definition on_bus {A} (op : W -> (BusError + A) * W) : CL W A := fun w =>
  let '(r, w) := op w in (match r with inl e => inl (client_error e) | inr a => inr a end, w).

Definition lift_check {A} (r : ClientError + A) : CL W A := fun w => (r, w).

(** [self.proxy().await?.method(..).await.map_err(ClientError::from)] *)
Definition through_proxy {A} (op : W -> (BusError + A) * W) : CL W A :=
  on_bus daemon_proxy;; on_bus op.

Definition client_call (c : ClientCall) : CL W Reply :=
  call ← lift_check (checked_call c);
  through_proxy (bus_call call).

Definition client_status : CL W DaemonStatus :=
  status ← through_proxy bus_get_status;
  lift_check (ensure_current (ds_api_version status));;
  mret status.

Definition client_capabilities : CL W Capabilities :=
  c ← through_proxy bus_get_capabilities;
  lift_check (ensure_current (ca_api_version c));;
  mret c.

Definition client_running_workloads : CL W (list RunningWorkload) := through_proxy bus_list_running_workloads.
Definition client_governor_status : CL W GovernorStatus := through_proxy bus_get_governor_status.
Definition client_app_rules : CL W (list ApiAppRule) := through_proxy bus_list_app_rules.

Definition client_decision_trace (after_id limit : Z) : CL W (list DecisionTraceEntry) :=
  lift_check (validate_decision_trace_limit limit);;
  through_proxy (bus_get_decision_trace after_id limit).

Definition client_active_workload : CL W ActiveWorkload :=
  status ← client_status; mret (ds_active_workload status).

Definition diagnostic_checks (status : DaemonStatus) (c : Capabilities) : list DiagnosticCheck :=
  let health := ds_health status in
  [{| dk_id := "api.current"; dk_passed := true;
      dk_message := [PText "daemon API "; PNum (av_major (ds_api_version status)); PText ".";
                     PNum (av_minor (ds_api_version status)); PText " is current"] |};
   {| dk_id := "daemon.health"; dk_passed := bool_decide (hs_state health = "healthy"); dk_message := hs_summary health |};
   {| dk_id := "actuator.writable"; dk_passed := negb (hs_read_only health);
      dk_message := if hs_read_only health then [PText "actuator is in read-only degraded mode"]
                    else [PText "actuator accepts authorized mutations"] |};
   {| dk_id := "recovery.complete"; dk_passed := negb (hs_recovery_pending health);
      dk_message := if hs_recovery_pending health then [PText "crash recovery is still pending"]
                    else [PText "no unfinished recovery journal"] |};
   {| dk_id := "targets.discovered"; dk_passed := negb (is_nil (ca_targets c));
      dk_message := [PNum (Z.of_nat (length (ca_targets c))); PText " target(s) discovered"] |}].

Definition diagnose : CL W DiagnosticReport :=
  status ← client_status;
  c ← client_capabilities;
  let checks := diagnostic_checks status c in
  mret {| dr_api_version := ds_api_version status; dr_healthy := forallb dk_passed checks; dr_checks := checks |}.
End client.

(** * The client and the daemon agree *)

Lemma identifier_punct b : is_identifier_punct b = is_target_punct b.
Proof. unfold is_identifier_punct, is_target_punct. lia. Qed.

(** The client accepts as an identifier exactly what is the identifier of a
    target. *)
Lemma validate_identifier_target kind v : validate_identifier kind v = inr tt <-> TargetId_new v = Ok v.
Proof.
  unfold validate_identifier, TargetId_new, MAX_LEN.
  assert (Hr : forall l, forallb (fun b => is_ascii_alphanumeric b || is_identifier_punct b) l
                         = forallb (fun b => is_ascii_alphanumeric b || is_target_punct b) l).
  { induction l as [|b l IH]; [done|]. simpl. by rewrite identifier_punct, IH. }
  destruct (str_len v =? 0); [done|]. rewrite (Z.leb_antisym 64). destruct (64 <? str_len v); [done|]. simpl.
  destruct (bytes v) as [|c l]; [done|]. rewrite Hr.
  by destruct (is_ascii_alphanumeric c && forallb (fun b => is_ascii_alphanumeric b || is_target_punct b) l).
Qed.

(** A hint is read back as the hint it names, and nothing else is read. *)
Lemma frame_hint_spelling e s : parse_frame_hint s = Some e <-> s = frame_hint_str e.
Proof.
  unfold parse_frame_hint. split; [|by intros ->; destruct e].
  repeat case_bool_decide; by intros [= <-].
Qed.

(** What a checked list of overrides is. *)
Record override_checked (request : FrequencyOverride) : Prop := {
  oc_id : TargetId_new (fo_target_id request) = Ok (fo_target_id request);
  oc_min : fo_min_hz request <> 0;
  oc_order : fo_min_hz request <= fo_max_hz request;
  oc_reason : str_len (fo_reason request) <= 256;
}.

Lemma validate_override_list_Ok seen overrides :
  validate_override_list seen overrides = inr tt ->
  Forall override_checked overrides /\ NoDup (fo_target_id <$> overrides)
  /\ Forall (fun id => id ∉ seen) (fo_target_id <$> overrides).
Proof.
  revert seen. induction overrides as [|r l IH]; intros seen; cbn [validate_override_list].
  - intros _. split_and!; constructor.
  - destruct (validate_identifier _ _) as [|[]] eqn:Ei; [done|]. simpl.
    destruct (_ || _) eqn:Ez; [done|]. apply orb_false_iff in Ez as [Ez _].
    destruct (fo_max_hz r <? fo_min_hz r) eqn:Eo; [done|]. destruct (256 <? _) eqn:Er; [done|].
    case_bool_decide as Hs; [done|]. intros (H1 & H2 & H3)%IH. split_and!.
    + constructor; [|done]. apply validate_identifier_target in Ei. constructor; [done|lia..].
    + csimpl. constructor; [|done]. intros Hin.
      rewrite Forall_forall in H3. apply (H3 _ Hin). set_solver.
    + csimpl. constructor; [done|]. eapply Forall_impl; [exact H3|]. simpl. set_solver.
Qed.

Lemma validate_frequency_overrides_Ok overrides :
  validate_frequency_overrides overrides = inr tt ->
  overrides <> [] /\ Forall override_checked overrides /\ NoDup (fo_target_id <$> overrides).
Proof.
  destruct overrides as [|r l]; [done|]. intros (H1 & H2 & _)%validate_override_list_Ok. done.
Qed.
