(* ===== verification/CommandLine.v ===== *)
(** * The command line tool ([uperfctl/src/args.rs], [uperfctl/src/main.rs])

    The arguments, the numbers in them, and what each command asks of the
    daemon. Printing is the data that is printed; JSON and the layout of the
    text are left out. *)

From S2P Require Import Prelude Float64 Domain Text Scene Strings ActuatorTypes Frequency Thermal Load ConfigTypes Validate ValidatePolicy ValidateFacts Energy Governor Rules Engine DaemonTypes DecisionTrace DaemonConfig Systemd RuntimeTypes Service RuntimeControl Client.

(** ** The commands *)

Inductive BusKind := SystemBus | SessionBus.
#[global] Instance BusKind_eq_dec : EqDecision BusKind.
Proof. solve_decision. Defined.

Record TraceOptions := { to_after_id : Z; to_limit : Z }.
Inductive ModeAction := ModeShow | ModeList | ModeSet (mode : string).
Inductive WorkloadAction :=
| WorkloadShow
| WorkloadSet (process : Z) (mode : option string) (reason : string)
| WorkloadClear.
Inductive ForegroundAction := ForegroundSet (process : Z) (reason : string) | ForegroundClear.
Inductive FrequencyAction :=
| FrequencyShow (target : option string)
| FrequencySet (target_id minimum maximum : string) (ttl : option string) (reason : string)
| FrequencyClear (target_ids : list string).

Inductive CliCommand :=
| DoStatus
| DoHealth
| DoTrace (options : TraceOptions)
| DoGovernorStatus
| DoMode (action : ModeAction)
| DoWorkload (action : WorkloadAction)
| DoForeground (action : ForegroundAction)
| DoTargets (target : option string)
| DoFrequency (action : FrequencyAction)
| DoReload
| DoConfigValidate (path : string)
| DoDiagnose
| DoHelp (topic : option string)
| DoVersion.

Record Cli := { cli_json : bool; cli_bus : BusKind; cli_timeout_ms : Z; cli_command : CliCommand }.

Definition DEFAULT_TIMEOUT_MS : Z := 30000.

(** ** The cursor: the arguments that are left *)

Definition required (name : string) (args : list string) : res (string * list string) text :=
  match args with
  | value :: args => Ok (value, args)
  | [] => Err [PText "missing "; PText name]
  end.

Definition finish {A} (args : list string) (a : A) : res A text :=
  match args with
  | extra :: _ => Err [PText "unexpected argument '"; PText extra; PText "'"]
  | [] => Ok a
  end.

Definition parse_number (maximum : Z) (value name : string) : res Z text :=
  match parse_unsigned maximum value with
  | Some z => Ok z
  | None => Err [PText name; PText " must be a non-negative integer"]
  end.

Definition parse_positive (maximum : Z) (value name : string) : res Z text :=
  let? parsed := parse_number maximum value name in
  if parsed =? 0 then Err [PText name; PText " must be greater than zero"] else Ok parsed.

Definition set_once {A} (slot : option A) (value : A) (name : string) : res (option A) text :=
  match slot with
  | Some _ => Err [PText name; PText " was specified more than once"]
  | None => Ok (Some value)
  end.

(** ** One parser per command *)

(** The loop of [parse_trace], with the values and whether each was given. *)
Fixpoint trace_options (after_id limit : Z) (after_seen limit_seen : bool) (args : list string)
  : res TraceOptions text :=
  match args with
  | [] => Ok {| to_after_id := after_id; to_limit := limit |}
  | option :: args =>
      if bool_decide (option = "--after") then
        if after_seen then Err [PText "--after was specified more than once"]
        else
          match args with
          | [] => Err [PText "missing decision ID"]
          | value :: args =>
              let? after_id := parse_number u64_max value "decision ID" in
              trace_options after_id limit true limit_seen args
          end
      else if bool_decide (option = "--limit") then
        if limit_seen then Err [PText "--limit was specified more than once"]
        else
          match args with
          | [] => Err [PText "missing trace limit"]
          | value :: args =>
              let? limit := parse_number u32_max value "trace limit" in
              if MAX_TRACE_PAGE <? limit then Err [PText "trace limit exceeds "; PNum MAX_TRACE_PAGE]
              else trace_options after_id limit after_seen true args
          end
      else Err [PText "unknown trace option '"; PText option; PText "'"]
  end.

Definition parse_trace (args : list string) : res TraceOptions text := trace_options 0 128 false false args.

Definition parse_mode_action (args : list string) : res ModeAction text :=
  match args with
  | [] => Ok ModeShow
  | action :: args =>
      if bool_decide (action = "show") then finish args ModeShow
      else if bool_decide (action = "list") then finish args ModeList
      else if bool_decide (action = "set") then
        let? (mode, args) := required "mode name" args in finish args (ModeSet mode)
      else finish args (ModeSet action)
  end.

Fixpoint workload_options (process : Z) (mode : option string) (reason : string) (args : list string)
  : res WorkloadAction text :=
  match args with
  | [] => Ok (WorkloadSet process mode reason)
  | option :: args =>
      if bool_decide (option = "--mode") then
        match args with
        | [] => Err [PText "missing mode"]
        | value :: args =>
            let? mode := set_once mode value "--mode" in workload_options process mode reason args
        end
      else if bool_decide (option = "--reason") then
        match args with
        | [] => Err [PText "missing reason"]
        | reason :: args => workload_options process mode reason args
        end
      else Err [PText "unknown workload set option '"; PText option; PText "'"]
  end.

Definition parse_workload (args : list string) : res WorkloadAction text :=
  match args with
  | [] => Ok WorkloadShow
  | action :: args =>
      if bool_decide (action = "show") then finish args WorkloadShow
      else if bool_decide (action = "set") then
        let? (value, args) := required "PID" args in
        let? process := parse_positive u32_max value "PID" in
        workload_options process None "uperfctl workload set" args
      else if bool_decide (action = "clear") then finish args WorkloadClear
      else Err [PText "unknown workload action '"; PText action; PText "'; expected show, set, or clear"]
  end.

Fixpoint foreground_options (process : Z) (reason : string) (args : list string) : res ForegroundAction text :=
  match args with
  | [] => Ok (ForegroundSet process reason)
  | option :: args =>
      if bool_decide (option = "--reason") then
        match args with
        | [] => Err [PText "missing reason"]
        | reason :: args => foreground_options process reason args
        end
      else Err [PText "unknown foreground set option '"; PText option; PText "'"]
  end.

Definition parse_foreground (args : list string) : res ForegroundAction text :=
  match args with
  | [] => Err [PText "foreground requires an action; expected set or clear"]
  | action :: args =>
      if bool_decide (action = "set") then
        let? (value, args) := required "PID" args in
        let? process := parse_positive u32_max value "PID" in
        foreground_options process "uperfctl foreground set" args
      else if bool_decide (action = "clear") then finish args ForegroundClear
      else Err [PText "unknown foreground action '"; PText action; PText "'; expected set or clear"]
  end.

Fixpoint frequency_options (target_id minimum maximum : string) (ttl : option string) (reason : string)
    (args : list string) : res FrequencyAction text :=
  match args with
  | [] => Ok (FrequencySet target_id minimum maximum ttl reason)
  | option :: args =>
      if bool_decide (option = "--ttl") then
        match args with
        | [] => Err [PText "missing TTL"]
        | value :: args =>
            let? ttl := set_once ttl value "--ttl" in
            frequency_options target_id minimum maximum ttl reason args
        end
      else if bool_decide (option = "--reason") then
        match args with
        | [] => Err [PText "missing reason"]
        | reason :: args => frequency_options target_id minimum maximum ttl reason args
        end
      else Err [PText "unknown frequency set option '"; PText option; PText "'"]
  end.

Definition parse_frequency (args : list string) : res FrequencyAction text :=
  match args with
  | [] => Ok (FrequencyShow None)
  | action :: args =>
      if bool_decide (action = "show") || bool_decide (action = "get") then
        match args with
        | [] => Ok (FrequencyShow None)
        | target :: args => finish args (FrequencyShow (Some target))
        end
      else if bool_decide (action = "set") then
        let? (target_id, args) := required "target ID" args in
        let? (minimum, args) := required "minimum frequency" args in
        let? (maximum, args) := required "maximum frequency" args in
        frequency_options target_id minimum maximum None "uperfctl frequency set" args
      else if bool_decide (action = "clear") then Ok (FrequencyClear args)
      else finish args (FrequencyShow (Some action))
  end.

Definition parse_config (args : list string) : res CliCommand text :=
  let? (action, args) := required "config action" args in
  if bool_decide (action = "validate") then
    let? (path, args) := required "configuration path" args in
    finish args (DoConfigValidate path)
  else Err [PText "unknown config action '"; PText action; PText "'; expected validate"].

(** ** The whole line *)

(** The command, once the global options are read. *)
Definition parse_command (args : list string) : res CliCommand text :=
  match args with
  | [] => finish [] (DoHelp None)
  | name :: args =>
      if bool_decide (name = "status") then finish args DoStatus
      else if bool_decide (name = "health") then finish args DoHealth
      else if bool_decide (name = "trace") then let? o := parse_trace args in Ok (DoTrace o)
      else if bool_decide (name = "governor-status") then finish args DoGovernorStatus
      else if bool_decide (name = "mode") then let? a := parse_mode_action args in Ok (DoMode a)
      else if bool_decide (name = "workload") then let? a := parse_workload args in Ok (DoWorkload a)
      else if bool_decide (name = "foreground") then let? a := parse_foreground args in Ok (DoForeground a)
      else if bool_decide (name = "targets") then finish (tail args) (DoTargets (head args))
      else if bool_decide (name = "frequency") || bool_decide (name = "freq")
      then let? a := parse_frequency args in Ok (DoFrequency a)
      else if bool_decide (name = "reload") then finish args DoReload
      else if bool_decide (name = "config") then parse_config args
      else if bool_decide (name = "diagnose") then finish args DoDiagnose
      else if bool_decide (name = "help") then finish (tail args) (DoHelp (head args))
      else if bool_decide (name = "version") then finish args DoVersion
      else Err [PText "unknown command '"; PText name; PText "'; run 'uperfctl help'"]
  end.

Fixpoint parse_line (json : bool) (bus : BusKind) (timeout_ms : Z) (args : list string) : res Cli text :=
  let cli command := {| cli_json := json; cli_bus := bus; cli_timeout_ms := timeout_ms; cli_command := command |} in
  match args with
  | [] => let? command := parse_command [] in Ok (cli command)
  | option :: rest =>
      if bool_decide (option = "--json") then parse_line true bus timeout_ms rest
      else if bool_decide (option = "--session") then parse_line json SessionBus timeout_ms rest
      else if bool_decide (option = "--bus") then
        match rest with
        | [] => Err [PText "missing bus kind"]
        | value :: rest =>
            if bool_decide (value = "system") then parse_line json SystemBus timeout_ms rest
            else if bool_decide (value = "session") then parse_line json SessionBus timeout_ms rest
            else Err [PText "unknown bus '"; PText value; PText "'; expected system or session"]
        end
      else if bool_decide (option = "--timeout") then
        match rest with
        | [] => Err [PText "missing timeout in ms"]
        | value :: rest =>
            let? timeout_ms := parse_positive u64_max value "timeout" in
            parse_line json bus timeout_ms rest
        end
      else if bool_decide (option = "-h") || bool_decide (option = "--help") then Ok (cli (DoHelp (head rest)))
      else if bool_decide (option = "-V") || bool_decide (option = "--version") then finish rest (cli DoVersion)
      else let? command := parse_command args in Ok (cli command)
  end.

(** [Cli::parse] *)
Definition parse_cli (args : list string) : res Cli text := parse_line false SystemBus DEFAULT_TIMEOUT_MS args.

(** ** Numbers with a unit *)

Definition strip_suffix (suffix s : string) : option string :=
  if bool_decide (bytes suffix `suffix_of` bytes s)
  then Some (of_bytes (take (length (bytes s) - length (bytes suffix)) (bytes s)))
  else None.

Definition all_digits (s : string) : bool := forallb is_ascii_digit (bytes s).

Definition checked_mul (a b : Z) : option Z := if a * b <=? u64_max then Some (a * b) else None.
Definition checked_add (a b : Z) : option Z := if a + b <=? u64_max then Some (a + b) else None.

Definition parse_decimal_scaled (number : string) (multiplier : Z) : res Z text :=
  if (str_len number =? 0) || starts_with "-" number || starts_with "+" number
  then Err [PText "expected a non-negative decimal number"]
  else
    let '(whole, fraction) := default (number, "") (split_once (Ascii.ascii_of_nat 46) number) in
    if (str_len whole =? 0) || negb (all_digits whole) || negb (all_digits fraction)
    then Err [PText "expected a decimal number"]
    else if 6 <? str_len fraction then Err [PText "more than six fractional digits are not supported"]
    else
      let? whole := ok_or (parse_u64 whole) [PText "decimal number is too large"] in
      let scale := 10 ^ str_len fraction in
      let? fraction :=
        if str_len fraction =? 0 then Ok 0
        else ok_or (parse_u64 fraction) [PText "fractional number is too large"] in
      let? numerator := ok_or (v ← checked_mul whole scale; checked_add v fraction)
                          [PText "decimal number is too large"] in
      let? scaled := ok_or (checked_mul numerator multiplier) [PText "scaled number is too large"] in
      if negb (scaled mod scale =? 0) then Err [PText "value does not resolve to a whole base unit"]
      else Ok (scaled / scale).

(** The first of the suffixes that fits, and its multiplier. *)
Fixpoint split_unit (units : list (string * Z)) (normalized : string) : string * Z :=
  match units with
  | [] => (normalized, 1)
  | (suffix, multiplier) :: units =>
      match strip_suffix suffix normalized with
      | Some value => (value, multiplier)
      | None => split_unit units normalized
      end
  end.

Definition frequency_units : list (string * Z) :=
  [("ghz", 1000000000); ("mhz", 1000000); ("khz", 1000); ("hz", 1)].
Definition duration_units : list (string * Z) := [("ms", 1); ("s", 1000); ("m", 60000); ("h", 3600000)].

Definition parse_with_unit (units : list (string * Z)) (what input : string) : res Z text :=
  let '(number, multiplier) := split_unit units (to_ascii_lowercase (trim_str input)) in
  map_err (fun e => PText "invalid " :: PText what :: PText " '" :: PText input :: PText "': " :: e)
    (parse_decimal_scaled number multiplier).

Definition parse_frequency_hz (input : string) : res Z text := parse_with_unit frequency_units "frequency" input.
Definition parse_duration_ms (input : string) : res Z text := parse_with_unit duration_units "duration" input.

(** The index of a sorted list a percentile reads; [None] is the index out of
    range, which an empty list gives. *)
Definition nearest_rank_percentile (sorted_values : list Z) (percentile : Z) : option Z :=
  let rank := (sat_mul (Z.of_nat (length sorted_values)) percentile + 99) / 100 in
  sorted_values !! Z.to_nat (sat_sub rank 1).

(** ** What a command does *)

Inductive CliError :=
| FromClient (e : ClientError)
| Elapsed (timeout_ms : Z)
| Failed (message : text).

(** What is printed. *)
Inductive Output :=
| OutStatus (s : DaemonStatus)
| OutHealth (h : HealthStatus)
| OutTrace (l : list DecisionTraceEntry)
| OutMode (s : DaemonStatus)
| OutModes (l : list ModeInfo)
| OutWorkload (w : ActiveWorkload)
| OutTargets (l : list TargetCapability)
| OutFrequencies (l : list FrequencyStatus)
| OutReply (r : Reply)
| OutGovernor (s : GovernorStatus)
| OutDiagnostics (r : DiagnosticReport).

Definition require_mode (c : Capabilities) (mode : string) : res unit text :=
  if existsb (fun candidate => bool_decide (mi_id candidate = mode)) (ca_modes c) then Ok tt
  else Err (PText "unsupported mode '" :: PText mode :: PText "'; daemon advertises: "
            :: (PText <$> (mi_id <$> ca_modes c))).

Definition require_target (c : Capabilities) (target_id : string) : res TargetCapability text :=
  ok_or (List.find (fun t => bool_decide (tc_id t = target_id)) (ca_targets c))
    [PText "daemon did not advertise target '"; PText target_id; PText "'"].

(** The request of [frequency set] under what the daemon advertises. *)
Definition frequency_request (c : Capabilities) (target_id minimum maximum : string) (ttl : option string)
    (reason : string) : res FrequencyOverride text :=
  let? target := require_target c target_id in
  do? reject_if (negb (tc_can_override target))
    [PText "target '"; PText target_id; PText "' does not support frequency overrides"] in
  let? minimum_hz := parse_frequency_hz minimum in
  let? maximum_hz := parse_frequency_hz maximum in
  do? reject_if (maximum_hz <? minimum_hz) [PText "minimum frequency exceeds maximum frequency"] in
  do? reject_if ((minimum_hz <? tc_minimum_hz target) || (tc_maximum_hz target <? maximum_hz))
    [PText "requested "; PNum minimum_hz; PText ".."; PNum maximum_hz; PText " Hz is outside target '";
     PText target_id; PText "' range "; PNum (tc_minimum_hz target); PText ".."; PNum (tc_maximum_hz target);
     PText " Hz"] in
  let? ttl_ms := match ttl with Some ttl => parse_duration_ms ttl | None => Ok 0 end in
  Ok {| fo_target_id := target_id; fo_min_hz := minimum_hz; fo_max_hz := maximum_hz; fo_ttl_ms := ttl_ms;
        fo_reason := reason |}.

Definition TT (W A : Type) : Type := W -> (CliError + A) * W.
#[export] Instance TT_ret W : MRet (TT W) := fun A a w => (inr a, w).
#[export] Instance TT_bind W : MBind (TT W) := fun A B k m w =>
  let '(r, w) := m w in match r with inl e => (inl e, w) | inr a => k a w end.

Section remote.
Context {W : Type} `{!DaemonBus W}.

Definition of_client {A} (m : CL W A) : TT W A := fun w =>
  let '(r, w) := m w in (match r with inl e => inl (FromClient e) | inr a => inr a end, w).

Definition of_text {A} (r : res A text) : TT W A := fun w =>
  (match r with Ok a => inr a | Err e => inl (Failed e) | Panic => inl (Failed []) end, w).

Definition reply_of (c : ClientCall) : TT W (bool * Output) :=
  r ← of_client (client_call c); mret (true, OutReply r).

Definition run_mode (action : ModeAction) : TT W (bool * Output) :=
  match action with
  | ModeShow => status ← of_client client_status; mret (true, OutMode status)
  | ModeList => c ← of_client client_capabilities; mret (true, OutModes (ca_modes c))
  | ModeSet mode =>
      c ← of_client client_capabilities;
      of_text (require_mode c mode);;
      reply_of (CallSetMode mode)
  end.

Definition run_workload (action : WorkloadAction) : TT W (bool * Output) :=
  match action with
  | WorkloadShow => w ← of_client client_active_workload; mret (true, OutWorkload w)
  | WorkloadSet process mode reason =>
      match mode with
      | Some mode => c ← of_client client_capabilities; of_text (require_mode c mode)
      | None => mret tt
      end;;
      reply_of (CallSetActiveWorkload {| wr_pid := process; wr_mode := default "" mode; wr_reason := reason |})
  | WorkloadClear => reply_of CallClearActiveWorkload
  end.

Definition run_foreground (action : ForegroundAction) : TT W (bool * Output) :=
  match action with
  | ForegroundSet process reason => reply_of (CallSetForegroundProcess process reason)
  | ForegroundClear => reply_of CallClearForegroundProcess
  end.

(** Every target to clear is advertised. *)
Fixpoint require_targets (c : Capabilities) (target_ids : list string) : res unit text :=
  match target_ids with
  | [] => Ok tt
  | target_id :: target_ids => let? _ := require_target c target_id in require_targets c target_ids
  end.

(** What is selected of a list: an error when it selects nothing. *)
Definition select {A} (id_of : A -> string) (selected : option string) (message : text) (l : list A)
  : res (list A) text :=
  match selected with
  | None => Ok l
  | Some id =>
      match List.filter (fun a => bool_decide (id_of a = id)) l with
      | [] => Err (message ++ [PText id; PText "'"])
      | l => Ok l
      end
  end.

Definition run_frequency (action : FrequencyAction) : TT W (bool * Output) :=
  match action with
  | FrequencyShow target_id =>
      status ← of_client client_status;
      l ← of_text (select fs_target_id target_id [PText "no frequency state for target '"] (ds_frequencies status));
      mret (true, OutFrequencies l)
  | FrequencySet target_id minimum maximum ttl reason =>
      c ← of_client client_capabilities;
      request ← of_text (frequency_request c target_id minimum maximum ttl reason);
      reply_of (CallSetFrequencyOverrides [request])
  | FrequencyClear target_ids =>
      (if is_nil target_ids then mret tt
       else c ← of_client client_capabilities; of_text (require_targets c target_ids));;
      reply_of (CallClearFrequencyOverrides target_ids)
  end.

(** [false] is an unhealthy answer; [None] is [unreachable!]. *)
Definition run_remote (command : CliCommand) : option (TT W (bool * Output)) :=
  match command with
  | DoStatus => Some (status ← of_client client_status; mret (true, OutStatus status))
  | DoHealth =>
      Some (status ← of_client client_status;
            mret (bool_decide (hs_state (ds_health status) = "healthy"), OutHealth (ds_health status)))
  | DoTrace options =>
      Some (l ← of_client (client_decision_trace (to_after_id options) (to_limit options)); mret (true, OutTrace l))
  | DoGovernorStatus => Some (s ← of_client client_governor_status; mret (true, OutGovernor s))
  | DoMode action => Some (run_mode action)
  | DoWorkload action => Some (run_workload action)
  | DoForeground action => Some (run_foreground action)
  | DoTargets target_id =>
      Some (c ← of_client client_capabilities;
            l ← of_text (select tc_id target_id [PText "daemon did not advertise target '"] (ca_targets c));
            mret (true, OutTargets l))
  | DoFrequency action => Some (run_frequency action)
  | DoReload => Some (reply_of CallReloadConfig)
  | DoDiagnose => Some (r ← of_client diagnose; mret (dr_healthy r, OutDiagnostics r))
  | DoConfigValidate _ | DoHelp _ | DoVersion => None
  end.
End remote.

(** ** Exit codes *)

Definition EXIT_UNHEALTHY : Z := 2.
Definition EXIT_UNAVAILABLE : Z := 3.
Definition EXIT_NOT_AUTHORIZED : Z := 4.
Definition EXIT_CONFLICT : Z := 5.

Definition classify_error (e : CliError) : Z :=
  match e with
  | Elapsed _ => EXIT_UNAVAILABLE
  | Failed _ => 1
  | FromClient (Transport _) | FromClient (IncompatibleApi _) => EXIT_UNAVAILABLE
  | FromClient (Remote name _) =>
      if ends_with ".NotAuthorized" name then EXIT_NOT_AUTHORIZED
      else if ends_with ".Conflict" name then EXIT_CONFLICT
      else if ends_with ".Unavailable" name || ends_with ".Degraded" name then EXIT_UNAVAILABLE
      else 1
  | FromClient (InvalidRequest _) => 1
  end.

(** What [run] makes of the outcome of a remote command. *)
Definition exit_code (r : CliError + (bool * Output)) : Z :=
  match r with
  | inl e => classify_error e
  | inr (true, _) => 0
  | inr (false, _) => EXIT_UNHEALTHY
  end.

(** * A command line says what it parses to *)

(** ** A command line for each command *)

Definition print_option (flag : string) (value : option string) : list string :=
  match value with Some value => [flag; value] | None => [] end.

Definition print_command (c : CliCommand) : list string :=
  match c with
  | DoStatus => ["status"]
  | DoHealth => ["health"]
  | DoTrace o => ["trace"; "--after"; to_string (to_after_id o); "--limit"; to_string (to_limit o)]
  | DoGovernorStatus => ["governor-status"]
  | DoMode ModeShow => ["mode"; "show"]
  | DoMode ModeList => ["mode"; "list"]
  | DoMode (ModeSet mode) => ["mode"; "set"; mode]
  | DoWorkload WorkloadShow => ["workload"; "show"]
  | DoWorkload (WorkloadSet process mode reason) =>
      ["workload"; "set"; to_string process] ++ print_option "--mode" mode ++ ["--reason"; reason]
  | DoWorkload WorkloadClear => ["workload"; "clear"]
  | DoForeground (ForegroundSet process reason) => ["foreground"; "set"; to_string process; "--reason"; reason]
  | DoForeground ForegroundClear => ["foreground"; "clear"]
  | DoTargets target => "targets" :: option_list target
  | DoFrequency (FrequencyShow target) => "frequency" :: "show" :: option_list target
  | DoFrequency (FrequencySet target_id minimum maximum ttl reason) =>
      ["frequency"; "set"; target_id; minimum; maximum] ++ print_option "--ttl" ttl ++ ["--reason"; reason]
  | DoFrequency (FrequencyClear target_ids) => "frequency" :: "clear" :: target_ids
  | DoReload => ["reload"]
  | DoConfigValidate path => ["config"; "validate"; path]
  | DoDiagnose => ["diagnose"]
  | DoHelp topic => "help" :: option_list topic
  | DoVersion => ["version"]
  end.

Definition print_cli (c : Cli) : list string :=
  (if cli_json c then ["--json"] else [])
  ++ (if bool_decide (cli_bus c = SessionBus) then ["--session"] else [])
  ++ "--timeout" :: to_string (cli_timeout_ms c) :: print_command (cli_command c).

(** ** What a parsed command line carries *)

Definition command_wf (c : CliCommand) : Prop :=
  match c with
  | DoTrace o => 0 <= to_after_id o <= u64_max /\ 0 <= to_limit o <= MAX_TRACE_PAGE
  | DoWorkload (WorkloadSet process _ _) | DoForeground (ForegroundSet process _) => 0 < process <= u32_max
  | _ => True
  end.

Record cli_wf (c : Cli) : Prop := {
  cw_timeout : 0 < cli_timeout_ms c <= u64_max;
  cw_command : command_wf (cli_command c);
}.

(** ** Printing and parsing *)

Lemma parse_number_print maximum z name : 0 <= z <= maximum -> parse_number maximum (to_string z) name = Ok z.
Proof. intros Hz. unfold parse_number. by rewrite parse_unsigned_to_string. Qed.

Lemma parse_positive_print maximum z name : 0 < z <= maximum -> parse_positive maximum (to_string z) name = Ok z.
Proof. intros Hz. unfold parse_positive. rewrite parse_number_print by lia. simpl. by destruct (Z.eqb_spec z 0); [lia|]. Qed.

Lemma parse_trace_print o :
  command_wf (DoTrace o) -> parse_trace ["--after"; to_string (to_after_id o); "--limit"; to_string (to_limit o)] = Ok o.
Proof.
  destruct o as [after limit]. unfold command_wf, parse_trace. cbn [to_after_id to_limit]. intros [Ha Hl].
  change (trace_options 0 128 false false ["--after"; to_string after; "--limit"; to_string limit])
    with (let? after_id := parse_number u64_max (to_string after) "decision ID" in
          let? limit := parse_number u32_max (to_string limit) "trace limit" in
          if MAX_TRACE_PAGE <? limit then Err [PText "trace limit exceeds "; PNum MAX_TRACE_PAGE]
          else Ok {| to_after_id := after_id; to_limit := limit |} : res _ text).
  rewrite parse_number_print by done. simpl. rewrite parse_number_print by (unfold MAX_TRACE_PAGE, u32_max in *; lia).
  simpl. by rewrite (proj2 (Z.ltb_ge _ _)) by lia.
Qed.

Lemma workload_options_print process mode reason default_reason :
  workload_options process None default_reason (print_option "--mode" mode ++ ["--reason"; reason])
  = Ok (WorkloadSet process mode reason).
Proof. by destruct mode. Qed.

Lemma frequency_options_print target_id minimum maximum ttl reason default_reason :
  frequency_options target_id minimum maximum None default_reason (print_option "--ttl" ttl ++ ["--reason"; reason])
  = Ok (FrequencySet target_id minimum maximum ttl reason).
Proof. by destruct ttl. Qed.

Lemma parse_command_print c : command_wf c -> parse_command (print_command c) = Ok c.
Proof.
  destruct c as [| |o| |[]|[|process mode reason|]|[process reason|]|[]|[[]|target_id minimum maximum ttl reason|]| | | |[]|];
    intros Hwf; try reflexivity.
  - change (parse_command (print_command (DoTrace o)))
      with (let? o := parse_trace ["--after"; to_string (to_after_id o); "--limit"; to_string (to_limit o)] in
            Ok (DoTrace o) : res _ text).
    by rewrite parse_trace_print.
  - change (parse_command (print_command (DoWorkload (WorkloadSet process mode reason))))
      with (let? a := (let? process := parse_positive u32_max (to_string process) "PID" in
              workload_options process None "uperfctl workload set" (print_option "--mode" mode ++ ["--reason"; reason])) in
            Ok (DoWorkload a) : res _ text).
    rewrite parse_positive_print by done. simpl. by rewrite workload_options_print.
  - change (parse_command (print_command (DoForeground (ForegroundSet process reason))))
      with (let? a := (let? process := parse_positive u32_max (to_string process) "PID" in
              foreground_options process "uperfctl foreground set" ["--reason"; reason]) in
            Ok (DoForeground a) : res _ text).
    by rewrite parse_positive_print by done.
  - change (parse_command (print_command (DoFrequency (FrequencySet target_id minimum maximum ttl reason))))
      with (let? a := frequency_options target_id minimum maximum None "uperfctl frequency set"
              (print_option "--ttl" ttl ++ ["--reason"; reason]) in
            Ok (DoFrequency a) : res _ text).
    by rewrite frequency_options_print.
Qed.

Lemma parse_line_command json bus timeout c :
  parse_line json bus timeout (print_command c)
  = let? command := parse_command (print_command c) in
    Ok {| cli_json := json; cli_bus := bus; cli_timeout_ms := timeout; cli_command := command |}.
Proof.
  by destruct c as [| |o| |[]|[|process mode reason|]|[process reason|]|[]|[[]|target_id minimum maximum ttl reason|]| | | |[]|].
Qed.

Lemma parse_cli_print c : cli_wf c -> parse_cli (print_cli c) = Ok c.
Proof.
  destruct c as [json bus timeout command]. intros [Ht Hc]. unfold print_cli. simpl in *.
  assert (E : forall json0 bus0, parse_line json0 bus0 DEFAULT_TIMEOUT_MS
                ("--timeout" :: to_string timeout :: print_command command)
              = Ok {| cli_json := json0; cli_bus := bus0; cli_timeout_ms := timeout; cli_command := command |}).
  { intros json0 bus0.
    change (parse_line json0 bus0 DEFAULT_TIMEOUT_MS ("--timeout" :: to_string timeout :: print_command command))
      with (let? timeout_ms := parse_positive u64_max (to_string timeout) "timeout" in
            parse_line json0 bus0 timeout_ms (print_command command)).
    rewrite parse_positive_print by done. simpl. rewrite parse_line_command. by rewrite parse_command_print. }
  unfold parse_cli. destruct json, bus; simpl app; [exact (E true SystemBus)|exact (E true SessionBus)
    |exact (E false SystemBus)|exact (E false SessionBus)].
Qed.

(** ** Parsing keeps to the bounds *)

Lemma digits_value_nonneg l : forall acc v, 0 <= acc -> digits_value acc l = Some v -> 0 <= v.
Proof.
  induction l as [|c l IH]; intros acc v Ha; simpl; [by intros [= <-]|].
  unfold digit_of. destruct (is_ascii_digit c) eqn:Ed; [|done]. simpl. apply IH.
  unfold is_ascii_digit in Ed. lia.
Qed.

Lemma parse_unsigned_bounds maximum s v : parse_unsigned maximum s = Some v -> 0 <= v <= maximum.
Proof.
  unfold parse_unsigned. set (l := match bytes s with [] => [] | c :: l => _ end).
  destruct (parse_digits l) as [z|] eqn:E; [|done]. simpl. destruct (z <=? maximum) eqn:Em; [|done].
  intros [= <-]. unfold parse_digits in E. destruct l as [|c l']; [done|].
  apply (digits_value_nonneg _ 0) in E; lia.
Qed.

Lemma parse_number_bounds maximum s name z : parse_number maximum s name = Ok z -> 0 <= z <= maximum.
Proof.
  unfold parse_number. destruct (parse_unsigned _ _) eqn:E; [|done]. intros [= <-]. by apply parse_unsigned_bounds in E.
Qed.

Lemma parse_positive_bounds maximum s name z : parse_positive maximum s name = Ok z -> 0 < z <= maximum.
Proof.
  unfold parse_positive. intros (n & Hn%parse_number_bounds & H)%res_bind_Ok.
  destruct (Z.eqb_spec n 0); [done|]. injection H as <-. lia.
Qed.

Lemma finish_args_Ok {A} args (a b : A) : finish args a = Ok b -> b = a.
Proof. destruct args; simpl; congruence. Qed.

(** Options come with their values: the loops take two arguments at a time. *)
Lemma list_two_ind {A} (P : list A -> Prop) :
  P [] -> (forall x, P [x]) -> (forall x y l, P l -> P (x :: y :: l)) -> forall l, P l.
Proof.
  intros H0 H1 H2 l. enough (P l /\ forall x, P (x :: l)) by tauto.
  induction l as [|y l [IH IH']]; split; auto.
Qed.

Lemma trace_options_wf args after limit after_seen limit_seen o :
  0 <= after <= u64_max -> 0 <= limit <= MAX_TRACE_PAGE ->
  trace_options after limit after_seen limit_seen args = Ok o -> command_wf (DoTrace o).
Proof.
  revert after limit after_seen limit_seen. induction args as [|option|option value args IH] using list_two_ind;
    intros after limit after_seen limit_seen Ha Hl; cbn [trace_options].
  - by intros [= <-].
  - by repeat case_bool_decide; destruct after_seen, limit_seen.
  - case_bool_decide.
    + destruct after_seen; [done|]. intros (z & Hz%parse_number_bounds & H')%res_bind_Ok. by apply IH in H'.
    + case_bool_decide; [|done]. destruct limit_seen; [done|].
      intros (z & Hz%parse_number_bounds & H')%res_bind_Ok. destruct (MAX_TRACE_PAGE <? z) eqn:E; [done|].
      apply IH in H'; [done..|lia].
Qed.

Lemma workload_options_wf args process mode reason a :
  0 < process <= u32_max -> workload_options process mode reason args = Ok a -> command_wf (DoWorkload a).
Proof.
  revert mode reason. induction args as [|option|option value args IH] using list_two_ind;
    intros mode reason Hp; cbn [workload_options].
  - by intros [= <-].
  - by repeat case_bool_decide.
  - repeat case_bool_decide; [|by apply IH|done]. intros (m & _ & H')%res_bind_Ok. by eapply IH.
Qed.

Lemma foreground_options_wf args process reason a :
  0 < process <= u32_max -> foreground_options process reason args = Ok a -> command_wf (DoForeground a).
Proof.
  revert reason. induction args as [|option|option value args IH] using list_two_ind;
    intros reason Hp; cbn [foreground_options].
  - by intros [= <-].
  - by case_bool_decide.
  - case_bool_decide; [by apply IH|done].
Qed.

Lemma parse_trace_wf args o : parse_trace args = Ok o -> command_wf (DoTrace o).
Proof. apply trace_options_wf; unfold u64_max, MAX_TRACE_PAGE; lia. Qed.

Lemma parse_workload_wf args a : parse_workload args = Ok a -> command_wf (DoWorkload a).
Proof.
  destruct args as [|action args]; cbn [parse_workload]; [by intros [= <-]|].
  repeat case_bool_decide; [by intros ->%finish_args_Ok| |by intros ->%finish_args_Ok|done].
  intros ([v l] & _ & (z & Hz%parse_positive_bounds & H')%res_bind_Ok)%res_bind_Ok. by eapply workload_options_wf.
Qed.

Lemma parse_foreground_wf args a : parse_foreground args = Ok a -> command_wf (DoForeground a).
Proof.
  destruct args as [|action args]; cbn [parse_foreground]; [done|].
  repeat case_bool_decide; [|by intros ->%finish_args_Ok|done].
  intros ([v l] & _ & (z & Hz%parse_positive_bounds & H')%res_bind_Ok)%res_bind_Ok. by eapply foreground_options_wf.
Qed.

Lemma parse_command_wf args c : parse_command args = Ok c -> command_wf c.
Proof.
  destruct args as [|name args]; cbn [parse_command]; [by intros ->%finish_args_Ok|].
  destruct (_ || _).
  all: repeat case_bool_decide; try done; try (by intros ->%finish_args_Ok);
    try (by intros (o & H' & [= <-])%res_bind_Ok; eauto using parse_trace_wf, parse_workload_wf, parse_foreground_wf).
  all: unfold parse_config; intros ([action l] & _ & H')%res_bind_Ok; case_bool_decide; [|done];
    by apply res_bind_Ok in H' as ([path l'] & _ & ->%finish_args_Ok).
Qed.

Lemma parse_line_wf args json bus timeout c :
  0 < timeout <= u64_max -> parse_line json bus timeout args = Ok c -> cli_wf c.
Proof.
  intros Ht.
  enough (H : forall n args json bus timeout, (length args <= n)%nat -> 0 < timeout <= u64_max ->
    parse_line json bus timeout args = Ok c -> cli_wf c) by (by eapply H).
  clear. induction n as [|n IH]; intros [|option rest] json bus timeout Hn Ht; simpl in Hn; try lia; cbn [parse_line].
  1, 2: by intros (command & Hc%parse_command_wf & [= <-])%res_bind_Ok.
  case_bool_decide; [apply IH; [lia|done]|]. case_bool_decide; [apply IH; [lia|done]|].
  case_bool_decide.
  { destruct rest as [|value rest]; [done|]. simpl in Hn.
    repeat case_bool_decide; [apply IH; [lia|done]..|done]. }
  case_bool_decide.
  { destruct rest as [|value rest]; [done|]. simpl in Hn.
    intros (t & Ht'%parse_positive_bounds & H')%res_bind_Ok. by eapply IH; [|exact Ht'|exact H']; lia. }
  destruct (_ || _); [by intros [= <-]|]. destruct (_ || _); [by intros ->%finish_args_Ok|].
  by intros (command & Hc%parse_command_wf & [= <-])%res_bind_Ok.
Qed.


Definition sample_line : list string :=
  ["--timeout"; "+500"; "freq"; "set"; "cpu.policy0"; "1.5GHz"; "3.2ghz"; "--reason"; "--ttl"; "--ttl"; "10m"].


(** * Decimal numbers are read exactly *)

(** ** What a decimal number denotes *)

Definition point : Ascii.ascii := Ascii.ascii_of_nat 46.

Definition digits_of (s : string) : Z := default 0 (digits_value 0 (bytes s)).

(** [number] is [whole] or [whole.fraction], in digits. *)
Record decimal (number whole fraction : string) : Prop := {
  de_number : number = whole /\ fraction = "" \/ number = whole +:+ String point fraction;
  de_whole : whole <> "";
  de_whole_digits : digits (bytes whole);
  de_fraction_digits : digits (bytes fraction);
}.

Lemma all_digits_spec s : all_digits s = true <-> digits (bytes s).
Proof.
  unfold all_digits, digits. rewrite forallb_forall, Forall_forall.
  split; intros H c Hc; apply H; by apply list_elem_of_In.
Qed.

Lemma digits_value_total l : forall acc, digits l -> is_Some (digits_value acc l).
Proof.
  induction l as [|c l IH]; intros acc; simpl; [by eexists|]. intros [Hc Hl]%Forall_cons.
  unfold digit_of. rewrite Hc. simpl. by apply IH.
Qed.

Lemma digits_of_value s : digits (bytes s) -> digits_value 0 (bytes s) = Some (digits_of s) /\ 0 <= digits_of s.
Proof.
  intros Hd. unfold digits_of. destruct (digits_value_total (bytes s) 0 Hd) as [v Hv]. rewrite Hv.
  split; [done|]. by apply digits_value_nonneg in Hv.
Qed.

Lemma parse_u64_digits s :
  s <> "" -> digits (bytes s) -> parse_u64 s = if digits_of s <=? u64_max then Some (digits_of s) else None.
Proof.
  intros Hne Hd. destruct (digits_of_value s Hd) as [Hv _]. unfold parse_u64, parse_unsigned.
  destruct (bytes s) as [|c l] eqn:E; [by destruct s|].
  destruct (digits_head (c :: l) c l Hd eq_refl) as [Hp _]. rewrite (bool_decide_false (c = plus_sign)) by done.
  unfold parse_digits. rewrite Hv. done.
Qed.

Lemma split_once_Some sep s a b : split_once sep s = Some (a, b) -> s = a +:+ String sep b.
Proof.
  revert a b. induction s as [|c s IH]; intros a b; simpl; [done|]. case_bool_decide as Hc.
  - intros [= <- <-]. by rewrite Hc.
  - destruct (split_once sep s) as [[a' b']|]; [|done]. intros [= <- <-].
    change (String c s = String c (a' +:+ String sep b')). by rewrite <- (IH a' b').
Qed.

Lemma str_len_zero s : (str_len s =? 0) = bool_decide (s = "").
Proof. destruct s; [done|]. unfold str_len. rewrite bool_decide_false by done. apply Z.eqb_neq. simpl. lia. Qed.

Lemma decimal_split number whole fraction :
  decimal number whole fraction -> default (number, "") (split_once point number) = (whole, fraction).
Proof.
  intros [Hn _ Hw _]. assert (Hp : point ∉ bytes whole) by (by apply digits_not_elem).
  destruct Hn as [[-> ->]| ->]; [by rewrite split_once_none|by rewrite split_once_app].
Qed.

Lemma split_decimal number whole fraction :
  default (number, "") (split_once point number) = (whole, fraction) ->
  whole <> "" -> all_digits whole = true -> all_digits fraction = true -> decimal number whole fraction.
Proof.
  intros Hs Hw Hdw%all_digits_spec Hdf%all_digits_spec. constructor; [|done..].
  destruct (split_once point number) as [[a b]|] eqn:E; simpl in Hs; injection Hs as -> ->; [right|by left].
  by apply split_once_Some.
Qed.

Lemma starts_with_char a c s : starts_with (String a "") (String c s) = bool_decide (a = c).
Proof.
  unfold starts_with. simpl. destruct (Ascii.ascii_dec a c) as [E|E]; [|by rewrite bool_decide_false].
  rewrite bool_decide_true by done. by destruct s.
Qed.

(** A decimal number starts with a digit. *)
Lemma decimal_start number whole fraction :
  decimal number whole fraction ->
  ((str_len number =? 0) || starts_with "-" number || starts_with "+" number) = false.
Proof.
  intros [Hn Hw Hd _]. destruct whole as [|c whole]; [done|]. rewrite bytes_cons in Hd.
  apply Forall_cons in Hd as [Hc _]. apply digit_not_sign in Hc as [Hp Hm].
  assert (E : exists s, number = String c s) by (destruct Hn as [[-> _]| ->]; by eexists).
  destruct E as [s ->]. rewrite str_len_zero, bool_decide_false by done.
  change "-" with (String minus_sign ""). change "+" with (String plus_sign "").
  by rewrite !starts_with_char, !bool_decide_false by congruence.
Qed.

(** The checked arithmetic on a number [whole + fraction / scale]. *)
Definition scaled (whole fraction scale multiplier : Z) : res Z text :=
  let? numerator := ok_or (v ← checked_mul whole scale; checked_add v fraction) [PText "decimal number is too large"] in
  let? scaled := ok_or (checked_mul numerator multiplier) [PText "scaled number is too large"] in
  if negb (scaled mod scale =? 0) then Err [PText "value does not resolve to a whole base unit"] else Ok (scaled / scale).

Lemma scaled_Ok whole fraction scale multiplier v :
  0 <= whole -> 0 <= fraction -> 0 < scale -> 1 <= multiplier ->
  scaled whole fraction scale multiplier = Ok v
  <-> (whole * scale + fraction) * multiplier <= u64_max /\ (whole * scale + fraction) * multiplier = v * scale.
Proof.
  intros Hw Hf Hs Hm. unfold scaled, checked_mul, checked_add.
  assert (0 <= whole * scale) by nia.
  assert (whole * scale + fraction <= (whole * scale + fraction) * multiplier) by nia.
  destruct (whole * scale <=? u64_max) eqn:E1; simpl; [|split; [done|lia]].
  destruct (whole * scale + fraction <=? u64_max) eqn:E2; simpl; [|split; [done|lia]].
  destruct (_ * multiplier <=? u64_max) eqn:E3; simpl; [|split; [done|lia]].
  set (n := (whole * scale + fraction) * multiplier) in *.
  destruct (Z.eqb_spec (n mod scale) 0) as [Hz|Hz]; simpl.
  - split; [intros [= <-]|intros [_ ->]; by rewrite Z.div_mul by lia].
    split; [lia|]. pose proof (Z.div_mod n scale). lia.
  - split; [done|]. intros [_ E]. destruct Hz. rewrite E. by apply Z.mod_mul; lia.
Qed.

Lemma scaled_parts whole fraction scale multiplier maximum :
  0 <= whole -> 0 <= fraction -> 0 < scale -> 1 <= multiplier ->
  (whole * scale + fraction) * multiplier <= maximum -> whole <= maximum /\ fraction <= maximum.
Proof.
  intros Hw Hf Hs Hm Hb. assert (Hn : whole <= whole * scale) by nia.
  assert (whole * scale + fraction <= (whole * scale + fraction) * multiplier) by nia. lia.
Qed.

Lemma parse_decimal_scaled_Ok number multiplier v :
  1 <= multiplier ->
  parse_decimal_scaled number multiplier = Ok v <->
  exists whole fraction, decimal number whole fraction /\ str_len fraction <= 6 /\
    scaled (digits_of whole) (digits_of fraction) (10 ^ str_len fraction) multiplier = Ok v.
Proof.
  intros Hm. unfold parse_decimal_scaled. fold point. split.
  - destruct (_ || _); [done|]. destruct (default _ _) as [whole fraction] eqn:Es.
    rewrite !str_len_zero. case_bool_decide as Hw; [done|]. simpl.
    destruct (all_digits whole) eqn:Ew; [|done]. destruct (all_digits fraction) eqn:Ef; [|done]. simpl.
    destruct (6 <? str_len fraction) eqn:El; [done|]. intros H.
    assert (Hd : decimal number whole fraction) by (by apply split_decimal).
    exists whole, fraction. split; [done|]. split; [lia|]. destruct Hd as [_ _ Hdw Hdf].
    rewrite parse_u64_digits in H by done.
    destruct (digits_of whole <=? u64_max); [|done]. simpl in H. unfold scaled. case_bool_decide as Hfe.
    + subst fraction. exact H.
    + rewrite parse_u64_digits in H by done. destruct (digits_of fraction <=? u64_max); [exact H|done].
  - intros (whole & fraction & Hd & Hl & H). rewrite (decimal_start _ _ _ Hd), (decimal_split _ _ _ Hd).
    destruct Hd as [_ Hw Hdw Hdf]. rewrite !str_len_zero, (bool_decide_false (whole = "")) by done. simpl.
    rewrite (proj2 (all_digits_spec whole)), (proj2 (all_digits_spec fraction)) by done. simpl.
    rewrite (proj2 (Z.ltb_ge _ _)) by done.
    destruct (digits_of_value whole Hdw) as [_ Hw0]. destruct (digits_of_value fraction Hdf) as [_ Hf0].
    assert (Hs : 0 < 10 ^ str_len fraction) by (apply Z.pow_pos_nonneg; [lia|unfold str_len; lia]).
    pose proof (proj1 (scaled_Ok _ _ _ _ _ Hw0 Hf0 Hs Hm) H) as [Hb _].
    apply scaled_parts in Hb as [Hbw Hbf]; [|done..].
    rewrite parse_u64_digits by done. rewrite (proj2 (Z.leb_le (digits_of whole) _)) by done. simpl.
    case_bool_decide as Hfe.
    + subst fraction. exact H.
    + rewrite parse_u64_digits by done. rewrite (proj2 (Z.leb_le (digits_of fraction) _)) by done. exact H.
Qed.

(** Decimal numbers with a unit are read exactly. A number is accepted if
    and only if it is a run of digits, with at most six more after a point,
    whose value times the multiplier is a whole number and fits, counted in the
    last fractional digit, in 64 bits; and the result is then that product,
    with no rounding. *)
Theorem decimal_exact number multiplier v :
  1 <= multiplier ->
  parse_decimal_scaled number multiplier = Ok v <->
  exists whole fraction, decimal number whole fraction /\ str_len fraction <= 6 /\
    let scale := 10 ^ str_len fraction in
    (digits_of whole * scale + digits_of fraction) * multiplier <= u64_max
    /\ (digits_of whole * scale + digits_of fraction) * multiplier = v * scale.
Proof.
  intros Hm. rewrite parse_decimal_scaled_Ok by done.
  assert (E : forall whole fraction, decimal number whole fraction ->
    scaled (digits_of whole) (digits_of fraction) (10 ^ str_len fraction) multiplier = Ok v
    <-> (digits_of whole * 10 ^ str_len fraction + digits_of fraction) * multiplier <= u64_max
        /\ (digits_of whole * 10 ^ str_len fraction + digits_of fraction) * multiplier = v * 10 ^ str_len fraction).
  { intros whole fraction [_ _ Hw Hf]. apply scaled_Ok; [by apply digits_of_value..| |done].
    apply Z.pow_pos_nonneg; [lia|unfold str_len; lia]. }
  split; intros (whole & fraction & Hd & Hl & H); exists whole, fraction; cbn zeta in *;
    (split; [done|]; split; [done|]); by apply E.
Qed.

Lemma decimal_exact_witness :
  parse_decimal_scaled "1.5" 1000 = Ok 1500
  /\ (exists whole fraction, decimal "1.5" whole fraction /\ str_len fraction <= 6 /\
       let scale := 10 ^ str_len fraction in
       (digits_of whole * scale + digits_of fraction) * 1000 <= u64_max
       /\ (digits_of whole * scale + digits_of fraction) * 1000 = 1500 * scale)
  /\ parse_frequency_hz " 3.2GHz " = Ok 3200000000 /\ parse_duration_ms "1.5m" = Ok 90000
  /\ (exists e, parse_frequency_hz "1.5Hz" = Err e).
Proof.
  assert (H : parse_decimal_scaled "1.5" 1000 = Ok 1500) by (vm_compute; reflexivity).
  split; [exact H|]. split; [exact (proj1 (decimal_exact "1.5" 1000 1500 ltac:(lia)) H)|].
  split; [vm_compute; reflexivity|]. split; [vm_compute; reflexivity|]. eexists. vm_compute. reflexivity.
Defined.

(** * What the tool sends, the daemon accepts *)

Section agreement.
Context `{RegexEngine}.

(** ** Resolved targets are keyed by their identifier *)

Definition keyed (m : gmap string ResolvedTarget) : Prop := forall id t, m !! id = Some t -> rt_id t = id.

Lemma claim_target_keyed {C} (resolve : C -> res (string * ResolvedTarget) text) l acc acc' :
  keyed acc.2 -> res_foldM (claim_target resolve) acc l = Ok acc' -> keyed acc'.2.
Proof.
  intros Ha. apply (res_foldM_inv _ (fun acc => keyed acc.2)); [done|].
  intros [claimed m] c acc1 _ Hm ([discovered t] & _ & [= <-])%res_bind_Ok id t'. simpl.
  rewrite lookup_insert_Some. intros [[<- <-]|[_ ?]]; [done|by apply Hm].
Qed.

Lemma load_keyed device policy apps warnings d cfg :
  DaemonConfig.load device policy apps warnings d = Ok cfg -> keyed (rc_targets cfg).
Proof.
  unfold DaemonConfig.load.
  intros (p & _ & (e & _ & (r & _ & ([targets ws] & Ht & (z & _ & [= <-])%res_bind_Ok)%res_bind_Ok)%res_bind_Ok)%res_bind_Ok)%res_bind_Ok.
  simpl. unfold resolve_targets in Ht.
  apply res_bind_Ok in Ht as (acc & H1 & ([claimed resolved] & H2 & [= <- _])%res_bind_Ok).
  apply claim_target_keyed in H1; [|intros id t; simpl; by rewrite lookup_empty].
  by apply claim_target_keyed in H2.
Qed.

(** ** Overrides within what is advertised *)

Record within (c : Capabilities) (r : FrequencyOverride) (t : TargetCapability) : Prop := {
  wi_target : t ∈ ca_targets c;
  wi_id : tc_id t = fo_target_id r;
  wi_min : tc_minimum_hz t <= fo_min_hz r;
  wi_max : fo_max_hz r <= tc_maximum_hz t;
}.

(** The override the daemon installs for a request. *)
Definition installed (now : MonotonicMillis) (r : FrequencyOverride) : string * TimedOverride :=
  (fo_target_id r,
   {| to_limits := {| lim_min := fo_min_hz r; lim_max := fo_max_hz r |};
      to_expires_at := if fo_ttl_ms r =? 0 then None else Some (saturating_add now (fo_ttl_ms r)) |}).

Lemma parse_override_within cfg now seen r t :
  keyed (rc_targets cfg) -> override_checked r -> within (capabilities cfg) r t -> fo_target_id r ∉ seen ->
  parse_override cfg now seen r = inr (installed now r).
Proof.
  intros Hk [Hid _ Ho _] [Ht Hi Hmin Hmax] Hs. simpl in Ht.
  apply list_elem_of_fmap in Ht as (t0 & -> & (id & Hl)%elem_of_values). simpl in *.
  rewrite (Hk _ _ Hl) in Hi. subst id. unfold parse_override. rewrite Hid, bool_decide_false by done. rewrite Hl.
  unfold FrequencyLimits_new. rewrite (proj2 (Z.leb_le _ _)) by done. simpl.
  by rewrite !(proj2 (Z.ltb_ge _ _)) by done.
Qed.

Lemma parse_overrides_within cfg now l : forall parsed,
  keyed (rc_targets cfg) -> Forall override_checked l ->
  Forall (fun r => exists t, within (capabilities cfg) r t) l ->
  NoDup (parsed.*1 ++ (fo_target_id <$> l)) ->
  parse_overrides cfg now parsed l = inr (parsed ++ (installed now <$> l)).
Proof.
  induction l as [|r l IH]; intros parsed Hk; csimpl; [intros _ _ _; by rewrite app_nil_r|].
  intros [Hc Hl]%Forall_cons [[t Hw] Hws]%Forall_cons Hn.
  rewrite (parse_override_within _ _ _ _ t) by (try done; intros Hin; apply NoDup_app in Hn as (_ & Hn & _);
    apply (Hn _ Hin); left).
  rewrite IH; [by rewrite <- (assoc_L (++))|done..|].
  rewrite fmap_app, <- (assoc_L (++)). done.
Qed.

(** A batch of overrides that passes the client's checks and lies within what
    the daemon advertised is one the daemon accepts. *)
Lemma checked_batch_accepted device policy apps warnings d cfg now l :
  DaemonConfig.load device policy apps warnings d = Ok cfg ->
  validate_frequency_overrides l = inr tt ->
  Forall (fun r => exists t, within (capabilities cfg) r t) l ->
  parse_overrides cfg now [] l = inr (installed now <$> l).
Proof.
  intros Hk%load_keyed (_ & Hc & Hn)%validate_frequency_overrides_Ok Hw.
  by rewrite (parse_overrides_within _ _ _ []).
Qed.

Lemma frequency_request_within c target_id minimum maximum ttl reason r :
  frequency_request c target_id minimum maximum ttl reason = Ok r ->
  fo_target_id r = target_id /\ fo_reason r = reason /\ exists t, within c r t.
Proof.
  unfold frequency_request.
  intros (t & Ht%ok_or_Ok & (u & _ & (lo & _ & (hi & _ & (u' & _ & (u'' & Hb%reject_if_Ok & (ms & _ & [= <-])
    %res_bind_Ok)%res_bind_Ok)%res_bind_Ok)%res_bind_Ok)%res_bind_Ok)%res_bind_Ok)%res_bind_Ok.
  apply find_some in Ht as [Hin%list_elem_of_In Hid%bool_decide_eq_true].
  apply orb_false_iff in Hb as [Hlo Hhi]. split; [done|]. split; [done|]. exists t. constructor; simpl; [done..|lia|lia].
Qed.
End agreement.

(** ** A daemon with two clusters *)

Definition tool_policy (id : string) (cpus : CpuSet) : CpuPolicyConfig :=
  {| cp_id := id; cp_related_cpus := cpus; cp_sysfs_path := None;
     cp_floor_hz := 300; cp_reference_hz := 600; cp_efficient_cap_hz := 900;
     cp_admin_cap_hz := None; cp_critical_cap_hz := Some 600; cp_sensor_failure_cap_hz := Some 500;
     cp_energy_model := Some (ReferenceCurveV1 100 500 900 600 400 300) |}.

Definition tool_device : DeviceConfig :=
  {| dev_schema_version := 2; dev_device_id := "board"; dev_device_match := None;
     dev_cpu_groups := {[ "rt" := list_to_set [2; 3] ]};
     dev_cpu_policies := [tool_policy "cpu.little" (list_to_set [0; 1]); tool_policy "cpu.big" (list_to_set [2; 3])];
     dev_devfreq_targets := []; dev_scalar_targets := dev_scalar_targets wit_device;
     dev_thermal_zones := [wit_zone] |}.

Definition tool_capability (id : string) (cpus : CpuSet) : CpuPolicyCapability :=
  {| cpc_id := id; cpc_policy_name := id; cpc_cpus := cpus; cpc_limits := {| lim_min := 300; lim_max := 900 |};
     cpc_available_frequencies := [300; 500; 600; 900]; cpc_governor := None |}.

Definition tool_paths (id directory : string) : FrequencyTargetPaths :=
  {| ftp_id := id; ftp_minimum := directory +:+ "/scaling_min_freq"; ftp_maximum := directory +:+ "/scaling_max_freq";
     ftp_current := directory +:+ "/scaling_cur_freq"; ftp_hertz_per_unit := 1 |}.

Definition tool_discovery : LinuxDiscovery :=
  {| ld_capabilities :=
       {| dc_device_name := None; dc_compatible := [];
          dc_cpu_policies := [tool_capability "policy0" (list_to_set [0; 1]); tool_capability "policy2" (list_to_set [2; 3])];
          dc_devfreq_targets := [];
          dc_thermal_zones := [{| tzc_id := "zone0"; tzc_zone_type := "soc-thermal"; tzc_current := None |}];
          dc_input_devices := [] |};
     ld_frequency_targets := {[ "policy0" := tool_paths "policy0" "/sys/devices/system/cpu/cpufreq/policy0";
                                "policy2" := tool_paths "policy2" "/sys/devices/system/cpu/cpufreq/policy2" ]};
     ld_thermal_zone_paths := {[ "zone0" := "/sys/class/thermal/thermal_zone0" ]}; ld_warnings := [] |}.

Definition tool_load : res ResolvedConfiguration text :=
  DaemonConfig.load tool_device wit_policy_config {| apps_schema_version := 2; apps_rules := [] |} [] tool_discovery.

Definition tool_window : FrequencyOverride :=
  {| fo_target_id := "cpu.big"; fo_min_hz := 300; fo_max_hz := 900; fo_ttl_ms := 600000; fo_reason := "test" |}.
