(* ===== verification/ConfigWatch.v ===== *)
(** * Configuration watching ([uperf-daemon/src/config_watch.rs])

    The directories of the configuration documents are watched with inotify; a
    change of one of the documents starts a quiet period of 250 milliseconds,
    extended by every further change, and its end starts a reload. The watcher
    is a state machine over the kernel's queue of events, the clock and the
    shutdown channel, whose branches the scheduler may pick in any order. No
    change is lost, and no reload starts without one. *)

From S2P Require Import Prelude Float64 Domain Text Strings ConfigTypes ActuatorTypes DaemonTypes Touch Evdev DaemonConfig.

Definition RELOAD_DEBOUNCE : Z := 250.

(** ** Registration *)

(** [WatchFlags] and [ReadFlags]: the masks of [inotify(7)] *)
Definition IN_CLOSE_WRITE : Z := 0x8.
Definition IN_MOVED_FROM : Z := 0x40.
Definition IN_MOVED_TO : Z := 0x80.
Definition IN_CREATE : Z := 0x100.
Definition IN_DELETE : Z := 0x200.
Definition IN_DELETE_SELF : Z := 0x400.
Definition IN_MOVE_SELF : Z := 0x800.
Definition IN_UNMOUNT : Z := 0x2000.
Definition IN_Q_OVERFLOW : Z := 0x4000.
Definition IN_IGNORED : Z := 0x8000.
Definition IN_ONLYDIR : Z := 0x1000000.

Definition union_flags (l : list Z) : Z := foldr Z.lor 0 l.
(** [contains] and [intersects] of a set of flags *)
Definition flags_contain (mask flags : Z) : bool := Z.land mask flags =? flags.
Definition intersects (mask flags : Z) : bool := negb (Z.land mask flags =? 0).

Definition watch_flags : Z :=
  union_flags [IN_CLOSE_WRITE; IN_CREATE; IN_DELETE; IN_MOVED_FROM; IN_MOVED_TO; IN_DELETE_SELF; IN_MOVE_SELF;
               IN_ONLYDIR].

(** [Ord] of [Component] and of [Path]: by component. *)
Definition component_rank (c : Component) : Z :=
  match c with RootDir => 0 | CurDir => 1 | ParentDir => 2 | Text.Normal _ => 3 end.

Definition component_compare (a b : Component) : comparison :=
  match a, b with
  | Text.Normal s, Text.Normal t => String.compare s t
  | _, _ => component_rank a ?= component_rank b
  end.

Fixpoint path_compare (a b : list Component) : comparison :=
  match a, b with
  | [], [] => Eq
  | [], _ => Lt
  | _, [] => Gt
  | x :: a, y :: b => match component_compare x y with Eq => path_compare a b | c => c end
  end.

(** [targets_by_parent.entry(parent).or_default().insert(name)], in the order
    of the map. *)
Fixpoint add_target (parent : list Component) (name : string) (l : list (list Component * gset string))
  : list (list Component * gset string) :=
  match l with
  | [] => [(parent, {[ name ]})]
  | (p, names) :: rest =>
      match path_compare parent p with
      | Eq => (p, {[ name ]} ∪ names) :: rest
      | Lt => (parent, {[ name ]}) :: l
      | Gt => (p, names) :: add_target parent name rest
      end
  end.

Notation watched_names := (gmap Z (gset string)).

Class Inotify (W : Type) := {
  inotify_init : W -> (IoError + unit) * W;
  inotify_add_watch : list Component -> Z -> W -> (IoError + Z) * W;
  (** [AsyncFd::new] *)
  register_descriptor : W -> (IoError + unit) * W;
}.

Section registration.
Context {W : Type} `{!Inotify W}.

Definition IW (A : Type) : Type := W -> (text + A) * W.

Definition with_context {A} (context : text) (r : (IoError + A) * W) : (text + A) * W :=
  (match r.1 with inl e => inl (context ++ [PText ": "; PText (io_message e)]) | inr a => inr a end, r.2).

Definition collect_targets (paths : list string) : res (list (list Component * gset string)) text :=
  res_foldM (fun targets path =>
    let? directory :=
      ok_or (match parent path with Some [] => None | directory => directory end)
        [PText "configuration path "; PText path; PText " has no parent"] in
    let? name :=
      ok_or (file_name (components path)) [PText "configuration path "; PText path; PText " has no filename"] in
    Ok (add_target directory name targets)) [] paths.

Fixpoint add_watches (targets : list (list Component * gset string)) (names : watched_names) : IW watched_names :=
  fun w =>
  match targets with
  | [] => (inr names, w)
  | (directory, files) :: rest =>
      match with_context [PText "watch configuration directory"] (inotify_add_watch directory watch_flags w) with
      | (inl e, w) => (inl e, w)
      | (inr wd, w) => add_watches rest (<[wd := default ∅ (names !! wd) ∪ files]> names) w
      end
  end.

(** [ConfigWatcher::for_paths] *)
Definition for_paths (paths : list string) : IW watched_names := fun w =>
  match with_context [PText "initialize configuration inotify descriptor"] (inotify_init w) with
  | (inl e, w) => (inl e, w)
  | (inr _, w) =>
      match collect_targets paths with
      | Err e => (inl e, w)
      | Panic => (inl [], w)
      | Ok targets =>
          match add_watches targets ∅ w with
          | (inl e, w) => (inl e, w)
          | (inr names, w) =>
              match with_context [PText "register configuration inotify fd"] (register_descriptor w) with
              | (inl e, w) => (inl e, w)
              | (inr _, w) => (inr names, w)
              end
          end
      end
  end.
End registration.

(** [ConfigurationPaths]; [ConfigWatcher::new] *)
Record ConfigurationPaths := {
  cfp_device_override : string;
  cfp_policy : string;
  cfp_apps : string;
}.
Definition ConfigWatcher_new `{Inotify W} (paths : ConfigurationPaths) : W -> (text + watched_names) * W :=
  for_paths [cfp_device_override paths; cfp_policy paths; cfp_apps paths].

(** ** Draining the queue *)

Record WatchEvent := { we_wd : Z; we_events : Z; we_file_name : option string }.

Inductive WatchError := WatchRemoved | DirectoryReplaced | ReadFailed (e : IoError) | WaitFailed (e : IoError).

(** What one event means: the watch is gone, or whether a document changed. *)
Definition watch_event (names : watched_names) (event : WatchEvent) : WatchError + bool :=
  let events := we_events event in
  if flags_contain events IN_Q_OVERFLOW then inr true
  else if intersects events (Z.lor IN_IGNORED IN_UNMOUNT) then inl WatchRemoved
  else
    match names !! we_wd event with
    | None => inr false
    | Some watched =>
        match we_file_name event with
        | None => if intersects events (Z.lor IN_DELETE_SELF IN_MOVE_SELF) then inl DirectoryReplaced else inr false
        | Some file_name => inr (bool_decide (file_name ∈ watched))
        end
    end.

(** [drain_events]: the queue is read until [EAGAIN], or until another error. *)
Fixpoint drain_events (names : watched_names) (queue : list WatchEvent) (failure : option IoError) (relevant : bool)
  : WatchError + bool :=
  match queue with
  | [] => match failure with None => inr relevant | Some e => inl (ReadFailed e) end
  | event :: rest =>
      match watch_event names event with
      | inl e => inl e
      | inr changed => drain_events names rest failure (relevant || changed)
      end
  end.

(** ** The watcher *)

(** The receiving half of the shutdown channel: the latest value, whether it
    was sent since the last look, and whether the sender is gone. *)
Record Receiver := { rx_value : bool; rx_unseen : bool; rx_closed : bool }.

(** [changed()] when it is ready: an unseen value is reported before a closed
    channel; and whether the watcher has to stop. *)
Definition receiver_changed (rx : Receiver) : option (bool * Receiver) :=
  if rx_unseen rx then Some (rx_value rx, {| rx_value := rx_value rx; rx_unseen := false; rx_closed := rx_closed rx |})
  else if rx_closed rx then Some (true, rx)
  else None.

Inductive WatchPhase :=
| Watching | Debouncing (deadline : Z) | Reloading | Stopped | Broken (e : WatchError).

Record Watch := {
  wt_phase : WatchPhase;
  wt_queue : list WatchEvent;
  wt_now : Z;
  wt_shutdown : Receiver;
}.

(** What the kernel, the clock and the sender do, and the branches of the two
    [select!]s and the end of the reload. *)
Inductive WatchInput :=
| Arrives (event : WatchEvent) | Elapses (ms : Z) | ShutdownSent (value : bool) | SenderDropped
| Readable (failure : option IoError) | ReadinessFailed (e : IoError)
| QuietElapsed | ShutdownBranch | ReloadReturned.

Inductive WatchOutput := ChangeSeen (at_ : Z) | ReloadBegan (at_ : Z).

Definition set_phase (p : WatchPhase) (s : Watch) : Watch :=
  {| wt_phase := p; wt_queue := wt_queue s; wt_now := wt_now s; wt_shutdown := wt_shutdown s |}.
Definition set_queue (q : list WatchEvent) (s : Watch) : Watch :=
  {| wt_phase := wt_phase s; wt_queue := q; wt_now := wt_now s; wt_shutdown := wt_shutdown s |}.
Definition set_receiver (rx : Receiver) (s : Watch) : Watch :=
  {| wt_phase := wt_phase s; wt_queue := wt_queue s; wt_now := wt_now s; wt_shutdown := rx |}.

Definition waits (p : WatchPhase) : bool := match p with Watching | Debouncing _ => true | _ => false end.

(** [run_with_reload], before its loop *)
Definition watch_start (queue : list WatchEvent) (now : Z) (shutdown : Receiver) : Watch :=
  {| wt_phase := if rx_value shutdown then Stopped else Watching; wt_queue := queue; wt_now := now;
     wt_shutdown := shutdown |}.

(** [wait_for_change] awakes with the descriptor readable: the queue is drained;
    a change ends the wait, which starts the quiet period or starts it again. *)
Definition handle_readable (names : watched_names) (failure : option IoError) (s : Watch) : list WatchOutput * Watch :=
  let drained := set_queue [] s in
  match drain_events names (wt_queue s) failure false with
  | inl e => ([], set_phase (Broken e) drained)
  | inr true => ([ChangeSeen (wt_now s)], set_phase (Debouncing (wt_now s + RELOAD_DEBOUNCE)) drained)
  | inr false => ([], drained)
  end.

Definition watch_step (names : watched_names) (i : WatchInput) (s : Watch) : option (list WatchOutput * Watch) :=
  match i with
  | Arrives event => Some ([], set_queue (wt_queue s ++ [event]) s)
  | Elapses ms =>
      if ms <? 0 then None
      else Some ([], {| wt_phase := wt_phase s; wt_queue := wt_queue s; wt_now := wt_now s + ms;
                        wt_shutdown := wt_shutdown s |})
  | ShutdownSent value =>
      if rx_closed (wt_shutdown s) then None
      else Some ([], set_receiver {| rx_value := value; rx_unseen := true; rx_closed := false |} s)
  | SenderDropped =>
      Some ([], set_receiver {| rx_value := rx_value (wt_shutdown s); rx_unseen := rx_unseen (wt_shutdown s);
                                rx_closed := true |} s)
  | Readable failure => if waits (wt_phase s) then Some (handle_readable names failure s) else None
  | ReadinessFailed e => if waits (wt_phase s) then Some ([], set_phase (Broken (WaitFailed e)) s) else None
  | QuietElapsed =>
      match wt_phase s with
      | Debouncing deadline =>
          if deadline <=? wt_now s then Some ([ReloadBegan (wt_now s)], set_phase Reloading s) else None
      | _ => None
      end
  | ShutdownBranch =>
      if waits (wt_phase s) then
        '(stop, rx) ← receiver_changed (wt_shutdown s);
        Some ([], set_receiver rx (if stop : bool then set_phase Stopped s else s))
      else None
  | ReloadReturned => match wt_phase s with Reloading => Some ([], set_phase Watching s) | _ => None end
  end.

Fixpoint watch_run (names : watched_names) (l : list WatchInput) (s : Watch) : option (list WatchOutput * Watch) :=
  match l with
  | [] => Some ([], s)
  | i :: l =>
      '(out, s) ← watch_step names i s;
      '(outs, s) ← watch_run names l s;
      Some (out ++ outs, s)
  end.

(** ** What a drain reports *)

(** The event says that a document changed, or that changes may have been
    lost. *)
Definition relevant (names : watched_names) (event : WatchEvent) : bool :=
  match watch_event names event with inr changed => changed | inl _ => false end.

Lemma drain_events_Ok names queue failure b r :
  drain_events names queue failure b = inr r -> r = b || existsb (relevant names) queue.
Proof.
  revert b. induction queue as [|event queue IH]; intros b; simpl.
  - destruct failure; [done|]. intros [= <-]. by rewrite orb_false_r.
  - unfold relevant at 1. destruct (watch_event names event) as [e|changed]; [done|].
    intros ->%IH. by rewrite orb_assoc.
Qed.

Lemma drained_change names queue failure r event :
  drain_events names queue failure false = inr r -> event ∈ queue -> relevant names event = true -> r = true.
Proof.
  intros ->%drain_events_Ok Hin He. simpl. apply existsb_exists. exists event. by rewrite <-list_elem_of_In.
Qed.

Lemma drain_without_change names queue failure :
  existsb (relevant names) queue = false -> drain_events names queue failure false <> inr true.
Proof. intros Hq Hr%drain_events_Ok. simpl in Hr. congruence. Qed.

(** ** Runs *)

(** Every reload directly follows a change seen at least a debounce earlier. *)
Definition debounced (outs : list WatchOutput) : Prop :=
  forall before at_ after, outs = before ++ ReloadBegan at_ :: after ->
  exists earlier seen, before = earlier ++ [ChangeSeen seen] /\ seen + RELOAD_DEBOUNCE <= at_.

Definition watch_inv (outs : list WatchOutput) (s : Watch) : Prop :=
  debounced outs
  /\ forall deadline, wt_phase s = Debouncing deadline ->
     exists earlier seen, outs = earlier ++ [ChangeSeen seen] /\ deadline = seen + RELOAD_DEBOUNCE.

Lemma debounced_change outs at_ : debounced outs -> debounced (outs ++ [ChangeSeen at_]).
Proof.
  intros Hd before t after He.
  destruct after as [|x after _] using rev_ind.
  - apply app_inj_tail in He as [_ [=]].
  - rewrite app_comm_cons, app_assoc in He. apply app_inj_tail in He as [He _]. eauto.
Qed.

Lemma debounced_reload outs deadline at_ :
  debounced outs -> (exists earlier seen, outs = earlier ++ [ChangeSeen seen] /\ deadline = seen + RELOAD_DEBOUNCE) ->
  deadline <= at_ -> debounced (outs ++ [ReloadBegan at_]).
Proof.
  intros Hd (earlier & seen & -> & ->) Hle before t after He.
  destruct after as [|x after _] using rev_ind.
  - apply app_inj_tail in He as [<- [= <-]]. eauto.
  - rewrite app_comm_cons, app_assoc in He. apply app_inj_tail in He as [He _]. eauto.
Qed.

Lemma watch_step_inv names i s outs out s' :
  watch_inv outs s -> watch_step names i s = Some (out, s') -> watch_inv (outs ++ out) s'.
Proof.
  intros [Hd Hp] Hs.
  assert (Hquiet : forall s1, (forall dl, wt_phase s1 = Debouncing dl -> wt_phase s = Debouncing dl) ->
                              watch_inv (outs ++ []) s1) by (intros s1 H1; rewrite app_nil_r; split; eauto).
  destruct i; simpl in Hs.
  - injection Hs as <- <-. by apply Hquiet.
  - destruct (ms <? 0); [done|]. injection Hs as <- <-. by apply Hquiet.
  - destruct (rx_closed _); [done|]. injection Hs as <- <-. by apply Hquiet.
  - injection Hs as <- <-. by apply Hquiet.
  - destruct (waits _); [|done]. injection Hs as Hs. unfold handle_readable in Hs.
    destruct (drain_events _ _ _ _) as [e|[]]; injection Hs as <- <-; [by apply Hquiet| |by apply Hquiet].
    split; [by apply debounced_change|]. intros dl [= <-]. eauto.
  - destruct (waits _); [|done]. injection Hs as <- <-. by apply Hquiet.
  - destruct (wt_phase s) eqn:Hphase; try done. destruct (Z.leb_spec deadline (wt_now s)); [|done].
    injection Hs as <- <-. split; [|done]. eapply debounced_reload; eauto.
  - destruct (waits _); [|done]. destruct (receiver_changed _) as [[stop rx]|]; [|done]. injection Hs as <- <-.
    apply Hquiet. by destruct stop.
  - destruct (wt_phase s); try done. injection Hs as <- <-. by apply Hquiet.
Qed.

Lemma watch_run_inv names l s outs out s' :
  watch_inv outs s -> watch_run names l s = Some (out, s') -> watch_inv (outs ++ out) s'.
Proof.
  revert s outs out. induction l as [|i l IH]; intros s outs out Hi; simpl.
  - intros [= <- <-]. by rewrite app_nil_r.
  - intros ([o1 s1] & H1 & ([o2 s2] & H2 & [= <- <-])%bind_Some)%bind_Some.
    rewrite app_assoc. eapply IH; [|done]. by eapply watch_step_inv.
Qed.

Lemma watch_run_app names l1 l2 s outs s' :
  watch_run names (l1 ++ l2) s = Some (outs, s') <->
  exists o1 s1 o2, watch_run names l1 s = Some (o1, s1) /\ watch_run names l2 s1 = Some (o2, s') /\ outs = o1 ++ o2.
Proof.
  revert s outs s'. induction l1 as [|i l1 IH]; intros s outs s'; simpl.
  - split; [intros H; by exists [], s, outs | by intros (? & ? & ? & [= <- <-] & ? & ->)].
  - split.
    + intros ([o0 s0] & H0 & ([o s2] & (o1 & s1 & o2 & H1 & H2 & ->)%IH & [= <- <-])%bind_Some)%bind_Some.
      exists (o0 ++ o1), s1, o2. rewrite H0. simpl. rewrite H1, app_assoc. done.
    + intros (? & s1 & o2 & ([o0 s0] & H0 & ([o1 s2] & H1 & [= <- <-])%bind_Some)%bind_Some & H2 & ->).
      rewrite H0. simpl. rewrite (proj2 (IH s0 (o1 ++ o2) s') (ex_intro _ o1 (ex_intro _ s2 (ex_intro _ o2 (conj H1 (conj H2 eq_refl)))))).
      simpl. by rewrite app_assoc.
Qed.

(** A change is under way: it waits in the queue, its quiet period runs, or the
    watcher has ended. *)
Definition under_way (event : WatchEvent) (s : Watch) : Prop :=
  event ∈ wt_queue s
  \/ match wt_phase s with Debouncing _ | Stopped | Broken _ => True | Watching | Reloading => False end.

Definition is_reload (o : WatchOutput) : bool := match o with ReloadBegan _ => true | ChangeSeen _ => false end.

Lemma watch_step_under_way names i s event out s' :
  relevant names event = true -> under_way event s -> watch_step names i s = Some (out, s') ->
  existsb is_reload out = true \/ under_way event s'.
Proof.
  intros He Hu Hs. unfold under_way in *.
  destruct i; simpl in Hs.
  - injection Hs as <- <-. right. simpl. rewrite elem_of_app. tauto.
  - destruct (ms <? 0); [done|]. injection Hs as <- <-. by right.
  - destruct (rx_closed _); [done|]. injection Hs as <- <-. by right.
  - injection Hs as <- <-. by right.
  - destruct (waits _) eqn:Hw; [|done]. injection Hs as Hs. unfold handle_readable in Hs.
    destruct (drain_events _ _ _ _) as [e|[]] eqn:Hdr; injection Hs as <- <-; simpl; [by right; right..|].
    destruct Hu as [Hin|Hphase]; [by pose proof (drained_change _ _ _ _ _ Hdr Hin He)|].
    right. right. by destruct (wt_phase s).
  - destruct (waits _); [|done]. injection Hs as <- <-. right. by right.
  - destruct (wt_phase s); try done. destruct (_ <=? _); [|done]. injection Hs as <- <-. by left.
  - destruct (waits _); [|done]. destruct (receiver_changed _) as [[[] rx]|]; [|by injection Hs as <- <-; right|done].
    injection Hs as <- <-. right. by right.
  - destruct (wt_phase s); try done. injection Hs as <- <-. right. destruct Hu as [Hin|[]]. by left.
Qed.

Lemma watch_run_under_way names l s event outs s' :
  relevant names event = true -> under_way event s -> watch_run names l s = Some (outs, s') ->
  existsb is_reload outs = true \/ under_way event s'.
Proof.
  intros He. revert s outs. induction l as [|i l IH]; intros s outs Hu; simpl; [intros [= <- <-]; by right|].
  intros ([o1 s1] & H1 & ([o2 s2] & H2 & [= <- <-])%bind_Some)%bind_Some. rewrite existsb_app.
  destruct (watch_step_under_way _ _ _ _ _ _ He Hu H1) as [->|Hu1]; [by left|].
  destruct (IH s1 o2 Hu1 H2) as [->|]; [left; apply orb_true_r|by right].
Qed.

(** C24: No configuration change is lost and no reload happens without one, in
    every order in which the kernel, the clock, the shutdown channel and the
    scheduler act. A change of a watched document, or a lost event, that
    arrives at any point of a run is followed by a reload that began after it,
    unless it still waits in the queue, its quiet period still runs, or the
    watcher has ended; and every reload directly follows a change seen at least
    250 milliseconds before, so a burst of changes causes one reload. *)
Theorem config_changes_reload names queue now shutdown before event after outs s :
  relevant names event = true ->
  watch_run names (before ++ Arrives event :: after) (watch_start queue now shutdown) = Some (outs, s) ->
  debounced outs
  /\ exists outs1 outs2 s1,
      watch_run names before (watch_start queue now shutdown) = Some (outs1, s1) /\ outs = outs1 ++ outs2
      /\ (existsb is_reload outs2 = true \/ under_way event s).
Proof.
  intros He Hr.
  assert (Hi : watch_inv [] (watch_start queue now shutdown)).
  { split; [by intros [] ? ? ?|]. intros dl. simpl. by destruct (rx_value shutdown). }
  split; [exact (proj1 (watch_run_inv _ _ _ _ _ _ Hi Hr))|].
  apply watch_run_app in Hr as (o1 & s1 & o2 & H1 & H2 & ->). exists o1, o2, s1. split; [done|]. split; [done|].
  simpl in H2. apply bind_Some in H2 as ([o s2] & H2 & [= <- <-]). simpl.
  eapply watch_run_under_way; [done| |done]. left. simpl. apply elem_of_app. right. by constructor.
Qed.

(** ** A directory with two documents *)

Definition watch_names : watched_names := {[ 1 := {[ "policy.toml"; "apps.toml" ]} ]}.

(** An editor that writes a temporary file and renames it over the document. *)
Definition saved (file_name : string) : WatchEvent :=
  {| we_wd := 1; we_events := IN_MOVED_TO; we_file_name := Some file_name |}.

Definition open_channel : Receiver := {| rx_value := false; rx_unseen := false; rx_closed := false |}.

Definition watch_session : list WatchInput :=
  [Arrives (saved "policy.toml.swp"); Readable None; Arrives (saved "policy.toml"); Readable None; Elapses 200].
Definition watch_rest : list WatchInput :=
  [Readable None; Elapses 250; QuietElapsed; Arrives (saved "policy.toml"); ReloadReturned; Readable None;
   Elapses 300; QuietElapsed; ReloadReturned; ShutdownSent true; ShutdownBranch].

Lemma config_changes_reload_witness :
  exists outs s,
    watch_run watch_names (watch_session ++ Arrives (saved "apps.toml") :: watch_rest)
      (watch_start [] 1000 open_channel) = Some (outs, s)
    /\ outs = [ChangeSeen 1000; ChangeSeen 1200; ReloadBegan 1450; ChangeSeen 1450; ReloadBegan 1750]
    /\ wt_phase s = Stopped /\ debounced outs.
Proof.
  eexists _, _. split; [vm_compute; reflexivity|]. split; [reflexivity|]. split; [reflexivity|].
  refine (proj1 (config_changes_reload watch_names [] 1000 open_channel watch_session (saved "apps.toml") watch_rest
                   _ _ _ _)); vm_compute; reflexivity.
Defined.

(** The documents of one directory share a watch. *)
Definition recorded_watches : Inotify (list (list Component)) := {|
  inotify_init := fun w => (inr tt, w);
  inotify_add_watch := fun p _ w => (inr (Z.of_nat (length w) + 1), w ++ [p]);
  register_descriptor := fun w => (inr tt, w);
|}.

Example watches_parents :
  @ConfigWatcher_new _ recorded_watches
    {| cfp_device_override := "/etc/uperf/device.toml"; cfp_policy := "/etc/uperf/policy.toml";
       cfp_apps := "/etc/apps.toml" |} []
  = (inr {[ 1 := {[ "apps.toml" ]}; 2 := {[ "device.toml"; "policy.toml" ]} ]},
     [[RootDir; Text.Normal "etc"]; [RootDir; Text.Normal "etc"; Text.Normal "uperf"]]).
Proof. vm_compute. reflexivity. Qed.
