(* ===== verification/Controllers.v ===== *)
(** * Competing power controllers ([uperf-daemon/src/conflicts.rs])

    The daemon looks for other programs that set frequency limits: among the
    command lines of the running processes, and among the units enabled under
    [/etc/systemd/system], whose tree is searched within bounds on its depth
    and on the number of entries. On a system that does not change during the
    scan, a controller is reported exactly when it runs or is enabled. *)

From S2P Require Import Prelude Float64 Domain Text Strings ConfigTypes ActuatorTypes DaemonTypes Touch Evdev LinuxScheduler Systemd Procfs Sysfs DaemonConfig Discovery.

Definition MAX_CMDLINE_BYTES : Z := 64 * 1024.
Definition MAX_SYSTEMD_ENTRIES : Z := 4096.
Definition MAX_SYSTEMD_DEPTH : nat := 6.

Record Controller := { co_id : string; co_executables : list string; co_units : list string }.

Definition CONTROLLERS : list Controller := [
  {| co_id := "power-profiles-daemon"; co_executables := ["power-profiles-daemon"];
     co_units := ["power-profiles-daemon.service"] |};
  {| co_id := "tuned"; co_executables := ["tuned"]; co_units := ["tuned.service"] |};
  {| co_id := "TLP"; co_executables := ["tlp"]; co_units := ["tlp.service"; "tlp-sleep.service"] |};
  {| co_id := "auto-cpufreq"; co_executables := ["auto-cpufreq"]; co_units := ["auto-cpufreq.service"] |};
  {| co_id := "system76-power"; co_executables := ["system76-power"; "com.system76.PowerDaemon"];
     co_units := ["com.system76.PowerDaemon.service"; "system76-power.service"] |}].

Definition mentioned (name : string) (l : list string) : bool := bool_decide (name ∈ l).
Definition controller_executable (name : string) : bool :=
  existsb (fun c => mentioned name (co_executables c)) CONTROLLERS.
Definition controller_unit (name : string) : bool := existsb (fun c => mentioned name (co_units c)) CONTROLLERS.

(** A directory entry: its name as bytes, and whether it is a directory. *)
Record FsEntry := { fe_name : list Ascii.ascii; fe_is_dir : IoError + bool }.

Class ControllerFs (W : Type) := {
  scan_dir : string -> W -> (IoError + list (IoError + FsEntry)) * W;
  (** [File::open], and at most so many bytes read *)
  read_at_most : Z -> string -> W -> (IoError + list Ascii.ascii) * W;
}.

Definition entry_path (directory : string) (e : FsEntry) : string := join_path directory (of_bytes (fe_name e)).

(** [Path::new(OsStr::from_bytes(argument)).file_name().and_then(OsStr::to_str)] *)
Definition path_name (path : list Ascii.ascii) : option string :=
  name ← file_name (components (of_bytes path)); from_utf8 (bytes name).

(** The names that the first three arguments of a command line have. *)
Definition command_names (cmdline : list Ascii.ascii) : list string :=
  omap path_name (take 3 (List.filter (fun argument => negb (bool_decide (argument = []))) (split_bytes nul cmdline))).

Definition entry_pid (e : FsEntry) : option Z := name ← from_utf8 (fe_name e); parse_u32 name.

(** [rsplit_once('.')] of the name of a directory: its suffix *)
Definition dependency_directory (directory : string) : bool :=
  is_some_and (path_name (bytes directory)) (fun name =>
    is_some_and (rposition (Ascii.ascii_of_nat 46) (bytes name)) (fun dot =>
      mentioned (of_bytes (drop (S dot) (bytes name))) ["wants"; "requires"])).

Section scan.
Context {W : Type} `{!ControllerFs W}.

Definition CT (A : Type) : Type := W -> (text + A) * W.
#[global] Instance CT_ret : MRet CT := fun A a w => (inr a, w).
#[global] Instance CT_bind : MBind CT := fun A B k m w =>
  let '(r, w) := m w in match r with inl e => (inl e, w) | inr a => k a w end.
Definition CT_fail {A} (message : text) : CT A := fun w => (inl message, w).

Notation processes := (gmap string (gset Z)).

Definition add_process (pid : Z) (running : processes) (name : string) : processes :=
  if controller_executable name then <[name := {[ pid ]} ∪ default ∅ (running !! name)]> running else running.

(** One entry of [/proc]; entries that cannot be read are skipped. *)
Definition scan_process (proc_root : string) (entry : IoError + FsEntry) (running : processes) : CT processes := fun w =>
  match entry with
  | inl _ => (inr running, w)
  | inr e =>
      match entry_pid e with
      | None => (inr running, w)
      | Some pid =>
          let '(r, w) := read_at_most MAX_CMDLINE_BYTES (join_path (entry_path proc_root e) "cmdline") w in
          match r with
          | inl _ => (inr running, w)
          | inr cmdline => (inr (fold_left (add_process pid) (command_names cmdline) running), w)
          end
      end
  end.

Fixpoint scan_proc_entries (proc_root : string) (entries : list (IoError + FsEntry)) (running : processes) : CT processes :=
  match entries with
  | [] => mret running
  | entry :: entries => running ← scan_process proc_root entry running; scan_proc_entries proc_root entries running
  end.

Definition enumerate_failed (directory : string) (e : IoError) : text :=
  [PText "enumerate "; PText directory; PText ": "; PText (io_message e)].

Definition running_executables (proc_root : string) : CT processes := fun w =>
  let '(r, w) := scan_dir proc_root w in
  match r with
  | inl e => (inl (enumerate_failed proc_root e), w)
  | inr entries => scan_proc_entries proc_root entries ∅ w
  end.

(** The entries of one directory; [recurse] handles a directory below it. *)
Fixpoint visit_entries (recurse : string -> Z -> gset string -> CT (Z * gset string)) (directory : string)
    (entries : list (IoError + FsEntry)) (visited : Z) (found : gset string) : CT (Z * gset string) :=
  match entries with
  | [] => mret (visited, found)
  | inl e :: _ => CT_fail (enumerate_failed directory e)
  | inr entry :: entries =>
      let visited := visited + 1 in
      if MAX_SYSTEMD_ENTRIES <? visited then
        CT_fail [PText "systemd enablement tree exceeds "; PNum MAX_SYSTEMD_ENTRIES; PText " entries below ";
                 PText directory]
      else
        match fe_is_dir entry with
        | inl e => CT_fail [PText "inspect "; PText (entry_path directory entry); PText ": "; PText (io_message e)]
        | inr true =>
            '(visited, found) ← recurse (entry_path directory entry) visited found;
            visit_entries recurse directory entries visited found
        | inr false =>
            let found :=
              match from_utf8 (fe_name entry) with
              | Some name =>
                  if dependency_directory directory && controller_unit name then {[ name ]} ∪ found else found
              | None => found
              end in
            visit_entries recurse directory entries visited found
        end
  end.

(** [collect_enabled_units]; [levels] is how many levels may still be entered,
    [MAX_SYSTEMD_DEPTH + 1 - depth]. *)
Fixpoint collect_enabled_units (levels : nat) (directory : string) (visited : Z) (found : gset string)
  : CT (Z * gset string) := fun w =>
  let '(r, w) := scan_dir directory w in
  match r with
  | inl e =>
      if bool_decide (io_kind e = NotFound) then (inr (visited, found), w)
      else (inl (enumerate_failed directory e), w)
  | inr entries =>
      match levels with
      | O => CT_fail [PText "systemd enablement tree exceeds depth "; PNum (Z.of_nat MAX_SYSTEMD_DEPTH);
                      PText " below "; PText directory] w
      | S levels => visit_entries (collect_enabled_units levels) directory entries visited found w
      end
  end.

Definition enabled_units (systemd_root : string) : CT (gset string) :=
  '(_, found) ← collect_enabled_units (S MAX_SYSTEMD_DEPTH) systemd_root 0 ∅; mret found.

Definition controller_pids (c : Controller) (running : processes) : gset Z :=
  ⋃ ((fun name => default ∅ (running !! name)) <$> co_executables c).

Definition controller_units (c : Controller) (enabled : gset string) : list string :=
  List.filter (fun u => bool_decide (u ∈ enabled)) (co_units c).

Definition evidence (c : Controller) (running : processes) (enabled : gset string) : list string :=
  let pids := controller_pids c running in
  let units := controller_units c enabled in
  (if bool_decide (pids = ∅) then []
   else ["running PID(s) " +:+ join "," (to_string <$> merge_sort Z.le (elements pids))])
  ++ match units with [] => [] | _ => ["enabled unit(s) " +:+ join "," units] end.

Definition warning (c : Controller) (found : list string) : text :=
  [PText "competing power controller detected: "; PText (co_id c); PText " ("; PText (join "; " found);
   PText "); detection is read-only and uperf-linux will not stop the controller"].

Definition report (running : processes) (enabled : gset string) (c : Controller) : option text :=
  match evidence c running enabled with [] => None | found => Some (warning c found) end.

(** [competing_controller_warnings] *)
Definition competing_controller_warnings (proc_root etc_root : string) : CT (list text) :=
  running ← running_executables proc_root;
  enabled ← enabled_units (join_path etc_root "systemd/system");
  mret (omap (report running enabled) CONTROLLERS).
End scan.

(** ** A system that does not change *)

Section stable.
Context {W : Type} `{!ControllerFs W}.
Context (tree : string -> IoError + list (IoError + FsEntry)) (contents : string -> IoError + list Ascii.ascii).

(** What the scan reads is the same whenever it reads it. *)
Definition stable : Prop :=
  (forall d w, scan_dir d w = (tree d, w)) /\ (forall n f w, read_at_most n f w = (contents f, w)).

(** A process whose first arguments name the executable. *)
Definition runs (proc_root name : string) (pid : Z) : Prop :=
  exists entries e cmdline,
    tree proc_root = inr entries /\ inr e ∈ entries /\ entry_pid e = Some pid
    /\ contents (join_path (entry_path proc_root e) "cmdline") = inr cmdline /\ name ∈ command_names cmdline.

(** A link in a [.wants] or [.requires] directory below [directory]. *)
Inductive enables (directory : string) (unit : string) : Prop :=
| enables_here entries e :
    tree directory = inr entries -> inr e ∈ entries -> fe_is_dir e = inr false -> from_utf8 (fe_name e) = Some unit ->
    dependency_directory directory = true -> enables directory unit
| enables_below entries e :
    tree directory = inr entries -> inr e ∈ entries -> fe_is_dir e = inr true ->
    enables (entry_path directory e) unit -> enables directory unit.

Definition pids_of (running : gmap string (gset Z)) (name : string) : gset Z := default ∅ (running !! name).

Lemma add_process_spec pid running name x p :
  p ∈ pids_of (add_process pid running name) x
  <-> p ∈ pids_of running x \/ p = pid /\ x = name /\ controller_executable x = true.
Proof.
  unfold add_process, pids_of. destruct (controller_executable name) eqn:Hn.
  - destruct (decide (x = name)) as [->|Hne].
    + rewrite lookup_insert_eq. simpl. set_solver.
    + rewrite lookup_insert_ne by congruence. naive_solver.
  - naive_solver congruence.
Qed.

Lemma add_processes_spec pid names running x p :
  p ∈ pids_of (fold_left (add_process pid) names running) x
  <-> p ∈ pids_of running x \/ p = pid /\ x ∈ names /\ controller_executable x = true.
Proof.
  revert running. induction names as [|name names IH]; intros running; simpl; [set_solver|].
  rewrite IH, add_process_spec, elem_of_cons. naive_solver.
Qed.

Lemma CT_bind_inr {A B} (m : CT A) (k : A -> CT B) (w w' : W) b :
  mbind k m w = (inr b, w') <-> exists a w1, m w = (inr a, w1) /\ k a w1 = (inr b, w').
Proof.
  unfold mbind, CT_bind. destruct (m w) as [[e|a] w1]; naive_solver.
Qed.

Lemma CT_ret_inr {A} (a b : A) (w w' : W) : (mret a : CT A) w = (inr b, w') -> b = a.
Proof. by intros [= ->]. Qed.

Context (Hstable : stable).

(** One process adds the controllers its command line names. *)
Lemma scan_process_spec root entry running w running' w' :
  scan_process root entry running w = (inr running', w') ->
  forall x p, p ∈ pids_of running' x
              <-> p ∈ pids_of running x
                  \/ controller_executable x = true
                     /\ exists e cmdline, entry = inr e /\ entry_pid e = Some p
                        /\ contents (join_path (entry_path root e) "cmdline") = inr cmdline /\ x ∈ command_names cmdline.
Proof.
  intros Hs x p. unfold scan_process in Hs.
  destruct entry as [e|e]; [injection Hs as <- <-; naive_solver|].
  destruct (entry_pid e) as [pid|] eqn:Hp; [|injection Hs as <- <-; naive_solver congruence].
  rewrite (proj2 Hstable) in Hs. destruct (contents _) as [err|cmdline] eqn:Hc.
  - injection Hs as <- <-. naive_solver congruence.
  - injection Hs as <- <-. rewrite add_processes_spec. naive_solver congruence.
Qed.

Lemma scan_proc_entries_spec root entries running w running' w' :
  scan_proc_entries root entries running w = (inr running', w') ->
  forall x p, p ∈ pids_of running' x
              <-> p ∈ pids_of running x
                  \/ controller_executable x = true
                     /\ exists e cmdline, inr e ∈ entries /\ entry_pid e = Some p
                        /\ contents (join_path (entry_path root e) "cmdline") = inr cmdline /\ x ∈ command_names cmdline.
Proof.
  revert running w. induction entries as [|entry entries IH]; intros running w; simpl.
  - intros [= <- <-] x p. set_solver.
  - intros (running1 & w1 & H1 & H2)%CT_bind_inr x p.
    rewrite (IH _ _ H2), (scan_process_spec _ _ _ _ _ _ H1). setoid_rewrite elem_of_cons. naive_solver.
Qed.

Lemma running_executables_spec root w running w' :
  running_executables root w = (inr running, w') ->
  forall x p, p ∈ pids_of running x <-> controller_executable x = true /\ runs root x p.
Proof.
  unfold running_executables. rewrite (proj1 Hstable). destruct (tree root) as [e|entries] eqn:Ht; [done|].
  intros Hs x p. rewrite (scan_proc_entries_spec _ _ _ _ _ _ Hs). unfold runs, pids_of. rewrite lookup_empty. simpl.
  rewrite Ht. set_unfold. naive_solver.
Qed.

(** The units one entry of a directory enables. *)
Definition entry_enables (directory : string) (e : FsEntry) (unit : string) : Prop :=
  match fe_is_dir e with
  | inr true => enables (entry_path directory e) unit
  | inr false => from_utf8 (fe_name e) = Some unit /\ dependency_directory directory = true
  | inl _ => False
  end.

Lemma enables_entry directory entries unit :
  tree directory = inr entries ->
  enables directory unit <-> exists e, inr e ∈ entries /\ entry_enables directory e unit.
Proof.
  intros Ht. unfold entry_enables. split.
  - intros [es e He Hin Hd|es e He Hin Hd]; rewrite Ht in He; injection He as ->; exists e; rewrite Hd; auto.
  - intros (e & Hin & He). destruct (fe_is_dir e) as [|[]] eqn:Hd; [done| |].
    + by eapply enables_below.
    + by eapply enables_here; try apply He.
Qed.

(** What a scan of a directory has to return. *)
Definition collects (directory : string) (scan : Z -> gset string -> CT (Z * gset string)) : Prop :=
  forall visited found (w : W) visited' found' w',
    scan visited found w = (inr (visited', found'), w') ->
    forall unit, unit ∈ found' <-> unit ∈ found \/ controller_unit unit = true /\ enables directory unit.

Lemma visit_entries_spec recurse directory entries :
  (forall d, collects d (recurse d)) ->
  forall visited found w visited' found' w',
    visit_entries recurse directory entries visited found w = (inr (visited', found'), w') ->
    forall unit, unit ∈ found' <-> unit ∈ found
      \/ controller_unit unit = true /\ exists e, inr e ∈ entries /\ entry_enables directory e unit.
Proof.
  intros Hr. induction entries as [|[err|e] entries IH]; intros visited found w visited' found' w'; simpl.
  - intros [= -> -> ->] unit. set_solver.
  - done.
  - destruct (_ <? _); [done|]. intros Hv unit. setoid_rewrite elem_of_cons.
    assert (Hsplit : forall (P : FsEntry -> Prop),
              (exists e0, (@inr IoError _ e0 = inr e \/ inr e0 ∈ entries) /\ P e0)
              <-> P e \/ exists e0, inr e0 ∈ entries /\ P e0) by (intros P; naive_solver).
    rewrite Hsplit. unfold entry_enables at 1. destruct (fe_is_dir e) as [err|[]].
    + done.
    + apply CT_bind_inr in Hv as ([v1 f1] & w1 & H1 & H2).
      rewrite (IH _ _ _ _ _ _ H2), (Hr _ _ _ _ _ _ _ H1). tauto.
    + rewrite (IH _ _ _ _ _ _ Hv). destruct (from_utf8 (fe_name e)) as [name|]; [|naive_solver].
      destruct (dependency_directory directory), (controller_unit name) eqn:Hn; simpl; set_unfold; naive_solver congruence.
Qed.

Lemma collect_enabled_units_spec levels directory : collects directory (collect_enabled_units levels directory).
Proof.
  revert directory. induction levels as [|levels IH]; intros directory visited found w visited' found' w'; simpl;
    rewrite (proj1 Hstable); destruct (tree directory) as [e|entries] eqn:Ht; intros Hc unit.
  1, 3: destruct (bool_decide _); [|done]; injection Hc as <- <- <-;
        split; [by left | intros [|[_ [? ? He|? ? He]]]; congruence].
  - done.
  - rewrite (enables_entry _ _ _ Ht). by eapply visit_entries_spec.
Qed.

Lemma known_executable c x : c ∈ CONTROLLERS -> x ∈ co_executables c -> controller_executable x = true.
Proof.
  intros Hc Hx. apply existsb_exists. exists c. rewrite <-list_elem_of_In. split; [done|]. by apply bool_decide_eq_true.
Qed.

Lemma known_unit c u : c ∈ CONTROLLERS -> u ∈ co_units c -> controller_unit u = true.
Proof.
  intros Hc Hx. apply existsb_exists. exists c. rewrite <-list_elem_of_In. split; [done|]. by apply bool_decide_eq_true.
Qed.

Lemma controllers_by_id c c' : c ∈ CONTROLLERS -> c' ∈ CONTROLLERS -> co_id c = co_id c' -> c = c'.
Proof.
  unfold CONTROLLERS. rewrite !elem_of_cons, !elem_of_nil. intros Hc Hc' Hid. destruct_or!; by subst.
Qed.

(** There is evidence when a process or a unit of the controller was found. *)
Lemma evidence_nil c running enabled :
  evidence c running enabled <> []
  <-> (exists x p, x ∈ co_executables c /\ p ∈ pids_of running x) \/ exists u, u ∈ co_units c /\ u ∈ enabled.
Proof.
  unfold evidence.
  assert (Hp : controller_pids c running <> ∅ <-> exists x p, x ∈ co_executables c /\ p ∈ pids_of running x).
  { unfold controller_pids, pids_of. split.
    - intros (p & (s & (x & -> & Hx)%list_elem_of_fmap & Hin)%elem_of_union_list)%set_choose_L. eauto.
    - intros (x & p & Hx & Hp) He. apply (not_elem_of_empty (C := gset Z) p). rewrite <-He.
      apply elem_of_union_list. eexists. split; [|done]. apply list_elem_of_fmap. eauto. }
  assert (Hu : controller_units c enabled <> [] <-> exists u, u ∈ co_units c /\ u ∈ enabled).
  { assert (Hm : forall u, u ∈ controller_units c enabled <-> u ∈ co_units c /\ u ∈ enabled).
    { intros u. unfold controller_units. by rewrite elem_of_filter_bool, bool_decide_eq_true. }
    setoid_rewrite <-Hm. destruct (controller_units c enabled) as [|u us]; [set_solver|].
    split; [exists u; by constructor | done]. }
  rewrite <-Hp, <-Hu. case_bool_decide; destruct (controller_units c enabled); naive_solver.
Qed.

(** On a system that does not change during the scan, a completed scan
    reports exactly the competing controllers: a warning about a controller is
    given if and only if one of the first three arguments of some process names
    one of its executables, or one of its units is linked from a [.wants] or
    [.requires] directory anywhere in the tree; the bounds on the search never
    hide a unit from a scan that completes. *)
Theorem controllers_reported proc_root etc_root w warnings w' c :
  competing_controller_warnings proc_root etc_root w = (inr warnings, w') -> c ∈ CONTROLLERS ->
  (exists found, warning c found ∈ warnings)
  <-> (exists name pid, name ∈ co_executables c /\ runs proc_root name pid)
      \/ exists unit, unit ∈ co_units c /\ enables (join_path etc_root "systemd/system") unit.
Proof.
  intros (running & w1 & Hr & (enabled & w2 & He & ->%CT_ret_inr)%CT_bind_inr)%CT_bind_inr Hc.
  apply CT_bind_inr in He as ([visited found] & w3 & Hcol & [= <- <-]).
  assert (Hiff : evidence c running found <> []
    <-> (exists name pid, name ∈ co_executables c /\ runs proc_root name pid)
        \/ exists unit, unit ∈ co_units c /\ enables (join_path etc_root "systemd/system") unit).
  { rewrite evidence_nil. setoid_rewrite (running_executables_spec _ _ _ _ Hr).
    setoid_rewrite (collect_enabled_units_spec _ _ _ _ _ _ _ _ Hcol).
    pose proof (known_executable c) as Hx. pose proof (known_unit c) as Hu. split.
    - intros [(name & pid & Hn & _ & Hp)|(u & Hin & [Hf%not_elem_of_empty|[_ Hen]])]; [left|done|right]; eauto.
    - intros [(name & pid & Hn & Hp)|(u & Hin & Hen)]; [left|right]; eauto 10. }
  rewrite <-Hiff. setoid_rewrite list_elem_of_omap. unfold report. split.
  - intros (l & c' & Hc' & Hw). destruct (evidence c' running found) eqn:Hev; [done|]. injection Hw as Hid _.
    rewrite <-(controllers_by_id _ _ Hc' Hc Hid). by rewrite Hev.
  - intros Hne. exists (evidence c running found), c. split; [done|]. by destruct (evidence c running found).
Qed.

End stable.

(** ** A machine with an enabled TLP and a running tuned *)

Definition named (name : string) (is_dir : bool) : IoError + FsEntry :=
  inr {| fe_name := bytes name; fe_is_dir := inr is_dir |}.

Definition missing {A} : IoError + A := inl {| io_kind := NotFound; io_message := "No such file or directory" |}.

Definition machine_tree (directory : string) : IoError + list (IoError + FsEntry) :=
  if bool_decide (directory = "/proc") then inr [named "1" true; named "812" true; named "self" true; missing]
  else if bool_decide (directory = "/etc/systemd/system") then
    inr [named "multi-user.target.wants" true; named "tuned.service" false]
  else if bool_decide (directory = "/etc/systemd/system/multi-user.target.wants") then inr [named "tlp.service" false]
  else missing.

Definition machine_contents (file : string) : IoError + list Ascii.ascii :=
  if bool_decide (file = "/proc/812/cmdline") then
    inr (bytes "/usr/bin/python3" ++ [nul] ++ bytes "-Es" ++ [nul] ++ bytes "/usr/sbin/tuned" ++ [nul])
  else if bool_decide (file = "/proc/1/cmdline") then inr (bytes "/sbin/init" ++ [nul])
  else missing.

#[local] Instance machine_fs : ControllerFs unit := {|
  scan_dir := fun d w => (machine_tree d, w);
  read_at_most := fun _ f w => (machine_contents f, w);
|}.

Definition machine_warnings : list text :=
  match competing_controller_warnings "/proc" "/etc" tt with (inr l, _) => l | (inl _, _) => [] end.

Definition tuned : Controller :=
  {| co_id := "tuned"; co_executables := ["tuned"]; co_units := ["tuned.service"] |}.

(** The unit file of [tuned] is present and not linked, so only its process
    counts. *)
Example machine_warnings_value :
  machine_warnings = [warning tuned ["running PID(s) 812"];
                      warning {| co_id := "TLP"; co_executables := ["tlp"]; co_units := ["tlp.service"; "tlp-sleep.service"] |}
                        ["enabled unit(s) tlp.service"]].
Proof. vm_compute. reflexivity. Qed.

Lemma controllers_reported_witness :
  competing_controller_warnings "/proc" "/etc" tt = (inr machine_warnings, tt)
  /\ ((exists name pid, name ∈ co_executables tuned /\ runs machine_tree machine_contents "/proc" name pid)
      \/ exists unit, unit ∈ co_units tuned /\ enables machine_tree (join_path "/etc" "systemd/system") unit).
Proof.
  split; [vm_compute; reflexivity|].
  refine (proj1 (controllers_reported machine_tree machine_contents (conj (fun _ _ => eq_refl) (fun _ _ _ => eq_refl))
                   "/proc" "/etc" tt machine_warnings tt tuned _ _) _).
  - vm_compute; reflexivity.
  - right. left.
  - exists ["running PID(s) 812"]. vm_compute. left.
Defined.
