(* ===== verification/RuntimeBarriers.v ===== *)
(** * Mutation barriers and worker results ([uperf-daemon/src/runtime.rs])

    Restoration for sleep and stop, the quiescing of the lanes that precedes
    it, the adoption of a reloaded configuration, and what the state owner does
    with the results of its workers. *)

From coqutil Require Import Datatypes.RecordSetters.
From S2P Require Import Prelude Float64 Domain Text Strings Scene Frequency Thermal Load ConfigTypes Validate ValidatePolicy Energy Governor Rules Engine ActuatorTypes Scalars Targets Journal Ports DaemonTypes DaemonConfig DecisionTrace Reconcile RuntimeTypes RuntimeEval RuntimeObservers RuntimeInteraction RuntimeControl.

Section barriers.
Context {W : Type} `{!Ports W} `{!Environment W} `{RegexEngine}.

Definition is_none {X} (o : option X) : bool := if o then false else true.

Fixpoint answer_all (waiters : list ReplyTo) (v : Reply) : AM W unit :=
  match waiters with
  | [] => mret tt
  | w :: waiters => answer w v;; answer_all waiters v
  end.

(** ** Suspension *)

Definition enter_suspended_state : AM W unit :=
  modify (fun s =>
    s <|ra_barrier->ba_suspended := true|>
      <|ra_interaction->ia_scenes := ∅|>
      <|ra_interaction->ia_hints := ∅|>
      <|ra_interaction->ia_ended := true|>);;
  forget_render;;
  modify (fun s =>
    s <|ra_interaction->ia_contacts := ∅|>
      <|ra_lanes->ln_scheduler_pending := false|>
      <|ra_barrier->ba_restored_while_suspended := false|>).

(** Every thermal zone unavailable, under the sensor-failure envelope. *)
Definition distrust_thermal : AM W unit :=
  modify (fun s => s <|ra_sensing->sn_thermal_state := Degraded|>);;
  now ← clock;
  mark_all_thermal_unavailable now;;
  update_thermal_caps.

Definition resume_from_sleep : AM W unit :=
  modify (fun s => s <|ra_barrier->ba_suspended := false|>
                     <|ra_decision->de_integrate_elapsed_time := false|>);;
  distrust_thermal;;
  set_scheduler_dirty;;
  activate_external_hint Wake.

(** Everyone waiting for the resume is told why it will not happen. *)
Definition supersede_resume (why : string) : AM W unit :=
  waiters ← gets (fun s => ba_wake_waiters (ra_barrier s));
  modify (fun s => s <|ra_barrier->ba_pending_resume := false|>
                     <|ra_barrier->ba_wake_waiters := []|>);;
  answer_all waiters (ReSleep (inl [PText why])).

(** ** Reload *)

Definition fresh_guards (zones : list ThermalZoneConfig) : gmap string ThermalGuard :=
  foldl (fun m z => <[tz_id z := ThermalGuard_new (thresholds_of_zone z)]> m) ∅ zones.

Definition apply_reload_candidate (candidate : ResolvedConfiguration) : AM W ReloadReport :=
  c ← configuration;
  debug_assert (bool_decide (target_signature candidate = target_signature c));;
  mark_decision_trigger "config-reload";;
  remove_issue "config.reload_rejected";;
  s ← gets (fun s => s);
  let next_config_generation := sat_add (cf_config_generation (ra_config s)) 1 in
  let next_observer_generation := sat_add (cf_observer_generation (ra_config s)) 1 in
  invalidate_focus_reports;;
  when (negb (fc_enabled (sc_focus (pol_scheduler (rc_policy candidate)))))
    (modify (fun s => s <|ra_focus->fs_focus_lease := None|>);;
     _ ← revoke_frame_reporter None;
     remove_issue FOCUS_REJECTED_ISSUE);;
  modify (fun s =>
    s <|ra_config->cf_configuration := candidate|>
      <|ra_decision->de_governor_state := GovernorState_default|>
      <|ra_decision->de_governor_diagnostics := None|>
      <|ra_decision->de_integrate_elapsed_time := false|>
      <|ra_sensing->sn_adaptive_sampler := SampleIdle|>
      <|ra_config->cf_config_generation := next_config_generation|>
      <|ra_config->cf_observer_generation := next_observer_generation|>
      <|ra_config->cf_observer_settings :=
          ObserverSettings_from_configuration candidate next_observer_generation|>
      <|ra_lanes->ln_scheduler_dirty := true|>
      <|ra_sensing->sn_thermal_guards := fresh_guards (rc_thermal_zones candidate)|>);;
  distrust_thermal;;
  bump_generation;;
  modify (fun s => s <|ra_failures->fa_health_issues ::= without_prefix "discovery.warning."|>);;
  seed_health;;
  evaluate_and_reconcile;;
  n ← gets (fun s => cf_config_generation (ra_config s));
  mret {| rl_config_generation := n; rl_warnings := rc_warnings candidate;
          rl_message := [PText "configuration generation swapped under the sensor-failure envelope; awaiting a fresh thermal sample"] |}.

Definition complete_reload (outcome : ReloadOutcome) : AM W unit :=
  s ← gets (fun s => s);
  debug_assert (ln_frequency_quiesced (ra_lanes s));;
  debug_assert (is_none (ln_frequency_command_pending (ra_lanes s)));;
  debug_assert (is_none (ln_scheduler_in_flight (ra_lanes s)));;
  debug_assert (is_none (ba_restore_in_flight (ra_barrier s)));;
  debug_assert (negb (ba_restore_requested (ra_barrier s)));;
  modify (fun s => s <|ra_barrier->ba_reload_in_flight := false|>);;
  r ← match RuntimeTypes.ro_result outcome with
      | inl e => mret (inl e)
      | inr candidate => report ← apply_reload_candidate candidate; mret (inr report)
      end;
  answer (ro_reply outcome) (ReReload r);;
  modify (fun s => s <|ra_barrier->ba_capabilities_changed_pending ::=
                         (fun b => b || match r with inr _ => true | inl _ => false end)|>).

(** ** The barrier *)

Definition request_frequency_quiesce : AM W unit :=
  s ← gets (fun s => s);
  let ln := ra_lanes s in
  if ln_frequency_quiesced ln || negb (is_none (ln_frequency_quiesce_pending ln)) then mret tt
  else
    let id := sat_add (ln_next_frequency_command_id ln) 1 in
    modify (fun s => s <|ra_lanes->ln_next_frequency_command_id := id|>);;
    if ch_frequency_closed (ra_channels s)
    then
      fail_reconcile_worker
        [PText "frequency worker stopped before acknowledging the mutation barrier"];;
      modify (fun s => s <|ra_lanes->ln_frequency_command_pending := None|>
                         <|ra_lanes->ln_frequency_requested := None|>
                         <|ra_lanes->ln_frequency_quiesced := true|>)
    else
      modify (fun s => s <|ra_channels->ch_frequency_command := Some (FwQuiesce id)|>
                         <|ra_lanes->ln_frequency_command_pending := Some id|>
                         <|ra_lanes->ln_frequency_quiesce_pending := Some id|>
                         <|ra_lanes->ln_frequency_requested := None|>).

Definition start_restore_worker : AM W unit :=
  s ← gets (fun s => s);
  debug_assert (ln_frequency_quiesced (ra_lanes s));;
  debug_assert (is_none (ln_frequency_command_pending (ra_lanes s)));;
  debug_assert (is_none (ln_scheduler_in_flight (ra_lanes s)));;
  debug_assert (is_none (ba_restore_in_flight (ra_barrier s)));;
  debug_assert (ba_restore_requested (ra_barrier s));;
  let id := sat_add (ba_next_restore_id (ra_barrier s)) 1 in
  modify (fun s => s <|ra_barrier->ba_restore_requested := false|>
                     <|ra_barrier->ba_next_restore_id := id|>
                     <|ra_barrier->ba_restore_in_flight := Some id|>
                     <|ra_channels->ch_restores ::= (fun l => l ++ [id])|>).

(** Restoration first, then a parsed reload; ordinary reconciliation resumes
    when neither is asked for. *)
Definition drive_mutation_barriers : AM W bool :=
  s ← gets (fun s => s);
  let b := ra_barrier s in
  if negb (is_none (ba_restore_in_flight b)) then mret true
  else if negb (ba_restore_requested b || negb (is_none (ba_pending_reload b))) then mret false
  else
    modify (fun s => s <|ra_lanes->ln_scheduler_pending := false|>);;
    request_frequency_quiesce;;
    ln ← gets ra_lanes;
    if negb (ln_frequency_quiesced ln) || negb (is_none (ln_frequency_command_pending ln))
       || negb (is_none (ln_scheduler_in_flight ln))
    then mret true
    else if ba_restore_requested b then start_restore_worker;; mret true
    else
      match ba_pending_reload b with
      | Some outcome =>
          modify (fun s => s <|ra_barrier->ba_pending_reload := None|>);;
          complete_reload outcome;;
          mret true
      | None => mret false
      end.

Definition receive_reload (outcome : ReloadOutcome) : AM W unit :=
  s ← gets (fun s => s);
  let c := cf_configuration (ra_config s) in
  let result :=
    match RuntimeTypes.ro_result outcome with
    | inr candidate =>
        if decide (target_signature candidate = target_signature c) then inr candidate
        else inl (EValidation
               [PText "device target mapping changed; safely restore and restart the daemon to adopt it"])
    | inl e => inl e
    end in
  match result with
  | inl error =>
      modify (fun s => s <|ra_barrier->ba_reload_in_flight := false|>);;
      insert_issue (issue "config.reload_rejected" "warning" "config"
        ([PText "configuration reload was rejected; generation ";
          PNum (cf_config_generation (ra_config s)); PText " remains active: "] ++ error_text error));;
      answer (ro_reply outcome) (ReReload (inl error))
  | inr candidate =>
      debug_assert (is_none (ba_pending_reload (ra_barrier s)));;
      modify (fun s => s <|ra_barrier->ba_pending_reload := Some
        {| ro_reply := ro_reply outcome; RuntimeTypes.ro_result := inr candidate |}|>);;
      _ ← drive_mutation_barriers;
      mret tt
  end.

(** ** Sleep, resume and stop *)

Definition restore_failure (s : RuntimeActor W) : option text := fa_restore_failure (ra_failures s).

Definition request_sleep_restore (completion : ReplyTo) : AM W unit :=
  s ← gets (fun s => s);
  let b := ra_barrier s in
  if negb (bool_decide (ba_stop_waiters b = []))
  then answer completion (ReSleep (inl
         [PText "daemon shutdown has started; the sleep transition was superseded"]))
  else
    when (ba_pending_resume b)
      (supersede_resume "a newer sleep transition superseded the pending resume");;
    match restore_failure s with
    | Some message =>
        when (negb (ba_suspended b)) enter_suspended_state;;
        answer completion (ReSleep (inl message))
    | None =>
        if ba_suspended b
        then
          if ba_restored_while_suspended b then answer completion (ReSleep (inr tt))
          else modify (fun s => s <|ra_barrier->ba_sleep_waiters ::= (fun l => l ++ [completion])|>)
        else
          enter_suspended_state;;
          modify (fun s => s <|ra_barrier->ba_sleep_waiters ::= (fun l => l ++ [completion])|>
                             <|ra_barrier->ba_restore_requested := true|>);;
          _ ← drive_mutation_barriers;
          mret tt
    end.

Definition request_resume (completion : ReplyTo) : AM W unit :=
  s ← gets (fun s => s);
  let b := ra_barrier s in
  if negb (bool_decide (ba_stop_waiters b = [])) || negb (co_accepting_control (ra_control s))
  then answer completion (ReSleep (inl
         [PText "daemon shutdown has started; resume is no longer accepted"]))
  else if negb (ba_suspended b) then answer completion (ReSleep (inr tt))
  else if ba_restore_requested b || negb (is_none (ba_restore_in_flight b))
  then modify (fun s => s <|ra_barrier->ba_pending_resume := true|>
                          <|ra_barrier->ba_wake_waiters ::= (fun l => l ++ [completion])|>)
  else
    modify (fun s => s <|ra_barrier->ba_restored_while_suspended := false|>);;
    resume_from_sleep;;
    answer completion (ReSleep (inr tt)).

Definition stop_superseded : string := "daemon shutdown superseded the pending resume transition".

Definition request_stop (reply : ReplyTo) : AM W unit :=
  modify (fun s => s <|ra_control->co_accepting_control := false|>);;
  s ← gets (fun s => s);
  when (is_some_and (id_in_flight (ra_identity s)) (fun r => negb (pif_is_control_request r)))
    (modify (fun s => s <|ra_identity->id_in_flight := None|>));;
  supersede_resume stop_superseded;;
  match restore_failure s with
  | Some message =>
      modify (fun s => s <|ra_control->co_stop_requested := true|>);;
      answer reply (ReDone (inl (EDegraded message)))
  | None =>
      let b := ra_barrier s in
      if ba_suspended b && ba_restored_while_suspended b
      then
        modify (fun s => s <|ra_control->co_stop_requested := true|>);;
        answer reply (ReDone (inr tt))
      else
        when (negb (ba_suspended b)) enter_suspended_state;;
        modify (fun s => s <|ra_barrier->ba_stop_waiters ::= (fun l => l ++ [reply])|>);;
        when (is_none (ba_restore_in_flight b))
          (modify (fun s => s <|ra_barrier->ba_restore_requested := true|>));;
        _ ← drive_mutation_barriers;
        mret tt
  end.

(** ** Restoration finished *)

Definition AppliedState_default : AppliedState :=
  {| ap_generation := 0; ap_frequencies := ∅; ap_scalars := ∅; ap_tasks := ∅ |}.

Definition record_restore (result : sum text unit) : AM W unit :=
  match result with
  | inr _ =>
      modify (fun s =>
        s <|ra_applied->ar_applied := AppliedState_default|>
          <|ra_applied->ar_applied_units := ∅|>
          <|ra_sensing->sn_observed ::= (fun o => with_observed_frequencies o ∅)|>
          <|ra_barrier->ba_restored_while_suspended := true|>);;
      remove_issue "actuator.sleep_restore"
  | inl message =>
      modify (fun s =>
        s <|ra_failures->fa_restore_failure := Some message|>
          <|ra_barrier->ba_restored_while_suspended := false|>
          <|ra_failures->fa_actuator_read_only := true|>);;
      insert_issue (issue "actuator.sleep_restore" "critical" "actuator" message)
  end.

Definition finish_restore (outcome : RestoreOutcome) : AM W unit :=
  expected ← gets (fun s => ba_restore_in_flight (ra_barrier s));
  modify (fun s => s <|ra_barrier->ba_restore_in_flight := None|>);;
  let result :=
    if decide (expected = Some (rs_id outcome)) then rs_result outcome
    else inl [PText "received restore result "; PNum (rs_id outcome);
              PText " while waiting for "; PWaiting expected] in
  record_restore result;;
  refresh_actuator_health;;
  sleepers ← gets (fun s => ba_sleep_waiters (ra_barrier s));
  modify (fun s => s <|ra_barrier->ba_sleep_waiters := []|>);;
  answer_all sleepers (ReSleep result);;
  stoppers ← gets (fun s => ba_stop_waiters (ra_barrier s));
  if negb (bool_decide (stoppers = []))
  then
    supersede_resume stop_superseded;;
    modify (fun s => s <|ra_control->co_stop_requested := true|>
                       <|ra_barrier->ba_stop_waiters := []|>);;
    answer_all stoppers (ReDone (match result with inr _ => inr tt | inl m => inl (EDegraded m) end))
  else
    pending_resume ← gets (fun s => ba_pending_resume (ra_barrier s));
    when pending_resume
      (modify (fun s => s <|ra_barrier->ba_pending_resume := false|>
                          <|ra_barrier->ba_restored_while_suspended := false|>);;
       resume_from_sleep;;
       waiters ← gets (fun s => ba_wake_waiters (ra_barrier s));
       modify (fun s => s <|ra_barrier->ba_wake_waiters := []|>);;
       answer_all waiters (ReSleep (inr tt)));;
    _ ← drive_mutation_barriers;
    mret tt.

(** ** Results of the lanes *)

Definition maybe_complete_applied_generation : AM W unit :=
  modify (fun s =>
    if negb (ba_suspended (ra_barrier s)) && negb (ln_scheduler_dirty (ra_lanes s))
       && is_none (ln_scheduler_in_flight (ra_lanes s))
       && is_none (ln_frequency_command_pending (ra_lanes s))
    then
      match de_desired (ra_decision s) with
      | Some desired =>
          if negb (frequency_needs_reconcile s desired)
          then s <|ra_applied->ar_applied ::= (fun a =>
                 {| ap_generation := dp_generation desired; ap_frequencies := ap_frequencies a;
                    ap_scalars := ap_scalars a; ap_tasks := ap_tasks a |})|>
          else s
      | None => s
      end
    else s).

Definition finish_worker_transition : AM W unit :=
  refresh_actuator_health;;
  maybe_complete_applied_generation;;
  driven ← drive_mutation_barriers;
  if driven : bool then mret tt
  else
    s ← gets (fun s => s);
    when (ln_scheduler_pending (ra_lanes s) || ln_scheduler_dirty (ra_lanes s)
          || is_some_and (de_desired (ra_decision s)) (frequency_needs_reconcile s))
      evaluate_and_reconcile.

(** A verified frequency transaction becomes the applied state, and the
    observation until the next sample. *)
Definition adopt_frequency_outcome (outcome : ReconcileOutcome)
    (drift_targets : gmap string FrequencyLimits) (succeeded : bool) : AM W unit :=
  s ← gets (fun s => s);
  let reported := ro_applied outcome in
  let removed := removed_keys (applied_frequencies s) (ap_frequencies reported) in
  modify (fun s => s <|ra_applied->ar_applied ::= (fun a =>
    {| ap_generation := ap_generation a; ap_frequencies := ap_frequencies reported;
       ap_scalars := ap_scalars reported; ap_tasks := ap_tasks a |})|>);;
  when succeeded
    (modify (fun s => s <|ra_sensing->sn_observed ::= (fun o => with_observed_frequencies o
        (((fun l => {| obs_limits := l; obs_current := None |}) <$> applied_frequencies s)
         ∪ remove_all removed (obs_frequencies o)))|>);;
     record_external_drift_corrections drift_targets;;
     now ← clock;
     modify (fun s => s <|ra_sensing->sn_last_frequency_success := Some now|>);;
     remove_issue "observer.frequency.stale").

Definition finish_frequency_reconcile (result : sum text ReconcileOutcome)
    (drift_targets : gmap string FrequencyLimits) : AM W unit :=
  match result with
  | inr outcome =>
      let succeeded := ro_frequency_attempted outcome
                       && bool_decide (ro_frequency_error outcome = None) in
      suspended ← gets (fun s => ba_suspended (ra_barrier s));
      when (negb suspended) (adopt_frequency_outcome outcome drift_targets succeeded);;
      match ro_frequency_error outcome with
      | Some error => record_frequency_failure error
      | None => clear_frequency_failure
      end
  | inl error =>
      fail_reconcile_worker ([PText "frequency worker stopped with unknown mutation progress: "] ++ error);;
      record_frequency_failure error
  end.

Definition finish_frequency_worker (event : FrequencyWorkerEvent) : AM W unit :=
  s ← gets (fun s => s);
  let ln := ra_lanes s in
  match event with
  | FwReconciled id drift_targets result =>
      match ln_frequency_command_pending ln with
      | Some waiting =>
          if id <=? waiting
          then
            when (waiting =? id)
              (modify (fun s => s <|ra_lanes->ln_frequency_command_pending := None|>
                                  <|ra_lanes->ln_frequency_requested := None|>));;
            finish_frequency_reconcile result drift_targets;;
            finish_worker_transition
          else
            fail_reconcile_worker [PText "frequency worker returned command "; PNum id;
              PText " while waiting for "; PWaiting (Some waiting)]
      | None =>
          fail_reconcile_worker [PText "frequency worker returned command "; PNum id;
            PText " while waiting for "; PWaiting None]
      end
  | FwQuiesced id =>
      if negb (bool_decide (ln_frequency_quiesce_pending ln = Some id))
         || negb (bool_decide (ln_frequency_command_pending ln = Some id))
      then
        fail_reconcile_worker [PText "frequency worker returned unexpected quiesce "; PNum id;
          PText " while waiting for "; PWaiting (ln_frequency_quiesce_pending ln)]
      else
        modify (fun s => s <|ra_lanes->ln_frequency_command_pending := None|>
                           <|ra_lanes->ln_frequency_quiesce_pending := None|>
                           <|ra_lanes->ln_frequency_requested := None|>
                           <|ra_lanes->ln_frequency_quiesced := true|>);;
        finish_worker_transition
  | FwFailed error =>
      modify (fun s => s <|ra_lanes->ln_frequency_command_pending := None|>
                         <|ra_lanes->ln_frequency_quiesce_pending := None|>
                         <|ra_lanes->ln_frequency_requested := None|>
                         <|ra_lanes->ln_frequency_quiesced := true|>);;
      fail_reconcile_worker error;;
      finish_worker_transition
  end.

(** The tasks and units of a scheduler job; its report only if no newer request
    waits. *)
Definition adopt_scheduler_outcome (outcome : ReconcileOutcome) (was_pending : bool) : AM W unit :=
  modify (fun s =>
    s <|ra_applied->ar_applied ::= (fun a =>
          {| ap_generation := ap_generation a; ap_frequencies := ap_frequencies a;
             ap_scalars := ap_scalars a; ap_tasks := ap_tasks (ro_applied outcome) |})|>
      <|ra_applied->ar_applied_units := ro_applied_units outcome|>);;
  when (negb was_pending && bool_decide (ro_scheduler_error outcome = None))
    (modify (fun s =>
       s <|ra_applied->ar_scheduler_report := ro_scheduler_report outcome|>
         <|ra_decision->de_desired ::= fmap (fun d => with_plan_tasks d (dp_tasks (ro_desired outcome)))|>
         <|ra_lanes->ln_scheduler_dirty := false|>)).

Definition finish_scheduler_worker (worker : SchedulerWorkerOutcome) : AM W unit :=
  ln ← gets ra_lanes;
  let expected := ln_scheduler_in_flight ln in
  let was_pending := ln_scheduler_pending ln in
  modify (fun s => s <|ra_lanes->ln_scheduler_in_flight := None|>
                     <|ra_lanes->ln_scheduler_pending := false|>);;
  (if negb (bool_decide (expected = Some (sw_id worker)))
   then
     fail_reconcile_worker [PText "scheduler worker returned command "; PNum (sw_id worker);
       PText " while waiting for "; PWaiting expected]
   else
     match sw_result worker with
     | inr outcome =>
         suspended ← gets (fun s => ba_suspended (ra_barrier s));
         when (negb suspended) (adopt_scheduler_outcome outcome was_pending);;
         (match ro_scheduler_warning outcome with
          | Some message =>
              insert_issue (issue "scheduler.cgroup_ownership" "warning" "scheduler" message)
          | None => remove_issue "scheduler.cgroup_ownership"
          end);;
         match ro_scheduler_error outcome with
         | Some error => record_scheduler_failure error
         | None => clear_scheduler_failure
         end
     | inl error =>
         fail_reconcile_worker
           ([PText "scheduler worker stopped with unknown mutation progress: "] ++ error);;
         record_scheduler_failure error
     end);;
  finish_worker_transition.
End barriers.
