(* ===== verification/RuntimeLoop.v ===== *)
(** * The state owner's loop ([RuntimeActor::run] of [uperf-daemon/src/runtime.rs])

    What it does with one command, one input event and one tick, and the
    machine made of the state owner and its workers: the workers take what was
    sent to them, run the reconciler or the restoration on the actuator, and
    send their results back. *)

From coqutil Require Import Datatypes.RecordSetters.
From S2P Require Import Prelude Float64 Domain Text Strings Scene Frequency Thermal Load ConfigTypes Validate ValidatePolicy Energy Governor Rules Engine ActuatorTypes Scalars Targets Journal Ports Recovery DaemonTypes DaemonConfig DecisionTrace Reconcile RuntimeTypes RuntimeEval RuntimeObservers RuntimeInteraction RuntimeControl RuntimeBarriers.

Section loop.
Context {W : Type} `{!Ports W} `{!Environment W} `{!IdentityReader W} `{RegexEngine}.
Context (exp : f64 -> f64).

(** ** Commands *)

(** A command refused once shutdown has begun. *)
Definition when_accepting (refuse : RuntimeError -> AM W unit) (m : AM W unit) : AM W unit :=
  s ← gets (fun s => s);
  match require_accepting_control s with
  | inl e => refuse e
  | inr _ => m
  end.

Definition reply_receipt (reply : ReplyTo) (m : AM W (rt_result MutationReceipt)) : AM W unit :=
  when_accepting (refuse_receipt reply) (r ← m; answer reply (ReReceipt r)).

Definition stop_conflict (s : RuntimeActor W) : option text :=
  or_else (update_in_flight s)
    (if process_control_request_in_flight s then Some PROCESS_IDENTITY_IN_FLIGHT else None).

Definition handle_command (command : Command) : AM W unit :=
  mark_decision_trigger "control";;
  match command with
  | CmdSetMode m reply => reply_receipt reply (command_set_mode m)
  | CmdSetActiveWorkload request caller_uid reply =>
      when_accepting (refuse_receipt reply) (start_set_workload request caller_uid reply)
  | CmdClearActiveWorkload caller_uid reply =>
      when_accepting (refuse_receipt reply) (start_clear_workload caller_uid reply)
  | CmdSetForegroundProcess p reason caller_uid peer reply =>
      reply_receipt reply (accept_focus_report p reason caller_uid peer)
  | CmdClearForegroundProcess caller_uid peer reply =>
      reply_receipt reply (command_clear_foreground_from_peer caller_uid peer)
  | CmdReportFrameHint event caller_uid peer reply =>
      reply_receipt reply (command_report_frame_hint event caller_uid peer)
  | CmdForgetForegroundPeer peer => forget_focus_peer peer
  | CmdSetFrequencyOverrides overrides reply =>
      reply_receipt reply (command_set_overrides overrides)
  | CmdClearFrequencyOverrides target_ids reply =>
      reply_receipt reply (command_clear_overrides target_ids)
  | CmdReload reply =>
      when_accepting (fun e => answer reply (ReReload (inl e))) (start_reload reply)
  | CmdSetAppRule rule reply =>
      when_accepting (refuse_receipt reply) (start_set_app_rule rule reply)
  | CmdRemoveAppRule id reply =>
      when_accepting (refuse_receipt reply) (start_remove_app_rule id reply)
  | CmdRunningWorkloadObserverHealth result => reduce_running_workload_observer_health result
  | CmdActivate reply =>
      when_accepting (fun e => answer reply (ReDone (inl e)))
        (modify (fun s => s <|ra_control->co_mutations_activated := true|>);;
         evaluate_and_reconcile;;
         answer reply (ReDone (inr tt)))
  | CmdBeginShutdown reply =>
      modify (fun s => s <|ra_control->co_accepting_control := false|>
                         <|ra_lanes->ln_scheduler_pending := false|>);;
      answer reply (ReDone (inr tt))
  | CmdStop reply =>
      s ← gets (fun s => s);
      match stop_conflict s with
      | Some busy => answer reply (ReDone (inl (EConflict busy)))
      | None => request_stop reply
      end
  end.

(** ** Input events *)

Definition input_source (event : RuntimeInput) : string :=
  match event with
  | RiHint _ => "external-hint"
  | RiInput _ => "desktop-input"
  | RiSessionState _ => "session-state"
  | RiPrepareForSleep _ _ => "sleep-transition"
  end.

Definition reduce_runtime_input (event : RuntimeInput) : AM W unit :=
  mark_decision_trigger (input_source event);;
  match event with
  | RiHint scene => activate_external_hint scene
  | RiInput event => reduce_input event
  | RiSessionState state => reduce_session_state state
  | RiPrepareForSleep true completion => request_sleep_restore completion
  | RiPrepareForSleep false completion => request_resume completion
  end.

(** ** The tick *)

Definition expire_hints (now : MonotonicMillis) : AM W bool :=
  s ← gets ra_interaction;
  let '(expired, hints) := expire (ia_scenes s) now in
  modify (fun s => s <|ra_interaction->ia_scenes := hints|>
                     <|ra_interaction->ia_hints ::=
                         filter (fun kv : Scene * Z => contains_active hints kv.1 now = true)|>);;
  mret expired.

Definition scan_scheduler (now : MonotonicMillis) : AM W unit :=
  s ← gets (fun s => s);
  when (negb (is_none (effective_workload s))
        && sc_enabled (pol_scheduler (rc_policy (cf_configuration (ra_config s))))
        && (SCHEDULER_SCAN_INTERVAL_MS <=?
            saturating_duration_since now (ln_last_scheduler_scan (ra_lanes s))))
    (modify (fun s => s <|ra_lanes->ln_last_scheduler_scan := now|>
                        <|ra_lanes->ln_scheduler_dirty := true|>);;
     mark_decision_trigger "scheduler-scan").

Definition on_tick : AM W unit :=
  mark_decision_trigger "timer";;
  now ← clock;
  thermal_changed ← refresh_thermal_staleness now;
  load_changed ← refresh_load_staleness now;
  refresh_frequency_staleness now;;
  hints_expired ← expire_hints now;
  render_idle_changed ← finish_render_idle_if_due now;
  had_expired_overrides ← expire_overrides now;
  focus_expired ← expire_focus_lease now;
  frame_reporter_expired ← expire_frame_reporter_lease now;
  drive_pending_focus now;;
  last_check ← gets (fun s => ln_last_workload_check (ra_lanes s));
  when (WORKLOAD_CHECK_INTERVAL_MS <=? saturating_duration_since now last_check)
    (modify (fun s => s <|ra_lanes->ln_last_workload_check := now|>);;
     check_workload_identity);;
  scan_scheduler now;;
  s ← gets (fun s => s);
  let f := ra_failures s in
  when (focus_expired || frame_reporter_expired || hints_expired || render_idle_changed
        || thermal_changed || load_changed || had_expired_overrides
        || is_none (de_desired (ra_decision s))
        || (ln_scheduler_dirty (ra_lanes s) && negb (ba_suspended (ra_barrier s)))
        || (negb (fa_frequency_failures f =? 0) && (fa_frequency_retry_not_before f <=? now))
        || (negb (fa_scheduler_failures f =? 0) && (fa_scheduler_retry_not_before f <=? now)))
    evaluate_and_reconcile.

(** ** One turn of the loop *)

Inductive RuntimeEventIn :=
| InCommand (c : Command)
| InCommandsClosed
| InLoad (o : sum text CpuTimeSnapshot)
| InThermal (generation : Z) (o : sum text (list ThermalSample))
| InFrequency (o : sum text FrequencyObservationBatch)
| InLogindHealth (o : sum text unit)
| InInputHealth (o : sum text unit)
| InRuntime (e : RuntimeInput)
| InFrequencyResult (e : FrequencyWorkerEvent)
| InSchedulerResult (o : SchedulerWorkerOutcome)
| InRestoreResult (o : RestoreOutcome)
| InSafetyResult (o : FrequencySafetyOutcome)
| InIdentityResult (o : ProcessIdentityOutcome)
| InAppPersistence (o : AppPersistenceOutcome)
| InReload (o : ReloadOutcome)
| InTick.

Definition turn (e : RuntimeEventIn) : AM W unit :=
  match e with
  | InCommand c => handle_command c
  | InCommandsClosed => modify (fun s => s <|ra_control->co_stop_requested := true|>)
  | InLoad o => reduce_load exp o
  | InThermal g o =>
      current ← gets (fun s => cf_observer_generation (ra_config s));
      when (g =? current) (reduce_thermal o)
  | InFrequency o => reduce_frequencies o
  | InLogindHealth o => reduce_logind_health o
  | InInputHealth o => reduce_input_health o
  | InRuntime e => reduce_runtime_input e
  | InFrequencyResult e => finish_frequency_worker e
  | InSchedulerResult o => finish_scheduler_worker o
  | InRestoreResult o => finish_restore o
  | InSafetyResult o => finish_frequency_safety_update o
  | InIdentityResult o => finish_process_identity o
  | InAppPersistence o => finish_app_persistence o
  | InReload o => receive_reload o
  | InTick => on_tick
  end.

(** ** The state a daemon starts with ([RuntimeActor::new])

    Fail-closed: no trusted thermal sample yet, no mutation activated. *)

(** [actuator_health_snapshot] *)
Definition actuator_health_snapshot (actuator : option Actuator) (t : St W) : bool * bool :=
  match actuator with
  | None => (true, false)
  | Some _ =>
      (match (mode t).1 with Ok ReadWrite => false | _ => true end,
       match (startup_recovery_required t).1 with Ok b => b | _ => true end)
  end.

Definition ObservedState_empty : ObservedState :=
  {| timestamp := 0; cpu_loads := ∅; obs_frequencies := ∅; thermal := ∅ |}.

Definition initial_actor (c : ResolvedConfiguration) (actuator : option Actuator) (t : St W)
  : RuntimeActor W :=
  let '(read_only, recovery_pending) := actuator_health_snapshot actuator t in
  {| ra_config := {| cf_configuration := c; cf_actuator := actuator; cf_config_generation := 1;
                     cf_observer_generation := 1;
                     cf_observer_settings := ObserverSettings_from_configuration c 1 |};
     ra_control := {| co_mode := Auto; co_active_workload := None;
                      co_requested_workload_profile := None; co_overrides := ∅;
                      co_session_state := SessionActive; co_generation := 0;
                      co_mutations_activated := false; co_accepting_control := true;
                      co_stop_requested := false |};
     ra_focus := {| fs_focus_lease := None; fs_frame_reporter_lease := None;
                    fs_pending_focus := None; fs_focus_report_revision := 0 |};
     ra_interaction := {| ia_generation := 0; ia_ended := false; ia_hints := ∅;
                          ia_render_generation := None; ia_render_idle_deadline := None;
                          ia_last_deadline_missed := None; ia_display_blanked := false;
                          ia_scenes := ∅; ia_contacts := ∅ |};
     ra_sensing := {| sn_observed := ObservedState_empty;
                      sn_thermal_guards := fresh_guards (rc_thermal_zones c);
                      sn_thermal_state := Degraded; sn_thermal_caps := ∅;
                      sn_maximum_temperature := None; sn_previous_cpu_times := None;
                      sn_last_load_success := None; sn_last_frequency_success := None;
                      sn_heavy_load := HeavyLoadDetector_default;
                      sn_adaptive_sampler := SampleIdle; sn_telemetry_sequence := 0 |};
     ra_decision := {| de_desired := None; de_trigger_source := "startup"; de_trigger_at := 0;
                       de_governor_state := GovernorState_default;
                       de_governor_diagnostics := None; de_integrate_elapsed_time := false;
                       de_external_drift := ∅ |};
     ra_applied := {| ar_applied := AppliedState_default; ar_applied_units := ∅;
                      ar_scheduler_report := SchedulerReport_default |};
     ra_lanes := {| ln_frequency_command_pending := None; ln_frequency_quiesce_pending := None;
                    ln_frequency_quiesced := true; ln_next_frequency_command_id := 0;
                    ln_frequency_requested := None; ln_scheduler_in_flight := None;
                    ln_scheduler_pending := false; ln_scheduler_dirty := false;
                    ln_next_scheduler_id := 0; ln_last_workload_check := 0;
                    ln_last_scheduler_scan := 0 |};
     ra_barrier := {| ba_suspended := false; ba_restore_in_flight := None; ba_next_restore_id := 0;
                      ba_restore_requested := false; ba_restored_while_suspended := false;
                      ba_sleep_waiters := []; ba_wake_waiters := []; ba_pending_resume := false;
                      ba_stop_waiters := []; ba_pending_reload := None;
                      ba_reload_in_flight := false; ba_app_persist_in_flight := false;
                      ba_capabilities_changed_pending := false |};
     ra_identity := {| id_reader := false; id_in_flight := None; id_next := 0 |};
     ra_safety := {| sf_update_in_flight := None; sf_next_update_id := 0;
                     sf_requested_upper_caps := ∅; sf_pending_upper_caps := None |};
     ra_failures := {| fa_restore_failure := None; fa_frequency_safety_failure := None;
                       fa_reconcile_worker_failure := None; fa_frequency_failures := 0;
                       fa_frequency_retry_not_before := 0; fa_scheduler_failures := 0;
                       fa_scheduler_retry_not_before := 0; fa_actuator_read_only := read_only;
                       fa_startup_recovery_pending := recovery_pending; fa_health_issues := ∅ |};
     ra_channels := {| ch_frequency_command := None; ch_frequency_closed := false;
                       ch_schedulers := []; ch_restores := []; ch_safety_updates := [];
                       ch_identity_reads := []; ch_app_persistence := []; ch_reloads := [] |};
     ra_replies := [];
     ra_sys := t |}.

Definition RuntimeActor_new (c : ResolvedConfiguration) (actuator : option Actuator) (t : St W)
  : option unit * RuntimeActor W :=
  (update_thermal_caps;; seed_health) (initial_actor c actuator t).
End loop.
