(* ===== verification/Published.v ===== *)
(** * What the state owner publishes ([RuntimeActor::published] and the end of
    [RuntimeActor::run] in [uperf-daemon/src/runtime.rs])

    After every turn the state owner compares a signature of its state, and its
    health, with those of the turn before; on a change it replaces the published
    snapshot, and then announces the change. The snapshot always shows the
    present state, a change of the announced properties is never silent, and an
    announced revision is already readable. *)

From coqutil Require Import Datatypes.RecordSetters.
From S2P Require Import Prelude Float64 Domain Text Strings Scene Frequency Thermal Load ConfigTypes Validate ValidatePolicy ValidateFacts Energy Governor Rules Engine ActuatorTypes Scalars Targets Journal Ports Recovery SimMachine DaemonTypes DaemonConfig DecisionTrace Reconcile SchedulerFacts RuntimeTypes RuntimeEval RuntimeObservers RuntimeInteraction Systemd Service RuntimeControl Client CommandLine RuntimeBarriers RuntimeLoop.

#[local] Existing Instance AM_ret.
#[local] Existing Instance AM_bind.

(** ** The records *)

Record CpuLoad := { cl_cpu_id : Z; cl_utilization_basis_points : Z }.

Record TelemetrySnapshot := {
  ts_sequence : Z;
  ts_monotonic_ms : Z;
  ts_cpu_loads : list CpuLoad;
  ts_thermal : ThermalStatus;
  ts_snapshot_frequencies : list FrequencyStatus;
}.

Record PublishedState := {
  ps_state_revision : Z;
  ps_status : DaemonStatus;
  ps_capabilities : Capabilities;
  ps_telemetry : TelemetrySnapshot;
  ps_app_rules : list ApiAppRule;
  ps_scheduler : SchedulerStatus;
  ps_governor : GovernorStatus;
}.

#[global] Instance HealthIssue_eq_dec : EqDecision HealthIssue.
Proof. solve_decision. Defined.
#[global] Instance HealthStatus_eq_dec : EqDecision HealthStatus.
Proof. solve_decision. Defined.
#[global] Instance SchedulerReport_eq_dec : EqDecision SchedulerReport.
Proof. solve_decision. Defined.

Record RuntimeStateSignature := {
  sg_control_generation : Z;
  sg_config_generation : Z;
  sg_mode : ModeSelection;
  sg_active_workload : option ProcessIdentity;
  sg_focused_workload : option ProcessIdentity;
  sg_display_blanked : bool;
  sg_session_state : SessionState;
  sg_effective_profile : ProfileId;
  sg_dominant_scene : Scene;
  sg_thermal_state : ThermalState;
  sg_desired_frequencies : gmap string FrequencyLimits;
  sg_applied_frequencies : gmap string FrequencyLimits;
  sg_desired_scalars : gmap string ScalarSettingValue;
  sg_applied_scalars : gmap string ScalarSettingValue;
  sg_desired_tasks : gmap ProcessIdentity TaskPlan;
  sg_applied_tasks : gmap ProcessIdentity TaskPlan;
  sg_applied_units : gmap string SystemdUnitProperties;
  sg_scheduler_report : SchedulerReport;
  sg_suspended : bool;
}.
#[global] Instance RuntimeStateSignature_eq_dec : EqDecision RuntimeStateSignature.
Proof. solve_decision. Defined.

Definition ActiveWorkload_default : ActiveWorkload :=
  {| aw_present := false; aw_identity := {| pid := 0; start_time_ticks := 0; uid := 0 |}; aw_name := "";
     aw_requested_mode := ""; aw_effective_mode := ""; aw_source := "" |}.

Section published.
Context {W : Type} `{!Ports W} `{!Environment W} `{!IdentityReader W} `{RegexEngine}.
(** [CARGO_PKG_VERSION]; [serde_json::to_string] of a scalar *)
Context (version : string) (scalar_json : ScalarSettingValue -> string).

(** ** Views of the state *)

Definition policy_in_force (s : RuntimeActor W) : PolicyConfig := rc_policy (cf_configuration (ra_config s)).

Definition published_profile (s : RuntimeActor W) : ProfileId :=
  match de_desired (ra_decision s) with
  | Some plan => dp_effective_profile plan
  | None => pol_default_profile (policy_in_force s)
  end.
Definition published_scene (s : RuntimeActor W) : Scene := map_or (de_desired (ra_decision s)) SIdle dp_dominant_scene.

Definition desired_part {A} `{!Empty A} (s : RuntimeActor W) (part : DesiredPlan -> A) : A :=
  map_or (de_desired (ra_decision s)) ∅ part.

Definition state_signature (s : RuntimeActor W) : RuntimeStateSignature :=
  {| sg_control_generation := co_generation (ra_control s);
     sg_config_generation := cf_config_generation (ra_config s);
     sg_mode := co_mode (ra_control s);
     sg_active_workload := identity <$> co_active_workload (ra_control s);
     sg_focused_workload := (fun l => identity (fl_info l)) <$> fs_focus_lease (ra_focus s);
     sg_display_blanked := ia_display_blanked (ra_interaction s);
     sg_session_state := co_session_state (ra_control s);
     sg_effective_profile := published_profile s;
     sg_dominant_scene := published_scene s;
     sg_thermal_state := sn_thermal_state (ra_sensing s);
     sg_desired_frequencies := desired_part s dp_frequencies;
     sg_applied_frequencies := ap_frequencies (ar_applied (ra_applied s));
     sg_desired_scalars := desired_part s dp_scalars;
     sg_applied_scalars := ap_scalars (ar_applied (ra_applied s));
     sg_desired_tasks := desired_part s dp_tasks;
     sg_applied_tasks := ap_tasks (ar_applied (ra_applied s));
     sg_applied_units := ar_applied_units (ra_applied s);
     sg_scheduler_report := ar_scheduler_report (ra_applied s);
     sg_suspended := ba_suspended (ra_barrier s) |}.

Definition health (s : RuntimeActor W) : HealthStatus :=
  let read_only := fa_actuator_read_only (ra_failures s) in
  let issues := values (fa_health_issues (ra_failures s)) in
  let failed := existsb (fun i => bool_decide (hi_severity i = "critical")
                                  && negb (bool_decide (hi_component i = "thermal"))) issues in
  let degraded := read_only
    || existsb (fun i => bool_decide (hi_severity i ∈ ["warning"; "error"; "critical"])) issues in
  {| hs_state := if failed then "failed" else if degraded then "degraded" else "healthy";
     hs_read_only := read_only;
     hs_recovery_pending := fa_startup_recovery_pending (ra_failures s);
     hs_summary := [PText (if failed then "one or more mandatory components failed"
                           else if degraded then "running with one or more safety or capability restrictions"
                           else "all mandatory components are healthy")];
     hs_issues := issues |}.

Definition governor_status (s : RuntimeActor W) : GovernorStatus :=
  let desired := de_desired (ra_decision s) in
  {| gs_generation := map_or desired 0 dp_generation;
     gs_profile := profile_name (published_profile s);
     gs_scene := scene_name (published_scene s);
     gs_trigger_source := de_trigger_source (ra_decision s);
     gs_diagnostics :=
       map_or desired GovernorDiagnosticsStatus_default
         (governor_diagnostics_status (policy_in_force s) (de_governor_diagnostics (ra_decision s)));
     gs_desired_scalars := map_or desired [] (fun plan => scalar_snapshot scalar_json (dp_scalars plan));
     gs_applied_scalars := scalar_snapshot scalar_json (ap_scalars (ar_applied (ra_applied s))) |}.

(** The features that depend on the actuator. *)
Definition writable (s : RuntimeActor W) : bool :=
  is_some_and (cf_actuator (ra_config s)) (fun _ => true) && negb (fa_actuator_read_only (ra_failures s)).

Definition writable_features (s : RuntimeActor W) : list string :=
  let scheduler := pol_scheduler (policy_in_force s) in
  let actuator := cf_actuator (ra_config s) in
  ["frequency-transactions"]
  ++ (if sc_enabled scheduler && is_some_and actuator has_process_backend
      then "task-scheduler" :: (if rt_enabled (sc_realtime scheduler) then ["realtime-fifo-v1"] else []) else [])
  ++ (if sc_enabled scheduler && negb (is_nil (sc_cgroup_classes scheduler)) && is_some_and actuator has_systemd_backend
      then ["systemd-cgroup"] else []).

Definition runtime_capabilities (s : RuntimeActor W) : Capabilities :=
  let c := capabilities (cf_configuration (ra_config s)) in
  {| ca_api_version := ca_api_version c;
     ca_features :=
       ca_features c ++ ["running-workloads"]
       ++ (if fc_enabled (sc_focus (pol_scheduler (policy_in_force s))) then ["foreground-focus"; "frame-hints-v1"] else [])
       ++ (if writable s then writable_features s else []);
     ca_modes := ca_modes c;
     ca_targets := (fun t => t <|tc_can_override := writable s|>) <$> ca_targets c;
     ca_config_schema_version := ca_config_schema_version c |}.

(** A missing pair reads as zeros. *)
Definition limits_or_zero (l : option FrequencyLimits) : FrequencyLimits := unwrap_or l {| lim_min := 0; lim_max := 0 |}.
Definition is_present {A} (o : option A) : bool := match o with Some _ => true | None => false end.

Definition frequency_status (s : RuntimeActor W) (observations_stale : bool) (id : string) : FrequencyStatus :=
  let observed := obs_limits <$> (obs_frequencies (sn_observed (ra_sensing s)) !! id) in
  let desired := desired_part s dp_frequencies !! id in
  let applied := ap_frequencies (ar_applied (ra_applied s)) !! id in
  {| fs_target_id := id;
     fs_observed_available := is_present observed;
     fs_observed_min_hz := lim_min (limits_or_zero observed);
     fs_observed_max_hz := lim_max (limits_or_zero observed);
     fs_desired_min_hz := lim_min (limits_or_zero desired);
     fs_desired_max_hz := lim_max (limits_or_zero desired);
     fs_desired_available := is_present desired;
     fs_applied_min_hz := lim_min (limits_or_zero applied);
     fs_applied_max_hz := lim_max (limits_or_zero applied);
     fs_applied_verified := is_present applied;
     fs_override_active := is_present (co_overrides (ra_control s) !! id);
     fs_stale := observations_stale || negb (is_present observed) |}.

Definition frequency_statuses (s : RuntimeActor W) (now : MonotonicMillis) : list FrequencyStatus :=
  frequency_status s (frequency_observations_stale s now) <$> keys (rc_targets (cf_configuration (ra_config s))).

Definition clamp_i32 (z : Z) : Z := Z.max (-2147483648) (Z.min 2147483647 z).

Definition thermal_status (s : RuntimeActor W) : ThermalStatus :=
  {| ths_state := match sn_thermal_state (ra_sensing s) with
                  | Thermal.Normal => "normal" | Warning => "warning" | Throttled => "throttled"
                  | Critical => "critical" | Degraded => "stale"
                  end;
     ths_max_temperature_millicelsius := map_or (sn_maximum_temperature (ra_sensing s)) 0 clamp_i32;
     ths_cap_active := negb (bool_decide (sn_thermal_caps (ra_sensing s) = ∅));
     ths_sensors_stale := bool_decide (sn_thermal_state (ra_sensing s) = Degraded) |}.

Definition api_active_workload (s : RuntimeActor W) (effective_profile : string) : ActiveWorkload :=
  match effective_workload s with
  | None => ActiveWorkload_default
  | Some process =>
      {| aw_present := true;
         aw_identity := identity process;
         aw_name := comm process;
         aw_requested_mode := map_or (co_requested_workload_profile (ra_control s)) "" profile_name;
         aw_effective_mode := effective_profile;
         aw_source := match effective_workload_source s with Explicit => "explicit" | Focus => "focus" end |}
  end.

Definition api_scheduler_status (s : RuntimeActor W) : SchedulerStatus :=
  let report := ar_scheduler_report (ra_applied s) in
  let enabled := sc_enabled (pol_scheduler (policy_in_force s)) in
  if negb (bool_decide (identity <$> effective_workload s = rp_workload report)) then
    SchedulerStatus_default <|ss_enabled := enabled|>
  else
    let unit := unwrap_or (rp_systemd_unit report) "" in
    {| ss_enabled := enabled;
       ss_matched_rule := unwrap_or (rp_matched_rule report) "";
       ss_managed_tasks := Z.min u32_max (Z.of_nat (size (desired_part s dp_tasks)));
       ss_applied_tasks := Z.min u32_max (Z.of_nat (size (ap_tasks (ar_applied (ra_applied s)))));
       ss_cgroup_class := unwrap_or (rp_cgroup_class report) "";
       ss_cgroup_applied := negb (bool_decide (unit = "")) && is_present (ar_applied_units (ra_applied s) !! unit);
       ss_systemd_unit := unit;
       ss_warning := map_or (List.find (fun i => bool_decide (hi_component i = "scheduler"))
                               (values (fa_health_issues (ra_failures s)))) [] hi_message |}.

Definition daemon_status (s : RuntimeActor W) (now : MonotonicMillis) : DaemonStatus :=
  let profile := profile_name (published_profile s) in
  {| ds_api_version := ApiVersion_CURRENT;
     ds_daemon_version := version;
     ds_state := if co_stop_requested (ra_control s) then "stopping"
                 else if bool_decide (hs_state (health s) = "healthy") then "running" else "degraded";
     ds_health := health s;
     ds_mode := mode_name (co_mode (ra_control s));
     ds_effective_profile := profile;
     ds_dominant_scene := scene_name (published_scene s);
     ds_active_workload := api_active_workload s profile;
     ds_thermal := thermal_status s;
     ds_frequencies := frequency_statuses s now;
     ds_config_generation := cf_config_generation (ra_config s);
     ds_reconcile_generation := ap_generation (ar_applied (ra_applied s)) |}.

(** The snapshot, for a revision and a reading of the clock; a rule with a
    desktop id fails its debug assertion. *)
Definition published_snapshot (s : RuntimeActor W) (revision : Z) (now : MonotonicMillis) : res PublishedState text :=
  let status := daemon_status s now in
  let? rules := res_mapM core_rule_to_api (apps_rules (rc_apps (cf_configuration (ra_config s)))) in
  Ok {| ps_state_revision := revision;
        ps_status := status;
        ps_capabilities := runtime_capabilities s;
        ps_telemetry :=
          {| ts_sequence := sn_telemetry_sequence (ra_sensing s);
             ts_monotonic_ms := timestamp (sn_observed (ra_sensing s));
             ts_cpu_loads := (fun kv : Z * f64 =>
                 {| cl_cpu_id := kv.1; cl_utilization_basis_points := utilization_to_basis_points kv.2 |})
               <$> entries (cpu_loads (sn_observed (ra_sensing s)));
             ts_thermal := ds_thermal status;
             ts_snapshot_frequencies := ds_frequencies status |};
        ps_app_rules := rules;
        ps_scheduler := api_scheduler_status s;
        ps_governor := governor_status s |}.

(** [RuntimeActor::published]; a refused rule stands for a failed assertion. *)
Definition publish_snapshot (revision : Z) : AM W PublishedState :=
  s ← gets (fun s => s);
  now ← clock;
  match published_snapshot s revision now with Ok p => mret p | _ => crash end.
(** ** The end of a turn *)

(** [RuntimeEvent], and the replacement of the published snapshot, in the order
    in which they happen. *)
Inductive PublicOutput :=
| Replaced (p : PublishedState)
| SentState (revision : Z)
| SentHealth (h : HealthStatus)
| SentCapabilities.

(** The variables of the loop, the revision counter and the snapshot that can be
    read. *)
Record Publisher := {
  pr_state : RuntimeStateSignature;
  pr_health : HealthStatus;
  pr_read_only : bool;
  pr_telemetry : Z;
  pr_revision : Z;
  pr_current : PublishedState;
}.

Definition actor_read_only (s : RuntimeActor W) : bool := fa_actuator_read_only (ra_failures s).
Definition telemetry_sequence (s : RuntimeActor W) : Z := sn_telemetry_sequence (ra_sensing s).

Definition publisher_with (s : RuntimeActor W) (revision : Z) (current : PublishedState) : Publisher :=
  {| pr_state := state_signature s; pr_health := health s; pr_read_only := actor_read_only s;
     pr_telemetry := telemetry_sequence s; pr_revision := revision; pr_current := current |}.

(** The first snapshot, and the variables before the loop. *)
Definition publisher_start : AM W Publisher :=
  p ← publish_snapshot 0;
  s ← gets (fun s => s);
  mret (publisher_with s 0 p).

Definition when_output (b : bool) (o : PublicOutput) : list PublicOutput := if b then [o] else [].

Definition state_changed (p : Publisher) (s : RuntimeActor W) : bool := negb (bool_decide (state_signature s = pr_state p)).
Definition health_changed (p : Publisher) (s : RuntimeActor W) : bool := negb (bool_decide (health s = pr_health p)).
Definition capabilities_changed (p : Publisher) (s : RuntimeActor W) : bool :=
  ba_capabilities_changed_pending (ra_barrier s) || negb (Bool.eqb (actor_read_only s) (pr_read_only p)).

Definition next_revision (p : Publisher) (s : RuntimeActor W) : Z :=
  if state_changed p s then sat_add (pr_revision p) 1 else pr_revision p.
Definition publishes (p : Publisher) (s : RuntimeActor W) : bool :=
  state_changed p s || health_changed p s || capabilities_changed p s || negb (telemetry_sequence s =? pr_telemetry p).

Definition turn_outputs (p : Publisher) (s : RuntimeActor W) (current : PublishedState) : list PublicOutput :=
  when_output (publishes p s) (Replaced current)
  ++ when_output (state_changed p s) (SentState (next_revision p s))
  ++ when_output (health_changed p s) (SentHealth (health s))
  ++ when_output (capabilities_changed p s) SentCapabilities.

(** [std::mem::take] of the pending flag *)
Definition take_capabilities (s : RuntimeActor W) : RuntimeActor W :=
  s <|ra_barrier->ba_capabilities_changed_pending := false|>.

Definition publish_turn (p : Publisher) : AM W (list PublicOutput * Publisher) :=
  s ← gets (fun s => s);
  modify take_capabilities;;
  current ← (if publishes p s then publish_snapshot (next_revision p s) else mret (pr_current p));
  mret (turn_outputs p s current, publisher_with s (next_revision p s) current).

Definition commands_closed (e : RuntimeEventIn) : bool := match e with InCommandsClosed => true | _ => false end.

(** [RuntimeActor::run], for the events it gets; closed channels end it without
    a publication. *)
Fixpoint owner_run (exp : f64 -> f64) (events : list RuntimeEventIn) (p : Publisher)
  : AM W (list PublicOutput * Publisher) :=
  match events with
  | [] => mret ([], p)
  | e :: events =>
      stopped ← gets (fun s => co_stop_requested (ra_control s));
      if stopped : bool then mret ([], p)
      else
        turn exp e;;
        if commands_closed e then mret ([], p)
        else
          '(out, p) ← publish_turn p;
          '(outs, p) ← owner_run exp events p;
          mret (out ++ outs, p)
  end.

(** ** What a snapshot shows *)

(** The two states cannot be told apart by what the loop compares. *)
Record alike (s s' : RuntimeActor W) : Prop := {
  al_signature : state_signature s = state_signature s';
  al_health : health s = health s';
  al_read_only : actor_read_only s = actor_read_only s';
  al_telemetry : telemetry_sequence s = telemetry_sequence s';
}.

Definition view (l : option FrequencyLimits) : bool * Z * Z :=
  (is_present l, lim_min (limits_or_zero l), lim_max (limits_or_zero l)).

(** The snapshot shows the state. *)
Record shows (p : PublishedState) (s : RuntimeActor W) : Prop := {
  sh_health : ds_health (ps_status p) = health s;
  sh_mode : ds_mode (ps_status p) = mode_name (co_mode (ra_control s));
  sh_profile : ds_effective_profile (ps_status p) = profile_name (published_profile s);
  sh_scene : ds_dominant_scene (ps_status p) = scene_name (published_scene s);
  sh_generation : ds_config_generation (ps_status p) = cf_config_generation (ra_config s);
  sh_thermal : ths_state (ds_thermal (ps_status p)) = ths_state (thermal_status s);
  sh_workload :
    let w := ds_active_workload (ps_status p) in
    (if aw_present w then Some (aw_identity w) else None) = identity <$> effective_workload s;
  sh_frequencies f :
    f ∈ ds_frequencies (ps_status p) ->
    (fs_desired_available f, fs_desired_min_hz f, fs_desired_max_hz f)
      = view (desired_part s dp_frequencies !! fs_target_id f)
    /\ (fs_applied_verified f, fs_applied_min_hz f, fs_applied_max_hz f)
      = view (ap_frequencies (ar_applied (ra_applied s)) !! fs_target_id f);
  sh_writable t : t ∈ ca_targets (ps_capabilities p) -> tc_can_override t = true -> actor_read_only s = false;
  sh_telemetry : ts_sequence (ps_telemetry p) = telemetry_sequence s;
}.

Lemma effective_identity (s : RuntimeActor W) :
  identity <$> effective_workload s = or_else (sg_active_workload (state_signature s)) (sg_focused_workload (state_signature s)).
Proof.
  unfold effective_workload. simpl. destruct (co_active_workload _); [done|]. simpl. by destruct (fs_focus_lease _).
Qed.

Lemma snapshot_shows (s s' : RuntimeActor W) revision now p :
  published_snapshot s' revision now = Ok p -> alike s' s -> shows p s.
Proof.
  unfold published_snapshot. intros (rules & _ & [= <-])%res_bind_Ok [Hs Hh Hr Ht].
  pose proof (effective_identity s') as Hw. rewrite Hs, <-effective_identity in Hw.
  pose proof (f_equal sg_desired_frequencies Hs) as Hd. pose proof (f_equal sg_applied_frequencies Hs) as Ha.
  simpl in Hd, Ha. constructor; simpl.
  - done.
  - by rewrite (f_equal sg_mode Hs : co_mode _ = co_mode _).
  - by rewrite (f_equal sg_effective_profile Hs : published_profile _ = published_profile _).
  - by rewrite (f_equal sg_dominant_scene Hs : published_scene _ = published_scene _).
  - exact (f_equal sg_config_generation Hs).
  - by rewrite (f_equal sg_thermal_state Hs : sn_thermal_state _ = sn_thermal_state _).
  - rewrite <-Hw. unfold api_active_workload. by destruct (effective_workload s').
  - intros f (id & -> & _)%list_elem_of_fmap. simpl. by rewrite <-Hd, <-Ha.
  - intros t (t' & -> & _)%list_elem_of_fmap. simpl. unfold writable. intros [_ Hn]%andb_true_iff.
    rewrite <-Hr. unfold actor_read_only. by apply negb_true_iff.
  - exact Ht.
Qed.

(** ** What a client is told *)

(** [StateProperties::capture] of a snapshot: the announced properties. *)
Definition properties_of (p : PublishedState) : StateProperties :=
  {| sp_config_generation := ds_config_generation (ps_status p);
     sp_mode := ds_mode (ps_status p);
     sp_effective_profile := ds_effective_profile (ps_status p);
     sp_dominant_scene := ds_dominant_scene (ps_status p) |}.

Definition signature_properties (g : RuntimeStateSignature) : StateProperties :=
  {| sp_config_generation := sg_config_generation g; sp_mode := mode_name (sg_mode g);
     sp_effective_profile := profile_name (sg_effective_profile g);
     sp_dominant_scene := scene_name (sg_dominant_scene g) |}.

Definition not_replaced (o : PublicOutput) : Prop := match o with Replaced _ => False | _ => True end.

(** From the snapshot that can be read, what happens next is sound: a change of
    the properties or of the health is announced before the next replacement,
    the properties at once, and what is announced can already be read. *)
Fixpoint announced (current : PublishedState) (outs : list PublicOutput) : Prop :=
  match outs with
  | [] => True
  | Replaced p :: outs =>
      (properties_of p = properties_of current \/ exists rest, outs = SentState (ps_state_revision p) :: rest)
      /\ (ds_health (ps_status p) = ds_health (ps_status current)
          \/ exists before rest, outs = before ++ SentHealth (ds_health (ps_status p)) :: rest /\ Forall not_replaced before)
      /\ announced p outs
  | SentState r :: outs => r = ps_state_revision current /\ announced current outs
  | SentHealth h :: outs => h = ds_health (ps_status current) /\ announced current outs
  | SentCapabilities :: outs => announced current outs
  end.

Definition latest (current : PublishedState) (outs : list PublicOutput) : PublishedState :=
  fold_left (fun c o => match o with Replaced p => p | _ => c end) outs current.

Lemma announced_outputs_app current l1 l2 :
  announced current l1 -> announced (latest current l1) l2 -> announced current (l1 ++ l2).
Proof.
  revert current. induction l1 as [|o l1 IH]; intros current H1 H2; [done|]. destruct o; simpl in *.
  - destruct H1 as (Hp & Hh & H1). split_and!; [|..|by apply IH].
    + destruct Hp as [|[rest ->]]; [by left|right; by exists (rest ++ l2)].
    + destruct Hh as [|(before & rest & -> & Hb)]; [by left|right]. exists before, (rest ++ l2). by rewrite <-app_assoc.
  - destruct H1 as [-> H1]. split; [done|by apply IH].
  - destruct H1 as [-> H1]. split; [done|by apply IH].
  - by apply IH.
Qed.

(** The snapshot was taken of some state with the remembered signature. *)
Definition publisher_inv (p : Publisher) : Prop :=
  exists s now, published_snapshot s (pr_revision p) now = Ok (pr_current p)
    /\ p = publisher_with s (pr_revision p) (pr_current p).

Lemma snapshot_properties (s : RuntimeActor W) revision now p :
  published_snapshot s revision now = Ok p ->
  properties_of p = signature_properties (state_signature s) /\ ds_health (ps_status p) = health s
  /\ ps_state_revision p = revision.
Proof. unfold published_snapshot. by intros (rules & _ & [= <-])%res_bind_Ok. Qed.

Lemma publish_snapshot_Some (s s' : RuntimeActor W) revision p :
  publish_snapshot revision s = (Some p, s') ->
  (exists now, published_snapshot s revision now = Ok p) /\ forall r c, publisher_with s' r c = publisher_with s r c.
Proof.
  cbv [publish_snapshot gets mbind AM_bind clock].
  destruct (monotonic_millis (st_world (ra_sys s))) as [now w]. destruct (published_snapshot s revision now) eqn:E; [|done..].
  intros [= <- <-]. split; [by exists now|]. intros r c. destruct s. reflexivity.
Qed.

Lemma take_capabilities_alike (s : RuntimeActor W) r c : publisher_with (take_capabilities s) r c = publisher_with s r c.
Proof. destruct s as [? ? ? ? ? ? ? ? b ? ? ? ? ? ?], b. reflexivity. Qed.

Lemma snapshot_take (s : RuntimeActor W) r now : published_snapshot (take_capabilities s) r now = published_snapshot s r now.
Proof. destruct s as [? ? ? ? ? ? ? ? b ? ? ? ? ? ?], b. reflexivity. Qed.

Lemma publish_turn_inv (p p' : Publisher) (s s' : RuntimeActor W) out :
  publish_turn p s = (Some (out, p'), s') ->
  out = turn_outputs p s (pr_current p') /\ p' = publisher_with s (next_revision p s) (pr_current p')
  /\ (forall r c, publisher_with s' r c = publisher_with s r c)
  /\ if publishes p s then exists now, published_snapshot s (next_revision p s) now = Ok (pr_current p')
     else pr_current p' = pr_current p.
Proof.
  cbv [publish_turn gets modify mbind AM_bind mret AM_ret].
  destruct (publishes p s) eqn:Hpub.
  - destruct (publish_snapshot _ _) as [[c|] s1] eqn:E; [|done]. intros [= <- <- <-].
    apply publish_snapshot_Some in E as [[now E] Hl]. split_and!; [done..| |].
    + intros r c'. by rewrite Hl, take_capabilities_alike.
    + exists now. by rewrite <-snapshot_take.
  - intros [= <- <- <-]. split_and!; [done..|apply take_capabilities_alike|done].
Qed.

Lemma not_publishing (p : Publisher) (s : RuntimeActor W) c :
  publishes p s = false -> p = publisher_with s (pr_revision p) c <-> pr_current p = c.
Proof.
  unfold publishes, state_changed, health_changed, capabilities_changed. rewrite !orb_false_iff, !negb_false_iff.
  intros [[[Hs%bool_decide_eq_true Hh%bool_decide_eq_true] [_ Hr%Bool.eqb_prop]] Ht%Z.eqb_eq].
  destruct p; unfold publisher_with; simpl in *. split; [by intros [=]|by intros ->; f_equal].
Qed.

Lemma announced_turn (p : Publisher) (s s0 : RuntimeActor W) now0 now c :
  p = publisher_with s0 (pr_revision p) (pr_current p) -> published_snapshot s0 (pr_revision p) now0 = Ok (pr_current p) ->
  published_snapshot s (next_revision p s) now = Ok c -> publishes p s = true ->
  announced (pr_current p) (turn_outputs p s c).
Proof.
  intros Hp (Hp0 & Hh0 & _)%snapshot_properties (Hpc & Hhc & Hrc)%snapshot_properties Hpub.
  assert (Hst : pr_state p = state_signature s0) by (rewrite Hp; done).
  assert (Hhe : pr_health p = health s0) by (rewrite Hp; done).
  unfold turn_outputs. rewrite Hpub. simpl. split_and!.
  - unfold state_changed. case_bool_decide as E; simpl; [left; congruence|right]. rewrite Hrc. eauto.
  - unfold health_changed. case_bool_decide as E; simpl; [left; congruence|right].
    exists (when_output (state_changed p s) (SentState (next_revision p s))). rewrite Hhc. eexists. split; [done|].
    by destruct (state_changed p s); repeat constructor.
  - destruct (state_changed p s), (health_changed p s), (capabilities_changed p s); simpl; rewrite ?Hrc, ?Hhc; done.
Qed.

Lemma publish_turn_spec (p p' : Publisher) (s s' : RuntimeActor W) out :
  publisher_inv p -> publish_turn p s = (Some (out, p'), s') ->
  publisher_inv p' /\ p' = publisher_with s' (pr_revision p') (pr_current p')
  /\ announced (pr_current p) out /\ latest (pr_current p) out = pr_current p'.
Proof.
  intros (s0 & now0 & Hsnap & Hp) (-> & Hp' & Hl & Hcur)%publish_turn_inv.
  assert (Hr' : pr_revision p' = next_revision p s) by (rewrite Hp'; done).
  destruct (publishes p s) eqn:Hpub.
  - destruct Hcur as [now Hcur]. split_and!.
    + exists s, now. by rewrite Hr'.
    + by rewrite Hl, Hr'.
    + by eapply announced_turn.
    + unfold turn_outputs. rewrite Hpub. by destruct (state_changed p s), (health_changed p s), (capabilities_changed p s).
  - pose proof Hpub as (((Hst & Hhe)%orb_false_iff & Hca)%orb_false_iff & _)%orb_false_iff.
    assert (Hn : next_revision p s = pr_revision p) by (unfold next_revision; by rewrite Hst).
    assert (p' = p) as ->.
    { rewrite Hp', Hn, Hcur. symmetry. by apply not_publishing. }
    split_and!; [by exists s0, now0| |..].
    + rewrite Hl. by apply not_publishing.
    + unfold turn_outputs. by rewrite Hpub, Hst, Hhe, Hca.
    + unfold turn_outputs. by rewrite Hpub, Hst, Hhe, Hca.
Qed.

Definition current_with (p : Publisher) (s : RuntimeActor W) : Prop := p = publisher_with s (pr_revision p) (pr_current p).

Lemma commands_closed_turn exp e (s s' : RuntimeActor W) r c :
  commands_closed e = true -> turn exp e s = (Some tt, s') -> publisher_with s' r c = publisher_with s r c.
Proof. destruct e; try done. intros _ [= <-]. destruct s as [? b ? ? ? ? ? ? ? ? ? ? ? ? ?], b. reflexivity. Qed.

Lemma owner_run_spec exp events (p p' : Publisher) (s s' : RuntimeActor W) outs :
  publisher_inv p -> current_with p s -> owner_run exp events p s = (Some (outs, p'), s') ->
  publisher_inv p' /\ current_with p' s' /\ announced (pr_current p) outs.
Proof.
  revert p s outs. induction events as [|e events IH]; intros p s outs Hi Hc; cbn [owner_run].
  - by intros [= <- <- <-].
  - cbv [gets mbind AM_bind mret AM_ret]. destruct (co_stop_requested _); [by intros [= <- <- <-]|].
    destruct (turn exp e s) as [[[]|] s1] eqn:Ht; [|done].
    destruct (commands_closed e) eqn:He.
    + intros [= <- <- <-]. split_and!; [done| |done]. unfold current_with.
      by rewrite (commands_closed_turn _ _ _ _ _ _ He Ht).
    + destruct (publish_turn p s1) as [[[out p1]|] s2] eqn:Hp; [|done].
      destruct (publish_turn_spec _ _ _ _ _ Hi Hp) as (Hi1 & Hc1 & Ha1 & Hl1).
      destruct (owner_run exp events p1 s2) as [[[outs1 p2]|] s3] eqn:Hr; [|done]. intros [= <- <- <-].
      destruct (IH _ _ _ Hi1 Hc1 Hr) as (? & ? & Ha2). split_and!; [done..|].
      apply announced_outputs_app; [done|by rewrite Hl1].
Qed.
End published.

(** C23: The published snapshot shows the state owner's present state, after
    every turn: its health, mode, profile, scene, configuration generation,
    thermal state, effective workload, and for every target it lists the desired
    and the applied pair; it calls a target writable only while mutation is
    possible. No change of the announced properties or of the health is silent,
    the former being announced before anything else; and what an announcement
    says can already be read when it is sent. *)
Theorem published_state_coherent `{!Ports W, !Environment W, !IdentityReader W, RegexEngine}
    version scalar_json exp events (s0 s1 s : RuntimeActor W) p0 outs p :
  publisher_start version scalar_json s0 = (Some p0, s1) ->
  owner_run version scalar_json exp events p0 s1 = (Some (outs, p), s) ->
  shows (pr_current p) s /\ announced (pr_current p0) outs.
Proof.
  cbv [publisher_start gets mbind AM_bind mret AM_ret].
  destruct (publish_snapshot _ _ _ _) as [[c|] s2] eqn:E; [|done]. intros [= <- <-] Hr.
  apply publish_snapshot_Some in E as [[now E] Hl].
  assert (Hi : publisher_inv version scalar_json (publisher_with s2 0 c)) by (exists s0, now; exact (conj E (Hl 0 c))).
  destruct (owner_run_spec version scalar_json exp events _ p s2 s outs Hi eq_refl Hr) as ((s' & now' & Hs & Hp) & Hc & Ha).
  split; [|done]. apply (snapshot_shows version scalar_json s s' _ _ _ Hs).
  unfold current_with in Hc. rewrite Hc in Hp. symmetry in Hp.
  constructor; [exact (f_equal pr_state Hp)|exact (f_equal pr_health Hp)|exact (f_equal pr_read_only Hp)|exact (f_equal pr_telemetry Hp)].
Qed.

(** ** What the published capabilities promise *)

Section promises.
Context {W : Type} `{!Ports W} `{!Environment W} `{!IdentityReader W} `{RegexEngine}.

(** The override as the daemon keeps it, and what it still does then. *)
Definition with_override (r : FrequencyOverride) (now : MonotonicMillis) (s : RuntimeActor W) : RuntimeActor W :=
  s <|ra_control->co_overrides ::= <[fo_target_id r := (installed now r).2]>|>.

Definition after_override (r : FrequencyOverride) : AM W (rt_result MutationReceipt) :=
  bump_generation;;
  evaluate_and_reconcile;;
  receipt_now [[PText (fo_target_id r)]] "frequency override batch accepted".

Lemma require_target_runtime (s : RuntimeActor W) id t :
  require_target (runtime_capabilities s) id = Ok t ->
  exists t0, require_target (capabilities (cf_configuration (ra_config s))) id = Ok t0
             /\ t = t0 <|tc_can_override := writable s|>.
Proof.
  unfold require_target. cbn [runtime_capabilities ca_targets].
  intros Hf%ok_or_Ok. induction (ca_targets _) as [|t0 l IH]; [done|]. csimpl in Hf.
  destruct t0 as [id0 kind label cpus lo hi available can]. cbn in Hf |- *.
  destruct (bool_decide (id0 = id)); [|by apply IH]. injection Hf as <-. by eexists.
Qed.

Lemma advertised_writable (s : RuntimeActor W) target_id minimum maximum ttl reason r :
  frequency_request (runtime_capabilities s) target_id minimum maximum ttl reason = Ok r ->
  writable s = true
  /\ exists t, within (capabilities (cf_configuration (ra_config s))) r t.
Proof.
  intros Hr. pose proof Hr as (Hid & _ & t & [Ht Hi Hmin Hmax])%frequency_request_within.
  revert Hr. unfold frequency_request. intros (t1 & (t0 & Hr0 & ->)%require_target_runtime & (u & Hw%reject_if_Ok & _)%res_bind_Ok)%res_bind_Ok.
  split; [by apply negb_false_iff in Hw|].
  apply list_elem_of_fmap in Ht as (t2 & -> & Ht2). exists t2. by constructor.
Qed.

(** C22: What the daemon publishes it keeps. When [frequency set] reads a request
    under the capabilities of the present snapshot, of a daemon whose
    configuration was loaded and whose thermal data is trusted, and the client
    lets it pass, then what is sent is that request alone, and the command of
    the state owner installs exactly the requested window under the requested
    target with the requested lifetime, evaluates, and answers that it was
    accepted: none of its refusals is taken. *)
Theorem advertised_override_installed device policy apps warnings d (s : RuntimeActor W)
    target_id minimum maximum ttl reason r call :
  DaemonConfig.load device policy apps warnings d = Ok (cf_configuration (ra_config s)) ->
  sn_thermal_state (ra_sensing s) <> Degraded ->
  frequency_request (runtime_capabilities s) target_id minimum maximum ttl reason = Ok r ->
  checked_call (CallSetFrequencyOverrides [r]) = inr call ->
  call = SetFrequencyOverrides [r] /\ fo_target_id r = target_id
  /\ exists now s', clock s = (Some now, s')
     /\ command_set_overrides [r] s = after_override r (with_override r now s').
Proof.
  intros Hl Hd Hr Hc. destruct (advertised_writable _ _ _ _ _ _ _ Hr) as [Hw Hin].
  apply frequency_request_within in Hr as (Hid & _ & _). unfold checked_call, or_return in Hc.
  destruct (validate_frequency_overrides [r]) as [e|[]] eqn:Hv; [done|]. injection Hc as <-.
  split; [done|]. split; [done|].
  pose proof (fun now => checked_batch_accepted _ _ _ _ _ _ now [r] Hl Hv (proj2 (Forall_singleton _ _) Hin)) as Hp.
  unfold writable in Hw. apply andb_true_iff in Hw as [Ha Hro%negb_true_iff].
  cbv [command_set_overrides gets mbind AM_bind]. rewrite decide_False by done. rewrite decide_False by done.
  unfold require_writable_actuator. rewrite Hro. destruct (cf_actuator (ra_config s)); [|done]. cbn [negb].
  destruct (clock s) as [[now|] s'] eqn:Hclock; [|by unfold clock in Hclock; destruct (monotonic_millis _)].
  exists now, s'. split; [done|]. rewrite Hp. reflexivity.
Qed.
End promises.

(** A daemon with two clusters, on the simulated machine, that trusts its
    sensors. *)
Definition promising (cfg : ResolvedConfiguration) : RuntimeActor SimWorld :=
  (initial_actor cfg (Some sim_actuator) sim_start) <|ra_sensing->sn_thermal_state := Thermal.Normal|>.

Definition promise_reads (loaded : res ResolvedConfiguration text) : Prop :=
  match loaded with
  | Ok cfg => frequency_request (runtime_capabilities (promising cfg)) "cpu.big" "300" "0.9kHz" (Some "10m") "test" = Ok tool_window
  | _ => False
  end.

Lemma advertised_override_installed_witness :
  exists cfg now s',
    tool_load = Ok cfg /\ command_set_overrides [tool_window] (promising cfg) = after_override tool_window (with_override tool_window now s').
Proof.
  assert (Hr : promise_reads tool_load) by (vm_compute; reflexivity).
  destruct tool_load as [cfg|e|] eqn:Hl; [|destruct Hr..].
  assert (Hc : cf_configuration (ra_config (promising cfg)) = cfg).
  { unfold promising, initial_actor. by destruct (actuator_health_snapshot _ _). }
  assert (Ht : sn_thermal_state (ra_sensing (promising cfg)) <> Degraded).
  { unfold promising, initial_actor. by destruct (actuator_health_snapshot _ _). }
  destruct (proj2 (proj2 (advertised_override_installed tool_device wit_policy_config
    {| apps_schema_version := 2; apps_rules := [] |} [] tool_discovery (promising cfg) _ _ _ _ _ tool_window _
    (eq_trans Hl (f_equal Ok (eq_sym Hc))) Ht Hr eq_refl))) as (now & s' & _ & Hs).
  exists cfg, now, s'. split; [reflexivity|exact Hs].
Defined.
