(* ===== verification/RuntimeProtocol.v ===== *)
(** * The protocol between the state owner and its workers

    An abstract specification of [uperf-daemon/src/runtime.rs]: of the state
    owner only the lanes, the barriers, the safety updates and the channels
    remain, and its handlers are sequences of the [move]s it may make. The
    invariant is proved on the moves; [RuntimeRefines.v] shows that every
    handler of the detailed model is such a sequence. *)

From coqutil Require Import Datatypes.RecordSetters.
From S2P Require Import Prelude Float64 Domain Text Scene Thermal ConfigTypes Validate ActuatorTypes Journal Ports DaemonTypes DaemonConfig Reconcile RuntimeTypes RuntimeObservers RuntimeBarriers.

Section protocol.
Context `{RegexEngine}.

Record Proto := {
  pr_lanes : LaneState;
  pr_barrier : BarrierState;
  pr_safety : SafetyState;
  pr_channels : Channels;
  pr_accepting : bool;
  pr_activated : bool;
  pr_latched : bool;
  pr_read_only : bool;
  pr_actuator : option Actuator;
  pr_signature : TargetSignature;
  (* the thermal state, the caps it asks for, and the targets it caps *)
  pr_thermal : ThermalState;
  pr_thermal_caps : gmap string Hertz;
  pr_targets : gmap string ResolvedTarget;
  pr_safety_failed : bool;
  (* the actuator's own state, without the machine under it *)
  pr_system : St unit;
}.

Definition blocked (p : Proto) : bool :=
  let b := pr_barrier p in
  ba_suspended b
  || negb (pr_activated p)
  || negb (pr_accepting p)
  || ba_restore_requested b
  || bool_decide (is_Some (ba_restore_in_flight b))
  || (if ba_pending_reload b then true else false)
  || bool_decide (is_Some (sf_update_in_flight (pr_safety p)))
  || bool_decide (is_Some (sf_pending_upper_caps (pr_safety p))).

(** What a submission needs. *)
Definition open_for_work (p : Proto) : Prop :=
  blocked p = false /\ is_Some (pr_actuator p) /\ pr_read_only p = false.

Definition barrier_requested (p : Proto) : Prop :=
  ba_restore_requested (pr_barrier p) = true \/ is_Some (ba_pending_reload (pr_barrier p)).

(** No mutation is queued, running or awaiting its result. *)
Definition idle (p : Proto) : Prop :=
  ln_frequency_quiesced (pr_lanes p) = true /\ ln_frequency_command_pending (pr_lanes p) = None
  /\ ln_scheduler_in_flight (pr_lanes p) = None.

Definition next_id (p : Proto) : Z := sat_add (ln_next_frequency_command_id (pr_lanes p)) 1.

Definition signature_of (r : rt_result ResolvedConfiguration) : option TargetSignature :=
  match r with inr c => Some (target_signature c) | inl _ => None end.

(** ** Moves *)

(** Changes no part of the protocol depends on. *)
Inductive quiet_move : Proto -> Proto -> Prop :=
| mv_dirty p b : quiet_move p (p <|pr_lanes->ln_scheduler_dirty := b|>)
| mv_last_check p t : quiet_move p (p <|pr_lanes->ln_last_workload_check := t|>)
| mv_last_scan p t : quiet_move p (p <|pr_lanes->ln_last_scheduler_scan := t|>)
| mv_not_pending p : quiet_move p (p <|pr_lanes->ln_scheduler_pending := false|>)
| mv_identity_reads p l : quiet_move p (p <|pr_channels->ch_identity_reads := l|>)
| mv_app_persist p b : quiet_move p (p <|pr_barrier->ba_app_persist_in_flight := b|>)
| mv_app_channel p l : quiet_move p (p <|pr_channels->ch_app_persistence := l|>)
| mv_capabilities p b : quiet_move p (p <|pr_barrier->ba_capabilities_changed_pending := b|>)
| mv_pending_resume p b : quiet_move p (p <|pr_barrier->ba_pending_resume := b|>)
| mv_wake_waiters p l : quiet_move p (p <|pr_barrier->ba_wake_waiters := l|>)
| mv_sleep_waiters p l : quiet_move p (p <|pr_barrier->ba_sleep_waiters := l|>)
| mv_stop_waiters p l : quiet_move p (p <|pr_barrier->ba_stop_waiters := l|>)
| mv_activate p : quiet_move p (p <|pr_activated := true|>)
| mv_close p : quiet_move p (p <|pr_accepting := false|>)
| mv_request_restore p : quiet_move p (p <|pr_barrier->ba_restore_requested := true|>)
| mv_suspend p :
    quiet_move p (p <|pr_barrier->ba_suspended := true|>
                    <|pr_barrier->ba_restored_while_suspended := false|>)
| mv_not_restored p : quiet_move p (p <|pr_barrier->ba_restored_while_suspended := false|>)
| mv_resume p : quiet_move p (p <|pr_barrier->ba_suspended := false|>).

Definition latch (p : Proto) : Proto := p <|pr_latched := true|> <|pr_read_only := true|>.

Definition submit_scheduler (job : ReconcileJob) (p : Proto) : Proto :=
  let id := sat_add (ln_next_scheduler_id (pr_lanes p)) 1 in
  p <|pr_lanes->ln_next_scheduler_id := id|>
    <|pr_lanes->ln_scheduler_in_flight := Some id|>
    <|pr_lanes->ln_scheduler_pending := false|>
    <|pr_channels->ch_schedulers ::= (fun l => l ++ [(id, job)])|>.

(** The fence: one update is in flight at a time, and the caps asked for
    meanwhile wait for it. *)
Definition start_update (caps : gmap string Hertz) (p : Proto) : Proto :=
  let id := sat_add (sf_next_update_id (pr_safety p)) 1 in
  p <|pr_safety->sf_next_update_id := id|>
    <|pr_safety->sf_update_in_flight := Some id|>
    <|pr_channels->ch_safety_updates ::= (fun l => l ++ [(id, caps)])|>.

Definition request_caps (caps : gmap string Hertz) (p : Proto) : Proto :=
  if pr_safety_failed p || bool_decide (caps = sf_requested_upper_caps (pr_safety p)) then p
  else
    let q := p <|pr_safety->sf_requested_upper_caps := caps|> in
    if bool_decide (is_Some (sf_update_in_flight (pr_safety p)))
    then q <|pr_safety->sf_pending_upper_caps := Some caps|>
    else start_update caps q.

(** The caps of a thermal state, alone and with the administrator's. *)
Definition caps_for (state : ThermalState) (targets : gmap string ResolvedTarget) : gmap string Hertz :=
  omap (thermal_cap_of state) targets.
Definition fence_for (thermal_caps : gmap string Hertz) (targets : gmap string ResolvedTarget)
  : gmap string Hertz := upper_caps_of (omap rt_administrator_cap targets) thermal_caps.

Definition set_thermal (state : ThermalState) (targets : gmap string ResolvedTarget) (p : Proto)
  : Proto :=
  let caps := caps_for state targets in
  request_caps (fence_for caps targets)
    (p <|pr_thermal := state|> <|pr_thermal_caps := caps|> <|pr_targets := targets|>).

Inductive move : Proto -> Proto -> Prop :=
| mv_quiet p q : quiet_move p q -> move p q
(* a worker with unknown progress; the health of the actuator *)
| mv_latch p : move p (latch p)
| mv_read_only p b : (pr_latched p = true -> b = true) -> move p (p <|pr_read_only := b|>)
(* submission *)
| mv_submit_frequency p work intent :
    open_for_work p -> ch_frequency_closed (pr_channels p) = false ->
    move p (p <|pr_channels->ch_frequency_command := Some (FwReconcile (next_id p) work)|>
              <|pr_lanes->ln_next_frequency_command_id := next_id p|>
              <|pr_lanes->ln_frequency_command_pending := Some (next_id p)|>
              <|pr_lanes->ln_frequency_quiesce_pending := None|>
              <|pr_lanes->ln_frequency_quiesced := false|>
              <|pr_lanes->ln_frequency_requested := intent|>)
(* the worker is gone: the latch engages, but a scheduler request of the same
   evaluation is still submitted *)
| mv_submit_closed p :
    open_for_work p -> ch_frequency_closed (pr_channels p) = true ->
    move p (latch (p <|pr_lanes->ln_next_frequency_command_id := next_id p|>))
| mv_submit_closed_scheduler p job :
    open_for_work p -> ch_frequency_closed (pr_channels p) = true ->
    ln_scheduler_in_flight (pr_lanes p) = None ->
    move p (submit_scheduler job (latch (p <|pr_lanes->ln_next_frequency_command_id := next_id p|>)))
| mv_submit_closed_pending p :
    open_for_work p -> ch_frequency_closed (pr_channels p) = true ->
    is_Some (ln_scheduler_in_flight (pr_lanes p)) ->
    move p (latch (p <|pr_lanes->ln_next_frequency_command_id := next_id p|>
                     <|pr_lanes->ln_scheduler_pending := true|>))
| mv_submit_scheduler p job :
    open_for_work p -> ln_scheduler_in_flight (pr_lanes p) = None ->
    move p (submit_scheduler job p)
| mv_scheduler_pending p :
    open_for_work p -> is_Some (ln_scheduler_in_flight (pr_lanes p)) ->
    move p (p <|pr_lanes->ln_scheduler_pending := true|>)
(* the safety fence *)
| mv_thermal p state targets : move p (set_thermal state targets p)
(* the barrier *)
| mv_quiesce p :
    barrier_requested p -> ln_frequency_quiesced (pr_lanes p) = false ->
    ln_frequency_quiesce_pending (pr_lanes p) = None -> ch_frequency_closed (pr_channels p) = false ->
    move p (p <|pr_channels->ch_frequency_command := Some (FwQuiesce (next_id p))|>
              <|pr_lanes->ln_next_frequency_command_id := next_id p|>
              <|pr_lanes->ln_frequency_command_pending := Some (next_id p)|>
              <|pr_lanes->ln_frequency_quiesce_pending := Some (next_id p)|>
              <|pr_lanes->ln_frequency_requested := None|>)
| mv_quiesce_closed p :
    ch_frequency_closed (pr_channels p) = true ->
    move p (latch (p <|pr_lanes->ln_next_frequency_command_id := next_id p|>
                     <|pr_lanes->ln_frequency_command_pending := None|>
                     <|pr_lanes->ln_frequency_requested := None|>
                     <|pr_lanes->ln_frequency_quiesced := true|>))
| mv_restore p :
    idle p -> ba_restore_in_flight (pr_barrier p) = None -> ba_restore_requested (pr_barrier p) = true ->
    move p (p <|pr_barrier->ba_restore_requested := false|>
              <|pr_barrier->ba_next_restore_id := sat_add (ba_next_restore_id (pr_barrier p)) 1|>
              <|pr_barrier->ba_restore_in_flight := Some (sat_add (ba_next_restore_id (pr_barrier p)) 1)|>
              <|pr_channels->ch_restores ::=
                  (fun l => l ++ [sat_add (ba_next_restore_id (pr_barrier p)) 1])|>)
(* reload *)
| mv_start_reload p reply :
    ba_reload_in_flight (pr_barrier p) = false ->
    move p (p <|pr_barrier->ba_reload_in_flight := true|>
              <|pr_channels->ch_reloads ::= (fun l => l ++ [reply])|>)
| mv_take_reload p outcome :
    idle p -> ba_restore_in_flight (pr_barrier p) = None -> ba_restore_requested (pr_barrier p) = false ->
    ba_pending_reload (pr_barrier p) = Some outcome ->
    move p (p <|pr_barrier->ba_pending_reload := None|>
              <|pr_barrier->ba_reload_in_flight := false|>).

(** ** What the state owner does at once with a result it takes *)

Definition release_frequency (p : Proto) : Proto :=
  p <|pr_lanes->ln_frequency_command_pending := None|>
    <|pr_lanes->ln_frequency_requested := None|>.

Definition quiesce_frequency (p : Proto) : Proto :=
  p <|pr_lanes->ln_frequency_command_pending := None|>
    <|pr_lanes->ln_frequency_quiesce_pending := None|>
    <|pr_lanes->ln_frequency_requested := None|>
    <|pr_lanes->ln_frequency_quiesced := true|>.

(** A result that answers no outstanding command. *)
Definition unexpected (e : FrequencyWorkerEvent) (p : Proto) : bool :=
  let ln := pr_lanes p in
  match e with
  | FwReconciled id _ _ => negb (is_some_and (ln_frequency_command_pending ln) (fun w => id <=? w))
  | FwQuiesced id =>
      negb (bool_decide (ln_frequency_quiesce_pending ln = Some id))
      || negb (bool_decide (ln_frequency_command_pending ln = Some id))
  | FwFailed _ => false
  end.

Definition take_frequency (e : FrequencyWorkerEvent) (p : Proto) : Proto :=
  if unexpected e p then p
  else
    match e with
    | FwReconciled id _ _ =>
        if bool_decide (ln_frequency_command_pending (pr_lanes p) = Some id)
        then release_frequency p else p
    | FwQuiesced _ | FwFailed _ => quiesce_frequency p
    end.

Definition take_scheduler (p : Proto) : Proto :=
  p <|pr_lanes->ln_scheduler_in_flight := None|> <|pr_lanes->ln_scheduler_pending := false|>.

Definition take_restore (restored : bool) (p : Proto) : Proto :=
  p <|pr_barrier->ba_restore_in_flight := None|>
    <|pr_barrier->ba_restored_while_suspended := restored|>.

(** The fence took the caps, and the ones that wait are next; or it failed. *)
Definition take_update (ok : bool) (p : Proto) : Proto :=
  let q := p <|pr_safety->sf_update_in_flight := None|> <|pr_safety->sf_pending_upper_caps := None|> in
  if ok then
    match sf_pending_upper_caps (pr_safety p) with
    | Some caps => start_update caps q
    | None => q
    end
  else latch (q <|pr_safety_failed := true|>).

(** A reload result is refused, or waits for the barrier. *)
Definition take_reload_result (pending : option ReloadOutcome) (p : Proto) : Proto :=
  match pending with
  | None => p <|pr_barrier->ba_reload_in_flight := false|>
  | Some outcome => p <|pr_barrier->ba_pending_reload := Some outcome|>
  end.

(** ** The workers' side *)

Record Outside := {
  o_running : option FrequencyWorkerCommand;
  o_frequency : list FrequencyWorkerEvent;
  o_scheduler : list SchedulerWorkerOutcome;
  o_restore : list RestoreOutcome;
  o_safety : list FrequencySafetyOutcome;
  o_reload : list ReloadOutcome;
  o_fence : FrequencySafetyFence;
}.

(** A command and its event carry the same ticket; the flag marks a quiesce. *)
Definition command_ticket (c : FrequencyWorkerCommand) : Z * bool :=
  match c with FwReconcile id _ => (id, false) | FwQuiesce id => (id, true) end.
Definition event_ticket (e : FrequencyWorkerEvent) : list (Z * bool) :=
  match e with
  | FwReconciled id _ _ => [(id, false)]
  | FwQuiesced id => [(id, true)]
  | FwFailed _ => []
  end.

Definition in_worker (o : Outside) : list (Z * bool) :=
  (o_frequency o ≫= event_ticket) ++ option_list (command_ticket <$> o_running o).
Definition outstanding (o : Outside) (p : Proto) : list (Z * bool) :=
  in_worker o ++ option_list (command_ticket <$> ch_frequency_command (pr_channels p)).

Definition is_failed (e : FrequencyWorkerEvent) : bool := match e with FwFailed _ => true | _ => false end.

(** ** Steps of the state owner and its workers *)

Inductive step : Outside * Proto -> Outside * Proto -> Prop :=
| st_move o p q : move p q -> step (o, p) (o, q)
(* the state owner takes a result *)
| st_take_frequency o p e l :
    o_frequency o = e :: l -> step (o, p) (o <|o_frequency := l|>, take_frequency e p)
| st_take_scheduler o p e l :
    o_scheduler o = e :: l -> step (o, p) (o <|o_scheduler := l|>, take_scheduler p)
| st_take_restore o p e l restored :
    o_restore o = e :: l -> (restored = true -> rs_result e = inr tt) ->
    step (o, p) (o <|o_restore := l|>, take_restore restored p)
| st_take_update o p e l ok :
    o_safety o = e :: l -> (ok = true -> fso_result e = inr tt) ->
    step (o, p) (o <|o_safety := l|>, take_update ok p)
| st_take_reload o p e l pending :
    o_reload o = e :: l ->
    (forall outcome, pending = Some outcome ->
       signature_of (ro_result outcome) = Some (pr_signature p)) ->
    step (o, p) (o <|o_reload := l|>, take_reload_result pending p)
(* the frequency worker takes a command, answers it, or dies; what it does to
   the machine meanwhile is its own affair *)
| st_worker_start o p c :
    o_running o = None -> ch_frequency_command (pr_channels p) = Some c ->
    step (o, p) (o <|o_running := Some c|>, p <|pr_channels->ch_frequency_command := None|>)
| st_worker_answer o p c e sys :
    o_running o = Some c -> event_ticket e = [command_ticket c] ->
    step (o, p) (o <|o_running := None|> <|o_frequency ::= (fun l => l ++ [e])|>,
                 p <|pr_system := sys|>)
| st_worker_dies o p error sys fence :
    ch_frequency_closed (pr_channels p) = false -> (o_running o = None -> sys = pr_system p) ->
    ff_envelope fence = ff_envelope (o_fence o) ->
    step (o, p) (o <|o_fence := fence|> <|o_running := None|> <|o_frequency ::= (fun l => l ++ [FwFailed error])|>,
                 p <|pr_system := sys|>
                   <|pr_channels->ch_frequency_command := None|>
                   <|pr_channels->ch_frequency_closed := true|>)
(* the tasks that run once *)
| st_scheduler_done o p id job l outcome sys :
    ch_schedulers (pr_channels p) = (id, job) :: l -> sw_id outcome = id ->
    step (o, p) (o <|o_scheduler ::= (fun r => r ++ [outcome])|>,
                 p <|pr_system := sys|> <|pr_channels->ch_schedulers := l|>)
| st_restore_done o p id l outcome sys :
    ch_restores (pr_channels p) = id :: l -> rs_id outcome = id ->
    (* it takes nothing, and gives everything back when it succeeds *)
    (journal_is_empty (rt_journal (st_rt (pr_system p))) = true ->
     journal_is_empty (rt_journal (st_rt sys)) = true) ->
    (rs_result outcome = inr tt -> is_Some (pr_actuator p) ->
     journal_is_empty (rt_journal (st_rt sys)) = true) ->
    step (o, p) (o <|o_restore ::= (fun r => r ++ [outcome])|>,
                 p <|pr_system := sys|> <|pr_channels->ch_restores := l|>)
| st_update_done o p id caps l outcome fence :
    ch_safety_updates (pr_channels p) = (id, caps) :: l -> fso_id outcome = id ->
    (fso_result outcome = inr tt -> env_upper_caps (ff_envelope fence) = caps) ->
    step (o, p) (o <|o_fence := fence|> <|o_safety ::= (fun r => r ++ [outcome])|>, p <|pr_channels->ch_safety_updates := l|>)
| st_reload_done o p reply l outcome :
    ch_reloads (pr_channels p) = reply :: l ->
    step (o, p) (o <|o_reload ::= (fun r => r ++ [outcome])|>, p <|pr_channels->ch_reloads := l|>).

(** ** The invariant *)

(** The frequency lane, from its outstanding tickets: they are answered in
    order, the last is the one awaited, and nothing follows a quiesce. *)
Record lane_inv (tickets : list (Z * bool)) (next : Z) (pending quiesce : option Z)
    (quiesced : bool) : Prop := {
  li_sorted : StronglySorted Z.lt tickets.*1;
  li_bounded : Forall (fun t => t.1 <= next) tickets;
  li_pending : pending = fst <$> last tickets;
  li_flagged : Forall (fun t => t.2 = true -> quiesce = Some t.1 /\ pending = Some t.1) tickets;
  li_quiesce : forall q, quiesce = Some q -> (q, true) ∈ tickets;
  li_quiesced : quiesced = true -> pending = None;
}.

Definition waiting_reload (p : Proto) : nat := if ba_pending_reload (pr_barrier p) then 1%nat else 0%nat.

(** The actuator holds nothing to give back. *)
Definition owns_nothing (p : Proto) : Prop :=
  is_Some (pr_actuator p) -> journal_is_empty (rt_journal (st_rt (pr_system p))) = true.

Definition fence_caps (o : Outside) : gmap string Hertz := env_upper_caps (ff_envelope (o_fence o)).

(** The fence holds what was asked for last, or is on its way there. *)
Definition fence_tracks (o : Outside) (p : Proto) : Prop :=
  let sf := pr_safety p in
  match sf_update_in_flight sf, sf_pending_upper_caps sf with
  | None, pending => pending = None /\ fence_caps o = sf_requested_upper_caps sf
  | Some _, Some caps => caps = sf_requested_upper_caps sf
  | Some _, None =>
      Forall (fun u => u.2 = sf_requested_upper_caps sf) (ch_safety_updates (pr_channels p))
      /\ Forall (fun e => fso_result e = inr tt -> fence_caps o = sf_requested_upper_caps sf) (o_safety o)
  end.

(** What was asked for last is what the thermal state asks for now. *)
Definition thermal_current (p : Proto) : Prop :=
  pr_thermal_caps p = caps_for (pr_thermal p) (pr_targets p)
  /\ (pr_safety_failed p = false ->
      sf_requested_upper_caps (pr_safety p) = fence_for (pr_thermal_caps p) (pr_targets p)).

Record coherent (o : Outside) (p : Proto) : Prop := {
  co_lane :
    ch_frequency_closed (pr_channels p) = false ->
    Forall (fun e => is_failed e = false) (o_frequency o)
    /\ lane_inv (outstanding o p) (ln_next_frequency_command_id (pr_lanes p))
         (ln_frequency_command_pending (pr_lanes p)) (ln_frequency_quiesce_pending (pr_lanes p))
         (ln_frequency_quiesced (pr_lanes p));
  co_barrier :
    ch_frequency_closed (pr_channels p) = false ->
    is_Some (ln_frequency_quiesce_pending (pr_lanes p)) -> barrier_requested p;
  co_closed :
    ch_frequency_closed (pr_channels p) = true ->
    o_running o = None /\ ch_frequency_command (pr_channels p) = None;
  co_scheduler :
    (ch_schedulers (pr_channels p)).*1 ++ (sw_id <$> o_scheduler o)
    = option_list (ln_scheduler_in_flight (pr_lanes p));
  co_restore :
    ch_restores (pr_channels p) ++ (rs_id <$> o_restore o)
    = option_list (ba_restore_in_flight (pr_barrier p));
  co_update :
    (ch_safety_updates (pr_channels p)).*1 ++ (fso_id <$> o_safety o)
    = option_list (sf_update_in_flight (pr_safety p));
  co_reload :
    (length (ch_reloads (pr_channels p)) + length (o_reload o) + waiting_reload p
     = if ba_reload_in_flight (pr_barrier p) then 1 else 0)%nat;
  co_candidate :
    forall outcome, ba_pending_reload (pr_barrier p) = Some outcome ->
    signature_of (ro_result outcome) = Some (pr_signature p);
  co_restoring : is_Some (ba_restore_in_flight (pr_barrier p)) -> idle p;
  co_suspended :
    ba_suspended (pr_barrier p) = true -> ba_restored_while_suspended (pr_barrier p) = true ->
    idle p;
  co_latched : pr_latched p = true -> pr_read_only p = true;
  co_given_back : Forall (fun e => rs_result e = inr tt -> owns_nothing p) (o_restore o);
  co_asleep :
    ba_suspended (pr_barrier p) = true -> ba_restored_while_suspended (pr_barrier p) = true ->
    owns_nothing p;
  co_fence : pr_safety_failed p = false -> fence_tracks o p;
}.

(** Command identifiers have not run out: [u64] counters saturate. *)
Definition fresh (p : Proto) : Prop := ln_next_frequency_command_id (pr_lanes p) < u64_max.

Definition Inv (s : Outside * Proto) : Prop := fresh s.2 -> coherent s.1 s.2.
End protocol.
