(* ===== verification/ProtocolFacts.v ===== *)
(** * The invariant of the worker protocol

    Every move of the state owner, every result it takes and every step of a
    worker preserves the invariant of [RuntimeProtocol.v]. *)

From coqutil Require Import Datatypes.RecordSetters.
From Stdlib Require Import Sorted.
From S2P Require Import Prelude Float64 Domain Text Scene Thermal ConfigTypes Validate ActuatorTypes Journal Ports DaemonTypes DaemonConfig Reconcile RuntimeTypes RuntimeObservers RuntimeBarriers RuntimeProtocol.

(** ** The tickets of the frequency lane *)

Section tickets.
Implicit Types (l : list (Z * bool)) (n : Z).

Lemma sorted_snoc (l : list Z) x :
  StronglySorted Z.lt l -> Forall (fun y => y < x) l -> StronglySorted Z.lt (l ++ [x]).
Proof.
  induction 1 as [|y l Hs IH Hy]; intros Hx; simpl.
  - repeat constructor.
  - apply Forall_cons in Hx as [Hyx Hx].
    constructor; [by apply IH|]. rewrite Forall_app; auto.
Qed.

Lemma sorted_prefix (l k : list Z) : StronglySorted Z.lt (l ++ k) -> StronglySorted Z.lt l.
Proof.
  induction l as [|x l IH]; simpl; [constructor|].
  inversion 1 as [|? ? Hs Hf]; subst. apply Forall_app in Hf as [Hf _]. constructor; auto.
Qed.

(** The head of a sorted list that is also its last element is alone. *)
Lemma sorted_head_last t l :
  StronglySorted Z.lt (t :: l).*1 -> fst <$> last (t :: l) = Some t.1 -> l = [].
Proof.
  destruct l as [|u l]; [done|]. rewrite fmap_cons. inversion 1 as [|? ? _ Hf]; subst.
  change (last (t :: u :: l)) with (last (u :: l)). intros Hlast. exfalso.
  assert (exists v, v ∈ u :: l /\ v.1 = t.1) as (v & Hv & Heq).
  { destruct (last (u :: l)) as [v|] eqn:Hl; [|done].
    simplify_eq/=. exists v. split; [by apply last_Some_elem_of|done]. }
  rewrite Forall_forall in Hf.
  specialize (Hf v.1 ltac:(by apply (list_elem_of_fmap_2 fst (u :: l)))). lia.
Qed.

Lemma last_not_head t u l : last (t :: u :: l) = last (u :: l).
Proof. done. Qed.

(** A command replaces the one still queued. *)
Lemma lane_send worker queued n p q qd b :
  lane_inv (worker ++ queued) n p q qd -> q = None ->
  lane_inv (worker ++ [(n + 1, b)]) (n + 1) (Some (n + 1)) (if b then Some (n + 1) else None) false.
Proof.
  intros [Hs Hb _ Hf Hq _] ->.
  apply Forall_app in Hb as [Hb _]. apply Forall_app in Hf as [Hf _].
  rewrite fmap_app in Hs. apply sorted_prefix in Hs.
  split; try done.
  - rewrite fmap_app. apply sorted_snoc; [done|].
    rewrite Forall_fmap. eapply Forall_impl; [exact Hb|]. simpl. lia.
  - rewrite Forall_app. split; [|by repeat constructor; simpl; lia].
    eapply Forall_impl; [exact Hb|]. simpl. lia.
  - by rewrite last_snoc.
  - rewrite Forall_app. split.
    + eapply Forall_impl; [exact Hf|]. simpl. intros t Ht Htrue.
      destruct (Ht Htrue) as [? _]. done.
    + apply Forall_singleton. simpl. by intros ->.
  - intros x. destruct b; [intros [= <-]|done]. apply elem_of_app. right. by left.
Qed.

(** Nothing is outstanding. *)
Lemma lane_empty n qd : lane_inv [] n None None qd.
Proof. split; simpl; auto using StronglySorted, SSorted_nil; done. Qed.

(** The oldest command is answered. *)
Lemma lane_answer_plain id l n p q qd :
  lane_inv ((id, false) :: l) n p q qd ->
  (exists w, p = Some w /\ id <= w)
  /\ lane_inv l n (if decide (p = Some id) then None else p) q qd.
Proof.
  intros [Hs Hb Hp Hf Hq Hqd].
  pose proof Hs as Hs'. inversion Hs' as [|? ? Hsl Hlt]; subst.
  apply Forall_cons in Hb as [Hid Hb]. apply Forall_cons in Hf as [_ Hf].
  destruct l as [|u l].
  - simpl. rewrite decide_True by done. split; [exists id; split; [done|lia]|].
    destruct q as [q|]; [|apply lane_empty].
    exfalso. specialize (Hq q eq_refl). apply list_elem_of_singleton in Hq. done.
  - rewrite last_not_head in *. rewrite Forall_forall in Hlt.
    destruct (last (u :: l)) as [v|] eqn:Hl; [|by apply last_None in Hl].
    assert (Hv : id < v.1).
    { apply Hlt. apply (list_elem_of_fmap_2 fst (u :: l)). by apply last_Some_elem_of. }
    simpl. rewrite decide_False by (intros [= Heq]; lia).
    split; [exists v.1; split; [done|lia]|]. split; try done.
    + by rewrite Hl.
    + intros x Hx. specialize (Hq x Hx). apply elem_of_cons in Hq as [|]; [done|done].
Qed.

Lemma lane_answer_quiesce id l n p q qd :
  lane_inv ((id, true) :: l) n p q qd -> q = Some id /\ p = Some id /\ l = [].
Proof.
  intros [Hs _ Hp Hf _ _]. apply Forall_cons in Hf as [Hf _].
  destruct (Hf eq_refl) as [-> Hpid]. split; [done|]. split; [done|].
  apply (sorted_head_last (id, true)); [done|]. by rewrite <- Hp.
Qed.
End tickets.

(** ** The moves *)

Section preservation.
Context `{RegexEngine}.

(** A protocol state taken apart, with its setters computed. *)
Ltac unpack :=
  repeat match goal with
         | p : Proto |- _ => destruct p as [[] [] [] []]
         | o : Outside |- _ => destruct o
         end;
  unfold fresh, open_for_work, blocked, barrier_requested, idle, latch, submit_scheduler, outstanding,
    in_worker, waiting_reload, next_id, release_frequency, quiesce_frequency, take_scheduler,
    take_restore, take_update, take_reload_result, owns_nothing in *;
  cbn in *; unfold constant in *.

Lemma fresh_move p q : move p q -> fresh q -> fresh p.
Proof.
  intros Hm Hq. destruct Hm as [p q []| | | | | | | | |p state targets| | | | |];
    [..|revert Hq; unfold set_thermal, request_caps, start_update; repeat case_match| | | | |]; unpack; unfold sat_add in *; try done; try lia.
Qed.

(** What is left is about a field the change does not read. *)
Ltac finish :=
  solve [unfold barrier_requested, idle in *; cbn in *; intros;
         repeat match goal with H : is_Some None |- _ => by destruct H end;
         simplify_eq; try done; tauto].

Lemma coherent_quiet o p q : quiet_move p q -> coherent o p -> coherent o q.
Proof.
  intros Hm [? ? ? ? ? ? ? ? ? ? ? ? ? ?]. destruct Hm; unpack; split; cbn; try assumption; finish.
Qed.

(** Work is submitted only when no barrier is asked for. *)
Lemma open_no_barrier p : open_for_work p -> ~ barrier_requested p.
Proof.
  intros [Hb _] [Hr | [r Hr]]; revert Hb; unfold blocked; rewrite Hr;
    rewrite ?orb_true_r, ?orb_true_l; simpl; rewrite ?orb_true_r; done.
Qed.

Lemma open_not_suspended p : open_for_work p -> ba_suspended (pr_barrier p) = false.
Proof. intros [Hb _]. revert Hb. unfold blocked. by destruct (ba_suspended _). Qed.

Lemma open_not_restoring p : open_for_work p -> ba_restore_in_flight (pr_barrier p) = None.
Proof.
  intros [Hb _]. revert Hb. unfold blocked. destruct (ba_restore_in_flight _); [|done].
  rewrite bool_decide_eq_true_2 by done. by rewrite !orb_true_r.
Qed.

Lemma open_no_quiesce o p :
  coherent o p -> open_for_work p -> ch_frequency_closed (pr_channels p) = false ->
  ln_frequency_quiesce_pending (pr_lanes p) = None.
Proof.
  intros Hc Hopen Hclosed. destruct (ln_frequency_quiesce_pending _) eqn:Hq; [|done].
  exfalso. apply (open_no_barrier p Hopen). apply (co_barrier _ _ Hc); [done|]. by rewrite Hq.
Qed.

(** The next identifier, when they have not run out. *)
Lemma next_id_fresh n : sat_add n 1 < u64_max -> sat_add n 1 = n + 1.
Proof. unfold sat_add. lia. Qed.

(** An idle lane has no outstanding ticket, and is not quiescing. *)
Lemma lane_idle l n q qd : lane_inv l n None q qd -> l = [] /\ q = None.
Proof.
  intros [_ _ Hp Hf Hq _]. split.
  - destruct l as [|t l]; [done|]. destruct (last (t :: l)) eqn:Hl; [done|].
    by apply last_None in Hl.
  - destruct q as [q|]; [|done]. specialize (Hq q eq_refl).
    rewrite Forall_forall in Hf. by destruct (Hf _ Hq eq_refl).
Qed.

Lemma coherent_latch o p : coherent o p -> coherent o (latch p).
Proof. intros [? ? ? ? ? ? ? ? ? ? ? ? ? ?]. unpack; split; cbn; try assumption; finish. Qed.

(** The numbering of commands moves on without a command. *)
Lemma coherent_skip_id o p :
  coherent o p -> ch_frequency_closed (pr_channels p) = true ->
  coherent o (p <|pr_lanes->ln_next_frequency_command_id := next_id p|>).
Proof. intros [? ? ? ? ? ? ? ? ? ? ? ? ? ?] ?. unpack; split; cbn; try assumption; finish. Qed.

Lemma coherent_submit_scheduler o p job :
  coherent o p -> ba_restore_in_flight (pr_barrier p) = None ->
  ba_suspended (pr_barrier p) = false -> ln_scheduler_in_flight (pr_lanes p) = None ->
  coherent o (submit_scheduler job p).
Proof.
  intros [? ? ? Hsched ? ? ? ? ? ? ? ? ? ?] Hrestore Hsusp Hnone.
  unpack; subst; split; cbn; try assumption; try finish.
  cbn in Hsched. apply app_eq_nil in Hsched as [Hnil Hnil'].
  by rewrite fmap_app, Hnil, Hnil'.
Qed.

Lemma coherent_submit_frequency o p work intent :
  coherent o p -> open_for_work p -> ch_frequency_closed (pr_channels p) = false ->
  sat_add (ln_next_frequency_command_id (pr_lanes p)) 1 < u64_max ->
  coherent o (p <|pr_channels->ch_frequency_command := Some (FwReconcile (next_id p) work)|>
                <|pr_lanes->ln_next_frequency_command_id := next_id p|>
                <|pr_lanes->ln_frequency_command_pending := Some (next_id p)|>
                <|pr_lanes->ln_frequency_quiesce_pending := None|>
                <|pr_lanes->ln_frequency_quiesced := false|>
                <|pr_lanes->ln_frequency_requested := intent|>).
Proof.
  intros Hc Hopen Hclosed Hfresh.
  pose proof (open_no_quiesce _ _ Hc Hopen Hclosed) as Hq.
  pose proof (open_not_suspended _ Hopen) as Hs. pose proof (open_not_restoring _ Hopen) as Hr.
  destruct Hc as [Hlane ? ? ? ? ? ? ? ? ? ? ? ? ?]. clear Hopen.
  unpack. apply next_id_fresh in Hfresh. rewrite Hfresh. subst.
  split; cbn; try assumption; try finish.
  intros _. destruct (Hlane eq_refl) as [Hfail Hl]. split; [done|].
  by apply (lane_send _ _ _ _ _ _ false Hl).
Qed.

Lemma coherent_quiesce o p :
  coherent o p -> barrier_requested p -> ln_frequency_quiesced (pr_lanes p) = false ->
  ln_frequency_quiesce_pending (pr_lanes p) = None ->
  ch_frequency_closed (pr_channels p) = false ->
  sat_add (ln_next_frequency_command_id (pr_lanes p)) 1 < u64_max ->
  coherent o (p <|pr_channels->ch_frequency_command := Some (FwQuiesce (next_id p))|>
                <|pr_lanes->ln_next_frequency_command_id := next_id p|>
                <|pr_lanes->ln_frequency_command_pending := Some (next_id p)|>
                <|pr_lanes->ln_frequency_quiesce_pending := Some (next_id p)|>
                <|pr_lanes->ln_frequency_requested := None|>).
Proof.
  intros Hc Hb Hqd Hq Hclosed Hfresh.
  destruct Hc as [Hlane ? ? ? ? ? ? ? Hrestoring Hsuspended ? ? ? ?].
  unpack. apply next_id_fresh in Hfresh. rewrite Hfresh. subst.
  split; cbn; try assumption; try finish.
  - intros _. destruct (Hlane eq_refl) as [Hfail Hl]. split; [done|].
    by apply (lane_send _ _ _ _ _ _ true Hl).
  - intros Hx. by destruct (Hrestoring Hx).
  - intros Hx Hy. by destruct (Hsuspended Hx Hy).
Qed.

(** A closed lane is quiesced at once. *)
Lemma coherent_quiesce_closed o p :
  coherent o p -> ch_frequency_closed (pr_channels p) = true ->
  coherent o (p <|pr_lanes->ln_frequency_command_pending := None|>
                <|pr_lanes->ln_frequency_requested := None|>
                <|pr_lanes->ln_frequency_quiesced := true|>).
Proof. intros [? ? ? ? ? ? ? ? ? ? ? ? ? ?] ?. unpack; split; cbn; try assumption; finish. Qed.

(** The first update of an idle fence. *)
Lemma coherent_start_update o p caps :
  coherent o p -> sf_update_in_flight (pr_safety p) = None ->
  coherent o (start_update caps (p <|pr_safety->sf_requested_upper_caps := caps|>
                                   <|pr_safety->sf_pending_upper_caps := None|>)).
Proof.
  intros [? ? ? ? ? Hupdate ? ? ? ? ? ? ? ?] Hnone. unfold start_update.
  unpack; subst; cbn in Hupdate; apply app_eq_nil in Hupdate as [Hnil Hnil'].
  apply fmap_nil_inv in Hnil, Hnil'. subst.
  split; cbn; try assumption.
  - done.
  - intros _. unfold fence_tracks. cbn. split; [by constructor|constructor].
Qed.

Lemma coherent_request_caps o p caps : coherent o p -> coherent o (request_caps caps p).
Proof.
  intros Hc. unfold request_caps. destruct (pr_safety_failed p) eqn:Hf; [done|].
  destruct (bool_decide (caps = _)); [done|]. simpl.
  case_bool_decide as Hin.
  - destruct Hc as [? ? ? ? ? ? ? ? ? ? ? ? ? Hfence]. unpack; split; cbn; try assumption.
    intros _. unfold fence_tracks. cbn. by destruct sf_update_in_flight; [|destruct Hin].
  - apply eq_None_not_Some in Hin.
    pose proof (coherent_start_update o p caps Hc Hin) as Hs.
    assert (Hp : sf_pending_upper_caps (pr_safety p) = None).
    { pose proof (co_fence _ _ Hc Hf) as Ht. unfold fence_tracks in Ht. rewrite Hin in Ht. by destruct Ht. }
    revert Hp Hs. unfold start_update. unpack. by intros ->.
Qed.

(** What the caps leave alone. *)
Lemma set_thermal_same state targets p :
  let q := set_thermal state targets p in
  pr_lanes q = pr_lanes p /\ pr_barrier q = pr_barrier p /\ pr_latched q = pr_latched p
  /\ pr_actuator q = pr_actuator p /\ pr_system q = pr_system p /\ pr_signature q = pr_signature p
  /\ ch_frequency_command (pr_channels q) = ch_frequency_command (pr_channels p)
  /\ ch_schedulers (pr_channels q) = ch_schedulers (pr_channels p).
Proof. unfold set_thermal, request_caps, start_update. by repeat case_match; unpack. Qed.

Lemma coherent_set_thermal o p state targets : coherent o p -> coherent o (set_thermal state targets p).
Proof.
  intros Hc. unfold set_thermal. apply coherent_request_caps.
  destruct Hc as [? ? ? ? ? ? ? ? ? ? ? ? ? ?]. unpack; split; cbn; assumption.
Qed.

Lemma coherent_restore o p :
  coherent o p -> idle p -> ba_restore_in_flight (pr_barrier p) = None ->
  coherent o (p <|pr_barrier->ba_restore_requested := false|>
                <|pr_barrier->ba_next_restore_id := sat_add (ba_next_restore_id (pr_barrier p)) 1|>
                <|pr_barrier->ba_restore_in_flight := Some (sat_add (ba_next_restore_id (pr_barrier p)) 1)|>
                <|pr_channels->ch_restores ::=
                    (fun l => l ++ [sat_add (ba_next_restore_id (pr_barrier p)) 1])|>).
Proof.
  intros [Hlane ? ? ? Hrestore ? ? ? ? ? ? ? ? ?] Hidle Hnone.
  unpack; destruct Hidle as (-> & -> & ->); subst; split; cbn; try assumption; try finish.
  - intros Hopen Hq. destruct (Hlane Hopen) as [_ Hl]. apply lane_idle in Hl as [_ ->]. by destruct Hq.
  - cbn in Hrestore. apply app_eq_nil in Hrestore as [-> Hnil]. by rewrite Hnil.
Qed.

Lemma coherent_take_candidate o p outcome :
  coherent o p -> idle p -> ba_pending_reload (pr_barrier p) = Some outcome ->
  coherent o (p <|pr_barrier->ba_pending_reload := None|>
                <|pr_barrier->ba_reload_in_flight := false|>).
Proof.
  intros [Hlane ? ? ? ? ? Hreload ? ? ? ? ? ? ?] Hidle Hsome.
  unpack; destruct Hidle as (-> & -> & ->); subst; split; cbn; try assumption; try finish.
  - intros Hopen Hq. destruct (Hlane Hopen) as [_ Hl]. apply lane_idle in Hl as [_ ->]. by destruct Hq.
  - destruct ba_reload_in_flight; simpl in *; lia.
Qed.

Lemma coherent_start_reload o p reply :
  coherent o p -> ba_reload_in_flight (pr_barrier p) = false ->
  coherent o (p <|pr_barrier->ba_reload_in_flight := true|>
                <|pr_channels->ch_reloads ::= (fun l => l ++ [reply])|>).
Proof.
  intros [? ? ? ? ? ? Hreload ? ? ? ? ? ? ?] Hnone.
  unpack; subst; split; cbn; try assumption; try finish.
  unfold waiting_reload. rewrite length_app. simpl in *. lia.
Qed.

Lemma coherent_move o p q : move p q -> fresh q -> coherent o p -> coherent o q.
Proof.
  intros Hm Hfresh Hc.
  destruct Hm as [? ? ?|?|? ? ?|? ? ? Hopen ?|? Hopen ?|? ? Hopen ? ?|? Hopen ? ?|? ? Hopen ?|? Hopen ?
                 |? ? ?|? ? ? ? ?|? ?|? ? ? ?|? ? ?|? ? ? ? ? ?].
  - eapply coherent_quiet; eassumption.
  - by apply coherent_latch.
  - destruct Hc as [? ? ? ? ? ? ? ? ? ? ? ? ? ?]. unpack; split; cbn; assumption.
  - by apply coherent_submit_frequency.
  - by apply coherent_latch, coherent_skip_id.
  - pose proof (open_not_restoring _ Hopen). pose proof (open_not_suspended _ Hopen).
    apply coherent_submit_scheduler; [by apply coherent_latch, coherent_skip_id| | |]; by unpack.
  - apply coherent_latch. apply coherent_skip_id in Hc; [|done].
    destruct Hc as [? ? ? ? ? ? ? ? ? ? ? ? ? ?]. unpack; split; cbn; assumption.
  - apply coherent_submit_scheduler; auto using open_not_restoring, open_not_suspended.
  - destruct Hc as [? ? ? ? ? ? ? ? ? ? ? ? ? ?]. unpack; split; cbn; assumption.
  - by apply coherent_set_thermal.
  - by apply coherent_quiesce.
  - apply coherent_latch, (coherent_quiesce_closed o (p <|pr_lanes->ln_next_frequency_command_id := next_id p|>));
      [by apply coherent_skip_id|done].
  - by apply coherent_restore.
  - by apply coherent_start_reload.
  - by eapply coherent_take_candidate.
Qed.

(** What the state owner only reads. *)
Lemma move_same p q :
  move p q ->
  pr_signature q = pr_signature p /\ pr_actuator q = pr_actuator p /\ pr_system q = pr_system p.
Proof.
  intros [? ? []| | | | | | | | |? state targets| | | | |]; try by unpack.
  destruct (set_thermal_same state targets p0) as (_ & _ & _ & -> & -> & -> & _). done.
Qed.

(** ** Results and workers *)

Lemma option_list_cons {A} (x : A) l (m : option A) : x :: l = option_list m -> m = Some x /\ l = [].
Proof. destruct m; simpl; intros; by simplify_eq. Qed.

Lemma coherent_release_frequency o p e l id :
  coherent o p -> o_frequency o = e :: l -> event_ticket e = [(id, false)] ->
  ch_frequency_closed (pr_channels p) = false ->
  (exists w, ln_frequency_command_pending (pr_lanes p) = Some w /\ id <= w)
  /\ coherent (o <|o_frequency := l|>)
       (if bool_decide (ln_frequency_command_pending (pr_lanes p) = Some id)
        then release_frequency p else p).
Proof.
  intros [Hlane ? ? ? ? ? ? ? ? ? ? ? ? ?] He Ht Hclosed.
  destruct (Hlane Hclosed) as [Hfail Hl].
  revert Hl Hfail. unfold outstanding, in_worker. rewrite He. simpl. rewrite Ht. simpl. intros Hl Hfail.
  apply lane_answer_plain in Hl as [Hw Hl]. split; [done|].
  apply Forall_cons in Hfail as [_ Hfail].
  case_bool_decide as Hp; [rewrite decide_True in Hl by done|rewrite decide_False in Hl by done];
    unpack; subst; split; cbn; try assumption; try finish; auto.
Qed.

Lemma coherent_quiesced o p l id :
  coherent o p -> o_frequency o = FwQuiesced id :: l ->
  ch_frequency_closed (pr_channels p) = false ->
  unexpected (FwQuiesced id) p = false /\ coherent (o <|o_frequency := l|>) (quiesce_frequency p).
Proof.
  intros [Hlane ? ? ? ? ? ? ? ? ? ? ? ? ?] He Hclosed.
  destruct (Hlane Hclosed) as [Hfail Hl].
  revert Hl Hfail. unfold outstanding, in_worker. rewrite He. simpl. intros Hl Hfail.
  apply Forall_cons in Hfail as [_ Hfail].
  apply lane_answer_quiesce in Hl as (Hq & Hp & Hnil).
  unfold unexpected. rewrite Hq, Hp, !bool_decide_eq_true_2 by done. split; [done|].
  unpack; subst; split; cbn; try assumption; try finish.
  intros _. split; [done|].
  exact (eq_ind_r (fun l => lane_inv l _ _ _ _) (lane_empty _ _) Hnil).
Qed.

(** A closed lane takes whatever it is told. *)
Lemma coherent_take_closed o p e l :
  coherent o p -> o_frequency o = e :: l -> ch_frequency_closed (pr_channels p) = true ->
  coherent (o <|o_frequency := l|>) (take_frequency e p).
Proof.
  intros [? ? ? ? ? ? ? ? ? ? ? ? ? ?] He Hclosed. unfold take_frequency.
  destruct (unexpected e p); [|destruct e; try case_bool_decide];
    unpack; subst; split; cbn; try assumption; try finish.
Qed.

Lemma coherent_take_frequency o p e l :
  coherent o p -> o_frequency o = e :: l -> coherent (o <|o_frequency := l|>) (take_frequency e p).
Proof.
  intros Hc He. destruct (ch_frequency_closed (pr_channels p)) eqn:Hclosed;
    [by apply coherent_take_closed|].
  destruct e as [id drift result|id|error].
  - destruct (coherent_release_frequency _ _ _ _ id Hc He eq_refl Hclosed) as [(w & Hw & Hle) Hc'].
    unfold take_frequency, unexpected. rewrite Hw in *. simpl.
    rewrite (proj2 (Z.leb_le _ _) Hle). done.
  - destruct (coherent_quiesced _ _ _ _ Hc He Hclosed) as [Hu Hc'].
    unfold take_frequency. by rewrite Hu.
  - exfalso. destruct (co_lane _ _ Hc Hclosed) as [Hfail _]. rewrite He in Hfail.
    by apply Forall_cons in Hfail as [? _].
Qed.

(** A result that is taken was awaited, and nothing else of its kind is under
    way. *)
Lemma awaited {A} (k : list Z) (f : A -> Z) e l m :
  k ++ (f <$> e :: l) = option_list m -> m = Some (f e) /\ l = [] /\ k = [].
Proof.
  destruct k as [|x [|y k]], m as [z|], l as [|a l]; simpl; intros Heq; try discriminate Heq.
  by injection Heq as ->.
Qed.

Lemma restore_awaited o p e l :
  coherent o p -> o_restore o = e :: l ->
  ba_restore_in_flight (pr_barrier p) = Some (rs_id e) /\ l = [] /\ ch_restores (pr_channels p) = [].
Proof. intros Hc He. pose proof (co_restore _ _ Hc) as Hr. rewrite He in Hr. by apply awaited in Hr. Qed.

Lemma scheduler_awaited o p e l :
  coherent o p -> o_scheduler o = e :: l ->
  ln_scheduler_in_flight (pr_lanes p) = Some (sw_id e) /\ l = []
  /\ (ch_schedulers (pr_channels p)).*1 = [].
Proof. intros Hc He. pose proof (co_scheduler _ _ Hc) as Hr. rewrite He in Hr. by apply awaited in Hr. Qed.

Lemma update_awaited o p e l :
  coherent o p -> o_safety o = e :: l ->
  sf_update_in_flight (pr_safety p) = Some (fso_id e) /\ l = []
  /\ (ch_safety_updates (pr_channels p)).*1 = [].
Proof. intros Hc He. pose proof (co_update _ _ Hc) as Hr. rewrite He in Hr. by apply awaited in Hr. Qed.

Lemma coherent_take_scheduler o p e l :
  coherent o p -> o_scheduler o = e :: l -> coherent (o <|o_scheduler := l|>) (take_scheduler p).
Proof.
  intros Hc He. destruct (scheduler_awaited _ _ _ _ Hc He) as (Hid & -> & Hnil).
  destruct Hc as [? ? ? _ ? ? ? ? ? ? ? ? ? ?].
  unpack; subst; split; cbn; try assumption; try finish.
  by rewrite Hnil.
Qed.

Lemma coherent_take_restore o p e l restored :
  coherent o p -> o_restore o = e :: l -> (restored = true -> rs_result e = inr tt) ->
  coherent (o <|o_restore := l|>) (take_restore restored p).
Proof.
  intros Hc He Hok. destruct (restore_awaited _ _ _ _ Hc He) as (Hid & -> & Hnil).
  pose proof (co_given_back _ _ Hc) as Hgiven. rewrite He in Hgiven.
  apply Forall_cons in Hgiven as [Hgiven _].
  destruct Hc as [? ? ? ? _ ? ? ? Hr ? ? ? ? ?].
  unpack; subst; split; cbn; try assumption; try finish.
  intros _ _. by apply Hr.
Qed.

Lemma coherent_take_update o p e l ok :
  coherent o p -> o_safety o = e :: l -> (ok = true -> fso_result e = inr tt) ->
  coherent (o <|o_safety := l|>) (take_update ok p).
Proof.
  intros Hc He Hok. destruct (update_awaited _ _ _ _ Hc He) as (Hid & -> & Hnil).
  assert (Hclear : pr_safety_failed p = false -> fso_result e = inr tt ->
            sf_pending_upper_caps (pr_safety p) = None -> fence_caps o = sf_requested_upper_caps (pr_safety p)).
  { intros Hf Hr Hp. pose proof (co_fence _ _ Hc Hf) as Ht. unfold fence_tracks in Ht.
    rewrite Hid, Hp, He in Ht. destruct Ht as [_ Ht]. apply Forall_cons in Ht as [Ht _]. by apply Ht. }
  assert (Hpending : pr_safety_failed p = false -> forall caps,
            sf_pending_upper_caps (pr_safety p) = Some caps -> caps = sf_requested_upper_caps (pr_safety p)).
  { intros Hf caps Hp. pose proof (co_fence _ _ Hc Hf) as Ht. unfold fence_tracks in Ht.
    by rewrite Hid, Hp in Ht. }
  apply fmap_nil_inv in Hnil.
  destruct Hc as [? ? ? ? ? _ ? ? ? ? Hlatched ? ? _]. unfold take_update, start_update.
  destruct ok; [destruct (sf_pending_upper_caps (pr_safety p)) as [caps|] eqn:Hp|];
    unpack; subst; split; cbn; try assumption; try done.
  - intros Hf. unfold fence_tracks. cbn. split; [|constructor]. constructor; [|constructor].
    by apply Hpending.
  - intros Hf. unfold fence_tracks. cbn. split; [done|]. unfold fence_caps in *. cbn in *. by apply Hclear; [|apply Hok|].
Qed.

Lemma coherent_take_reload o p e l pending :
  coherent o p -> o_reload o = e :: l ->
  (forall outcome, pending = Some outcome -> signature_of (ro_result outcome) = Some (pr_signature p)) ->
  coherent (o <|o_reload := l|>) (take_reload_result pending p).
Proof.
  intros [? ? ? ? ? ? Hl ? ? ? ? ? ? ?] He Hp. unfold take_reload_result.
  destruct pending as [outcome|]; unpack; unfold waiting_reload in *; subst;
    split; cbn; try assumption; try finish; unfold waiting_reload; cbn in *.
  - unfold barrier_requested. cbn. eauto.
  - destruct ba_reload_in_flight, ba_pending_reload; simpl in *; lia.
  - destruct ba_reload_in_flight, ba_pending_reload; simpl in *; lia.
Qed.

(** While a mutation is under way nothing has been given back. *)
Lemma running_open o p c :
  coherent o p -> o_running o = Some c -> ch_frequency_closed (pr_channels p) = false.
Proof.
  intros Hc Hr. destruct (ch_frequency_closed _) eqn:Hcl; [|done].
  destruct (co_closed _ _ Hc Hcl) as [? _]. congruence.
Qed.

Lemma running_busy o p c : coherent o p -> o_running o = Some c -> ~ idle p.
Proof.
  intros Hc Hr (_ & Hp & _). pose proof (running_open _ _ _ Hc Hr) as Hcl.
  destruct (co_lane _ _ Hc Hcl) as [_ Hl]. rewrite Hp in Hl. apply lane_idle in Hl as [Hl _].
  revert Hl. unfold outstanding, in_worker. rewrite Hr. simpl. intros Hl.
  apply app_eq_nil in Hl as [Hl _]. apply app_eq_nil in Hl as [_ Hl]. done.
Qed.

Lemma scheduler_busy o p job l : coherent o p -> ch_schedulers (pr_channels p) = job :: l -> ~ idle p.
Proof.
  intros Hc Hs (_ & _ & Hn). pose proof (co_scheduler _ _ Hc) as Hsched.
  by rewrite Hs, Hn in Hsched.
Qed.

Lemma busy_restore o p : coherent o p -> ~ idle p -> o_restore o = [].
Proof.
  intros Hc Hi. destruct (o_restore o) as [|e l] eqn:He; [done|]. exfalso.
  destruct (restore_awaited _ _ _ _ Hc He) as (Hid & _).
  apply Hi, (co_restoring _ _ Hc). by rewrite Hid.
Qed.

(** An idle state owner has nothing outside. *)
Lemma idle_nothing_outside o p :
  coherent o p -> idle p ->
  o_running o = None /\ ch_frequency_command (pr_channels p) = None
  /\ ch_schedulers (pr_channels p) = [] /\ o_scheduler o = []
  /\ ln_frequency_command_pending (pr_lanes p) = None.
Proof.
  intros Hc (Hq & Hp & Hn). pose proof (co_scheduler _ _ Hc) as Hsched. rewrite Hn in Hsched.
  apply app_eq_nil in Hsched as [Hs1 Hs2]. apply fmap_nil_inv in Hs1, Hs2.
  assert (Hf : o_running o = None /\ ch_frequency_command (pr_channels p) = None).
  { destruct (ch_frequency_closed (pr_channels p)) eqn:Hcl; [by apply (co_closed _ _ Hc)|].
    destruct (co_lane _ _ Hc Hcl) as [_ Hl]. rewrite Hp in Hl. apply lane_idle in Hl as [Hl _].
    unfold outstanding, in_worker in Hl. apply app_eq_nil in Hl as [Hl1 Hl2].
    apply app_eq_nil in Hl1 as [_ Hl1].
    by destruct (o_running o), (ch_frequency_command (pr_channels p)). }
  by destruct Hf.
Qed.

Lemma frequency_awaited o p e l :
  coherent o p -> o_frequency o = e :: l -> ch_frequency_closed (pr_channels p) = false ->
  unexpected e p = false.
Proof.
  intros Hc He Hcl. destruct e as [id drift result|id|error].
  - destruct (coherent_release_frequency _ _ _ _ id Hc He eq_refl Hcl) as [(w & Hw & Hle) _].
    unfold unexpected. rewrite Hw. simpl. by rewrite (proj2 (Z.leb_le _ _) Hle).
  - by apply (coherent_quiesced _ _ _ _ Hc He Hcl).
  - done.
Qed.

(** So the system may change under it. *)
Lemma coherent_busy o p sys : coherent o p -> ~ idle p -> coherent o (p <|pr_system := sys|>).
Proof.
  intros Hc Hi. pose proof (busy_restore _ _ Hc Hi) as Hnil.
  pose proof (co_suspended _ _ Hc) as Hs.
  destruct Hc as [? ? ? ? ? ? ? ? ? ? ? ? ? ?].
  split; try (destruct p as [[] [] [] []]; assumption).
  - by rewrite Hnil.
  - intros H1 H2. destruct Hi. apply Hs; destruct p as [[] [] [] []]; done.
Qed.

Lemma list_bind_snoc {A B} (f : A -> list B) l x : (l ++ [x]) ≫= f = (l ≫= f) ++ f x.
Proof. rewrite bind_app. simpl. by rewrite app_nil_r. Qed.

Lemma coherent_worker_answer o p c e :
  coherent o p -> o_running o = Some c -> event_ticket e = [command_ticket c] ->
  coherent (o <|o_running := None|> <|o_frequency ::= (fun l => l ++ [e])|>) p.
Proof.
  intros [Hlane ? Hclosed ? ? ? ? ? ? ? ? ? ? ?] Hc He.
  split; try assumption; cbn.
  - intros Hopen. destruct (Hlane Hopen) as [Hfail Hl]. split.
    + destruct o. cbn in *. apply Forall_app. split; [done|]. apply Forall_singleton.
      by destruct e.
    + revert Hl. unfold outstanding, in_worker. destruct o. cbn in *. subst. simpl.
      by rewrite list_bind_snoc, He, app_nil_r.
  - intros Hcl. destruct (Hclosed Hcl) as [? _]. congruence.
Qed.

Lemma coherent_worker_start o p c :
  coherent o p -> o_running o = None -> ch_frequency_command (pr_channels p) = Some c ->
  coherent (o <|o_running := Some c|>) (p <|pr_channels->ch_frequency_command := None|>).
Proof.
  intros [Hlane ? Hclosed ? ? ? ? ? ? ? ? ? ? ?] Hn Hc.
  unpack; subst; split; cbn; try assumption; try finish.
  intros Hopen. destruct (Hlane Hopen) as [Hfail Hl]. split; [done|].
  revert Hl. unfold outstanding, in_worker. cbn. by rewrite !app_nil_r.
Qed.

Lemma coherent_worker_dies o p error fence :
  coherent o p -> ff_envelope fence = ff_envelope (o_fence o) ->
  coherent (o <|o_fence := fence|> <|o_running := None|> <|o_frequency ::= (fun l => l ++ [FwFailed error])|>)
    (p <|pr_channels->ch_frequency_command := None|> <|pr_channels->ch_frequency_closed := true|>).
Proof.
  intros [? ? ? ? ? ? ? ? ? ? ? ? ? Hfence] Heq. unpack; split; cbn; try assumption; try finish.
  unfold fence_tracks, fence_caps in *. cbn in *. by rewrite Heq.
Qed.

(** A task that has run hands its identifier to its result. *)
Lemma handed_over {B} (g : B -> Z) a k x l m :
  (a :: k) ++ (g <$> l) = option_list m -> g x = a -> k ++ (g <$> l ++ [x]) = option_list m.
Proof.
  intros Heq Hx. destruct m as [z|], k as [|b k], l as [|c l]; try discriminate Heq.
  simpl in *. injection Heq as <-. by rewrite Hx.
Qed.

Lemma coherent_scheduler_done o p id job l outcome :
  coherent o p -> ch_schedulers (pr_channels p) = (id, job) :: l -> sw_id outcome = id ->
  coherent (o <|o_scheduler ::= (fun r => r ++ [outcome])|>) (p <|pr_channels->ch_schedulers := l|>).
Proof.
  intros [? ? ? Hs ? ? ? ? ? ? ? ? ? ?] Hl Hid. rewrite Hl in Hs.
  unpack; split; cbn; try assumption. exact (handed_over sw_id _ _ _ _ _ Hs Hid).
Qed.

Lemma coherent_restore_done o p id l outcome sys :
  coherent o p -> ch_restores (pr_channels p) = id :: l -> rs_id outcome = id ->
  (journal_is_empty (rt_journal (st_rt (pr_system p))) = true -> journal_is_empty (rt_journal (st_rt sys)) = true) ->
  (rs_result outcome = inr tt -> is_Some (pr_actuator p) -> journal_is_empty (rt_journal (st_rt sys)) = true) ->
  coherent (o <|o_restore ::= (fun r => r ++ [outcome])|>)
    (p <|pr_system := sys|> <|pr_channels->ch_restores := l|>).
Proof.
  intros [? ? ? ? Hs ? ? ? ? ? ? Hg Ha ?] Hl Hid Hkeep Hempty. rewrite Hl in Hs.
  unpack; split; cbn; try assumption.
  - exact (handed_over rs_id _ _ _ _ _ Hs Hid).
  - apply Forall_app. split; [|by apply Forall_singleton].
    eapply Forall_impl; [exact Hg|]. intros e He Hr Hact. exact (Hkeep (He Hr Hact)).
  - intros H1 H2 Hact. exact (Hkeep (Ha H1 H2 Hact)).
Qed.

Lemma coherent_update_done o p id caps l outcome fence :
  coherent o p -> ch_safety_updates (pr_channels p) = (id, caps) :: l -> fso_id outcome = id ->
  (fso_result outcome = inr tt -> env_upper_caps (ff_envelope fence) = caps) ->
  coherent (o <|o_fence := fence|> <|o_safety ::= (fun r => r ++ [outcome])|>)
    (p <|pr_channels->ch_safety_updates := l|>).
Proof.
  intros [? ? ? ? ? Hs ? ? ? ? ? ? ? Hfence] Hl Hid Hcaps. rewrite Hl in Hs.
  assert (Hone : l = [] /\ o_safety o = [] /\ is_Some (sf_update_in_flight (pr_safety p))).
  { destruct (sf_update_in_flight (pr_safety p)), l, (o_safety o); try discriminate Hs; eauto. }
  destruct Hone as (-> & Hnil & Hin). pose proof (handed_over fso_id _ _ _ _ _ Hs Hid) as Hs'.
  unpack; subst; split; cbn; try assumption.
  intros Hf. specialize (Hfence Hf). unfold fence_tracks, fence_caps in *. cbn in *.
  destruct sf_update_in_flight; [|by destruct Hin]. destruct sf_pending_upper_caps; [done|].
  destruct Hfence as [Hfence _]. apply Forall_cons in Hfence as [Hfence _]. simpl in Hfence.
  split; [constructor|]. apply Forall_singleton. intros Hr. by rewrite <- Hfence, Hcaps.
Qed.

Lemma coherent_reload_done o p reply l outcome :
  coherent o p -> ch_reloads (pr_channels p) = reply :: l ->
  coherent (o <|o_reload ::= (fun r => r ++ [outcome])|>) (p <|pr_channels->ch_reloads := l|>).
Proof.
  intros [? ? ? ? ? ? Hs ? ? ? ? ? ? ?] Hl. rewrite Hl in Hs.
  unpack; split; cbn; try assumption.
  unfold waiting_reload in *. cbn in *. rewrite length_app. simpl in *. lia.
Qed.

(** ** Every step *)

Lemma fresh_step s s' : step s s' -> fresh s'.2 -> fresh s.2.
Proof.
  destruct 1 as [o p q Hm| |? ? ? ? ?|? ? ? ? ? ?|? ? ? ? ok ? ?|? ? ? ? [] ? ?| | | | | | |]; cbn [snd];
    try by unpack.
  3: { unfold take_update, start_update. destruct ok; [destruct (sf_pending_upper_caps _)|]; by unpack. }
  - by apply fresh_move.
  - unfold take_frequency. destruct (unexpected e p), e; try case_bool_decide; by unpack.
Qed.

Lemma step_inv s s' : step s s' -> Inv s -> Inv s'.
Proof.
  unfold Inv. intros Hs Hi Hf.
  specialize (Hi (fresh_step _ _ Hs Hf)).
  destruct Hs; cbn [fst snd] in *.
  - by eapply coherent_move.
  - by eapply coherent_take_frequency.
  - by eapply coherent_take_scheduler.
  - by eapply coherent_take_restore.
  - by eapply coherent_take_update.
  - by eapply coherent_take_reload.
  - by apply coherent_worker_start.
  - eapply coherent_worker_answer; [eauto using coherent_busy, running_busy|done..].
  - apply coherent_worker_dies; [|done]. destruct (o_running o) as [c|] eqn:Hr.
    + eauto using coherent_busy, running_busy.
    + match goal with H : None = None -> _ |- _ => rewrite (H eq_refl) end. by destruct p.
  - eapply (coherent_scheduler_done o (p <|pr_system := sys|>)); [|by destruct p|done].
    eauto using coherent_busy, scheduler_busy.
  - by eapply coherent_restore_done.
  - by eapply coherent_update_done.
  - by eapply coherent_reload_done.
Qed.

Lemma steps_inv s s' : rtc step s s' -> Inv s -> Inv s'.
Proof. induction 1; eauto using step_inv. Qed.

Lemma fresh_steps s s' : rtc step s s' -> fresh s'.2 -> fresh s.2.
Proof. induction 1; eauto using fresh_step. Qed.

(** ** The latch *)

(** What has been submitted and not yet taken. *)
Definition submitted_within (p q : Proto) : Prop :=
  (forall id work, ch_frequency_command (pr_channels q) = Some (FwReconcile id work) ->
     ch_frequency_command (pr_channels p) = Some (FwReconcile id work))
  /\ (forall id job, (id, job) ∈ ch_schedulers (pr_channels q) ->
        (id, job) ∈ ch_schedulers (pr_channels p)).

Lemma submitted_within_trans p q r : submitted_within p q -> submitted_within q r -> submitted_within p r.
Proof. intros [] []. split; eauto. Qed.

Lemma latched_move p q :
  move p q -> pr_latched p = true -> pr_read_only p = true ->
  pr_latched q = true /\ submitted_within p q.
Proof.
  intros Hm Hl Hro. assert (Hno : ~ open_for_work p) by (intros (_ & _ & Hopen); congruence).
  destruct Hm as [p q Hq|p|p b Hb|p work intent Hopen Hc|p Hopen Hc|p job Hopen Hc Hn|p Hopen Hc Hn
                 |p job Hopen Hn|p Hopen Hn|p state targets|p Hb Hq Hp Hc|p Hc|p Hi Hr Hreq|p reply Hr
                 |p outcome Hi Hr Hreq Hp]; try by destruct Hno.
  - split; [by destruct Hq|]. by destruct Hq.
  - by split.
  - by split.
  - destruct (set_thermal_same state targets p) as (_ & _ & -> & _ & _ & _ & Hc & Hs).
    split; [done|]. split; [by rewrite Hc|by rewrite Hs].
  - split; [done|]. split; [|done]. cbn. by intros id work.
  - split; [done|]. split; [|done]. done.
  - by split.
  - by split.
  - by split.
Qed.

Lemma latched_step s s' :
  step s s' -> coherent s.1 s.2 -> pr_latched s.2 = true ->
  pr_latched s'.2 = true /\ submitted_within s.2 s'.2.
Proof.
  intros Hs Hc Hl. pose proof (co_latched _ _ Hc Hl) as Hro.
  destruct Hs as [o p q Hm|o p e l Ho|o p e l Ho|o p e l restored Ho Hok|o p e l ok Ho Hok
                 |o p e l pending Ho Hp|o p c Hn Hcmd|o p c e sys Hr He|o p error sys fence Hcl Hn Hfe
                 |o p id job l outcome sys Hsch Hid|o p id l outcome sys Hr Hid He Hok
                 |o p id caps l outcome fence Hu Hid Hfe|o p reply l outcome Hr]; cbn [fst snd] in *.
  1: by apply latched_move.
  all: unfold take_frequency, take_reload_result, take_update, start_update; repeat case_match;
       (split; [first [exact Hl | done]|split; [|try done]]); try done.
  intros id' job' Hin. rewrite Hsch. by right.
Qed.

Lemma latched_steps s s' :
  rtc step s s' -> Inv s -> fresh s'.2 -> pr_latched s.2 = true ->
  pr_latched s'.2 = true /\ submitted_within s.2 s'.2.
Proof.
  induction 1 as [s|s s1 s2 H1 H2 IH]; intros Hi Hf Hl; [by split|].
  destruct (latched_step _ _ H1 (Hi (fresh_step _ _ H1 (fresh_steps _ _ H2 Hf))) Hl) as [Hl1 Hw].
  destruct (IH (step_inv _ _ H1 Hi) Hf Hl1) as [Hl2 Hw']. split; [done|].
  by eapply submitted_within_trans.
Qed.

(** ** The thermal caps *)

Lemma set_thermal_current state targets p : thermal_current (set_thermal state targets p).
Proof.
  unfold thermal_current, set_thermal, request_caps, start_update.
  destruct (pr_safety_failed p) eqn:Hf; unpack; simpl; rewrite Hf; simpl; [done|].
  case_bool_decide as Heq; cbn; [done|]. case_bool_decide; cbn; done.
Qed.

Lemma thermal_move p q : move p q -> thermal_current p -> thermal_current q.
Proof.
  intros [? ? []| | | | | | | | |? state targets| | | | |]; try by unpack.
  intros _. apply set_thermal_current.
Qed.

Lemma thermal_step s s' : step s s' -> thermal_current s.2 -> thermal_current s'.2.
Proof.
  intros Hs. destruct Hs as [o p q Hm| | | |o p e l ok Ho Hok| | | | | | | |]; cbn [fst snd];
    [by apply thermal_move|..].
  all: unfold take_frequency, take_reload_result, take_update, start_update; repeat case_match; try by unpack.
  all: intros [H1 H2]; split; [exact H1|]; cbn; done.
Qed.

Lemma thermal_steps s s' : rtc step s s' -> thermal_current s.2 -> thermal_current s'.2.
Proof. induction 1; eauto using thermal_step. Qed.
End preservation.
