(* ===== verification/RuntimeRefines.v ===== *)
(** * The state owner keeps to the worker protocol

    The handlers of the detailed model, seen through the projection [proto], are
    sequences of the moves of [RuntimeProtocol.v]. *)

From coqutil Require Import Datatypes.RecordSetters.
From S2P Require Import Prelude Float64 Domain Text Strings Scene Frequency Thermal Load ConfigTypes Validate ValidatePolicy Energy Governor Rules Engine ActuatorTypes Scalars Targets Journal Ports Recovery DaemonTypes DaemonConfig DecisionTrace Reconcile RuntimeTypes RuntimeEval RuntimeObservers RuntimeInteraction RuntimeControl RuntimeBarriers RuntimeLoop RuntimeProtocol ProtocolFacts.

Create HintDb refines.

Section refines.
Context {W : Type} `{!Ports W} `{!Environment W} `{!IdentityReader W} `{RegexEngine}.

Definition proto (s : RuntimeActor W) : Proto :=
  {| pr_lanes := ra_lanes s;
     pr_barrier := ra_barrier s;
     pr_safety := ra_safety s;
     pr_channels := ra_channels s;
     pr_accepting := co_accepting_control (ra_control s);
     pr_activated := co_mutations_activated (ra_control s);
     pr_latched := latched s;
     pr_read_only := fa_actuator_read_only (ra_failures s);
     pr_actuator := cf_actuator (ra_config s);
     pr_signature := target_signature (cf_configuration (ra_config s));
     pr_thermal := sn_thermal_state (ra_sensing s);
     pr_thermal_caps := sn_thermal_caps (ra_sensing s);
     pr_targets := rc_targets (cf_configuration (ra_config s));
     pr_safety_failed := bool_decide (is_Some (fa_frequency_safety_failure (ra_failures s)));
     pr_system := {| st_rt := st_rt (ra_sys s); st_world := tt; st_log := st_log (ra_sys s) |} |}.

(** What holds after a computation that did not panic. *)
Definition awp {X} (m : AM W X) (Q : X -> RuntimeActor W -> Prop) (s : RuntimeActor W) : Prop :=
  match m s with
  | (Some x, s') => Q x s'
  | (None, _) => True
  end.

Definition reaches (p : Proto) (s : RuntimeActor W) : Prop := rtc move p (proto s).

Definition refines {X} (m : AM W X) : Prop :=
  forall s, awp m (fun _ s' => reaches (proto s) s') s.

(** ** Rules *)

Lemma awp_bind {X Y} (m : AM W X) (k : X -> AM W Y) Q s :
  awp m (fun x s' => awp (k x) Q s') s -> awp (m ≫= k) Q s.
Proof. unfold awp, mbind, AM_bind. destruct (m s) as [[x|] s']; auto. Qed.

Lemma awp_mono {X} (m : AM W X) (Q R : X -> RuntimeActor W -> Prop) s :
  awp m Q s -> (forall x s', Q x s' -> R x s') -> awp m R s.
Proof. unfold awp. destruct (m s) as [[x|] s']; auto. Qed.

Lemma awp_ret {X} (x : X) Q s : Q x s -> awp (mret x) Q s.
Proof. done. Qed.

Lemma awp_refines {X} (m : AM W X) p s :
  refines m -> reaches p s -> awp m (fun _ s' => reaches p s') s.
Proof.
  intros Hm Hp. eapply awp_mono; [apply Hm|]. intros ? s' Hs'. unfold reaches in *. by etrans.
Qed.

Lemma wp_refines_bind {X Y} (m : AM W X) (k : X -> AM W Y) p s :
  refines m -> reaches p s -> (forall x, refines (k x)) ->
  awp (m ≫= k) (fun _ s' => reaches p s') s.
Proof.
  intros Hm Hp Hk. apply awp_bind. eapply awp_mono; [by apply awp_refines|].
  intros x s' Hs'. by apply awp_refines.
Qed.

Lemma refines_bind {X Y} (m : AM W X) (k : X -> AM W Y) :
  refines m -> (forall x, refines (k x)) -> refines (m ≫= k).
Proof. intros Hm Hk s. apply wp_refines_bind; auto. apply rtc_refl. Qed.

Lemma refines_ret {X} (x : X) : refines (mret x).
Proof. intros s. apply rtc_refl. Qed.

Lemma refines_gets {X} (f : RuntimeActor W -> X) : refines (gets f).
Proof. intros s. apply rtc_refl. Qed.

Lemma refines_crash {X} : refines (@crash W _ X).
Proof. intros s. exact Logic.I. Qed.

Lemma refines_when b m : refines m -> refines (when b m).
Proof. intros Hm. destruct b; [done|apply refines_ret]. Qed.

Lemma refines_debug_assert b : refines (debug_assert b).
Proof. destruct b; [apply refines_ret|apply refines_crash]. Qed.

Lemma refines_afor {X} (l : list X) (f : X -> AM W unit) :
  (forall x, refines (f x)) -> refines (afor l f).
Proof.
  intros Hf. induction l; simpl; [apply refines_ret|]. apply refines_bind; auto.
Qed.

(** A change the protocol does not see, and one that is a quiet move. *)
Lemma refines_unseen f : (forall s, proto (f s) = proto s) -> refines (modify f).
Proof. intros Hf s. unfold awp, modify, reaches. rewrite Hf. apply rtc_refl. Qed.

Lemma refines_quiet f : (forall s, quiet_move (proto s) (proto (f s))) -> refines (modify f).
Proof. intros Hf s. apply rtc_once, mv_quiet, Hf. Qed.

Lemma awp_modify f Q s : Q tt (f s) -> awp (modify f) Q s.
Proof. done. Qed.
Lemma awp_gets {X} (f : RuntimeActor W -> X) Q s : Q (f s) s -> awp (gets f) Q s.
Proof. done. Qed.
Lemma awp_debug_assert b Q s : (b = true -> Q tt s) -> awp (debug_assert b) Q s.
Proof. destruct b; [intros HQ; by apply HQ|done]. Qed.

(** A query of the actuator changes nothing of it. *)
Lemma refines_query {X} (m : M W X) :
  (forall t, (m t).2 = t) -> refines (query_actuator m).
Proof.
  intros Hm s. unfold awp, query_actuator. specialize (Hm (ra_sys s)).
  destruct (m (ra_sys s)) as [r t]. cbn in Hm. subst. unfold reaches.
  by destruct s.
Qed.

Lemma refines_clock : refines clock.
Proof.
  intros s. unfold awp, clock. destruct (monotonic_millis _). apply rtc_refl.
Qed.
End refines.

(** One syntactic step of a refinement proof. *)
Ltac open_state := let s := fresh "s" in intros s; destruct s as [[] [] [] [] [] [] [] [] [] [] [] [] [] ? ?].

Ltac quiet_change :=
  first
    [ solve [apply refines_unseen; open_state; reflexivity]
    | solve [apply refines_unseen; intros s; cbv beta;
             repeat match goal with |- proto (match ?x with _ => _ end) = _ => destruct x end;
             revert s; open_state; reflexivity]
    | solve [apply refines_quiet; open_state;
             first [exact (mv_dirty _ _) | exact (mv_last_check _ _) | exact (mv_last_scan _ _)
                   | exact (mv_not_pending _) | exact (mv_identity_reads _ _) | exact (mv_app_persist _ _)
                   | exact (mv_app_channel _ _) | exact (mv_capabilities _ _)
                   | exact (mv_pending_resume _ _) | exact (mv_wake_waiters _ _)
                   | exact (mv_sleep_waiters _ _) | exact (mv_stop_waiters _ _)
                   | exact (mv_activate _) | exact (mv_close _)
                   | exact (mv_request_restore _) | exact (mv_suspend _)
                   | exact (mv_not_restored _) | exact (mv_resume _)]] ].

Ltac refine_step :=
  match goal with
  | |- refines (_ ≫= _) => apply refines_bind; [|intros]
  | |- refines (mret _) => apply refines_ret
  | |- refines (gets _) => apply refines_gets
  | |- refines crash => apply refines_crash
  | |- refines (when _ _) => apply refines_when
  | |- refines (debug_assert _) => apply refines_debug_assert
  | |- refines (afor _ _) => apply refines_afor; intros
  | |- refines clock => apply refines_clock
  | |- refines (query_actuator _) => apply refines_query; done
  | |- refines (modify _) => first [quiet_change | solve [eauto with refines nocore]]
  | |- refines (match ?x with _ => _ end) => destruct x
  | |- refines _ => solve [eauto with refines nocore]
  end.
Ltac refine_all := repeat refine_step.

Section handlers.
Context {W : Type} `{!Ports W} `{!Environment W} `{!IdentityReader W} `{RegexEngine}.
Local Abbreviation refines m := (refines (W:=W) m).

(** ** Helpers *)

Lemma refines_insert_issue i : refines (insert_issue i).
Proof. unfold insert_issue. refine_all. Qed.
Lemma refines_remove_issue c : refines (remove_issue c).
Proof. unfold remove_issue. refine_all. Qed.
Lemma refines_bump_generation : refines bump_generation.
Proof. unfold bump_generation. refine_all. Qed.
Lemma refines_set_scheduler_dirty : refines set_scheduler_dirty.
Proof. unfold set_scheduler_dirty. refine_all. Qed.
Lemma refines_answer r v : refines (answer r v).
Proof. unfold answer. refine_all. Qed.
Lemma refines_configuration : refines configuration.
Proof. unfold configuration. refine_all. Qed.
Lemma refines_generation : refines generation.
Proof. unfold generation. refine_all. Qed.
Lemma refines_mark_decision_trigger c : refines (mark_decision_trigger c).
Proof. unfold mark_decision_trigger. refine_all. Qed.
#[local] Hint Resolve refines_insert_issue refines_remove_issue refines_bump_generation
  refines_set_scheduler_dirty refines_answer refines_configuration refines_generation
  refines_mark_decision_trigger : refines.

(** ** Evaluation and submission *)

Lemma refines_fail_reconcile_worker e : refines (fail_reconcile_worker e).
Proof.
  unfold fail_reconcile_worker. refine_step; [|refine_all].
  open_state. apply rtc_once. unfold awp, modify, proto, latched. cbn. rewrite orb_true_r.
  exact (mv_latch _).
Qed.

Lemma submission_blocked_proto (s : RuntimeActor W) : submission_blocked s = blocked (proto s).
Proof. done. Qed.

(** A scheduler submission, and a frequency submission, of an open state. *)
Lemma submit_scheduler_reaches d (s : RuntimeActor W) :
  open_for_work (proto s) -> awp (submit_scheduler_reconcile d) (fun _ s' => reaches (proto s) s') s.
Proof.
  intros Hopen. unfold submit_scheduler_reconcile. apply awp_bind, awp_gets.
  case_bool_decide as Hin; apply awp_modify; apply rtc_once.
  - revert Hopen Hin. destruct s as [[] [] [] [] [] [] [] [] [] [] [] [] [] ? ?].
    exact (mv_scheduler_pending _).
  - apply eq_None_not_Some in Hin. revert Hopen Hin.
    generalize (reconcile_job s d false true).
    destruct s as [[] [] [] [] [] [] [] [] [] [] [] [] [] ? ?].
    exact (mv_submit_scheduler _).
Qed.

Lemma submit_frequency_reaches d (s : RuntimeActor W) :
  open_for_work (proto s) -> ch_frequency_closed (ra_channels s) = false ->
  awp (submit_frequency_reconcile d)
    (fun _ s' => reaches (proto s) s' /\ open_for_work (proto s')) s.
Proof.
  intros Hopen Hclosed. unfold submit_frequency_reconcile. apply awp_bind, awp_gets.
  destruct (_ && _); [split; [apply rtc_refl|done]|].
  generalize (reconcile_job s d true false). intros job.
  generalize (correctable_drift_targets s d). intros drift.
  apply awp_bind, awp_modify. rewrite Hclosed. apply awp_modify. split.
  - apply rtc_once. revert Hopen Hclosed.
    destruct s as [[] [] [] [] [] [] [] [] [] [] [] [] [] ? ?].
    exact (mv_submit_frequency _ _ _).
  - revert Hopen. by destruct s as [[] [] [] [] [] [] [] [] [] [] [] [] [] ? ?].
Qed.

(** With the worker gone the latch engages, and the scheduler request of the
    same evaluation still goes out. *)
Lemma submit_closed_reaches d b (s : RuntimeActor W) :
  open_for_work (proto s) -> ch_frequency_closed (ra_channels s) = true ->
  awp (submit_frequency_reconcile d;; when b (submit_scheduler_reconcile d))
    (fun _ s' => reaches (proto s) s') s.
Proof.
  intros Hopen Hclosed. unfold submit_frequency_reconcile. apply awp_bind, awp_bind, awp_gets.
  destruct (_ && _).
  { apply awp_ret. destruct b; [by apply submit_scheduler_reaches|apply rtc_refl]. }
  apply awp_bind, awp_modify. rewrite Hclosed.
  unfold fail_reconcile_worker. apply awp_bind, awp_modify. unfold insert_issue. apply awp_modify.
  revert Hopen Hclosed. destruct s as [[] [] [] [] [] [] [] [] [] [] [] [] [] ? ?].
  intros Hopen Hclosed. destruct b.
  - apply awp_bind, awp_gets. case_bool_decide as Hin; apply awp_modify; apply rtc_once;
      unfold proto, latched; cbn; rewrite orb_true_r.
    + exact (mv_submit_closed_pending _ Hopen Hclosed Hin).
    + apply eq_None_not_Some in Hin.
      exact (mv_submit_closed_scheduler _ _ Hopen Hclosed Hin).
  - apply awp_ret, rtc_once. unfold proto, latched; cbn; rewrite orb_true_r.
    exact (mv_submit_closed _ Hopen Hclosed).
Qed.

Lemma refines_submit now d : refines (submit now d).
Proof.
  intros s. unfold submit. apply awp_bind, awp_gets.
  destruct (submission_blocked s) eqn:Hb; [apply rtc_refl|].
  destruct (cf_actuator (ra_config s)) eqn:Ha; [|revert s Hb Ha; open_state; intros;
    apply rtc_once, mv_quiet; exact (mv_dirty _ _)].
  destruct (fa_actuator_read_only (ra_failures s)) eqn:Hr; [apply rtc_refl|].
  assert (Hopen : open_for_work (proto s)).
  { split; [done|]. split; [|done]. unfold proto. cbn. rewrite Ha. eauto. }
  destruct (frequency_needs_reconcile s d && _); simpl.
  2:{ apply awp_bind, awp_ret. destruct (_ && _); [by apply submit_scheduler_reaches|apply rtc_refl]. }
  destruct (ch_frequency_closed (ra_channels s)) eqn:Hclosed; [by apply submit_closed_reaches|].
  apply awp_bind. eapply awp_mono; [by apply submit_frequency_reaches|].
  intros ? s' [Hs' Hopen']. destruct (_ && _); [|done].
  eapply awp_mono; [by apply submit_scheduler_reaches|].
  intros ? s2 Hs2. unfold reaches in *. by etrans.
Qed.

Lemma refines_refresh_external_constraint_health : refines refresh_external_constraint_health.
Proof.
  unfold refresh_external_constraint_health. refine_all; auto using refines_remove_issue, refines_insert_issue.
Qed.
#[local] Hint Resolve refines_fail_reconcile_worker refines_submit
  refines_refresh_external_constraint_health : refines.

Lemma refines_prepare_external_drift_state d : refines (prepare_external_drift_state d).
Proof. unfold prepare_external_drift_state. refine_all. Qed.
Lemma refines_adopt_plan d : refines (adopt_plan d).
Proof. unfold adopt_plan. refine_all. Qed.
#[local] Hint Resolve refines_prepare_external_drift_state refines_adopt_plan : refines.

Lemma refines_evaluate_and_reconcile : refines evaluate_and_reconcile.
Proof. unfold evaluate_and_reconcile. refine_all. Qed.
Lemma refines_clear_frequency_failure : refines clear_frequency_failure.
Proof. unfold clear_frequency_failure. refine_all. Qed.
Lemma refines_clear_scheduler_failure : refines clear_scheduler_failure.
Proof. unfold clear_scheduler_failure. refine_all. Qed.
Lemma refines_record_frequency_failure m : refines (record_frequency_failure m).
Proof. unfold record_frequency_failure. refine_all. Qed.
Lemma refines_record_scheduler_failure m : refines (record_scheduler_failure m).
Proof. unfold record_scheduler_failure. refine_all. Qed.
Lemma refines_observe_external_frequency_drift : refines observe_external_frequency_drift.
Proof. unfold observe_external_frequency_drift. refine_all. Qed.
Lemma refines_record_external_drift_corrections m : refines (record_external_drift_corrections m).
Proof. unfold record_external_drift_corrections. refine_all. Qed.
#[local] Hint Resolve refines_evaluate_and_reconcile refines_clear_frequency_failure
  refines_clear_scheduler_failure refines_record_frequency_failure refines_record_scheduler_failure
  refines_observe_external_frequency_drift refines_record_external_drift_corrections : refines.

(** ** Observations and the safety fence *)

Lemma refines_set_read_only_true : refines (set_read_only true).
Proof.
  open_state. apply rtc_once. exact (mv_read_only _ true (fun _ => eq_refl)).
Qed.
#[local] Hint Resolve refines_set_read_only_true : refines.

(** The read-only flag of the actuator never outlives the latch. *)
Lemma refines_keep_latch :
  refines (modify (fun s => s <|ra_failures->fa_actuator_read_only ::= (fun b => b || latched s)|>)).
Proof.
  intros s. apply rtc_once.
  assert (Hg : pr_latched (proto s) = true -> pr_read_only (proto s) || pr_latched (proto s) = true).
  { intros ->. apply orb_true_r. }
  revert Hg. destruct s as [[] [] [] [] [] [] [] [] [] [] [] [] [] ? ?].
  exact (mv_read_only _ _).
Qed.

Lemma refines_read_write :
  refines (set_read_only false;;
           modify (fun s => s <|ra_failures->fa_actuator_read_only ::= (fun b => b || latched s)|>)).
Proof.
  intros s. apply awp_bind, awp_modify, awp_modify, rtc_once.
  assert (Hg : pr_latched (proto s) = true -> pr_latched (proto s) = true) by done.
  revert Hg. destruct s as [[] [] [] [] [] [] [] [] [] [] [] [] [] ? ?].
  exact (mv_read_only _ _).
Qed.
#[local] Hint Resolve refines_keep_latch refines_read_write : refines.

Lemma refines_refresh_actuator_health : refines refresh_actuator_health.
Proof.
  unfold refresh_actuator_health. apply refines_bind; [refine_all|intros _].
  apply refines_bind; [refine_all|intros [a|]]; [|refine_all].
  apply refines_bind; [refine_all|intros pending]. apply refines_bind; [refine_all|intros _].
  apply refines_bind; [refine_all|intros [[|reason]|e|]]; [apply refines_read_write|refine_all..].
Qed.

#[local] Hint Resolve refines_refresh_actuator_health : refines.

Lemma refines_seed_warning n w : refines (seed_warning n w).
Proof. unfold seed_warning. refine_all. Qed.
#[local] Hint Resolve refines_seed_warning : refines.

Lemma refines_seed_health : refines seed_health.
Proof. unfold seed_health. refine_all. Qed.
#[local] Hint Resolve refines_seed_health : refines.

Lemma start_update_wp caps (s : RuntimeActor W) :
  sf_update_in_flight (ra_safety s) = None ->
  awp (start_frequency_safety_update caps) (fun _ s' => proto s' = start_update caps (proto s)) s.
Proof.
  intros Hnone. unfold start_frequency_safety_update. apply awp_bind, awp_gets.
  apply awp_bind, awp_debug_assert. intros _. apply awp_bind, awp_modify, awp_bind, awp_gets, awp_modify.
  by destruct s as [[] [] [] [] [] [] [] [] [] [] [] [] [] ? ?].
Qed.

Lemma request_caps_wp caps (s : RuntimeActor W) :
  awp (request_frequency_safety_update caps) (fun _ s' => proto s' = request_caps caps (proto s)) s.
Proof.
  unfold request_frequency_safety_update. apply awp_bind, awp_gets. unfold request_caps.
  change (pr_safety_failed (proto s))
    with (bool_decide (is_Some (fa_frequency_safety_failure (ra_failures s)))).
  change (pr_safety (proto s)) with (ra_safety s).
  destruct (_ || _); [by apply awp_ret|]. apply awp_bind, awp_modify. case_bool_decide as Hin.
  - apply awp_modify. by destruct s as [[] [] [] [] [] [] [] [] [] [] [] [] [] ? ?].
  - apply eq_None_not_Some in Hin. eapply awp_mono.
    + apply start_update_wp. by destruct s as [[] [] [] [] [] [] [] [] [] [] [] [] [] ? ?].
    + intros ? s' ->. by destruct s as [[] [] [] [] [] [] [] [] [] [] [] [] [] ? ?].
Qed.

(** The caps follow the thermal state and the targets as they are now. *)
Lemma update_caps_wp (s : RuntimeActor W) :
  awp update_thermal_caps
    (fun _ s' => rtc move (set_thermal (sn_thermal_state (ra_sensing s))
       (rc_targets (cf_configuration (ra_config s))) (proto s)) (proto s')) s.
Proof.
  unfold update_thermal_caps. apply awp_bind, awp_gets, awp_bind, awp_modify, awp_bind.
  eapply awp_mono; [apply request_caps_wp|]. intros ? s' Hs'. apply awp_refines; [refine_all|].
  unfold reaches. rewrite Hs'.
  replace (set_thermal _ _ _) with (request_caps
    (upper_caps_of (administrator_caps (cf_configuration (ra_config s)))
       (omap (thermal_cap_of (sn_thermal_state (ra_sensing s))) (rc_targets (cf_configuration (ra_config s)))))
    (proto (s <|ra_sensing->sn_thermal_caps :=
       omap (thermal_cap_of (sn_thermal_state (ra_sensing s))) (rc_targets (cf_configuration (ra_config s)))|>)));
    [apply rtc_refl|].
  by destruct s as [[] [] [] [] [] [] [] [] [] [] [] [] [] ? ?].
Qed.

(** What the thermal state is may change before the caps follow it. *)
Definition forget (p : Proto) : Proto :=
  p <|pr_thermal := Normal|> <|pr_thermal_caps := ∅|> <|pr_targets := ∅|>.

Lemma set_thermal_forget state targets p q :
  forget p = forget q -> set_thermal state targets p = set_thermal state targets q.
Proof. destruct p, q. intros Heq. injection Heq. intros. subst. done. Qed.

Definition recaps {X} (m : AM W X) : Prop :=
  forall p s, forget (proto s) = forget p -> awp m (fun _ s' => reaches p s') s.
Definition forgettable {X} (m : AM W X) : Prop :=
  forall s, awp m (fun _ s' => forget (proto s') = forget (proto s)) s.

Lemma recaps_refines {X} (m : AM W X) : recaps m -> refines m.
Proof. intros Hm s. by apply Hm. Qed.
Lemma recaps_bind {X Y} (m : AM W X) (k : X -> AM W Y) :
  forgettable m -> (forall x, recaps (k x)) -> recaps (m ≫= k).
Proof.
  intros Hm Hk p s Hs. apply awp_bind. eapply awp_mono; [apply Hm|]. intros x s' Hs'.
  apply Hk. congruence.
Qed.
Lemma recaps_then {X Y} (m : AM W X) (k : X -> AM W Y) :
  recaps m -> (forall x, refines (k x)) -> recaps (m ≫= k).
Proof.
  intros Hm Hk p s Hs. apply awp_bind. eapply awp_mono; [by apply Hm|]. intros x s' Hs'.
  by apply awp_refines.
Qed.
Lemma recaps_update_thermal_caps : recaps update_thermal_caps.
Proof.
  intros p s Hs. eapply awp_mono; [apply update_caps_wp|]. intros ? s' Hs'. unfold reaches.
  eapply rtc_l; [|exact Hs']. rewrite (set_thermal_forget _ _ _ _ Hs). apply mv_thermal.
Qed.

Lemma forgettable_bind {X Y} (m : AM W X) (k : X -> AM W Y) :
  forgettable m -> (forall x, forgettable (k x)) -> forgettable (m ≫= k).
Proof.
  intros Hm Hk s. apply awp_bind. eapply awp_mono; [apply Hm|]. intros x s' Hs'.
  eapply awp_mono; [apply Hk|]. intros ? s'' ->. done.
Qed.
Lemma forgettable_gets {X} (f : RuntimeActor W -> X) : forgettable (gets f).
Proof. by intros s. Qed.
Lemma forgettable_clock : forgettable clock.
Proof. intros s. unfold awp, clock. by destruct (monotonic_millis _). Qed.
Lemma forgettable_modify f : (forall s, forget (proto (f s)) = forget (proto s)) -> forgettable (modify f).
Proof. intros Hf s. apply awp_modify, Hf. Qed.
Lemma forgettable_issue i : forgettable (insert_issue i).
Proof. apply forgettable_modify. by open_state. Qed.
Lemma forgettable_remove_issue c : forgettable (remove_issue c).
Proof. apply forgettable_modify. by open_state. Qed.

Lemma forgettable_health : forgettable update_thermal_health.
Proof.
  unfold update_thermal_health. apply forgettable_bind; [apply forgettable_remove_issue|intros _].
  apply forgettable_bind; [apply forgettable_gets|intros st]. unfold when.
  destruct (bool_decide _); [apply forgettable_issue|by intros s].
Qed.

Lemma forgettable_mark_all now : forgettable (mark_all_thermal_unavailable now).
Proof.
  unfold mark_all_thermal_unavailable, configuration.
  apply forgettable_bind; [apply forgettable_gets|intros c].
  apply forgettable_bind; [apply forgettable_modify; by open_state|intros _].
  apply forgettable_bind; [apply forgettable_modify; by open_state|intros _].
  apply forgettable_health.
Qed.

Lemma recaps_adopt_thermal r : recaps (adopt_thermal r).
Proof.
  destruct r as [[states maximum] n]. unfold adopt_thermal.
  apply recaps_bind; [apply forgettable_modify; by open_state|intros _].
  apply recaps_bind; [apply forgettable_health|intros _]. apply recaps_update_thermal_caps.
Qed.

Lemma refines_update_thermal_caps : refines update_thermal_caps.
Proof. apply recaps_refines, recaps_update_thermal_caps. Qed.
Lemma refines_update_thermal_health : refines update_thermal_health.
Proof. unfold update_thermal_health. refine_all. Qed.
Lemma refines_adopt_thermal r : refines (adopt_thermal r).
Proof. apply recaps_refines, recaps_adopt_thermal. Qed.
#[local] Hint Resolve refines_update_thermal_caps refines_update_thermal_health refines_adopt_thermal :
  refines.

Lemma refines_bump_telemetry : refines bump_telemetry.
Proof. unfold bump_telemetry. refine_all. Qed.
#[local] Hint Resolve refines_bump_telemetry : refines.

Lemma refines_reduce_thermal o : refines (reduce_thermal o).
Proof.
  unfold reduce_thermal. do 3 (apply refines_bind; [refine_all|intros]). destruct o; [|refine_all].
  apply refines_bind; [refine_all|intros _]. apply recaps_refines.
  apply recaps_bind; [apply forgettable_mark_all|intros _].
  apply recaps_then; [apply recaps_update_thermal_caps|intros _; refine_all].
Qed.
Lemma refines_refresh_thermal_staleness now : refines (refresh_thermal_staleness now).
Proof. unfold refresh_thermal_staleness. refine_all. Qed.
Lemma refines_update_load_observer_cadence : refines update_load_observer_cadence.
Proof. unfold update_load_observer_cadence. refine_all. Qed.
Lemma refines_deactivate_scene scene : refines (deactivate_scene scene).
Proof. unfold deactivate_scene. refine_all. Qed.
Lemma refines_activate_hint h : refines (activate_hint h).
Proof. unfold activate_hint. refine_all. Qed.
#[local] Hint Resolve refines_reduce_thermal refines_refresh_thermal_staleness
  refines_update_load_observer_cadence refines_deactivate_scene refines_activate_hint : refines.

Lemma refines_invalidate_load_state : refines invalidate_load_state.
Proof. unfold invalidate_load_state. refine_all. Qed.
#[local] Hint Resolve refines_invalidate_load_state : refines.

Lemma refines_update_heavy_load exp sample previous : refines (update_heavy_load exp sample previous).
Proof. unfold update_heavy_load. refine_all. Qed.
#[local] Hint Resolve refines_update_heavy_load : refines.

Lemma refines_reduce_load exp o : refines (reduce_load exp o).
Proof. unfold reduce_load. refine_all. Qed.
Lemma refines_refresh_load_staleness now : refines (refresh_load_staleness now).
Proof. unfold refresh_load_staleness. refine_all. Qed.
Lemma refines_refresh_frequency_staleness now : refines (refresh_frequency_staleness now).
Proof. unfold refresh_frequency_staleness. refine_all. Qed.
Lemma refines_observer_error kv : refines (observer_error kv).
Proof. unfold observer_error. refine_all. Qed.
#[local] Hint Resolve refines_reduce_load refines_refresh_load_staleness
  refines_refresh_frequency_staleness refines_observer_error : refines.

Lemma refines_reduce_frequencies o : refines (reduce_frequencies o).
Proof. unfold reduce_frequencies. refine_all. Qed.
Lemma refines_observer_health code severity component o : refines (observer_health code severity component o).
Proof. unfold observer_health. refine_all. Qed.
#[local] Hint Resolve refines_reduce_frequencies refines_observer_health : refines.

Lemma refines_reduce_logind_health o : refines (reduce_logind_health o).
Proof. apply refines_observer_health. Qed.
Lemma refines_reduce_input_health o : refines (reduce_input_health o).
Proof. apply refines_observer_health. Qed.
Lemma refines_reduce_running_workload_observer_health o : refines (reduce_running_workload_observer_health o).
Proof. apply refines_observer_health. Qed.
#[local] Hint Resolve refines_reduce_logind_health refines_reduce_input_health
  refines_reduce_running_workload_observer_health : refines.

(** ** Interactions and focus *)

Lemma refines_clear_interaction_hints g : refines (clear_interaction_hints g).
Proof. unfold clear_interaction_hints. refine_all. Qed.
Lemma refines_forget_render : refines forget_render.
Proof. unfold forget_render. refine_all. Qed.
#[local] Hint Resolve refines_clear_interaction_hints refines_forget_render : refines.

Lemma refines_begin_interaction : refines begin_interaction.
Proof. unfold begin_interaction. refine_all. Qed.
Lemma refines_activate_current_interaction_hint scene : refines (activate_current_interaction_hint scene).
Proof. unfold activate_current_interaction_hint. refine_all. Qed.
Lemma refines_end_interaction : refines end_interaction.
Proof. unfold end_interaction. refine_all. Qed.
#[local] Hint Resolve refines_begin_interaction refines_activate_current_interaction_hint
  refines_end_interaction : refines.

Lemma refines_activate_external_hint scene : refines (activate_external_hint scene).
Proof. unfold activate_external_hint. refine_all. Qed.
Lemma refines_finish_render_idle_if_due now : refines (finish_render_idle_if_due now).
Proof. unfold finish_render_idle_if_due. refine_all. Qed.
Lemma refines_withdraw_touch : refines withdraw_touch.
Proof. unfold withdraw_touch. refine_all. Qed.
Lemma refines_change_contacts f : refines (change_contacts f).
Proof. unfold change_contacts. refine_all. Qed.
#[local] Hint Resolve refines_activate_external_hint refines_finish_render_idle_if_due
  refines_withdraw_touch refines_change_contacts : refines.

Lemma refines_reduce_input e : refines (reduce_input e).
Proof. unfold reduce_input. refine_all. Qed.
Lemma refines_reduce_session_state state : refines (reduce_session_state state).
Proof. unfold reduce_session_state. refine_all. Qed.
Lemma refines_authorize_frame_reporter u peer : refines (authorize_frame_reporter u peer).
Proof. unfold authorize_frame_reporter. refine_all. Qed.
Lemma refines_receipt_now c m : refines (receipt_now c m).
Proof. unfold receipt_now. refine_all. Qed.
#[local] Hint Resolve refines_reduce_input refines_reduce_session_state
  refines_authorize_frame_reporter refines_receipt_now : refines.

Lemma refines_render_started now : refines (render_started now).
Proof. unfold render_started. refine_all. Qed.
Lemma refines_render_idle now : refines (render_idle now).
Proof. unfold render_idle. refine_all. Qed.
Lemma refines_deadline_missed now : refines (deadline_missed now).
Proof. unfold deadline_missed. refine_all. Qed.
Lemma refines_blank_display : refines blank_display.
Proof. unfold blank_display. refine_all. Qed.
Lemma refines_unblank_display : refines unblank_display.
Proof. unfold unblank_display. refine_all. Qed.
#[local] Hint Resolve refines_render_started refines_render_idle refines_deadline_missed
  refines_blank_display refines_unblank_display : refines.

Lemma refines_command_report_frame_hint e u peer : refines (command_report_frame_hint e u peer).
Proof. unfold command_report_frame_hint. refine_all. Qed.
Lemma refines_reset_frame_reporter_state : refines reset_frame_reporter_state.
Proof. unfold reset_frame_reporter_state. refine_all. Qed.
#[local] Hint Resolve refines_command_report_frame_hint refines_reset_frame_reporter_state :
  refines.

Lemma refines_install_frame_reporter peer u t : refines (install_frame_reporter peer u t).
Proof. unfold install_frame_reporter. refine_all. Qed.
Lemma refines_revoke_frame_reporter peer : refines (revoke_frame_reporter peer).
Proof. unfold revoke_frame_reporter. refine_all. Qed.
#[local] Hint Resolve refines_install_frame_reporter refines_revoke_frame_reporter : refines.

Lemma refines_expire_frame_reporter_lease now : refines (expire_frame_reporter_lease now).
Proof. unfold expire_frame_reporter_lease. refine_all. Qed.
Lemma refines_advance_focus_report_revision : refines advance_focus_report_revision.
Proof. unfold advance_focus_report_revision. refine_all. Qed.
#[local] Hint Resolve refines_expire_frame_reporter_lease refines_advance_focus_report_revision :
  refines.

Lemma refines_invalidate_focus_reports : refines invalidate_focus_reports.
Proof. unfold invalidate_focus_reports. refine_all. Qed.
Lemma refines_release_focus_lease : refines release_focus_lease.
Proof. unfold release_focus_lease. refine_all. Qed.
Lemma refines_expire_focus_lease now : refines (expire_focus_lease now).
Proof. unfold expire_focus_lease. refine_all. Qed.
#[local] Hint Resolve refines_invalidate_focus_reports refines_release_focus_lease
  refines_expire_focus_lease : refines.

Lemma refines_reject_focus peer m : refines (reject_focus peer m).
Proof. unfold reject_focus. refine_all. Qed.
#[local] Hint Resolve refines_reject_focus : refines.

Lemma refines_complete_focus_report p u peer r o : refines (complete_focus_report p u peer r o).
Proof. unfold complete_focus_report. refine_all. Qed.
Lemma refines_complete_focus_refresh e o : refines (complete_focus_refresh e o).
Proof. unfold complete_focus_refresh. refine_all. Qed.
Lemma refines_select_workload w q : refines (select_workload w q).
Proof. unfold select_workload. refine_all. Qed.
#[local] Hint Resolve refines_complete_focus_report refines_complete_focus_refresh
  refines_select_workload : refines.

Lemma refines_complete_set_workload p q u o : refines (complete_set_workload p q u o).
Proof. unfold complete_set_workload. refine_all. Qed.
Lemma refines_complete_clear_workload e u c : refines (complete_clear_workload e u c).
Proof. unfold complete_clear_workload. refine_all. Qed.
Lemma refines_clear_exited_workload : refines clear_exited_workload.
Proof. unfold clear_exited_workload. refine_all. Qed.
#[local] Hint Resolve refines_complete_set_workload refines_complete_clear_workload
  refines_clear_exited_workload : refines.

Lemma refines_complete_workload_refresh e o : refines (complete_workload_refresh e o).
Proof. unfold complete_workload_refresh. refine_all. Qed.
#[local] Hint Resolve refines_complete_workload_refresh : refines.

Lemma refines_on_world {X} (op : W -> X * W) : refines (on_world op).
Proof. intros s. unfold awp, on_world. destruct (op _). apply rtc_refl. Qed.
#[local] Hint Resolve refines_on_world : refines.

Lemma refines_ensure_process_identity_reader : refines ensure_process_identity_reader.
Proof. unfold ensure_process_identity_reader. refine_all. Qed.
#[local] Hint Resolve refines_ensure_process_identity_reader : refines.

Lemma refines_send_identity_read p : refines (send_identity_read p).
Proof. unfold send_identity_read. refine_all. Qed.
Lemma refines_complete_process_identity e o : refines (complete_process_identity e o).
Proof. unfold complete_process_identity. refine_all. Qed.
#[local] Hint Resolve refines_send_identity_read refines_complete_process_identity : refines.

Lemma refines_drive_pending_focus_with start now :
  (forall p e, refines (start p e)) -> refines (drive_pending_focus_with start now).
Proof. intros Hstart. unfold drive_pending_focus_with. refine_all; apply Hstart. Qed.
#[local] Hint Resolve refines_drive_pending_focus_with : refines.

Lemma refines_finish_process_identity_with start o :
  (forall p e, refines (start p e)) -> refines (finish_process_identity_with start o).
Proof. intros Hstart. unfold finish_process_identity_with. refine_all. Qed.
#[local] Hint Resolve refines_finish_process_identity_with : refines.

Lemma refines_start_process_identity_read_in fuel p e :
  refines (start_process_identity_read_in fuel p e).
Proof. revert p e. induction fuel; simpl; intros; refine_all. Qed.
#[local] Hint Resolve refines_start_process_identity_read_in : refines.

Lemma refines_start_process_identity_read p e : refines (start_process_identity_read p e).
Proof. unfold start_process_identity_read. refine_all. Qed.
#[local] Hint Resolve refines_start_process_identity_read : refines.

Lemma refines_drive_pending_focus now : refines (drive_pending_focus now).
Proof. unfold drive_pending_focus. refine_all. Qed.
Lemma refines_finish_process_identity o : refines (finish_process_identity o).
Proof. unfold finish_process_identity. refine_all. Qed.
Lemma refines_check_workload_identity : refines check_workload_identity.
Proof. unfold check_workload_identity. refine_all. Qed.
Lemma refines_refuse_receipt r e : refines (refuse_receipt r e).
Proof. unfold refuse_receipt. refine_all. Qed.
#[local] Hint Resolve refines_drive_pending_focus refines_finish_process_identity
  refines_check_workload_identity refines_refuse_receipt : refines.

Lemma refines_start_set_workload w u r : refines (start_set_workload w u r).
Proof. unfold start_set_workload. refine_all. Qed.
Lemma refines_start_clear_workload u r : refines (start_clear_workload u r).
Proof. unfold start_clear_workload. refine_all. Qed.
Lemma refines_accept_focus_report p reason u peer : refines (accept_focus_report p reason u peer).
Proof. unfold accept_focus_report. refine_all. Qed.
Lemma refines_command_clear_foreground_from_peer u peer : refines (command_clear_foreground_from_peer u peer).
Proof. unfold command_clear_foreground_from_peer. refine_all. Qed.
Lemma refines_forget_focus_peer peer : refines (forget_focus_peer peer).
Proof. unfold forget_focus_peer. refine_all. Qed.
#[local] Hint Resolve refines_start_set_workload refines_start_clear_workload
  refines_accept_focus_report refines_command_clear_foreground_from_peer refines_forget_focus_peer :
  refines.

(** ** Control *)

Lemma refines_command_set_mode m : refines (command_set_mode m).
Proof. unfold command_set_mode. refine_all. Qed.
Lemma refines_command_set_overrides l : refines (command_set_overrides l).
Proof. unfold command_set_overrides. refine_all. Qed.
Lemma refines_command_clear_overrides l : refines (command_clear_overrides l).
Proof. unfold command_clear_overrides. refine_all. Qed.
Lemma refines_expire_overrides now : refines (expire_overrides now).
Proof. unfold expire_overrides. refine_all. Qed.
#[local] Hint Resolve refines_command_set_mode refines_command_set_overrides
  refines_command_clear_overrides refines_expire_overrides : refines.

Lemma refines_start_app_persistence a c m r : refines (start_app_persistence a c m r).
Proof.
  open_state. eapply rtc_l; [apply mv_quiet; exact (mv_app_persist _ true)|].
  apply rtc_once, mv_quiet. exact (mv_app_channel _ _).
Qed.
#[local] Hint Resolve refines_start_app_persistence : refines.
Lemma refines_start_set_app_rule r reply : refines (start_set_app_rule r reply).
Proof. unfold start_set_app_rule. refine_all. Qed.
Lemma refines_start_remove_app_rule r reply : refines (start_remove_app_rule r reply).
Proof. unfold start_remove_app_rule. refine_all. Qed.
Lemma refines_finish_app_persistence o : refines (finish_app_persistence o).
Proof. unfold finish_app_persistence. refine_all. Qed.
#[local] Hint Resolve refines_start_set_app_rule refines_start_remove_app_rule
  refines_finish_app_persistence : refines.

Lemma refines_start_reload reply : refines (start_reload reply).
Proof.
  intros s. unfold start_reload, update_in_flight. apply awp_bind, awp_gets.
  destruct (ba_app_persist_in_flight (ra_barrier s)); [apply awp_refines; [refine_all|apply rtc_refl]|].
  destruct (ba_reload_in_flight (ra_barrier s)) eqn:Hr; [apply awp_refines; [refine_all|apply rtc_refl]|].
  apply awp_modify, rtc_once. revert Hr.
  destruct s as [[] [] [] [] [] [] [] [] [] [] [] [] [] ? ?]. intros Hr.
  match goal with |- move ?p _ => exact (mv_start_reload p reply Hr) end.
Qed.
#[local] Hint Resolve refines_start_reload : refines.

(** ** Barriers *)

Lemma refines_answer_all l v : refines (answer_all l v).
Proof. induction l; simpl; refine_all. Qed.
#[local] Hint Resolve refines_answer_all : refines.

(** [reaches] may be split at any state on the way. *)
Lemma awp_reaches {X} (m : AM W X) p s :
  reaches p s -> awp m (fun _ s' => reaches (proto s) s') s -> awp m (fun _ s' => reaches p s') s.
Proof.
  intros Hp Hm. eapply awp_mono; [exact Hm|]. intros ? s' Hs'. unfold reaches in *. by etrans.
Qed.

Lemma refines_enter_suspended_state : refines enter_suspended_state.
Proof.
  intros s. unfold enter_suspended_state, forget_render.
  apply awp_bind, awp_modify, awp_bind, awp_modify, awp_modify. revert s. open_state.
  eapply rtc_l; [apply mv_quiet; exact (mv_suspend _)|].
  apply rtc_once, mv_quiet. exact (mv_not_pending _).
Qed.
#[local] Hint Resolve refines_enter_suspended_state : refines.

Lemma recaps_distrust_thermal : recaps distrust_thermal.
Proof.
  unfold distrust_thermal. apply recaps_bind; [apply forgettable_modify; by open_state|intros _].
  apply recaps_bind; [apply forgettable_clock|intros now].
  apply recaps_bind; [apply forgettable_mark_all|intros _]. apply recaps_update_thermal_caps.
Qed.
Lemma refines_distrust_thermal : refines distrust_thermal.
Proof. apply recaps_refines, recaps_distrust_thermal. Qed.
#[local] Hint Resolve refines_distrust_thermal : refines.

Lemma refines_resume_from_sleep : refines resume_from_sleep.
Proof. unfold resume_from_sleep. refine_all. Qed.
#[local] Hint Resolve refines_resume_from_sleep : refines.

Lemma refines_supersede_resume why : refines (supersede_resume why).
Proof.
  unfold supersede_resume. apply refines_bind; [refine_all|intros waiters].
  apply refines_bind; [|intros _; refine_all].
  open_state. eapply rtc_l; [apply mv_quiet; exact (mv_pending_resume _ false)|].
  apply rtc_once, mv_quiet. exact (mv_wake_waiters _ _).
Qed.
#[local] Hint Resolve refines_supersede_resume : refines.

Lemma reaches_signature p (s : RuntimeActor W) : reaches p s -> pr_signature (proto s) = pr_signature p.
Proof.
  unfold reaches. generalize (proto s). intros q. induction 1 as [|? ? ? Hm _ IH]; [done|].
  rewrite IH. by apply move_same.
Qed.

(** The configuration swap keeps the target mapping. *)
Lemma refines_apply_reload_candidate c : refines (apply_reload_candidate c).
Proof.
  intros s0. unfold apply_reload_candidate. apply awp_bind, awp_gets.
  apply awp_bind, awp_debug_assert. intros Hsig. apply bool_decide_eq_true in Hsig.
  assert (Hlet : forall (f : RuntimeActor W -> RuntimeActor W) s (k : unit -> AM W ReloadReport),
    (forall s, target_signature c = pr_signature (proto s) ->
       forget (proto (f s)) = forget ((proto s) <|pr_lanes->ln_scheduler_dirty := true|>)) ->
    recaps (k tt) -> reaches (proto s0) s ->
    awp (modify f ≫= k) (fun _ s' => reaches (proto s0) s') s).
  { intros f s k Hf Hk Hs. apply awp_bind, awp_modify. eapply awp_mono; [eapply Hk, Hf|].
    - by rewrite (reaches_signature _ _ Hs).
    - intros r s' Hs'. unfold reaches in *. etrans; [exact Hs|].
      eapply rtc_l; [apply mv_quiet, mv_dirty|exact Hs']. }
  apply awp_bind. eapply awp_mono; [apply awp_refines; [refine_all|apply rtc_refl]|].
  intros ? s1 Hs1. apply awp_bind. eapply awp_mono; [apply awp_refines; [refine_all|exact Hs1]|].
  intros ? s2 Hs2. apply awp_bind, awp_gets. apply awp_bind.
  eapply awp_mono; [apply awp_refines; [refine_all|exact Hs2]|].
  intros ? s3 Hs3. apply awp_bind. eapply awp_mono; [apply awp_refines; [refine_all|exact Hs3]|].
  intros ? s4 Hs4.
  apply Hlet; [|apply recaps_then; [apply recaps_distrust_thermal|intros _; refine_all]|exact Hs4].
  clear. open_state. intros Heq. unfold forget. cbn -[target_signature] in Heq |- *. unfold constant. by rewrite Heq.
Qed.
#[local] Hint Resolve refines_apply_reload_candidate : refines.

Lemma wp_bind_reaches {X Y} (m : AM W X) (k : X -> AM W Y) p q s :
  awp m (fun _ s' => reaches q s') s -> rtc move p q -> (forall x, refines (k x)) ->
  awp (m ≫= k) (fun _ s' => reaches p s') s.
Proof.
  intros Hm Hpq Hk. apply awp_bind. eapply awp_mono; [exact Hm|]. intros x s' Hs'.
  apply awp_refines; [done|]. unfold reaches in *. by etrans.
Qed.

Lemma is_none_true {X} (o : option X) : is_none o = true -> o = None.
Proof. by destruct o. Qed.

(** A reload is taken when nothing is under way. *)
Lemma complete_reload_reaches outcome (s : RuntimeActor W) :
  ba_pending_reload (ra_barrier s) = Some outcome ->
  awp (modify (fun s => s <|ra_barrier->ba_pending_reload := None|>);; complete_reload outcome)
    (fun _ s' => reaches (proto s) s') s.
Proof.
  intros Hp. apply awp_bind, awp_modify. unfold complete_reload. apply awp_bind, awp_gets.
  apply awp_bind, awp_debug_assert. intros Hq. apply awp_bind, awp_debug_assert. intros Hc.
  apply awp_bind, awp_debug_assert. intros Hs. apply awp_bind, awp_debug_assert. intros Hr.
  apply awp_bind, awp_debug_assert. intros Hreq. apply awp_bind, awp_modify.
  apply awp_refines; [refine_all|]. apply rtc_once.
  assert (Hi : idle (proto s)).
  { revert Hq Hc Hs. destruct s as [[] [] [] [] [] [] [] [] [] [] [] [] [] ? ?]. 
    intros Hq Hc Hs. split; [exact Hq|]. split; apply is_none_true; [exact Hc|exact Hs]. }
  assert (Hn : ba_restore_in_flight (pr_barrier (proto s)) = None).
  { revert Hr. destruct s as [[] [] [] [] [] [] [] [] [] [] [] [] [] ? ?]. 
    apply is_none_true. }
  assert (Hb : ba_restore_requested (pr_barrier (proto s)) = false).
  { revert Hreq. destruct s as [[] [] [] [] [] [] [] [] [] [] [] [] [] ? ?].
    apply negb_true_iff. }
  revert Hp Hi Hn Hb. clear. destruct s as [[] [] [] [] [] [] [] [] [] [] [] [] [] ? ?]. intros Hp Hi Hn Hb.
  match goal with |- move ?p _ => exact (mv_take_reload p outcome Hi Hn Hb Hp) end.
Qed.

Lemma request_frequency_quiesce_reaches (s : RuntimeActor W) :
  barrier_requested (proto s) ->
  awp request_frequency_quiesce
    (fun _ s' => reaches (proto s) s' /\ ra_barrier s' = ra_barrier s) s.
Proof.
  intros Hb. unfold request_frequency_quiesce. apply awp_bind, awp_gets.
  destruct (_ || _) eqn:Hg; [split; [apply rtc_refl|done]|].
  apply orb_false_elim in Hg as [Hq Hp]. apply negb_false_iff in Hp.
  assert (Hp' : ln_frequency_quiesce_pending (pr_lanes (proto s)) = None).
  { by apply is_none_true. }
  apply awp_bind, awp_modify. destruct (ch_frequency_closed (ra_channels s)) eqn:Hc.
  - unfold fail_reconcile_worker, insert_issue. apply awp_bind, awp_bind, awp_modify, awp_modify, awp_modify.
    split; [|by destruct s as [[] [] [] [] [] [] [] [] [] [] [] [] [] ? ?]].
    apply rtc_once. revert Hc. clear. destruct s as [[] [] [] [] [] [] [] [] [] [] [] [] [] ? ?]. intros Hc.
    unfold proto, latched. cbn. rewrite orb_true_r.
    match goal with |- move ?p _ => exact (mv_quiesce_closed p Hc) end.
  - apply awp_modify. split; [|by destruct s as [[] [] [] [] [] [] [] [] [] [] [] [] [] ? ?]].
    apply rtc_once. revert Hb Hq Hp' Hc. clear.
    destruct s as [[] [] [] [] [] [] [] [] [] [] [] [] [] ? ?]. intros Hb Hq Hp' Hc.
    match goal with |- move ?p _ => exact (mv_quiesce p Hb Hq Hp' Hc) end.
Qed.

Lemma refines_start_restore_worker : refines start_restore_worker.
Proof.
  intros s. unfold start_restore_worker. apply awp_bind, awp_gets.
  apply awp_bind, awp_debug_assert. intros Hq. apply awp_bind, awp_debug_assert. intros Hc.
  apply awp_bind, awp_debug_assert. intros Hs. apply awp_bind, awp_debug_assert. intros Hr.
  apply awp_bind, awp_debug_assert. intros Hreq. apply awp_modify, rtc_once.
  assert (Hi : idle (proto s)).
  { split; [exact Hq|]. split; by apply is_none_true. }
  assert (Hn : ba_restore_in_flight (pr_barrier (proto s)) = None).
  { by apply is_none_true. }
  revert Hi Hn Hreq. clear. destruct s as [[] [] [] [] [] [] [] [] [] [] [] [] [] ? ?]. intros Hi Hn Hreq.
  match goal with |- move ?p _ => exact (mv_restore p Hi Hn Hreq) end.
Qed.
#[local] Hint Resolve refines_start_restore_worker : refines.

Lemma refines_drive_mutation_barriers : refines drive_mutation_barriers.
Proof.
  intros s. unfold drive_mutation_barriers. apply awp_bind, awp_gets.
  destruct (ba_restore_in_flight (ra_barrier s)) eqn:Hr; [apply rtc_refl|]. simpl.
  destruct (negb (_ || _)) eqn:Hb; [apply rtc_refl|].
  apply awp_bind, awp_modify, awp_bind.
  set (s1 := s <|ra_lanes->ln_scheduler_pending := false|>).
  assert (Hs1 : reaches (proto s) s1).
  { apply rtc_once, mv_quiet. destruct s as [[] [] [] [] [] [] [] [] [] [] [] [] [] ? ?]. exact (mv_not_pending _). }
  assert (Heq : ra_barrier s1 = ra_barrier s) by by destruct s as [[] [] [] [] [] [] [] [] [] [] [] [] [] ? ?].
  assert (Hreq : barrier_requested (proto s1)).
  { apply negb_false_iff, orb_true_iff in Hb. unfold barrier_requested. cbn [pr_barrier proto].
    rewrite Heq. destruct Hb as [->|Hb]; [by left|right]. by destruct (ba_pending_reload (ra_barrier s)). }
  eapply awp_mono; [by apply request_frequency_quiesce_reaches|].
  intros ? s2 [Hs2 Heq1].
  assert (Heq2 : ra_barrier s2 = ra_barrier s) by (etrans; [exact Heq1|exact Heq]).
  apply (awp_reaches _ _ s2); [unfold reaches in *; by etrans|].
  apply awp_bind, awp_gets. cbv beta. destruct (negb _ || negb _ || negb _); [apply rtc_refl|].
  destruct (ba_restore_requested (ra_barrier s)); [apply awp_refines; [refine_all|apply rtc_refl]|].
  destruct (ba_pending_reload (ra_barrier s)) as [outcome|] eqn:Hp; [|apply rtc_refl].
  rewrite <- Heq2 in Hp. pose proof (complete_reload_reaches _ _ Hp) as Hw.
  revert Hw. unfold awp. unfold mbind, AM_bind. simpl. destruct (complete_reload outcome _) as [[]]; done.
Qed.
#[local] Hint Resolve refines_drive_mutation_barriers : refines.


(** ** Sleep, resume and stop *)

(** Two quiet moves at once. *)
Lemma refines_await_sleep c :
  refines (modify (fun s => s <|ra_barrier->ba_sleep_waiters ::= (fun l => l ++ [c])|>
                              <|ra_barrier->ba_restore_requested := true|>)).
Proof.
  open_state. eapply rtc_l; [apply mv_quiet; match goal with |- quiet_move ?p _ =>
                   exact (mv_sleep_waiters p (RuntimeTypes.ba_sleep_waiters (pr_barrier p) ++ [c])) end|].
  apply rtc_once, mv_quiet. exact (mv_request_restore _).
Qed.
Lemma refines_await_wake c :
  refines (modify (fun s => s <|ra_barrier->ba_pending_resume := true|>
                              <|ra_barrier->ba_wake_waiters ::= (fun l => l ++ [c])|>)).
Proof.
  open_state. eapply rtc_l; [apply mv_quiet; exact (mv_pending_resume _ true)|].
  apply rtc_once, mv_quiet. match goal with |- quiet_move ?p _ =>
    exact (mv_wake_waiters p (RuntimeTypes.ba_wake_waiters (pr_barrier p) ++ [c])) end.
Qed.
Lemma refines_forget_restored :
  refines (modify (fun s => s <|ra_barrier->ba_pending_resume := false|>
                              <|ra_barrier->ba_restored_while_suspended := false|>)).
Proof.
  open_state. eapply rtc_l; [apply mv_quiet; exact (mv_pending_resume _ false)|].
  apply rtc_once, mv_quiet. exact (mv_not_restored _).
Qed.
#[local] Hint Resolve refines_await_sleep refines_await_wake refines_forget_restored : refines.

Lemma refines_request_sleep_restore c : refines (request_sleep_restore c).
Proof. unfold request_sleep_restore. refine_all. Qed.
Lemma refines_request_resume c : refines (request_resume c).
Proof. unfold request_resume. refine_all. Qed.
#[local] Hint Resolve refines_request_sleep_restore refines_request_resume : refines.

Lemma refines_request_stop r : refines (request_stop r).
Proof. unfold request_stop. refine_all. Qed.
#[local] Hint Resolve refines_request_stop : refines.

Lemma refines_maybe_complete_applied_generation : refines maybe_complete_applied_generation.
Proof. unfold maybe_complete_applied_generation. refine_all. Qed.
#[local] Hint Resolve refines_maybe_complete_applied_generation : refines.

Lemma refines_finish_worker_transition : refines finish_worker_transition.
Proof. unfold finish_worker_transition. refine_all. Qed.
Lemma refines_adopt_frequency_outcome o d b : refines (adopt_frequency_outcome o d b).
Proof. unfold adopt_frequency_outcome. refine_all. Qed.
#[local] Hint Resolve refines_finish_worker_transition refines_adopt_frequency_outcome : refines.

Lemma refines_finish_frequency_reconcile r d : refines (finish_frequency_reconcile r d).
Proof. unfold finish_frequency_reconcile. refine_all. Qed.
Lemma refines_adopt_scheduler_outcome o b : refines (adopt_scheduler_outcome o b).
Proof. unfold adopt_scheduler_outcome. refine_all. Qed.
#[local] Hint Resolve refines_finish_frequency_reconcile refines_adopt_scheduler_outcome :
  refines.

(** ** The loop *)

Lemma refines_when_accepting refuse m :
  (forall e, refines (refuse e)) -> refines m -> refines (when_accepting refuse m).
Proof. intros Hr Hm. unfold when_accepting. refine_all; auto. Qed.
Lemma refines_reply_receipt reply m : refines m -> refines (reply_receipt reply m).
Proof. intros Hm. apply refines_when_accepting; intros; refine_all. Qed.
#[local] Hint Resolve refines_when_accepting refines_reply_receipt : refines.

Lemma refines_begin_shutdown :
  refines (modify (fun s => s <|ra_control->co_accepting_control := false|>
                              <|ra_lanes->ln_scheduler_pending := false|>)).
Proof.
  open_state. eapply rtc_l; [apply mv_quiet; exact (mv_close _)|].
  apply rtc_once, mv_quiet. exact (mv_not_pending _).
Qed.
#[local] Hint Resolve refines_begin_shutdown : refines.

Lemma refines_handle_command c : refines (handle_command c).
Proof.
  unfold handle_command. apply refines_bind; [refine_all|intros _].
  destruct c; try (apply refines_reply_receipt; refine_all);
    try (apply refines_when_accepting; intros; refine_all); refine_all.
Qed.

Lemma refines_reduce_runtime_input e : refines (reduce_runtime_input e).
Proof. unfold reduce_runtime_input. refine_all. Qed.
Lemma refines_expire_hints now : refines (expire_hints now).
Proof. unfold expire_hints. refine_all. Qed.
Lemma refines_scan_scheduler now : refines (scan_scheduler now).
Proof.
  unfold scan_scheduler. apply refines_bind; [refine_all|intros s]. apply refines_when.
  apply refines_bind; [|intros _; refine_all].
  clear s. open_state. eapply rtc_l; [apply mv_quiet; exact (mv_last_scan _ now)|].
  apply rtc_once, mv_quiet. exact (mv_dirty _ true).
Qed.
#[local] Hint Resolve refines_handle_command refines_reduce_runtime_input refines_expire_hints
  refines_scan_scheduler : refines.

Lemma refines_on_tick : refines on_tick.
Proof. unfold on_tick. refine_all. Qed.
#[local] Hint Resolve refines_on_tick : refines.


(** ** Results *)

(** The answer of the fence to the update that is awaited. *)
Definition safety_answer (o : FrequencySafetyOutcome) (s : RuntimeActor W) : sum text unit :=
  let expected := sf_update_in_flight (ra_safety s) in
  if decide (expected = Some (fso_id o)) then fso_result o
  else inl [PText "received frequency safety result "; PNum (fso_id o);
            PText " while waiting for "; PWaiting expected].

Definition succeeded (r : sum text unit) : bool := if r then false else true.

Lemma finish_safety_update_reaches o (s : RuntimeActor W) :
  awp (finish_frequency_safety_update o)
    (fun _ s' => reaches (take_update (succeeded (safety_answer o s)) (proto s)) s') s.
Proof.
  unfold finish_frequency_safety_update. apply awp_bind, awp_gets, awp_bind, awp_modify. cbv zeta.
  fold (safety_answer o s). destruct (safety_answer o s) as [message|[]]; simpl succeeded.
  - apply awp_bind, awp_modify. apply awp_refines; [refine_all|].
    destruct s as [[] [] [] [] [] [] [] [] [] [] [] [] [] ? ?]. unfold reaches, proto, latched. cbn.
    rewrite orb_true_r. apply rtc_refl.
  - apply awp_bind, awp_modify, awp_bind, awp_gets, awp_bind, awp_modify.
    change (sf_pending_upper_caps (ra_safety _)) with (sf_pending_upper_caps (pr_safety (proto s))) at 1.
    unfold take_update. destruct (sf_pending_upper_caps (pr_safety (proto s))) as [caps|].
    + eapply awp_mono; [apply start_update_wp; by destruct s as [[] [] [] [] [] [] [] [] [] [] [] [] [] ? ?]|].
      intros ? s' Hs'. unfold reaches. rewrite Hs'.
      by destruct s as [[] [] [] [] [] [] [] [] [] [] [] [] [] ? ?].
    + apply awp_refines; [refine_all|].
      destruct s as [[] [] [] [] [] [] [] [] [] [] [] [] [] ? ?]. apply rtc_refl.
Qed.

Lemma finish_scheduler_reaches o (s : RuntimeActor W) :
  awp (finish_scheduler_worker o) (fun _ s' => reaches (take_scheduler (proto s)) s') s.
Proof.
  unfold finish_scheduler_worker. apply awp_bind, awp_gets, awp_bind, awp_modify.
  apply awp_refines; [refine_all|].
  destruct s as [[] [] [] [] [] [] [] [] [] [] [] [] [] ? ?]. apply rtc_refl.
Qed.

(** The answer a finished restoration gives to those who wait for it. *)
Definition restore_answer (o : RestoreOutcome) (s : RuntimeActor W) : sum text unit :=
  if decide (ba_restore_in_flight (ra_barrier s) = Some (rs_id o)) then rs_result o
  else inl [PText "received restore result "; PNum (rs_id o);
            PText " while waiting for "; PWaiting (ba_restore_in_flight (ra_barrier s))].


Lemma record_restore_reaches r (s : RuntimeActor W) :
  awp (record_restore r)
    (fun _ s' => reaches (take_restore (succeeded r) (proto s)) s')
    (s <|ra_barrier->ba_restore_in_flight := None|>).
Proof.
  destruct r as [m|[]]; unfold record_restore; apply awp_bind, awp_modify;
    apply awp_refines; try solve [refine_all];
    destruct s as [[] [] [] [] [] [] [] [] [] [] [] [] [] ? ?]; [|apply rtc_refl].
  apply rtc_once. unfold proto, latched. cbn. exact (mv_latch _).
Qed.

Lemma finish_restore_reaches o (s : RuntimeActor W) :
  awp (finish_restore o)
    (fun _ s' => reaches (take_restore (succeeded (restore_answer o s)) (proto s)) s') s.
Proof.
  unfold finish_restore. apply awp_bind, awp_gets, awp_bind, awp_modify.
  fold (restore_answer o s). generalize (restore_answer o s). intros r.
  apply awp_bind. eapply awp_mono; [apply record_restore_reaches|].
  intros ? s1 Hs1. apply awp_refines; [refine_all|exact Hs1].
Qed.

Lemma receive_reload_reaches o (s : RuntimeActor W) :
  awp (receive_reload o)
    (fun _ s' => exists pending, reaches (take_reload_result pending (proto s)) s'
       /\ forall outcome, pending = Some outcome ->
            signature_of (RuntimeTypes.ro_result outcome) = Some (pr_signature (proto s))) s.
Proof.
  unfold receive_reload. apply awp_bind, awp_gets.
  destruct (RuntimeTypes.ro_result o) as [e|candidate]; [|destruct (decide _) as [Hsig|]].
  2:{ apply awp_bind, awp_debug_assert. intros _. apply awp_bind, awp_modify.
      eapply awp_mono;
        [apply (awp_refines _ (take_reload_result (Some
             {| ro_reply := ro_reply o; RuntimeTypes.ro_result := inr candidate |}) (proto s)));
           [refine_all|]
        |intros ? s' Hs'; eexists (Some _); split; [exact Hs'|intros ? [= <-]; exact (f_equal Some Hsig)]].
      destruct s as [[] [] [] [] [] [] [] [] [] [] [] [] [] ? ?]. apply rtc_refl. }
  all: apply awp_bind, awp_modify.
  all: eapply awp_mono;
    [apply (awp_refines _ (take_reload_result None (proto s))); [refine_all|]
    |intros ? s' Hs'; by exists None].
  all: destruct s as [[] [] [] [] [] [] [] [] [] [] [] [] [] ? ?]; apply rtc_refl.
Qed.

Lemma finish_frequency_reaches e (s : RuntimeActor W) :
  awp (finish_frequency_worker e) (fun _ s' => reaches (take_frequency e (proto s)) s') s.
Proof.
  unfold finish_frequency_worker. apply awp_bind, awp_gets. unfold take_frequency, unexpected.
  destruct e as [id drift result|id|error]; cbn [pr_lanes proto].
  - destruct (ln_frequency_command_pending (ra_lanes s)) as [waiting|] eqn:Hp; simpl;
      [|apply awp_refines; [refine_all|apply rtc_refl]].
    destruct (id <=? waiting); simpl; [|apply awp_refines; [refine_all|apply rtc_refl]].
    destruct (waiting =? id) eqn:Hw; simpl.
    + apply Z.eqb_eq in Hw as ->. rewrite bool_decide_eq_true_2 by done. apply awp_bind, awp_modify.
      apply awp_refines; [refine_all|].
      destruct s as [[] [] [] [] [] [] [] [] [] [] [] [] [] ? ?]. apply rtc_refl.
    + apply Z.eqb_neq in Hw. rewrite bool_decide_eq_false_2 by (intros [= ->]; done).
      apply awp_refines; [refine_all|apply rtc_refl].
  - destruct (_ || _); [apply awp_refines; [refine_all|apply rtc_refl]|].
    apply awp_bind, awp_modify, awp_refines; [refine_all|].
    destruct s as [[] [] [] [] [] [] [] [] [] [] [] [] [] ? ?]. apply rtc_refl.
  - apply awp_bind, awp_modify, awp_refines; [refine_all|].
    destruct s as [[] [] [] [] [] [] [] [] [] [] [] [] [] ? ?]. apply rtc_refl.
Qed.

(** What the protocol is once the state owner has taken the result a turn
    brings, if it brings one. *)
Definition taken (e : RuntimeEventIn) (s : RuntimeActor W) (q : Proto) : Prop :=
  match e with
  | InFrequencyResult r => q = take_frequency r (proto s)
  | InSchedulerResult _ => q = take_scheduler (proto s)
  | InRestoreResult o => q = take_restore (succeeded (restore_answer o s)) (proto s)
  | InSafetyResult o => q = take_update (succeeded (safety_answer o s)) (proto s)
  | InReload _ =>
      exists pending, q = take_reload_result pending (proto s)
        /\ forall outcome, pending = Some outcome ->
             signature_of (RuntimeTypes.ro_result outcome) = Some (pr_signature (proto s))
  | _ => q = proto s
  end.

Lemma turn_reaches exp e (s : RuntimeActor W) :
  awp (turn exp e) (fun _ s' => exists q, taken e s q /\ rtc move q (proto s')) s.
Proof.
  destruct e; simpl; try (eapply awp_mono;
    [apply awp_refines; [refine_all|apply rtc_refl] | intros ? s' Hs'; eexists; split; [done|exact Hs']]).
  - eapply awp_mono; [apply finish_frequency_reaches|]. intros ? s' Hs'. by eexists.
  - eapply awp_mono; [apply finish_scheduler_reaches|]. intros ? s' Hs'. by eexists.
  - eapply awp_mono; [apply finish_restore_reaches|]. intros ? s' Hs'. by eexists.
  - eapply awp_mono; [apply finish_safety_update_reaches|]. intros ? s' Hs'. by eexists.
  - eapply awp_mono; [apply receive_reload_reaches|]. intros ? s' (pending & Hs' & Hsig).
    exists (take_reload_result pending (proto s)). split; [by exists pending|exact Hs'].
Qed.

End handlers.
