(* ===== verification/MachineFacts.v ===== *)
(** * The daemon as one machine ([uperf-daemon/src/runtime.rs])

    The state owner, the frequency worker and the tasks it starts, over one
    actuator and one world. Each step is one turn of the state owner, or what a
    worker does with one command: the mutation gate serialises the halves of
    the jobs that mutate, and what happens before the gate only observes, so a
    job is one step. *)

From coqutil Require Import Datatypes.RecordSetters.
From S2P Require Import Prelude Float64 Domain Text Scene Frequency Thermal Load ConfigTypes Validate ValidatePolicy Energy Governor Rules Engine Strings ActuatorTypes Scalars Targets Journal Ports Recovery Ownership KeyedFacts DaemonTypes DecisionTrace Reconcile ReconcileFacts DaemonConfig RuntimeTypes RuntimeEval RuntimeObservers RuntimeInteraction RuntimeControl RuntimeBarriers RuntimeLoop RuntimeProtocol ProtocolFacts RuntimeRefines.

Section machine.
Context {W : Type} `{!Ports W} `{JournalCodec} `{!Environment W} `{!IdentityReader W} `{RegexEngine}.
Context (exp : f64 -> f64) (scalar_json : ScalarSettingValue -> string).

(** The gate and the lock of the actuator's state are mutexes: [mc_poisoned]
    once a panic has left one of them behind. *)
Record Machine := {
  mc_owner : RuntimeActor W;
  mc_outside : Outside;
  mc_poisoned : bool;
  mc_trace : TraceState;
}.

Definition nothing_outside : Outside :=
  {| o_running := None; o_frequency := []; o_scheduler := []; o_restore := []; o_safety := [];
     o_reload := [];
     o_fence := {| ff_envelope := {| env_generation := 0; env_upper_caps := ∅ |};
                   ff_poisoned := false |} |}.

(** Events that do not come from the workers: control, observers, the clock,
    and what the identity reader and the rule writer answer. *)
Definition from_outside (e : RuntimeEventIn) : bool :=
  match e with
  | InFrequencyResult _ | InSchedulerResult _ | InRestoreResult _ | InSafetyResult _
  | InReload _ => false
  | _ => true
  end.

(** An event is received: from outside, or as the oldest result of its queue. *)
Inductive received : RuntimeEventIn -> Outside -> Outside -> Prop :=
| rc_outside e o : from_outside e = true -> received e o o
| rc_frequency e l o :
    o_frequency o = e :: l -> received (InFrequencyResult e) o (o <|o_frequency := l|>)
| rc_scheduler e l o :
    o_scheduler o = e :: l -> received (InSchedulerResult e) o (o <|o_scheduler := l|>)
| rc_restore e l o :
    o_restore o = e :: l -> received (InRestoreResult e) o (o <|o_restore := l|>)
| rc_safety e l o :
    o_safety o = e :: l -> received (InSafetyResult e) o (o <|o_safety := l|>)
| rc_reload e l o :
    o_reload o = e :: l -> received (InReload e) o (o <|o_reload := l|>).

(** ** What the workers do *)

(** A job shares the fence and the gate. *)
Definition under_gate (m : Machine) (job : ReconcileJob) : ReconcileJob :=
  job <|rj_gate_poisoned := mc_poisoned m|> <|rj_frequency_safety := o_fence (mc_outside m)|>.

Definition run_job (a : Actuator) (m : Machine) (job : ReconcileJob)
  : res ReconcileOutcome text * TraceState * St W :=
  run scalar_json a (under_gate m job) (mc_trace m) (ra_sys (mc_owner m)).

(** What a job leaves behind. A panic poisons what it held; if it held nothing
    it had only observed. *)
Definition left_behind (a : Actuator) (r : res ReconcileOutcome text) (sys sys' : St W)
    (poisoned poisoned' : bool) : Prop :=
  match r with
  | Panic => poisoned' = true \/ (poisoned' = poisoned /\ rtc (Recovery.step a) sys sys')
  | _ => poisoned' = poisoned
  end.

(** [run_frequency_worker]: the event that answers a reconciliation. *)
Definition reconciled_event (id : Z) (work : FrequencyWork) (r : res ReconcileOutcome text)
  : FrequencyWorkerEvent :=
  match r with
  | Ok o => FwReconciled id (fw_drift_targets work) (inr o)
  | _ => FwFailed [PText "frequency reconciliation panicked with unknown mutation progress"]
  end.

(** The task of [submit_scheduler_reconcile]. *)
Definition scheduler_outcome (id : Z) (r : res ReconcileOutcome text) : SchedulerWorkerOutcome :=
  {| sw_id := id;
     sw_result := match r with Ok o => inr o | _ => inl [PText "blocking scheduler task failed"] end |}.

(** The task of [start_restore_worker]. *)
Definition restore_worker (actuator : option Actuator) (poisoned : bool) (s : St W)
  : sum text unit * bool * St W :=
  if poisoned then (inl gate_poisoned, poisoned, s)
  else
    match actuator with
    | None => (inr tt, poisoned, s)
    | Some a =>
        match restore_all a s with
        | (Ok _, s) => (inr tt, poisoned, s)
        | (Err e, s) =>
            (inl [PText "failed to restore managed resources: "; PActuator e], poisoned, s)
        | (Panic, s) => (inl [PText "blocking restore task failed"], true, s)
        end
    end.

(** The task of [start_frequency_safety_update]. *)
Definition safety_task (fence : FrequencySafetyFence) (id : Z) (caps : gmap string Hertz)
  : FrequencySafetyOutcome * FrequencySafetyFence :=
  let '(r, fence) := replace_upper_caps fence caps in
  ({| fso_id := id;
      fso_result := match r with
                    | Ok _ => inr tt
                    | Err e => inl e
                    | Panic => inl [PText "blocking frequency safety update failed"]
                    end |}, fence).

(** ** Steps *)

Definition with_sys (m : Machine) (s : St W) : Machine := m <|mc_owner->ra_sys := s|>.

Definition on_world (s : St W) (w : W) : St W :=
  {| st_rt := st_rt s; st_world := w; st_log := st_log s |}.

Inductive machine_step : Machine -> Machine -> Prop :=
| ms_turn m e o owner :
    received e (mc_outside m) o -> turn exp e (mc_owner m) = (Some tt, owner) ->
    machine_step m (m <|mc_owner := owner|> <|mc_outside := o|>)
| ms_world m w : machine_step m (with_sys m (on_world (ra_sys (mc_owner m)) w))
| ms_worker_takes m c :
    o_running (mc_outside m) = None ->
    ch_frequency_command (ra_channels (mc_owner m)) = Some c ->
    machine_step m
      (m <|mc_outside->o_running := Some c|>
         <|mc_owner->ra_channels->ch_frequency_command := None|>)
| ms_quiesce m id :
    o_running (mc_outside m) = Some (FwQuiesce id) ->
    machine_step m
      (m <|mc_outside->o_running := None|>
         <|mc_outside->o_frequency ::= (fun l => l ++ [FwQuiesced id])|>)
| ms_reconcile m a id work o trace sys :
    o_running (mc_outside m) = Some (FwReconcile id work) ->
    cf_actuator (ra_config (mc_owner m)) = Some a ->
    run_job a m (fw_job work) = (Ok o, trace, sys) ->
    machine_step m
      ((with_sys m sys)
         <|mc_trace := trace|>
         <|mc_outside->o_running := None|>
         <|mc_outside->o_frequency ::= (fun l => l ++ [reconciled_event id work (Ok o)])|>)
| ms_reconcile_panics m a id work trace sys poisoned fence_poisoned :
    o_running (mc_outside m) = Some (FwReconcile id work) ->
    cf_actuator (ra_config (mc_owner m)) = Some a ->
    run_job a m (fw_job work) = (Panic, trace, sys) ->
    left_behind a Panic (ra_sys (mc_owner m)) sys (mc_poisoned m) poisoned ->
    (* it may have held the fence too *)
    fence_poisoned = true \/ fence_poisoned = ff_poisoned (o_fence (mc_outside m)) ->
    ch_frequency_closed (ra_channels (mc_owner m)) = false ->
    machine_step m
      ((with_sys m sys)
         <|mc_trace := trace|> <|mc_poisoned := poisoned|>
         <|mc_outside->o_fence->ff_poisoned := fence_poisoned|>
         <|mc_outside->o_running := None|>
         <|mc_outside->o_frequency ::= (fun l => l ++ [reconciled_event id work Panic])|>
         <|mc_owner->ra_channels->ch_frequency_command := None|>
         <|mc_owner->ra_channels->ch_frequency_closed := true|>)
| ms_scheduler m a id job l r trace sys poisoned :
    ch_schedulers (ra_channels (mc_owner m)) = (id, job) :: l ->
    cf_actuator (ra_config (mc_owner m)) = Some a ->
    run_job a m job = (r, trace, sys) ->
    left_behind a r (ra_sys (mc_owner m)) sys (mc_poisoned m) poisoned ->
    machine_step m
      ((with_sys m sys)
         <|mc_trace := trace|> <|mc_poisoned := poisoned|>
         <|mc_outside->o_scheduler ::= (fun q => q ++ [scheduler_outcome id r])|>
         <|mc_owner->ra_channels->ch_schedulers := l|>)
| ms_restore m id l r sys poisoned :
    ch_restores (ra_channels (mc_owner m)) = id :: l ->
    restore_worker (cf_actuator (ra_config (mc_owner m))) (mc_poisoned m) (ra_sys (mc_owner m))
      = (r, poisoned, sys) ->
    machine_step m
      ((with_sys m sys)
         <|mc_poisoned := poisoned|>
         <|mc_outside->o_restore ::= (fun q => q ++ [{| rs_id := id; rs_result := r |}])|>
         <|mc_owner->ra_channels->ch_restores := l|>)
| ms_safety m id caps l outcome fence :
    ch_safety_updates (ra_channels (mc_owner m)) = (id, caps) :: l ->
    safety_task (o_fence (mc_outside m)) id caps = (outcome, fence) ->
    machine_step m
      (m <|mc_outside->o_fence := fence|>
         <|mc_outside->o_safety ::= (fun q => q ++ [outcome])|>
         <|mc_owner->ra_channels->ch_safety_updates := l|>)
| ms_reload m reply l loaded :
    ch_reloads (ra_channels (mc_owner m)) = reply :: l ->
    machine_step m
      (m <|mc_outside->o_reload ::=
             (fun q => q ++ [{| ro_reply := reply; ro_result := reload_result loaded |}])|>
         <|mc_owner->ra_channels->ch_reloads := l|>).

(** The machine when the state owner has been built ([spawn_runtime]). *)
Definition start_machine (owner : RuntimeActor W) : Machine :=
  {| mc_owner := owner; mc_outside := nothing_outside;
     mc_poisoned := false; mc_trace := TraceState_default |}.

(** A daemon started on a reachable actuator. *)
Inductive started (c : ResolvedConfiguration) (actuator : option Actuator) (w : W)
  : Machine -> Prop :=
| started_with t owner :
    (forall a, actuator = Some a -> reachable a w t) ->
    RuntimeActor_new c actuator t = (Some tt, owner) ->
    started c actuator w (start_machine owner).
End machine.

(** * The daemon keeps to the protocol

    Every step of the machine of [MachineFacts.v] is a sequence of steps of
    the abstract protocol, so the protocol's invariant holds of the daemon; and
    as long as nothing has panicked the actuator stays in a reachable state. *)

Section facts.
Context {W : Type} `{!Ports W} `{JournalCodec} `{!Environment W} `{!IdentityReader W} `{RegexEngine}.
Context (exp : f64 -> f64) (scalar_json : ScalarSettingValue -> string).

Definition abstract (m : Machine (W := W)) : Outside * Proto := (mc_outside m, proto (mc_owner m)).

Definition without_world (s : St W) : St unit :=
  {| st_rt := st_rt s; st_world := tt; st_log := st_log s |}.

(** ** Moves keep what the state owner only reads *)

Lemma moves_keep p q :
  rtc move p q -> pr_actuator q = pr_actuator p /\ pr_system q = pr_system p.
Proof.
  induction 1 as [|p q r Hm _ [-> ->]]; [done|]. by apply move_same.
Qed.

Lemma moves_steps o p q : rtc move p q -> rtc step (o, p) (o, q).
Proof. induction 1; [done|]. eapply rtc_l; [by apply st_move|done]. Qed.

(** ** A turn *)

Lemma restored_answer o (s : RuntimeActor W) :
  succeeded (restore_answer o s) = true -> RuntimeTypes.rs_result o = inr tt.
Proof.
  unfold restore_answer, succeeded. destruct (decide _); [|done].
  by destruct (RuntimeTypes.rs_result o) as [|[]].
Qed.

Lemma safety_answered o (s : RuntimeActor W) :
  succeeded (safety_answer o s) = true -> fso_result o = inr tt.
Proof.
  unfold safety_answer, succeeded. destruct (decide _); [|done]. by destruct (fso_result o) as [|[]].
Qed.

(** A result that is received is taken by a step of the protocol, or by none
    when the event comes from outside. *)
Lemma received_taken e o o' (s : RuntimeActor W) q :
  received e o o' -> taken e s q ->
  rtc step (o, proto s) (o', q) /\ pr_actuator q = pr_actuator (proto s)
  /\ pr_system q = pr_system (proto s).
Proof.
  intros Hr Ht. destruct Hr as [e o He|e l o Ho|e l o Ho|e l o Ho|e l o Ho|e l o Ho]; simpl in Ht.
  - destruct e; simpl in Ht; try discriminate He; by subst.
  - subst. split; [by apply rtc_once, st_take_frequency|].
    unfold take_frequency. destruct (unexpected _ _); [done|].
    destruct e; [case_bool_decide|..]; done.
  - subst. split; [|done]. by eapply rtc_once, st_take_scheduler.
  - subst. split; [|done]. eapply rtc_once, st_take_restore; [done|]. apply restored_answer.
  - subst. split; [eapply rtc_once, st_take_update; [done|]; apply safety_answered|].
    unfold take_update, start_update. destruct (succeeded _); [|done].
    by destruct (sf_pending_upper_caps _).
  - destruct Ht as (pending & -> & Hsig). split; [by eapply rtc_once, st_take_reload|].
    by destruct pending.
Qed.

Lemma turn_steps e o o' (s s' : RuntimeActor W) :
  received e o o' -> turn exp e s = (Some tt, s') ->
  rtc step (o, proto s) (o', proto s')
  /\ cf_actuator (ra_config s') = cf_actuator (ra_config s)
  /\ without_world (ra_sys s') = without_world (ra_sys s).
Proof.
  intros Hr Hturn. pose proof (turn_reaches exp e s) as Hw. unfold awp in Hw.
  rewrite Hturn in Hw. destruct Hw as (q & Hq & Hm).
  destruct (received_taken _ _ _ _ _ Hr Hq) as (Hs & Ha & Hy).
  destruct (moves_keep _ _ Hm) as [Ha' Hy']. split; [|split].
  - etrans; [exact Hs|]. by apply moves_steps.
  - change (pr_actuator (proto s') = pr_actuator (proto s)). congruence.
  - change (pr_system (proto s') = pr_system (proto s)). congruence.
Qed.

(** ** The actuator under it *)

Lemma reachable_steps a w (s s' : St W) :
  reachable a w s -> rtc (Recovery.step a) s s' -> reachable a w s'.
Proof. intros Hs. induction 1 as [|s s1 s2 H1 _ IH]; [done|]. apply IH. by eapply reachable_step. Qed.

(** [restore_all] is a sequence of whole operations. *)
Definition whole {A} (a : Actuator) (m : M W A) : Prop :=
  forall s, wp m (fun r s' => r <> Panic -> rtc (Recovery.step a) s s') s.

Lemma whole_then {A} a (m : M W unit) (k : M W A) : whole a m -> whole a k -> whole a (m;; k).
Proof.
  intros Hm Hk s. apply wp_bind. eapply wp_mono; [apply Hm|].
  intros [x|e|] s' Hs'; [|by intros; apply Hs'|done].
  eapply wp_mono; [apply Hk|]. intros r s'' Hs'' Hr. etrans; [by apply Hs'|by apply Hs''].
Qed.

Lemma whole_get {A} a (k : Journal -> M W A) : (forall j, whole a (k j)) -> whole a (j ← get_journal; k j).
Proof. intros Hk s. apply wp_bind, wp_get_journal, Hk. Qed.

Lemma whole_operation a op : whole a (run_operation (W := W) a op).
Proof.
  intros s. unfold wp. intros Hr. apply rtc_once. eapply (step_operation a op s); [|exact Hr].
  by destruct (run_operation a op s).
Qed.

Lemma whole_restore_all a : whole a (restore_all (W := W) a).
Proof.
  unfold restore_all.
  apply whole_get. intros. apply whole_then; [apply (whole_operation a (OpRestoreTargets _))|].
  apply whole_get. intros. apply whole_then; [apply (whole_operation a (OpRestoreScalars _))|].
  apply whole_get. intros. apply whole_then; [apply (whole_operation a (OpRestoreTasks _))|].
  apply whole_get. intros. apply (whole_operation a (OpRestoreUnits _)).
Qed.

Lemma restore_all_steps a (s s' : St W) r :
  restore_all a s = (r, s') -> r <> Panic -> rtc (Recovery.step a) s s'.
Proof.
  intros Hr. pose proof (whole_restore_all a s) as Hw. unfold wp in Hw. by rewrite Hr in Hw.
Qed.

(** What a restoration answers, and what it leaves. *)
Lemma restore_worker_spec actuator poisoned poisoned' (s s' : St W) r w :
  restore_worker actuator poisoned s = (r, poisoned', s') ->
  (poisoned = false -> forall a, actuator = Some a -> reachable a w s) ->
  (journal_is_empty (rt_journal (st_rt s)) = true ->
   journal_is_empty (rt_journal (st_rt s')) = true)
  /\ (r = inr tt -> is_Some actuator -> journal_is_empty (rt_journal (st_rt s')) = true)
  /\ (poisoned' = false -> forall a, actuator = Some a -> reachable a w s').
Proof.
  unfold restore_worker. destruct poisoned; [by intros [= <- <- <-]|].
  destruct actuator as [a|]; [|by intros [= <- <- <-] _; split; [|split; [intros _ []|]]].
  destruct (restore_all a s) as [[x|e|] s1] eqn:Hall; intros [= <- <- <-] Hreach;
    specialize (Hreach eq_refl a eq_refl); (split; [|split]); try done.
  all: try by (intros _ ? [= <-]; eapply reachable_steps; [exact Hreach|]; by eapply restore_all_steps).
  all: try by apply (restore_all_gives_back a w s _ s1 Hreach Hall).
  destruct x. intros _ _. by apply (proj1 (restore_all_gives_back a w s _ s1 Hreach Hall)).
Qed.

(** What the fence answers, and what it then holds. *)
Lemma safety_task_spec fence fence' id caps outcome :
  safety_task fence id caps = (outcome, fence') ->
  fso_id outcome = id
  /\ (fso_result outcome = inr tt -> env_upper_caps (ff_envelope fence') = caps).
Proof.
  unfold safety_task, replace_upper_caps. destruct (ff_poisoned fence); by intros [= <- <-].
Qed.

(** ** Every step *)

(** As long as nothing has panicked, the actuator is in a reachable state. *)
Definition live (w : W) (m : Machine) : Prop :=
  mc_poisoned m = false ->
  forall a, cf_actuator (ra_config (mc_owner m)) = Some a -> reachable a w (ra_sys (mc_owner m)).

Lemma same_without_world a w (s s' : St W) :
  reachable a w s -> without_world s' = without_world s -> reachable a w s'.
Proof.
  intros Hs Heq. destruct s' as [rt' w' log']. injection Heq as -> ->.
  eapply reachable_step; [exact Hs|]. apply step_world.
Qed.

Lemma job_live a w m job r trace sys poisoned :
  run_job scalar_json a m job = (r, trace, sys) ->
  left_behind a r (ra_sys (mc_owner m)) sys (mc_poisoned m) poisoned ->
  (mc_poisoned m = false -> reachable a w (ra_sys (mc_owner m))) ->
  poisoned = false -> reachable a w sys.
Proof.
  intros Hrun Hleft Hlive Hp. unfold run_job in Hrun. destruct r as [o|e|]; simpl in Hleft.
  1,2: subst; specialize (Hlive Hp); eapply reachable_steps; [exact Hlive|].
  1,2: by apply (run_is_steps a scalar_json _ _ _ _ _ _ Hrun).
  destruct Hleft as [->|[-> Hs]]; [done|]. eapply reachable_steps; [by apply Hlive|done].
Qed.

(** The machine taken apart, with its setters computed. *)
Ltac open_machine m :=
  destruct m as [[[] [] [] [] [] [] [] [] [] [] [] [] [] ? ?] [? ? ? ? ? ? []] ? ?].

Lemma machine_step_sim w m m' :
  machine_step exp scalar_json m m' -> live w m ->
  rtc step (abstract m) (abstract m') /\ live w m'
  /\ cf_actuator (ra_config (mc_owner m')) = cf_actuator (ra_config (mc_owner m)).
Proof.
  intros Hm Hlive.
  destruct Hm as [m e o owner He Ht|m w'|m c Hn Hc|m id Hr|m a id work o trace sys Hr Ha Hrun
                 |m a id work trace sys poisoned fp Hr Ha Hrun Hleft Hfp Hopen
                 |m a id job l r trace sys poisoned Hc Ha Hrun Hleft
                 |m id l r sys poisoned Hc Hrun|m id caps l outcome fence Hc Hrun|m reply l loaded Hc].
  - destruct (turn_steps _ _ _ _ _ He Ht) as (Hs & Ha & Hw).
    destruct m as [owner0 o0 poisoned trace]. split; [exact Hs|]. split; [|exact Ha].
    intros Hp a Hact. eapply same_without_world; [|exact Hw]. apply Hlive; [exact Hp|].
    etrans; [symmetry; exact Ha|exact Hact].
  - destruct m as [[] o0 poisoned trace]. split; [apply rtc_refl|]. split; [|done].
    intros Hp a Hact. eapply same_without_world; [by apply Hlive|done].
  - split; [|by open_machine m]. apply rtc_once. open_machine m.
    exact (st_worker_start (mc_outside _) (proto (mc_owner _)) c Hn Hc).
  - split; [|by open_machine m]. apply rtc_once.
    assert (Hs := st_worker_answer _ (proto (mc_owner m)) _ (FwQuiesced id) (without_world (ra_sys (mc_owner m))) Hr eq_refl).
    by open_machine m.
  - pose proof (job_live a w m _ _ _ _ _ Hrun eq_refl) as Hl.
    assert (Hs := st_worker_answer _ (proto (mc_owner m)) _ (reconciled_event id work (Ok o)) (without_world sys) Hr eq_refl).
    split; [|split; [|by open_machine m]].
    + apply rtc_once. by open_machine m.
    + intros Hp a'. specialize (Hl (fun Hq => Hlive Hq a Ha)).
      open_machine m. cbn in *. rewrite Ha. intros [= <-]. by apply Hl.
  - pose proof (job_live a w m _ _ _ _ _ Hrun Hleft (fun Hq => Hlive Hq a Ha)) as Hl.
    assert (Hs := st_worker_dies (mc_outside m) (proto (mc_owner m))
      [PText "frequency reconciliation panicked with unknown mutation progress"] (without_world sys)
      ((o_fence (mc_outside m)) <|ff_poisoned := fp|>) Hopen ltac:(congruence)
      ltac:(by destruct (o_fence (mc_outside m)))).
    split; [apply rtc_once; by open_machine m|]. split; [|by open_machine m].
    intros Hp a'. open_machine m. cbn in *. rewrite Ha. intros [= <-]. by apply Hl.
  - pose proof (job_live a w m _ _ _ _ _ Hrun Hleft (fun Hq => Hlive Hq a Ha)) as Hl.
    assert (Hs := st_scheduler_done (mc_outside m) (proto (mc_owner m)) id job l
      (scheduler_outcome id r) (without_world sys) Hc eq_refl).
    split; [apply rtc_once; by open_machine m|]. split; [|by open_machine m].
    intros Hp a'. open_machine m. cbn in *. rewrite Ha. intros [= <-]. by apply Hl.
  - destruct (restore_worker_spec _ _ _ _ _ _ w Hrun Hlive) as (Hkeep & Hempty & Hl).
    assert (Hs := st_restore_done (mc_outside m) (proto (mc_owner m)) id l
      {| RuntimeTypes.rs_id := id; RuntimeTypes.rs_result := r |} (without_world sys) Hc eq_refl
      Hkeep Hempty).
    split; [apply rtc_once; by open_machine m|]. split; [|by open_machine m].
    intros Hp a' Ha'. revert Hl Hp Ha'. open_machine m. cbn. auto.
  - destruct (safety_task_spec _ _ _ _ _ Hrun) as [Hid Hcaps].
    assert (Hs := st_update_done (mc_outside m) (proto (mc_owner m)) id caps l outcome fence Hc Hid Hcaps).
    split; [apply rtc_once; by open_machine m|]. split; [|by open_machine m].
    by open_machine m.
  - assert (Hs := st_reload_done (mc_outside m) (proto (mc_owner m)) reply l
      {| ro_reply := reply; RuntimeTypes.ro_result := reload_result loaded |} Hc).
    split; [apply rtc_once; by open_machine m|]. split; [|by open_machine m].
    by open_machine m.
Qed.

(** ** Runs of the daemon *)

Lemma machine_steps_sim w m m' :
  rtc (machine_step exp scalar_json) m m' -> live w m ->
  rtc step (abstract m) (abstract m') /\ live w m'
  /\ cf_actuator (ra_config (mc_owner m')) = cf_actuator (ra_config (mc_owner m)).
Proof.
  induction 1 as [|m m1 m2 H1 _ IH]; intros Hl; [split; [apply rtc_refl|done]|].
  destruct (machine_step_sim _ _ _ H1 Hl) as (Hs & Hl1 & Ha).
  destruct (IH Hl1) as (Hs' & Hl2 & Ha'). split; [by etrans|]. split; [done|congruence].
Qed.

(** The state a daemon starts with is coherent. *)
Lemma initial_coherent c actuator (t : St W) :
  coherent nothing_outside (proto (initial_actor c actuator t)).
Proof.
  unfold initial_actor. destruct (actuator_health_snapshot actuator t) as [b b'].
  split; cbn; try done.
  intros _. split; [constructor|]. apply lane_empty.
Qed.

(** The state owner is built by moves from its initial state, the first of
    which asks for the caps of the thermal state. *)
Lemma new_reaches c actuator t (owner : RuntimeActor W) :
  RuntimeActor_new c actuator t = (Some tt, owner) ->
  rtc move (proto (initial_actor c actuator t)) (proto owner)
  /\ thermal_current (proto owner)
  /\ cf_actuator (ra_config owner) = actuator /\ without_world (ra_sys owner) = without_world t.
Proof.
  intros Hnew. unfold RuntimeActor_new in Hnew. set (s0 := initial_actor c actuator t) in *.
  assert (Hr : awp (update_thermal_caps;; seed_health) (fun _ s' =>
     rtc move (set_thermal (sn_thermal_state (ra_sensing s0)) (rc_targets (cf_configuration (ra_config s0)))
       (proto s0)) (proto s')) s0).
  { apply awp_bind. eapply awp_mono; [apply update_caps_wp|].
    intros ? s1 Hs1. eapply awp_mono; [apply refines_seed_health|].
    intros ? s2 Hs2. etrans; [exact Hs1|exact Hs2]. }
  unfold awp in Hr. rewrite Hnew in Hr.
  assert (Hm : rtc move (proto s0) (proto owner)) by (eapply rtc_l; [apply mv_thermal|exact Hr]).
  destruct (moves_keep _ _ Hm) as [Ha Hy]. split; [exact Hm|]. split.
  - apply (thermal_steps _ _ (moves_steps nothing_outside _ _ Hr)), set_thermal_current.
  - unfold s0, initial_actor in Ha, Hy. destruct (actuator_health_snapshot actuator t).
    split; [exact Ha|exact Hy].
Qed.

Lemma started_inv c actuator w m :
  started c actuator w m ->
  Inv (abstract m) /\ thermal_current (proto (mc_owner m)) /\ live w m.
Proof.
  intros [t owner Ht Hnew]. destruct (new_reaches _ _ _ _ Hnew) as (Hr & Hth & Ha & Hy).
  split; [|split; [exact Hth|]].
  - eapply steps_inv; [by apply moves_steps|]. intros _. apply initial_coherent.
  - intros _ a Hact. eapply same_without_world; [|exact Hy]. apply Ht. by rewrite <- Ha.
Qed.

Lemma started_actuator c actuator w m :
  started c actuator w m -> cf_actuator (ra_config (mc_owner m)) = actuator.
Proof. intros [t owner Ht Hnew]. by destruct (new_reaches _ _ _ _ Hnew) as (_ & _ & Ha & _). Qed.

Lemma run_inv c actuator w m0 m :
  started c actuator w m0 -> rtc (machine_step exp scalar_json) m0 m ->
  Inv (abstract m) /\ thermal_current (proto (mc_owner m)) /\ live w m.
Proof.
  intros (Hi & Ht & Hl)%started_inv Hs. destruct (machine_steps_sim w _ _ Hs Hl) as (Hs' & Hl' & _).
  split; [by eapply steps_inv|]. split; [|done]. by apply (thermal_steps _ _ Hs').
Qed.
End facts.
