(* ===== verification/RuntimeTheorems.v ===== *)
(** * The daemon never mutates what it is giving back

    A daemon on the simulated machine: the machine of [MachineFacts.v] over the
    actuator and world of [SimMachine.v], with a claim on the frequency pair,
    which is asked to sleep, restores, and answers. Then the end-to-end
    statements about the state owner, its workers and the actuator under them,
    with runs of that daemon as witnesses. *)

From coqutil Require Import Datatypes.RecordSetters.
From Stdlib Require Import Sorted.
From S2P Require Import Prelude Client Published Float64 Domain Text Scene Frequency Thermal Load ConfigTypes Validate ValidatePolicy ValidateFacts Energy Governor Rules RulesFacts Engine EngineFacts Strings ActuatorTypes Scalars Targets Journal Ports FrequencyOps Recovery Ownership ActuatorSafety SimMachine DaemonTypes DecisionTrace Reconcile SchedulerFacts DaemonConfig RuntimeTypes RuntimeEval RuntimeObservers RuntimeInteraction RuntimeControl RuntimeBarriers RuntimeLoop RuntimeProtocol ProtocolFacts RuntimeRefines MachineFacts.

(** ** Steps that can be run *)

Section execution.
Context {W : Type} `{!Ports W} `{JournalCodec} `{!Environment W} `{!IdentityReader W} `{RegexEngine}.
Context (exp : f64 -> f64) (scalar_json : ScalarSettingValue -> string).
#[local] Abbreviation Machine := (Machine (W := W)).

Inductive action :=
| DoTurn (e : RuntimeEventIn)
| DoReceiveFrequency
| DoReceiveScheduler
| DoReceiveRestore
| DoReceiveSafety
| DoTake
| DoWork
| DoScheduler
| DoRestore
| DoSafety.

Definition do_receive (e : RuntimeEventIn) (o : Outside) (m : Machine) : option Machine :=
  match turn exp e (mc_owner m) with
  | (Some _, owner) => Some (m <|mc_owner := owner|> <|mc_outside := o|>)
  | (None, _) => None
  end.

Definition do_work (a : Actuator) (m : Machine) : option Machine :=
  match o_running (mc_outside m) with
  | None => None
  | Some (FwQuiesce id) =>
      Some (m <|mc_outside->o_running := None|>
              <|mc_outside->o_frequency ::= (fun l => l ++ [FwQuiesced id])|>)
  | Some (FwReconcile id work) =>
      match run_job scalar_json a m (fw_job work) with
      | (Ok o, trace, sys) =>
          Some ((with_sys m sys)
                  <|mc_trace := trace|>
                  <|mc_outside->o_running := None|>
                  <|mc_outside->o_frequency ::= (fun l => l ++ [reconciled_event id work (Ok o)])|>)
      | _ => None
      end
  end.

Definition do_scheduler (a : Actuator) (m : Machine) : option Machine :=
  match ch_schedulers (ra_channels (mc_owner m)) with
  | [] => None
  | (id, job) :: l =>
      match run_job scalar_json a m job with
      | (Ok o, trace, sys) =>
          Some ((with_sys m sys)
                  <|mc_trace := trace|> <|mc_poisoned := mc_poisoned m|>
                  <|mc_outside->o_scheduler ::= (fun q => q ++ [scheduler_outcome id (Ok o)])|>
                  <|mc_owner->ra_channels->ch_schedulers := l|>)
      | _ => None
      end
  end.

Definition do_restore (m : Machine) : option Machine :=
  match ch_restores (ra_channels (mc_owner m)) with
  | [] => None
  | id :: l =>
      let '(r, poisoned, sys) :=
        restore_worker (cf_actuator (ra_config (mc_owner m))) (mc_poisoned m) (ra_sys (mc_owner m)) in
      Some ((with_sys m sys)
              <|mc_poisoned := poisoned|>
              <|mc_outside->o_restore ::=
                  (fun q => q ++ [{| RuntimeTypes.rs_id := id; RuntimeTypes.rs_result := r |}])|>
              <|mc_owner->ra_channels->ch_restores := l|>)
  end.

Definition do_safety (m : Machine) : option Machine :=
  match ch_safety_updates (ra_channels (mc_owner m)) with
  | [] => None
  | (id, caps) :: l =>
      let '(outcome, fence) := safety_task (o_fence (mc_outside m)) id caps in
      Some (m <|mc_outside->o_fence := fence|>
              <|mc_outside->o_safety ::= (fun q => q ++ [outcome])|>
              <|mc_owner->ra_channels->ch_safety_updates := l|>)
  end.

Definition do_action (act : action) (m : Machine) : option Machine :=
  let o := mc_outside m in
  match act with
  | DoTurn e => if from_outside e then do_receive e o m else None
  | DoReceiveFrequency =>
      match o_frequency o with e :: l => do_receive (InFrequencyResult e) (o <|o_frequency := l|>) m | [] => None end
  | DoReceiveScheduler =>
      match o_scheduler o with e :: l => do_receive (InSchedulerResult e) (o <|o_scheduler := l|>) m | [] => None end
  | DoReceiveRestore =>
      match o_restore o with e :: l => do_receive (InRestoreResult e) (o <|o_restore := l|>) m | [] => None end
  | DoReceiveSafety =>
      match o_safety o with e :: l => do_receive (InSafetyResult e) (o <|o_safety := l|>) m | [] => None end
  | DoTake =>
      match o_running o, ch_frequency_command (ra_channels (mc_owner m)) with
      | None, Some c =>
          Some (m <|mc_outside->o_running := Some c|>
                  <|mc_owner->ra_channels->ch_frequency_command := None|>)
      | _, _ => None
      end
  | DoWork => a ← cf_actuator (ra_config (mc_owner m)); do_work a m
  | DoScheduler => a ← cf_actuator (ra_config (mc_owner m)); do_scheduler a m
  | DoRestore => do_restore m
  | DoSafety => do_safety m
  end.

Fixpoint do_actions (acts : list action) (m : Machine) : option Machine :=
  match acts with
  | [] => Some m
  | act :: acts => m' ← do_action act m; do_actions acts m'
  end.

Lemma do_receive_step e o m m' :
  received e (mc_outside m) o -> do_receive e o m = Some m' -> machine_step exp scalar_json m m'.
Proof.
  intros Hr. unfold do_receive. destruct (turn exp e (mc_owner m)) as [[[]|] owner] eqn:Ht; [|done].
  intros [= <-]. by eapply ms_turn.
Qed.

Lemma do_action_step act m m' : do_action act m = Some m' -> machine_step exp scalar_json m m'.
Proof.
  destruct act; simpl.
  - destruct (from_outside e) eqn:He; [|done]. apply do_receive_step. by constructor.
  - destruct (o_frequency _) eqn:Ho; [done|]. apply do_receive_step. by constructor.
  - destruct (o_scheduler _) eqn:Ho; [done|]. apply do_receive_step. by constructor.
  - destruct (o_restore _) eqn:Ho; [done|]. apply do_receive_step. by constructor.
  - destruct (o_safety _) eqn:Ho; [done|]. apply do_receive_step. by constructor.
  - destruct (o_running _) eqn:Ho; [done|]. destruct (ch_frequency_command _) eqn:Hc; [|done].
    intros [= <-]. by apply ms_worker_takes.
  - destruct (cf_actuator _) as [a|] eqn:Ha; [|done]. simpl. unfold do_work.
    destruct (o_running _) as [[id work|id]|] eqn:Ho; [|intros [= <-]; by apply ms_quiesce|done].
    destruct (run_job _ _ _ _) as [[[o|e|] trace] sys] eqn:Hr; [|done|done].
    intros [= <-]. by eapply ms_reconcile.
  - destruct (cf_actuator _) as [a|] eqn:Ha; [|done]. simpl. unfold do_scheduler.
    destruct (ch_schedulers _) as [|[id job] l] eqn:Hs; [done|].
    destruct (run_job _ _ _ _) as [[[o|e|] trace] sys] eqn:Hr; [|done|done].
    intros [= <-]. by eapply ms_scheduler.
  - unfold do_restore. destruct (ch_restores _) as [|id l] eqn:Hs; [done|].
    destruct (restore_worker _ _ _) as [[r poisoned] sys] eqn:Hr.
    intros [= <-]. by apply ms_restore.
  - unfold do_safety. destruct (ch_safety_updates _) as [|[id caps] l] eqn:Hs; [done|].
    destruct (safety_task _ _ _) as [outcome fence] eqn:Hr.
    intros [= <-]. by eapply ms_safety.
Qed.

Lemma do_actions_steps acts m m' :
  do_actions acts m = Some m' -> rtc (machine_step exp scalar_json) m m'.
Proof.
  revert m. induction acts as [|act acts IH]; intros m; simpl; [intros [= <-]; apply rtc_refl|].
  destruct (do_action act m) as [m1|] eqn:Ha; [|done]. intros Hs.
  eapply rtc_l; [by apply (do_action_step act)|by apply IH].
Qed.
Lemma do_actions_app l k m : do_actions (l ++ k) m = m' ← do_actions l m; do_actions k m'.
Proof.
  revert m. induction l as [|x l IH]; intros m; simpl; [done|].
  destruct (do_action x m); simpl; [apply IH|done].
Qed.
End execution.

(** ** The simulated daemon *)

#[global] Instance sim_reader : IdentityReader SimWorld := {
  reader_spawn w := (inr tt, w);
  reader_try_send id w := (true, false, w);
}.

Definition sim_resolved : ResolvedTarget :=
  {| rt_id := "cpu0"; rt_kind := "cpu"; rt_label := [PText "cpu0"]; rt_cpus := {[ 0 ]};
     rt_hardware_limits := {| lim_min := 1000000; lim_max := 4000000 |};
     rt_available_frequencies := [1000000; 2000000; 3000000; 4000000];
     rt_paths := {| ftp_id := "cpu0"; ftp_minimum := "/sys/devices/cpu0/scaling_min_freq";
                    ftp_maximum := "/sys/devices/cpu0/scaling_max_freq";
                    ftp_current := "/sys/devices/cpu0/scaling_cur_freq"; ftp_hertz_per_unit := 1000 |};
     rt_automatic_policy := None; rt_energy_model := None; rt_administrator_cap := Some 4000000;
     rt_critical_cap := 2000000; rt_sensor_failure_cap := 3000000 |}.

Definition sim_configuration : ResolvedConfiguration :=
  {| rc_device := wit_device; rc_policy := wit_materialized;
     rc_apps := {| apps_schema_version := 1; apps_rules := [] |};
     rc_app_rule_engine := []; rc_policy_engine := wit_engine;
     rc_targets := {[ "cpu0" := sim_resolved ]}; rc_thermal_zones := []; rc_warnings := [] |}.

Definition sim_exp (x : f64) : f64 := x.
Definition sim_json (v : ScalarSettingValue) : string := "".

Definition sim_new : option unit * RuntimeActor SimWorld :=
  RuntimeActor_new sim_configuration (Some sim_actuator) claimed_start.
Definition sim_owner : RuntimeActor SimWorld := sim_new.2.

Definition sim_machine : Machine := start_machine sim_owner.

Definition sim_run (acts : list action) : option Machine :=
  do_actions sim_exp sim_json acts sim_machine.

(** The fence takes the caps of the start; activated, the daemon submits a job, which the worker runs; then it is asked to
    sleep, and quiesces the worker. *)
Definition to_fenced : list action := [DoSafety; DoReceiveSafety].

Definition to_quiesced : list action :=
  to_fenced ++
  [DoTurn (InCommand (CmdActivate 1)); DoTurn InTick; DoTake; DoWork; DoReceiveFrequency;
   DoTurn (InRuntime (RiPrepareForSleep true 7)); DoTake; DoWork].

(** The quiesce is acknowledged and the restoration starts; then it is done. *)
Definition to_restoring : list action := to_quiesced ++ [DoReceiveFrequency].
Definition to_asleep : list action := to_restoring ++ [DoRestore; DoReceiveRestore].

Definition after (acts : list action) : Machine :=
  match sim_run acts with Some m => m | None => sim_machine end.

Lemma sim_started : started sim_configuration (Some sim_actuator) sim_world sim_machine.
Proof.
  apply (started_with _ _ _ claimed_start); [intros a [= <-]; apply claimed_reachable|].
  assert (E : sim_new.1 = Some tt) by (vm_compute; reflexivity).
  unfold sim_owner. fold sim_new. rewrite <- E. by destruct sim_new.
Qed.

Lemma sim_reached acts :
  is_Some (sim_run acts) -> rtc (machine_step sim_exp sim_json) sim_machine (after acts).
Proof. intros [m Hm]. unfold after. rewrite Hm. by apply (do_actions_steps _ _ acts). Qed.

Lemma sim_is_Some {A} (o : option A) : (if o then true else false) = true -> is_Some o.
Proof. destruct o; [eauto|done]. Qed.

(** A daemon whose actuator refuses to restore: the state owner latches. *)
Definition degraded_start : St SimWorld :=
  (run_operation sim_actuator (OpMarkFailed [T "recovery failed"]) claimed_start).2.

Lemma degraded_reachable : reachable sim_actuator sim_world degraded_start.
Proof.
  eapply reachable_step; [apply claimed_reachable|].
  apply (step_operation sim_actuator (OpMarkFailed [T "recovery failed"]) claimed_start (Ok tt)); [|done].
  vm_compute. reflexivity.
Qed.

Definition degraded_new : option unit * RuntimeActor SimWorld :=
  RuntimeActor_new sim_configuration (Some sim_actuator) degraded_start.
Definition degraded_machine : Machine := start_machine degraded_new.2.

Lemma degraded_started : started sim_configuration (Some sim_actuator) sim_world degraded_machine.
Proof.
  apply (started_with _ _ _ degraded_start); [intros a [= <-]; apply degraded_reachable|].
  assert (E : degraded_new.1 = Some tt) by (vm_compute; reflexivity).
  fold degraded_new. rewrite <- E. by destruct degraded_new.
Qed.

Definition to_latched : list action :=
  [DoTurn (InRuntime (RiPrepareForSleep true 7)); DoRestore; DoReceiveRestore].

Definition degraded_after (acts : list action) : Machine :=
  match do_actions sim_exp sim_json acts degraded_machine with Some m => m | None => degraded_machine end.

Lemma degraded_reached acts :
  is_Some (do_actions sim_exp sim_json acts degraded_machine) ->
  rtc (machine_step sim_exp sim_json) degraded_machine (degraded_after acts).
Proof. intros [m Hm]. unfold degraded_after. rewrite Hm. by apply (do_actions_steps _ _ acts). Qed.

Lemma degraded_next acts x :
  is_Some (do_actions sim_exp sim_json (acts ++ [x]) degraded_machine) ->
  machine_step sim_exp sim_json (degraded_after acts) (degraded_after (acts ++ [x])).
Proof.
  unfold degraded_after. rewrite do_actions_app. intros [m Hm].
  destruct (do_actions _ _ acts _) as [m1|]; [|done]. cbn [mbind option_bind] in Hm |- *.
  simpl in Hm |- *. destruct (do_action _ _ x m1) as [m2|] eqn:Hx; [|done].
  by apply (do_action_step _ _ x).
Qed.

(** * The daemon never mutates what it is giving back

    The end-to-end statements about the state owner, its workers and the
    actuator under them. *)

Section theorems.
Context {W : Type} `{!Ports W} `{JournalCodec} `{!Environment W} `{!IdentityReader W} `{RegexEngine}.
Context (exp : f64 -> f64) (scalar_json : ScalarSettingValue -> string).
Context (c : ResolvedConfiguration) (actuator : option Actuator) (w : W) (m0 m : Machine (W := W)).

(** C2: The daemon refines the protocol: whatever happens outside, and however
    its workers are scheduled, every run of the state owner, the frequency
    worker, the scheduler and restoration tasks, the safety fence and the
    reload worker is a run of the abstract protocol from its initial state. *)
Theorem daemon_refines_protocol :
  started c actuator w m0 -> rtc (machine_step exp scalar_json) m0 m ->
  rtc step (abstract m0) (abstract m).
Proof.
  intros (_ & _ & Hl)%started_inv Hs. by apply (machine_steps_sim exp scalar_json w).
Qed.

(** C11: Write-ahead ownership of the whole daemon: unless a panic has poisoned
    a lock, every attribute the daemon has written was claimed, at that
    moment, by every journal that could be durable, so that the next start
    can give it back. *)
Theorem daemon_writes_are_covered a :
  actuator_wf a -> actuator = Some a ->
  started c actuator w m0 -> rtc (machine_step exp scalar_json) m0 m ->
  mc_poisoned m = false ->
  covered (loaded_journal w) (st_log (ra_sys (mc_owner m))).
Proof.
  intros Hwf Ha Hm0 Hs Hp. destruct (started_inv _ _ _ _ Hm0) as (_ & _ & Hl0).
  destruct (machine_steps_sim _ _ _ _ _ Hs Hl0) as (_ & Hl & Hact).
  assert (Ha0 : cf_actuator (ra_config (mc_owner m)) = Some a).
  { rewrite Hact, <- Ha. by apply (started_actuator c _ w). }
  by destruct (reachable_inv a Hwf w _ (Hl Hp a Ha0)) as [[Hc _] _].
Qed.

(** C4: A restoration excludes every mutation: while one is in flight, no
    frequency command is queued or being run, no result of one is
    outstanding, and no scheduler job is queued. *)
Theorem restoration_excludes_mutation :
  started c actuator w m0 -> rtc (machine_step exp scalar_json) m0 m ->
  fresh (proto (mc_owner m)) ->
  is_Some (ba_restore_in_flight (ra_barrier (mc_owner m))) ->
  o_running (mc_outside m) = None
  /\ ch_frequency_command (ra_channels (mc_owner m)) = None
  /\ ch_schedulers (ra_channels (mc_owner m)) = [] /\ o_scheduler (mc_outside m) = []
  /\ ln_frequency_command_pending (ra_lanes (mc_owner m)) = None.
Proof.
  intros Hm0 Hs Hf Hr. destruct (run_inv _ _ _ _ _ _ _ Hm0 Hs) as (Hi & _).
  specialize (Hi Hf). apply (idle_nothing_outside _ _ Hi), (co_restoring _ _ Hi Hr).
Qed.


(** Every result is awaited: the oldest result in each queue answers the
    command, job, restoration or fence update the state owner is waiting for,
    so the branches for unexpected results are never taken. *)
Theorem results_are_awaited :
  started c actuator w m0 -> rtc (machine_step exp scalar_json) m0 m ->
  fresh (proto (mc_owner m)) ->
  (forall e l, o_frequency (mc_outside m) = e :: l ->
     ch_frequency_closed (ra_channels (mc_owner m)) = false ->
     unexpected e (proto (mc_owner m)) = false)
  /\ (forall e l, o_scheduler (mc_outside m) = e :: l ->
        ln_scheduler_in_flight (ra_lanes (mc_owner m)) = Some (sw_id e) /\ l = [])
  /\ (forall e l, o_restore (mc_outside m) = e :: l ->
        ba_restore_in_flight (ra_barrier (mc_owner m)) = Some (RuntimeTypes.rs_id e) /\ l = [])
  /\ (forall e l, o_safety (mc_outside m) = e :: l ->
        sf_update_in_flight (ra_safety (mc_owner m)) = Some (fso_id e) /\ l = []).
Proof.
  intros Hm0 Hs Hf. destruct (run_inv _ _ _ _ _ _ _ Hm0 Hs) as (Hi & _). specialize (Hi Hf).
  split; [|split; [|split]]; intros e l He.
  - by apply (frequency_awaited _ _ _ _ Hi He).
  - destruct (scheduler_awaited _ _ _ _ Hi He) as (? & ? & _). done.
  - destruct (restore_awaited _ _ _ _ Hi He) as (? & ? & _). done.
  - destruct (update_awaited _ _ _ _ Hi He) as (? & ? & _). done.
Qed.

(** ** The fence *)

(** C5: The safety fence follows the thermal state: whenever no update of the
    fence is under way and none has failed, the caps every reconciliation runs
    under are those of the present thermal state, together with the
    administrator's. While an update is under way or waits, nothing is
    submitted. *)
Theorem fence_follows_thermal_state :
  started c actuator w m0 -> rtc (machine_step exp scalar_json) m0 m ->
  fresh (proto (mc_owner m)) ->
  fa_frequency_safety_failure (ra_failures (mc_owner m)) = None ->
  let s := mc_owner m in
  let targets := rc_targets (cf_configuration (ra_config s)) in
  (sf_update_in_flight (ra_safety s) = None ->
   env_upper_caps (ff_envelope (o_fence (mc_outside m)))
   = upper_caps_of (omap rt_administrator_cap targets)
       (omap (thermal_cap_of (sn_thermal_state (ra_sensing s))) targets))
  /\ (is_Some (sf_update_in_flight (ra_safety s)) -> submission_blocked s = true).
Proof.
  intros Hm0 Hs Hf Hok. destruct (run_inv _ _ _ _ _ _ _ Hm0 Hs) as (Hi & [Hc Hr] & _). specialize (Hi Hf).
  assert (Hfail : pr_safety_failed (proto (mc_owner m)) = false) by (cbn; by rewrite Hok).
  specialize (Hr Hfail). pose proof (co_fence _ _ Hi Hfail) as Hfence. split.
  - intros Hn. unfold fence_tracks in Hfence.
    change (pr_safety (abstract m).2) with (ra_safety (mc_owner m)) in Hfence. rewrite Hn in Hfence.
    destruct Hfence as [_ Hfence]. unfold fence_caps in Hfence. etrans; [exact Hfence|].
    etrans; [exact Hr|]. by rewrite Hc.
  - intros Hin. unfold submission_blocked. rewrite (bool_decide_eq_true_2 _ Hin). by rewrite !orb_true_r.
Qed.

(** ** The latch *)

(** C12: A latch is final: once the state owner has lost track of a worker it
    never submits again. No step of the daemon clears the latch or queues a
    reconciliation or a scheduler job: what is queued afterwards was queued
    before, or only asks the worker to quiesce. *)
Theorem latch_is_final m' :
  started c actuator w m0 -> rtc (machine_step exp scalar_json) m0 m ->
  machine_step exp scalar_json m m' -> fresh (proto (mc_owner m')) ->
  latched (mc_owner m) = true ->
  latched (mc_owner m') = true
  /\ (forall id work, ch_frequency_command (ra_channels (mc_owner m')) = Some (FwReconcile id work) ->
        ch_frequency_command (ra_channels (mc_owner m)) = Some (FwReconcile id work))
  /\ (forall id job, (id, job) ∈ ch_schedulers (ra_channels (mc_owner m')) ->
        (id, job) ∈ ch_schedulers (ra_channels (mc_owner m))).
Proof.
  intros Hm0 Hs Hstep Hf Hl. destruct (run_inv _ _ _ _ _ _ _ Hm0 Hs) as (Hi & _ & Hlive).
  destruct (machine_step_sim _ _ _ _ _ Hstep Hlive) as (Hs' & _).
  exact (latched_steps _ _ Hs' Hi Hf Hl).
Qed.
End theorems.

(** ** A run of the simulated daemon *)

Lemma daemon_refines_protocol_witness :
  rtc step (abstract sim_machine) (abstract (after to_asleep))
  /\ ra_replies (mc_owner (after to_asleep)) <> [].
Proof.
  split; [|assert (E : bool_decide (length (ra_replies (mc_owner (after to_asleep))) = 0%nat) = false) by (vm_compute; reflexivity)].
  - apply (daemon_refines_protocol sim_exp sim_json sim_configuration (Some sim_actuator) sim_world);
      [apply sim_started|apply sim_reached, sim_is_Some; vm_compute; reflexivity].
  - apply bool_decide_eq_false in E. by destruct (ra_replies _).
Defined.

Lemma daemon_writes_are_covered_witness :
  covered (loaded_journal sim_world) (st_log (ra_sys (mc_owner (after to_asleep))))
  /\ existsb (fun ev => match ev with EvWrite _ _ _ => true | _ => false end)
       (st_log (ra_sys (mc_owner (after to_asleep)))) = true.
Proof.
  split; [|vm_compute; reflexivity].
  apply (daemon_writes_are_covered sim_exp sim_json sim_configuration (Some sim_actuator) sim_world
           sim_machine (after to_asleep) sim_actuator sim_actuator_wf eq_refl sim_started);
    [apply sim_reached, sim_is_Some; vm_compute; reflexivity|vm_compute; reflexivity].
Defined.

Lemma restoration_excludes_mutation_witness :
  is_Some (ba_restore_in_flight (ra_barrier (mc_owner (after to_restoring))))
  /\ o_running (mc_outside (after to_restoring)) = None.
Proof.
  assert (Hr : is_Some (ba_restore_in_flight (ra_barrier (mc_owner (after to_restoring)))))
    by (apply sim_is_Some; vm_compute; reflexivity).
  split; [exact Hr|].
  apply (restoration_excludes_mutation sim_exp sim_json sim_configuration (Some sim_actuator) sim_world
           sim_machine (after to_restoring) sim_started);
    [apply sim_reached, sim_is_Some; vm_compute; reflexivity|vm_compute; reflexivity|exact Hr].
Defined.


Lemma results_are_awaited_witness :
  exists e, o_frequency (mc_outside (after to_quiesced)) = [e]
    /\ unexpected e (proto (mc_owner (after to_quiesced))) = false.
Proof.
  assert (E : o_frequency (mc_outside (after to_quiesced)) = [FwQuiesced 2]) by (vm_compute; reflexivity).
  exists (FwQuiesced 2). split; [exact E|].
  eapply (results_are_awaited sim_exp sim_json sim_configuration (Some sim_actuator) sim_world
            sim_machine (after to_quiesced) sim_started);
    [apply sim_reached, sim_is_Some; vm_compute; reflexivity|vm_compute; reflexivity|exact E
    |vm_compute; reflexivity].
Defined.

(** At the start the thermal state is degraded: the fence takes the cap of a
    failed sensor, and until it has, nothing is submitted. *)
Lemma fence_follows_thermal_state_witness :
  env_upper_caps (ff_envelope (o_fence (mc_outside (after to_fenced)))) !! "cpu0" = Some 3000000
  /\ submission_blocked (mc_owner sim_machine) = true.
Proof.
  split.
  - refine (eq_trans (f_equal (fun caps => caps !! "cpu0")
      (proj1 (fence_follows_thermal_state sim_exp sim_json sim_configuration (Some sim_actuator) sim_world
                sim_machine (after to_fenced) sim_started _ _ _) _)) _);
      [apply sim_reached, sim_is_Some; vm_compute; reflexivity|vm_compute; reflexivity..].
  - refine (proj2 (fence_follows_thermal_state sim_exp sim_json sim_configuration (Some sim_actuator) sim_world
              sim_machine sim_machine sim_started (rtc_refl _ _) _ _) _);
      [vm_compute; reflexivity..|apply sim_is_Some; vm_compute; reflexivity].
Defined.

Lemma latch_is_final_witness :
  latched (mc_owner (degraded_after to_latched)) = true
  /\ latched (mc_owner (degraded_after (to_latched ++ [DoTurn InTick]))) = true.
Proof.
  assert (Hl : latched (mc_owner (degraded_after to_latched)) = true) by (vm_compute; reflexivity).
  split; [exact Hl|].
  refine (proj1 (latch_is_final sim_exp sim_json sim_configuration (Some sim_actuator) sim_world
            degraded_machine (degraded_after to_latched) _ degraded_started _ _ _ Hl)).
  - apply degraded_reached, sim_is_Some. vm_compute. reflexivity.
  - apply degraded_next, sim_is_Some. vm_compute. reflexivity.
  - vm_compute. reflexivity.
Defined.

(** ** The daemon publishes *)

Definition publishing_events : list RuntimeEventIn :=
  [InCommand (CmdActivate 1); InTick; InCommand (CmdSetMode "performance" 2); InCommandsClosed].

Definition publishing : option Publisher * RuntimeActor SimWorld := publisher_start "1.0" sim_json sim_owner.

Definition published_end : option (list PublicOutput * Publisher) * RuntimeActor SimWorld :=
  match publishing with
  | (Some p, s) => owner_run "1.0" sim_json sim_exp publishing_events p s
  | (None, s) => (None, s)
  end.

Definition output_kind (o : PublicOutput) : string :=
  match o with Replaced p => "snapshot" | SentState r => "state" | SentHealth _ => "health" | SentCapabilities => "capabilities" end.

Definition published_summary (r : option (list PublicOutput * Publisher) * RuntimeActor SimWorld)
  : list string * string * Z :=
  match r with
  | (Some (outs, p), s) => (map output_kind outs, ds_mode (ps_status (pr_current p)), pr_revision p)
  | (None, _) => ([], "", 0)
  end.

(** Two turns change the state, and one the health. *)
Lemma published_state_coherent_witness :
  exists p0 s1 outs p s,
    publishing = (Some p0, s1) /\ published_end = (Some (outs, p), s)
    /\ published_summary published_end
       = (["snapshot"; "state"; "snapshot"; "health"; "snapshot"; "state"], "performance", 2)
    /\ shows (pr_current p) s /\ announced (pr_current p0) outs.
Proof.
  assert (Hsum : published_summary published_end
    = (["snapshot"; "state"; "snapshot"; "health"; "snapshot"; "state"], "performance", 2)) by (vm_compute; reflexivity).
  destruct published_end as [[[outs p]|] s] eqn:He; [|discriminate Hsum]. pose proof He as Hrun. unfold published_end in Hrun.
  destruct publishing as [[p0|] s1] eqn:Hp; [|discriminate Hrun].
  exists p0, s1, outs, p, s. split; [reflexivity|]. split; [reflexivity|]. split; [exact Hsum|].
  exact (published_state_coherent "1.0" sim_json sim_exp publishing_events sim_owner s1 s p0 outs p Hp Hrun).
Defined.
